(* ===== verification/_CoqProject ===== *)
-Q . S2P
Prelude.v
Json.v
Upstream.v
KeyPool.v
KeyPoolSpec.v
KeyPoolMethods.v
Session.v
SessionSpec.v
HirezClient.v
HirezClientSpec.v
Queue.v
WebCompat.v
Model.v
Resolver.v
ResolverSpec.v
ResolverBatch.v
Lifecycle.v
LifecycleSpec.v
HourlyIngest.v
Coordination.v
Regex.v
Cache.v
CacheSpec.v
Deployment.v
Security.v
Foundation.v
FoundationSpec.v
RouteCache.v
RouteCacheSpec.v
Policy.v
Schedule.v
SchedulerHost.v
Outage.v
Pipeline.v
PipelineSpec.v
MatchFacts.v
MatchFactStore.v
MatchFactsSpec.v
GapCheck.v
Dispatch.v
RawBuffer.v
RawBufferWorker.v
PipelineHours.v
SchedulerDouble.v
RequestedMatch.v
RequestedMatchSpec.v
RequestedMatchDrain.v
MatchFactLink.v
RawBufferSpec.v
RankedStage.v
RankedProjection.v
RankedProjectionSpec.v
F64.v
JsValue.v
Normalizer.v
Profile.v
Contract.v
Operations.v
NormalizerSpec.v
HistoryStore.v
RawDump.v
LiveProvider.v
RealDispatch.v
RelayDouble.v
IdentityScore.v
IdentityTracking.v
PrivateIdentity.v
PrivateAccounts.v
PrivateIdentitySpec.v
Accounts.v
Oidc.v
PlayerLink.v
AccountsSpec.v
AccountsOrder.v
AccountsDouble.v
KeyRepository.v
KeyRepositorySpec.v
UsageProbe.v
