(* ===== verification/Prelude.v ===== *)
(** * PaladinsCat backend: verification library

    The repository is a Cargo workspace of three crates: paladinscat-core
    (shared policy), hirez-relay-rust (the relay: the only process that talks
    to the Hi-Rez provider) and backend-rust (the API server and the workers
    that discover matches and acquire their evidence).  This library models the
    code that decides what is asked of the provider, who may ask it, and what
    may be believed of the answers.

    ** How the parts interact

    A worker process acquires a scheduler domain and a job (Coordination) and
    runs the pipeline for each queue hour (Pipeline): it claims the hour,
    searches it once and closes it (HourlyIngest), fetches the new matches in
    batches of ten, and resumes the known ones through the ledger (Lifecycle),
    whose planner says what evidence is missing.  The relay answers such a request through
    the resolver (Resolver), whose provider calls go through the request client
    (HirezClient); the client takes a key from the pool (KeyPool) and a session
    of that key (Session).  Both ends share the queue policy (Queue).

    What the pipeline finalizes, and what waits in the raw buffer (RawBuffer,
    RawBufferWorker), becomes facts in one transaction (MatchFacts,
    MatchFactStore), which leaves the lease of the match alone
    (MatchFactLink).  A host process runs the jobs of a domain (Schedule,
    SchedulerHost): the discovery, the scan for unfinished hours (GapCheck),
    the drain of the buffer and the enrichment of profiles within its budget
    (Policy), each under a job lease and in the run log (Dispatch).  A ranked
    match is then counted in three stages under a claim of its ledger row
    (RankedStage, RankedProjection).  Players of a match whom the provider hides
    are observed in the transaction of its facts and attached to private
    identities (PrivateIdentity, by the scores of IdentityScore), which
    moderators and users act on (PrivateAccounts).

    A caller of the relay names an operation; the contract says what its
    arguments are (Contract) and an arm reads and runs it (RealDispatch): a
    provider operation (Operations), a cached history (HistoryStore), a player
    lookup, the dump of raw payloads into the buffer the worker
    empties (RawDump), or a resolution of the resolver over the running
    provider (LiveProvider), which normalizes what the provider sent
    (Normalizer, Profile).

    The API server puts every request through one middleware (Foundation): the
    cookie and the headers (Security), the state of the deployment
    (Deployment), the public rate limits and the limit of an API key (Cache),
    and the gates of privileged routes.  Handlers read through the route cache
    (RouteCache), whose leases and entries live in the shared cache.  The
    handlers of accounts (Accounts) give out sessions for a password or an
    identity (Oidc) and link an account to a player (PlayerLink).

    ** The files

    A file named after another with Spec holds the theorems on it; the files
    of the smaller components hold both.  Where a theorem needs a concrete
    environment (a scripted provider, an in-memory server, a table), it stands
    after the theorems, at the end of the last file of the component.

    - Prelude (this file): machine integers, the state monad [ST] and its
      early-return binds, list, option, string and sorting lemmas, the hint
      database [cat].
    - Json: serde_json's values and their readers.  Upstream: the traits of
      hirez-relay-rust/src/upstream.rs as type classes over a world [W].
    - KeyPool models key_pool.rs.  The in-memory state is [KeyPoolInner]; each
      critical section is a pure function on it and each method a program in
      [ST State] that alternates sections with calls to the repository, the
      usage probe, the cipher and the key file, which are classes.
      KeyPoolSpec holds the lemmas on the sections, the abstract step relation
      of the pool, the accounting of calls and the refinement of every method
      to the runs of that relation its kind allows, KeyPoolMethods what each
      method returns and a concrete environment with the witnesses run on it.  KeyPool discharges
      the class [ApiKeyState] the client is written against.
    - KeyRepository models postgres_repository.rs, the repository of the pool, as
      an instance of the pool's interface over the tables of keys, hourly counts
      and logged endpoints; KeyRepositorySpec proves the estimate of a key's
      usage against the flushes recorded, and where the calls of a pool over
      these tables are.  UsageProbe models usage_probe.rs over the sessions.
    - Session models session.rs, with acquire_session a second time as
      interleaved tasks cut at the await points; SessionSpec proves its store
      invariant and outcomes.
    - HirezClient models hirez_client.rs: one request, its attempts, the class
      of the provider's in-band message and the reaction to it.
      HirezClientSpec bounds and classifies it, with a scripted provider.
    - Queue and WebCompat model paladinscat-core/src/queue.rs with region.rs,
      and web_compat.rs.
    - Model models hirez-relay-rust/src/model.rs and the trait of provider.rs;
      Resolver models resolver.rs.  ResolverSpec holds the merge, the score
      consensus, the validation and the contract of each resolution status;
      ResolverBatch the batch, its failures and its permitted calls, the
      resumption, the truth of the reported call count and an in-memory
      provider with the witnesses.
    - Lifecycle models workers/match_lifecycle.rs: each SQL statement is a
      function on [MatchTables] (a map of match_ingest_status rows and the
      tables its queries read).  LifecycleSpec proves the lease, the planner,
      the completion and the registration.
    - HourlyIngest models workers/discovery_control.rs and discovery_store.rs,
      Coordination workers/coordination.rs, in the same manner.
    - Outage models workers/outage.rs and Pipeline workers/pipeline.rs over the
      tables of HourlyIngest and Lifecycle, with the relay, the fact store and
      the projections as the class [PipelineServices].  PipelineSpec proves the
      drain of new matches, PipelineHours that executions of an hour ask the
      provider once and what becomes of two kinds of hours, with a concrete
      relay and database.
    - RequestedMatch models workers/requested_match.rs and the calls of
      workers/relay.rs it makes, over the same database; [canonical_services]
      gives it to the pipeline as its resumption of a match.
      RequestedMatchSpec proves its contract, the end of its claim and that
      ready means projected; RequestedMatchDrain what that makes of the
      pipeline's resumption.
    - Regex matches the route patterns, parsed from the texts of the source, by
      derivatives.  Cache models paladinscat-core/src/cache.rs over a server
      that keeps the class [ServerLaw] (what each command does, answers may be
      lost); CacheSpec holds leases, rate limits and values, and a server that
      keeps the law.  Deployment models deployment.rs.
    - Security models backend-rust/src/security.rs, Foundation the middleware
      of foundation.rs in its stages; FoundationSpec holds its theorems and the
      interleaving of requests over the developer slots.
    - RouteCache models route_cache.rs, RouteCacheSpec the interleaving of
      requests and spawned refreshes.
    - Policy models workers/policy.rs, Schedule workers/scheduler.rs with the
      cron evaluator of scheduler_host.rs, SchedulerHost the execution of a job
      and the loop of a domain, GapCheck the gap scan and Dispatch the job
      bodies of scheduler_host.rs; SchedulerDouble is their environment.
    - MatchFacts models the payload of workers/match_facts.rs, MatchFactStore
      its transaction over the ledger, the matches, the non-ranked matches and
      the hourly counts; MatchFactsSpec holds the theorems of both;
      MatchFactLink proves the laws RequestedMatchSpec and RequestedMatchDrain
      ask of the fact store.
    - RawBuffer models the table of workers/raw_buffer.rs with the statements on
      it, RawBufferWorker a batch; RawBufferSpec holds their theorems.
    - RankedStage holds the upsert of a row of counters with its column widths
      and models the first stage of workers/ranked_projection.rs table by
      table, RankedProjection its transactions, batches and repairs with those
      of projections.rs they call; RankedProjectionSpec holds their step
      relation, in which the rest of the backend and the scheduled rebuild of
      maintenance.rs take part, and the theorems.
    - IdentityScore models the scoring of workers/private_identity.rs,
      PrivateIdentity its tables, the statements and transactions of the
      resolver, of the merging of split identities and of the backfill, and the
      function persist_and_resolve_private_identities that the transaction of
      MatchFactStore takes as an interface; PrivateAccounts the verification of
      names and the moderation of routes/admin/private_accounts.rs and the
      reports of routes/player_ext.rs.  IdentityTracking is the abstract
      specification: observations linked to identities, which earlier programs
      may have merged as in a union-find.  PrivateIdentitySpec proves that the
      operations refine it, and their contracts, and runs them on a small
      table.
    - Accounts models the tables, the sessions, the passwords and the read marks
      of routes/auth.rs with routes/identity.rs and the roles of
      routes/admin/roles.rs, Oidc the admission of identities and the
      transactions of the login, PlayerLink the link of an account to a player
      with the guard of routes/live.rs.  A handler is a sequence of statements;
      before each one other requests may have changed the tables (the method
      [others] of [AccountServices]).  The world records what a request has
      seen (a ghost, [Sight]: the tables of each statement that ran, a token
      validated, loadouts fetched), which is the evidence of the theorems.
      AccountsSpec puts the routes together ([auth_router]), shows that each is
      a run of the steps [AccountStep], and holds the theorems on rights and
      links; AccountsOrder those on the order of
      the tables, the sessions and the checks; AccountsDouble is their
      environment.
    - F64 is the 64-bit float of Rust, on the Standard Library's SpecFloat;
      JsValue the JavaScript readings of normalizer.rs, Normalizer its matches,
      histories and flat rows, Profile its player profiles; NormalizerSpec
      holds their theorems.
    - Contract models contract.rs with the manifest of
      contracts/hirez-relay-operation-contract.json written out, Operations
      operations.rs over the class [ApiCaller] that [hirez_caller] discharges
      with the client, and player_lookup.rs, HistoryStore history_operation.rs
      and history_store.rs, RawDump raw_buffer_store.rs over the table of
      RawBuffer, LiveProvider live_provider.rs as an instance of the provider
      of the resolver, RealDispatch real_dispatch.rs with its arms as a table;
      RelayDouble is their environment.

    ** What the theorems show

    - Exclusion and ownership, over every interleaving of statements of any
      number of processes: the lease of a match, of an hour, of a scheduler
      domain and of a job has one holder; an hour's provider search is granted
      at most once; a session key is created by one task at a time.
    - Preservation: no call of a key is lost or counted twice between pending,
      in-flight and settled but by a reload, whose difference is part of the
      sum, nor between a pool and its tables unless the answer to a commit is
      lost; the usage estimated for a key is its flushed calls of the last day
      since its last reset; the ledger only gains evidence; stored sessions
      stay sound; the pool stays well-formed through every method.
    - Functional contracts on every branch: key selection, retirement,
      revival and flush; the client's results; the status contract of each
      resolution of a batch; score consensus; merging of players; planning;
      completion by SQL against completion by plan; registration.
    - The drain of an hour: it ends after at most two relay calls per match and,
      when it succeeds, has counted exactly every match and checkpointed it, or
      the other match whose payload the relay gave under its id; an
      hour, however often executed, is searched at most once.
    - The resumption of known matches: each asks the relay for exactly what its
      evidence lacks, never keeps its claim, and when the resumption succeeds
      every match of it is projected or closed in the ledger.
    - Bounds: the requests and sleeps of one client call, the probes of the key
      pool included; the calls a casual
      batch and a resumption are confined to; the reported call count; the
      requests a rate limit lets pass; the developer slots in use.
    - The facts of a match: a payload that is accepted is well-formed; their
      transaction is atomic even when the answer of its commit is lost, closes
      the row of the ledger and writes nothing the second time; the hourly count is the number of the hour's matches.
    - The raw buffer: over every interleaving a match is worked on once at a
      time; a successful batch leaves no claim behind while the database
      answers; the adaptive projections
      end and leave no match out.
    - The ranked statistics: over every interleaving a match is counted once,
      in the tables a rebuild replaces as long as none commits; each operation is a run of six transactions, and what a counter without
      room does to them.
    - The relay: the gate and the arms of the dispatch agree but in two places;
      its answers fit a JSON column; a history written is read back; a dump
      keeps the claims of the buffer exclusive and loses no payload but what its
      own reads show to be there; the calls
      a recovery reports are not fewer than those made; flat rows are
      partitioned into matches; levels follow the experience.
    - The API: a handler runs only behind every gate, guards are given back on
      every path, the versioned API reaches no privileged route; a cache lease
      has one holder, as long as its key is not deleted by a flush or a pattern
      ([flush_frees_lease]); a limiter lets at most twice its limit pass with an
      answer of the cache, and everything without one ([unavailable_passes]);
      a cached response is refreshed by one task at a time and
      survives its round trip.
    - The private identities: every operation is a run of the abstract
      tracking; a match has an identity once, counts are those of the
      observations and the merges there are have no cycles, whatever fails in
      between; a link is final, and no operation merges; a resolution keeps its
      contract, and links on strong signs only.
    - The accounts: whatever other requests do as long as they keep the same
      invariant, rights come from a request that has read an administrator's
      session, a session from one that has seen the password or the admitted
      identity, a link from one that has fetched a loadout that shows the code;
      names stay distinct in any case; the loadouts are fetched for a code at
      most five times, half a minute apart; a session lasts until its logout or
      its end.
    - The schedule: the cron evaluator agrees with the typed schedules and with
      the meaning of its terms; the ticks of a domain start a job once in a
      minute, beside its startup and the drain after a discovery; a job that
      ran leaves a closed run and no lease; the gap scan proposes exactly
      the newest unfinished hour.
    - What the code does where its comments say otherwise: the sticky backup
      key, the abandoned hour, the removal of a fresh session, the hours that
      never come to rest, the terminal outcome the batch drain cannot record,
      the hour that counts nothing, the repair that stops the buffer, the null
      response that is never read back, the repair of projections whose page is
      always empty, the merge of identities that always fails, the polled
      history that is never refreshed.

    ** Conventions and bounds

    - A Rust integer is a [Z] with the range of its type.  Saturating
      operations clamp at the range; plain i64 arithmetic wraps.  A theorem
      that needs exact sums says so as a hypothesis on the range.
    - The relay's clocks are milliseconds, the instants of SQL microseconds;
      the clock is an argument of a statement, and the runs of HourlyIngest,
      LifecycleSpec and Coordination only require that it does not go back.
    - Two loops take fuel: the wait for another process's response (RouteCache)
      ends by its deadline, which [wait_turns_enough] shows [WAIT_TURNS] turns
      to reach; the halving of chunks (RawBufferWorker) takes twice as many
      turns as there are matches, which [adaptive_projection_ends] shows to be
      enough.  No other definition does: the client's attempts are a structural
      recursion on the number of attempts left; the drain of an hour and its
      resume windows take as many turns as there are matches, since every turn
      removes one ([drain_loop_took] proves that nothing remains); the chain of
      merges of an identity has the source's own bound of sixteen; every other
      loop is a recursion on the list it walks.  Every operation is total.
    - A parameter of a statement has the type the database infers for it, and
      the driver refuses a value of another width; where the source binds such
      a value the model has the error (the merge of PrivateIdentity).  A commit
      may be applied, refused, or applied with its answer lost.
    - A SQL statement is atomic on the rows it writes, as PostgreSQL's row
      locks make it; two claims of the raw buffer that read the table at the
      same moment are therefore taken one after the other.  A transaction whose
      guard fails leaves the tables as they were.  Rows of a table are keyed by
      its primary key.
    - A 64-bit float is the Standard Library's binary64; how one is printed is
      a parameter.
    - JSON parsing, date formatting, MD5, decryption, the HTTP transport and, in
      the theorems on the pool alone, its repository are parameters; each theorem that relies on their types
      names the hypothesis, and a concrete instance satisfies it.

    ** Not modelled

    - Code that calls libraries not under src/: JWT verification (oidc.rs), TLS
      pinning, AES-GCM, the axum server, the connection pool and environment
      parsing; the jitter of the retry sleeper.
    - The handlers that run one query and shape its rows as JSON: the player,
      match, search, statistics, champion, meta and community routes, the
      listings of routes/auth.rs and of the administrators.  Most of their
      content is SQL, whose meaning is PostgreSQL's; the refresh of a player and
      the request for a match (routes/players.rs, routes/players/provider.rs,
      routes/matches.rs) put modelled parts behind such queries.
    - The casual, tier and rating projections and the statements of the two
      later ranked stages (histograms, records, floating-point ratings), the
      profile upserts (profile_enrichment.rs and the relay's profile_store.rs),
      equipment, party groups and player facts of match_facts.rs, the audit rows
      of sessions: interfaces of what calls them, where modelled code does.
    - owner_lease.rs (a PostgreSQL advisory lock whose effect is the server's),
      the process that restarts schedulers, retention, rebuilds and cache
      warming (maintenance.rs, history_retention.rs, cache_warmer.rs),
      adopt_nonranked_batch of match_lifecycle.rs (a migration of the old
      ledger) and the migrations themselves.
    - The five-fold buffering of history calls is taken in the order its answers
      are consumed, and the concurrent recoveries of a resume window in the
      order of the window. *)

From Stdlib Require Export Ascii.
From Stdlib Require Export ZArith Lia Permutation Sorted.
From stdpp Require Export prelude strings pretty gmap.
From stdpp Require sorting.

#[global] Open Scope Z_scope.

(** ** Machine integers

    A Rust integer is a [Z] together with the range of its type.  Saturating
    operations clamp; plain [i64] subtraction wraps, as it does in the release
    profile of Cargo.toml, which leaves [overflow-checks] off. *)

Definition u64_max : Z := 18446744073709551615.
Definition u32_max : Z := 4294967295.
Definition i64_min : Z := -9223372036854775808.
Definition i64_max : Z := 9223372036854775807.
Definition i32_min : Z := -2147483648.
Definition i32_max : Z := 2147483647.

Definition in_u64 (z : Z) : Prop := 0 <= z <= u64_max.
Definition in_u32 (z : Z) : Prop := 0 <= z <= u32_max.
Definition in_i64 (z : Z) : Prop := i64_min <= z <= i64_max.
Definition in_i32 (z : Z) : Prop := i32_min <= z <= i32_max.

Definition sat_add (max x y : Z) : Z := Z.min max (x + y).
Definition sat_add_u64 : Z -> Z -> Z := sat_add u64_max.
Definition sat_add_u32 : Z -> Z -> Z := sat_add u32_max.
(** [saturating_sub] on an unsigned type. *)
Definition sat_sub (x y : Z) : Z := Z.max 0 (x - y).

Definition wrap_i64 (z : Z) : Z := (z + 2 ^ 63) mod 2 ^ 64 - 2 ^ 63.
Definition sub_i64 (x y : Z) : Z := wrap_i64 (x - y).
Definition add_i64 (x y : Z) : Z := wrap_i64 (x + y).
Definition clamp_i64 (z : Z) : Z := Z.max i64_min (Z.min i64_max z).
Definition wrap_i32 (z : Z) : Z := (z + 2 ^ 31) mod 2 ^ 32 - 2 ^ 31.

Lemma wrap_i64_id z : in_i64 z -> wrap_i64 z = z.
Proof.
  unfold in_i64, i64_min, i64_max, wrap_i64. intros H.
  rewrite Z.mod_small; lia.
Qed.

Lemma wrap_i64_range z : in_i64 (wrap_i64 z).
Proof.
  unfold in_i64, i64_min, i64_max, wrap_i64.
  pose proof (Z.mod_pos_bound (z + 2 ^ 63) (2 ^ 64)). lia.
Qed.

Lemma sat_add_u64_exact x y : x + y <= u64_max -> sat_add_u64 x y = x + y.
Proof. unfold sat_add_u64, sat_add. lia. Qed.

Lemma sat_add_u64_range x y : in_u64 x -> in_u64 y -> in_u64 (sat_add_u64 x y).
Proof. unfold in_u64, sat_add_u64, sat_add. lia. Qed.

Lemma sat_add_u32_range x y : in_u32 x -> in_u32 y -> in_u32 (sat_add_u32 x y).
Proof. unfold in_u32, sat_add_u32, sat_add. lia. Qed.

Lemma sat_sub_range x y : in_u64 x -> 0 <= y -> in_u64 (sat_sub x y).
Proof. unfold in_u64, sat_sub. lia. Qed.

(** ** Results and effects *)

Inductive result (A E : Type) : Type :=
  | Ok (a : A)
  | Err (e : E).
Arguments Ok {A E} a.
Arguments Err {A E} e.

Definition result_ok {A E} (r : result A E) : option A :=
  match r with Ok a => Some a | Err _ => None end.

Definition map_err {A E F} (f : E -> F) (r : result A E) : result A F :=
  match r with Ok a => Ok a | Err e => Err (f e) end.

Definition is_ok {A E} (r : result A E) : bool :=
  match r with Ok _ => true | Err _ => false end.

(** The [?] operator between results. *)
Definition rbind {A B E} (r : result A E) (k : A -> result B E) : result B E :=
  match r with Ok a => k a | Err e => Err e end.
Notation "x <-! r ; k" := (rbind r (fun x => k)) (at level 20, r at level 100, k at level 200, only parsing) : stdpp_scope.

(** [iter().map(f).collect::<Result<Vec<_>, _>>()]: the first error. *)
Fixpoint try_map {A B E} (f : A -> result B E) (l : list A) : result (list B) E :=
  match l with
  | [] => Ok []
  | x :: l => y <-! f x; ys <-! try_map f l; Ok (y :: ys)
  end.

Lemma rbind_Ok {A B E} (r : result A E) (k : A -> result B E) y :
  rbind r k = Ok y <-> exists x, r = Ok x /\ k x = Ok y.
Proof. destruct r; simpl; split; [eauto|by intros (? & [= ->] & ?)|done|by intros (? & ? & _)]. Qed.

Lemma try_map_Ok {A B E} (f : A -> result B E) l ys :
  try_map f l = Ok ys <-> Forall2 (fun x y => f x = Ok y) l ys.
Proof.
  revert ys. induction l as [|x l IH]; intros ys; simpl.
  - split; [by intros [= <-]|by inversion 1].
  - rewrite rbind_Ok. setoid_rewrite rbind_Ok. setoid_rewrite IH. split.
    + intros (y & ? & ys' & ? & [= <-]). by constructor.
    + inversion 1; subst. eauto 6.
Qed.

(** State passing over a world [W]: one [ST W A] per [async fn] or method. *)
Definition ST (W A : Type) : Type := W -> A * W.

#[export] Instance ST_ret W : MRet (ST W) := fun A a w => (a, w).
#[export] Instance ST_bind W : MBind (ST W) :=
  fun A B k c w => let '(a, w') := c w in k a w'.

(** The [?] operator: an [Err] leaves the function with the state reached. *)
Definition try_bind {W A B E} (c : ST W (result A E))
    (k : A -> ST W (result B E)) : ST W (result B E) :=
  fun w => match c w with
           | (Ok a, w') => k a w'
           | (Err e, w') => (Err e, w')
           end.

Notation "x <-? c ; k" := (try_bind c (fun x => k))
  (at level 20, c at level 100, k at level 200, only parsing) : stdpp_scope.

(** A success of [?] has passed through both parts. *)
Lemma try_ok {W A B E} (c : ST W (result A E)) (k : A -> ST W (result B E)) w b w' :
  try_bind c k w = (Ok b, w') -> exists a w1, c w = (Ok a, w1) /\ k a w1 = (Ok b, w').
Proof. unfold try_bind. destruct (c w) as [[a|e] w1]; [|done]. eauto. Qed.

Definition exec {W A} (c : ST W A) (w : W) : W := snd (c w).
Definition run {W A} (c : ST W A) (w : W) : A := fst (c w).

(** A sequential [for] loop over a list. *)
Fixpoint for_each {W A} (f : A -> ST W unit) (l : list A) : ST W unit :=
  match l with
  | [] => mret tt
  | x :: r => f x ≫= fun _ => for_each f r
  end.

Lemma for_each_invariant {W A} (P : W -> Prop) (f : A -> ST W unit) l w :
  (forall x w, x ∈ l -> P w -> P (exec (f x) w)) -> P w -> P (exec (for_each f l) w).
Proof.
  revert w. induction l as [|x r IH]; intros w Hf Hw; [done|].
  assert (P (exec (f x) w)) as Hx by (apply Hf; [by left|done]).
  unfold exec in *. simpl. unfold mbind, ST_bind. destruct (f x w) as [[] w']. apply IH; [|done].
  intros y w'' Hy. apply Hf. by right.
Qed.

(** *** Database transactions *)

(** A commit, or a statement of its own: it may take effect and its answer
    still be lost. *)
Inductive commit_outcome := Committed | AnswerLost (message : string) | RolledBack (message : string).

Definition applied (o : commit_outcome) : bool := match o with RolledBack _ => false | _ => true end.
Definition reported (o : commit_outcome) : result unit string :=
  match o with Committed => Ok tt | AnswerLost e | RolledBack e => Err e end.

(** ** Strings

    A Rust [String] is its UTF-8 byte sequence. *)

Definition byte_of (c : ascii) : Z := Z.of_nat (nat_of_ascii c).

Definition is_digit (c : ascii) : bool := (48 <=? byte_of c) && (byte_of c <=? 57).
Definition is_upper (c : ascii) : bool := (65 <=? byte_of c) && (byte_of c <=? 90).
Definition is_lower (c : ascii) : bool := (97 <=? byte_of c) && (byte_of c <=? 122).
Definition is_alphanumeric (c : ascii) : bool := is_digit c || is_upper c || is_lower c.
Definition ascii_lower (c : ascii) : ascii :=
  if is_upper c then ascii_of_nat (nat_of_ascii c + 32) else c.

Fixpoint map_string (f : ascii -> ascii) (s : string) : string :=
  match s with
  | EmptyString => EmptyString
  | String c r => String (f c) (map_string f r)
  end.

(** [str::to_ascii_lowercase]. *)
Definition to_ascii_lowercase : string -> string := map_string ascii_lower.

(** [str::eq_ignore_ascii_case]. *)
Definition eq_ignore_ascii_case (a b : string) : bool :=
  String.eqb (to_ascii_lowercase a) (to_ascii_lowercase b).

(** The characters of a text: its bytes but the continuations. *)
Fixpoint text_length (s : string) : Z :=
  match s with
  | String c r => (if (128 <=? byte_of c) && (byte_of c <? 192) then 0 else 1) + text_length r
  | EmptyString => 0
  end.

(** [str::contains] for a string pattern. *)
Fixpoint contains (needle s : string) : bool :=
  String.prefix needle s ||
  match s with
  | EmptyString => false
  | String _ r => contains needle r
  end.

Definition is_empty (s : string) : bool :=
  match s with EmptyString => true | _ => false end.

(** [str::replace] of a text that is not empty: its occurrences from left to
    right; [skip] is what is left of the one being replaced. *)
Fixpoint replace_from (skip : nat) (needle by_ s : string) : string :=
  match s with
  | EmptyString => EmptyString
  | String c r =>
      match skip with
      | S skip => replace_from skip needle by_ r
      | O => if String.prefix needle s then by_ +:+ replace_from (String.length needle - 1) needle by_ r
             else String c (replace_from O needle by_ r)
      end
  end.

Definition replace_all : string -> string -> string -> string := replace_from O.

(** The code points of Unicode's White_Space property by the number of bytes
    of their UTF-8 encoding: [char::is_whitespace], used by [str::trim]. *)
Definition ws1 (a : ascii) : bool :=
  ((9 <=? byte_of a) && (byte_of a <=? 13)) || (byte_of a =? 32).
Definition ws2 (a b : ascii) : bool :=
  (byte_of a =? 194) && ((byte_of b =? 133) || (byte_of b =? 160)).
Definition ws3 (a b c : ascii) : bool :=
  ((byte_of a =? 225) && (byte_of b =? 154) && (byte_of c =? 128))
  || ((byte_of a =? 226) && (byte_of b =? 128)
      && (((128 <=? byte_of c) && (byte_of c <=? 138))
          || (byte_of c =? 168) || (byte_of c =? 169) || (byte_of c =? 175)))
  || ((byte_of a =? 226) && (byte_of b =? 129) && (byte_of c =? 159))
  || ((byte_of a =? 227) && (byte_of b =? 128) && (byte_of c =? 128)).

(** Drop the whitespace at the front; [m] says whether the bytes of one
    character are met in order or, on a reversed string, backwards. *)
Fixpoint trim_front (m : bool) (s : string) : string :=
  match s with
  | EmptyString => s
  | String a r =>
      if ws1 a then trim_front m r else
      match r with
      | EmptyString => s
      | String b r2 =>
          if (if m then ws2 a b else ws2 b a) then trim_front m r2 else
          match r2 with
          | EmptyString => s
          | String c r3 =>
              if (if m then ws3 a b c else ws3 c b a) then trim_front m r3 else s
          end
      end
  end.

Definition trim_start (s : string) : string := trim_front true s.
Definition trim_end (s : string) : string := String.rev (trim_front false (String.rev s)).
Definition trim (s : string) : string := trim_end (trim_start s).

(** [str::split] on one ASCII character: always at least one piece. *)
Fixpoint split_on (sep : ascii) (s : string) : list string :=
  match s with
  | EmptyString => [EmptyString]
  | String c r =>
      if Ascii.eqb c sep then EmptyString :: split_on sep r
      else match split_on sep r with
           | [] => [String c EmptyString]
           | p :: ps => String c p :: ps
           end
  end.

Definition digit_value (c : ascii) : Z := byte_of c - 48.

(** Decimal digits, most significant first, onto an accumulator. *)
Fixpoint parse_digits (acc : Z) (s : string) : option Z :=
  match s with
  | EmptyString => Some acc
  | String c r => if is_digit c then parse_digits (10 * acc + digit_value c) r else None
  end.

Definition in_range (lo hi z : Z) : option Z :=
  if (lo <=? z) && (z <=? hi) then Some z else None.

(** [str::parse::<T>] for an unsigned integer type of maximum [max]. *)
Definition parse_unsigned (max : Z) (s : string) : option Z :=
  match s with
  | EmptyString => None
  | String c r =>
      let digits := if Ascii.eqb c "+" then r else s in
      if is_empty digits then None
      else z ← parse_digits 0 digits; in_range 0 max z
  end.

(** [str::parse::<T>] for a signed integer type. *)
Definition parse_signed (lo hi : Z) (s : string) : option Z :=
  match s with
  | EmptyString => None
  | String c r =>
      if Ascii.eqb c "-" then
        (if is_empty r then None else z ← parse_digits 0 r; in_range lo hi (- z))
      else
        let digits := if Ascii.eqb c "+" then r else s in
        if is_empty digits then None
        else z ← parse_digits 0 digits; in_range lo hi z
  end.

Definition parse_u64 : string -> option Z := parse_unsigned u64_max.
Definition parse_u32 : string -> option Z := parse_unsigned u32_max.
Definition parse_i64 : string -> option Z := parse_signed i64_min i64_max.
Definition parse_i32 : string -> option Z := parse_signed i32_min i32_max.

Lemma in_range_Some lo hi z z' : in_range lo hi z = Some z' -> z' = z /\ lo <= z <= hi.
Proof.
  unfold in_range. intros H.
  destruct (lo <=? z) eqn:?, (z <=? hi) eqn:?; simplify_eq/=; lia.
Qed.

Lemma parse_unsigned_range max s z : parse_unsigned max s = Some z -> 0 <= z <= max.
Proof.
  destruct s as [|c r]; [done|]. unfold parse_unsigned.
  destruct (is_empty _); [done|]. intros (d & _ & H)%bind_Some.
  apply in_range_Some in H. lia.
Qed.

Lemma parse_signed_range lo hi s z : parse_signed lo hi s = Some z -> lo <= z <= hi.
Proof.
  destruct s as [|c r]; [done|]. unfold parse_signed. intros H.
  repeat case_match; try done;
    apply bind_Some in H as (d & _ & H); apply in_range_Some in H; lia.
Qed.

(** Printing a number and parsing it back. *)
Lemma pretty_char_digit n :
  (n < 10)%N -> is_digit (pretty_N_char n) = true /\ digit_value (pretty_N_char n) = Z.of_N n.
Proof.
  intros Hn. assert (n ∈ [0;1;2;3;4;5;6;7;8;9]%N) as H.
  { rewrite !elem_of_cons. lia. }
  repeat (apply elem_of_cons in H as [->|H]; [by vm_compute|]). by apply elem_of_nil in H.
Qed.

Lemma parse_digits_pretty_go x s : parse_digits 0 (pretty_N_go x s) = parse_digits (Z.of_N x) s.
Proof.
  revert s. induction (N.lt_wf_0 x) as [x _ IH]. intros s.
  destruct (decide (0 < x)%N) as [Hx|Hx].
  - rewrite pretty_N_go_step by done. rewrite IH by (apply N.div_lt; lia).
    destruct (pretty_char_digit (x `mod` 10)) as [Hd Hv]; [apply N.mod_lt; lia|].
    simpl. rewrite Hd, Hv. f_equal. pose proof (N.Div0.div_mod x 10). lia.
  - assert (x = 0%N) as -> by lia. by rewrite pretty_N_go_0.
Qed.

Lemma parse_digits_pretty n : parse_digits 0 (pretty n) = Some (Z.of_N n).
Proof.
  unfold pretty, pretty_N. case_decide as E; [by subst|]. by rewrite parse_digits_pretty_go.
Qed.

Lemma pretty_go_head x s :
  (0 < x)%N -> exists c r, pretty_N_go x s = String c r /\ is_digit c = true.
Proof.
  revert s. induction (N.lt_wf_0 x) as [x _ IH]. intros s Hx.
  rewrite pretty_N_go_step by done.
  destruct (N.eq_0_gt_0_cases (x / 10)) as [H|H]; swap 1 2.
  - apply IH; [apply N.div_lt; lia|done].
  - rewrite H, pretty_N_go_0. do 2 eexists. split; [done|].
    apply pretty_char_digit, N.mod_lt. done.
Qed.

Lemma pretty_head (n : N) : exists c r, pretty n = String c r /\ is_digit c = true.
Proof.
  unfold pretty, pretty_N. case_decide; [by do 2 eexists|]. apply pretty_go_head. lia.
Qed.

Lemma pretty_Z_nonneg (n : N) : pretty (Z.of_N n) = pretty n.
Proof. by destruct n. Qed.

Lemma digit_not_sign c : is_digit c = true -> Ascii.eqb c "+" = false /\ Ascii.eqb c "-" = false.
Proof.
  intros H. split; apply Ascii.eqb_neq; intros ->; vm_compute in H; done.
Qed.

Lemma parse_u64_pretty z : in_u64 z -> parse_u64 (pretty z) = Some z.
Proof.
  intros Hz. unfold in_u64 in Hz. assert (exists n, z = Z.of_N n) as [n ->] by (exists (Z.to_N z); lia).
  rewrite pretty_Z_nonneg. destruct (pretty_head n) as (c & r & E & Hc).
  unfold parse_u64, parse_unsigned. rewrite E. destruct (digit_not_sign c Hc) as [-> _].
  rewrite <- E. rewrite parse_digits_pretty. rewrite E. simpl. unfold in_range.
  by rewrite (proj2 (Z.leb_le _ _) (proj1 Hz)), (proj2 (Z.leb_le _ _) (proj2 Hz)).
Qed.

Lemma parse_i64_pretty z : in_i64 z -> parse_i64 (pretty z) = Some z.
Proof.
  intros Hz. unfold in_i64 in Hz. destruct (decide (0 <= z)) as [Hp|Hp].
  - assert (exists n, z = Z.of_N n) as [n ->] by (exists (Z.to_N z); lia).
    rewrite pretty_Z_nonneg. destruct (pretty_head n) as (c & r & E & Hc).
    unfold parse_i64, parse_signed. rewrite E. destruct (digit_not_sign c Hc) as [-> ->].
    rewrite <- E. rewrite parse_digits_pretty. rewrite E. simpl. unfold in_range.
    by rewrite (proj2 (Z.leb_le _ _) (proj1 Hz)), (proj2 (Z.leb_le _ _) (proj2 Hz)).
  - destruct z as [|q|q]; [lia|lia|]. change (pretty (Z.neg q)) with (String "-" (pretty (N.pos q))).
    unfold parse_i64, parse_signed. destruct (pretty_head (N.pos q)) as (c & r & E & Hc).
    rewrite Ascii.eqb_refl. rewrite E at 1. cbn [is_empty]. rewrite parse_digits_pretty. simpl.
    unfold in_range. change (- Z.pos q) with (Z.neg q).
    by rewrite (proj2 (Z.leb_le _ _) (proj1 Hz)), (proj2 (Z.leb_le _ _) (proj2 Hz)).
Qed.

(** ** Lists *)

(** [iter_mut().find(p)] followed by a write through the reference. *)
Fixpoint update_first {A} (p : A -> bool) (f : A -> A) (l : list A) : list A :=
  match l with
  | [] => []
  | x :: r => if p x then f x :: r else x :: update_first p f r
  end.

(** [iter().find(p)]. *)
Fixpoint find_first {A} (p : A -> bool) (l : list A) : option A :=
  match l with
  | [] => None
  | x :: r => if p x then Some x else find_first p r
  end.

Section list_lemmas.
Context {A B : Type}.
Implicit Types (p : A -> bool) (f : A -> A) (l : list A).

Lemma find_first_Some p l x : find_first p l = Some x -> x ∈ l /\ p x = true.
Proof.
  induction l as [|y r IH]; simpl; [done|]. destruct (p y) eqn:E; intros H.
  - simplify_eq. split; [by left|done].
  - destruct (IH H). split; [by right|done].
Qed.

Lemma find_first_None p l : find_first p l = None <-> Forall (fun x => p x = false) l.
Proof.
  induction l as [|y r IH]; simpl; [done|]. rewrite Forall_cons.
  destruct (p y) eqn:E; [split; [done|intros [? _]; congruence]|]. rewrite IH. tauto.
Qed.

Lemma find_first_is_Some p l x : x ∈ l -> p x = true -> is_Some (find_first p l).
Proof.
  intros Hx Hp. destruct (find_first p l) eqn:E; [by eexists|].
  rewrite find_first_None, Forall_forall in E. specialize (E x Hx). congruence.
Qed.

Lemma find_first_ext p q l : (forall x, x ∈ l -> p x = q x) -> find_first p l = find_first q l.
Proof.
  induction l as [|y r IH]; intros H; [done|]. simpl.
  rewrite (H y) by by left. rewrite IH; [done|]. intros z Hz. apply H. by right.
Qed.

(** A field that the update leaves alone. *)
Lemma update_first_proj (g : A -> B) p f l :
  (forall x, x ∈ l -> p x = true -> g (f x) = g x) -> map g (update_first p f l) = map g l.
Proof.
  induction l as [|y r IH]; intros H; [done|]. simpl. destruct (p y) eqn:E; simpl.
  - rewrite H by (try done; by left). done.
  - rewrite IH; [done|]. intros z Hz. apply H. by right.
Qed.

Lemma update_first_None p f l : find_first p l = None -> update_first p f l = l.
Proof.
  induction l as [|y r IH]; simpl; [done|]. destruct (p y) eqn:E; [done|].
  intros H. by rewrite IH.
Qed.

Lemma length_update_first p f l : length (update_first p f l) = length l.
Proof. induction l as [|y r IH]; simpl; [done|]. destruct (p y); simpl; congruence. Qed.

Lemma elem_of_update_first p f l x :
  x ∈ update_first p f l -> x ∈ l \/ exists y, find_first p l = Some y /\ x = f y.
Proof.
  induction l as [|y r IH]; simpl; [set_solver|].
  destruct (p y) eqn:E; rewrite !elem_of_cons; intros [->|Hx]; eauto.
  destruct (IH Hx) as [|[z [? ->]]]; eauto.
Qed.

Lemma Forall_update_first (P : A -> Prop) p f l :
  Forall P l -> (forall x, x ∈ l -> p x = true -> P x -> P (f x)) ->
  Forall P (update_first p f l).
Proof.
  induction l as [|y r IH]; intros Hl Hf; [done|]. apply Forall_cons in Hl as [Hy Hr].
  simpl. destruct (p y) eqn:E; constructor; eauto.
  - apply Hf; [by left|done|done].
  - apply IH; [done|]. intros z Hz. apply Hf. by right.
Qed.

(** When the test only looks at a field the update keeps, the search finds
    the updated element. *)
Lemma find_first_update p f l :
  (forall x, p (f x) = p x) -> find_first p (update_first p f l) = f <$> find_first p l.
Proof.
  intros Hp. induction l as [|y r IH]; simpl; [done|].
  destruct (p y) eqn:E; simpl; [by rewrite Hp, E|by rewrite E].
Qed.

Lemma find_first_update_other p q f l :
  (forall x, p x = true -> q x = false) -> (forall x, p x = true -> q (f x) = false) ->
  find_first q (update_first p f l) = find_first q l.
Proof.
  intros H1 H2. induction l as [|y r IH]; simpl; [done|].
  destruct (p y) eqn:E; simpl; [by rewrite H2, H1 by done|]. by rewrite IH.
Qed.
End list_lemmas.

(** A stable sort by a boolean order, as [slice::sort_by] promises. *)
Section sort_by.
Context {A : Type} (le : A -> A -> bool).

Fixpoint insert_by (x : A) (l : list A) : list A :=
  match l with
  | [] => [x]
  | y :: r => if le x y then x :: l else y :: insert_by x r
  end.

Fixpoint sort_by (l : list A) : list A :=
  match l with
  | [] => []
  | x :: r => insert_by x (sort_by r)
  end.

Lemma insert_by_perm x l : insert_by x l ≡ₚ x :: l.
Proof.
  induction l as [|y r IH]; simpl; [done|]. case_match; [done|].
  rewrite IH. apply perm_swap.
Qed.

Lemma sort_by_perm l : sort_by l ≡ₚ l.
Proof. induction l as [|x r IH]; simpl; [done|]. by rewrite insert_by_perm, IH. Qed.

Hypothesis le_total : forall x y, le x y = false -> le y x = true.

Lemma insert_by_sorted x l :
  LocallySorted (fun a b => le a b = true) l ->
  LocallySorted (fun a b => le a b = true) (insert_by x l).
Proof.
  induction l as [|y r IH]; simpl; [constructor|]. intros Hs.
  destruct (le x y) eqn:E; [by constructor|].
  apply le_total in E. inversion Hs as [|a|a b l' Hs' Hab]; subst; simpl in *.
  - repeat constructor. done.
  - specialize (IH Hs'). destruct (le x b); by constructor.
Qed.

Lemma sort_by_sorted l : LocallySorted (fun a b => le a b = true) (sort_by l).
Proof. induction l as [|x r IH]; simpl; [constructor|]. by apply insert_by_sorted. Qed.

(** Under a linear order the result depends on the elements only. *)
Lemma sort_by_unique l1 l2 :
  Transitive (fun a b => le a b = true) -> AntiSymm (=) (fun a b => le a b = true) ->
  l1 ≡ₚ l2 -> sort_by l1 = sort_by l2.
Proof.
  intros ? ? Hp. apply (sorting.Sorted_unique (fun a b => le a b = true)).
  - apply Sorted_LocallySorted_iff, sort_by_sorted.
  - apply Sorted_LocallySorted_iff, sort_by_sorted.
  - by rewrite !sort_by_perm.
Qed.
End sort_by.

(** ** The order of strings *)

(** The order of [String]: bytes, the shorter first. *)
Fixpoint le_bytes (a b : string) : bool :=
  match a, b with
  | EmptyString, _ => true
  | String _ _, EmptyString => false
  | String x a, String y b =>
      if byte_of x <? byte_of y then true
      else if byte_of y <? byte_of x then false else le_bytes a b
  end.

Lemma le_bytes_total a b : le_bytes a b = true \/ le_bytes b a = true.
Proof.
  revert b. induction a as [|x a IH]; intros [|y b]; simpl; auto.
  destruct (Z.ltb_spec (byte_of x) (byte_of y)), (Z.ltb_spec (byte_of y) (byte_of x)); auto; lia.
Qed.

Lemma byte_of_inj x y : byte_of x = byte_of y -> x = y.
Proof.
  unfold byte_of. intros E%Nat2Z.inj. rewrite <- (ascii_nat_embedding x), <- (ascii_nat_embedding y).
  by rewrite E.
Qed.

Lemma le_bytes_antisym a b : le_bytes a b = true -> le_bytes b a = true -> a = b.
Proof.
  revert b. induction a as [|x a IH]; intros [|y b]; simpl; try done.
  destruct (Z.ltb_spec (byte_of x) (byte_of y)), (Z.ltb_spec (byte_of y) (byte_of x)); try done; try lia.
  intros. rewrite (byte_of_inj x y) by lia. f_equal. by apply IH.
Qed.

Lemma le_bytes_trans a b c : le_bytes a b = true -> le_bytes b c = true -> le_bytes a c = true.
Proof.
  revert b c. induction a as [|x a IH]; intros [|y b] [|z c]; simpl; try done.
  destruct (Z.ltb_spec (byte_of x) (byte_of y)), (Z.ltb_spec (byte_of y) (byte_of x)),
    (Z.ltb_spec (byte_of y) (byte_of z)), (Z.ltb_spec (byte_of z) (byte_of y)),
    (Z.ltb_spec (byte_of x) (byte_of z)), (Z.ltb_spec (byte_of z) (byte_of x)); try done; try lia.
  apply IH.
Qed.

(** ** Automation *)

Create HintDb cat discriminated.
#[export] Hint Resolve sat_add_u64_range sat_add_u32_range sat_sub_range : cat.

(** Split every [if] and [match] of the goal, keeping the equations. *)
Ltac split_cases := repeat (case_match; simplify_eq/=); try done.

(** Turn boolean tests in the context into propositions. *)
Ltac bool_props :=
  repeat match goal with
  | H : _ && _ = true |- _ => apply andb_true_iff in H as [? ?]
  | H : _ || _ = true |- _ => apply orb_true_iff in H
  | H : _ || _ = false |- _ => apply orb_false_iff in H as [? ?]
  | H : negb _ = true |- _ => apply negb_true_iff in H
  | H : negb _ = false |- _ => apply negb_false_iff in H
  | H : (_ =? _) = true |- _ => apply Z.eqb_eq in H
  | H : (_ =? _) = false |- _ => apply Z.eqb_neq in H
  | H : (_ <=? _) = true |- _ => apply Z.leb_le in H
  | H : (_ <=? _) = false |- _ => apply Z.leb_gt in H
  | H : (_ <? _) = true |- _ => apply Z.ltb_lt in H
  | H : (_ <? _) = false |- _ => apply Z.ltb_ge in H
  | H : String.eqb _ _ = true |- _ => apply String.eqb_eq in H
  | H : String.eqb _ _ = false |- _ => apply String.eqb_neq in H
  end.

Lemma nonempty_in {A} (l : list A) : l <> [] -> exists x, x ∈ l.
Proof. destruct l as [|x r]; [done|]. exists x. by left. Qed.

Lemma bool_iff_eq (a b : bool) : (a = true <-> b = true) -> a = b.
Proof. destruct a, b; intuition congruence. Qed.

(** ** Chunks *)

(** [slice::chunks]; the size is positive. *)
Fixpoint chunks_fuel {A} (fuel : nat) (n : nat) (l : list A) : list (list A) :=
  match fuel, l with
  | O, _ | _, [] => []
  | S fuel, _ => take n l :: chunks_fuel fuel n (drop n l)
  end.

Definition chunks {A} (n : nat) (l : list A) : list (list A) := chunks_fuel (length l) n l.

Section chunks.
Context {A : Type}.
Implicit Types (l : list A) (n : nat).

Lemma chunks_fuel_concat fuel n l : (0 < n)%nat -> (length l <= fuel)%nat -> concat (chunks_fuel fuel n l) = l.
Proof.
  intros Hn. revert l. induction fuel as [|fuel IH]; intros l Hl; [by destruct l; [|simpl in Hl; lia]|].
  destruct l as [|x l]; [done|]. change (take n (x :: l) ++ concat (chunks_fuel fuel n (drop n (x :: l))) = x :: l).
  rewrite IH by (rewrite length_drop; simpl in *; lia). apply take_drop.
Qed.

Lemma chunks_fuel_sizes fuel n l c :
  (0 < n)%nat -> c ∈ chunks_fuel fuel n l -> c <> [] /\ (length c <= n)%nat.
Proof.
  intros Hn. revert l. induction fuel as [|fuel IH]; intros l; [by intros ?%elem_of_nil|].
  destruct l as [|x l]; [by intros ?%elem_of_nil|].
  change (c ∈ take n (x :: l) :: chunks_fuel fuel n (drop n (x :: l)) -> c <> [] /\ (length c <= n)%nat).
  intros [->|Hc]%elem_of_cons; [|by eapply IH]. split; [|rewrite length_take; lia]. by destruct n; [lia|].
Qed.
End chunks.
