(* ===== verification/Json.v ===== *)
(** * JSON values

    The [serde_json::Value] the program exchanges with the provider, the
    database rows and its configuration files.  The type and its accessors are
    the documented interface of that crate: six constructors, numbers that are
    either integers (read back through [as_i64] or [as_u64] when they fit) or
    floating point (opaque here, read by JsValue), objects
    that keep insertion order (the workspace enables [preserve_order]).  No
    component depends on the text form; parsing a text is a parameter wherever
    the program does it. *)

From S2P Require Import Prelude.

Inductive number : Set :=
  | NInt (z : Z)
  | NFloat (repr : string).

#[warnings="-register-all"]
Inductive value : Set :=
  | Null
  | Bool (b : bool)
  | Number (n : number)
  | Str (s : string)
  | Array (l : list value)
  | Object (fields : list (string * value)).

(** A Rust [serde_json::Map]. *)
Abbreviation fields := (list (string * value)).

Definition lookup_field (k : string) (m : fields) : option value :=
  snd <$> find_first (fun kv => String.eqb (fst kv) k) m.

(** [Map::insert]: the value is replaced in place, a new key goes last. *)
Fixpoint insert_field (k : string) (v : value) (m : fields) : fields :=
  match m with
  | [] => [(k, v)]
  | (k', v') :: r => if String.eqb k' k then (k', v) :: r else (k', v') :: insert_field k v r
  end.

Definition get (k : string) (v : value) : option value :=
  match v with Object m => lookup_field k m | _ => None end.

Definition as_str (v : value) : option string :=
  match v with Str s => Some s | _ => None end.

Definition as_bool (v : value) : option bool :=
  match v with Bool b => Some b | _ => None end.

Definition as_array (v : value) : option (list value) :=
  match v with Array l => Some l | _ => None end.

Definition as_object (v : value) : option fields :=
  match v with Object m => Some m | _ => None end.

Definition is_null (v : value) : bool :=
  match v with Null => true | _ => false end.

Definition number_i64 (n : number) : option Z :=
  match n with NInt z => in_range i64_min i64_max z | NFloat _ => None end.

Definition number_u64 (n : number) : option Z :=
  match n with NInt z => in_range 0 u64_max z | NFloat _ => None end.

Definition as_i64 (v : value) : option Z :=
  match v with Number n => number_i64 n | _ => None end.

Definition as_u64 (v : value) : option Z :=
  match v with Number n => number_u64 n | _ => None end.

(** [serde_json::Number::to_string]. *)
Definition number_to_string (n : number) : string :=
  match n with NInt z => pretty z | NFloat repr => repr end.

(** The first of several alternatives that is present: [a.or_else(|| b)]. *)
Definition or_else {A} (a b : option A) : option A :=
  match a with Some _ => a | None => b end.

(** [keys.iter().find_map(f)]. *)
Fixpoint find_map {A B} (f : A -> option B) (l : list A) : option B :=
  match l with
  | [] => None
  | x :: r => match f x with Some y => Some y | None => find_map f r end
  end.

(** The database layers read an integer that PostgreSQL sent as a JSON number
    or as a numeric string. *)
Definition int_or_text (v : value) : option Z :=
  or_else (as_i64 v) (s ← as_str v; parse_i64 s).

Section json_lemmas.
Implicit Types (m : fields) (k : string) (v : value).

Lemma lookup_insert_field_eq k v m : lookup_field k (insert_field k v m) = Some v.
Proof.
  unfold lookup_field. induction m as [|[k' v'] r IH]; simpl.
  - by rewrite String.eqb_refl.
  - destruct (String.eqb k' k) eqn:E; simpl; rewrite E; [done|apply IH].
Qed.

Lemma lookup_insert_field_ne k j v m :
  k <> j -> lookup_field j (insert_field k v m) = lookup_field j m.
Proof.
  intros Hne. unfold lookup_field. induction m as [|[k' v'] r IH]; simpl.
  - destruct (String.eqb_spec k j); [done|done].
  - destruct (String.eqb_spec k' k) as [->|?]; simpl.
    + destruct (String.eqb_spec k j); [done|done].
    + destruct (String.eqb k' j); [done|apply IH].
Qed.

Lemma get_object k m : get k (Object m) = lookup_field k m.
Proof. done. Qed.

Lemma find_map_Some {A B} (f : A -> option B) l y :
  find_map f l = Some y -> exists x, x ∈ l /\ f x = Some y.
Proof.
  induction l as [|x r IH]; simpl; [done|]. destruct (f x) eqn:E; intros H.
  - simplify_eq. exists x. split; [by left|done].
  - destruct (IH H) as (z & Hz & Hf). exists z. split; [by right|done].
Qed.

Lemma find_map_None {A B} (f : A -> option B) l :
  find_map f l = None <-> forall x, x ∈ l -> f x = None.
Proof.
  induction l as [|x r IH]; simpl.
  - split; [intros _ x Hx; by apply elem_of_nil in Hx|done].
  - destruct (f x) eqn:E.
    + split; [done|]. intros H. specialize (H x (list_elem_of_here _ _)). congruence.
    + rewrite IH. split.
      * intros H z [->|Hz]%elem_of_cons; eauto.
      * intros H z Hz. apply H. by right.
Qed.

Lemma as_i64_range v z : as_i64 v = Some z -> in_i64 z.
Proof.
  destruct v as [| |[]| | |]; try done. unfold as_i64, number_i64, in_i64.
  intros [-> H]%in_range_Some. done.
Qed.

Lemma int_or_text_range v z : int_or_text v = Some z -> in_i64 z.
Proof.
  unfold int_or_text, or_else. destruct (as_i64 v) eqn:E; intros H.
  - simplify_eq. by eapply as_i64_range.
  - apply bind_Some in H as (s & _ & H). by apply parse_signed_range in H.
Qed.
End json_lemmas.

Arguments lookup_field : simpl never.

#[export] Hint Resolve as_i64_range int_or_text_range : cat.

