(* ===== verification/Upstream.v ===== *)
(** * Interfaces of the relay's upstream side

    The traits of upstream.rs as type classes over a world type [W]: the
    key pool implements [ApiKeyState] for the session manager and the request
    client, the transport, the clock, the session audit and the retry sleeper
    are implemented outside the modelled code. *)

From S2P Require Import Prelude Json.

Record ApiCredential := { cred_dev_id : string; cred_auth_key : string }.

Record HttpResponse := { resp_status : Z; resp_reason : string; resp_body : string }.

Inductive TransportError :=
  | Timeout
  | Network (message : string).

Definition transport_error_to_string (e : TransportError) : string :=
  match e with
  | Timeout => "request timed out"
  | Network message => message
  end.

Inductive UpstreamError :=
  | UpstreamConfiguration (message : string)
  | UpstreamTransport (e : TransportError)
  | UpstreamProtocol (message : string)
  | UpstreamApplication (message : string).

Definition upstream_error_to_string (e : UpstreamError) : string :=
  match e with
  | UpstreamConfiguration m => m
  | UpstreamTransport e => transport_error_to_string e
  | UpstreamProtocol m => m
  | UpstreamApplication m => m
  end.

Class HttpTransport (W : Type) :=
  transport_get : string -> Z -> ST W (result HttpResponse TransportError).

Class ApiKeyState (W : Type) := {
  state_active_key : ST W (result ApiCredential UpstreamError);
  state_increment_usage : string -> ST W unit;
  state_log_endpoint : string -> string -> Z -> string -> ST W unit;
  state_record_success : string -> ST W unit;
  state_record_failure : string -> bool -> ST W unit;
  state_sync_usage : string -> ST W unit;
}.

Record SessionAuditRecord := {
  audit_endpoint : string;
  audit_raw_data : value;
  audit_status_code : Z;
  audit_session_id : string;
  audit_response_time_ms : Z;
}.

Class SessionAudit (W : Type) := audit_save : SessionAuditRecord -> ST W unit.

Class Clock (W : Type) := unix_millis : ST W Z.

(** [Instant::now] and [Instant::elapsed], in milliseconds. *)
Class Stopwatch (W : Type) := {
  instant_now : ST W Z;
  elapsed_millis : Z -> ST W Z;
}.

Class RetrySleeper (W : Type) := sleep_before_retry : Z -> ST W unit.
