(* ===== verification/KeyPool.v ===== *)
(** * The Hi-Rez API key pool (src/hirez-relay-rust/src/key_pool.rs)

    State: the keys held in memory, the sticky active key and the revival
    clocks.  Every method is a sequence of critical sections on that state,
    each a pure function on [KeyPoolInner], separated by calls to the
    repository and the usage probe, which are interfaces over a world [W]. *)

From S2P Require Import Prelude Json Upstream.

Definition FAILURE_THRESHOLD : Z := 5.
Definition REVIVAL_COOLDOWN_MS : Z := 30 * 60 * 1000.
Definition ESTIMATE_REVIVAL_COOLDOWN_MS : Z := 5 * 60 * 1000.

Inductive KeyStatus := Healthy | Limited | Unhealthy.

#[export] Instance KeyStatus_eq_dec : EqDecision KeyStatus.
Proof. solve_decision. Defined.

Definition status_eqb (a b : KeyStatus) : bool := bool_decide (a = b).

Record EncryptedKeyRow := {
  row_dev_id : string;
  row_encrypted_auth_key : string;
  row_status : string;
  row_total_24h : Z;
  row_daily_limit : option Z;
  row_calls_total : Z;
  row_consecutive_failures : Z;
}.

Record BootstrapKey := {
  boot_dev_id : string;
  boot_encrypted_auth_key : string;
  boot_daily_limit : Z;
}.

Record UsageBatch := { batch_dev_id : string; batch_calls : Z }.

Record AuthoritativeUsage := { report_used : Z; report_reported_limit : option Z }.

Record ApiKeyStatus := {
  status_dev_id : string;
  status_auth_key : string;
  status_status : KeyStatus;
  status_daily_limit : Z;
  status_used_24h : Z;
  status_remaining : Z;
  status_reserve_threshold : Z;
  status_calls_total : Z;
  status_consecutive_failures : Z;
  status_last_used : string;
}.

Inductive KeyPoolError :=
  | ErrRepository (message : string)
  | ErrCrypto (message : string)
  | ErrConfiguration (message : string)
  | ErrExhausted (message : string)
  | ErrProbe (message : string).

(** Every variant displays as its message. *)
Definition key_pool_error_to_string (e : KeyPoolError) : string :=
  match e with
  | ErrRepository m | ErrCrypto m | ErrConfiguration m | ErrExhausted m | ErrProbe m => m
  end.

Record InMemoryKey := {
  dev_id : string;
  auth_key : string;
  status : KeyStatus;
  daily_limit : Z;
  used_today : Z;
  pending_increments : Z;
  consecutive_failures : Z;
  calls_total : Z;
  is_backup : bool;
}.

Record KeyPoolInner := {
  keys : list InMemoryKey;
  active_dev_id : option string;
  last_revival_attempt_ms : Z;
  last_estimate_revival_ms : gmap string Z;
}.

(** The pool: its inner state and the [initialized] flag. *)
Record Pool := { inner : KeyPoolInner; initialized : bool }.

Definition empty_inner : KeyPoolInner :=
  {| keys := []; active_dev_id := None; last_revival_attempt_ms := 0;
     last_estimate_revival_ms := ∅ |}.

Definition new_pool : Pool := {| inner := empty_inner; initialized := false |}.

(** ** Field updates *)

Definition set_status (s : KeyStatus) (k : InMemoryKey) : InMemoryKey :=
  {| dev_id := dev_id k; auth_key := auth_key k; status := s;
     daily_limit := daily_limit k; used_today := used_today k;
     pending_increments := pending_increments k;
     consecutive_failures := consecutive_failures k;
     calls_total := calls_total k; is_backup := is_backup k |}.
Definition set_failures (n : Z) (k : InMemoryKey) : InMemoryKey :=
  {| dev_id := dev_id k; auth_key := auth_key k; status := status k;
     daily_limit := daily_limit k; used_today := used_today k;
     pending_increments := pending_increments k; consecutive_failures := n;
     calls_total := calls_total k; is_backup := is_backup k |}.
Definition set_budget (used limit : Z) (k : InMemoryKey) : InMemoryKey :=
  {| dev_id := dev_id k; auth_key := auth_key k; status := status k;
     daily_limit := limit; used_today := used;
     pending_increments := pending_increments k;
     consecutive_failures := consecutive_failures k;
     calls_total := calls_total k; is_backup := is_backup k |}.
Definition set_pending (n : Z) (k : InMemoryKey) : InMemoryKey :=
  {| dev_id := dev_id k; auth_key := auth_key k; status := status k;
     daily_limit := daily_limit k; used_today := used_today k;
     pending_increments := n; consecutive_failures := consecutive_failures k;
     calls_total := calls_total k; is_backup := is_backup k |}.
Definition set_calls_total (n : Z) (k : InMemoryKey) : InMemoryKey :=
  {| dev_id := dev_id k; auth_key := auth_key k; status := status k;
     daily_limit := daily_limit k; used_today := used_today k;
     pending_increments := pending_increments k;
     consecutive_failures := consecutive_failures k;
     calls_total := n; is_backup := is_backup k |}.

Definition set_keys (ks : list InMemoryKey) (i : KeyPoolInner) : KeyPoolInner :=
  {| keys := ks; active_dev_id := active_dev_id i;
     last_revival_attempt_ms := last_revival_attempt_ms i;
     last_estimate_revival_ms := last_estimate_revival_ms i |}.
Definition set_active (a : option string) (i : KeyPoolInner) : KeyPoolInner :=
  {| keys := keys i; active_dev_id := a;
     last_revival_attempt_ms := last_revival_attempt_ms i;
     last_estimate_revival_ms := last_estimate_revival_ms i |}.
Definition set_revival (now : Z) (i : KeyPoolInner) : KeyPoolInner :=
  {| keys := keys i; active_dev_id := active_dev_id i;
     last_revival_attempt_ms := now;
     last_estimate_revival_ms := last_estimate_revival_ms i |}.
Definition set_estimate_revival (d : string) (now : Z) (i : KeyPoolInner) : KeyPoolInner :=
  {| keys := keys i; active_dev_id := active_dev_id i;
     last_revival_attempt_ms := last_revival_attempt_ms i;
     last_estimate_revival_ms := <[d := now]> (last_estimate_revival_ms i) |}.

Definition has_dev (d : string) (k : InMemoryKey) : bool := String.eqb (dev_id k) d.

(** [keys.iter().find(|key| key.dev_id == dev_id)]. *)
Definition find_key (d : string) (i : KeyPoolInner) : option InMemoryKey :=
  find_first (has_dev d) (keys i).

(** [keys.iter_mut().find(..)] and a write through the reference. *)
Definition update_key (d : string) (f : InMemoryKey -> InMemoryKey) (i : KeyPoolInner) : KeyPoolInner :=
  set_keys (update_first (has_dev d) f (keys i)) i.

(** [if clear_active && active_dev_id == Some(dev_id) { active_dev_id = None }]. *)
Definition clear_active_if (clear : bool) (d : string) (i : KeyPoolInner) : KeyPoolInner :=
  if clear && bool_decide (active_dev_id i = Some d) then set_active None i else i.

(** ** Configuration and budget *)

Section config.
(** The environment variables HIREZ_DEFAULT_DAILY_LIMIT and
    HIREZ_BACKUP_DEV_IDS. *)
Variables default_limit_var backup_ids_var : option string.

Definition configured_daily_limit : Z :=
  match (v ← default_limit_var; limit ← parse_u64 v;
         if 0 <? limit then Some limit else None) with
  | Some limit => limit
  | None => 7500
  end.

Definition effective_daily_limit (reported : option Z) : Z :=
  match (limit ← reported; if 0 <? limit then Some limit else None) with
  | Some limit => limit
  | None => configured_daily_limit
  end.

Definition backup_list_contains (l d : string) : bool :=
  existsb (fun candidate => String.eqb (trim candidate) d) (split_on "," l).

Definition is_backup_dev_id (d : string) : bool :=
  match backup_ids_var with
  | Some l => backup_list_contains l d
  | None => false
  end.
End config.

Definition has_usable_budget (used limit reserve : Z) : bool := reserve <? sat_sub limit used.

Definition normalize_status (s : string) : KeyStatus :=
  if String.eqb s "limited" then Limited
  else if String.eqb s "unhealthy" then Unhealthy
  else Healthy.

Definition format_key (reserve : Z) (k : InMemoryKey) : ApiKeyStatus :=
  {| status_dev_id := dev_id k; status_auth_key := auth_key k; status_status := status k;
     status_daily_limit := daily_limit k; status_used_24h := used_today k;
     status_remaining := sat_sub (daily_limit k) (used_today k);
     status_reserve_threshold := reserve; status_calls_total := calls_total k;
     status_consecutive_failures := consecutive_failures k; status_last_used := EmptyString |}.

Definition json_scalar (v : option value) : string :=
  match v with
  | Some (Str s) => trim s
  | Some (Number n) => number_to_string n
  | _ => EmptyString
  end.

(** ** Critical sections

    What each method does while it holds the write lock. *)

(** select_available_key, first block: keep the sticky key while it is healthy
    and has budget ([inl]); otherwise mark it limited and report the status
    update the repository gets ([inr]). *)
Definition select_sticky (reserve : Z) (i : KeyPoolInner) :
    (ApiKeyStatus + option (string * KeyStatus * Z)) * KeyPoolInner :=
  match active_dev_id i with
  | Some d =>
      match find_key d i with
      | Some active =>
          if status_eqb (status active) Healthy
             && has_usable_budget (used_today active) (daily_limit active) reserve
          then (inl (format_key reserve active), i)
          else if negb (status_eqb (status active) Limited)
          then (inr (Some (dev_id active, Limited, consecutive_failures active)),
                update_key d (set_status Limited) i)
          else (inr None, i)
      | None => (inr None, i)
      end
  | None => (inr None, i)
  end.

Definition usable (reserve : Z) (k : InMemoryKey) : bool :=
  status_eqb (status k) Healthy && has_usable_budget (used_today k) (daily_limit k) reserve.

(** The scan: the first usable primary key, else the first usable backup. *)
Definition pick_key (reserve : Z) (ks : list InMemoryKey) : option InMemoryKey :=
  or_else (find_first (fun k => negb (is_backup k) && usable reserve k) ks)
          (find_first (fun k => is_backup k && usable reserve k) ks).

(** select_available_key, second block. *)
Definition select_fresh (reserve : Z) (i : KeyPoolInner) : option ApiKeyStatus * KeyPoolInner :=
  match pick_key reserve (keys i) with
  | Some k => (Some (format_key reserve k), set_active (Some (dev_id k)) i)
  | None => (None, i)
  end.

(** increment_usage. *)
Definition increment_key (reserve : Z) (k : InMemoryKey) : InMemoryKey :=
  let used := sat_add_u64 (used_today k) 1 in
  let k := set_pending (sat_add_u64 (pending_increments k) 1) (set_budget used (daily_limit k) k) in
  if negb (has_usable_budget used (daily_limit k) reserve) then set_status Limited k else k.

Definition increment_usage_inner (reserve : Z) (d : string) (i : KeyPoolInner) : KeyPoolInner :=
  let clear := match find_key d i with
               | Some k => negb (has_usable_budget (sat_add_u64 (used_today k) 1) (daily_limit k) reserve)
               | None => false
               end in
  clear_active_if clear d (update_key d (increment_key reserve) i).

(** flush_usage: take the pending counts, then settle them one way or the
    other once the repository has answered. *)
Definition drain_pending (i : KeyPoolInner) : list UsageBatch * KeyPoolInner :=
  (omap (fun k => if pending_increments k =? 0 then None
                  else Some {| batch_dev_id := dev_id k; batch_calls := pending_increments k |})
        (keys i),
   set_keys (map (fun k => if pending_increments k =? 0 then k else set_pending 0 k) (keys i)) i).

Definition restore_batches (bs : list UsageBatch) (i : KeyPoolInner) : KeyPoolInner :=
  foldl (fun i b => update_key (batch_dev_id b)
           (fun k => set_pending (sat_add_u64 (pending_increments k) (batch_calls b)) k) i) i bs.

Definition commit_batches (bs : list UsageBatch) (i : KeyPoolInner) : KeyPoolInner :=
  foldl (fun i b => update_key (batch_dev_id b)
           (fun k => set_calls_total (sat_add_u64 (calls_total k) (batch_calls b)) k) i) i bs.

(** record_success. *)
Definition success_key (k : InMemoryKey) : InMemoryKey :=
  let k' := set_failures 0 k in
  if status_eqb (status k) Unhealthy then set_status Healthy k' else k'.

Definition record_success_inner (d : string) (i : KeyPoolInner) :
    option (KeyStatus * Z) * KeyPoolInner :=
  (k ← find_key d i;
   if (0 <? consecutive_failures k) || status_eqb (status k) Unhealthy
   then Some (status (success_key k), consecutive_failures (success_key k)) else None,
   update_key d success_key i).

(** record_failure for a fault of the key. *)
Definition failure_key (k : InMemoryKey) : InMemoryKey :=
  let k' := set_failures (sat_add_u32 (consecutive_failures k) 1) k in
  if FAILURE_THRESHOLD <=? consecutive_failures k' then set_status Unhealthy k' else k'.

Definition record_failure_inner (d : string) (i : KeyPoolInner) :
    option (KeyStatus * Z) * KeyPoolInner :=
  let update := (fun k => (status (failure_key k), consecutive_failures (failure_key k))) <$> find_key d i in
  let clear := match find_key d i with
               | Some k => FAILURE_THRESHOLD <=? consecutive_failures (failure_key k)
               | None => false
               end in
  (update, clear_active_if clear d (update_key d failure_key i)).

(** sync_usage_internal, after an authoritative report. *)
Definition budget_status (used limit reserve : Z) : KeyStatus :=
  if has_usable_budget used limit reserve then Healthy else Limited.

Definition authoritative_key (used limit : Z) (st : KeyStatus) (k : InMemoryKey) : InMemoryKey :=
  let k' := set_status st (set_budget used limit k) in
  if status_eqb st Healthy then set_failures 0 k' else k'.

Definition apply_report_inner (d : string) (used limit : Z) (st : KeyStatus) (i : KeyPoolInner) : KeyPoolInner :=
  let clear := match find_key d i with
               | Some _ => negb (status_eqb st Healthy)
               | None => false
               end in
  clear_active_if clear d (update_key d (authoritative_key used limit st) i).

(** try_estimate_revival: the eligibility test and the update. *)
Definition estimate_eligible (d : string) (now : Z) (i : KeyPoolInner) : bool :=
  match find_key d i with
  | None => false
  | Some k =>
      (status_eqb (status k) Limited || status_eqb (status k) Unhealthy)
      && (ESTIMATE_REVIVAL_COOLDOWN_MS <=?
          sub_i64 now (default 0 (last_estimate_revival_ms i !! d)))
  end.

Definition revive_key (estimated limit : Z) (k : InMemoryKey) : InMemoryKey :=
  set_budget estimated limit (set_failures 0 (set_status Healthy k)).

Definition estimate_inner (default_limit_var : option string) (reserve : Z) (d : string)
    (now estimated : Z) (i : KeyPoolInner) : option Z * KeyPoolInner :=
  match find_key d i with
  | None => (None, i)
  | Some k =>
      let limit := effective_daily_limit default_limit_var (Some (daily_limit k)) in
      if negb (has_usable_budget estimated limit reserve) then (None, i)
      else (Some limit, set_estimate_revival d now (update_key d (revive_key estimated limit) i))
  end.

(** active_key: the revival cooldown. *)
Definition begin_revival (now : Z) (i : KeyPoolInner) : bool * KeyPoolInner :=
  if sub_i64 now (last_revival_attempt_ms i) <? REVIVAL_COOLDOWN_MS then (false, i)
  else (true, set_revival now i).

(** reload_from_repository. *)
Definition pending_snapshot (i : KeyPoolInner) : gmap string Z :=
  foldl (fun m k => <[dev_id k := pending_increments k]> m) ∅ (keys i).

Definition replace_keys (ks : list InMemoryKey) (i : KeyPoolInner) : KeyPoolInner :=
  set_active None (set_keys ks i).

Definition le_dev_id (a b : InMemoryKey) : bool := String.leb (dev_id a) (dev_id b).

(** ** The methods *)

Class KeyPoolRepository (W : Type) := {
  repo_ensure_schema : ST W (result unit KeyPoolError);
  repo_load_keys : ST W (result (list EncryptedKeyRow) KeyPoolError);
  repo_bootstrap_keys : list BootstrapKey -> ST W (result Z KeyPoolError);
  repo_flush_usage : list UsageBatch -> ST W (result unit KeyPoolError);
  repo_update_status : string -> KeyStatus -> Z -> ST W (result unit KeyPoolError);
  repo_log_endpoint : string -> string -> Z -> string -> ST W (result unit KeyPoolError);
  repo_save_authoritative_usage : string -> Z -> Z -> KeyStatus -> ST W (result unit KeyPoolError);
  repo_local_usage_estimate : string -> ST W (result Z KeyPoolError);
  repo_record_sync_error : string -> string -> ST W (result unit KeyPoolError);
  repo_cleanup_rolling_usage : ST W (result unit KeyPoolError);
}.

(** The usage probe is held through a weak reference: [probe_upgrade] tells
    whether it is still alive. *)
Class UsageProbe (W : Type) := {
  probe_upgrade : ST W bool;
  probe_get_data_used : ApiCredential -> ST W (result (option AuthoritativeUsage) KeyPoolError);
}.

(** key_crypto.rs: authenticated encryption of the keys at rest. *)
Class KeyCrypto (W : Type) := {
  crypto_smoke_test : ST W bool;
  crypto_encrypt : string -> ST W (result string string);
  crypto_decrypt : string -> option string;
}.

(** The key file: whether it exists, its text, and the JSON parser. *)
Class KeyFile (W : Type) := {
  file_exists : string -> ST W bool;
  file_read_to_string : string -> ST W (result string string);
  json_from_str : string -> result value string;
}.

Section methods.
Context {W : Type} `{KeyPoolRepository W} `{UsageProbe W} `{KeyCrypto W} `{KeyFile W} `{Clock W}.
Variables default_limit_var backup_ids_var : option string.
Variable reserve : Z.

Abbreviation State := (Pool * W)%type.

(** One critical section, and one call out of the pool. *)
Definition on_inner {A} (f : KeyPoolInner -> A * KeyPoolInner) : ST State A :=
  fun '(p, w) => let '(a, i) := f (inner p) in (a, ({| inner := i; initialized := initialized p |}, w)).

Definition modify_inner (f : KeyPoolInner -> KeyPoolInner) : ST State unit :=
  on_inner (fun i => (tt, f i)).

Definition read_inner {A} (f : KeyPoolInner -> A) : ST State A :=
  on_inner (fun i => (f i, i)).

Definition lift {A} (c : ST W A) : ST State A :=
  fun '(p, w) => let '(a, w') := c w in (a, (p, w')).

Definition set_initialized : ST State unit :=
  fun '(p, w) => (tt, ({| inner := inner p; initialized := true |}, w)).

(** [let _ = repository.update_status(..).await]. *)
Definition report_status (u : option (string * KeyStatus * Z)) : ST State unit :=
  match u with
  | Some (d, st, n) => _ ← lift (repo_update_status d st n); mret tt
  | None => mret tt
  end.

Definition key_of_row (pending : gmap string Z) (row : EncryptedKeyRow) : option InMemoryKey :=
  auth ← crypto_decrypt (row_encrypted_auth_key row);
  Some {| dev_id := row_dev_id row; auth_key := auth;
          status := normalize_status (row_status row);
          daily_limit := effective_daily_limit default_limit_var (row_daily_limit row);
          used_today := row_total_24h row;
          pending_increments := default 0 (pending !! row_dev_id row);
          consecutive_failures := row_consecutive_failures row;
          calls_total := row_calls_total row;
          is_backup := is_backup_dev_id backup_ids_var (row_dev_id row) |}.

Definition reload_from_repository : ST State (result unit KeyPoolError) :=
  rows <-? lift repo_load_keys;
  pending ← read_inner pending_snapshot;
  _ ← modify_inner (replace_keys (sort_by le_dev_id (omap (key_of_row pending) rows)));
  mret (Ok tt).

Definition key_entry (v : value) : string * string :=
  (json_scalar (or_else (get "devId" v) (get "dev_id" v)),
   json_scalar (or_else (get "authKey" v) (get "auth_key" v))).

Fixpoint encrypt_entries (entries : list value) : ST State (result (list BootstrapKey) KeyPoolError) :=
  match entries with
  | [] => mret (Ok [])
  | e :: r =>
      let '(d, a) := key_entry e in
      if is_empty d || is_empty a then encrypt_entries r else
      enc ← lift (crypto_encrypt a);
      match enc with
      | Err m => mret (Err (ErrCrypto m))
      | Ok cipher =>
          rest <-? encrypt_entries r;
          mret (Ok ({| boot_dev_id := d; boot_encrypted_auth_key := cipher;
                       boot_daily_limit := effective_daily_limit default_limit_var None |} :: rest))
      end
  end.

Definition no_key_array : KeyPoolError :=
  ErrConfiguration "HIREZ_API_KEYS_FILE did not contain an array of Hi-Rez keys".

Definition unreadable_key_file (m : string) : KeyPoolError :=
  ErrConfiguration ("Failed to read HIREZ_API_KEYS_FILE: " +:+ m).

Definition bootstrap_keys_from_file (path : string) : ST State (result unit KeyPoolError) :=
  present ← lift (file_exists path);
  if negb present then mret (Ok tt) else
  raw ← lift (file_read_to_string path);
  match raw with
  | Err m => mret (Err (unreadable_key_file m))
  | Ok text =>
      match json_from_str text with
      | Err m => mret (Err (unreadable_key_file m))
      | Ok parsed =>
          match or_else (as_array parsed) (get "keys" parsed ≫= as_array) with
          | None | Some [] => mret (Err no_key_array)
          | Some entries =>
              encrypted <-? encrypt_entries entries;
              _ <-? lift (repo_bootstrap_keys encrypted);
              mret (Ok tt)
          end
      end
  end.

Definition initialize (key_file : option string) : ST State (result unit KeyPoolError) :=
  _ <-? lift repo_ensure_schema;
  sound ← lift crypto_smoke_test;
  if negb sound then mret (Err (ErrConfiguration "Encryption smoke test failed. MEK may be wrong.")) else
  _ <-? match key_file with
        | Some path => bootstrap_keys_from_file path
        | None => mret (Ok tt)
        end;
  _ <-? reload_from_repository;
  _ ← set_initialized;
  mret (Ok tt).

Definition flush_usage : ST State (result unit KeyPoolError) :=
  batches ← on_inner drain_pending;
  match batches with
  | [] => mret (Ok tt)
  | _ =>
      r ← lift (repo_flush_usage batches);
      match r with
      | Err e => _ ← modify_inner (restore_batches batches); mret (Err e)
      | Ok _ => _ ← modify_inner (commit_batches batches); mret (Ok tt)
      end
  end.

Definition reload (key_file : option string) : ST State (result unit KeyPoolError) :=
  _ <-? flush_usage;
  initialize key_file.

Definition ensure_initialized : ST State (result unit KeyPoolError) :=
  fun '(p, w) => if initialized p then (Ok tt, (p, w)) else initialize None (p, w).

Definition select_available_key : ST State (result (option ApiKeyStatus) KeyPoolError) :=
  sticky ← on_inner (select_sticky reserve);
  match sticky with
  | inl k => mret (Ok (Some k))
  | inr update =>
      _ ← report_status update;
      k ← on_inner (select_fresh reserve);
      mret (Ok k)
  end.

Definition increment_usage (d : string) : ST State unit :=
  modify_inner (increment_usage_inner reserve d).

Definition record_success (d : string) : ST State unit :=
  update ← on_inner (record_success_inner d);
  report_status ((fun '(st, n) => (d, st, n)) <$> update).

Definition record_failure (d : string) (key_fault : bool) : ST State unit :=
  if negb key_fault then mret tt else
  update ← on_inner (record_failure_inner d);
  report_status ((fun '(st, n) => (d, st, n)) <$> update).

Definition monitoring_credential (d : string) (i : KeyPoolInner) : option ApiCredential :=
  (fun k => {| cred_dev_id := dev_id k; cred_auth_key := auth_key k |}) <$> find_key d i.

Definition try_estimate_revival (d : string) : ST State unit :=
  now ← lift unix_millis;
  eligible ← read_inner (estimate_eligible d now);
  if negb eligible then mret tt else
  estimate ← lift (repo_local_usage_estimate d);
  match estimate with
  | Err _ => mret tt
  | Ok estimated =>
      limit ← on_inner (estimate_inner default_limit_var reserve d now estimated);
      match limit with
      | None => mret tt
      | Some limit => _ ← lift (repo_save_authoritative_usage d estimated limit Healthy); mret tt
      end
  end.

Definition sync_usage_internal (d : string) : ST State unit :=
  credential ← read_inner (monitoring_credential d);
  match credential with
  | None => mret tt
  | Some credential =>
      alive ← lift probe_upgrade;
      if negb alive then
        _ ← lift (repo_record_sync_error d "Hi-Rez usage probe is unavailable"); mret tt
      else
        report ← lift (probe_get_data_used credential);
        match report with
        | Ok (Some report) =>
            let limit := effective_daily_limit default_limit_var (report_reported_limit report) in
            let st := budget_status (report_used report) limit reserve in
            _ ← modify_inner (apply_report_inner d (report_used report) limit st);
            _ ← lift (repo_save_authoritative_usage d (report_used report) limit st);
            mret tt
        | Ok None => try_estimate_revival d
        | Err e => _ ← lift (repo_record_sync_error d (key_pool_error_to_string e)); mret tt
        end
  end.

Definition sync_usage (d : string) : ST State unit := sync_usage_internal d.

Definition sync_all_usage : ST State (result unit KeyPoolError) :=
  _ <-? flush_usage;
  _ <-? lift repo_cleanup_rolling_usage;
  dev_ids ← read_inner (fun i => filter (fun d => d <> "test") (map dev_id (keys i)));
  _ ← for_each sync_usage dev_ids;
  lift repo_cleanup_rolling_usage.

Definition revival_on_cooldown : KeyPoolError := ErrExhausted
  "CRITICAL: All API keys exhausted or at/below reserve threshold. Revival on cooldown.".
Definition still_exhausted : KeyPoolError := ErrExhausted
  "CRITICAL: All API keys exhausted or at/below reserve threshold. No key available after sync attempt.".

Definition active_key : ST State (result ApiKeyStatus KeyPoolError) :=
  _ <-? ensure_initialized;
  first <-? select_available_key;
  match first with
  | Some k => mret (Ok k)
  | None =>
      second <-? select_available_key;
      match second with
      | Some k => mret (Ok k)
      | None =>
          now ← lift unix_millis;
          revive ← on_inner (begin_revival now);
          if negb revive then mret (Err revival_on_cooldown) else
          dev_ids ← read_inner (fun i => map dev_id (keys i));
          _ ← for_each sync_usage_internal dev_ids;
          third <-? select_available_key;
          match third with
          | Some k => mret (Ok k)
          | None => mret (Err still_exhausted)
          end
      end
  end.

Definition pool_status : ST State (list ApiKeyStatus) :=
  read_inner (fun i => map (format_key reserve) (keys i)).

(** [impl ApiKeyState for KeyPool]. *)
Definition log_endpoint (d endpoint : string) (response_time_ms : Z) (consumer : string) : ST State unit :=
  _ ← lift (repo_log_endpoint d endpoint response_time_ms consumer); mret tt.

Definition key_state_active_key : ST State (result ApiCredential UpstreamError) :=
  key ← active_key;
  match key with
  | Err e => mret (Err (UpstreamConfiguration (key_pool_error_to_string e)))
  | Ok key => mret (Ok {| cred_dev_id := status_dev_id key; cred_auth_key := status_auth_key key |})
  end.

#[local] Instance KeyPool_ApiKeyState : ApiKeyState State := {|
  state_active_key := key_state_active_key;
  state_increment_usage := increment_usage;
  state_log_endpoint := log_endpoint;
  state_record_success := record_success;
  state_record_failure := record_failure;
  state_sync_usage := sync_usage;
|}.
End methods.
