(* ===== verification/KeyPoolSpec.v ===== *)
(** * Facts about the key pool's critical sections

    The lemmas the key pool's properties are proved with: how each section
    acts on [find_key], the pool invariant and its preservation. *)

From S2P Require Import Prelude Json Upstream KeyPool.

(** ** Updates of one key *)

Class KeepsId (f : InMemoryKey -> InMemoryKey) : Prop := { keeps_id : forall k, dev_id (f k) = dev_id k }.

#[export] Instance set_status_id s : KeepsId (set_status s).
Proof. by constructor. Qed.
#[export] Instance increment_key_id r : KeepsId (increment_key r).
Proof. constructor. intros k. unfold increment_key. by case_match. Qed.
#[export] Instance success_key_id : KeepsId success_key.
Proof. constructor. intros k. unfold success_key. by case_match. Qed.
#[export] Instance failure_key_id : KeepsId failure_key.
Proof. constructor. intros k. unfold failure_key. by case_match. Qed.
#[export] Instance authoritative_key_id u l s : KeepsId (authoritative_key u l s).
Proof. constructor. intros k. unfold authoritative_key. by case_match. Qed.
#[export] Instance revive_key_id e l : KeepsId (revive_key e l).
Proof. by constructor. Qed.
#[export] Instance set_pending_id g : KeepsId (fun k => set_pending (g k) k).
Proof. by constructor. Qed.
#[export] Instance set_calls_total_id g : KeepsId (fun k => set_calls_total (g k) k).
Proof. by constructor. Qed.

Lemma has_dev_iff d k : has_dev d k = true <-> dev_id k = d.
Proof. unfold has_dev. apply String.eqb_eq. Qed.

Lemma has_dev_keeps d f `{!KeepsId f} k : has_dev d (f k) = has_dev d k.
Proof. unfold has_dev. by rewrite keeps_id. Qed.

Lemma find_key_Some d i k : find_key d i = Some k -> k ∈ keys i /\ dev_id k = d.
Proof. intros [? ?%has_dev_iff]%find_first_Some. done. Qed.

Lemma find_key_update d f `{!KeepsId f} i : find_key d (update_key d f i) = f <$> find_key d i.
Proof. apply find_first_update. intros k. by apply has_dev_keeps. Qed.

Lemma find_key_update_ne d e f `{!KeepsId f} i :
  d <> e -> find_key e (update_key d f i) = find_key e i.
Proof.
  intros Hne. apply find_first_update_other; intros k Hk%has_dev_iff; unfold has_dev;
    apply String.eqb_neq; rewrite ?keeps_id; congruence.
Qed.

Lemma dev_ids_update d f `{!KeepsId f} i : map dev_id (keys (update_key d f i)) = map dev_id (keys i).
Proof. apply update_first_proj. intros; apply keeps_id. Qed.

Lemma keys_clear c d i : keys (clear_active_if c d i) = keys i.
Proof. unfold clear_active_if. by case_match. Qed.

Lemma find_key_clear c d e i : find_key e (clear_active_if c d i) = find_key e i.
Proof. unfold find_key. by rewrite keys_clear. Qed.

Lemma active_clear c d i a :
  active_dev_id (clear_active_if c d i) = Some a ->
  active_dev_id i = Some a /\ (c = true -> a <> d).
Proof.
  unfold clear_active_if. destruct c; simpl; [|done].
  case_bool_decide; simpl; [done|]. intros ?. split; [done|congruence].
Qed.

Lemma find_key_in d i k :
  NoDup (map dev_id (keys i)) -> k ∈ keys i -> dev_id k = d -> find_key d i = Some k.
Proof.
  unfold find_key. induction (keys i) as [|x r IH]; simpl; [set_solver|].
  intros [Hx Hr]%NoDup_cons Hk Hd. apply elem_of_cons in Hk as [->|Hk].
  - by rewrite (proj2 (has_dev_iff d x) Hd).
  - destruct (has_dev d x) eqn:E; [|auto]. apply has_dev_iff in E.
    exfalso. apply Hx. rewrite E, <- Hd. by apply list_elem_of_fmap_2.
Qed.

Lemma status_eqb_true a b : status_eqb a b = true <-> a = b.
Proof. apply bool_decide_eq_true. Qed.

Lemma status_eqb_false a b : status_eqb a b = false <-> a <> b.
Proof. apply bool_decide_eq_false. Qed.

Lemma usable_iff reserve k :
  usable reserve k = true <->
  status k = Healthy /\ reserve < sat_sub (daily_limit k) (used_today k).
Proof.
  unfold usable, has_usable_budget. rewrite andb_true_iff, status_eqb_true, Z.ltb_lt. done.
Qed.

(** What the rewrites do to the fields the properties talk about. *)
Lemma failure_key_count k : consecutive_failures (failure_key k) = sat_add_u32 (consecutive_failures k) 1.
Proof. unfold failure_key. by case_match. Qed.

Lemma failure_key_status k :
  status (failure_key k) =
  if FAILURE_THRESHOLD <=? sat_add_u32 (consecutive_failures k) 1 then Unhealthy else status k.
Proof. unfold failure_key. simpl. by case_match. Qed.

Lemma increment_key_used r k : used_today (increment_key r k) = sat_add_u64 (used_today k) 1.
Proof. unfold increment_key. by case_match. Qed.

Lemma increment_key_pending r k :
  pending_increments (increment_key r k) = sat_add_u64 (pending_increments k) 1.
Proof. unfold increment_key. by case_match. Qed.

Lemma increment_key_total r k : calls_total (increment_key r k) = calls_total k.
Proof. unfold increment_key. by case_match. Qed.

Lemma increment_key_status r k :
  status (increment_key r k) =
  if has_usable_budget (sat_add_u64 (used_today k) 1) (daily_limit k) r then status k else Limited.
Proof. unfold increment_key. simpl. by destruct (has_usable_budget _ _ _). Qed.

(** ** The pool invariant *)

Record key_in_range (k : InMemoryKey) : Prop := {
  range_used : in_u64 (used_today k);
  range_limit : in_u64 (daily_limit k);
  range_pending : in_u64 (pending_increments k);
  range_total : in_u64 (calls_total k);
  range_failures : in_u32 (consecutive_failures k);
}.

Record pool_wf (i : KeyPoolInner) : Prop := {
  wf_nodup : NoDup (map dev_id (keys i));
  wf_range : Forall key_in_range (keys i);
  (** The sticky key exists and has not been taken out of service. *)
  wf_active : forall d, active_dev_id i = Some d ->
    exists k, find_key d i = Some k /\ status k <> Unhealthy;
}.

Lemma range_find d i k : pool_wf i -> find_key d i = Some k -> key_in_range k.
Proof.
  intros Hwf [Hk _]%find_key_Some. pose proof (wf_range _ Hwf) as Hr.
  rewrite Forall_forall in Hr. auto.
Qed.

(** One key is rewritten and the sticky key is cleared when the rewrite takes
    it out of service: the shape of most sections. *)
Lemma wf_update_clear c d f `{!KeepsId f} i :
  pool_wf i ->
  (forall k, find_key d i = Some k -> key_in_range k -> key_in_range (f k)) ->
  (forall k, find_key d i = Some k -> c = false -> active_dev_id i = Some d ->
             status k <> Unhealthy -> status (f k) <> Unhealthy) ->
  pool_wf (clear_active_if c d (update_key d f i)).
Proof.
  intros Hwf Hr Ha. split.
  - rewrite keys_clear, dev_ids_update by apply _. apply Hwf.
  - rewrite keys_clear. apply Forall_update_first; [apply Hwf|].
    intros k Hk Hd Hkr. apply Hr; [|done].
    apply find_key_in; [apply Hwf|done|]. by apply has_dev_iff.
  - intros a [Hact Hc]%active_clear. change (active_dev_id i = Some a) in Hact.
    destruct (wf_active _ Hwf a Hact) as (k & Hk & Hst).
    rewrite find_key_clear. destruct (decide (d = a)) as [->|Hne].
    + rewrite find_key_update, Hk by apply _. eexists. split; [done|].
      apply Ha; try done. destruct c; [|done]. by destruct (Hc eq_refl).
    + rewrite find_key_update_ne by (done || apply _). eauto.
Qed.

Lemma wf_update d f `{!KeepsId f} i :
  pool_wf i ->
  (forall k, find_key d i = Some k -> key_in_range k -> key_in_range (f k)) ->
  (forall k, find_key d i = Some k -> status k <> Unhealthy -> status (f k) <> Unhealthy) ->
  pool_wf (update_key d f i).
Proof. intros Hwf Hr Ha. apply (wf_update_clear false d f i Hwf Hr). auto. Qed.

Lemma in_u64_0 : in_u64 0.
Proof. unfold in_u64, u64_max. lia. Qed.
Lemma in_u64_1 : in_u64 1.
Proof. unfold in_u64, u64_max. lia. Qed.
Lemma in_u32_0 : in_u32 0.
Proof. unfold in_u32, u32_max. lia. Qed.
Lemma in_u32_1 : in_u32 1.
Proof. unfold in_u32, u32_max. lia. Qed.
#[export] Hint Resolve in_u64_0 in_u64_1 in_u32_0 in_u32_1 : cat.

(** Range goals of the section functions. *)
Ltac key_range :=
  match goal with H : key_in_range _ |- _ => destruct H end;
  constructor; simpl; eauto with cat.

Lemma default_limit_range v : in_u64 (configured_daily_limit v).
Proof.
  unfold configured_daily_limit. case_match eqn:E; [|unfold in_u64, u64_max; lia].
  apply bind_Some in E as (s & -> & E). apply bind_Some in E as (l & Hl & E).
  case_match; simplify_eq. by apply parse_unsigned_range in Hl.
Qed.

Lemma effective_limit_range v r :
  (forall l, r = Some l -> in_u64 l) -> in_u64 (effective_daily_limit v r).
Proof.
  intros Hr. unfold effective_daily_limit. case_match eqn:E; [|apply default_limit_range].
  apply bind_Some in E as (l & -> & E). case_match; simplify_eq. auto.
Qed.

(** ** The sections preserve the invariant *)

Lemma wf_select_sticky reserve i : pool_wf i -> pool_wf (snd (select_sticky reserve i)).
Proof.
  intros Hwf. unfold select_sticky. repeat case_match; simpl; try done.
  apply wf_update; [apply _|done|intros; key_range|done].
Qed.

Lemma pick_key_Some reserve ks k :
  pick_key reserve ks = Some k -> k ∈ ks /\ usable reserve k = true.
Proof.
  unfold pick_key, or_else. case_match eqn:E; intros ?; simplify_eq.
  - apply find_first_Some in E as [? ?]. by bool_props.
  - apply find_first_Some in H as [? ?]. by bool_props.
Qed.

Lemma wf_select_fresh reserve i : pool_wf i -> pool_wf (snd (select_fresh reserve i)).
Proof.
  intros Hwf. unfold select_fresh. case_match eqn:E; [|done]. simpl.
  apply pick_key_Some in E as [Hk Hu]. apply usable_iff in Hu as [Hs _].
  split; [apply Hwf|apply Hwf|]. simpl. intros d [= <-].
  exists i0. split; [|congruence]. by apply find_key_in; [apply Hwf|..].
Qed.

Lemma wf_increment reserve d i : pool_wf i -> pool_wf (increment_usage_inner reserve d i).
Proof.
  intros Hwf. apply wf_update_clear; [apply _|done| |].
  - intros k Hk Hr. unfold increment_key. case_match; key_range.
  - intros k Hk Hc _ Hs. rewrite Hk in Hc. rewrite increment_key_status. by destruct (has_usable_budget _ _ _).
Qed.

Lemma wf_success d i : pool_wf i -> pool_wf (snd (record_success_inner d i)).
Proof.
  intros Hwf. simpl. apply wf_update; [apply _|done| |].
  - intros k Hk Hr. unfold success_key. case_match; key_range.
  - intros k Hk Hs. unfold success_key. by case_match.
Qed.

Lemma wf_failure d i : pool_wf i -> pool_wf (snd (record_failure_inner d i)).
Proof.
  intros Hwf. simpl. apply wf_update_clear; [apply _|done| |].
  - intros k Hk Hr. unfold failure_key. case_match; key_range.
  - intros k Hk Hc _ Hs. rewrite Hk, failure_key_count in Hc.
    by rewrite failure_key_status, Hc.
Qed.

Lemma wf_apply_report d used limit st i :
  in_u64 used -> in_u64 limit -> st <> Unhealthy ->
  pool_wf i -> pool_wf (apply_report_inner d used limit st i).
Proof.
  intros Hu Hl Hst Hwf. apply wf_update_clear; [apply _|done| |].
  - intros k Hk Hr. unfold authoritative_key. case_match; key_range.
  - intros k Hk _ _ _. unfold authoritative_key. by case_match.
Qed.

Lemma wf_same_keys i j :
  keys j = keys i -> active_dev_id j = active_dev_id i -> pool_wf i -> pool_wf j.
Proof.
  intros Hk Ha [H1 H2 H3]. split; rewrite ?Hk; try done.
  intros d. rewrite Ha. unfold find_key. rewrite Hk. apply H3.
Qed.

Lemma wf_estimate v reserve d now est i :
  in_u64 est -> pool_wf i -> pool_wf (snd (estimate_inner v reserve d now est i)).
Proof.
  intros He Hwf. unfold estimate_inner. case_match eqn:Hk; [|done].
  case_match; [done|]. simpl.
  apply (wf_same_keys (update_key d (revive_key est
     (effective_daily_limit v (Some (daily_limit i0)))) i)); [done|done|].
  apply wf_update; [apply _|done| |done].
  intros k Hk' Hr. rewrite Hk in Hk'. simplify_eq.
  assert (in_u64 (effective_daily_limit v (Some (daily_limit k)))).
  { apply effective_limit_range. intros ? [= <-]. apply Hr. }
  key_range.
Qed.

Lemma wf_begin_revival now i : pool_wf i -> pool_wf (snd (begin_revival now i)).
Proof.
  intros Hwf. unfold begin_revival. case_match; [done|]. by apply (wf_same_keys i).
Qed.

Lemma wf_foldl_update (f : UsageBatch -> InMemoryKey -> InMemoryKey) bs i :
  (forall b, KeepsId (f b)) ->
  (forall b k, b ∈ bs -> key_in_range k -> key_in_range (f b k)) ->
  (forall b k, status (f b k) = status k) ->
  pool_wf i -> pool_wf (foldl (fun i b => update_key (batch_dev_id b) (f b) i) i bs).
Proof.
  intros Hid. revert i. induction bs as [|b r IH]; intros i Hr Hs Hwf; [done|].
  simpl. apply IH; [|done|].
  - intros b' k Hb'. apply Hr. by right.
  - apply wf_update; [apply _|done| |].
    + intros k _. apply Hr. by left.
    + intros k _. by rewrite Hs.
Qed.

Definition batches_in_range (bs : list UsageBatch) : Prop :=
  Forall (fun b => in_u64 (batch_calls b)) bs.

Lemma wf_restore bs i : batches_in_range bs -> pool_wf i -> pool_wf (restore_batches bs i).
Proof.
  intros Hb Hwf. unfold restore_batches.
  apply (wf_foldl_update (fun b k => set_pending (sat_add_u64 (pending_increments k) (batch_calls b)) k)); try done.
  intros b k Hin Hr. unfold batches_in_range in Hb. rewrite Forall_forall in Hb.
  specialize (Hb b Hin). key_range.
Qed.

Lemma wf_commit bs i : batches_in_range bs -> pool_wf i -> pool_wf (commit_batches bs i).
Proof.
  intros Hb Hwf. unfold commit_batches.
  apply (wf_foldl_update (fun b k => set_calls_total (sat_add_u64 (calls_total k) (batch_calls b)) k)); try done.
  intros b k Hin Hr. unfold batches_in_range in Hb. rewrite Forall_forall in Hb.
  specialize (Hb b Hin). key_range.
Qed.

Definition drain_key (k : InMemoryKey) : InMemoryKey :=
  if pending_increments k =? 0 then k else set_pending 0 k.

Lemma drain_key_eq k : drain_key k = set_pending 0 k.
Proof.
  unfold drain_key. destruct (pending_increments k =? 0) eqn:E; [|done].
  apply Z.eqb_eq in E. destruct k; simpl in *. by subst.
Qed.

Lemma find_key_drain d i : find_key d (snd (drain_pending i)) = set_pending 0 <$> find_key d i.
Proof.
  unfold find_key. simpl. induction (keys i) as [|k r IH]; simpl; [done|].
  fold (drain_key k). rewrite drain_key_eq. unfold has_dev at 1 3. simpl.
  by destruct (String.eqb (dev_id k) d).
Qed.

Lemma wf_drain i : pool_wf i -> pool_wf (snd (drain_pending i)).
Proof.
  intros [H1 H2 H3]. split.
  - simpl. rewrite map_map. erewrite map_ext; [exact H1|].
    intros k. simpl. by case_match.
  - simpl. apply Forall_map. eapply Forall_impl; [exact H2|].
    intros k Hr. simpl. case_match; [done|]. key_range.
  - intros d Hd. destruct (H3 d Hd) as (k & Hk & Hs).
    rewrite find_key_drain, Hk. by eexists.
Qed.

Lemma drain_in_range i : pool_wf i -> batches_in_range (fst (drain_pending i)).
Proof.
  intros Hwf. unfold batches_in_range. apply Forall_forall. simpl. intros b Hb.
  apply list_elem_of_omap in Hb as (k & Hk & Hb). case_match; simplify_eq. simpl.
  pose proof (wf_range _ Hwf) as Hr. rewrite Forall_forall in Hr. apply Hr; done.
Qed.

(** * Properties of the key pool

    The step relation of the critical sections, the accounting of calls under
    any interleaving of them, the invariant of every reachable pool, and the
    refinement of every method to a run of sections. *)

#[local] Arguments drain_pending : simpl never.

(** ** Interleavings

    The pool is shared by every request task, so the sections of different
    methods interleave freely.  A configuration is the inner state and the
    batches that running flushes have taken out and not settled yet. *)

Inductive label :=
  | LSticky | LFresh
  | LCall (d : string)
  | LDrain | LRestore (bs : list UsageBatch) | LCommit (bs : list UsageBatch)
  | LSuccess (d : string) | LFailure (d : string)
  | LReport (d : string) (used limit : Z)
  | LEstimate (d : string) (now estimate : Z)
  | LRevival (now : Z)
  (** The keys a reload replaces, and those it installs. *)
  | LReload (before after : list InMemoryKey).

Definition config : Type := KeyPoolInner * list (list UsageBatch).

Section steps.
Variable default_limit_var : option string.
Variable reserve : Z.

Inductive pool_step : label -> config -> config -> Prop :=
| step_sticky i fl : pool_step LSticky (i, fl) (snd (select_sticky reserve i), fl)
| step_fresh i fl : pool_step LFresh (i, fl) (snd (select_fresh reserve i), fl)
| step_call d i fl : pool_step (LCall d) (i, fl) (increment_usage_inner reserve d i, fl)
| step_drain i fl :
    pool_step LDrain (i, fl) (snd (drain_pending i), fst (drain_pending i) :: fl)
| step_restore bs i fl1 fl2 :
    pool_step (LRestore bs) (i, fl1 ++ bs :: fl2) (restore_batches bs i, fl1 ++ fl2)
| step_commit bs i fl1 fl2 :
    pool_step (LCommit bs) (i, fl1 ++ bs :: fl2) (commit_batches bs i, fl1 ++ fl2)
| step_success d i fl : pool_step (LSuccess d) (i, fl) (snd (record_success_inner d i), fl)
| step_failure d i fl : pool_step (LFailure d) (i, fl) (snd (record_failure_inner d i), fl)
| step_report d used limit i fl :
    in_u64 used -> in_u64 limit ->
    pool_step (LReport d used limit) (i, fl) (apply_report_inner d used limit (budget_status used limit reserve) i, fl)
| step_estimate d now est i fl :
    in_u64 est ->
    pool_step (LEstimate d now est) (i, fl) (snd (estimate_inner default_limit_var reserve d now est i), fl)
| step_revival now i fl : pool_step (LRevival now) (i, fl) (snd (begin_revival now i), fl)
| step_reload ks i fl :
    NoDup (map dev_id ks) -> Forall key_in_range ks ->
    pool_step (LReload (keys i) ks) (i, fl) (replace_keys ks i, fl).

Inductive pool_steps : list label -> config -> config -> Prop :=
| steps_nil c : pool_steps [] c c
| steps_cons l tr c1 c2 c3 :
    pool_step l c1 c2 -> pool_steps tr c2 c3 -> pool_steps (l :: tr) c1 c3.

Lemma steps_one l c1 c2 : pool_step l c1 c2 -> pool_steps [l] c1 c2.
Proof. econstructor; [done|constructor]. Qed.

Lemma steps_trans tr1 tr2 c1 c2 c3 :
  pool_steps tr1 c1 c2 -> pool_steps tr2 c2 c3 -> pool_steps (tr1 ++ tr2) c1 c3.
Proof. induction 1; intros; simpl; [done|]. econstructor; eauto. Qed.

Definition config_wf (c : config) : Prop :=
  pool_wf (fst c) /\ Forall batches_in_range (snd c).

Lemma step_wf l c1 c2 : pool_step l c1 c2 -> config_wf c1 -> config_wf c2.
Proof.
  intros Hs [Hwf Hfl]. destruct Hs; simpl in *; split; simpl; try done;
    repeat match goal with
    | H : Forall _ (_ ++ _ :: _) |- _ => apply Forall_app in H as [? [? ?]%Forall_cons]
    end; try by apply Forall_app.
  - by apply wf_select_sticky.
  - by apply wf_select_fresh.
  - by apply wf_increment.
  - by apply wf_drain.
  - constructor; [by apply drain_in_range|done].
  - by apply wf_restore.
  - by apply wf_commit.
  - by apply wf_success.
  - by apply wf_failure.
  - apply wf_apply_report; try done. unfold budget_status. by case_match.
  - by apply wf_estimate.
  - by apply wf_begin_revival.
Qed.

Lemma steps_wf tr c1 c2 : pool_steps tr c1 c2 -> config_wf c1 -> config_wf c2.
Proof. induction 1; eauto using step_wf. Qed.
End steps.

(** ** Accounting of the calls of one key *)

Fixpoint batch_calls_of (d : string) (bs : list UsageBatch) : Z :=
  match bs with
  | [] => 0
  | b :: r => (if String.eqb (batch_dev_id b) d then batch_calls b else 0) + batch_calls_of d r
  end.

Fixpoint in_flight (d : string) (fl : list (list UsageBatch)) : Z :=
  match fl with
  | [] => 0
  | bs :: r => batch_calls_of d bs + in_flight d r
  end.

(** Every call of [d] the pool knows of: settled, pending or in flight. *)
Definition recorded (d : string) (c : config) : option Z :=
  (fun k => calls_total k + pending_increments k + in_flight d (snd c)) <$> find_key d (fst c).

Fixpoint calls_of (d : string) (tr : list label) : Z :=
  match tr with
  | LCall e :: r => (if String.eqb e d then 1 else 0) + calls_of d r
  | _ :: r => calls_of d r
  | [] => 0
  end.

(** What the keys themselves hold of the calls of [d]. *)
Definition counted (d : string) (ks : list InMemoryKey) : Z :=
  match find_first (has_dev d) ks with
  | Some k => calls_total k + pending_increments k
  | None => 0
  end.

(** By how much the reloads of a run changed what is held for [d]: the rows of
    the database and the pending counts of the snapshot a reload was made from
    against what the keys held when it replaced them. *)
Fixpoint drift (d : string) (tr : list label) : Z :=
  match tr with
  | LReload before after :: r => counted d after - counted d before + drift d r
  | _ :: r => drift d r
  | [] => 0
  end.

Fixpoint installed (d : string) (tr : list label) : Z :=
  match tr with
  | LReload _ after :: r => counted d after + installed d r
  | _ :: r => installed d r
  | [] => 0
  end.

(** No reload drops the key. *)
Definition reloads_keep (d : string) (tr : list label) : Prop :=
  Forall (fun l => match l with LReload _ after => is_Some (find_first (has_dev d) after) | _ => True end) tr.

Lemma calls_of_nonneg d tr : 0 <= calls_of d tr.
Proof. induction tr as [|[] r IH]; simpl; try done. case_match; lia. Qed.

Lemma labels_cons d l tr :
  calls_of d (l :: tr) = calls_of d [l] + calls_of d tr /\ drift d (l :: tr) = drift d [l] + drift d tr /\
  installed d (l :: tr) = installed d [l] + installed d tr.
Proof. destruct l; simpl; split_and!; lia. Qed.

Lemma counted_nonneg d ks : Forall key_in_range ks -> 0 <= counted d ks.
Proof.
  intros Hr. unfold counted. destruct (find_first _ ks) as [k|] eqn:E; [|done].
  apply find_first_Some in E as [Hk _]. rewrite Forall_forall in Hr. destruct (Hr _ Hk) as [_ _ [? _] [? _] _]. lia.
Qed.

Lemma batch_calls_nonneg d bs : batches_in_range bs -> 0 <= batch_calls_of d bs.
Proof.
  induction bs as [|b r IH]; simpl; [done|]. intros [Hb Hr]%Forall_cons.
  destruct Hb. specialize (IH Hr). case_match; lia.
Qed.

Lemma in_flight_nonneg d fl : Forall batches_in_range fl -> 0 <= in_flight d fl.
Proof.
  induction fl as [|b r IH]; simpl; [done|]. intros [Hb Hr]%Forall_cons.
  specialize (IH Hr). pose proof (batch_calls_nonneg d b Hb). lia.
Qed.

Lemma in_flight_app d fl1 fl2 : in_flight d (fl1 ++ fl2) = in_flight d fl1 + in_flight d fl2.
Proof. induction fl1 as [|b r IH]; simpl; [done|]. rewrite IH. lia. Qed.

(** Settling a list of batches adds, to the field [g] of the key [d], the
    calls the list holds for [d], as long as the sum fits. *)
Section settle.
Variable d : string.
Variables (g : InMemoryKey -> Z) (f : UsageBatch -> InMemoryKey -> InMemoryKey).
Hypothesis f_id : forall b, KeepsId (f b).
Hypothesis f_g : forall b k, g (f b k) = sat_add_u64 (g k) (batch_calls b).
Variable h : InMemoryKey -> Z.
Hypothesis f_h : forall b k, h (f b k) = h k.

Lemma settle_batches bs i k :
  batches_in_range bs -> find_key d i = Some k -> 0 <= g k ->
  g k + batch_calls_of d bs <= u64_max ->
  exists k', find_key d (foldl (fun i b => update_key (batch_dev_id b) (f b) i) i bs) = Some k'
    /\ g k' = g k + batch_calls_of d bs /\ h k' = h k.
Proof.
  revert i k. induction bs as [|b r IH]; intros i k; simpl.
  - intros _ Hk _ _. exists k. repeat split; [done|lia].
  - intros [[Hb1 Hb2] Hr]%Forall_cons Hk Hg Hle.
    pose proof (batch_calls_nonneg d r Hr) as Hpos.
    revert Hle. destruct (String.eqb_spec (batch_dev_id b) d) as [<-|Hne]; intros Hle.
    + destruct (IH (update_key (batch_dev_id b) (f b) i) (f b k)) as (k' & ? & Hg' & Hh').
      * done.
      * by rewrite find_key_update, Hk by apply _.
      * rewrite f_g. unfold sat_add_u64, sat_add, u64_max in *. lia.
      * rewrite f_g, sat_add_u64_exact by lia. lia.
      * exists k'. rewrite Hg', Hh', f_h, f_g, sat_add_u64_exact by lia.
        repeat split; [done|lia].
    + destruct (IH (update_key (batch_dev_id b) (f b) i) k) as (k' & ? & Hg' & Hh');
        [done|by rewrite find_key_update_ne by (done || apply _)|done|lia|].
      exists k'. repeat split; [done|lia|done].
Qed.
End settle.

Lemma drain_calls_of d i k :
  NoDup (map dev_id (keys i)) -> find_key d i = Some k ->
  batch_calls_of d (fst (drain_pending i)) = pending_increments k.
Proof.
  unfold find_key, drain_pending. cbn [fst].
  assert (Hnone : forall ks, d ∉ map dev_id ks ->
    batch_calls_of d (omap (fun k => if pending_increments k =? 0 then None else
      Some {| batch_dev_id := dev_id k; batch_calls := pending_increments k |}) ks) = 0).
  { induction ks as [|x r IH]; simpl; [done|]. rewrite not_elem_of_cons. intros [Hx Hr].
    specialize (IH Hr). destruct (pending_increments x =? 0); simpl; [done|].
    destruct (String.eqb_spec (dev_id x) d); [congruence|exact IH]. }
  induction (keys i) as [|x r IH]; simpl; [done|].
  intros [Hx Hr]%NoDup_cons Hk. unfold has_dev at 1 in Hk.
  destruct (String.eqb_spec (dev_id x) d) as [<-|Hne].
  - simplify_eq. destruct (pending_increments k =? 0) eqn:E; simpl.
    + rewrite Hnone by done. bool_props. lia.
    + rewrite String.eqb_refl, Hnone by done. lia.
  - specialize (IH Hr Hk). destruct (pending_increments x =? 0); simpl; [done|].
    destruct (String.eqb_spec (dev_id x) d); [congruence|exact IH].
Qed.

Lemma drain_nothing i : fst (drain_pending i) = [] -> snd (drain_pending i) = i.
Proof.
  destruct i as [ks a lr le]. unfold drain_pending, set_keys. simpl. intros E. f_equal.
  induction ks as [|k r IH]; simpl in *; [done|].
  destruct (pending_increments k =? 0); [|done]. f_equal. by apply IH.
Qed.

(** Sections other than the accounting ones leave both counters alone. *)
Definition keeps_counts (f : InMemoryKey -> InMemoryKey) : Prop :=
  forall k, calls_total (f k) = calls_total k /\ pending_increments (f k) = pending_increments k.

Lemma recorded_update d e f `{!KeepsId f} c i fl :
  keeps_counts f ->
  recorded d (clear_active_if c e (update_key e f i), fl) = recorded d (i, fl).
Proof.
  intros Hf. unfold recorded. simpl. rewrite find_key_clear.
  destruct (decide (e = d)) as [->|Hne].
  - rewrite find_key_update by apply _. destruct (find_key d i) as [k|]; [|done]. simpl.
    destruct (Hf k) as [-> ->]. done.
  - by rewrite find_key_update_ne by (done || apply _).
Qed.

Lemma recorded_same_keys d i j fl : keys j = keys i -> recorded d (j, fl) = recorded d (i, fl).
Proof. intros Hk. unfold recorded, find_key. simpl. by rewrite Hk. Qed.

Section accounting.
Variable default_limit_var : option string.
Variable reserve : Z.
Variable d : string.

Lemma recorded_estimate now est e i fl :
  recorded d (snd (estimate_inner default_limit_var reserve e now est i), fl) = recorded d (i, fl).
Proof.
  unfold estimate_inner. case_match; [|done]. case_match; [done|]. simpl.
  erewrite (recorded_same_keys d (clear_active_if false e (update_key e (revive_key est _) i)));
    [|done].
  apply recorded_update; [apply _|done].
Qed.

Lemma recorded_sticky i fl : recorded d (snd (select_sticky reserve i), fl) = recorded d (i, fl).
Proof.
  unfold select_sticky. repeat case_match; try done.
  by apply (recorded_update d s (set_status Limited) false).
Qed.

Lemma step_recorded l c1 c2 n :
  pool_step default_limit_var reserve l c1 c2 -> reloads_keep d [l] -> config_wf c1 ->
  recorded d c1 = Some n -> n + calls_of d [l] + installed d [l] <= u64_max ->
  recorded d c2 = Some (n + calls_of d [l] + drift d [l]).
Proof.
  intros Hs Hl [Hwf Hfl] Hn Hmax. revert Hn.
  destruct Hs; cbn [fst snd calls_of drift installed] in *; rewrite ?Z.add_0_r in *.
  - by rewrite recorded_sticky.
  - unfold select_fresh. by case_match.
  - unfold recorded, increment_usage_inner. simpl. rewrite find_key_clear.
    destruct (String.eqb_spec d0 d) as [->|Hne].
    + rewrite find_key_update by apply _. destruct (find_key d i) as [k|] eqn:Hk; [|done].
      simpl. intros [= <-]. rewrite increment_key_pending, increment_key_total.
      pose proof (range_find _ _ _ Hwf Hk) as [_ _ [Hp _] [Ht _] _].
      pose proof (in_flight_nonneg d fl Hfl). rewrite sat_add_u64_exact by lia. f_equal. lia.
    + rewrite find_key_update_ne by (done || apply _). intros ->. f_equal. lia.
  - unfold recorded; cbn [fst snd]. rewrite find_key_drain.
    destruct (find_key d i) as [k|] eqn:Hk; [|done]. simpl. intros [= <-]. f_equal.
    pose proof (drain_calls_of d i k (wf_nodup _ Hwf) Hk) as E. simpl in E. lia.
  - apply Forall_app in Hfl as [Hf1 [Hb Hf2]%Forall_cons]. unfold recorded. simpl.
    destruct (find_key d i) as [k|] eqn:Hk; [|done]. simpl. intros [= <-].
    pose proof (range_find _ _ _ Hwf Hk) as [_ _ [Hp _] [Ht _] _].
    rewrite !in_flight_app in *. simpl in *.
    pose proof (in_flight_nonneg d _ Hf1). pose proof (in_flight_nonneg d _ Hf2).
    edestruct (settle_batches d pending_increments
      (fun b k => set_pending (sat_add_u64 (pending_increments k) (batch_calls b)) k)
      _ (fun _ _ => eq_refl) calls_total (fun _ _ => eq_refl) bs i k) as (k' & Hk' & E1 & E2);
      [done|done|done|lia|].
    unfold restore_batches. rewrite Hk'. simpl. f_equal. lia.
  - apply Forall_app in Hfl as [Hf1 [Hb Hf2]%Forall_cons]. unfold recorded. simpl.
    destruct (find_key d i) as [k|] eqn:Hk; [|done]. simpl. intros [= <-].
    pose proof (range_find _ _ _ Hwf Hk) as [_ _ [Hp _] [Ht _] _].
    rewrite !in_flight_app in *. simpl in *.
    pose proof (in_flight_nonneg d _ Hf1). pose proof (in_flight_nonneg d _ Hf2).
    edestruct (settle_batches d calls_total
      (fun b k => set_calls_total (sat_add_u64 (calls_total k) (batch_calls b)) k)
      _ (fun _ _ => eq_refl) pending_increments (fun _ _ => eq_refl) bs i k) as (k' & Hk' & E1 & E2);
      [done|done|done|lia|].
    unfold commit_batches. rewrite Hk'. simpl. f_equal. lia.
  - intros <-. apply (recorded_update d d0 success_key false). intros k.
    unfold success_key. by case_match.
  - intros <-. apply (recorded_update d d0 failure_key). intros k.
    unfold failure_key. by case_match.
  - intros <-. apply (recorded_update d d0 (authoritative_key _ _ _)). intros k.
    unfold authoritative_key. by case_match.
  - by rewrite recorded_estimate.
  - unfold begin_revival. by case_match.
  - apply Forall_cons in Hl as [[k' Hk'] _]. unfold recorded, find_key, counted. cbn [fst snd keys replace_keys set_keys set_active].
    rewrite Hk'. destruct (find_first (has_dev d) (keys i)) as [k|]; [|done]. cbn. intros [= <-]. f_equal. lia.
Qed.

Lemma step_installed l c1 c2 :
  pool_step default_limit_var reserve l c1 c2 -> config_wf c1 -> 0 <= installed d [l] /\ drift d [l] <= installed d [l].
Proof.
  intros [] [Hwf _]; simpl; try done. pose proof (counted_nonneg d ks H0). pose proof (counted_nonneg d (keys i) (wf_range _ Hwf)). lia.
Qed.

Lemma steps_installed tr c1 c2 : pool_steps default_limit_var reserve tr c1 c2 -> config_wf c1 -> 0 <= installed d tr.
Proof.
  induction 1 as [|l tr c1 c2 c3 Hl Hs IH]; intros Hwf; [done|].
  destruct (labels_cons d l tr) as (_ & _ & ->). destruct (step_installed _ _ _ Hl Hwf). specialize (IH (step_wf _ _ _ _ _ Hl Hwf)). lia.
Qed.
End accounting.

(** C1. No call is lost or counted twice but by a reload.  From any well-formed
    pool without a running flush, and for any interleaving of all its critical
    sections, what a key that stays loaded has settled, has pending and has in
    flight grows by exactly the number of increment_usage calls for that key
    and by what each reload installs for it over what it replaces; as long as
    the counts fit in a u64. *)
Theorem usage_accounting v reserve d tr i0 i fl n :
  pool_wf i0 -> recorded d (i0, []) = Some n ->
  pool_steps v reserve tr (i0, []) (i, fl) ->
  reloads_keep d tr -> n + calls_of d tr + installed d tr <= u64_max ->
  recorded d (i, fl) = Some (n + calls_of d tr + drift d tr).
Proof.
  intros Hwf Hn Hs. assert (config_wf (i0, [])) as Hc by (split; simpl; auto).
  clear Hwf. revert n Hn Hc. induction Hs as [c|l tr c1 c2 c3 Hl Hs IH]; intros n Hn Hc Hr Hmax.
  - simpl in *. rewrite Hn. f_equal. lia.
  - apply Forall_cons in Hr as [Hr1 Hr2]. destruct (labels_cons d l tr) as (Ec & Ed & Ei). rewrite Ec, Ei in Hmax. rewrite Ec, Ed.
    pose proof (step_wf _ _ _ _ _ Hl Hc) as Hc2. pose proof (steps_installed v reserve d _ _ _ Hs Hc2).
    destruct (step_installed v reserve d _ _ _ Hl Hc). pose proof (calls_of_nonneg d tr). pose proof (calls_of_nonneg d [l]).
    rewrite (IH (n + calls_of d [l] + drift d [l])); [f_equal; lia| |done..|lia].
    eapply step_recorded; eauto; [by constructor|lia].
Qed.

(** ** Methods as runs of sections *)

(** What the types of the interfaces promise: every count the repository and
    the probe return is an unsigned 64-bit integer (a u32 for the failure
    count), and the developer id is the key of the table. *)
Record in_types (W : Type) `{KeyPoolRepository W} `{UsageProbe W} : Prop := {
  types_rows : forall w rows, run repo_load_keys w = Ok rows ->
    NoDup (map row_dev_id rows) /\
    Forall (fun r => in_u64 (row_total_24h r) /\ in_u64 (row_calls_total r)
      /\ in_u32 (row_consecutive_failures r)
      /\ forall l, row_daily_limit r = Some l -> in_u64 l) rows;
  types_report : forall w c r, run (probe_get_data_used c) w = Ok (Some r) ->
    in_u64 (report_used r) /\ forall l, report_reported_limit r = Some l -> in_u64 l;
  types_estimate : forall w d e, run (repo_local_usage_estimate d) w = Ok e -> in_u64 e;
}.

Section refinement.
Context {W : Type} `{Hrepo : KeyPoolRepository W} `{Hprobe : UsageProbe W}
  `{Hcrypto : KeyCrypto W} `{Hfile : KeyFile W} `{Hclock : Clock W}.
Variables default_limit_var backup_ids_var : option string.
Variable reserve : Z.
Hypothesis types : in_types W.

(** The executions of a method, from any well-formed configuration, are runs
    of the step relation, whose labels go with what the method returns. *)
Definition runs_as {A} (P : A -> list label -> Prop) (m : ST (Pool * W) A) : Prop :=
  forall p w fl, config_wf (inner p, fl) ->
  exists tr, pool_steps default_limit_var reserve tr
    (inner p, fl) (inner (fst (exec m (p, w))), fl) /\ P (run m (p, w)) tr.

(** Every label is one of those allowed. *)
Definition runs_in {A} (ok : label -> Prop) (m : ST (Pool * W) A) : Prop := runs_as (fun _ => Forall ok) m.

Definition silent (l : label) : Prop := False.

Lemma runs_as_ret {A} (P : A -> list label -> Prop) a : P a [] -> runs_as P (mret a).
Proof. intros Ha p w fl _. exists []. split; [constructor|done]. Qed.

Lemma runs_as_bind {A B} P Q R (m : ST (Pool * W) A) (k : A -> ST (Pool * W) B) :
  runs_as P m -> (forall a, runs_as (Q a) (k a)) ->
  (forall a b tr1 tr2, P a tr1 -> Q a b tr2 -> R b (tr1 ++ tr2)) -> runs_as R (m ≫= k).
Proof.
  intros Hm Hk HR p w fl Hwf. destruct (Hm p w fl Hwf) as (tr1 & H1 & HP).
  unfold exec, run, mbind, ST_bind in *. destruct (m (p, w)) as [a [p' w']]; simpl in *.
  destruct (Hk a p' w' fl) as (tr2 & H2 & HQ); [by eapply steps_wf|].
  exists (tr1 ++ tr2). split; [by eapply steps_trans|by eapply HR].
Qed.

Lemma runs_as_try {A B E} P Q R (m : ST (Pool * W) (result A E)) (k : A -> ST (Pool * W) (result B E)) :
  runs_as P m -> (forall a, runs_as (Q a) (k a)) ->
  (forall a b tr1 tr2, P (Ok a) tr1 -> Q a b tr2 -> R b (tr1 ++ tr2)) -> (forall e tr, P (Err e) tr -> R (Err e) tr) ->
  runs_as R (try_bind m k).
Proof.
  intros Hm Hk HR He p w fl Hwf. destruct (Hm p w fl Hwf) as (tr1 & H1 & HP).
  unfold exec, run, try_bind in *. destruct (m (p, w)) as [[a|e] [p' w']]; simpl in *; [|eauto].
  destruct (Hk a p' w' fl) as (tr2 & H2 & HQ); [by eapply steps_wf|].
  exists (tr1 ++ tr2). split; [by eapply steps_trans|by eapply HR].
Qed.

Lemma runs_as_mono {A} P Q (m : ST (Pool * W) A) : runs_as P m -> (forall a tr, P a tr -> Q a tr) -> runs_as Q m.
Proof. intros Hm HPQ p w fl Hwf. destruct (Hm p w fl Hwf) as (tr & ? & ?). eauto. Qed.

Lemma runs_as_lift {A} (c : ST W A) : runs_as (fun _ tr => tr = []) (lift c).
Proof. intros p w fl _. unfold exec, lift. destruct (c w). exists []. split; [constructor|done]. Qed.

(** A call whose answer is known to be one the interface can give. *)
Lemma runs_as_lift_bind {A B} P (c : ST W A) (k : A -> ST (Pool * W) B) :
  (forall w, runs_as P (k (run c w))) -> runs_as P (lift c ≫= k).
Proof.
  intros Hk p w fl Hwf. specialize (Hk w).
  unfold runs_as, exec, run, mbind, ST_bind, lift in *.
  destruct (c w) as [a w']. simpl in *. eauto.
Qed.

Lemma runs_as_section {A} (f : KeyPoolInner -> A * KeyPoolInner) l :
  (forall i fl, pool_wf i -> pool_step default_limit_var reserve l (i, fl) (snd (f i), fl)) ->
  runs_as (fun _ tr => tr = [l]) (on_inner f).
Proof.
  intros Hf p w fl [Hwf _]. specialize (Hf (inner p) fl Hwf).
  unfold exec, on_inner. simpl. destruct (f (inner p)) as [a i] eqn:E. simpl in *.
  exists [l]. split; [by apply steps_one|done].
Qed.

Section allowed.
Variable ok : label -> Prop.

Lemma runs_ret {A} (a : A) : runs_in ok (mret a).
Proof. apply runs_as_ret. constructor. Qed.

Lemma runs_bind {A B} (m : ST (Pool * W) A) (k : A -> ST (Pool * W) B) :
  runs_in ok m -> (forall a, runs_in ok (k a)) -> runs_in ok (m ≫= k).
Proof. intros Hm Hk. apply (runs_as_bind _ (fun _ _ => Forall ok) _ _ _ Hm Hk). intros. by apply Forall_app. Qed.

Lemma runs_try {A B E} (m : ST (Pool * W) (result A E)) (k : A -> ST (Pool * W) (result B E)) :
  runs_in ok m -> (forall a, runs_in ok (k a)) -> runs_in ok (try_bind m k).
Proof. intros Hm Hk. apply (runs_as_try _ (fun _ _ => Forall ok) _ _ _ Hm Hk); [|done]. intros. by apply Forall_app. Qed.

Lemma runs_lift {A} (c : ST W A) : runs_in ok (lift c).
Proof. eapply runs_as_mono; [apply runs_as_lift|]. by intros a ? ->. Qed.

Lemma runs_section {A} (f : KeyPoolInner -> A * KeyPoolInner) l :
  ok l -> (forall i fl, pool_wf i -> pool_step default_limit_var reserve l (i, fl) (snd (f i), fl)) ->
  runs_in ok (on_inner f).
Proof. intros Hl Hf. eapply runs_as_mono; [by apply runs_as_section|]. intros a tr ->. by constructor. Qed.

Lemma runs_read {A} (f : KeyPoolInner -> A) : runs_in ok (read_inner f).
Proof. intros p w fl _. exists []. split; [constructor|done]. Qed.

Lemma runs_for_each {A} (f : A -> ST (Pool * W) unit) l :
  (forall x, runs_in ok (f x)) -> runs_in ok (for_each f l).
Proof.
  intros Hf. induction l as [|x r IH]; [apply runs_ret|].
  apply runs_bind; [apply Hf|done].
Qed.
End allowed.

(** Both branches of every test run sections. *)
Ltac runs :=
  repeat first
    [ apply runs_bind; [|intros ?] | apply runs_try; [|intros ?] | apply runs_lift
    | apply runs_ret | apply runs_read | apply runs_for_each; intros ? | assumption
    | case_match ].

Lemma runs_report_status ok u : runs_in ok (report_status u).
Proof. destruct u as [[[]]|]; unfold report_status; runs. Qed.

(** The sticky key, then the scan if it does not serve. *)
Definition select_labels (tr : list label) : Prop := tr = [LSticky] \/ tr = [LSticky; LFresh].

Lemma silent_nil tr : Forall silent tr -> tr = [].
Proof. destruct 1; done. Qed.

Lemma runs_select : runs_as (fun _ => select_labels) (select_available_key reserve).
Proof.
  unfold select_available_key.
  eapply (runs_as_bind (fun _ tr => tr = [LSticky]) (fun _ _ tr => tr = [] \/ tr = [LFresh])).
  - apply runs_as_section. intros. apply step_sticky.
  - intros [k|u]; [by apply runs_as_ret; left|].
    eapply (runs_as_bind (fun _ => Forall silent) (fun _ _ tr => tr = [LFresh])); [apply runs_report_status| |].
    + intros _. eapply (runs_as_bind (fun _ tr => tr = [LFresh]) (fun _ _ tr => tr = [])).
      * apply runs_as_section. intros. apply step_fresh.
      * intros k. by apply runs_as_ret.
      * by intros ? ? ? ? -> ->.
    + intros ? ? ? ? ->%silent_nil ->. by right.
  - intros ? ? ? ? -> [-> | ->]; [by left|by right].
Qed.

Lemma runs_increment d : runs_as (fun _ tr => tr = [LCall d]) (increment_usage reserve d).
Proof. apply runs_as_section. intros. apply step_call. Qed.

(** A section, then a report of its outcome. *)
Lemma runs_reported l (f : KeyPoolInner -> option (KeyStatus * Z) * KeyPoolInner) d :
  (forall i fl, pool_wf i -> pool_step default_limit_var reserve l (i, fl) (snd (f i), fl)) ->
  runs_as (fun _ tr => tr = [l]) (update ← on_inner f; report_status ((fun e : KeyStatus * Z => let '(st, n) := e in (d, st, n)) <$> update)).
Proof.
  intros Hf. eapply runs_as_bind; [by apply runs_as_section|intros a; apply (runs_report_status silent)|].
  by intros ? ? ? ? -> ->%silent_nil.
Qed.

Lemma runs_success d : runs_as (fun _ tr => tr = [LSuccess d]) (record_success d).
Proof. apply runs_reported. intros. apply step_success. Qed.

Lemma runs_failure d (b : bool) : runs_as (fun _ tr => tr = if b then [LFailure d] else []) (record_failure d b).
Proof.
  unfold record_failure. destruct b; simpl; [|by apply runs_as_ret].
  apply runs_reported. intros. apply step_failure.
Qed.

(** What a usage sync of [d] does to the pool. *)
Definition syncs (d : string) (l : label) : Prop :=
  match l with LReport e _ _ | LEstimate e _ _ => e = d | _ => False end.

Lemma runs_estimate d : runs_in (syncs d) (try_estimate_revival default_limit_var reserve d).
Proof.
  unfold try_estimate_revival. apply runs_as_lift_bind. intros w0. generalize (run unix_millis w0). intros now.
  apply runs_bind; [apply runs_read|intros []]; simpl; [|apply runs_ret].
  apply runs_as_lift_bind. intros w.
  destruct (run (repo_local_usage_estimate d) w) as [est|e] eqn:E; [|apply runs_ret].
  apply runs_bind; [|intros [l|]; runs].
  apply (runs_section _ _ (LEstimate d now est)); [done|]. intros. apply step_estimate.
  by eapply (types_estimate W types w d).
Qed.

Lemma runs_sync d : runs_in (syncs d) (sync_usage_internal default_limit_var reserve d).
Proof.
  unfold sync_usage_internal. apply runs_bind; [apply runs_read|intros [c|]]; [|apply runs_ret].
  apply runs_bind; [apply runs_lift|intros []]; simpl; [|runs].
  apply runs_as_lift_bind. intros w.
  destruct (run (probe_get_data_used c) w) as [[r|]|e] eqn:E; [| |runs].
  - destruct (types_report W types w c r E) as [Hu Hl].
    apply runs_bind; [|intros; runs].
    eapply runs_section; [|intros; apply step_report; [done|by apply effective_limit_range]]. done.
  - apply runs_estimate.
Qed.

(** The drained batches are committed, or put back where the flush fails. *)
Definition flush_labels {A} (r : result A KeyPoolError) (tr : list label) : Prop :=
  match r with
  | Ok _ => tr = [] \/ exists bs, bs <> [] /\ tr = [LDrain; LCommit bs]
  | Err _ => exists bs, bs <> [] /\ tr = [LDrain; LRestore bs]
  end.

Lemma runs_flush : runs_as flush_labels flush_usage.
Proof.
  intros p w fl Hwf. unfold exec, run, flush_usage, mbind, ST_bind, on_inner.
  pose proof (step_drain default_limit_var reserve (inner p) fl) as Hd.
  destruct (drain_pending (inner p)) as [bs i] eqn:E. simpl in Hd.
  destruct bs as [|b bs]; simpl.
  - exists []. split; [|by left]. replace i with (inner p); [constructor|].
    by rewrite <- (drain_nothing (inner p)), E by by rewrite E.
  - set (l := b :: bs) in *. unfold lift. destruct (repo_flush_usage l w) as [[u|e] w']; simpl.
    + exists [LDrain; LCommit l]. split; [|right; by exists l]. econstructor; [exact Hd|]. apply steps_one.
      exact (step_commit default_limit_var reserve l i [] fl).
    + exists [LDrain; LRestore l]. split; [|by exists l]. econstructor; [exact Hd|]. apply steps_one.
      exact (step_restore default_limit_var reserve l i [] fl).
Qed.

(** What the keys have pending for [d]. *)
Definition pending_of (d : string) (ks : list InMemoryKey) : Z :=
  default 0 (pending_increments <$> find_first (has_dev d) ks).

Lemma snapshot_lookup i d :
  NoDup (map dev_id (keys i)) -> pending_snapshot i !! d = pending_increments <$> find_key d i.
Proof.
  unfold pending_snapshot, find_key. intros Hnd.
  assert (forall m : gmap string Z, foldl (fun m k => <[dev_id k := pending_increments k]> m) m (keys i) !! d
    = match find_first (has_dev d) (keys i) with Some k => Some (pending_increments k) | None => m !! d end) as Hg.
  { induction (keys i) as [|k r IH]; intros m; simpl in *; [done|]. apply NoDup_cons in Hnd as [Hk Hnd]. rewrite (IH Hnd).
    destruct (has_dev d k) eqn:Ed.
    - apply has_dev_iff in Ed as <-. destruct (find_first _ r) as [k'|] eqn:E; [|by rewrite lookup_insert_eq].
      apply find_first_Some in E as [Hin E]. apply has_dev_iff in E. destruct Hk. rewrite <- E. by apply list_elem_of_fmap_2.
    - destruct (find_first _ r); [done|]. rewrite lookup_insert_ne; [done|]. intros Heq.
      apply not_true_iff_false in Ed. apply Ed. by apply has_dev_iff. }
  rewrite Hg. by destruct (find_first _ _).
Qed.

Lemma key_of_row_dev pending row k :
  key_of_row default_limit_var backup_ids_var pending row = Some k -> dev_id k = row_dev_id row.
Proof. unfold key_of_row. intros (a & _ & [= <-])%bind_Some. done. Qed.

Lemma loaded_nodup pending rows :
  NoDup (map row_dev_id rows) ->
  NoDup (map dev_id (omap (key_of_row default_limit_var backup_ids_var pending) rows)).
Proof.
  induction rows as [|row r IH]; simpl; [done|]. intros [Hx Hr]%NoDup_cons.
  destruct (key_of_row _ _ pending row) as [k|] eqn:E; [|by apply IH].
  simpl. constructor; [|by apply IH]. rewrite (key_of_row_dev _ _ _ E).
  intros (k' & Heq & Hk')%list_elem_of_fmap. apply list_elem_of_omap in Hk' as (row' & Hin & E').
  apply Hx. rewrite Heq, (key_of_row_dev _ _ _ E'). by apply list_elem_of_fmap_2.
Qed.

(** One reload, which installs every key with what it had pending. *)
Definition reload_labels {A} (r : result A KeyPoolError) (tr : list label) : Prop :=
  match r with
  | Ok _ => exists before after, tr = [LReload before after] /\
      Forall (fun k => pending_increments k = pending_of (dev_id k) before) after
  | Err _ => tr = []
  end.

Lemma runs_reload_from_repository :
  runs_as reload_labels (reload_from_repository default_limit_var backup_ids_var).
Proof.
  intros p w fl Hwf. unfold exec, run, reload_from_repository, try_bind, lift.
  destruct (repo_load_keys w) as [[rows|e] w'] eqn:E; simpl; [|exists []; split; [constructor|done]].
  destruct (types_rows W types w rows) as [Hnd Hrows]; [by unfold run; rewrite E|].
  set (ks := omap _ rows).
  assert (sort_by le_dev_id ks ≡ₚ ks) as Hperm by apply sort_by_perm.
  assert (forall d, default 0 (pending_snapshot (inner p) !! d) = pending_of d (keys (inner p))) as Hp
    by (intros d; by rewrite snapshot_lookup by apply Hwf).
  exists [LReload (keys (inner p)) (sort_by le_dev_id ks)]. split.
  - apply steps_one. apply step_reload.
    + rewrite Hperm. by apply loaded_nodup.
    + rewrite Hperm. apply Forall_forall. intros k (row & Hin & Hk)%list_elem_of_omap.
      rewrite Forall_forall in Hrows. destruct (Hrows row Hin) as (H1 & H2 & H3 & H4).
      unfold key_of_row in Hk. apply bind_Some in Hk as (a & _ & [= <-]).
      split; simpl; try done; [by apply effective_limit_range|]. rewrite Hp. unfold pending_of.
      destruct (find_first _ _) as [k|] eqn:Ek; simpl; [|auto with cat].
      destruct (range_find (row_dev_id row) (inner p) k) as [_ _ ? _ _]; [apply Hwf|done|done].
  - eexists _, _. split; [reflexivity|]. rewrite Hperm. apply Forall_forall. intros k (row & _ & Hk)%list_elem_of_omap.
    apply bind_Some in Hk as (a & _ & [= <-]). apply Hp.
Qed.

Lemma runs_encrypt_entries entries : runs_in silent (encrypt_entries default_limit_var entries).
Proof.
  induction entries as [|e r IH]; simpl; [apply runs_ret|]. destruct (key_entry e) as [d a].
  case_match; [done|]. apply runs_bind; [apply runs_lift|intros []]; [|apply runs_ret].
  apply runs_try; [done|intros; apply runs_ret].
Qed.

Lemma runs_bootstrap path : runs_in silent (bootstrap_keys_from_file default_limit_var path).
Proof. unfold bootstrap_keys_from_file. pose proof runs_encrypt_entries. runs. done. Qed.

(** What comes before a method changes nothing of the pool. *)
Lemma runs_after_silent {A B E} (R : result B E -> list label -> Prop) (m : ST (Pool * W) (result A E))
    (k : A -> ST (Pool * W) (result B E)) :
  runs_in silent m -> (forall a, runs_as R (k a)) -> (forall e, R (Err e) []) -> runs_as R (try_bind m k).
Proof.
  intros Hm Hk He. apply (runs_as_try _ (fun _ => R) _ _ _ Hm Hk); [|by intros e tr ->%silent_nil].
  intros a b tr1 tr2 ->%silent_nil H2. exact H2.
Qed.

Lemma runs_initialize key_file :
  runs_as reload_labels (initialize default_limit_var backup_ids_var key_file).
Proof.
  unfold initialize. apply runs_after_silent; [apply runs_lift|intros _|done].
  apply runs_as_lift_bind. intros w. destruct (run crypto_smoke_test w); simpl; [|by apply runs_as_ret].
  apply runs_after_silent; [|intros _|done].
  - destruct key_file as [path|]; [apply runs_bootstrap|apply runs_ret].
  - apply (runs_as_try _ (fun _ b tr => b = Ok tt /\ tr = []) _ _ _ runs_reload_from_repository); [| |done].
    + intros _. apply (runs_as_bind (fun _ tr => tr = []) (fun _ b tr => b = Ok tt /\ tr = [])).
      * intros p w0 fl _. exists []. split; [constructor|done].
      * intros a. by apply runs_as_ret.
      * by intros ? ? ? ? -> [-> ->].
    + intros a b tr1 tr2 (before & after & -> & Hp) [-> ->]. by exists before, after.
Qed.

(** A selection, and the sections of a revival round if there is one. *)
Definition selecting (l : label) : Prop :=
  match l with LSticky | LFresh | LRevival _ | LReport _ _ _ | LEstimate _ _ _ => True | _ => False end.

Definition serving_labels {A} (r : result A KeyPoolError) (tr : list label) : Prop :=
  exists tr', tr = LSticky :: tr' /\ Forall selecting tr'.

(** A pool that is not initialized reloads first. *)
Definition active_labels (ready : bool) {A} (r : result A KeyPoolError) (tr : list label) : Prop :=
  if ready then serving_labels r tr
  else (is_ok r = false /\ tr = []) \/
       exists tr1 tr2, tr = tr1 ++ tr2 /\ reload_labels (Ok tt) tr1 /\ serving_labels r tr2.

Lemma select_selecting tr : select_labels tr -> Forall selecting tr.
Proof. by intros [-> | ->]; repeat constructor. Qed.

Lemma runs_in_select : runs_in selecting (select_available_key reserve).
Proof. eapply runs_as_mono; [apply runs_select|]. intros ?. apply select_selecting. Qed.

Lemma runs_in_sync d : runs_in selecting (sync_usage_internal default_limit_var reserve d).
Proof.
  eapply runs_as_mono; [apply runs_sync|]. intros a tr Htr. eapply Forall_impl; [exact Htr|]. intros l. by destruct l.
Qed.

Lemma runs_serving {A} (k : option ApiKeyStatus -> ST (Pool * W) (result A KeyPoolError)) :
  (forall a, runs_in selecting (k a)) -> runs_as serving_labels (try_bind (select_available_key reserve) k).
Proof.
  intros Hk. apply (runs_as_try _ (fun _ _ => Forall selecting) _ _ _ runs_select Hk).
  - intros a b tr1 tr2 [-> | ->] H2; eexists; (split; [reflexivity|]); [done|]. by constructor.
  - intros e tr [-> | ->]; eexists; (split; [reflexivity|]); repeat constructor.
Qed.

Lemma runs_active_key (p : Pool) (w : W) fl :
  config_wf (inner p, fl) ->
  let m := active_key default_limit_var backup_ids_var reserve in
  exists tr, pool_steps default_limit_var reserve tr (inner p, fl) (inner (fst (exec m (p, w))), fl)
    /\ active_labels (initialized p) (run m (p, w)) tr.
Proof.
  intros Hwf m.
  assert (exists k, m = try_bind (ensure_initialized default_limit_var backup_ids_var) (fun _ => k) /\ runs_as serving_labels k)
    as (k & -> & Hk).
  { eexists. split; [unfold m, active_key; reflexivity|]. apply runs_serving. intros [st|]; [apply runs_ret|].
    apply runs_try; [apply runs_in_select|]. intros [st|]; [apply runs_ret|].
    apply runs_as_lift_bind. intros w0. apply runs_bind; [|intros []; simpl].
    - eapply runs_section; [|intros; apply step_revival]. done.
    - apply runs_bind; [apply runs_read|intros ds].
      apply runs_bind; [apply runs_for_each; intros; apply runs_in_sync|intros _].
      apply runs_try; [apply runs_in_select|]. intros [st|]; apply runs_ret.
    - apply runs_ret. }
  unfold active_labels, exec, run, try_bind, ensure_initialized. destruct (initialized p) eqn:Ei.
  - exact (Hk p w fl Hwf).
  - destruct (runs_initialize None p w fl Hwf) as (tr1 & H1 & HR). unfold exec, run in *.
    destruct (initialize _ _ None (p, w)) as [[[]|e] [p1 w1]]; cbn [fst snd] in *.
    + destruct (Hk p1 w1 fl) as (tr2 & H2 & HS); [by eapply steps_wf|]. exists (tr1 ++ tr2).
      split; [by eapply steps_trans|]. right. by exists tr1, tr2.
    + exists tr1. split; [done|]. by left.
Qed.

Lemma runs_sync_all :
  runs_as (fun r tr => exists tr1 tr2, tr = tr1 ++ tr2 /\ (flush_labels (Ok tt) tr1 \/ flush_labels r tr1 /\ tr2 = []) /\
    Forall selecting tr2) (sync_all_usage default_limit_var reserve).
Proof.
  unfold sync_all_usage. apply (runs_as_try _ (fun _ _ => Forall selecting) _ _ _ runs_flush).
  - intros _. apply runs_try; [apply runs_lift|intros _].
    apply runs_bind; [apply runs_read|intros ds].
    apply runs_bind; [apply runs_for_each; intros; apply runs_in_sync|intros _]. apply runs_lift.
  - intros a b tr1 tr2 H1 H2. exists tr1, tr2. split_and!; [done|by left|done].
  - intros e tr H1. exists tr, []. rewrite app_nil_r. split_and!; [done|by right|done].
Qed.

Lemma runs_reload key_file :
  runs_as (fun r tr => exists tr1 tr2, tr = tr1 ++ tr2 /\ (flush_labels (Ok tt) tr1 /\ reload_labels r tr2 \/ flush_labels r tr1 /\ tr2 = []))
    (reload default_limit_var backup_ids_var key_file).
Proof.
  apply (runs_as_try _ (fun _ => reload_labels) _ _ _ runs_flush); [intros _; apply runs_initialize| |].
  - intros a b tr1 tr2 H1 H2. exists tr1, tr2. split; [done|]. by left.
  - intros e tr H1. exists tr, []. rewrite app_nil_r. split; [done|]. by right.
Qed.

(** The method ends, from this state, in a well-formed configuration, which a
    run of the sections [P] allows for its answer reaches. *)
Definition lands {A} (p : Pool) (w : W) (fl : list (list UsageBatch)) (m : ST (Pool * W) A) (P : A -> list label -> Prop) : Prop :=
  config_wf (inner (fst (exec m (p, w))), fl) /\
  exists tr, pool_steps default_limit_var reserve tr
    (inner p, fl) (inner (fst (exec m (p, w))), fl) /\ P (run m (p, w)) tr.

(** What one section does to the key it is for. *)
Definition section_effect (l : label) (k k' : InMemoryKey) : Prop :=
  match l with
  | LCall _ => used_today k' = Z.min u64_max (used_today k + 1) /\ pending_increments k' = Z.min u64_max (pending_increments k + 1)
      /\ calls_total k' = calls_total k
  | LSuccess _ => consecutive_failures k' = 0 /\ status k' = (if status_eqb (status k) Unhealthy then Healthy else status k)
  | LFailure _ => consecutive_failures k' = Z.min u32_max (consecutive_failures k + 1)
      /\ status k' = (if FAILURE_THRESHOLD <=? consecutive_failures k' then Unhealthy else status k)
  | _ => True
  end.

(** A request of key [d] touches that key alone. *)
Definition key_section (d : string) (l : label) {A} (p : Pool) (w : W) (m : ST (Pool * W) A) : Prop :=
  let i' := inner (fst (exec m (p, w))) in
  (forall k, find_key d (inner p) = Some k -> exists k', find_key d i' = Some k' /\ section_effect l k k') /\
  (forall e, e <> d -> find_key e i' = find_key e (inner p)).

Lemma inner_reported (f : KeyPoolInner -> option (KeyStatus * Z) * KeyPoolInner) d p (w : W) :
  inner (fst (exec (update ← on_inner f; report_status ((fun e : KeyStatus * Z => let '(st, n) := e in (d, st, n)) <$> update)) (p, w)))
  = snd (f (inner p)).
Proof.
  unfold exec, mbind, ST_bind, on_inner. destruct (f (inner p)) as [[[st n]|] i]; simpl; [|done].
  unfold mbind, ST_bind, lift. by destruct (repo_update_status d st n w).
Qed.

Lemma call_section d (p : Pool) (w : W) : key_section d (LCall d) p w (increment_usage reserve d).
Proof.
  unfold key_section, exec, increment_usage, modify_inner, on_inner, increment_usage_inner. cbn [fst snd inner]. split.
  - intros k Hk. rewrite find_key_clear, find_key_update, Hk by apply _. eexists. split; [reflexivity|].
    cbn [section_effect]. by rewrite increment_key_used, increment_key_pending, increment_key_total.
  - intros e He. by rewrite find_key_clear, find_key_update_ne by (done || apply _).
Qed.

Lemma success_section d (p : Pool) (w : W) : key_section d (LSuccess d) p w (record_success d).
Proof.
  unfold key_section, record_success. rewrite inner_reported. unfold record_success_inner, record_failure_inner. cbn [snd]. split.
  - intros k Hk. rewrite find_key_update, Hk by apply _. eexists. split; [reflexivity|].
    cbn [section_effect]. unfold success_key. by case_match.
  - intros e He. by rewrite find_key_update_ne by (done || apply _).
Qed.

Lemma failure_section d (p : Pool) (w : W) : key_section d (LFailure d) p w (record_failure d true).
Proof.
  unfold key_section, record_failure. cbn [negb]. rewrite inner_reported. unfold record_success_inner, record_failure_inner. cbn [snd]. split.
  - intros k Hk. rewrite find_key_clear, find_key_update, Hk by apply _. eexists. split; [reflexivity|].
    cbn [section_effect]. by rewrite failure_key_status, failure_key_count.
  - intros e He. by rewrite find_key_clear, find_key_update_ne by (done || apply _).
Qed.

(** C13. Every method of the pool, whatever the repository, the probe, the
    key file and the clock answer, is a run of its own critical sections and
    no others: a call, a success and a fault are one section each, which does
    what it says to that key and nothing to another; a flush drains and then
    commits or puts back what it drained, as it answers; a reload installs the
    keys once, with what each had pending, if it succeeds and not otherwise;
    a selection looks at the sticky key first and calls, flushes or
    reloads nothing.  With the invariant of the sections, no method can leave
    two keys with one developer id, a counter outside its machine type, or an
    unhealthy or missing key as the sticky key. *)
Theorem methods_refine_sections (p : Pool) (w : W) (fl : list (list UsageBatch))
    (key_file : option string) (d : string) :
  config_wf (inner p, fl) ->
  (lands p w fl (increment_usage reserve d) (fun _ tr => tr = [LCall d]) /\
   key_section d (LCall d) p w (increment_usage reserve d)) /\
  (lands p w fl (record_success d) (fun _ tr => tr = [LSuccess d]) /\
   key_section d (LSuccess d) p w (record_success d)) /\
  (lands p w fl (record_failure d true) (fun _ tr => tr = [LFailure d]) /\
   key_section d (LFailure d) p w (record_failure d true) /\
   exec (record_failure d false) (p, w) = (p, w)) /\
  lands p w fl flush_usage flush_labels /\
  lands p w fl (initialize default_limit_var backup_ids_var key_file) reload_labels /\
  lands p w fl (reload default_limit_var backup_ids_var key_file) (fun r tr => exists tr1 tr2, tr = tr1 ++ tr2 /\
    (flush_labels (Ok tt) tr1 /\ reload_labels r tr2 \/ flush_labels r tr1 /\ tr2 = [])) /\
  lands p w fl (active_key default_limit_var backup_ids_var reserve) (active_labels (initialized p)) /\
  lands p w fl (sync_usage default_limit_var reserve d) (fun _ => Forall (syncs d)) /\
  lands p w fl (sync_all_usage default_limit_var reserve) (fun r tr => exists tr1 tr2, tr = tr1 ++ tr2 /\
    (flush_labels (Ok tt) tr1 \/ flush_labels r tr1 /\ tr2 = []) /\ Forall selecting tr2).
Proof.
  intros Hwf.
  assert (forall A (m : ST (Pool * W) A) P, (exists tr, pool_steps default_limit_var reserve tr
    (inner p, fl) (inner (fst (exec m (p, w))), fl) /\ P (run m (p, w)) tr) -> lands p w fl m P) as Hok.
  { intros A m P (tr & Htr & HP). split; [by eapply steps_wf|eauto]. }
  split_and!; try (apply Hok);
    [by apply runs_increment|apply call_section|by apply runs_success|apply success_section
    |by apply (runs_failure d true)|apply failure_section|done|by apply runs_flush|by apply runs_initialize
    |by apply runs_reload|by apply runs_active_key|by apply runs_sync|by apply runs_sync_all].
Qed.
End refinement.
