(* ===== verification/KeyPoolMethods.v ===== *)
(** * A concrete environment for the key pool

    An in-memory repository, a probe with fixed reports, a fixed clock and a
    transparent cipher, in the manner of the MemoryRepository and StaticProbe
    of the unit tests of key_pool.rs.  The witnesses run the methods on it. *)

From S2P Require Import Prelude Json Upstream KeyPool KeyPoolSpec.

Record world := {
  w_rows : list EncryptedKeyRow;
  w_flushed : list (list UsageBatch);
  w_reports : list (string * AuthoritativeUsage);
  w_estimate : Z;
  w_now : Z;
  w_fail_flush : bool;
  w_probed : Z;
}.

Definition log_flush (bs : list UsageBatch) (w : world) : world :=
  {| w_rows := w_rows w; w_flushed := bs :: w_flushed w; w_reports := w_reports w;
     w_estimate := w_estimate w; w_now := w_now w; w_fail_flush := w_fail_flush w;
     w_probed := w_probed w |}.

Definition count_probe (w : world) : world :=
  {| w_rows := w_rows w; w_flushed := w_flushed w; w_reports := w_reports w;
     w_estimate := w_estimate w; w_now := w_now w; w_fail_flush := w_fail_flush w;
     w_probed := w_probed w + 1 |}.

#[export] Instance double_repository : KeyPoolRepository world := {|
  repo_ensure_schema := mret (Ok tt);
  repo_load_keys := fun w => (Ok (w_rows w), w);
  repo_bootstrap_keys := fun ks => mret (Ok (Z.of_nat (length ks)));
  repo_flush_usage := fun bs w =>
    if w_fail_flush w then (Err (ErrRepository "flush failed"), w) else (Ok tt, log_flush bs w);
  repo_update_status := fun _ _ _ => mret (Ok tt);
  repo_log_endpoint := fun _ _ _ _ => mret (Ok tt);
  repo_save_authoritative_usage := fun _ _ _ _ => mret (Ok tt);
  repo_local_usage_estimate := fun _ w => (Ok (w_estimate w), w);
  repo_record_sync_error := fun _ _ => mret (Ok tt);
  repo_cleanup_rolling_usage := mret (Ok tt);
|}.

#[export] Instance double_probe : UsageProbe world := {|
  probe_upgrade := mret true;
  probe_get_data_used := fun c w =>
    (Ok (snd <$> find_first (fun r => String.eqb (fst r) (cred_dev_id c)) (w_reports w)), count_probe w);
|}.

#[export] Instance double_crypto : KeyCrypto world := {|
  crypto_smoke_test := mret true;
  crypto_encrypt := fun s => mret (Ok s);
  crypto_decrypt := fun s => Some s;
|}.

#[export] Instance double_file : KeyFile world := {|
  file_exists := fun _ => mret false;
  file_read_to_string := fun _ => mret (Err "no file");
  json_from_str := fun _ => Err "no parser";
|}.

#[export] Instance double_clock : Clock world := fun w => (w_now w, w).

Definition world_of (rows : list EncryptedKeyRow) (reports : list (string * AuthoritativeUsage)) : world :=
  {| w_rows := rows; w_flushed := []; w_reports := reports; w_estimate := 0;
     w_now := 1785283199000; w_fail_flush := false; w_probed := 0 |}.

(** A healthy key with the given consumption, as the unit tests build them. *)
Definition sample_key (d : string) (used pending : Z) : InMemoryKey :=
  {| dev_id := d; auth_key := "secret"; status := Healthy; daily_limit := 7500;
     used_today := used; pending_increments := pending; consecutive_failures := 0;
     calls_total := 50; is_backup := false |}.

Definition sample_backup (d : string) (used : Z) : InMemoryKey :=
  {| dev_id := d; auth_key := "backup"; status := Healthy; daily_limit := 7500;
     used_today := used; pending_increments := 0; consecutive_failures := 0;
     calls_total := 0; is_backup := true |}.

Definition sample_inner (ks : list InMemoryKey) (active : option string) : KeyPoolInner :=
  {| keys := ks; active_dev_id := active; last_revival_attempt_ms := 0;
     last_estimate_revival_ms := ∅ |}.

Definition sample_pool (ks : list InMemoryKey) (active : option string) : Pool :=
  {| inner := sample_inner ks active; initialized := true |}.

Ltac u64_bounds := unfold in_u64, u64_max, in_u32, u32_max; simpl; lia.

Lemma sample_key_range d used pending :
  in_u64 used -> in_u64 pending -> key_in_range (sample_key d used pending).
Proof. intros. split; simpl; try done; u64_bounds. Qed.

Lemma sample_wf used pending :
  in_u64 used -> in_u64 pending -> pool_wf (sample_inner [sample_key "1000" used pending] None).
Proof.
  intros. split; simpl; [|by repeat constructor; apply sample_key_range|done].
  repeat constructor. set_solver.
Qed.

(** ** The interleaving theorems on the double *)

(** A flush, with a call while it runs; then a reload from a snapshot that is
    older than the call, which is lost: 52, and the call, less the call. *)
Lemma usage_accounting_witness :
  let i := sample_inner [sample_key "1000" 10 2] None in
  let j := increment_usage_inner 100 "1000" (snd (drain_pending i)) in
  let l := commit_batches (fst (drain_pending i)) j in
  recorded "1000" (l, []) = Some 53 /\
  recorded "1000" (replace_keys [set_calls_total 52 (sample_key "1000" 12 0)] l, []) = Some 52.
Proof.
  intros i j l. split; [vm_compute; reflexivity|].
  refine (usage_accounting None 100 "1000"
    [LDrain; LCall "1000"; LCommit (fst (drain_pending i)); LReload (keys l) [set_calls_total 52 (sample_key "1000" 12 0)]]
    i _ _ 52 _ eq_refl _ _ _).
  - apply sample_wf; u64_bounds.
  - eapply steps_cons; [apply step_drain|].
    eapply steps_cons; [apply step_call|].
    eapply steps_cons; [apply (step_commit None 100 (fst (drain_pending i)) j [] [])|].
    eapply steps_cons; [apply step_reload|constructor].
    + repeat constructor. set_solver.
    + repeat constructor; cbn; unfold u64_max, u32_max; lia.
  - repeat constructor. by eexists.
  - vm_compute. discriminate.
Defined.

(** A double whose answers cannot vary is within the types of the interfaces. *)
#[export] Instance still_repository : KeyPoolRepository unit := {|
  repo_ensure_schema := mret (Ok tt);
  repo_load_keys := mret (Ok []);
  repo_bootstrap_keys := fun ks => mret (Ok (Z.of_nat (length ks)));
  repo_flush_usage := fun _ => mret (Ok tt);
  repo_update_status := fun _ _ _ => mret (Ok tt);
  repo_log_endpoint := fun _ _ _ _ => mret (Ok tt);
  repo_save_authoritative_usage := fun _ _ _ _ => mret (Ok tt);
  repo_local_usage_estimate := fun _ => mret (Ok 40);
  repo_record_sync_error := fun _ _ => mret (Ok tt);
  repo_cleanup_rolling_usage := mret (Ok tt);
|}.

#[export] Instance still_probe : UsageProbe unit := {|
  probe_upgrade := mret true;
  probe_get_data_used := fun _ => mret (Ok (Some {| report_used := 7400; report_reported_limit := None |}));
|}.

#[export] Instance still_crypto : KeyCrypto unit := {|
  crypto_smoke_test := mret true;
  crypto_encrypt := fun s => mret (Ok s);
  crypto_decrypt := fun s => Some s;
|}.

#[export] Instance still_file : KeyFile unit := {|
  file_exists := fun _ => mret false;
  file_read_to_string := fun _ => mret (Err "no file");
  json_from_str := fun _ => Err "no parser";
|}.

#[export] Instance still_clock : Clock unit := mret 1785283199000.

Lemma still_types : in_types unit.
Proof.
  split.
  - intros w rows [= <-]. split; constructor.
  - intros w c r [= <-]. split; [u64_bounds|done].
  - intros w d e [= <-]. u64_bounds.
Qed.

Lemma methods_refine_sections_witness :
  let p := sample_pool [sample_key "1000" 7399 2] (Some "1000") in
  (exists tr, pool_steps None 100 tr (inner p, []) (inner (fst (exec flush_usage (p, tt))), [])
     /\ flush_labels (run flush_usage (p, tt)) tr)
  /\ exists k, find_key "1000" (inner (fst (exec (record_failure "1000" true) (p, tt)))) = Some k
       /\ consecutive_failures k = 1.
Proof.
  intros p. assert (config_wf (inner p, [])) as Hc.
  { split; [|constructor]. split; cbn; [repeat constructor; set_solver|repeat constructor; cbn; unfold u64_max, u32_max; lia|].
    intros d [= <-]. by eexists. }
  destruct (methods_refine_sections None None 100 still_types p tt [] None "1000" Hc)
    as (_ & _ & (_ & [Hf _] & _) & [_ Hl] & _).
  split; [exact Hl|]. destruct (Hf _ eq_refl) as (k' & Hk' & Hn & _). by exists k'.
Defined.

(** * What the key pool's methods return

    Selection and revival, the settlement of a flush, retirement and revival
    of a key, and the reload, each on every branch. *)

(** ** Selection *)

(** The specification: the sticky key while it is usable, else the first
    usable primary in developer-id order, else the first usable backup. *)
Definition selection (reserve : Z) (i : KeyPoolInner) : option InMemoryKey :=
  match (d ← active_dev_id i; find_key d i) with
  | Some k => if usable reserve k then Some k else pick_key reserve (keys i)
  | None => pick_key reserve (keys i)
  end.

Lemma usable_limited reserve k : usable reserve (set_status Limited k) = false.
Proof. done. Qed.

(** Marking an unusable key as limited does not change what the scan finds:
    the key was passed over before and is passed over after. *)
Lemma find_usable_limited (b : InMemoryKey -> bool) reserve d ks :
  (forall k, b (set_status Limited k) = b k) ->
  (forall k, find_first (has_dev d) ks = Some k -> usable reserve k = false) ->
  find_first (fun k => b k && usable reserve k) (update_first (has_dev d) (set_status Limited) ks)
  = find_first (fun k => b k && usable reserve k) ks.
Proof.
  intros Hb. induction ks as [|k r IH]; intros Hd; [done|]. simpl in *.
  destruct (has_dev d k) eqn:E; simpl.
  - rewrite usable_limited, andb_false_r, (Hd k eq_refl), andb_false_r. done.
  - by rewrite IH.
Qed.

Lemma pick_key_limited reserve d i :
  (forall k, find_key d i = Some k -> usable reserve k = false) ->
  pick_key reserve (keys (update_key d (set_status Limited) i)) = pick_key reserve (keys i).
Proof.
  intros Hd. unfold pick_key. simpl.
  rewrite (find_usable_limited (fun k => negb (is_backup k))) by done.
  by rewrite (find_usable_limited is_backup) by done.
Qed.

Section selection.
Context {W : Type} `{Hrepo : KeyPoolRepository W}.
Variable reserve : Z.

Lemma run_report_status (u : option (string * KeyStatus * Z)) p (w : W) :
  exists w', report_status u (p, w) = (tt, (p, w')).
Proof.
  destruct u as [[[d st] n]|]; simpl; [|by eexists].
  unfold report_status, mbind, ST_bind, lift. destruct (repo_update_status d st n w). by eexists.
Qed.

(** The whole of select_available_key: what it returns and what it leaves. *)
Lemma select_run p w :
  exists i' w', select_available_key reserve (p, w)
    = (Ok (format_key reserve <$> selection reserve (inner p)),
       ({| inner := i'; initialized := initialized p |}, w'))
    /\ (forall k, selection reserve (inner p) = Some k -> active_dev_id i' = Some (dev_id k) /\ k ∈ keys i')
    /\ (selection reserve (inner p) = None -> pick_key reserve (keys i') = None)
    /\ map dev_id (keys i') = map dev_id (keys (inner p))
    /\ last_revival_attempt_ms i' = last_revival_attempt_ms (inner p).
Proof.
  unfold select_available_key, selection, mbind at 1, ST_bind, on_inner at 1, select_sticky.
  assert (forall u i, map dev_id (keys i) = map dev_id (keys (inner p)) ->
    last_revival_attempt_ms i = last_revival_attempt_ms (inner p) ->
    exists i' w',
    (_ ← report_status u; k ← on_inner (select_fresh reserve); mret (Ok k))
      ({| inner := i; initialized := initialized p |}, w)
    = (Ok (format_key reserve <$> pick_key reserve (keys i)) : result _ KeyPoolError,
       ({| inner := i'; initialized := initialized p |}, w'))
    /\ (forall k, pick_key reserve (keys i) = Some k -> active_dev_id i' = Some (dev_id k) /\ k ∈ keys i')
    /\ (pick_key reserve (keys i) = None -> pick_key reserve (keys i') = None)
    /\ map dev_id (keys i') = map dev_id (keys (inner p))
    /\ last_revival_attempt_ms i' = last_revival_attempt_ms (inner p)) as Hscan.
  { intros u i Hids Hrev. unfold mbind, ST_bind.
    destruct (run_report_status u {| inner := i; initialized := initialized p |} w) as [w' ->].
    unfold on_inner, select_fresh. simpl.
    destruct (pick_key reserve (keys i)) as [k|] eqn:E; simpl; do 2 eexists; repeat split_and; try done.
    intros k' [= <-]. split; [done|]. by apply pick_key_Some in E as [? _]. }
  destruct (active_dev_id (inner p)) as [d|] eqn:Ha; simpl; [|by apply (Hscan None (inner p))].
  destruct (find_key d (inner p)) as [k|] eqn:Hk; simpl; [|by apply (Hscan None (inner p))].
  fold (usable reserve k). destruct (usable reserve k) eqn:Hu.
  - do 2 eexists. repeat split_and; [done| |done|done|done].
    intros k' [= <-]. apply find_key_Some in Hk as [? <-]. done.
  - assert (pick_key reserve (keys (update_key d (set_status Limited) (inner p)))
            = pick_key reserve (keys (inner p))) as Hp
      by (apply pick_key_limited; intros; congruence).
    destruct (negb _); simpl; [|by apply (Hscan None (inner p))].
    rewrite <- Hp. apply (Hscan (Some (dev_id k, Limited, consecutive_failures k))
      (update_key d (set_status Limited) (inner p))); [|done].
    apply dev_ids_update, _.
Qed.
End selection.

(** select_available_key implements the waterfall: it never fails, it
    returns the specified key, it makes that key the sticky one, and it
    returns nothing exactly when no key of the pool is healthy with more than
    the reserve left. *)
Theorem select_available_key_waterfall {W} `{KeyPoolRepository W} reserve p (w : W) :
  run (select_available_key reserve) (p, w) = Ok (format_key reserve <$> selection reserve (inner p)) /\
  (selection reserve (inner p) = None <-> Forall (fun k => usable reserve k = false) (keys (inner p))) /\
  (forall k, selection reserve (inner p) = Some k ->
     usable reserve k = true /\ k ∈ keys (inner p) /\
     active_dev_id (inner (fst (exec (select_available_key reserve) (p, w)))) = Some (dev_id k)).
Proof.
  destruct (select_run reserve p w) as (i' & w' & E & Hsome & _). unfold run, exec. rewrite E.
  split; [done|]. simpl.
  assert (pick_key reserve (keys (inner p)) = None <->
          Forall (fun k => usable reserve k = false) (keys (inner p))) as Hpick.
  { unfold pick_key, or_else. split.
    - intros Hn. destruct (find_first _ _) eqn:E1 in Hn; [done|].
      rewrite find_first_None, Forall_forall in E1, Hn. apply Forall_forall. intros k Hk.
      specialize (E1 k Hk). specialize (Hn k Hk). simpl in *. by destruct (is_backup k), (usable reserve k).
    - intros Hn. rewrite Forall_forall in Hn.
      rewrite (proj2 (find_first_None _ _)), (proj2 (find_first_None _ _)); [done|..];
        apply Forall_forall; intros k Hk; by rewrite (Hn k Hk), andb_false_r. }
  split.
  - unfold selection. destruct (active_dev_id _ ≫= _) as [k|] eqn:Hk; [|done].
    destruct (usable reserve k) eqn:Hu; [|done].
    split; [done|]. intros Hall. rewrite Forall_forall in Hall.
    apply bind_Some in Hk as (d & _ & [Hin _]%find_key_Some). specialize (Hall k Hin). congruence.
  - intros k Hk. destruct (Hsome k Hk) as [Hact _]. split_and!; [| |done].
    + unfold selection in Hk. repeat case_match; simplify_eq; try done;
        by apply pick_key_Some in Hk as [_ ?].
    + unfold selection in Hk. repeat case_match; simplify_eq;
        try (by apply pick_key_Some in Hk as [? _]).
      apply bind_Some in H0 as (d & _ & [Hin _]%find_key_Some). done.
Qed.

Lemma select_available_key_waterfall_witness :
  let p := sample_pool [sample_key "1000" 7400 0; sample_key "2000" 0 0] (Some "1000") in
  run (select_available_key 100) (p, world_of [] []) = Ok (Some (format_key 100 (sample_key "2000" 0 0))).
Proof.
  intros p. exact (proj1 (select_available_key_waterfall 100 p (world_of [] []))).
Defined.

Lemma selection_usable reserve i k : selection reserve i = Some k -> usable reserve k = true.
Proof.
  unfold selection. intros H. destruct (_ ≫= _) as [k'|].
  - destruct (usable reserve k') eqn:E; [by simplify_eq|]. by apply pick_key_Some in H as [_ ?].
  - by apply pick_key_Some in H as [_ ?].
Qed.

(** ** active_key *)

Section active_key.
Context {W : Type} `{Hrepo : KeyPoolRepository W} `{Hprobe : UsageProbe W}
  `{Hcrypto : KeyCrypto W} `{Hfile : KeyFile W} `{Hclock : Clock W}.
Variables default_limit_var backup_ids_var : option string.
Variable reserve : Z.

Abbreviation active := (active_key default_limit_var backup_ids_var reserve).

(** A pool that serves [st]: its sticky key, healthy and above the reserve. *)
Definition serves (i : KeyPoolInner) (st : ApiKeyStatus) : Prop :=
  exists k, k ∈ keys i /\ usable reserve k = true /\ st = format_key reserve k
    /\ active_dev_id i = Some (dev_id k).

Lemma select_serves p (w : W) st s :
  select_available_key reserve (p, w) = (Ok (Some st), s) -> serves (inner (fst s)) st.
Proof.
  destruct (select_run reserve p w) as (i' & w' & -> & Hsome & _).
  intros [= Hst <-]. destruct (selection reserve (inner p)) as [k|] eqn:E; [|done].
  simplify_eq/=. destruct (Hsome k eq_refl) as [? ?].
  exists k. split_and!; try done. by eapply selection_usable.
Qed.

Lemma active_key_serves p (w : W) st :
  run active (p, w) = Ok st -> serves (inner (fst (exec active (p, w)))) st.
Proof.
  unfold run, exec. destruct (active (p, w)) as [r s] eqn:E. simpl. intros ->. revert E.
  unfold active_key, try_bind at 1.
  destruct (ensure_initialized _ _ (p, w)) as [[u|e] [p1 w1]]; [|done]. unfold try_bind at 1.
  destruct (select_available_key reserve (p1, w1)) as [[[k|]|e] [p2 w2]] eqn:E1; [| |done].
  { intros [= <- <-]. by apply select_serves in E1. }
  unfold try_bind at 1.
  destruct (select_available_key reserve (p2, w2)) as [[[k|]|e] [p3 w3]] eqn:E2; [| |done].
  { intros [= <- <-]. by apply select_serves in E2. }
  unfold mbind, ST_bind, lift. destruct (unix_millis w3) as [now w4]. unfold on_inner at 1.
  destruct (begin_revival now (inner p3)) as [[] i4]; [|done]. cbn -[for_each select_available_key].
  destruct (for_each _ _ _) as [[] [p5 w5]]. unfold try_bind.
  destruct (select_available_key reserve (p5, w5)) as [[[k|]|e] [p6 w6]] eqn:E3; [|done..].
  intros [= <- <-]. by apply select_serves in E3.
Qed.

(** active_key on every outcome: on an initialized pool it returns the
    specified key whenever one is usable; whatever happens in between
    (status reports, the revival round, its database and network answers), a
    key it returns is, in the state it leaves, a member of the pool, healthy,
    with more than the reserve left, and the sticky key; and the only errors
    of an initialized pool are the two exhaustion messages. *)
Theorem active_key_correct p (w : W) :
  initialized p = true ->
  (forall k, selection reserve (inner p) = Some k -> run active (p, w) = Ok (format_key reserve k)) /\
  (forall st, run active (p, w) = Ok st -> serves (inner (fst (exec active (p, w)))) st) /\
  (forall e, run active (p, w) = Err e -> e = revival_on_cooldown \/ e = still_exhausted).
Proof.
  intros Hi. split_and!; [|apply active_key_serves|].
  - intros k Hk. destruct (select_run reserve p w) as (i' & w' & E & _).
    rewrite Hk in E. simpl in E. unfold run, active_key, ensure_initialized, try_bind at 1.
    rewrite Hi. unfold try_bind at 1. by rewrite E.
  - intros e. unfold run, active_key, ensure_initialized, try_bind at 1. rewrite Hi.
    unfold try_bind at 1. destruct (select_run reserve p w) as (i1 & w1 & -> & _).
    destruct (format_key _ <$> _) as [st|]; [done|]. unfold try_bind at 1.
    edestruct (select_run reserve {| inner := i1; initialized := initialized p |} w1)
      as (i2 & w2 & -> & _).
    destruct (format_key _ <$> _) as [st|]; [done|].
    unfold mbind, ST_bind, lift. destruct (unix_millis w2) as [now w3]. unfold on_inner at 1.
    destruct (begin_revival _ _) as [[] i4]; cbn -[for_each select_available_key].
    + destruct (for_each _ _ _) as [[] [p5 w5]]. unfold try_bind.
      destruct (select_run reserve p5 w5) as (i6 & w6 & -> & _).
      destruct (format_key _ <$> _); intros [= <-]; auto.
    + intros [= <-]. auto.
Qed.

(** The revival round is rate limited: while no key is usable and the
    last round is less than thirty minutes old, active_key answers with the
    cooldown error and touches nothing, neither the pool nor the repository
    nor the provider: only the clock is read. *)
Theorem active_key_cooldown p (w : W) :
  initialized p = true -> active_dev_id (inner p) = None ->
  Forall (fun k => usable reserve k = false) (keys (inner p)) ->
  sub_i64 (run unix_millis w) (last_revival_attempt_ms (inner p)) < REVIVAL_COOLDOWN_MS ->
  active (p, w) = (Err revival_on_cooldown, (p, exec unix_millis w)).
Proof.
  intros Hi Ha Hall Hnow. destruct p as [i b]. simpl in *. subst b.
  assert (pick_key reserve (keys i) = None) as Hp.
  { unfold pick_key. rewrite !(proj2 (find_first_None _ _)); [done|..];
      eapply Forall_impl; try exact Hall; intros k Hk; simpl; by rewrite Hk, andb_false_r. }
  assert (select_available_key reserve ({| inner := i; initialized := true |}, w)
    = (Ok None, ({| inner := i; initialized := true |}, w))) as Hsel.
  { unfold select_available_key, mbind, ST_bind, on_inner, select_sticky. simpl.
    rewrite Ha. simpl. unfold select_fresh. by rewrite Hp. }
  unfold active_key, ensure_initialized, try_bind at 1. simpl.
  do 2 (unfold try_bind at 1; rewrite Hsel).
  unfold mbind, ST_bind, lift. unfold run, exec in *. destruct (unix_millis w) as [now w'].
  simpl in *. unfold on_inner, begin_revival. simpl.
  by rewrite (proj2 (Z.ltb_lt _ _) Hnow).
Qed.
End active_key.

Lemma active_key_correct_witness :
  let p := sample_pool [sample_key "1000" 7500 0] None in
  let w := world_of [] [("1000", {| report_used := 0; report_reported_limit := Some 7500 |})] in
  serves 100 (inner (fst (exec (active_key None None 100) (p, w))))
    (format_key 100 (sample_key "1000" 0 0)).
Proof.
  intros p w. apply (active_key_correct None None 100 p w); [reflexivity|].
  vm_compute. reflexivity.
Defined.

Lemma active_key_cooldown_witness :
  let i := {| keys := [sample_key "1000" 7500 0]; active_dev_id := None;
              last_revival_attempt_ms := 1785283190000; last_estimate_revival_ms := ∅ |} in
  let p := {| inner := i; initialized := true |} in
  active_key None None 100 (p, world_of [] [])
  = (Err revival_on_cooldown, (p, exec unix_millis (world_of [] []))).
Proof.
  intros i p. apply (active_key_cooldown None None 100 p (world_of [] [])); try reflexivity.
  repeat constructor.
Defined.

(** ** Retirement of a failing key *)

Section failures.
Context {W : Type} `{Hrepo : KeyPoolRepository W}.

Fixpoint fail_times (d : string) (n : nat) : ST (Pool * W) unit :=
  match n with
  | O => mret tt
  | S n => record_failure d true ≫= fun _ => fail_times d n
  end.

(** What one call leaves: the critical section, then a repository call that
    does not touch the pool. *)
Lemma inner_record_failure d p (w : W) :
  exists w', exec (record_failure d true) (p, w)
    = ({| inner := snd (record_failure_inner d (inner p)); initialized := initialized p |}, w').
Proof.
  unfold exec, record_failure, mbind, ST_bind, on_inner. cbn [negb].
  destruct (record_failure_inner d (inner p)) as [u i].
  destruct (run_report_status ((fun '(st, n) => (d, st, n)) <$> u)
    {| inner := i; initialized := initialized p |} w) as [w' E].
  exists w'. cbn [snd]. by rewrite E.
Qed.

Lemma find_key_failure d i k :
  find_key d i = Some k -> find_key d (snd (record_failure_inner d i)) = Some (failure_key k).
Proof. intros Hk. simpl. by rewrite find_key_clear, find_key_update, Hk by apply _. Qed.

Lemma fail_times_key d n p (w : W) k :
  find_key d (inner p) = Some k -> in_u32 (consecutive_failures k) ->
  exists k', find_key d (inner (fst (exec (fail_times d n) (p, w)))) = Some k'
    /\ consecutive_failures k' = Z.min u32_max (consecutive_failures k + Z.of_nat n)
    /\ ((0 < n)%nat -> FAILURE_THRESHOLD <= consecutive_failures k' ->
        status k' = Unhealthy
        /\ active_dev_id (inner (fst (exec (fail_times d n) (p, w)))) <> Some d).
Proof.
  revert p w k. induction n as [|n IH]; intros p w k Hk Hr.
  - exists k. unfold in_u32, u32_max in Hr. split_and!; [done|unfold u32_max; lia|lia].
  - destruct (inner_record_failure d p w) as [w1 E1]. simpl.
    assert (exec (record_failure d true ≫= fun _ => fail_times d n) (p, w)
      = exec (fail_times d n) (exec (record_failure d true) (p, w))) as ->.
    { unfold exec, mbind, ST_bind. by destruct (record_failure d true (p, w)) as [[] [? ?]]. }
    rewrite E1. pose proof (find_key_failure d (inner p) k Hk) as Hk1.
    assert (in_u32 (consecutive_failures (failure_key k))) as Hr1
      by (rewrite failure_key_count; auto with cat).
    destruct (IH {| inner := snd (record_failure_inner d (inner p)); initialized := initialized p |}
      w1 (failure_key k) Hk1 Hr1) as (k' & Hk' & Hc & Hst).
    exists k'. rewrite failure_key_count in Hc. unfold sat_add_u32, sat_add in Hc.
    split_and!; [done|unfold u32_max in *; lia|]. intros _ Hthr.
    destruct n as [|n]; [|apply Hst; [lia|done]].
    unfold exec in *. simpl in Hk', Hc |- *. rewrite find_key_clear, find_key_update, Hk in Hk' by apply _.
    simplify_eq/=. rewrite failure_key_count in *. split.
    + rewrite failure_key_status. by rewrite (proj2 (Z.leb_le _ _) Hthr).
    + rewrite Hk. intros [_ Hne]%active_clear. apply Hne; [|done].
      rewrite failure_key_count. by apply Z.leb_le.
Qed.
End failures.

(** A key is taken out of service by five consecutive faults of its own
    and by nothing less: [n] faults add [n] to its failure count (clamped at
    the u32 maximum); once the count reaches five the key is unhealthy, it is
    not the sticky key, and the waterfall cannot return it; a failure that is
    not the key's fault changes nothing at all. *)
Theorem key_retirement {W} `{KeyPoolRepository W} reserve d n p (w : W) k :
  pool_wf (inner p) -> find_key d (inner p) = Some k ->
  let p' := fst (exec (fail_times d n) (p, w)) in
  exists k', find_key d (inner p') = Some k' /\
    consecutive_failures k' = Z.min u32_max (consecutive_failures k + Z.of_nat n) /\
    ((0 < n)%nat -> FAILURE_THRESHOLD <= consecutive_failures k + Z.of_nat n ->
       status k' = Unhealthy /\ active_dev_id (inner p') <> Some d /\ usable reserve k' = false) /\
    exec (record_failure d false) (p, w) = (p, w).
Proof.
  intros Hwf Hk p'. pose proof (range_failures _ (range_find _ _ _ Hwf Hk)) as Hr.
  destruct (fail_times_key d n p w k Hk Hr) as (k' & Hk' & Hc & Hst).
  exists k'. split_and!; [done|done| |done].
  intros Hn Hthr. destruct (Hst Hn) as [Hs Ha].
  { rewrite Hc. unfold FAILURE_THRESHOLD, u32_max in *. lia. }
  split_and!; [done|done|]. unfold usable. by rewrite Hs.
Qed.

Lemma key_retirement_witness :
  let p := sample_pool [sample_key "1000" 0 0] (Some "1000") in
  exists k', find_key "1000" (inner (fst (exec (fail_times "1000" 5) (p, world_of [] [])))) = Some k' /\
    status k' = Unhealthy.
Proof.
  intros p.
  destruct (key_retirement 100 "1000" 5 p (world_of [] []) (sample_key "1000" 0 0)) as (k' & Hk & _ & Hs & _).
  - split; simpl; [|by repeat constructor; apply sample_key_range; u64_bounds|].
    + repeat constructor. set_solver.
    + intros d [= <-]. by eexists.
  - reflexivity.
  - exists k'. split; [exact Hk|]. apply Hs; [lia|]. vm_compute. discriminate.
Defined.

(** ** Settlement of a flush *)

Section flush.
Variable f : UsageBatch -> InMemoryKey -> InMemoryKey.
Hypothesis f_id : forall b, KeepsId (f b).

Definition batch_of (k : InMemoryKey) : UsageBatch :=
  {| batch_dev_id := dev_id k; batch_calls := pending_increments k |}.

(** The key after a drain and after its batch was settled with [f]. *)
Definition settled (k : InMemoryKey) : InMemoryKey :=
  if pending_increments k =? 0 then k else f (batch_of k) (set_pending 0 k).

Lemma update_first_app_r {A} (t : A -> bool) g (l1 l2 : list A) :
  Forall (fun x => t x = false) l1 -> update_first t g (l1 ++ l2) = l1 ++ update_first t g l2.
Proof. induction 1 as [|x l Hx Hl IH]; simpl; [done|]. by rewrite Hx, IH. Qed.

Lemma settle_keys i pre ks :
  NoDup (map dev_id (pre ++ ks)) ->
  foldl (fun i b => update_key (batch_dev_id b) (f b) i)
    (set_keys (pre ++ map drain_key ks) i)
    (omap (fun k => if pending_increments k =? 0 then None else Some (batch_of k)) ks)
  = set_keys (pre ++ map settled ks) i.
Proof.
  revert pre. induction ks as [|k r IH]; intros pre Hnd; [done|].
  assert (forall x, dev_id x = dev_id k -> NoDup (map dev_id ((pre ++ [x]) ++ r))) as Hnd'.
  { intros x Hx. rewrite <- app_assoc. rewrite map_app in *. simpl in *. by rewrite Hx. }
  assert (forall x, pre ++ x :: map settled r = (pre ++ [x]) ++ map settled r) as Happ
    by (intros; by rewrite <- app_assoc).
  simpl. rewrite Happ. unfold settled at 1, drain_key at 1.
  destruct (pending_increments k =? 0); simpl.
  - rewrite <- (IH (pre ++ [k])) by by apply Hnd'. by rewrite <- app_assoc.
  - rewrite <- (IH (pre ++ [f (batch_of k) (set_pending 0 k)])) by (apply Hnd'; by rewrite keeps_id).
    f_equal. unfold update_key, set_keys. simpl. f_equal. rewrite <- app_assoc.
    rewrite update_first_app_r.
    + simpl. unfold has_dev at 1. simpl. by rewrite String.eqb_refl.
    + apply Forall_forall. intros x Hx. unfold has_dev. apply String.eqb_neq. intros Heq.
      rewrite map_app in Hnd. apply NoDup_app in Hnd as (_ & Hd & _).
      apply (Hd (dev_id x)); [by apply list_elem_of_fmap_2|]. simpl. rewrite Heq. by left.
Qed.

Lemma settle_drained i :
  NoDup (map dev_id (keys i)) ->
  foldl (fun i b => update_key (batch_dev_id b) (f b) i)
    (snd (drain_pending i)) (fst (drain_pending i))
  = set_keys (map settled (keys i)) i.
Proof. apply (settle_keys i []). Qed.
End flush.

Definition committed_key (k : InMemoryKey) : InMemoryKey :=
  if pending_increments k =? 0 then k
  else set_calls_total (sat_add_u64 (calls_total k) (pending_increments k)) (set_pending 0 k).

Lemma restore_drained i :
  pool_wf i -> restore_batches (fst (drain_pending i)) (snd (drain_pending i)) = i.
Proof.
  intros Hwf. unfold restore_batches.
  rewrite (settle_drained (fun b k => set_pending (sat_add_u64 (pending_increments k) (batch_calls b)) k))
    by (apply Hwf || (intros; by constructor)).
  destruct i as [ks a lr le]. unfold set_keys. simpl. f_equal.
  pose proof (wf_range _ Hwf) as Hr. simpl in Hr. clear Hwf.
  induction Hr as [|k r [_ _ [Hp1 Hp2] _ _] Hr IH]; simpl; [done|]. rewrite IH. f_equal.
  unfold settled. case_match; [done|]. destruct k. unfold set_pending. simpl in *. f_equal.
  unfold sat_add_u64, sat_add. lia.
Qed.

Lemma commit_drained i :
  pool_wf i ->
  commit_batches (fst (drain_pending i)) (snd (drain_pending i)) = set_keys (map committed_key (keys i)) i.
Proof.
  intros Hwf. unfold commit_batches.
  by rewrite (settle_drained (fun b k => set_calls_total (sat_add_u64 (calls_total k) (batch_calls b)) k))
    by (apply Hwf || (intros; by constructor)).
Qed.

(** flush_usage is all or nothing.  Without pending calls it succeeds
    without a repository call.  Otherwise the repository gets exactly the
    non-zero pending counts, once; if it fails, the error is returned and the
    pool is exactly what it was before; if it succeeds, every pending count is
    zero and has moved to the key's total. *)
Theorem flush_usage_settles {W} `{KeyPoolRepository W} p (w : W) :
  pool_wf (inner p) ->
  let batches := fst (drain_pending (inner p)) in
  match batches with
  | [] => flush_usage (p, w) = (Ok tt, (p, w))
  | _ =>
      match repo_flush_usage batches w with
      | (Err e, w') => flush_usage (p, w) = (Err e, (p, w'))
      | (Ok _, w') =>
          flush_usage (p, w) = (Ok tt,
            ({| inner := set_keys (map committed_key (keys (inner p))) (inner p);
                initialized := initialized p |}, w'))
      end
  end.
Proof.
  intros Hwf batches. unfold flush_usage, mbind, ST_bind, on_inner.
  pose proof (restore_drained (inner p) Hwf) as Hr.
  pose proof (commit_drained (inner p) Hwf) as Hc.
  pose proof (drain_nothing (inner p)) as Hn. subst batches.
  destruct (drain_pending (inner p)) as [bs i]. cbn [fst snd] in *.
  destruct bs as [|b bs].
  - rewrite Hn by done. by destruct p.
  - set (l := b :: bs) in *. unfold lift. destruct (repo_flush_usage l w) as [[u|e] w'];
      unfold modify_inner, on_inner; cbn -[commit_batches restore_batches].
    + by rewrite Hc.
    + rewrite Hr. by destruct p.
Qed.

Lemma flush_usage_settles_witness :
  let p := sample_pool [sample_key "1000" 7 7] None in
  let w := {| w_rows := []; w_flushed := []; w_reports := []; w_estimate := 0; w_now := 0;
              w_fail_flush := true; w_probed := 0 |} in
  flush_usage (p, w) = (Err (ErrRepository "flush failed"), (p, w)).
Proof.
  intros p w. generalize (flush_usage_settles p w ltac:(apply sample_wf; u64_bounds)).
  subst p w. vm_compute. exact (fun H => H).
Defined.

(** ** Usage syncs *)

Section sync.
Context {W : Type} `{Hrepo : KeyPoolRepository W} `{Hprobe : UsageProbe W} `{Hclock : Clock W}.
Variable default_limit_var : option string.
Variable reserve : Z.

(** An authoritative report is final: after sync_usage met a report for
    a key of the pool, the key carries the reported consumption and the
    effective limit, it is healthy exactly when more than the reserve is
    left, a healthy report clears its failures, an exhausted key is no
    longer sticky, and every other key is untouched. *)
Theorem sync_usage_report d p (w : W) k r :
  find_key d (inner p) = Some k ->
  run probe_upgrade w = true ->
  run (probe_get_data_used {| cred_dev_id := d; cred_auth_key := auth_key k |})
    (exec probe_upgrade w) = Ok (Some r) ->
  let limit := effective_daily_limit default_limit_var (report_reported_limit r) in
  let i' := inner (fst (exec (sync_usage default_limit_var reserve d) (p, w))) in
  let k' := authoritative_key (report_used r) limit (budget_status (report_used r) limit reserve) k in
  find_key d i' = Some k' /\
  (status k' = Healthy <-> reserve < sat_sub limit (report_used r)) /\
  (status k' = Healthy -> consecutive_failures k' = 0) /\
  (status k' <> Healthy -> active_dev_id i' <> Some d) /\
  (forall e, e <> d -> find_key e i' = find_key e (inner p)).
Proof.
  intros Hk Hup Hrep limit i' k'.
  assert (i' = apply_report_inner d (report_used r) limit (budget_status (report_used r) limit reserve) (inner p)) as Hi'.
  { subst i'. unfold exec, run in *. unfold sync_usage, sync_usage_internal, mbind, ST_bind.
    unfold read_inner at 1, on_inner at 1. unfold monitoring_credential. rewrite Hk. simpl.
    assert (dev_id k = d) as -> by (apply find_key_Some in Hk; tauto).
    unfold lift. destruct (probe_upgrade w) as [b w1]. simpl in *. subst b. simpl.
    destruct (probe_get_data_used _ w1) as [a w2]. simpl in *. subst a. simpl.
    by destruct (repo_save_authoritative_usage _ _ _ _ w2). }
  rewrite Hi'. clear Hi' i'. unfold apply_report_inner. rewrite Hk.
  assert (status k' = budget_status (report_used r) limit reserve) as Hst
    by (subst k'; unfold authoritative_key; by case_match).
  split_and!.
  - by rewrite find_key_clear, find_key_update, Hk by apply _.
  - rewrite Hst. unfold budget_status, has_usable_budget.
    destruct (Z.ltb_spec reserve (sat_sub limit (report_used r))); split; (done || lia).
  - subst k'. unfold authoritative_key, status_eqb. case_bool_decide; [done|].
    simpl. intros; congruence.
  - intros Hne. rewrite Hst in Hne. intros [_ Hc]%active_clear. apply Hc; [|done].
    apply negb_true_iff, status_eqb_false. done.
  - intros e Hne. by rewrite find_key_clear, find_key_update_ne by (done || apply _).
Qed.

(** Local estimates cannot revive the same key twice within five
    minutes: once try_estimate_revival has revived a key at [t], no later
    state in which the recorded revival is still [t] makes it eligible
    before [t] plus five minutes (both times ordinary, so that the
    difference does not wrap). *)
Theorem estimate_revival_spacing d t now est limit i j :
  estimate_inner default_limit_var reserve d t est i = (Some limit, j) ->
  forall j', last_estimate_revival_ms j' !! d = last_estimate_revival_ms j !! d ->
  in_i64 (now - t) ->
  estimate_eligible d now j' = true ->
  t + ESTIMATE_REVIVAL_COOLDOWN_MS <= now /\
  exists k, find_key d j' = Some k /\ status k <> Healthy.
Proof.
  unfold estimate_inner. destruct (find_key d i) as [k|] eqn:Hk; [|done].
  case_match; [done|]. intros [= <- <-] j' Hj' Hnow Hel. simpl in Hj'.
  rewrite lookup_insert_eq in Hj'. unfold estimate_eligible in Hel. rewrite Hj' in Hel.
  destruct (find_key d j') as [k'|] eqn:Hk'; [|done]. simpl in Hel.
  apply andb_true_iff in Hel as [Hs Hc]. apply Z.leb_le in Hc.
  unfold sub_i64 in Hc. rewrite wrap_i64_id in Hc by done.
  split; [lia|]. exists k'. split; [done|]. intros Hh. by rewrite Hh in Hs.
Qed.
End sync.

Lemma sync_usage_report_witness :
  let p := sample_pool [sample_key "1000" 7500 0] (Some "1000") in
  let w := world_of [] [("1000", {| report_used := 7450; report_reported_limit := None |})] in
  active_dev_id (inner (fst (exec (sync_usage None 100 "1000") (p, w)))) <> Some "1000".
Proof.
  intros p w.
  apply (sync_usage_report None 100 "1000" p w (sample_key "1000" 7500 0)
    {| report_used := 7450; report_reported_limit := None |}); try reflexivity.
  vm_compute. discriminate.
Defined.

Lemma estimate_revival_spacing_witness :
  let i := sample_inner [set_status Limited (sample_key "1000" 7500 0)] None in
  let r := estimate_inner None 100 "1000" 1785283199000 12 i in
  let j' := update_key "1000" (set_status Limited) (snd r) in
  estimate_eligible "1000" 1785283499000 j' = true /\
  1785283199000 + ESTIMATE_REVIVAL_COOLDOWN_MS <= 1785283499000.
Proof.
  intros i r j'. split; [vm_compute; reflexivity|].
  apply (estimate_revival_spacing None 100 "1000" 1785283199000 1785283499000 12 7500 i (snd r)
    ltac:(vm_compute; reflexivity) j').
  - reflexivity.
  - unfold in_i64, i64_min, i64_max. lia.
  - vm_compute. reflexivity.
Defined.

(** ** Reload *)

Section reload.
Context {W : Type} `{Hrepo : KeyPoolRepository W} `{Hcrypto : KeyCrypto W}.
Variables default_limit_var backup_ids_var : option string.

Lemma le_dev_id_total a b : le_dev_id a b = false -> le_dev_id b a = true.
Proof. unfold le_dev_id. intros H. destruct (String.leb_total (dev_id a) (dev_id b)); congruence. Qed.

(** A reload installs exactly the rows that decrypt: the new keys are
    sorted by developer id, each carries its row's consumption and totals
    with the effective limit, and the calls still pending for that developer
    id; no key is sticky afterwards.  If the rows cannot be loaded the pool
    is untouched. *)
Theorem reload_installs_rows p (w : W) :
  NoDup (map dev_id (keys (inner p))) ->
  match repo_load_keys w with
  | (Err e, w') =>
      reload_from_repository default_limit_var backup_ids_var (p, w) = (Err e, (p, w'))
  | (Ok rows, w') =>
      exists i', reload_from_repository default_limit_var backup_ids_var (p, w)
        = (Ok tt, ({| inner := i'; initialized := initialized p |}, w')) /\
      active_dev_id i' = None /\
      LocallySorted (fun a b => le_dev_id a b = true) (keys i') /\
      (forall k, k ∈ keys i' <-> exists row auth, row ∈ rows /\
         crypto_decrypt (row_encrypted_auth_key row) = Some auth /\
         k = {| dev_id := row_dev_id row; auth_key := auth;
                status := normalize_status (row_status row);
                daily_limit := effective_daily_limit default_limit_var (row_daily_limit row);
                used_today := row_total_24h row;
                pending_increments :=
                  match find_key (row_dev_id row) (inner p) with
                  | Some old => pending_increments old | None => 0 end;
                consecutive_failures := row_consecutive_failures row;
                calls_total := row_calls_total row;
                is_backup := is_backup_dev_id backup_ids_var (row_dev_id row) |})
  end.
Proof.
  intros Hnd. unfold reload_from_repository, try_bind, lift.
  destruct (repo_load_keys w) as [[rows|e] w']; [|done].
  eexists. split; [reflexivity|]. split; [done|]. split.
  { apply sort_by_sorted, le_dev_id_total. }
  intros k. simpl. rewrite sort_by_perm, list_elem_of_omap. unfold key_of_row. split.
  - intros (row & Hin & (auth & Ha & [= <-])%bind_Some). exists row, auth.
    rewrite snapshot_lookup by done. split_and!; [done|done|].
    by destruct (find_key (row_dev_id row) (inner p)).
  - intros (row & auth & Hin & Ha & ->). exists row. split; [done|]. rewrite Ha. simpl.
    rewrite snapshot_lookup by done. by destruct (find_key (row_dev_id row) (inner p)).
Qed.
End reload.

Lemma reload_installs_rows_witness :
  let row := {| row_dev_id := "1000"; row_encrypted_auth_key := "k"; row_status := "active";
                row_total_24h := 12; row_daily_limit := Some 0; row_calls_total := 90;
                row_consecutive_failures := 0 |} in
  let p := sample_pool [sample_key "1000" 7 7] (Some "1000") in
  exists i', reload_from_repository None None (p, world_of [row] []) =
    (Ok tt, ({| inner := i'; initialized := true |}, world_of [row] [])) /\
    active_dev_id i' = None.
Proof.
  intros row p.
  destruct (reload_installs_rows None None p (world_of [row] [])) as (i' & E & Ha & _).
  - repeat constructor. set_solver.
  - exists i'. split; [exact E|exact Ha].
Defined.

(** The sticky key is kept for as long as it is usable, whatever else
    the pool holds: in particular a backup key that was made sticky while the
    primaries were exhausted keeps being returned after a primary has regained
    budget, although the scan would prefer the primary. *)
Theorem sticky_backup_not_displaced {W} `{KeyPoolRepository W} reserve p (w : W) d backup primary :
  active_dev_id (inner p) = Some d -> find_key d (inner p) = Some backup ->
  usable reserve backup = true -> is_backup backup = true ->
  primary ∈ keys (inner p) -> usable reserve primary = true -> is_backup primary = false ->
  select_available_key reserve (p, w) = (Ok (Some (format_key reserve backup)), (p, w)) /\
  exists k, pick_key reserve (keys (inner p)) = Some k /\ is_backup k = false.
Proof.
  intros Ha Hk Hu _ Hin Hup Hb. split.
  - unfold select_available_key, mbind, ST_bind, on_inner, select_sticky. rewrite Ha, Hk.
    fold (usable reserve backup). rewrite Hu. simpl. by destruct p.
  - unfold pick_key.
    destruct (find_first_is_Some (fun k => negb (is_backup k) && usable reserve k) (keys (inner p)) primary)
      as [k E]; [done|by rewrite Hb, Hup|].
    exists k. rewrite E. split; [done|]. apply find_first_Some in E as [_ E]. by bool_props.
Qed.

Lemma sticky_backup_not_displaced_witness :
  let p := sample_pool [sample_key "1000" 0 0; sample_backup "2000" 10] (Some "2000") in
  run (select_available_key 100) (p, world_of [] [])
  = Ok (Some (format_key 100 (sample_backup "2000" 10))).
Proof.
  intros p. unfold run.
  rewrite (proj1 (sticky_backup_not_displaced 100 p (world_of [] []) "2000"
    (sample_backup "2000" 10) (sample_key "1000" 0 0) eq_refl eq_refl eq_refl eq_refl
    (list_elem_of_here _ _) eq_refl eq_refl)).
  reflexivity.
Defined.
