(* ===== verification/Session.v ===== *)
(** * Provider sessions (src/hirez-relay-rust/src/session.rs)

    One session per developer id, created on demand under a per-key lock and
    reused until it expires.  The key pool, the HTTP transport, the audit sink
    and the clocks are the interfaces of Upstream.v over a world [W]. *)

From stdpp Require Import functions.
From S2P Require Import Prelude Json Upstream.

Record Session := {
  session_dev_id : string;
  session_key : string;
  expires_at_ms : Z;
}.

(** The maps of the SessionManager: the live sessions, and the developer ids
    that have been given a lock. *)
Record SessionState := {
  sessions : gmap string Session;
  key_locks : gset string;
}.

Definition no_sessions : SessionState := {| sessions := ∅; key_locks := ∅ |}.

Definition put_session (d : string) (s : Session) (st : SessionState) : SessionState :=
  {| sessions := <[d := s]> (sessions st); key_locks := key_locks st |}.
Definition drop_session (d : string) (st : SessionState) : SessionState :=
  {| sessions := delete d (sessions st); key_locks := key_locks st |}.
Definition put_lock (d : string) (st : SessionState) : SessionState :=
  {| sessions := sessions st; key_locks := {[ d ]} ∪ key_locks st |}.

(** ** Text helpers *)

(** [str::trim_end_matches('/')]. *)
Fixpoint drop_slashes (s : string) : string :=
  match s with
  | String c r => if Ascii.eqb c "/" then drop_slashes r else s
  | EmptyString => EmptyString
  end.
Definition trim_end_slashes (s : string) : string := String.rev (drop_slashes (String.rev s)).

(** [body.strip_prefix('\u{feff}').unwrap_or(body)]: the UTF-8 byte order mark. *)
Definition strip_bom (s : string) : string :=
  match s with
  | String a (String b (String c r)) =>
      if (byte_of a =? 239) && (byte_of b =? 187) && (byte_of c =? 191) then r else s
  | _ => s
  end.

Definition is_success_status (status : Z) : bool := (200 <=? status) && (status <? 300).

(** ** Code outside the repository *)

(** The crates the relay formats and parses with: MD5 in hexadecimal, the
    provider's timestamp of a number of seconds (or a range error), the JSON
    parser and printer. *)
Class Formats := {
  md5_hex : string -> string;
  format_unix_seconds : Z -> result string string;
  parse_json : string -> result value string;
  print_json : value -> string;
}.

Section session.
Context {W : Type} `{Formats} `{ApiKeyState W} `{HttpTransport W} `{SessionAudit W}
  `{Clock W} `{Stopwatch W}.
(** The configuration of the manager: the base URL as given to [new] and the
    session lifetime in milliseconds. *)
Variables (base_url_arg : string) (ttl_ms : Z).

Definition base_url : string := trim_end_slashes base_url_arg.

Abbreviation State := (SessionState * W)%type.

Definition lift_session {A} (c : ST W A) : ST State A :=
  fun '(s, w) => let '(a, w') := c w in (a, (s, w')).
Definition modify_sessions (f : SessionState -> SessionState) : ST State unit :=
  fun '(s, w) => (tt, (f s, w)).
Definition read_sessions {A} (f : SessionState -> A) : ST State A :=
  fun '(s, w) => (f s, (s, w)).

Definition get_session (d : string) : ST State (option Session) :=
  now ← lift_session unix_millis;
  found ← read_sessions (fun st => sessions st !! d);
  match found with
  | Some s => if now <? expires_at_ms s then mret (Some s)
              else _ ← modify_sessions (drop_session d); mret None
  | None => _ ← modify_sessions (drop_session d); mret None
  end.

Definition invalidate_session (d : string) : ST State unit := modify_sessions (drop_session d).

Definition sign (method d auth timestamp : string) : string :=
  md5_hex (d +:+ method +:+ auth +:+ timestamp).

Definition hirez_timestamp : ST State (result string UpstreamError) :=
  millis ← lift_session unix_millis;
  mret (map_err UpstreamConfiguration (format_unix_seconds (millis / 1000))).

Definition parse_json_body (body : string) : result value UpstreamError :=
  map_err (fun e => UpstreamProtocol ("JSON parse error from Hi-Rez: " +:+ e))
          (parse_json (strip_bom body)).

Definition ret_msg (data : value) : option string := get "ret_msg" data ≫= as_str.

Definition session_id_of (data : value) : string :=
  default EmptyString (get "session_id" data ≫= as_str).

(** [i64::try_from(ttl.as_millis()).unwrap_or(i64::MAX)]. *)
Definition ttl_i64 : Z := if ttl_ms <=? i64_max then ttl_ms else i64_max.

Definition session_url (key : ApiCredential) (signature timestamp : string) : string :=
  base_url +:+ "/createsessionJson/" +:+ cred_dev_id key +:+ "/" +:+ signature +:+ "/" +:+ timestamp.

Definition create_session (key : ApiCredential) : ST State (result Session UpstreamError) :=
  timestamp <-? hirez_timestamp;
  let d := cred_dev_id key in
  let signature := sign "createsession" d (cred_auth_key key) timestamp in
  _ ← lift_session (state_increment_usage d);
  started ← lift_session instant_now;
  response ← lift_session (transport_get (session_url key signature timestamp) 10000);
  match response with
  | Err error =>
      elapsed ← lift_session (elapsed_millis started);
      _ ← lift_session (state_log_endpoint d "createsession" elapsed "session_management");
      _ ← lift_session (state_record_failure d false);
      mret (Err (UpstreamTransport error))
  | Ok response =>
      elapsed ← lift_session (elapsed_millis started);
      _ ← lift_session (state_log_endpoint d "createsession" elapsed "session_management");
      if negb (is_success_status (resp_status response)) then
        _ ← lift_session (state_record_failure d true);
        mret (Err (UpstreamProtocol ("Session acquisition failed: " +:+ resp_reason response)))
      else
        match parse_json_body (resp_body response) with
        | Err error =>
            _ ← lift_session (state_record_failure d true);
            mret (Err error)
        | Ok data =>
            if negb (bool_decide (ret_msg data = Some "Approved")) then
              _ ← lift_session (state_record_failure d true);
              mret (Err (UpstreamApplication
                ("Hi-Rez Session API Error: " +:+ default "Unknown Error" (ret_msg data))))
            else
              _ ← lift_session (state_record_success d);
              let session_id := session_id_of data in
              _ ← lift_session (audit_save
                    {| audit_endpoint := "createsession"; audit_raw_data := data;
                       audit_status_code := resp_status response;
                       audit_session_id := if is_empty session_id then "FAILED" else session_id;
                       audit_response_time_ms := elapsed |});
              if is_empty session_id then
                mret (Err (UpstreamProtocol
                  ("Session acquisition returned no session_id despite Approved: " +:+ print_json data)))
              else
                now ← lift_session unix_millis;
                let session := {| session_dev_id := d; session_key := session_id;
                                  expires_at_ms := add_i64 now ttl_i64 |} in
                _ ← modify_sessions (put_session d session);
                mret (Ok session)
        end
  end.

Definition acquire_session (key : ApiCredential) : ST State (result Session UpstreamError) :=
  cached ← get_session (cred_dev_id key);
  match cached with
  | Some s => mret (Ok s)
  | None =>
      _ ← modify_sessions (put_lock (cred_dev_id key));
      cached ← get_session (cred_dev_id key);
      match cached with
      | Some s => mret (Ok s)
      | None => create_session key
      end
  end.

Definition get_active_session : ST State (result (ApiCredential * Session) UpstreamError) :=
  key <-? lift_session state_active_key;
  session <-? acquire_session key;
  mret (Ok (key, session)).
End session.

(** * Concurrent acquisition of one key's session

    acquire_session (session.rs, lines 84 to 102) run by any number of tasks
    for one developer id, cut at its await points: the first lookup reads the
    map under the read lock and removes the entry under the write lock in two
    separate steps, the key lock is held from its acquisition to the return. *)

#[local] Open Scope Z_scope.

Inductive Pc :=
  | PcRead          (* about to read the map, without the key lock *)
  | PcRemove        (* found no live session, about to remove the entry *)
  | PcWait          (* waiting for the key lock *)
  | PcReread        (* holds the lock, about to look again *)
  | PcReremove      (* holds the lock, found nothing, about to remove *)
  | PcCreate        (* holds the lock, request to the provider in flight *)
  | PcDone.

#[export] Instance Pc_eq_dec : EqDecision Pc.
Proof. solve_decision. Defined.

(** The entry of the developer id, the clock, the holder of the key lock and
    the point every task has reached.  [created] counts stored sessions. *)
Record Tasks := {
  stored : option Session;
  clock : Z;
  holder : option nat;
  pc : nat -> Pc;
  created : nat;
}.

Definition live (s : Tasks) : bool :=
  match stored s with Some x => clock s <? expires_at_ms x | None => false end.

Definition goto (t : nat) (p : Pc) (s : Tasks) : Tasks :=
  {| stored := stored s; clock := clock s; holder := holder s;
     pc := <[t := p]> (pc s); created := created s |}.
Definition with_stored (x : option Session) (s : Tasks) : Tasks :=
  {| stored := x; clock := clock s; holder := holder s; pc := pc s; created := created s |}.
Definition with_holder (h : option nat) (s : Tasks) : Tasks :=
  {| stored := stored s; clock := clock s; holder := h; pc := pc s; created := created s |}.
Definition count_created (s : Tasks) : Tasks :=
  {| stored := stored s; clock := clock s; holder := holder s; pc := pc s; created := S (created s) |}.
Definition with_clock (n : Z) (s : Tasks) : Tasks :=
  {| stored := stored s; clock := n; holder := holder s; pc := pc s; created := created s |}.

Inductive acquire_step : Tasks -> Tasks -> Prop :=
| acq_hit s t : pc s t = PcRead -> live s = true -> acquire_step s (goto t PcDone s)
| acq_miss s t : pc s t = PcRead -> live s = false -> acquire_step s (goto t PcRemove s)
| acq_remove s t : pc s t = PcRemove -> acquire_step s (goto t PcWait (with_stored None s))
| acq_lock s t : pc s t = PcWait -> holder s = None ->
    acquire_step s (goto t PcReread (with_holder (Some t) s))
| acq_rehit s t : pc s t = PcReread -> live s = true ->
    acquire_step s (goto t PcDone (with_holder None s))
| acq_remiss s t : pc s t = PcReread -> live s = false -> acquire_step s (goto t PcReremove s)
| acq_reremove s t : pc s t = PcReremove -> acquire_step s (goto t PcCreate (with_stored None s))
| acq_created s t x : pc s t = PcCreate ->
    acquire_step s (goto t PcDone (with_holder None (count_created (with_stored (Some x) s))))
| acq_failed s t : pc s t = PcCreate -> acquire_step s (goto t PcDone (with_holder None s))
| acq_again s t : pc s t = PcDone -> acquire_step s (goto t PcRead s)
| acq_invalidate s : acquire_step s (with_stored None s)
| acq_tick s n : clock s <= n -> acquire_step s (with_clock n s).

Inductive acquire_steps : Tasks -> Tasks -> Prop :=
| acqs_refl s : acquire_steps s s
| acqs_step s1 s2 s3 : acquire_steps s1 s2 -> acquire_step s2 s3 -> acquire_steps s1 s3.

Definition start (now : Z) : Tasks :=
  {| stored := None; clock := now; holder := None; pc := fun _ => PcRead; created := 0 |}.

Definition holds_lock (p : Pc) : bool :=
  match p with PcReread | PcReremove | PcCreate => true | _ => false end.

Record tasks_inv (s : Tasks) : Prop := {
  inv_holder : forall t, holds_lock (pc s t) = true <-> holder s = Some t;
  inv_create : forall t, pc s t = PcCreate -> stored s = None;
}.

Lemma goto_eq t p s : pc (goto t p s) t = p.
Proof. apply fn_lookup_insert. Qed.
Lemma goto_ne t u p s : t <> u -> pc (goto t p s) u = pc s u.
Proof. apply fn_lookup_insert_ne. Qed.

(** A step that leaves the lock alone. *)
Lemma holder_same s t p x :
  tasks_inv s -> holds_lock p = holds_lock (pc s t) ->
  forall u, holds_lock (pc (goto t p (with_stored x s)) u) = true <->
            holder (goto t p (with_stored x s)) = Some u.
Proof.
  intros [Hh _] Hp u. simpl. destruct (decide (t = u)) as [->|Hne].
  - rewrite fn_lookup_insert, Hp. apply Hh.
  - rewrite fn_lookup_insert_ne by done. apply Hh.
Qed.

Lemma holder_released s t x n :
  tasks_inv s -> holds_lock (pc s t) = true ->
  forall u, holds_lock (pc (goto t PcDone {| stored := x; clock := clock s; holder := None;
                                              pc := pc s; created := n |}) u) = true
            <-> None = Some u.
Proof.
  intros [Hh _] Ht u. apply Hh in Ht. simpl. destruct (decide (t = u)) as [->|Hne].
  - rewrite fn_lookup_insert. done.
  - rewrite fn_lookup_insert_ne by done. split; [|done]. rewrite Hh, Ht. congruence.
Qed.

Lemma create_unique s t u : tasks_inv s -> holds_lock (pc s t) = true -> pc s u = PcCreate -> t = u.
Proof.
  intros [Hh _] Ht Hu. apply Hh in Ht. assert (holds_lock (pc s u) = true) as H by by rewrite Hu.
  apply Hh in H. congruence.
Qed.

Lemma inv_step s s' : acquire_step s s' -> tasks_inv s -> tasks_inv s'.
Proof.
  intros Hs Hi. pose proof Hi as [Hh Hc].
  assert (forall t p u, p <> PcCreate -> pc (goto t p s) u = PcCreate -> pc s u = PcCreate) as Hback.
  { intros t p u Hp. destruct (decide (t = u)) as [->|Hne]; [by rewrite goto_eq|by rewrite goto_ne]. }
  assert (forall t p, holds_lock p = holds_lock (pc s t) -> p <> PcCreate ->
    tasks_inv (goto t p s)) as Hgo.
  { intros t p Hp Hne. split.
    - destruct s. by apply (holder_same _ t p stored0 Hi).
    - intros u Hu. eapply Hc, Hback; done. }
  destruct Hs as [s t Hpc Hl|s t Hpc Hl|s t Hpc|s t Hpc Hn|s t Hpc Hl|s t Hpc Hl|s t Hpc|s t x Hpc
                 |s t Hpc|s t Hpc|s|s n Hn];
    try (apply Hgo; [by rewrite Hpc|done]); split; try done.
  - apply (holder_same s t PcWait None Hi). by rewrite Hpc.
  - intros u. simpl. destruct (decide (t = u)) as [->|Hne].
    + by rewrite fn_lookup_insert.
    + rewrite fn_lookup_insert_ne by done. rewrite Hh, Hn. split; congruence.
  - intros u Hu. by eapply Hc, (Hback t PcReread).
  - apply (holder_released s t (stored s) (created s) Hi). by rewrite Hpc.
  - intros u Hu. by eapply Hc, (Hback t PcDone).
  - apply (holder_same s t PcCreate None Hi). by rewrite Hpc.
  - apply (holder_released s t (Some x) (S (created s)) Hi). by rewrite Hpc.
  - intros u Hu. exfalso. assert (pc s u = PcCreate) as Hu' by (by eapply (Hback t PcDone)).
    assert (t = u) as -> by (eapply create_unique; try done; by rewrite Hpc).
    simpl in Hu. by rewrite fn_lookup_insert in Hu.
  - apply (holder_released s t (stored s) (created s) Hi). by rewrite Hpc.
  - intros u Hu. by eapply Hc, (Hback t PcDone).
Qed.

Lemma inv_start now : tasks_inv (start now).
Proof. by split. Qed.

Lemma inv_steps now s : acquire_steps (start now) s -> tasks_inv s.
Proof.
  remember (start now) as s0 eqn:E. induction 1 as [|s1 s2 s3 H IH Hs]; subst.
  - apply inv_start.
  - eauto using inv_step.
Qed.

(** Session creation is single-flight: however the tasks interleave, at
    most one of them has a createsession request in flight, it holds the key
    lock, and no session of the key is stored meanwhile, so a creation never
    overwrites a session. *)
Theorem create_session_exclusive now s t u :
  acquire_steps (start now) s ->
  pc s t = PcCreate -> pc s u = PcCreate ->
  t = u /\ holder s = Some t /\ stored s = None.
Proof.
  intros Hs Ht Hu. pose proof (inv_steps now s Hs) as Hi. split_and!.
  - eapply create_unique; try done. by rewrite Ht.
  - apply (inv_holder s Hi). by rewrite Ht.
  - by eapply (inv_create s Hi).
Qed.

Definition one_creating : Tasks :=
  goto 0 PcCreate (with_stored None (goto 0 PcReremove (goto 0 PcReread (with_holder (Some 0%nat)
    (goto 0 PcWait (with_stored None (goto 0 PcRemove (start 0)))))))).

Lemma one_creating_reachable : acquire_steps (start 0) one_creating.
Proof.
  do 5 (eapply acqs_step; [|first [apply acq_reremove; reflexivity|apply acq_remiss; reflexivity
    |apply acq_lock; reflexivity|apply acq_remove; reflexivity|apply acq_miss; reflexivity]]).
  constructor.
Qed.

Lemma create_session_exclusive_witness :
  holder one_creating = Some 0%nat /\ stored one_creating = None.
Proof.
  apply (create_session_exclusive 0 one_creating 0 0 one_creating_reachable); reflexivity.
Defined.

(** A lookup that found nothing, a creation by another task, the removal of
    the first lookup, and a second creation. *)
Definition fresh : Session := {| session_dev_id := "d"; session_key := "k"; expires_at_ms := 840000 |}.

Definition both_miss : Tasks := goto 1 PcRemove (goto 0 PcRemove (start 0)).
Definition first_created : Tasks :=
  goto 0 PcDone (with_holder None (count_created (with_stored (Some fresh)
    (goto 0 PcCreate (with_stored None (goto 0 PcReremove (goto 0 PcReread (with_holder (Some 0%nat)
      (goto 0 PcWait (with_stored None both_miss)))))))))).
Definition evicted : Tasks := goto 1 PcWait (with_stored None first_created).
Definition second_creating : Tasks :=
  goto 1 PcCreate (with_stored None (goto 1 PcReremove (goto 1 PcReread (with_holder (Some 1%nat) evicted)))).

(** The removal in get_session is not atomic with its lookup: a task
    that read the map before a session was stored removes the fresh session
    afterwards, and the provider is asked for a second one although the first
    is live, was never invalidated, and the clock has not moved. *)
Theorem lookup_evicts_fresh_session :
  acquire_steps (start 0) first_created /\ live first_created = true /\
  acquire_steps first_created second_creating /\ clock second_creating = clock first_created /\
  pc second_creating 1 = PcCreate /\ created second_creating = 1%nat.
Proof.
  split_and!; try reflexivity.
  - eapply acqs_step; [|by apply acq_created].
    eapply acqs_step; [|by apply acq_reremove]. eapply acqs_step; [|by apply acq_remiss].
    eapply acqs_step; [|by apply acq_lock]. eapply acqs_step; [|by apply acq_remove].
    eapply acqs_step; [|by apply acq_miss]. eapply acqs_step; [|by apply acq_miss]. constructor.
  - eapply acqs_step; [|by apply acq_reremove]. eapply acqs_step; [|by apply acq_remiss].
    eapply acqs_step; [|by apply acq_lock]. eapply acqs_step; [|by apply acq_remove]. constructor.
Qed.
