(* ===== verification/SessionSpec.v ===== *)
(** * Properties of the provider sessions

    The session store's invariant, reuse and expiry, what a creation attempt
    leaves on every branch, and the charge of every provider call to its key. *)

From S2P Require Import Prelude Json Upstream Session.

(** ** Metering of the interfaces

    Counters a world may expose: HTTP requests sent, calls charged to a key,
    retry delays taken.  The laws say which interface operation moves which
    counter; nothing else is assumed of the environment.  The key state may
    ask the provider itself, as the key pool does through its usage probe: for
    the one key of a sync, and for each key in the revival round of a selection
    that finds none; UsageProbe bounds and charges such a call. *)

Record Meter := { m_gets : Z; m_charges : Z; m_sleeps : Z }.

(** At most [n] requests, each charged to a key, and no delay. *)
Definition probes_at_most (n : Z) (a b : Meter) : Prop :=
  0 <= m_gets b - m_gets a <= n /\ m_charges b - m_charges a = m_gets b - m_gets a /\ m_sleeps b = m_sleeps a.

Class Metered (W : Type) `{ApiKeyState W} `{HttpTransport W} `{SessionAudit W}
    `{Clock W} `{Stopwatch W} `{RetrySleeper W} := {
  meter : W -> Meter;
  (** The requests a selection of a key and a usage sync may send. *)
  selection_gets : Z;
  sync_gets : Z;
  meter_get url t w : meter (exec (transport_get url t) w)
    = {| m_gets := m_gets (meter w) + 1; m_charges := m_charges (meter w); m_sleeps := m_sleeps (meter w) |};
  meter_increment d w : meter (exec (state_increment_usage d) w)
    = {| m_gets := m_gets (meter w); m_charges := m_charges (meter w) + 1; m_sleeps := m_sleeps (meter w) |};
  meter_sleep n w : meter (exec (sleep_before_retry n) w)
    = {| m_gets := m_gets (meter w); m_charges := m_charges (meter w); m_sleeps := m_sleeps (meter w) + 1 |};
  meter_active w : probes_at_most selection_gets (meter w) (meter (exec state_active_key w));
  meter_log d e t c w : meter (exec (state_log_endpoint d e t c) w) = meter w;
  meter_success d w : meter (exec (state_record_success d) w) = meter w;
  meter_failure d b w : meter (exec (state_record_failure d b) w) = meter w;
  meter_sync d w : probes_at_most sync_gets (meter w) (meter (exec (state_sync_usage d) w));
  meter_audit r w : meter (exec (audit_save r) w) = meter w;
  meter_clock w : meter (exec unix_millis w) = meter w;
  meter_instant w : meter (exec instant_now w) = meter w;
  meter_elapsed t w : meter (exec (elapsed_millis t) w) = meter w;
}.

Section costs.
Context {W : Type} `{Hkeys : ApiKeyState W} `{Htransport : HttpTransport W}
  `{Haudit : SessionAudit W} `{Hclock : Clock W} `{Hwatch : Stopwatch W}
  `{Hsleeper : RetrySleeper W} `{Hmeter : !Metered W}.

(** [costs g k s m]: every run of [m] sends at most [g] requests, charges
    exactly [k] calls more than it sends, and takes at most [s] delays. *)
Definition costs (g k s : Z) {A} (m : ST (SessionState * W) A) : Prop :=
  forall st w, let a := meter w in let b := meter (snd (exec m (st, w))) in
  0 <= m_gets b - m_gets a <= g /\
  (m_charges b - m_charges a) - (m_gets b - m_gets a) = k /\
  0 <= m_sleeps b - m_sleeps a <= s.

Lemma costs_weaken g k s g' s' {A} (m : ST (SessionState * W) A) :
  costs g k s m -> g <= g' -> s <= s' -> costs g' k s' m.
Proof. intros Hm ? ? st w. specialize (Hm st w). simpl in *. lia. Qed.

Lemma costs_ret {A} (a : A) : costs 0 0 0 (mret a).
Proof. intros st w. simpl. lia. Qed.

Lemma costs_bind {A B} g1 k1 s1 g2 k2 s2 (m : ST (SessionState * W) A) (f : A -> ST (SessionState * W) B) :
  costs g1 k1 s1 m -> (forall a, costs g2 k2 s2 (f a)) -> costs (g1 + g2) (k1 + k2) (s1 + s2) (m ≫= f).
Proof.
  intros Hm Hf st w. specialize (Hm st w). unfold exec, mbind, ST_bind in *. simpl in *.
  destruct (m (st, w)) as [a [st' w']]. specialize (Hf a st' w'). unfold exec in Hf. simpl in *. lia.
Qed.

Lemma costs_try {A B E} g1 k1 s1 g2 s2 (m : ST (SessionState * W) (result A E))
    (f : A -> ST (SessionState * W) (result B E)) :
  costs g1 k1 s1 m -> 0 <= g2 -> 0 <= s2 -> (forall a, costs g2 0 s2 (f a)) ->
  costs (g1 + g2) k1 (s1 + s2) (try_bind m f).
Proof.
  intros Hm ? ? Hf st w. specialize (Hm st w). unfold exec, try_bind in *. simpl in *.
  destruct (m (st, w)) as [[a|e] [st' w']]; simpl in *; [|lia].
  specialize (Hf a st' w'). unfold exec in Hf. simpl in *. lia.
Qed.

(** A call that moves no counter. *)
Lemma costs_silent {A} (c : ST W A) : (forall w, meter (exec c w) = meter w) -> costs 0 0 0 (lift_session c).
Proof.
  intros Hc st w. specialize (Hc w). unfold exec, lift_session in *. simpl.
  destruct (c w) as [a w']. simpl in *. rewrite Hc. lia.
Qed.

Lemma costs_probes {A} n (c : ST W A) :
  (forall w, probes_at_most n (meter w) (meter (exec c w))) -> costs n 0 0 (lift_session c).
Proof.
  intros Hc st w. specialize (Hc w). unfold probes_at_most, exec, lift_session in *. simpl.
  destruct (c w) as [a w']. simpl in *. lia.
Qed.

Lemma probes_nonneg n a b : probes_at_most n a b -> 0 <= n.
Proof. unfold probes_at_most. lia. Qed.

Lemma costs_increment d : costs 0 1 0 (lift_session (state_increment_usage d)).
Proof.
  intros st w. pose proof (meter_increment d w) as Hm. unfold exec, lift_session in *. simpl.
  destruct (state_increment_usage d w) as [a w']. simpl in *. rewrite Hm. simpl. lia.
Qed.

Lemma costs_get url t : costs 1 (-1) 0 (lift_session (transport_get url t)).
Proof.
  intros st w. pose proof (meter_get url t w) as Hm. unfold exec, lift_session in *. simpl.
  destruct (transport_get url t w) as [a w']. simpl in *. rewrite Hm. simpl. lia.
Qed.

Lemma costs_sleep n : costs 0 0 1 (lift_session (sleep_before_retry n)).
Proof.
  intros st w. pose proof (meter_sleep n w) as Hm. unfold exec, lift_session in *. simpl.
  destruct (sleep_before_retry n w) as [a w']. simpl in *. rewrite Hm. simpl. lia.
Qed.

Lemma costs_modify f : costs 0 0 0 (modify_sessions f).
Proof. intros st w. simpl. lia. Qed.

Lemma costs_read {A} (f : SessionState -> A) : costs 0 0 0 (read_sessions f).
Proof. intros st w. simpl. lia. Qed.

(** Sequence a call that costs nothing before the rest. *)
Lemma costs_then {A B} g k s (m : ST (SessionState * W) A) (f : A -> ST (SessionState * W) B) :
  costs 0 0 0 m -> (forall a, costs g k s (f a)) -> costs g k s (m ≫= f).
Proof.
  intros Hm Hf. apply (costs_bind 0 0 0 g k s); done.
Qed.
End costs.

Create HintDb meter discriminated.
#[export] Hint Resolve meter_log meter_success meter_failure meter_audit
  meter_clock meter_instant meter_elapsed costs_ret costs_modify costs_read costs_silent : meter.

(** Walk through free calls and tests. *)
Ltac free_calls :=
  repeat first
    [ solve [eauto with meter]
    | apply costs_then; [solve [eauto with meter]|intros ?]
    | case_match ].

Section metered_sessions.
Context {W : Type} `{Hformats : Formats} `{Hkeys : ApiKeyState W} `{Htransport : HttpTransport W}
  `{Haudit : SessionAudit W} `{Hclock : Clock W} `{Hwatch : Stopwatch W}
  `{Hsleeper : RetrySleeper W} `{Hmeter : !Metered W}.
Variables (base_url_arg : string) (ttl_ms : Z).

Lemma costs_get_session d : costs 0 0 0 (get_session d).
Proof. unfold get_session. free_calls. Qed.

Lemma costs_timestamp : costs 0 0 0 hirez_timestamp.
Proof. unfold hirez_timestamp. free_calls. Qed.

Lemma costs_create_session key : costs 1 0 0 (create_session base_url_arg ttl_ms key).
Proof.
  unfold create_session. apply (costs_try 0 0 0 1 0); [apply costs_timestamp|lia|lia|intros ts].
  apply (costs_bind 0 1 0 1 (-1) 0); [apply costs_increment|intros _].
  apply costs_then; [eauto with meter|intros started].
  apply (costs_bind 1 (-1) 0 0 0 0); [apply costs_get|intros response].
  free_calls.
Qed.

Lemma costs_acquire_session key : costs 1 0 0 (acquire_session base_url_arg ttl_ms key).
Proof.
  unfold acquire_session. apply costs_then; [apply costs_get_session|intros [s|]].
  { eapply costs_weaken; [apply costs_ret|lia|lia]. }
  apply costs_then; [apply costs_modify|intros _].
  apply costs_then; [apply costs_get_session|intros [s|]].
  { eapply costs_weaken; [apply costs_ret|lia|lia]. }
  apply costs_create_session.
Qed.

Lemma costs_active_session : costs (selection_gets + 1) 0 0 (get_active_session base_url_arg ttl_ms).
Proof.
  unfold get_active_session. apply (costs_try selection_gets 0 0 1 0); [apply costs_probes, meter_active|lia|lia|intros key].
  apply (costs_try 1 0 0 0 0); [apply costs_acquire_session|lia|lia|intros s]. apply costs_ret.
Qed.
End metered_sessions.

(** ** The session store *)

(** Every stored session belongs to the developer id it is stored under and
    has a key. *)
Definition store_wf (st : SessionState) : Prop :=
  forall d s, sessions st !! d = Some s -> session_dev_id s = d /\ is_empty (session_key s) = false.

Definition preserves_store {W A} (m : ST (SessionState * W) A) : Prop :=
  forall st w, store_wf st -> store_wf (fst (exec m (st, w))).

Section store.
Context {W : Type} `{Hformats : Formats} `{Hkeys : ApiKeyState W} `{Htransport : HttpTransport W}
  `{Haudit : SessionAudit W} `{Hclock : Clock W} `{Hwatch : Stopwatch W}.
Variables (base_url_arg : string) (ttl_ms : Z).

Lemma preserves_bind {A B} (m : ST (SessionState * W) A) (f : A -> ST (SessionState * W) B) :
  preserves_store m -> (forall a, preserves_store (f a)) -> preserves_store (m ≫= f).
Proof.
  intros Hm Hf st w Hst. specialize (Hm st w Hst). unfold exec, mbind, ST_bind in *.
  destruct (m (st, w)) as [a [st' w']]. by apply Hf.
Qed.

Lemma preserves_try {A B E} (m : ST (SessionState * W) (result A E))
    (f : A -> ST (SessionState * W) (result B E)) :
  preserves_store m -> (forall a, preserves_store (f a)) -> preserves_store (try_bind m f).
Proof.
  intros Hm Hf st w Hst. specialize (Hm st w Hst). unfold exec, try_bind in *.
  destruct (m (st, w)) as [[a|e] [st' w']]; [by apply Hf|done].
Qed.

Lemma preserves_ret {A} (a : A) : preserves_store (W:=W) (mret a).
Proof. by intros st w. Qed.

Lemma preserves_lift {A} (c : ST W A) : preserves_store (lift_session c).
Proof. intros st w Hst. unfold exec, lift_session. by destruct (c w). Qed.

Lemma preserves_read {A} (f : SessionState -> A) : preserves_store (W:=W) (read_sessions f).
Proof. by intros st w. Qed.

Lemma preserves_drop d : preserves_store (W:=W) (modify_sessions (drop_session d)).
Proof. intros st w Hst e s. simpl. rewrite lookup_delete_Some. intros [_ ?]. by apply Hst. Qed.

Lemma preserves_lock d : preserves_store (W:=W) (modify_sessions (put_lock d)).
Proof. by intros st w. Qed.

Lemma preserves_put d s :
  session_dev_id s = d -> is_empty (session_key s) = false ->
  preserves_store (W:=W) (modify_sessions (put_session d s)).
Proof.
  intros Hd Hk st w Hst e s'. simpl. rewrite lookup_insert_Some.
  intros [[<- <-]|[_ ?]]; [done|]. by apply Hst.
Qed.

#[local] Hint Resolve preserves_ret preserves_lift preserves_read preserves_drop preserves_lock : meter.

Ltac keeps_store :=
  repeat first
    [ solve [eauto with meter]
    | apply preserves_bind; [|intros ?] | apply preserves_try; [|intros ?] | case_match ].

Lemma preserves_get d : preserves_store (get_session d).
Proof. unfold get_session. keeps_store. Qed.

Lemma preserves_create key : preserves_store (create_session base_url_arg ttl_ms key).
Proof.
  unfold create_session. keeps_store. by apply preserves_put.
Qed.

Lemma preserves_acquire key : preserves_store (acquire_session base_url_arg ttl_ms key).
Proof.
  pose proof preserves_get. pose proof preserves_create. unfold acquire_session. keeps_store; auto.
Qed.

Lemma preserves_active : preserves_store (get_active_session base_url_arg ttl_ms).
Proof. pose proof preserves_acquire. unfold get_active_session. keeps_store; auto. Qed.

(** The store is keyed correctly: get_session, invalidate_session,
    acquire_session and get_active_session all keep every stored session
    under its own developer id and with a non-empty session key. *)
Theorem session_store_invariant st w d key :
  store_wf st ->
  store_wf (fst (exec (get_session d) (st, w))) /\
  store_wf (fst (exec (invalidate_session d) (st, w))) /\
  store_wf (fst (exec (acquire_session base_url_arg ttl_ms key) (st, w))) /\
  store_wf (fst (exec (get_active_session base_url_arg ttl_ms) (st, w))).
Proof.
  intros Hst. split_and!.
  - by apply preserves_get.
  - by apply preserves_drop.
  - by apply preserves_acquire.
  - by apply preserves_active.
Qed.

(** get_session never hands out an expired session: what it returns is
    the stored one and expires after the instant the clock showed, and then
    nothing changes; otherwise the entry is gone from the store and every
    other entry is kept. *)
Theorem get_session_fresh st w d :
  let now := run unix_millis w in
  match get_session d (st, w) with
  | (Some s, (st', w')) =>
      sessions st !! d = Some s /\ now < expires_at_ms s /\ st' = st /\ w' = exec unix_millis w
  | (None, (st', w')) =>
      st' = drop_session d st /\ w' = exec unix_millis w /\
      forall s, sessions st !! d = Some s -> expires_at_ms s <= now
  end.
Proof.
  unfold get_session, mbind, ST_bind, lift_session, read_sessions, run, exec.
  destruct (unix_millis w) as [now w']. simpl.
  destruct (sessions st !! d) as [s|] eqn:E; simpl; [|by split_and!].
  destruct (Z.ltb_spec now (expires_at_ms s)) as [Hlt|Hle]; simpl.
  - by split_and!.
  - split_and!; [done|done|]. intros s' [= <-]. done.
Qed.

(** A live session is reused: while a stored session outlives the
    clock, acquire_session returns it after one look at the clock and does
    nothing else, no request, no charge, no change of the store. *)
Theorem acquire_session_reuses st w key s :
  sessions st !! cred_dev_id key = Some s -> run unix_millis w < expires_at_ms s ->
  acquire_session base_url_arg ttl_ms key (st, w) = (Ok s, (st, exec unix_millis w)).
Proof.
  intros Hs Hlt. unfold acquire_session, get_session, mbind, ST_bind, lift_session, read_sessions.
  unfold run, exec in *. destruct (unix_millis w) as [now w']. simpl in *. rewrite Hs.
  by rewrite (proj2 (Z.ltb_lt _ _) Hlt).
Qed.

Lemma timestamp_store st w r st' w' : hirez_timestamp (st, w) = (r, (st', w')) -> st' = st.
Proof.
  unfold hirez_timestamp, mbind, ST_bind, lift_session. destruct (unix_millis w).
  by intros [= _ <- _].
Qed.

(** What create_session may return with [Ok]: a session of the key, stored,
    with the id of an approved answer. *)
Lemma create_session_ok key st w s st' w' :
  create_session base_url_arg ttl_ms key (st, w) = (Ok s, (st', w')) ->
  st' = put_session (cred_dev_id key) s st /\ session_dev_id s = cred_dev_id key /\
  is_empty (session_key s) = false /\
  exists body data, parse_json (strip_bom body) = Ok data /\
    ret_msg data = Some "Approved" /\ session_id_of data = session_key s.
Proof.
  unfold create_session, try_bind. destruct (hirez_timestamp _) as [[ts|e] [st1 w1]] eqn:Ets; [|done].
  apply timestamp_store in Ets as ->.
  unfold mbind, ST_bind, lift_session.
  destruct (state_increment_usage _ w1) as [[] w2], (instant_now w2) as [t0 w3].
  destruct (transport_get _ _ w3) as [[r|e] w4].
  2:{ destruct (elapsed_millis _ w4) as [? w5], (state_log_endpoint _ _ _ _ w5) as [[] w6].
      by destruct (state_record_failure _ _ w6). }
  destruct (elapsed_millis _ w4) as [el w5], (state_log_endpoint _ _ _ _ w5) as [[] w6].
  destruct (is_success_status _); simpl; [|by destruct (state_record_failure _ _ w6)].
  unfold parse_json_body. destruct (parse_json (strip_bom (resp_body r))) as [data|e] eqn:Ep; simpl;
    [|by destruct (state_record_failure _ _ w6)].
  case_bool_decide as Happ; simpl; [|by destruct (state_record_failure _ _ w6)].
  destruct (state_record_success _ w6) as [[] w7], (audit_save _ w7) as [[] w8].
  destruct (is_empty (session_id_of data)) eqn:Eid; [done|].
  destruct (unix_millis w8) as [now w9]. simpl. intros [= <- <- <-]. simpl.
  split_and!; [done|done|done|]. eauto.
Qed.

Lemma create_session_err key st w e st' w' :
  create_session base_url_arg ttl_ms key (st, w) = (Err e, (st', w')) -> st' = st.
Proof.
  unfold create_session, try_bind. destruct (hirez_timestamp _) as [[ts|e'] [st1 w1]] eqn:Ets.
  all: apply timestamp_store in Ets as ->.
  2: { by intros [= _ <-]. }
  unfold mbind, ST_bind, lift_session.
  destruct (state_increment_usage _ w1) as [[] w2], (instant_now w2) as [t0 w3].
  destruct (transport_get _ _ w3) as [[r|er] w4], (elapsed_millis _ w4) as [el w5],
    (state_log_endpoint _ _ _ _ w5) as [[] w6].
  2:{ destruct (state_record_failure _ _ w6) as [[] ?]. by intros [= _ <-]. }
  destruct (is_success_status _); simpl;
    [|destruct (state_record_failure _ _ w6) as [[] ?]; by intros [= _ <-]].
  destruct (parse_json_body _) as [data|er]; simpl;
    [|destruct (state_record_failure _ _ w6) as [[] ?]; by intros [= _ <-]].
  case_bool_decide; simpl; [|destruct (state_record_failure _ _ w6) as [[] ?]; by intros [= _ <-]].
  destruct (state_record_success _ w6) as [[] w7], (audit_save _ w7) as [[] w8].
  destruct (is_empty (session_id_of data)); [by intros [= _ <-]|].
  by destruct (unix_millis w8) as [now w9].
Qed.

(** acquire_session leaves a usable store whatever the provider
    answers: on success the returned session belongs to the key, has a key
    of its own, is the stored one, and is either the cached session or the
    id of an answer the provider approved; on an error no session is stored
    for the developer id; other entries never change. *)
Theorem acquire_session_outcome st w key :
  store_wf st ->
  let d := cred_dev_id key in
  match acquire_session base_url_arg ttl_ms key (st, w) with
  | (Ok s, (st', _)) =>
      sessions st' !! d = Some s /\ session_dev_id s = d /\ is_empty (session_key s) = false /\
      (sessions st !! d = Some s \/
       exists body data, parse_json (strip_bom body) = Ok data /\
         ret_msg data = Some "Approved" /\ session_id_of data = session_key s) /\
      (forall e, e <> d -> sessions st' !! e = sessions st !! e)
  | (Err _, (st', _)) =>
      sessions st' !! d = None /\ (forall e, e <> d -> sessions st' !! e = sessions st !! e)
  end.
Proof.
  intros Hst d. unfold acquire_session, mbind, ST_bind.
  pose proof (get_session_fresh st w d) as H1. fold d.
  destruct (get_session d (st, w)) as [[s|] [st1 w1]].
  { destruct H1 as (Hs & _ & -> & _). destruct (Hst d s Hs). simpl. auto 8. }
  destruct H1 as (-> & _ & _). simpl.
  pose proof (get_session_fresh (put_lock d (drop_session d st)) w1 d) as H2.
  destruct (get_session d _) as [[s|] [st2 w2]].
  { destruct H2 as (Hs & _). simpl in Hs. by rewrite lookup_delete_eq in Hs. }
  destruct H2 as (-> & _ & _).
  destruct (create_session _ _ key _) as [[s|e] [st3 w3]] eqn:E.
  - apply create_session_ok in E as (-> & Hd & Hk & Hdata). simpl. split_and!; try done.
    + by rewrite lookup_insert_eq.
    + by right.
    + intros e He. by rewrite lookup_insert_ne, !lookup_delete_ne.
  - apply create_session_err in E as ->. simpl. split; [by rewrite lookup_delete_eq|].
    intros e' He. by rewrite !lookup_delete_ne.
Qed.
End store.
