(* ===== verification/HirezClient.v ===== *)
(** * The provider request client (src/hirez-relay-rust/src/hirez_client.rs)

    One logical request: a bounded number of attempts, each with a session of
    the active key, the classification of the provider's in-band messages, and
    the failure accounting after the last attempt. *)

From S2P Require Import Prelude Json Upstream Session.

Definition DEFAULT_TIMEOUT : Z := 15000.
Definition DEFAULT_MAX_RETRIES : nat := 3.

Record ApiRequestOptions := { opt_timeout : option Z; opt_max_retries : option nat }.

Inductive RetMsgAction := ActSession | ActQuota | ActEmpty | ActRetry | ActTerminal | ActUnknown.

Record RetMsgClassification := { action : RetMsgAction; code : string }.

Definition classify (a : RetMsgAction) (c : string) : RetMsgClassification :=
  {| action := a; code := c |}.

(** [str::to_lowercase], as far as the searches below can see: ASCII letters,
    and the two other code points whose lowercase form contains an ASCII
    letter, U+212A (k) and U+0130 (i, then a combining dot).  Any other code
    point lowercases to bytes above 127, which no pattern of the program
    contains, and is left as it is. *)
Fixpoint to_lowercase (s : string) : string :=
  match s with
  | EmptyString => EmptyString
  | String a r =>
      match r with
      | EmptyString => String (ascii_lower a) EmptyString
      | String b r2 =>
          if (byte_of a =? 196) && (byte_of b =? 176)
          then String "i" (String (ascii_of_nat 204) (String (ascii_of_nat 135) (to_lowercase r2)))
          else
            match r2 with
            | String c r3 =>
                if (byte_of a =? 226) && (byte_of b =? 132) && (byte_of c =? 170)
                then String "k" (to_lowercase r3)
                else String (ascii_lower a) (to_lowercase r)
            | EmptyString => String (ascii_lower a) (to_lowercase r)
            end
      end
  end.

Definition classify_ret_msg (msg : string) : RetMsgClassification :=
  let m := to_lowercase msg in
  if contains "invalid session" m then classify ActSession "HIREZ_INVALID_SESSION"
  else if contains "daily request limit" m then classify ActQuota "HIREZ_DAILY_LIMIT"
  else if contains "no match history" m then classify ActEmpty "HIREZ_NO_MATCH_HISTORY"
  else if contains "privacy flag" m || contains "private" m
  then classify ActEmpty "HIREZ_PRIVACY_FLAG"
  else if contains "not found" m || contains "invalid player" m || contains "invalid match" m
  then classify ActTerminal "HIREZ_NOT_FOUND_OR_INVALID"
  else if contains "exception" m || contains "maintenance" m || contains "temporarily" m
          || contains "timeout" m
  then classify ActRetry "HIREZ_RETRYABLE_RETURN"
  else classify ActUnknown "HIREZ_UNKNOWN_RETURN".

(** [item.get("ret_msg").and_then(Value::as_str).filter(|m| !m.is_empty())]. *)
Definition nonempty_ret_msg (item : value) : option string :=
  m ← ret_msg item; if is_empty m then None else Some m.

Definition first_ret_msg (data : value) : option string :=
  match data with
  | Array items => find_map nonempty_ret_msg items
  | Object _ => nonempty_ret_msg data
  | _ => None
  end.

(** [message.replace([' ', '_'], "")]. *)
Fixpoint remove_spacers (s : string) : string :=
  match s with
  | EmptyString => EmptyString
  | String c r =>
      if Ascii.eqb c " " || Ascii.eqb c "_" then remove_spacers r else String c (remove_spacers r)
  end.

Definition is_broken_skin_message (message : string) : bool :=
  let normalized := remove_spacers (to_lowercase message) in
  contains "int16" normalized && contains "skinid" normalized.

Definition should_preserve_broken_skin_batch_response (method : string) (data : value) : bool :=
  if negb (eq_ignore_ascii_case method "getmatchdetailsbatch") then false else
  match data with
  | Array items =>
      let messages := omap nonempty_ret_msg items in
      match messages with [] => false | _ => forallb is_broken_skin_message messages end
  | _ => false
  end.

Definition endpoint_timeout (method : string) : Z :=
  if bool_decide (method ∈ ["getgods"; "getitems"; "getchampions"; "searchplayers"; "getqueuestats";
       "getbountyitems"; "getmatchdetails"; "getmatchhistory"; "getplayeridbyname";
       "getplayerloadouts"; "getplayerstatus"; "getmatchplayerdetails";
       "getplayeridsbygamertag"; "getplayeridbyportaluserid"]) then 10000
  else if bool_decide (method ∈ ["getfriends"; "getplayerbatch"; "getmatchidsbyqueue"; "getmatchdetailsbatch"])
  then 20000
  else if String.eqb method "getchampionskins" then 30000
  else DEFAULT_TIMEOUT.

(** The variables of api_request that live across attempts. *)
Record Progress := {
  last_error : option string;
  last_app_error : string;
  last_key_dev_id : option string;
  attempts_made : nat;
  transport_failed : bool;
}.

Definition no_progress : Progress :=
  {| last_error := None; last_app_error := EmptyString; last_key_dev_id := None;
     attempts_made := 0; transport_failed := false |}.

Definition with_error (e : string) (p : Progress) : Progress :=
  {| last_error := Some e; last_app_error := last_app_error p; last_key_dev_id := last_key_dev_id p;
     attempts_made := attempts_made p; transport_failed := transport_failed p |}.
Definition with_app_error (e : string) (p : Progress) : Progress :=
  {| last_error := last_error p; last_app_error := e; last_key_dev_id := last_key_dev_id p;
     attempts_made := attempts_made p; transport_failed := transport_failed p |}.
Definition with_key (d : string) (p : Progress) : Progress :=
  {| last_error := last_error p; last_app_error := last_app_error p; last_key_dev_id := Some d;
     attempts_made := attempts_made p; transport_failed := transport_failed p |}.
Definition with_attempts (n : nat) (p : Progress) : Progress :=
  {| last_error := last_error p; last_app_error := last_app_error p;
     last_key_dev_id := last_key_dev_id p; attempts_made := n; transport_failed := transport_failed p |}.
Definition with_transport_failed (p : Progress) : Progress :=
  {| last_error := last_error p; last_app_error := last_app_error p;
     last_key_dev_id := last_key_dev_id p; attempts_made := attempts_made p; transport_failed := true |}.

(** How one pass through the loop body ends. *)
Inductive Flow :=
  | Return (r : result value UpstreamError)
  | Continue (p : Progress)
  | Break (p : Progress).

Section client.
Context {W : Type} `{Formats} `{ApiKeyState W} `{HttpTransport W} `{SessionAudit W}
  `{Clock W} `{Stopwatch W} `{RetrySleeper W}.
Variables (base_url_arg : string) (ttl_ms : Z).

Abbreviation State := (SessionState * W)%type.

(** [if attempt < max_retries { sleep; continue } break]. *)
Definition retry_or_break (attempt max_retries : nat) (p : Progress) : ST State Flow :=
  if (attempt <? max_retries)%nat
  then _ ← lift_session (sleep_before_retry (Z.of_nat attempt + 1)); mret (Continue p)
  else mret (Break p).

Definition request_url (method : string) (params : list string) (key : ApiCredential)
    (session : Session) (signature timestamp : string) : string :=
  let url := base_url base_url_arg +:+ "/" +:+ method +:+ "Json/" +:+ cred_dev_id key +:+ "/"
             +:+ signature +:+ "/" +:+ session_key session +:+ "/" +:+ timestamp in
  match params with
  | [] => url
  | _ => url +:+ "/" +:+ String.concat "/" params
  end.

(** The reaction to a parsed body. *)
Definition handle_body (method d : string) (data : value) (attempt max_retries : nat)
    (p : Progress) : ST State Flow :=
  match first_ret_msg data with
  | None =>
      _ ← lift_session (state_record_success d);
      mret (Return (Ok data))
  | Some msg =>
      if should_preserve_broken_skin_batch_response method data then
        _ ← lift_session (state_record_success d);
        mret (Return (Ok data))
      else
        let p := with_app_error msg p in
        let c := classify_ret_msg msg in
        match action c with
        | ActSession =>
            _ ← invalidate_session d;
            mret (Continue p)
        | ActQuota =>
            _ ← lift_session (state_sync_usage d);
            mret (Continue p)
        | ActEmpty =>
            _ ← lift_session (state_record_success d);
            mret (Return (Ok (Array [])))
        | ActRetry => retry_or_break attempt max_retries (with_error (code c +:+ ": " +:+ msg) p)
        | ActTerminal | ActUnknown => mret (Break (with_error (code c +:+ ": " +:+ msg) p))
        end
  end.

(** The body of the loop. *)
Definition attempt_once (method : string) (params : list string) (timeout : Z) (consumer : string)
    (attempt max_retries : nat) (p : Progress) : ST State Flow :=
  let p := with_attempts (S attempt) p in
  active ← get_active_session base_url_arg ttl_ms;
  match active with
  | Err e => retry_or_break attempt max_retries (with_error (upstream_error_to_string e) p)
  | Ok (key, session) =>
      let d := cred_dev_id key in
      let p := with_key d p in
      stamp ← hirez_timestamp;
      match stamp with
      | Err e => mret (Return (Err e))
      | Ok timestamp =>
          let signature := sign method d (cred_auth_key key) timestamp in
          _ ← lift_session (state_increment_usage d);
          started ← lift_session instant_now;
          response ← lift_session
            (transport_get (request_url method params key session signature timestamp) timeout);
          elapsed ← lift_session (elapsed_millis started);
          _ ← lift_session (state_log_endpoint d method elapsed consumer);
          match response with
          | Ok response =>
              if is_success_status (resp_status response) then
                match parse_json_body (resp_body response) with
                | Ok data => handle_body method d data attempt max_retries p
                | Err e => retry_or_break attempt max_retries (with_error (upstream_error_to_string e) p)
                end
              else
                let message := "HTTP " +:+ pretty (resp_status response) +:+ ": " +:+ resp_reason response in
                if resp_status response =? 503
                then mret (Return (Err (UpstreamProtocol ("API temporarily unavailable (503): " +:+ message))))
                else retry_or_break attempt max_retries (with_error message p)
          | Err e =>
              retry_or_break attempt max_retries
                (with_error (transport_error_to_string e) (with_transport_failed p))
          end
      end
  end.

Definition final_message (p : Progress) : string :=
  match last_error p with
  | Some m => if is_empty m then
                (if is_empty (last_app_error p) then "Unknown application error" else last_app_error p)
              else m
  | None => if is_empty (last_app_error p) then "Unknown application error" else last_app_error p
  end.

Definition is_key_fault (p : Progress) : bool :=
  let m := final_message p in
  let terminal := contains "HIREZ_NOT_FOUND_OR_INVALID" m || contains "HIREZ_UNKNOWN_RETURN" m in
  negb (transport_failed p) && negb terminal && negb (contains "404" m) && negb (contains "422" m)
  && negb (contains "ECONNRESET" m) && negb (contains "ETIMEDOUT" m).

(** After the loop. *)
Definition fail_request (p : Progress) : ST State (result value UpstreamError) :=
  _ ← match last_key_dev_id p with
      | Some d => lift_session (state_record_failure d (is_key_fault p))
      | None => mret tt
      end;
  mret (Err (UpstreamApplication
    ("Request failed after " +:+ pretty (attempts_made p) +:+ " attempt"
     +:+ (if (attempts_made p =? 1)%nat then "" else "s") +:+ ": " +:+ final_message p))).

(** [for attempt in 0..=max_retries]: [remaining] passes are left. *)
Fixpoint attempts (method : string) (params : list string) (timeout : Z) (consumer : string)
    (max_retries remaining attempt : nat) (p : Progress) : ST State (result value UpstreamError) :=
  match remaining with
  | O => fail_request p
  | S remaining =>
      flow ← attempt_once method params timeout consumer attempt max_retries p;
      match flow with
      | Return r => mret r
      | Break p => fail_request p
      | Continue p => attempts method params timeout consumer max_retries remaining (S attempt) p
      end
  end.

Definition api_request (method : string) (params : list string) (options : ApiRequestOptions)
    (consumer : string) : ST State (result value UpstreamError) :=
  let timeout := match opt_timeout options with Some t => t | None => endpoint_timeout method end in
  let max_retries := default DEFAULT_MAX_RETRIES (opt_max_retries options) in
  attempts method params timeout consumer max_retries (S max_retries) 0 no_progress.
End client.
