(* ===== verification/HirezClientSpec.v ===== *)
(** * Properties of the provider request client

    Bounded work and complete charging, the origin of every successful result,
    and the effect of the provider's in-band messages. *)

From S2P Require Import Prelude Json Upstream Session SessionSpec HirezClient.

(** ** Work and charging *)

Section metered_client.
Context {W : Type} `{Hformats : Formats} `{Hkeys : ApiKeyState W} `{Htransport : HttpTransport W}
  `{Haudit : SessionAudit W} `{Hclock : Clock W} `{Hwatch : Stopwatch W}
  `{Hsleeper : RetrySleeper W} `{Hmeter : !Metered W}.
Variables (base_url_arg : string) (ttl_ms : Z).

(** A pass never sleeps in the last round. *)
Definition naps (attempt max_retries : nat) : Z := if (attempt <? max_retries)%nat then 1 else 0.

Lemma costs_retry attempt max_retries p :
  costs 0 0 (naps attempt max_retries) (retry_or_break attempt max_retries p).
Proof.
  unfold retry_or_break, naps. case_match; [|apply costs_ret].
  apply (costs_bind 0 0 1 0 0 0); [apply costs_sleep|intros; apply costs_ret].
Qed.

Lemma costs_ret_any {A} g s (a : A) : 0 <= g -> 0 <= s -> costs g 0 s (mret a).
Proof. intros. by eapply costs_weaken; [apply costs_ret|..]. Qed.

Lemma naps_nonneg a m : 0 <= naps a m.
Proof. unfold naps. by case_match. Qed.

Lemma gets_nonneg (w : W) : 0 <= selection_gets /\ 0 <= sync_gets.
Proof. split; [apply (probes_nonneg _ _ _ (meter_active w))|apply (probes_nonneg _ _ _ (meter_sync "" w))]. Qed.

(** A cost is that of a run in some world, so the bounds may be taken to be
    nonnegative. *)
Lemma costs_inhabited {A} g k s (m : ST (SessionState * W) A) :
  (0 <= selection_gets -> 0 <= sync_gets -> costs g k s m) -> costs g k s m.
Proof. intros Hm st w. destruct (gets_nonneg w). by apply Hm. Qed.

Lemma costs_handle_body method d data attempt max_retries p :
  costs sync_gets 0 (naps attempt max_retries) (handle_body method d data attempt max_retries p).
Proof.
  apply costs_inhabited. intros _ Hsync. pose proof (naps_nonneg attempt max_retries) as Hn.
  assert (forall p, costs sync_gets 0 (naps attempt max_retries) (retry_or_break attempt max_retries p)) as Hretry
    by (intros; eapply costs_weaken; [apply costs_retry|lia|lia]).
  assert (forall (c : ST W unit) f, (forall w, meter (exec c w) = meter w) ->
    costs sync_gets 0 (naps attempt max_retries) (lift_session c ≫= fun _ => mret (f : Flow))) as Hc.
  { intros c f Hs. apply costs_then; [by apply costs_silent|intros _]. by apply costs_ret_any. }
  unfold handle_body. case_match; [|apply Hc, meter_success].
  case_match; [apply Hc, meter_success|].
  destruct (action _); try (by apply costs_ret_any); try apply Hretry.
  - apply costs_then; [apply costs_modify|intros _]. by apply costs_ret_any.
  - replace (naps attempt max_retries) with (0 + naps attempt max_retries) by lia. replace sync_gets with (sync_gets + 0) by lia.
    apply (costs_bind sync_gets 0 0 0 0 (naps attempt max_retries)); [apply costs_probes, meter_sync|intros _]. by apply costs_ret_any.
  - apply Hc, meter_success.
Qed.

Lemma costs_attempt method params timeout consumer attempt max_retries p :
  costs (2 + selection_gets + sync_gets) 0 (naps attempt max_retries)
    (attempt_once base_url_arg ttl_ms method params timeout consumer attempt max_retries p).
Proof.
  apply costs_inhabited. intros Hsel Hsync. pose proof (naps_nonneg attempt max_retries) as Hn. unfold attempt_once.
  replace (2 + selection_gets + sync_gets) with ((selection_gets + 1) + (1 + sync_gets)) by lia.
  apply (costs_bind (selection_gets + 1) 0 0 (1 + sync_gets) 0 (naps attempt max_retries)); [apply costs_active_session|].
  intros [[key session]|e].
  2: { eapply costs_weaken; [apply costs_retry|lia|lia]. }
  apply costs_then; [apply costs_timestamp|intros [ts|e]]; [|apply costs_ret_any; lia].
  apply (costs_bind 0 1 0 (1 + sync_gets) (-1) (naps attempt max_retries)); [apply costs_increment|intros _].
  apply costs_then; [apply costs_silent, meter_instant|intros started].
  apply (costs_bind 1 (-1) 0 sync_gets 0 (naps attempt max_retries)); [apply costs_get|intros response].
  apply costs_then; [apply costs_silent, meter_elapsed|intros elapsed].
  apply costs_then; [apply costs_silent, meter_log|intros _].
  repeat case_match; try apply costs_handle_body; try (eapply costs_weaken; [apply costs_retry|lia|lia]).
  by apply costs_ret_any.
Qed.

Lemma costs_fail_request p : costs 0 0 0 (fail_request p).
Proof.
  unfold fail_request. apply costs_then; [|intros; apply costs_ret].
  case_match; [apply costs_silent, meter_failure|apply costs_ret].
Qed.

Lemma costs_attempts method params timeout consumer max_retries remaining attempt p :
  (attempt + remaining = S max_retries)%nat ->
  costs ((2 + selection_gets + sync_gets) * Z.of_nat remaining) 0 (Z.max 0 (Z.of_nat remaining - 1))
    (attempts base_url_arg ttl_ms method params timeout consumer max_retries remaining attempt p).
Proof.
  revert attempt p. induction remaining as [|n IH]; intros attempt p Hsum.
  - eapply costs_weaken; [apply costs_fail_request|lia|lia].
  - cbn [attempts].
    apply costs_inhabited. intros Hsel Hsync. set (per := 2 + selection_gets + sync_gets) in *.
    eapply costs_weaken with (g := per + per * Z.of_nat n)
      (s := naps attempt max_retries + Z.max 0 (Z.of_nat n - 1)); [| lia |].
    2: { unfold naps. destruct (Nat.ltb_spec attempt max_retries); lia. }
    apply (costs_bind per 0 (naps attempt max_retries) (per * Z.of_nat n) 0 (Z.max 0 (Z.of_nat n - 1)));
      [apply costs_attempt|intros [r|p'|p']].
    + apply costs_ret_any; unfold per; nia.
    + apply IH. lia.
    + eapply costs_weaken; [apply costs_fail_request|unfold per; nia|lia].
Qed.

Lemma api_request_costs method params options consumer st w :
  let retries := default DEFAULT_MAX_RETRIES (opt_max_retries options) in
  let a := meter w in
  let b := meter (snd (exec (api_request base_url_arg ttl_ms method params options consumer) (st, w))) in
  0 <= m_gets b - m_gets a <= (2 + selection_gets + sync_gets) * (Z.of_nat retries + 1) /\
  m_charges b - m_charges a = m_gets b - m_gets a /\
  0 <= m_sleeps b - m_sleeps a <= Z.of_nat retries.
Proof.
  intros retries a b. unfold api_request in b. fold retries in b.
  pose proof (costs_attempts method params
    match opt_timeout options with Some t => t | None => endpoint_timeout method end
    consumer retries (S retries) 0 no_progress eq_refl st w) as Hc.
  subst a b. cbv zeta in Hc. rewrite Nat2Z.inj_succ in Hc. lia.
Qed.

(** C22. Bounded and fully charged.  Whatever the provider answers, one
    api_request sends per permitted attempt at most two HTTP requests of its own
    (the call and possibly a session creation) and those with which the key
    state probes the usage of keys, for a selection and for a sync; it never
    sleeps after the last attempt, and a key is charged for exactly the requests
    sent, each one. *)
Theorem api_request_bounded method params options consumer st w :
  let retries := default DEFAULT_MAX_RETRIES (opt_max_retries options) in
  let a := meter w in
  let b := meter (snd (exec (api_request base_url_arg ttl_ms method params options consumer) (st, w))) in
  0 <= m_gets b - m_gets a <= (2 + selection_gets + sync_gets) * (Z.of_nat retries + 1) /\
  m_charges b - m_charges a = m_gets b - m_gets a /\
  0 <= m_sleeps b - m_sleeps a <= Z.of_nat retries.
Proof. exact (api_request_costs method params options consumer st w). Qed.
End metered_client.

(** ** Results *)

Section results.
Context {W : Type} `{Hformats : Formats} `{Hkeys : ApiKeyState W} `{Htransport : HttpTransport W}
  `{Haudit : SessionAudit W} `{Hclock : Clock W} `{Hwatch : Stopwatch W}
  `{Hsleeper : RetrySleeper W}.
Variables (base_url_arg : string) (ttl_ms : Z).

(** A value the caller may be given: the empty list that stands for an empty
    provider answer, or a parsed body of a response with a success status
    that carries no message (or the recognised broken-skin messages). *)
Definition deliverable (method : string) (v : value) : Prop :=
  v = Array [] \/
  exists response, is_success_status (resp_status response) = true /\
    parse_json_body (resp_body response) = Ok v /\
    (first_ret_msg v = None \/ should_preserve_broken_skin_batch_response method v = true).

Definition good_flow (method : string) (attempt : nat) (f : Flow) : Prop :=
  match f with
  | Return (Ok v) => deliverable method v
  | Return (Err (UpstreamConfiguration _)) | Return (Err (UpstreamProtocol _)) => True
  | Return (Err _) => False
  | Continue p | Break p => attempts_made p = S attempt
  end.

Lemma retry_good method attempt max_retries p s :
  attempts_made p = S attempt -> good_flow method attempt (run (retry_or_break attempt max_retries p) s).
Proof.
  intros Hp. destruct s as [st w]. unfold run, retry_or_break, mbind, ST_bind, lift_session.
  case_match; [|done]. by destruct (sleep_before_retry _ w).
Qed.

Lemma handle_body_good method d data attempt max_retries p s response :
  attempts_made p = S attempt ->
  is_success_status (resp_status response) = true ->
  parse_json_body (resp_body response) = Ok data ->
  good_flow method attempt (run (handle_body method d data attempt max_retries p) s).
Proof.
  intros Hp Hs Hd. destruct s as [st w]. unfold handle_body.
  assert (forall (c : ST W unit) f, run (lift_session c ≫= fun _ => mret (f : Flow)) (st, w) = f) as Hrun.
  { intros c f. unfold run, mbind, ST_bind, lift_session. by destruct (c w). }
  destruct (first_ret_msg data) as [msg|] eqn:Em.
  - destruct (should_preserve_broken_skin_batch_response method data) eqn:Ep.
    + rewrite Hrun. right. exists response. auto.
    + destruct (action _); rewrite ?Hrun; try by apply retry_good.
      all: try done. by left.
  - rewrite Hrun. right. exists response. auto.
Qed.

Lemma timestamp_error (st : SessionState) (w : W) e s' :
  hirez_timestamp (st, w) = (Err e, s') -> exists m, e = UpstreamConfiguration m.
Proof.
  unfold hirez_timestamp, mbind, ST_bind, lift_session. destruct (unix_millis w) as [ms w'].
  simpl. destruct (format_unix_seconds _) as [t|m]; simpl; [done|]. intros [= <- _]. eauto.
Qed.

Lemma attempt_good method params timeout consumer attempt max_retries p s :
  good_flow method attempt
    (run (attempt_once base_url_arg ttl_ms method params timeout consumer attempt max_retries p) s).
Proof.
  unfold run, attempt_once, mbind, ST_bind.
  destruct (get_active_session _ _ s) as [[[key session]|e] [st1 w1]]; [|by apply retry_good].
  destruct (hirez_timestamp (st1, w1)) as [[ts|e] [st2 w2]] eqn:Et.
  2: { apply timestamp_error in Et as [m ->]. done. }
  unfold lift_session. destruct (state_increment_usage _ w2) as [[] w3], (instant_now w3) as [t0 w4],
    (transport_get _ _ w4) as [response w5], (elapsed_millis t0 w5) as [el w6],
    (state_log_endpoint _ _ _ _ w6) as [[] w7].
  destruct response as [response|e]; [|by apply retry_good].
  destruct (is_success_status (resp_status response)) eqn:Es.
  - destruct (parse_json_body (resp_body response)) as [data|e] eqn:Ed; [|by apply retry_good].
    by eapply handle_body_good.
  - case_match; [done|]. by apply retry_good.
Qed.

(** The message of an exhausted request. *)
Definition failure_text (p : Progress) : string :=
  "Request failed after " +:+ pretty (attempts_made p) +:+ " attempt"
  +:+ (if (attempts_made p =? 1)%nat then "" else "s") +:+ ": " +:+ final_message p.

Lemma fail_request_run p s : run (fail_request p) s = Err (UpstreamApplication (failure_text p)).
Proof.
  destruct s as [st w]. unfold run, fail_request, mbind, ST_bind, lift_session.
  destruct (last_key_dev_id p); [|done]. by destruct (state_record_failure _ _ w).
Qed.

(** Nothing but provider data comes out of api_request: a success is
    the empty list of an empty answer or a parsed 2xx body without an
    in-band error, and a request that runs out of attempts fails with the
    number of passes it really made, between one and retries plus one. *)
Theorem api_request_result method params options consumer s :
  let retries := default DEFAULT_MAX_RETRIES (opt_max_retries options) in
  match run (api_request base_url_arg ttl_ms method params options consumer) s with
  | Ok v => deliverable method v
  | Err (UpstreamApplication m) => exists p, m = failure_text p /\ (1 <= attempts_made p <= S retries)%nat
  | Err (UpstreamTransport _) => False
  | Err _ => True
  end.
Proof.
  intros retries. unfold api_request. fold retries.
  set (timeout := match opt_timeout options with Some t => t | None => _ end).
  assert (forall remaining attempt p s, (attempt + remaining = S retries)%nat ->
    (remaining = O -> (1 <= attempts_made p <= S retries)%nat) ->
    match run (attempts base_url_arg ttl_ms method params timeout consumer retries remaining attempt p) s with
    | Ok v => deliverable method v
    | Err (UpstreamApplication m) => exists p, m = failure_text p /\ (1 <= attempts_made p <= S retries)%nat
    | Err (UpstreamTransport _) => False
    | Err _ => True
    end) as Hloop; [|apply Hloop; [done|done]].
  clear s. induction remaining as [|n IH]; intros attempt p s Hsum Hp.
  - cbn [attempts]. rewrite fail_request_run. exists p. auto.
  - cbn [attempts]. unfold run at 1, mbind, ST_bind.
    pose proof (attempt_good method params timeout consumer attempt retries p s) as Hg. unfold run in Hg.
    destruct (attempt_once _ _ _ _ _ _ _ _ _ s) as [[r|p'|p'] s'] eqn:E; simpl in Hg.
    + simpl. by destruct r as [v|[]].
    + apply IH; [lia|]. intros ->. rewrite Hg. lia.
    + fold (run (fail_request p') s'). rewrite fail_request_run. exists p'. rewrite Hg. split; [done|lia].
Qed.
End results.

(** ** A scripted provider

    In the manner of FakeTransport and FakeKeyState of test_support.rs: one
    key, a clock that stands still, answers taken from a list. *)

Record script := {
  answers : list (result HttpResponse TransportError);
  counts : Meter;
  sent : list string;
}.

Definition bump (f : Meter -> Meter) (w : script) : script :=
  {| answers := answers w; counts := f (counts w); sent := sent w |}.

#[export] Instance script_formats : Formats := {|
  md5_hex := fun s => s;
  format_unix_seconds := fun n => Ok (pretty n);
  parse_json := fun s =>
    if String.eqb s "approved" then Ok (Object [("ret_msg", Str "Approved"); ("session_id", Str "s1")])
    else if String.eqb s "invalid" then Ok (Array [Object [("ret_msg", Str "Invalid session id.")]])
    else if String.eqb s "private" then Ok (Array [Object [("ret_msg", Str "Player Privacy Flag set")]])
    else if String.eqb s "quota" then Ok (Array [Object [("ret_msg", Str "Daily request limit reached.")]])
    else if String.eqb s "match" then Ok (Array [Object [("Match", Number (NInt 128000001))]])
    else Err "expected value";
  print_json := fun _ => "{}";
|}.

#[export] Instance script_keys : ApiKeyState script := {|
  state_active_key := mret (Ok {| cred_dev_id := "1234"; cred_auth_key := "secret" |});
  state_increment_usage := fun _ w => (tt, bump (fun m =>
    {| m_gets := m_gets m; m_charges := m_charges m + 1; m_sleeps := m_sleeps m |}) w);
  state_log_endpoint := fun _ _ _ _ => mret tt;
  state_record_success := fun _ => mret tt;
  state_record_failure := fun _ _ => mret tt;
  (* The probe: a session and its question. *)
  state_sync_usage := fun _ w => (tt, bump (fun m =>
    {| m_gets := m_gets m + 2; m_charges := m_charges m + 2; m_sleeps := m_sleeps m |}) w);
|}.

#[export] Instance script_transport : HttpTransport script := fun url _ w =>
  let m := counts w in
  let m' := {| m_gets := m_gets m + 1; m_charges := m_charges m; m_sleeps := m_sleeps m |} in
  match answers w with
  | [] => (Err Timeout, {| answers := []; counts := m'; sent := url :: sent w |})
  | a :: r => (a, {| answers := r; counts := m'; sent := url :: sent w |})
  end.

#[export] Instance script_audit : SessionAudit script := fun _ => mret tt.
#[export] Instance script_clock : Clock script := mret 1785283199000.
#[export] Instance script_watch : Stopwatch script :=
  {| instant_now := mret 0; elapsed_millis := fun _ => mret 3 |}.
#[export] Instance script_sleeper : RetrySleeper script := fun _ w => (tt, bump (fun m =>
  {| m_gets := m_gets m; m_charges := m_charges m; m_sleeps := m_sleeps m + 1 |}) w).

#[export] Instance script_metered : Metered script.
Proof.
  refine {| meter := counts; selection_gets := 0; sync_gets := 2 |}; try done.
  - intros url t w. unfold exec, transport_get, script_transport. by destruct (answers w).
  - intros w. unfold probes_at_most. cbn. split_and!; lia.
  - intros d w. unfold probes_at_most. cbn [exec state_sync_usage script_keys snd counts bump m_gets m_charges m_sleeps]. unfold exec. cbn. split_and!; lia.
Defined.

Definition ok_response (body : string) : result HttpResponse TransportError :=
  Ok {| resp_status := 200; resp_reason := "OK"; resp_body := body |}.
Definition http_error (status : Z) (reason : string) : result HttpResponse TransportError :=
  Ok {| resp_status := status; resp_reason := reason; resp_body := EmptyString |}.

Definition fresh_script (l : list (result HttpResponse TransportError)) : SessionState * script :=
  (no_sessions, {| answers := l; counts := {| m_gets := 0; m_charges := 0; m_sleeps := 0 |}; sent := [] |}).

Definition no_options : ApiRequestOptions := {| opt_timeout := None; opt_max_retries := None |}.

Definition request (l : list (result HttpResponse TransportError)) (options : ApiRequestOptions) :=
  api_request "https://example.invalid/" 840000 "getmatchdetailsbatch" ["128000001"] options
    "ranked_ingest" (fresh_script l).

(** The unit tests of hirez_client.rs on the model. *)
Example invalid_session_is_recreated_without_backoff :
  let r := request [ok_response "approved"; ok_response "invalid"; ok_response "approved"; ok_response "match"] no_options in
  fst r = Ok (Array [Object [("Match", Number (NInt 128000001))]]) /\
  counts (snd (snd r)) = {| m_gets := 4; m_charges := 4; m_sleeps := 0 |}.
Proof. vm_compute. done. Qed.

Example repeated_invalid_sessions_exhaust_the_budget :
  let round := [ok_response "approved"; ok_response "invalid"] in
  let r := request (round ++ round ++ round ++ round) no_options in
  fst r = Err (UpstreamApplication "Request failed after 4 attempts: Invalid session id.") /\
  counts (snd (snd r)) = {| m_gets := 8; m_charges := 8; m_sleeps := 0 |}.
Proof. vm_compute. done. Qed.

Example http_404_retries :
  let r := request [ok_response "approved"; http_error 404 "Not Found"; http_error 404 "Not Found"]
    {| opt_timeout := None; opt_max_retries := Some 1%nat |} in
  fst r = Err (UpstreamApplication "Request failed after 2 attempts: HTTP 404: Not Found") /\
  counts (snd (snd r)) = {| m_gets := 3; m_charges := 3; m_sleeps := 1 |}.
Proof. vm_compute. done. Qed.

Example quota_is_probed_before_the_next_attempt :
  let r := request [ok_response "approved"; ok_response "quota"; ok_response "match"] no_options in
  fst r = Ok (Array [Object [("Match", Number (NInt 128000001))]]) /\
  counts (snd (snd r)) = {| m_gets := 5; m_charges := 5; m_sleeps := 0 |}.
Proof. vm_compute. done. Qed.

Lemma api_request_bounded_witness :
  let b := meter (snd (exec (api_request "https://example.invalid/" 840000 "getgods" [] no_options "x")
             (fresh_script []))) in
  m_charges b - 0 = m_gets b - 0 /\ m_gets b - 0 <= 16.
Proof.
  destruct (api_request_bounded "https://example.invalid/" 840000 "getgods" [] no_options "x"
    no_sessions (snd (fresh_script []))) as [[_ H1] [H2 _]].
  split; [exact H2|exact H1].
Defined.

(** ** The session store under requests *)

Section client_store.
Context {W : Type} `{Hformats : Formats} `{Hkeys : ApiKeyState W} `{Htransport : HttpTransport W}
  `{Haudit : SessionAudit W} `{Hclock : Clock W} `{Hwatch : Stopwatch W}
  `{Hsleeper : RetrySleeper W}.
Variables (base_url_arg : string) (ttl_ms : Z).

#[local] Hint Resolve preserves_ret preserves_lift preserves_drop preserves_active : meter.

Ltac keeps :=
  repeat first [ solve [eauto with meter] | apply preserves_bind; [|intros ?] | case_match ].

Lemma preserves_retry attempt max_retries p :
  preserves_store (retry_or_break attempt max_retries p).
Proof. unfold retry_or_break. keeps. Qed.

Lemma preserves_handle method d data attempt max_retries p :
  preserves_store (handle_body method d data attempt max_retries p).
Proof.
  pose proof preserves_retry. unfold handle_body, invalidate_session. keeps; auto.
Qed.

Lemma preserves_attempt method params timeout consumer attempt max_retries p :
  preserves_store (attempt_once base_url_arg ttl_ms method params timeout consumer attempt max_retries p).
Proof.
  pose proof preserves_retry. pose proof preserves_handle. unfold attempt_once, hirez_timestamp.
  keeps; auto.
Qed.

(** A request keeps the session store sound, and a session the provider
    called invalid is really forgotten: after the reaction to such a body
    the store has no session for the key, so the next attempt of the loop
    creates a new one. *)
Theorem api_request_sessions method params options consumer d data attempt max_retries p st w msg :
  store_wf st ->
  store_wf (fst (exec (api_request base_url_arg ttl_ms method params options consumer) (st, w))) /\
  (first_ret_msg data = Some msg -> should_preserve_broken_skin_batch_response method data = false ->
   action (classify_ret_msg msg) = ActSession ->
   handle_body method d data attempt max_retries p (st, w)
     = (Continue (with_app_error msg p), (drop_session d st, w))).
Proof.
  intros Hst. split.
  - assert (forall remaining attempt p,
      preserves_store (attempts base_url_arg ttl_ms method params
        match opt_timeout options with Some t => t | None => endpoint_timeout method end consumer
        (default DEFAULT_MAX_RETRIES (opt_max_retries options)) remaining attempt p)) as Hp.
    { intros remaining. induction remaining as [|n IH]; intros a q; cbn [attempts].
      - unfold fail_request. keeps.
      - apply preserves_bind; [apply preserves_attempt|intros [r|q'|q']]; [eauto with meter|auto|].
        unfold fail_request. keeps. }
    by apply Hp.
  - intros Hm Hb Ha. unfold handle_body. rewrite Hm, Hb, Ha. done.
Qed.
End client_store.

Lemma api_request_sessions_witness :
  handle_body "getplayer" "1234" (Array [Object [("ret_msg", Str "Invalid session id.")]]) 0 3 no_progress
    (fresh_script [])
  = (Continue (with_app_error "Invalid session id." no_progress), (drop_session "1234" no_sessions, snd (fresh_script []))).
Proof.
  apply (api_request_sessions "https://example.invalid/" 840000 "getplayer" [] no_options "x"
    "1234" (Array [Object [("ret_msg", Str "Invalid session id.")]]) 0 3 no_progress no_sessions
    (snd (fresh_script [])) "Invalid session id."); try reflexivity.
  intros d s Hs. simpl in Hs. by rewrite lookup_empty in Hs.
Defined.

(** ** The session manager on the scripted provider *)

Lemma empty_store_wf : store_wf no_sessions.
Proof. intros d s Hs. simpl in Hs. by rewrite lookup_empty in Hs. Qed.

Definition script_key : ApiCredential := {| cred_dev_id := "1234"; cred_auth_key := "secret" |}.
Definition script_session : Session :=
  {| session_dev_id := "1234"; session_key := "s1"; expires_at_ms := 1785284039000 |}.

Lemma session_store_invariant_witness :
  store_wf (fst (exec (acquire_session "https://example.invalid/" 840000 script_key)
    (fresh_script [ok_response "approved"]))).
Proof.
  exact (proj1 (proj2 (proj2 (session_store_invariant "https://example.invalid/" 840000 no_sessions
    (snd (fresh_script [ok_response "approved"])) "1234" script_key empty_store_wf)))).
Defined.

Lemma acquire_session_reuses_witness :
  let st := put_session "1234" script_session no_sessions in
  acquire_session "https://example.invalid/" 840000 script_key (st, snd (fresh_script []))
  = (Ok script_session, (st, snd (fresh_script []))).
Proof.
  exact (acquire_session_reuses "https://example.invalid/" 840000
    (put_session "1234" script_session no_sessions) (snd (fresh_script [])) script_key script_session
    eq_refl eq_refl).
Defined.

Lemma acquire_session_outcome_witness :
  sessions (fst (exec (acquire_session "https://example.invalid/" 840000 script_key)
    (fresh_script [ok_response "approved"]))) !! "1234" = Some script_session.
Proof.
  pose proof (acquire_session_outcome "https://example.invalid/" 840000 no_sessions
    (snd (fresh_script [ok_response "approved"])) script_key empty_store_wf) as H.
  exact (proj1 H).
Defined.
