(* ===== verification/Queue.v ===== *)
(** * Queue policy (src/paladinscat-core/src/queue.rs)

    Which roster and score evidence completes a match, by queue. *)

From S2P Require Import Prelude.

Definition has_variable_human_roster (queue_id : Z) : bool :=
  (queue_id =? 425) || (queue_id =? 453) || (queue_id =? 10297) || (queue_id =? 10348)
  || (queue_id =? 10362).

Definition roster_evidence_is_complete (queue_id player_count : Z) : bool :=
  if has_variable_human_roster queue_id then 0 <? player_count else 10 <=? player_count.

Definition has_optional_completed_score (queue_id : Z) : bool :=
  has_variable_human_roster queue_id || (queue_id =? 10332).

Definition valid_standard_score (team1 team2 winner : option Z) : bool :=
  match team1, team2, winner with
  | Some a, Some b, Some 1 => (0 <=? a) && (0 <=? b) && (b <? a)
  | Some a, Some b, Some 2 => (0 <=? a) && (0 <=? b) && (a <? b)
  | _, _, _ => false
  end.

Definition is_none {A} (o : option A) : bool := match o with None => true | Some _ => false end.

Definition normalize_score_evidence (queue_id : Z) (team1 team2 winner : option Z) :
    option Z * option Z * option Z :=
  if valid_standard_score team1 team2 winner then (team1, team2, winner)
  else if has_optional_completed_score queue_id
          && (is_none team1 || is_none team2
              || match winner with None => true | Some v => negb ((v =? 1) || (v =? 2)) end
              || match team1 with Some v => v <? 0 | None => false end
              || match team2 with Some v => v <? 0 | None => false end)
  then (None, None, None)
  else (team1, team2, winner).

Definition score_evidence_is_complete (queue_id : Z) (team1 team2 winner : option Z) : bool :=
  let '(team1, team2, winner) := normalize_score_evidence queue_id team1 team2 winner in
  if has_optional_completed_score queue_id && is_none team1 && is_none team2 && is_none winner
  then true
  else valid_standard_score team1 team2 winner.

(** ** Properties *)

(** A finished match: both scores non-negative and the winner strictly ahead. *)
Definition finished (team1 team2 winner : option Z) : Prop :=
  exists a b w, team1 = Some a /\ team2 = Some b /\ winner = Some w /\ 0 <= a /\ 0 <= b /\
    ((w = 1 /\ b < a) \/ (w = 2 /\ a < b)).

(** A full triple of plausible fragments that contradict each other. *)
Definition contradictory (team1 team2 winner : option Z) : Prop :=
  exists a b w, team1 = Some a /\ team2 = Some b /\ winner = Some w /\ 0 <= a /\ 0 <= b /\
    ((w = 1 /\ a <= b) \/ (w = 2 /\ b <= a)).

Lemma valid_standard_score_iff t1 t2 w : valid_standard_score t1 t2 w = true <-> finished t1 t2 w.
Proof.
  unfold valid_standard_score, finished. split.
  - intros H. destruct t1 as [a|], t2 as [b|], w as [w|]; try done.
    exists a, b, w. destruct w as [|[?|[?|?|]|]|]; try done; bool_props; split_and!; try done; lia.
  - intros (a & b & v & -> & -> & -> & Ha & Hb & [[-> H]|[-> H]]);
      rewrite !andb_true_iff, !Z.leb_le, Z.ltb_lt; lia.
Qed.

(** Score evidence is complete exactly when the match is finished or, in
    a queue whose score is optional, when the fragments do not form a full
    non-negative triple that contradicts itself.  In a fixed queue nothing but
    a finished score is complete. *)
Theorem score_evidence_is_complete_iff queue_id t1 t2 w :
  score_evidence_is_complete queue_id t1 t2 w = true <->
  finished t1 t2 w \/
  (has_optional_completed_score queue_id = true /\ ~ contradictory t1 t2 w).
Proof.
  unfold score_evidence_is_complete, normalize_score_evidence.
  destruct (valid_standard_score t1 t2 w) eqn:Hv.
  - assert (finished t1 t2 w) as Hf by by apply valid_standard_score_iff.
    assert (is_none t1 = false) as -> by (destruct Hf as (a & b & v & -> & _); done).
    rewrite andb_false_r. simpl. rewrite Hv. tauto.
  - assert (~ finished t1 t2 w) as Hf by (rewrite <- valid_standard_score_iff; congruence).
    destruct (has_optional_completed_score queue_id) eqn:Ho; cbn [andb].
    2: { rewrite Hv. intuition congruence. }
    destruct (is_none t1 || _ || _ || _ || _) eqn:Hx; cbn [is_none andb].
    + split; [|done]. intros _. right. split; [done|].
      intros (a & b & v & -> & -> & -> & Ha & Hb & Hw). simpl in Hx.
      destruct (Z.eqb_spec v 1), (Z.eqb_spec v 2), (Z.ltb_spec a 0), (Z.ltb_spec b 0); simpl in Hx;
        try done; lia.
    + apply orb_false_iff in Hx as [[[[Hx1 Hx2]%orb_false_iff Hx3]%orb_false_iff Hx4]%orb_false_iff Hx5].
      destruct t1 as [a|]; [|done]. destruct t2 as [b|]; [|done]. destruct w as [v|]; [|done].
      cbn [is_none andb]. rewrite Hv. split; [done|]. intros [?|[_ Hc]]; [done|]. exfalso. apply Hc.
      bool_props. exists a, b, v. split_and!; try done.
      rewrite !Z.eqb_eq in Hx3.
      destruct Hx3 as [->| ->]; [left|right]; split; try done.
      * destruct (Z.le_gt_cases a b); [done|]. exfalso. apply Hf. exists a, b, 1. split_and!; try done. by left.
      * destruct (Z.le_gt_cases b a); [done|]. exfalso. apply Hf. exists a, b, 2. split_and!; try done. by right.
Qed.

(** Normalisation only ever removes sentinel fragments: it is idempotent,
    it either keeps the triple or clears it as a whole, it never touches a
    finished score or a fixed queue, and it does not change completeness. *)
Theorem normalize_score_evidence_sound queue_id t1 t2 w :
  let n := normalize_score_evidence queue_id t1 t2 w in
  let '(a, b, v) := n in
  normalize_score_evidence queue_id a b v = n /\
  (n = (t1, t2, w) \/ n = (None, None, None)) /\
  (finished t1 t2 w -> n = (t1, t2, w)) /\
  (has_optional_completed_score queue_id = false -> n = (t1, t2, w)) /\
  score_evidence_is_complete queue_id a b v = score_evidence_is_complete queue_id t1 t2 w.
Proof.
  unfold score_evidence_is_complete.
  destruct (normalize_score_evidence queue_id t1 t2 w) as [[a b] v] eqn:En. simpl.
  assert (normalize_score_evidence queue_id a b v = (a, b, v)) as Hid.
  { revert En. unfold normalize_score_evidence.
    destruct (valid_standard_score t1 t2 w) eqn:Hv; [intros [= <- <- <-]; by rewrite Hv|].
    destruct (has_optional_completed_score queue_id && _) eqn:Ho; intros [= <- <- <-]; simpl.
    - by destruct (has_optional_completed_score queue_id).
    - by rewrite Hv, Ho. }
  rewrite Hid. split; [done|]. revert En. unfold normalize_score_evidence. intros En.
  split; [|split; [|split; [|done]]].
  - destruct (valid_standard_score t1 t2 w); [by left|].
    destruct (_ && _); [by right|by left].
  - intros Hf%valid_standard_score_iff. by rewrite Hf in En.
  - intros Ho. rewrite Ho in En. simpl in En. by destruct (valid_standard_score t1 t2 w).
Qed.

Example optional_queue_cases :
  score_evidence_is_complete 10297 (Some 2) None None = true /\
  normalize_score_evidence 10332 (Some 4) (Some (-20)) (Some 1) = (None, None, None) /\
  score_evidence_is_complete 10297 (Some 2) (Some 4) (Some 1) = false /\
  score_evidence_is_complete 486 (Some 4) (Some 2) (Some 1) = true.
Proof. vm_compute. done. Qed.

(** * Regions (src/paladinscat-core/src/region.rs)

    The provider's spellings of a region and the canonical one. *)

Definition region_aliases : list (string * string) := [
  ("north america", "NA"); ("na", "NA");
  ("europe", "EU"); ("eu", "EU");
  ("brazil", "BR"); ("br", "BR");
  ("south america", "SA"); ("sa", "SA");
  ("southeast asia", "SEA"); ("sea", "SEA");
  ("australia", "OCE"); ("oceania", "OCE"); ("oce", "OCE");
  ("japan", "JPN"); ("jpn", "JPN");
  ("russia", "RUS"); ("rus", "RUS");
  ("asia", "ASIA");
  ("latin america north", "Unknown"); ("latam north", "Unknown");
  ("latin america south", "Unknown"); ("latam south", "Unknown");
  ("unknown", "Unknown"); ("", "Unknown")
].

Definition canonical_region (value : string) : string :=
  let trimmed := trim value in
  match find_first (fun a => String.eqb (fst a) (to_ascii_lowercase trimmed)) region_aliases with
  | Some (_, canonical) => canonical
  | None => trimmed
  end.

Example canonical_regions :
  map canonical_region ["Europe"; "North America"; " Japan "; ""; "Mars "; "NA"]
  = ["EU"; "NA"; "JPN"; "Unknown"; "Mars"; "NA"].
Proof. reflexivity. Qed.
