(* ===== verification/WebCompat.v ===== *)
(** * Query compatibility helpers (src/paladinscat-core/src/web_compat.rs) *)

From S2P Require Import Prelude.

Record Pagination := { page : Z; per_page : Z; offset : Z }.

(** [digits.bytes().take_while(u8::is_ascii_digit)]. *)
Fixpoint leading_digits (s : string) : string :=
  match s with
  | String c r => if is_digit c then String c (leading_digits r) else EmptyString
  | EmptyString => EmptyString
  end.

(** [i64::checked_neg]. *)
Definition checked_neg (z : Z) : option Z := if z =? i64_min then None else Some (- z).

(** The sign test on the first byte. *)
Definition split_sign (s : string) : bool * string :=
  match s with
  | String c r => if Ascii.eqb c "-" then (true, r) else if Ascii.eqb c "+" then (false, r) else (false, s)
  | EmptyString => (false, s)
  end.

Definition parse_js_integer (s : string) : option Z :=
  let '(negative, digits) := split_sign (trim_start s) in
  let prefix := leading_digits digits in
  if is_empty prefix then None else
  parsed ← parse_i64 prefix;
  if (negative : bool) then checked_neg parsed else Some parsed.

Definition sat_mul_i64 (x y : Z) : Z := clamp_i64 (x * y).

Definition paginate (page_arg per_page_arg : option string) : Pagination :=
  let page := Z.max (default 1 (parse_js_integer (default "1" page_arg))) 1 in
  let per_page := Z.min (Z.max (default 20 (parse_js_integer (default "20" per_page_arg))) 1) 100 in
  {| page := page; per_page := per_page; offset := sat_mul_i64 (page - 1) per_page |}.

Definition sorting (sort order : option string) (allowed_fields : list string) : string :=
  match sort with
  | Some field =>
      if existsb (String.eqb field) allowed_fields then
        let direction := if bool_decide (order = Some "asc") then "ASC" else "DESC" in
        " ORDER BY " +:+ field +:+ " " +:+ direction
      else EmptyString
  | None => EmptyString
  end.

(** ** Properties *)

Lemma parse_i64_range s z : parse_i64 s = Some z -> in_i64 z.
Proof. apply parse_signed_range. Qed.

Lemma parse_js_integer_range s z : parse_js_integer s = Some z -> in_i64 z.
Proof.
  unfold parse_js_integer. destruct (split_sign (trim_start s)) as [neg digits].
  destruct (is_empty _); [done|]. intros (p & Hp & H)%bind_Some. apply parse_i64_range in Hp.
  destruct neg; [|by simplify_eq]. unfold checked_neg in H.
  destruct (Z.eqb_spec p i64_min); simplify_eq. unfold in_i64, i64_min, i64_max in *. lia.
Qed.

(** Pagination is bounded whatever the query text: the page is at least
    one and an i64, the page size is between 1 and 100, and the offset is the
    product of the skipped pages and the size, clamped at the i64 maximum and
    never negative. *)
Theorem paginate_bounds p q :
  let r := paginate p q in
  1 <= page r <= i64_max /\ 1 <= per_page r <= 100 /\
  0 <= offset r <= i64_max /\
  offset r = Z.min i64_max ((page r - 1) * per_page r).
Proof.
  unfold paginate, sat_mul_i64, clamp_i64. cbn [page per_page offset].
  set (n := default 1 _). set (m := default 20 _).
  assert (n <= i64_max) as Hn.
  { subst n. destruct (parse_js_integer (default "1" p)) as [z|] eqn:E; simpl; [|unfold i64_max; lia].
    apply parse_js_integer_range in E. apply E. }
  clearbody n m. unfold i64_min, i64_max in *. nia.
Qed.

Lemma leading_digits_app s t :
  (forall c r, t = String c r -> is_digit c = false) ->
  (forall n, parse_digits 0 s = Some n -> leading_digits (s +:+ t) = s).
Proof.
  intros Ht. generalize 0. induction s as [|c s IH]; intros a n; simpl.
  - intros _. destruct t as [|c r]; [done|]. simpl. by rewrite (Ht c r eq_refl).
  - destruct (is_digit c); [|done]. intros H. change (String.append s t) with (s +:+ t).
    by erewrite IH.
Qed.

Lemma trim_start_sign c r : ws1 c = false -> byte_of c <> 194 -> byte_of c < 225 ->
  trim_start (String c r) = String c r.
Proof.
  intros H1 H2 H3. unfold trim_start. simpl. rewrite H1. destruct r as [|b r]; [done|].
  assert (ws2 c b = false) as -> by (unfold ws2; by rewrite (proj2 (Z.eqb_neq _ _) H2)).
  destruct r as [|d r]; [done|]. assert (ws3 c b d = false) as ->; [|done].
  unfold ws3. rewrite !(proj2 (Z.eqb_neq (byte_of c) _)) by lia. done.
Qed.

Lemma digit_byte c : is_digit c = true -> 48 <= byte_of c <= 57.
Proof. unfold is_digit. intros H. bool_props. lia. Qed.

(** The parser reads back every number that has an i64 opposite, with any
    tail that does not continue the digits: printing, appending a non-digit
    tail and parsing gives the number; the least i64 alone is rejected. *)
Theorem parse_js_integer_roundtrip z tail :
  in_i64 z ->
  (forall c r, tail = String c r -> is_digit c = false) ->
  parse_js_integer (pretty z +:+ tail) = if z =? i64_min then None else Some z.
Proof.
  intros Hz Ht. unfold parse_js_integer. destruct (decide (0 <= z)) as [Hp|Hp].
  - assert (exists n, z = Z.of_N n) as [n ->] by (exists (Z.to_N z); lia).
    pose proof (parse_i64_pretty _ Hz) as Hparse.
    rewrite pretty_Z_nonneg in *. destruct (pretty_head n) as (c & r & E & Hc).
    pose proof (digit_byte c Hc) as Hb. destruct (digit_not_sign c Hc) as [E1 E2].
    assert (leading_digits (pretty n +:+ tail) = pretty n) as Hl
      by (eapply leading_digits_app; [done|apply parse_digits_pretty]).
    rewrite E in *. change (String c r +:+ tail) with (String c (r +:+ tail)) in *.
    rewrite trim_start_sign by (unfold ws1; lia).
    unfold split_sign. rewrite E1, E2, Hl. cbn [is_empty]. rewrite Hparse. simpl.
    unfold i64_min. rewrite (proj2 (Z.eqb_neq _ _)) by lia. done.
  - destruct z as [|q|q]; [lia|lia|].
    change (pretty (Z.neg q)) with (String "-" (pretty (N.pos q))).
    change (String "-" (pretty (N.pos q)) +:+ tail) with (String "-" (pretty (N.pos q) +:+ tail)).
    rewrite trim_start_sign by (vm_compute; done || lia). cbn [split_sign Ascii.eqb Bool.eqb].
    rewrite (leading_digits_app _ tail Ht (Z.of_N (N.pos q))) by apply parse_digits_pretty.
    destruct (pretty_head (N.pos q)) as (c & r & E & Hc). rewrite E at 1. cbn [is_empty].
    destruct (Z.eqb_spec (Z.neg q) i64_min) as [Hmin|Hmin].
    + assert (q = 9223372036854775808%positive) as -> by (unfold i64_min in Hmin; lia).
      vm_compute. done.
    + change (pretty (N.pos q)) with (pretty (Z.pos q)).
      rewrite parse_i64_pretty by (unfold in_i64, i64_min, i64_max in *; lia). simpl.
      unfold checked_neg, i64_min. done.
Qed.

Lemma parse_js_integer_roundtrip_witness :
  in_i64 (-45) /\ parse_js_integer (pretty (-45) +:+ ".7") = Some (-45).
Proof.
  split; [unfold in_i64, i64_min, i64_max; lia|].
  apply (parse_js_integer_roundtrip (-45) ".7").
  - unfold in_i64, i64_min, i64_max; lia.
  - intros c r [= <- <-]. reflexivity.
Defined.

(** The sort clause cannot carry foreign text into a statement: it is
    empty, or names one of the allowed fields with one of the two directions,
    ascending only when asked for literally. *)
Theorem sorting_allowlisted sort order allowed :
  sorting sort order allowed = EmptyString /\ (forall f, sort = Some f -> f ∉ allowed) \/
  exists f, sort = Some f /\ f ∈ allowed /\
    (sorting sort order allowed = " ORDER BY " +:+ f +:+ " ASC" /\ order = Some "asc" \/
     sorting sort order allowed = " ORDER BY " +:+ f +:+ " DESC" /\ order <> Some "asc").
Proof.
  unfold sorting. destruct sort as [f|]; [|by left].
  destruct (existsb (String.eqb f) allowed) eqn:E.
  - right. exists f. split; [done|]. apply existsb_exists in E as (x & Hx & ->%String.eqb_eq).
    split; [by apply list_elem_of_In|]. case_bool_decide; auto.
  - left. split; [done|]. intros g [= <-] Hin. assert (existsb (String.eqb f) allowed = true); [|congruence].
    apply existsb_exists. exists f. split; [by apply list_elem_of_In|apply String.eqb_refl].
Qed.
