(* ===== verification/Model.v ===== *)
(** * Match details of the relay (hirez-relay-rust/src/model.rs, provider.rs)

    The records a resolution is made of, the readers of the loosely typed
    player rows, the order players are delivered in, and the provider
    interface the resolver is written against. *)

From S2P Require Import Prelude Json.

Record CompletedMatchRequest := {
  req_match_id : Z;
  req_queue_id : option Z;
}.

Inductive CompletedMatchResolutionStatus :=
  CompleteDirect | CompleteRecovered | RecoveryPending | Limited | RosterOnly | Dropped.

#[export] Instance ResolutionStatus_eq_dec : EqDecision CompletedMatchResolutionStatus.
Proof. solve_decision. Defined.

Record MatchDetails := {
  match_id : Z;
  entry_datetime : string;
  map_name : string;
  queue_id : Z;
  duration_seconds : Z;
  minutes : Z;
  region : string;
  team1_score : option Z;
  team2_score : option Z;
  winning_task_force : option Z;
  direct_score_observations : option (list value);
  has_replay : option bool;
  recovery_source : option string;
  recovery_api_calls : option Z;
  recovery_attempted : option bool;
  recovery_terminal : option bool;
  recovery_pending : option bool;
  limited : option bool;
  players : list value;
  extra : gmap string value;
}.

Record CompletedMatchResolution := {
  res_match_id : Z;
  res_queue_id : Z;
  res_status : CompletedMatchResolutionStatus;
  res_match : option MatchDetails;
  res_roster : option (list value);
  res_reason : option string;
}.

(** ** Player rows *)

Definition number_of (v : value) : option Z :=
  or_else (as_u64 v)
    (or_else (n ← as_i64 v; in_range 0 u64_max n) (s ← as_str v; parse_u64 s)).

Definition player_number (player : value) (keys : list string) : Z :=
  default 0 (find_map (fun key => v ← get key player; number_of v) keys).

Definition player_string (player : value) (keys : list string) : string :=
  default EmptyString (find_map (fun key => get key player ≫= as_str) keys).

Definition player_has_error (player : value) : bool :=
  bool_decide (get "has_ret_msg" player ≫= as_bool = Some true)
  || negb (is_empty (trim (player_string player ["ret_msg"]))).

Definition usable_players (players : list value) : list value :=
  filter (fun p => player_has_error p = false) players.

Definition usable_player_count (players : list value) : Z :=
  Z.of_nat (length (filter (fun p => player_has_error p = false) players)).

Definition player_id (player : value) : Z := player_number player ["player_id"].

(** [Ordering::then_with]. *)
Definition then_with (a b : comparison) : comparison :=
  match a with Eq => b | _ => a end.

(** A player with a public id comes before one without. *)
Definition compare_ids (left_id right_id : Z) : comparison :=
  match 0 <? left_id, 0 <? right_id with
  | true, false => Lt
  | false, true => Gt
  | _, _ => Z.compare left_id right_id
  end.

Definition compare_players (left right : value) : comparison :=
  then_with (Z.compare (player_number left ["task_force"; "team_id"])
                       (player_number right ["task_force"; "team_id"]))
  (then_with (compare_ids (player_id left) (player_id right))
  (then_with (String.compare (player_string left ["player_name"]) (player_string right ["player_name"]))
             (Z.compare (player_number left ["champion_id"]) (player_number right ["champion_id"])))).

Definition player_le (left right : value) : bool :=
  match compare_players left right with Gt => false | _ => true end.

Definition sort_players (players : list value) : list value := sort_by player_le players.

(** ** Attribution labels *)

Definition is_label_char (c : ascii) : bool :=
  is_alphanumeric c || Ascii.eqb c "_" || Ascii.eqb c "-".

(** Runs of other characters become one underscore. *)
Fixpoint normalize_label (replacing : bool) (s : string) : string :=
  match s with
  | EmptyString => EmptyString
  | String c r =>
      if is_label_char c then String c (normalize_label false r)
      else if replacing then normalize_label true r
      else String "_" (normalize_label true r)
  end.

Fixpoint drop_underscores (s : string) : string :=
  match s with
  | String c r => if Ascii.eqb c "_" then drop_underscores r else s
  | EmptyString => s
  end.

(** [str::trim_matches('_')]. *)
Definition trim_underscores (s : string) : string :=
  String.rev (drop_underscores (String.rev (drop_underscores s))).

Fixpoint take_chars (n : nat) (s : string) : string :=
  match n, s with
  | S n, String c r => String c (take_chars n r)
  | _, _ => EmptyString
  end.

Definition sanitize_consumer (s : string) : string :=
  let bounded := take_chars 80
    (trim_underscores (normalize_label false (to_ascii_lowercase (trim s)))) in
  if is_empty bounded then "unattributed" else bounded.

(** ** The provider *)

Inductive RelayError :=
  | RelayValidation (m : string)
  | RelayUpstream (m : string)
  | RelayUnsupported (m : string)
  | RelayUnavailable (m : string).

Definition relay_error_to_string (e : RelayError) : string :=
  match e with
  | RelayValidation m | RelayUpstream m | RelayUnsupported m | RelayUnavailable m => m
  end.

Definition status_code (e : RelayError) : Z :=
  match e with
  | RelayValidation _ | RelayUnsupported _ => 400
  | RelayUnavailable _ => 503
  | RelayUpstream _ => 502
  end.

Definition error_code (e : RelayError) : string :=
  match e with
  | RelayValidation _ | RelayUnsupported _ => "VALIDATION_ERROR"
  | RelayUpstream _ => "RELAY_OPERATION_FAILED"
  | RelayUnavailable _ => "RELAY_NOT_READY"
  end.

Class CompletedMatchProvider (W : Type) := {
  provider_details_batch : list Z -> ST W (result (list MatchDetails) RelayError);
  provider_player_batch : Z -> ST W (result (list value) RelayError);
  (** get_match_history_with_usage: the rows and the calls they cost. *)
  provider_history : Z -> Z -> ST W (result (list value * Z) RelayError);
  provider_demo : Z -> ST W (result value RelayError);
  provider_local_players : Z -> ST W (result (list value) RelayError);
}.

(** ** Lemmas *)

Lemma then_with_sym a b a' b' :
  a' = CompOpp a -> b' = CompOpp b -> then_with a' b' = CompOpp (then_with a b).
Proof. intros -> ->. by destruct a. Qed.

Lemma compare_ids_sym a b : compare_ids b a = CompOpp (compare_ids a b).
Proof. unfold compare_ids. repeat case_match; try done; apply Z.compare_antisym. Qed.

Lemma compare_players_sym a b : compare_players b a = CompOpp (compare_players a b).
Proof.
  unfold compare_players. repeat apply then_with_sym.
  - apply Z.compare_antisym.
  - apply compare_ids_sym.
  - apply String.compare_antisym.
  - apply Z.compare_antisym.
Qed.

Lemma player_le_total a b : player_le a b = false -> player_le b a = true.
Proof.
  unfold player_le. rewrite (compare_players_sym a b). by destruct (compare_players a b).
Qed.

Lemma sort_players_perm ps : sort_players ps ≡ₚ ps.
Proof. apply sort_by_perm. Qed.

Lemma length_sort_players ps : length (sort_players ps) = length ps.
Proof. by rewrite sort_players_perm. Qed.

Lemma usable_players_elem p ps : p ∈ usable_players ps <-> player_has_error p = false /\ p ∈ ps.
Proof. unfold usable_players. by rewrite list_elem_of_filter. Qed.

Lemma usable_count_perm ps qs : ps ≡ₚ qs -> usable_player_count ps = usable_player_count qs.
Proof. unfold usable_player_count. by intros ->. Qed.

Lemma number_of_nonneg v n : number_of v = Some n -> in_u64 n.
Proof.
  unfold number_of, or_else. destruct (as_u64 v) eqn:E.
  - destruct v as [| |[]| | |]; simpl in E; simplify_eq. apply in_range_Some in E as [-> ?].
    by intros [= <-].
  - destruct (as_i64 v ≫= _) eqn:E2.
    + apply bind_Some in E2 as (m & _ & [-> H]%in_range_Some). by intros [= <-].
    + intros (s & _ & H)%bind_Some. by apply parse_unsigned_range in H.
Qed.

Lemma player_number_range p ks : in_u64 (player_number p ks).
Proof.
  unfold player_number. destruct (find_map _ ks) as [n|] eqn:E; simpl.
  - apply find_map_Some in E as (k & _ & (v & _ & H)%bind_Some). by eapply number_of_nonneg.
  - unfold in_u64, u64_max. lia.
Qed.

#[global] Arguments sort_players : simpl never.
#[export] Hint Resolve sort_players_perm usable_count_perm player_number_range : cat.
