(* ===== verification/Resolver.v ===== *)
(** * Completed-match resolution (hirez-relay-rust/src/resolver.rs)

    A batch of match ids is answered with one resolution each: directly, from
    the shared detail batch, or by recovery from the roster, the players'
    histories and the demo file.  The provider's calls are effects on a world
    [W]; the five-fold buffering of the history calls is modelled in the order
    in which their results are consumed. *)

From S2P Require Import Prelude Json Queue Model.

Definition RANKED_QUEUE_ID : Z := 486.

(** ** Readers *)

Definition number_field (v : value) (keys : list string) : option Z :=
  find_map (fun key => field ← get key v; number_of field) keys.

Definition string_field (v : value) (keys : list string) : string :=
  default EmptyString (find_map (fun key => get key v ≫= as_str) keys).

Definition to_i32 (z : Z) : option Z := in_range i32_min i32_max z.
Definition to_u32 (z : Z) : option Z := in_range 0 u32_max z.

Definition signed_number_field (v : value) (keys : list string) : option Z :=
  find_map (fun key =>
    field ← get key v;
    or_else (n ← as_i64 field; to_i32 n)
      (or_else (n ← as_u64 field; to_i32 n) (s ← as_str field; parse_i32 s))) keys.

(** ** Scores *)

Record ResolvedScore := { team1 : Z; team2 : Z; winner : Z }.

#[export] Instance ResolvedScore_eq_dec : EqDecision ResolvedScore.
Proof. solve_decision. Defined.

Definition valid_completed_score (team1 team2 winner : Z) : bool :=
  (0 <=? team1) && (0 <=? team2) && ((winner =? 1) || (winner =? 2))
  && (if winner =? 1 then team2 <? team1 else team1 <? team2).

Definition field_present (observation : value) (key : string) : bool :=
  match get key observation with
  | Some v => negb (is_null v) && negb (match as_str v with Some s => is_empty s | None => false end)
  | None => false
  end.

Definition score_bearing (keys : list string) (observation : value) : bool :=
  existsb (field_present observation) keys.

Definition read_score (team1_keys team2_keys winner_keys : list string) (observation : value) :
    option ResolvedScore :=
  t1 ← signed_number_field observation team1_keys;
  t2 ← signed_number_field observation team2_keys;
  w ← signed_number_field observation winner_keys;
  if valid_completed_score t1 t2 w then Some {| team1 := t1; team2 := t2; winner := w |} else None.

(** The loop over the score-bearing observations: [None] as soon as one is
    unreadable, invalid or different from the one before. *)
Fixpoint agree_scores (read : value -> option ResolvedScore) (resolved : option ResolvedScore)
    (observations : list value) : option ResolvedScore :=
  match observations with
  | [] => resolved
  | o :: r =>
      candidate ← read o;
      match resolved with
      | Some previous =>
          if bool_decide (previous = candidate) then agree_scores read (Some candidate) r else None
      | None => agree_scores read (Some candidate) r
      end
  end.

Definition resolve_observed_score (observations : list value)
    (team1_keys team2_keys winner_keys : list string) : option ResolvedScore :=
  let bearing := filter
    (fun o => score_bearing (team1_keys ++ team2_keys ++ winner_keys) o = true) observations in
  if (length bearing <? 2)%nat then None
  else agree_scores (read_score team1_keys team2_keys winner_keys) None bearing.

Definition resolve_direct_score (m : MatchDetails) : option ResolvedScore :=
  observations ← direct_score_observations m;
  resolve_observed_score observations
    ["team1"; "team1_score"; "Team1Score"; "Team1_Score"]
    ["team2"; "team2_score"; "Team2Score"; "Team2_Score"]
    ["winner"; "winning_task_force"; "Winning_TaskForce"; "Winning_Task_Force"].

Definition resolve_history_score (players : list value) : option ResolvedScore :=
  resolve_observed_score players
    ["history_team1_score"] ["history_team2_score"] ["history_winning_task_force"].

(** ** Merging players *)

Definition count_private (ps : list value) : nat :=
  length (filter (fun p => player_id p = 0) ps).

(** The loop of merge_players: a public id is taken once, private rows up to
    the larger of the two private counts. *)
Fixpoint merge_loop (target_private private_count : nat) (public_ids : gset Z) (ps : list value) :
    list value :=
  match ps with
  | [] => []
  | p :: r =>
      let id := player_id p in
      if 0 <? id then
        if bool_decide (id ∈ public_ids) then merge_loop target_private private_count public_ids r
        else p :: merge_loop target_private private_count ({[id]} ∪ public_ids) r
      else if (private_count <? target_private)%nat
      then p :: merge_loop target_private (S private_count) public_ids r
      else merge_loop target_private private_count public_ids r
  end.

Definition merge_players (direct recovered : list value) : list value :=
  merge_loop (Nat.max (count_private direct) (count_private recovered)) 0 ∅ (direct ++ recovered).

(** ** Enrichment from the roster *)

Definition profile_keys : list string := ["ActivePlayerId"; "playerId"; "player_id"; "Id"].

Definition roster_profiles (roster : list value) : gmap Z value :=
  foldl (fun m profile =>
    let id := player_number profile profile_keys in
    if 0 <? id then <[id := profile]> m else m) ∅ roster.

Definition number_or_text (v : value) : option Z :=
  or_else (as_u64 v) (s ← as_str v; parse_u64 s).

Definition missing_text (v : option value) : bool :=
  match v ≫= as_str with Some s => is_empty s | None => true end.

Definition enrich_platform (profile : value) (object : fields) : fields :=
  if missing_text (lookup_field "platform" object) then
    match get "Platform" profile ≫= as_str with
    | Some platform => insert_field "platform" (Str platform) object
    | None => object
    end
  else object.

Definition enrich_level (profile : value) (object : fields) : fields :=
  if default 0 (lookup_field "account_level" object ≫= number_or_text) =? 0 then
    match get "Level" profile ≫= number_or_text with
    | Some level => insert_field "account_level" (Number (NInt level)) object
    | None => object
    end
  else object.

Definition enrich_player (profiles : gmap Z value) (player : value) : value :=
  match profiles !! player_number player ["player_id"; "playerId"; "Id"], player with
  | Some profile, Object object => Object (enrich_level profile (enrich_platform profile object))
  | _, _ => player
  end.

Definition enrich_recovered_players (recovered roster : list value) : list value :=
  map (enrich_player (roster_profiles roster)) recovered.

(** ** Match shells *)

Definition with_players (ps : list value) (m : MatchDetails) : MatchDetails :=
  {| match_id := match_id m; entry_datetime := entry_datetime m; map_name := map_name m;
     queue_id := queue_id m; duration_seconds := duration_seconds m; minutes := minutes m;
     region := region m; team1_score := team1_score m; team2_score := team2_score m;
     winning_task_force := winning_task_force m;
     direct_score_observations := direct_score_observations m; has_replay := has_replay m;
     recovery_source := recovery_source m; recovery_api_calls := recovery_api_calls m;
     recovery_attempted := recovery_attempted m; recovery_terminal := recovery_terminal m;
     recovery_pending := recovery_pending m; limited := limited m;
     players := ps; extra := extra m |}.

Definition with_score (s : ResolvedScore) (m : MatchDetails) : MatchDetails :=
  {| match_id := match_id m; entry_datetime := entry_datetime m; map_name := map_name m;
     queue_id := queue_id m; duration_seconds := duration_seconds m; minutes := minutes m;
     region := region m; team1_score := Some (team1 s); team2_score := Some (team2 s);
     winning_task_force := Some (winner s);
     direct_score_observations := direct_score_observations m; has_replay := has_replay m;
     recovery_source := recovery_source m; recovery_api_calls := recovery_api_calls m;
     recovery_attempted := recovery_attempted m; recovery_terminal := recovery_terminal m;
     recovery_pending := recovery_pending m; limited := limited m;
     players := players m; extra := extra m |}.

(** [recovery_attempted = Some(true)] and the three outcome flags. *)
Definition with_flags (terminal pending is_limited : bool) (m : MatchDetails) : MatchDetails :=
  {| match_id := match_id m; entry_datetime := entry_datetime m; map_name := map_name m;
     queue_id := queue_id m; duration_seconds := duration_seconds m; minutes := minutes m;
     region := region m; team1_score := team1_score m; team2_score := team2_score m;
     winning_task_force := winning_task_force m;
     direct_score_observations := direct_score_observations m; has_replay := has_replay m;
     recovery_source := recovery_source m; recovery_api_calls := recovery_api_calls m;
     recovery_attempted := Some true; recovery_terminal := Some terminal;
     recovery_pending := Some pending; limited := Some is_limited;
     players := players m; extra := extra m |}.

Definition with_source (source : string) (api_calls : Z) (m : MatchDetails) : MatchDetails :=
  {| match_id := match_id m; entry_datetime := entry_datetime m; map_name := map_name m;
     queue_id := queue_id m; duration_seconds := duration_seconds m; minutes := minutes m;
     region := region m; team1_score := team1_score m; team2_score := team2_score m;
     winning_task_force := winning_task_force m;
     direct_score_observations := direct_score_observations m; has_replay := has_replay m;
     recovery_source := Some source; recovery_api_calls := Some api_calls;
     recovery_attempted := recovery_attempted m; recovery_terminal := recovery_terminal m;
     recovery_pending := recovery_pending m; limited := limited m;
     players := players m; extra := extra m |}.

Definition with_queue (q : Z) (m : MatchDetails) : MatchDetails :=
  {| match_id := match_id m; entry_datetime := entry_datetime m; map_name := map_name m;
     queue_id := q; duration_seconds := duration_seconds m; minutes := minutes m;
     region := region m; team1_score := team1_score m; team2_score := team2_score m;
     winning_task_force := winning_task_force m;
     direct_score_observations := direct_score_observations m; has_replay := has_replay m;
     recovery_source := recovery_source m; recovery_api_calls := recovery_api_calls m;
     recovery_attempted := recovery_attempted m; recovery_terminal := recovery_terminal m;
     recovery_pending := recovery_pending m; limited := limited m;
     players := players m; extra := extra m |}.

Definition with_extra (e : gmap string value) (m : MatchDetails) : MatchDetails :=
  {| match_id := match_id m; entry_datetime := entry_datetime m; map_name := map_name m;
     queue_id := queue_id m; duration_seconds := duration_seconds m; minutes := minutes m;
     region := region m; team1_score := team1_score m; team2_score := team2_score m;
     winning_task_force := winning_task_force m;
     direct_score_observations := direct_score_observations m; has_replay := has_replay m;
     recovery_source := recovery_source m; recovery_api_calls := recovery_api_calls m;
     recovery_attempted := recovery_attempted m; recovery_terminal := recovery_terminal m;
     recovery_pending := recovery_pending m; limited := limited m;
     players := players m; extra := e |}.

Definition ban_key (slot : Z) : string := "ban_id_" +:+ pretty slot.

Definition attach_recovery_bans (m : MatchDetails) : MatchDetails :=
  match players m with
  | [] => m
  | player :: _ =>
      with_extra (foldl (fun e slot =>
        <[ban_key slot := Number (NInt (default 0 (number_field player [ban_key slot])))]> e)
        (extra m) [1; 2; 3; 4; 5; 6; 7; 8]) m
  end.

Definition terminalize (request : CompletedMatchRequest) (m : MatchDetails)
    (status : CompletedMatchResolutionStatus) (reason : option string) : CompletedMatchResolution :=
  {| res_match_id := req_match_id request;
     res_queue_id := Z.max (queue_id m) (default 0 (req_queue_id request));
     res_status := status; res_match := Some (with_players (sort_players (players m)) m);
     res_roster := None; res_reason := reason |}.

Definition dropped (request : CompletedMatchRequest) (reason : string) : CompletedMatchResolution :=
  {| res_match_id := req_match_id request; res_queue_id := default 0 (req_queue_id request);
     res_status := Dropped; res_match := None; res_roster := None; res_reason := Some reason |}.

(** ** Decisions *)

Definition needs_recovery (m : MatchDetails) : bool :=
  let count := usable_player_count (players m) in
  if match to_i32 (queue_id m) with Some q => has_variable_human_roster q | None => false end
  then count =? 0 else negb (count =? 10).

Definition is_recoverable_match_detail_error (e : RelayError) : bool :=
  let message := to_ascii_lowercase (relay_error_to_string e) in
  contains "hirez_unknown_return" message || contains "int16" message
  || contains "skin_id" message || contains "skin id" message
  || contains "too large" message || contains "too small" message.

Fixpoint validate_each (seen : gset Z) (requests : list CompletedMatchRequest) :
    result unit RelayError :=
  match requests with
  | [] => Ok tt
  | request :: r =>
      if req_match_id request =? 0 then Err (RelayValidation "matchId must be a positive integer")
      else if bool_decide (req_match_id request ∈ seen)
      then Err (RelayValidation ("requests contains duplicate matchId " +:+ pretty (req_match_id request)))
      else if bool_decide (req_queue_id request = Some 0)
      then Err (RelayValidation "queueId must be a positive integer")
      else validate_each ({[req_match_id request]} ∪ seen) r
  end.

Definition validate_requests (requests : list CompletedMatchRequest) : result unit RelayError :=
  if (length requests =? 0)%nat || (10 <? length requests)%nat
  then Err (RelayValidation "requests must contain between 1 and 10 matches")
  else validate_each ∅ requests.

(** A roster row without an error message. *)
Definition no_message (player : value) : bool :=
  match get "ret_msg" player ≫= as_str with
  | Some message => is_empty (trim message)
  | None => true
  end.

Definition usable_roster (roster : list value) : list value :=
  filter (fun p => no_message p = true) roster.

Definition demo_flag (v : option value) : bool :=
  match v with
  | Some v => bool_decide (as_bool v = Some true)
              || match as_str v with Some text => eq_ignore_ascii_case text "y" | None => false end
  | None => false
  end.

Definition shell_from_demo (request : CompletedMatchRequest) (demo : value) : MatchDetails :=
  let region := string_field demo ["Region"; "region"] in
  {| match_id := req_match_id request;
     entry_datetime := string_field demo ["Entry_Datetime"; "entry_datetime"];
     map_name := string_field demo ["Map_Game"; "map"];
     queue_id := default 0 (or_else
       (n ← number_field demo ["Queue"; "match_queue_id"; "Queue_Id"]; to_u32 n)
       (req_queue_id request));
     duration_seconds := default 0
       (n ← number_field demo ["Match_Time"; "Match_Duration"; "duration_seconds"]; to_u32 n);
     minutes := default 0 (n ← number_field demo ["Minutes"; "minutes"]; to_u32 n);
     region := if is_empty region then "Unknown" else region;
     team1_score := None; team2_score := None; winning_task_force := None;
     direct_score_observations := None;
     has_replay := Some (demo_flag (or_else (get "hasReplay" demo) (get "has_replay" demo)));
     recovery_source := None; recovery_api_calls := None; recovery_attempted := None;
     recovery_terminal := None; recovery_pending := None; limited := None;
     players := []; extra := ∅ |}.

(** ** Recovery *)

Section resolver.
Context {W : Type} `{CompletedMatchProvider W}.

Definition no_facts : string := "relay recovery returned no authoritative match or roster facts".

(** What recover_ranked answers when it has nothing but the partial row. *)
Definition retain_partial (request : CompletedMatchRequest) (direct : option MatchDetails)
    (direct_players : list value) (source : string) (terminal : bool) (reason : string) :
    CompletedMatchResolution :=
  match direct, direct_players with
  | Some partial, _ :: _ =>
      terminalize request
        (attach_recovery_bans (with_flags terminal false true
          (with_source source 1 (with_players direct_players partial))))
        Limited (Some reason)
  | _, _ => dropped request no_facts
  end.

(** One history answer: the target row, and what the call cost. *)
Definition history_target (target : Z) (rows : list value) : option value :=
  find_first (fun row => player_number row ["Match"; "match_id"; "MatchId"] =? target) rows.

Record HistoryTally := { recovered : list value; unresolved : nat; history_api_calls : Z }.

Definition tally_history (target : Z) (t : HistoryTally)
    (history : result (list value * Z) RelayError) : HistoryTally :=
  match history with
  | Ok (rows, api_calls) =>
      match history_target target rows with
      | Some player => {| recovered := recovered t ++ [player]; unresolved := unresolved t;
                          history_api_calls := sat_add_u32 (history_api_calls t) api_calls |}
      | None => {| recovered := recovered t; unresolved := S (unresolved t);
                   history_api_calls := sat_add_u32 (history_api_calls t) api_calls |}
      end
  | Err _ => {| recovered := recovered t; unresolved := S (unresolved t);
                history_api_calls := sat_add_u32 (history_api_calls t) 1 |}
  end.

Fixpoint fetch_histories (target : Z) (missing_ids : list Z) (t : HistoryTally) : ST W HistoryTally :=
  match missing_ids with
  | [] => mret t
  | id :: r =>
      history ← provider_history id target;
      fetch_histories target r (tally_history target t history)
  end.

(** The preflight of recover_ranked: the rows the relay already stores. *)
Definition local_preflight (request : CompletedMatchRequest) (direct : option MatchDetails)
    (direct_players : list value) (direct_ids : gset Z) (local_players : list value) :
    option CompletedMatchResolution :=
  let local_missing := filter (fun p => (0 <? player_id p) = true /\ player_id p ∉ direct_ids) local_players in
  let locally_merged := merge_players direct_players local_missing in
  if (length locally_merged =? 10)%nat then
    shell ← direct;
    if (0 <? queue_id shell) && negb (is_empty (entry_datetime shell)) then
      score ← or_else (resolve_direct_score shell) (resolve_history_score local_missing);
      Some (terminalize request
        (attach_recovery_bans (with_flags false false false (with_source "local_preflight" 0
          (with_score score (with_players locally_merged shell)))))
        CompleteRecovered None)
    else None
  else None.

(** The shell a recovered match is put into, and the calls made so far. *)
Definition recovery_shell (request : CompletedMatchRequest) (direct : option MatchDetails) (calls : Z) :
    ST W (MatchDetails * Z) :=
  match direct with
  | Some m => mret (m, calls)
  | None =>
      demo ← provider_demo (req_match_id request);
      mret (shell_from_demo request (default Null (result_ok demo)), sat_add_u32 calls 1)
  end.

(** The end of recover_ranked, when every answer is in. *)
Definition finish_ranked (request : CompletedMatchRequest) (shell : MatchDetails) (calls : Z)
    (players : list value) (unresolved : nat) (direct_score resolved : option ResolvedScore) :
    CompletedMatchResolution :=
  match resolved with
  | Some score =>
      if (0 <? unresolved)%nat || (length players <? 10)%nat
      then
        terminalize request
          (attach_recovery_bans (with_flags false true false
            (with_source "target_history_unresolved" calls (with_players players shell))))
          RecoveryPending (Some "target_history_unresolved")
      else
        terminalize request
          (with_score score (attach_recovery_bans (with_flags false false false
            (with_source (match direct_score with Some _ => "broken_match" | None => "history" end) calls
              (with_players (sort_players players) shell)))))
          CompleteRecovered None
  | None =>
      terminalize request
        (attach_recovery_bans (with_flags false true false
          (with_source "target_history_unresolved" calls (with_players players shell))))
        RecoveryPending (Some "target_history_unresolved")
  end.

Definition recover_from_roster (request : CompletedMatchRequest) (direct : option MatchDetails)
    (direct_players : list value) (direct_ids : gset Z) (roster : list value) :
    ST W CompletedMatchResolution :=
  let roster_ids := filter (fun id => (0 <? id) = true)
    (map (fun p => player_number p profile_keys) roster) in
  match roster_ids with
  | [] => mret (retain_partial request direct direct_players "no_player_anchors" true "no player anchors")
  | _ :: _ =>
      let missing_ids := filter (fun id => id ∉ direct_ids) roster_ids in
      tally ← fetch_histories (req_match_id request) missing_ids
        {| recovered := []; unresolved := 0; history_api_calls := 0 |};
      let rows := enrich_recovered_players (recovered tally) roster in
      let players := merge_players direct_players rows in
      let calls := sat_add_u32 1 (history_api_calls tally) in
      let direct_score := direct ≫= resolve_direct_score in
      let resolved := or_else direct_score (resolve_history_score rows) in
      shell ← recovery_shell request direct calls;
      mret (finish_ranked request (fst shell) (snd shell) players (unresolved tally) direct_score resolved)
  end.

Definition recover_with_provider (request : CompletedMatchRequest) (direct : option MatchDetails)
    (direct_players : list value) (direct_ids : gset Z) :
    ST W (result CompletedMatchResolution RelayError) :=
  answer ← provider_player_batch (req_match_id request);
  match answer with
  | Ok rows =>
      r ← recover_from_roster request direct direct_players direct_ids (usable_roster rows);
      mret (Ok r)
  | Err _ =>
      mret (Ok (retain_partial request direct direct_players "getplayerbatchfrommatch_failed" false
        "getplayerbatchfrommatch_failed"))
  end.

Definition players_of (direct : option MatchDetails) : list value :=
  match direct with Some m => usable_players (players m) | None => [] end.

Definition public_ids (ps : list value) : gset Z :=
  list_to_set (filter (fun id => (0 <? id) = true) (map player_id ps)).

Definition recover_ranked (request : CompletedMatchRequest) (direct : option MatchDetails) :
    ST W (result CompletedMatchResolution RelayError) :=
  let direct_players := players_of direct in
  let direct_ids := public_ids direct_players in
  if (count_private direct_players =? 0)%nat then
    local_players <-? provider_local_players (req_match_id request);
    match local_preflight request direct direct_players direct_ids local_players with
    | Some resolution => mret (Ok resolution)
    | None => recover_with_provider request direct direct_players direct_ids
    end
  else recover_with_provider request direct direct_players direct_ids.

(** The answer of recover_presence, once the roster answer is in. *)
Definition presence_outcome (request : CompletedMatchRequest) (direct : option MatchDetails)
    (roster_result : result (list value) RelayError) : CompletedMatchResolution :=
  let direct_players := players_of direct in
  match direct, direct_players with
  | Some partial, _ :: _ =>
      let partial := with_flags true false true (with_players direct_players partial) in
      match roster_result with
      | Ok roster =>
          let usable := usable_roster roster in
          {| res_match_id := req_match_id request;
             res_queue_id := Z.max (queue_id partial) (default 0 (req_queue_id request));
             res_status := Limited; res_match := Some partial;
             res_roster := match usable with [] => None | _ :: _ => Some usable end;
             res_reason := Some "presence roster recovered from incomplete detail" |}
      | Err error =>
          terminalize request partial Limited
            (Some ("presence detail retained without roster anchors: " +:+ relay_error_to_string error))
      end
  | _, _ =>
      match roster_result with
      | Ok roster =>
          match usable_roster roster with
          | [] => dropped request "single relay pass returned no match or roster facts"
          | usable =>
              {| res_match_id := req_match_id request; res_queue_id := default 0 (req_queue_id request);
                 res_status := RosterOnly; res_match := None; res_roster := Some usable;
                 res_reason := Some "presence roster recovered without match detail" |}
          end
      | Err error =>
          dropped request ("single relay pass returned no match or roster facts: "
            +:+ relay_error_to_string error)
      end
  end.

Definition recover_presence (request : CompletedMatchRequest) (direct : option MatchDetails) :
    ST W (result CompletedMatchResolution RelayError) :=
  match direct with
  | Some m =>
      if needs_recovery m then
        roster_result ← provider_player_batch (req_match_id request);
        mret (Ok (presence_outcome request direct roster_result))
      else mret (Ok (terminalize request m CompleteDirect None))
  | None =>
      roster_result ← provider_player_batch (req_match_id request);
      mret (Ok (presence_outcome request direct roster_result))
  end.

(** ** The batch *)

(** A request without a queue hint inherits the queue of its row. *)
Definition inherit_queue (request : CompletedMatchRequest) (direct : option MatchDetails) :
    CompletedMatchRequest :=
  match req_queue_id request, direct with
  | None, Some m =>
      if 0 <? queue_id m
      then {| req_match_id := req_match_id request; req_queue_id := Some (queue_id m) |}
      else request
  | _, _ => request
  end.

Definition is_ranked_work (request : CompletedMatchRequest) : bool :=
  match req_queue_id request with Some q => q =? RANKED_QUEUE_ID | None => true end.

Definition resolve_one (request : CompletedMatchRequest) (direct : option MatchDetails) :
    ST W (result CompletedMatchResolution RelayError) :=
  let request := inherit_queue request direct in
  match direct with
  | Some m =>
      if needs_recovery m then
        if is_ranked_work request then recover_ranked request direct else recover_presence request direct
      else mret (Ok (terminalize request m CompleteDirect None))
  | None =>
      if is_ranked_work request then recover_ranked request direct else recover_presence request direct
  end.

Fixpoint resolve_each (work : list (CompletedMatchRequest * option MatchDetails)) :
    ST W (list (result CompletedMatchResolution RelayError)) :=
  match work with
  | [] => mret []
  | (request, direct) :: r =>
      outcome ← resolve_one request direct;
      rest ← resolve_each r;
      mret (outcome :: rest)
  end.

(** [outcomes.into_iter().collect::<Result<_, _>>()]. *)
Fixpoint collect_results {A E} (l : list (result A E)) : result (list A) E :=
  match l with
  | [] => Ok []
  | Err e :: _ => Err e
  | Ok a :: r => match collect_results r with Ok l => Ok (a :: l) | Err e => Err e end
  end.

(** The last row wins when the provider repeats a match id. *)
Definition index_matches (ms : list MatchDetails) : gmap Z MatchDetails :=
  foldl (fun m x => <[match_id x := x]> m) ∅ ms.

Fixpoint assign_work (direct_by_id : gmap Z MatchDetails) (requests : list CompletedMatchRequest) :
    list (CompletedMatchRequest * option MatchDetails) :=
  match requests with
  | [] => []
  | request :: r =>
      (request, direct_by_id !! req_match_id request)
      :: assign_work (delete (req_match_id request) direct_by_id) r
  end.

Definition get_match_details_batch (requests : list CompletedMatchRequest) :
    ST W (result (list CompletedMatchResolution) RelayError) :=
  match validate_requests requests with
  | Err e => mret (Err e)
  | Ok _ =>
      answer ← provider_details_batch (map req_match_id requests);
      match answer with
      | Ok direct_matches =>
          outcomes ← resolve_each (assign_work (index_matches direct_matches) requests);
          mret (collect_results outcomes)
      | Err e =>
          if is_recoverable_match_detail_error e then
            outcomes ← resolve_each (assign_work ∅ requests);
            mret (collect_results outcomes)
          else mret (Err e)
      end
  end.

(** ** Resumption *)

Definition pending_resolution (request : CompletedMatchRequest) (q : Z) (reason : string) :
    CompletedMatchResolution :=
  {| res_match_id := req_match_id request; res_queue_id := q; res_status := RecoveryPending;
     res_match := None; res_roster := None; res_reason := Some reason |}.

(** The shell of a resumed match from the demo file, completed by the hint. *)
Definition resume_shell (request : CompletedMatchRequest) (demo : value) : MatchDetails :=
  let shell := shell_from_demo request demo in
  if queue_id shell =? 0 then with_queue (default 0 (req_queue_id request)) shell else shell.

Definition shell_incomplete (shell : MatchDetails) : bool :=
  (queue_id shell =? 0) || is_empty (entry_datetime shell) || (duration_seconds shell =? 0).

Definition resume_match_recovery (request : CompletedMatchRequest) :
    ST W (result CompletedMatchResolution RelayError) :=
  if req_match_id request =? 0
  then mret (Err (RelayValidation "matchId must be a positive integer"))
  else if bool_decide (req_queue_id request = Some 0)
  then mret (Err (RelayValidation "queueId must be a positive integer"))
  else
    local_players <-? provider_local_players (req_match_id request);
    let players := usable_players local_players in
    match resolve_history_score players with
    | Some score =>
        if negb (length players =? 10)%nat
        then mret (Ok (pending_resolution request (default 0 (req_queue_id request))
          "local recovery evidence is not yet complete"))
        else
          demo ← provider_demo (req_match_id request);
          let shell := resume_shell request (default Null (result_ok demo)) in
          if shell_incomplete shell
          then mret (Ok (pending_resolution request (queue_id shell)
            "demo detail did not provide an authoritative match shell"))
          else
            mret (Ok (terminalize request
              (attach_recovery_bans (with_score score (with_flags false false false
                (with_source "local_resume" 1 (with_players (sort_players players) shell)))))
              CompleteRecovered None))
    | None =>
        mret (Ok (pending_resolution request (default 0 (req_queue_id request))
          "local recovery evidence is not yet complete"))
    end.
End resolver.
