(* ===== verification/ResolverSpec.v ===== *)
(** * What a resolution promises

    The merge of two player lists and the consensus of score observations
    against their specifications; the validation of a batch; and the contract
    of every resolution status. *)

From S2P Require Import Prelude Json Queue Model Resolver.

(** ** Merging *)

Definition is_public (p : value) : Prop := 0 < player_id p.

#[export] Instance is_public_dec p : Decision (is_public p).
Proof. unfold is_public. apply _. Defined.

Lemma player_id_cases p : is_public p \/ player_id p = 0.
Proof.
  unfold is_public. pose proof (player_number_range p ["player_id"]) as [H _].
  unfold player_id in *. lia.
Qed.

(** What one pass of the loop adds to the ids it has seen. *)
Lemma merge_loop_public t c seen ps :
  let out := merge_loop t c seen ps in
  (forall p, p ∈ out -> p ∈ ps /\ (is_public p -> player_id p ∉ seen)) /\
  NoDup (map player_id (filter is_public out)) /\
  (forall p, p ∈ ps -> is_public p -> player_id p ∉ seen ->
     exists q, q ∈ out /\ player_id q = player_id p).
Proof.
  revert c seen. induction ps as [|p r IH]; intros c seen; simpl.
  { split_and!; [set_solver|constructor|set_solver]. }
  destruct (Z.ltb_spec 0 (player_id p)) as [Hp|Hp].
  - case_bool_decide as Hs.
    + destruct (IH c seen) as (H1 & H2 & H3). split_and!; [|done|].
      * intros q Hq. destruct (H1 q Hq). split; [by right|done].
      * intros q [->|Hq]%elem_of_cons; [done|auto].
    + destruct (IH c ({[player_id p]} ∪ seen)) as (H1 & H2 & H3). split_and!.
      * intros q [->|Hq]%elem_of_cons; [by split; [left|]|]. destruct (H1 q Hq). set_solver.
      * rewrite filter_cons_True by done. simpl. constructor; [|done].
        intros (q & Hid & Hq)%list_elem_of_fmap. apply list_elem_of_filter in Hq as [Hpub Hq].
        destruct (H1 q Hq) as [_ Hn]. specialize (Hn Hpub). set_solver.
      * intros q [->|Hq]%elem_of_cons Hpub Hseen; [exists p; split; [by left|done]|].
        destruct (decide (player_id q = player_id p)) as [E|E];
          [exists p; split; [by left|done]|].
        destruct (H3 q) as (q' & ? & ?); [done|done|set_solver|]. exists q'. split; [by right|done].
  - assert (~ is_public p) as Hn by (unfold is_public; lia).
    assert (forall c', (forall q, q ∈ p :: r -> is_public q -> player_id q ∉ seen ->
        exists q', q' ∈ merge_loop t c' seen r /\ player_id q' = player_id q)) as Hcov.
    { intros c' q [->|Hq]%elem_of_cons Hpub Hs; [done|].
      destruct (IH c' seen) as (_ & _ & H3). auto. }
    case_match.
    + destruct (IH (S c) seen) as (H1 & H2 & H3). split_and!.
      * intros q [->|Hq]%elem_of_cons; [by split; [left|]|].
        destruct (H1 q Hq). split; [by right|done].
      * by rewrite filter_cons_False.
      * intros q Hq Hpub Hs. destruct (Hcov (S c) q Hq Hpub Hs) as (q' & ? & ?).
        exists q'. split; [by right|done].
    + destruct (IH c seen) as (H1 & H2 & H3). split_and!; [|done|apply Hcov].
      intros q Hq. destruct (H1 q Hq). split; [by right|done].
Qed.

Lemma count_private_cons p r :
  count_private (p :: r) = ((if (0 <? player_id p)%Z then 0 else 1) + count_private r)%nat.
Proof.
  unfold count_private. destruct (Z.ltb_spec 0 (player_id p)).
  - rewrite filter_cons_False by lia. done.
  - rewrite filter_cons_True; [done|]. destruct (player_id_cases p); [unfold is_public in *; lia|done].
Qed.

Lemma merge_loop_private t c seen ps :
  (c <= t)%nat ->
  count_private (merge_loop t c seen ps) = Nat.min (t - c) (count_private ps).
Proof.
  revert c seen. induction ps as [|p r IH]; intros c seen Hc; [simpl; unfold count_private; simpl; lia|].
  rewrite (count_private_cons p r). simpl. destruct (0 <? player_id p) eqn:E.
  - case_bool_decide; [rewrite IH by done; lia|].
    rewrite count_private_cons, E, IH by done. lia.
  - destruct (Nat.ltb_spec c t).
    + rewrite count_private_cons, E, IH by lia. lia.
    + rewrite IH by done. lia.
Qed.

Lemma count_private_app a b : count_private (a ++ b) = (count_private a + count_private b)%nat.
Proof. unfold count_private. rewrite filter_app, length_app. done. Qed.

(** Merging is a union of players: the result holds only rows of the two
    lists, every public player of either list exactly once, and as many
    private rows as the list that has more of them, so that a private player
    known to both sources is not counted twice. *)
Theorem merge_players_union direct recovered :
  let merged := merge_players direct recovered in
  (forall p, p ∈ merged -> p ∈ direct \/ p ∈ recovered) /\
  NoDup (map player_id (filter is_public merged)) /\
  (forall p, p ∈ direct \/ p ∈ recovered -> is_public p ->
     exists q, q ∈ merged /\ player_id q = player_id p) /\
  count_private merged = Nat.max (count_private direct) (count_private recovered).
Proof.
  unfold merge_players.
  set (t := Nat.max _ _).
  destruct (merge_loop_public t 0 ∅ (direct ++ recovered)) as (H1 & H2 & H3). split_and!.
  - intros p Hp. apply elem_of_app. by apply H1.
  - done.
  - intros p Hp%elem_of_app Hpub. apply H3; [done|done|set_solver].
  - rewrite merge_loop_private, count_private_app by lia. lia.
Qed.

(** ** Score consensus *)

Lemma agree_scores_spec read o s l :
  agree_scores read o l = Some s <->
  Forall (fun x => read x = Some s) l /\ (l = [] -> o = Some s) /\ (forall p, o = Some p -> p = s).
Proof.
  revert o. induction l as [|x r IH]; intros o; simpl.
  - split; [intros ->; split_and!; [done|done|by intros p [= ->]]|intros (_ & H & _); auto].
  - destruct (read x) as [c|] eqn:E; simpl.
    2:{ split; [done|]. intros (H & _). apply Forall_cons in H as [H _]. congruence. }
    rewrite Forall_cons, E. destruct o as [p|].
    + case_bool_decide as Hp; subst.
      * rewrite IH. split.
        -- intros (H1 & H2 & H3). specialize (H3 c eq_refl) as ->. by split_and!; [..|intros p [= ->]].
        -- intros ([[= ->] H1] & _ & H3). by split_and!; [..|intros p [= ->]].
      * split; [done|]. intros ([[= ->] _] & _ & H3). by specialize (H3 p eq_refl).
    + rewrite IH. split.
      * intros (H1 & _ & H3). specialize (H3 c eq_refl) as ->. by split_and!.
      * intros ([[= ->] H1] & _ & _). by split_and!; [..|intros p [= ->]].
Qed.

Lemma read_score_valid k1 k2 k3 o s :
  read_score k1 k2 k3 o = Some s ->
  valid_completed_score (team1 s) (team2 s) (winner s) = true.
Proof.
  unfold read_score. intros (t1 & _ & (t2 & _ & (w & _ & H)%bind_Some)%bind_Some)%bind_Some.
  destruct (valid_completed_score t1 t2 w) eqn:E; [|done]. by injection H as <-.
Qed.

(** A score is only believed by consensus: it is resolved exactly when at
    least two observations carry score fields and every one of them that does
    reads as this same score; a resolved score is a finished one, with a
    winner that has more points. *)
Theorem resolve_observed_score_consensus observations k1 k2 k3 s :
  let bearing := filter (fun o => score_bearing (k1 ++ k2 ++ k3) o = true) observations in
  (resolve_observed_score observations k1 k2 k3 = Some s <->
   (2 <= length bearing)%nat /\ Forall (fun o => read_score k1 k2 k3 o = Some s) bearing) /\
  (resolve_observed_score observations k1 k2 k3 = Some s ->
   valid_completed_score (team1 s) (team2 s) (winner s) = true).
Proof.
  intros bearing. unfold resolve_observed_score. fold bearing.
  assert (forall b : bool, ((if b then None else agree_scores (read_score k1 k2 k3) None bearing) = Some s
    <-> b = false /\ agree_scores (read_score k1 k2 k3) None bearing = Some s)) as Hif.
  { intros []; intuition congruence. }
  rewrite Hif, Nat.ltb_ge, agree_scores_spec. split.
  - split; [by intros (? & ? & _)|]. intros [Hl Hf]. split_and!; [done|done| |done].
    intros E. rewrite E in Hl. simpl in Hl. lia.
  - intros (Hl & Hf & _). destruct bearing as [|o r]; [simpl in Hl; lia|].
    apply Forall_cons in Hf as [Hf _]. by eapply read_score_valid.
Qed.

Lemma observed_score_valid observations k1 k2 k3 s :
  resolve_observed_score observations k1 k2 k3 = Some s ->
  valid_completed_score (team1 s) (team2 s) (winner s) = true.
Proof.
  unfold resolve_observed_score. case_match eqn:E; [done|].
  rewrite agree_scores_spec. intros (Hf & H & _).
  destruct (filter _ observations) as [|o r]; [by specialize (H eq_refl)|].
  apply Forall_cons in Hf as [Hf _]. by eapply read_score_valid.
Qed.

Lemma direct_score_valid m s :
  resolve_direct_score m = Some s -> valid_completed_score (team1 s) (team2 s) (winner s) = true.
Proof. unfold resolve_direct_score. intros (o & _ & H)%bind_Some. by eapply observed_score_valid. Qed.

Lemma history_score_valid ps s :
  resolve_history_score ps = Some s -> valid_completed_score (team1 s) (team2 s) (winner s) = true.
Proof. apply observed_score_valid. Qed.

#[export] Hint Resolve direct_score_valid history_score_valid : cat.

(** ** Validation *)

Lemma validate_each_ok seen rs :
  validate_each seen rs = Ok tt <->
  Forall (fun r => req_match_id r <> 0 /\ req_queue_id r <> Some 0 /\ req_match_id r ∉ seen) rs /\
  NoDup (map req_match_id rs).
Proof.
  revert seen. induction rs as [|r rs IH]; intros seen; simpl.
  { split; [split; constructor|done]. }
  rewrite Forall_cons, NoDup_cons. destruct (Z.eqb_spec (req_match_id r) 0) as [E|E].
  { split; [done|]. intros [[[? _] _] _]. done. }
  case_bool_decide as Hs; [split; [done|]; intros [[[_ [_ ?]] _] _]; done|].
  case_bool_decide as Hq; [split; [done|]; intros [[[_ [? _]] _] _]; done|].
  rewrite IH. split.
  - intros [Hf Hn]. split_and!; try done.
    + eapply Forall_impl; [exact Hf|]. set_solver.
    + intros (x & Hx & Hin)%list_elem_of_fmap. rewrite Forall_forall in Hf.
      destruct (Hf x Hin) as (_ & _ & ?). set_solver.
  - intros ([_ Hf] & Hn1 & Hn2). split; [|done]. rewrite Forall_forall in *. intros x Hx.
    destruct (Hf x Hx) as (? & ? & ?). split_and!; [done|done|].
    assert (req_match_id x <> req_match_id r).
    { intros Heq. apply Hn1. apply list_elem_of_fmap. by exists x. }
    set_solver.
Qed.

(** A batch is accepted exactly when it has one to ten requests with
    pairwise distinct, non-zero match ids and no queue hint of zero; a refused
    batch answers a validation error (status 400) and makes no provider call. *)
Theorem validate_requests_iff {W} `{CompletedMatchProvider W} rs (w : W) :
  (validate_requests rs = Ok tt <->
   (1 <= length rs <= 10)%nat /\ NoDup (map req_match_id rs) /\
   Forall (fun r => req_match_id r <> 0 /\ req_queue_id r <> Some 0) rs) /\
  (validate_requests rs <> Ok tt ->
   exists m, get_match_details_batch rs w = (Err (RelayValidation m), w) /\
     status_code (RelayValidation m) = 400).
Proof.
  split.
  - unfold validate_requests. destruct ((_ =? 0)%nat || _) eqn:E.
    + split; [done|]. intros (Hl & _).
      apply orb_true_iff in E as [E%Nat.eqb_eq|E%Nat.ltb_lt]; lia.
    + bool_props. rewrite validate_each_ok.
      apply Nat.eqb_neq in H0. apply Nat.ltb_ge in H1.
      rewrite !Forall_forall. split.
      * intros [Hf Hn]. split_and!; [lia|lia|done|]. intros x Hx. by destruct (Hf x Hx) as (? & ? & _).
      * intros (_ & Hn & Hf). split; [|done]. intros x Hx. destruct (Hf x Hx). split_and!; [done|done|set_solver].
  - unfold get_match_details_batch. intros Hne.
    assert (forall seen l e, validate_each seen l = Err e -> exists m, e = RelayValidation m) as Hv.
    { intros seen l. revert seen. induction l as [|r l IH]; intros seen e; simpl; [done|].
      repeat case_match; try (intros [= <-]; by eexists). apply IH. }
    destruct (validate_requests rs) as [[]|e] eqn:E; [done|].
    unfold validate_requests in E. case_match; [injection E as <-; by eexists|].
    apply Hv in E as [m ->]. by eexists.
Qed.

(** ** The contract of a status *)

Definition scored (m : MatchDetails) : Prop :=
  exists t1 t2 w, team1_score m = Some t1 /\ team2_score m = Some t2 /\
    winning_task_force m = Some w /\ valid_completed_score t1 t2 w = true.

(** What a consumer may rely on, status by status. *)
Definition honours_status (r : CompletedMatchResolution) : Prop :=
  match res_status r with
  | CompleteDirect => res_roster r = None /\
      exists m, res_match r = Some m /\ needs_recovery m = false
  | CompleteRecovered => res_roster r = None /\
      exists m, res_match r = Some m /\ (10 <= length (players m))%nat /\ scored m /\
        recovery_pending m = Some false /\ limited m = Some false
  | RecoveryPending => res_roster r = None /\
      forall m, res_match r = Some m -> recovery_pending m = Some true
  | Limited =>
      exists m, res_match r = Some m /\ players m <> [] /\
        Forall (fun p => player_has_error p = false) (players m) /\
        limited m = Some true /\ recovery_pending m = Some false
  | RosterOnly => res_match r = None /\
      exists l, res_roster r = Some l /\ l <> [] /\ Forall (fun p => no_message p = true) l
  | Dropped => res_match r = None /\ res_roster r = None
  end.

Record resolution_ok (request : CompletedMatchRequest) (r : CompletedMatchResolution) : Prop := {
  ok_id : res_match_id r = req_match_id request;
  ok_match : forall m, res_match r = Some m -> match_id m = req_match_id request;
  ok_status : honours_status r;
}.

Lemma bans_players m : players (attach_recovery_bans m) = players m.
Proof. unfold attach_recovery_bans. by destruct (players m) eqn:E. Qed.

Lemma bans_match_id m : match_id (attach_recovery_bans m) = match_id m.
Proof. unfold attach_recovery_bans. by destruct (players m) eqn:E. Qed.

Lemma bans_pending m : recovery_pending (attach_recovery_bans m) = recovery_pending m.
Proof. unfold attach_recovery_bans. by destruct (players m) eqn:E. Qed.

Lemma bans_limited m : limited (attach_recovery_bans m) = limited m.
Proof. unfold attach_recovery_bans. by destruct (players m) eqn:E. Qed.

Lemma bans_calls m : recovery_api_calls (attach_recovery_bans m) = recovery_api_calls m.
Proof. unfold attach_recovery_bans. by destruct (players m) eqn:E. Qed.

Lemma bans_scored m : scored m -> scored (attach_recovery_bans m).
Proof. unfold attach_recovery_bans. by destruct (players m) eqn:E. Qed.

Lemma score_scored s m :
  valid_completed_score (team1 s) (team2 s) (winner s) = true -> scored (with_score s m).
Proof. intros Hs. exists (team1 s), (team2 s), (winner s). done. Qed.

Create Rewrite HintDb shells.
#[local] Hint Rewrite bans_players bans_match_id bans_pending bans_limited bans_calls
  length_sort_players : shells.
Ltac shells := repeat (progress (simpl; autorewrite with shells)).

(** The direct match a request was given carries the id it asked for. *)
Definition direct_of (request : CompletedMatchRequest) (direct : option MatchDetails) : Prop :=
  forall m, direct = Some m -> match_id m = req_match_id request.

Lemma needs_recovery_perm m ps :
  ps ≡ₚ players m -> needs_recovery (with_players ps m) = needs_recovery m.
Proof. intros Hp. unfold needs_recovery. simpl. by rewrite (usable_count_perm _ _ Hp). Qed.

Lemma dropped_ok request reason : resolution_ok request (dropped request reason).
Proof. by split. Qed.

Lemma direct_ok request m :
  match_id m = req_match_id request -> needs_recovery m = false ->
  resolution_ok request (terminalize request m CompleteDirect None).
Proof.
  intros Hid Hn. split; simpl; [done|by intros ? [= <-]|].
  unfold honours_status. simpl. split; [done|]. eexists. split; [done|].
  by rewrite needs_recovery_perm by apply sort_players_perm.
Qed.

Lemma usable_no_error ps : Forall (fun p => player_has_error p = false) (usable_players ps).
Proof. apply Forall_forall. intros p Hp. by apply usable_players_elem in Hp as [? _]. Qed.

Lemma sorted_no_error ps :
  Forall (fun p => player_has_error p = false) ps ->
  Forall (fun p => player_has_error p = false) (sort_players ps).
Proof. intros Hf. by rewrite sort_players_perm. Qed.

Lemma sorted_nonempty ps : ps <> [] -> sort_players ps <> [].
Proof.
  intros Hn E. apply Hn. apply length_zero_iff_nil. by rewrite <-(length_sort_players ps), E.
Qed.

Lemma retain_ok request direct ps source terminal reason :
  direct_of request direct -> Forall (fun p => player_has_error p = false) ps ->
  resolution_ok request (retain_partial request direct ps source terminal reason).
Proof.
  intros Hd Hps. unfold retain_partial. destruct direct as [m|]; [|apply dropped_ok].
  destruct ps as [|p r]; [apply dropped_ok|]. split; [done| |].
  - intros x [= <-]. shells. by apply Hd.
  - unfold honours_status. simpl. eexists. split; [done|]. shells. split_and!; try done.
    + by apply sorted_nonempty.
    + by apply sorted_no_error.
Qed.

(** A match put together with a score and ten players. *)
Lemma recovered_ok request m ps source calls s k :
  match_id m = req_match_id request -> (10 <= length ps)%nat ->
  valid_completed_score (team1 s) (team2 s) (winner s) = true ->
  k = terminalize request (attach_recovery_bans (with_flags false false false
        (with_source source calls (with_score s (with_players ps m))))) CompleteRecovered None \/
  k = terminalize request (with_score s (attach_recovery_bans (with_flags false false false
        (with_source source calls (with_players ps m))))) CompleteRecovered None \/
  k = terminalize request (attach_recovery_bans (with_score s (with_flags false false false
        (with_source source calls (with_players ps m))))) CompleteRecovered None ->
  resolution_ok request k.
Proof.
  intros Hid Hl Hs Hk. assert (honours_status k /\ res_match_id k = req_match_id request /\
    forall x, res_match k = Some x -> match_id x = req_match_id request) as (? & ? & ?).
  { destruct Hk as [->|[->| ->]].
    all: unfold honours_status; simpl; split; [split; [done|]|split; [done|]].
    all: try (intros x [= <-]; by shells).
    all: eexists; split; [done|]; shells; split_and!; try done.
    1, 3: apply bans_scored.
    all: by exists (team1 s), (team2 s), (winner s). }
  by split.
Qed.

Section outcomes.
Context {W : Type} `{CompletedMatchProvider W}.

Lemma local_preflight_ok request direct ps ids local r :
  direct_of request direct -> local_preflight request direct ps ids local = Some r ->
  resolution_ok request r.
Proof.
  intros Hd. unfold local_preflight.
  destruct (Nat.eqb_spec (length (merge_players ps (filter (fun p => (0 <? player_id p) = true /\ player_id p ∉ ids) local))) 10)
    as [Hl|]; [|done].
  destruct direct as [m|]; [|done]. simpl.
  destruct ((0 <? queue_id m) && _); [|done].
  intros (s & Hs & Hr)%bind_Some. injection Hr as <-.
  eapply (recovered_ok request m _ _ _ s); [by apply Hd|by rewrite Hl| |left; reflexivity].
  unfold or_else in Hs. destruct (resolve_direct_score m) eqn:E; simplify_eq; eauto with cat.
Qed.

Lemma finish_ok request shell calls ps n direct_score resolved :
  match_id shell = req_match_id request ->
  (forall s, resolved = Some s -> valid_completed_score (team1 s) (team2 s) (winner s) = true) ->
  resolution_ok request (finish_ranked request shell calls ps n direct_score resolved).
Proof.
  intros Hid Hs.
  assert (resolution_ok request (terminalize request
    (attach_recovery_bans (with_flags false true false
      (with_source "target_history_unresolved" calls (with_players ps shell))))
    RecoveryPending (Some "target_history_unresolved"))) as Hp.
  { split; [done| |split; [done|]]; intros x [= <-]; by shells. }
  unfold finish_ranked. destruct resolved as [s|]; [|done].
  destruct (_ || _) eqn:E; [done|]. bool_props. apply Nat.ltb_ge in H1.
  eapply (recovered_ok request shell (sort_players ps) _ _ s); [done| |auto|right; left; reflexivity].
  by rewrite length_sort_players.
Qed.

Lemma recovery_shell_id request direct calls (w : W) :
  direct_of request direct ->
  match_id (fst (run (recovery_shell request direct calls) w)) = req_match_id request.
Proof.
  intros Hd. unfold recovery_shell, run. destruct direct as [m|]; simpl; [by apply Hd|].
  unfold mbind, ST_bind. by destruct (provider_demo _ w).
Qed.

Lemma from_roster_ok request direct ps ids roster (w : W) :
  direct_of request direct -> Forall (fun p => player_has_error p = false) ps ->
  resolution_ok request (run (recover_from_roster request direct ps ids roster) w).
Proof.
  intros Hd Hps. unfold recover_from_roster. destruct (filter _ _) as [|i r].
  { by apply retain_ok. }
  unfold run, mbind, ST_bind. destruct (fetch_histories _ _ _ w) as [t w1].
  destruct (recovery_shell _ _ _ w1) as [sh w2] eqn:Esh. cbn [fst].
  apply finish_ok.
  - pose proof (recovery_shell_id request direct (sat_add_u32 1 (history_api_calls t)) w1 Hd) as Hid.
    unfold run in Hid. by rewrite Esh in Hid.
  - intros s. destruct direct as [m|]; simpl; [|eauto with cat].
    destruct (resolve_direct_score m) eqn:E; simpl; [intros [= <-]|]; eauto with cat.
Qed.

Lemma with_provider_ok request direct ids (w : W) r :
  direct_of request direct ->
  run (recover_with_provider request direct (players_of direct) ids) w = Ok r ->
  resolution_ok request r.
Proof.
  intros Hd. unfold recover_with_provider, run, mbind, ST_bind.
  assert (Forall (fun p => player_has_error p = false) (players_of direct)) as Hps.
  { destruct direct; [apply usable_no_error|constructor]. }
  destruct (provider_player_batch _ w) as [[rows|e] w1].
  - pose proof (from_roster_ok request direct (players_of direct) ids (usable_roster rows) w1 Hd Hps) as Hok.
    unfold run in Hok. destruct (recover_from_roster _ _ _ _ _ w1). by intros [= <-].
  - intros [= <-]. by apply retain_ok.
Qed.

Lemma ranked_ok request direct (w : W) r :
  direct_of request direct -> run (recover_ranked request direct) w = Ok r -> resolution_ok request r.
Proof.
  intros Hd. unfold recover_ranked. destruct (_ =? 0)%nat; [|by apply with_provider_ok].
  unfold run, try_bind. destruct (provider_local_players _ w) as [[local|e] w1]; [|done].
  destruct (local_preflight _ _ _ _ local) as [x|] eqn:E.
  - intros [= <-]. by eapply local_preflight_ok.
  - by apply with_provider_ok.
Qed.

Lemma usable_roster_ok roster : Forall (fun p => no_message p = true) (usable_roster roster).
Proof. apply Forall_forall. intros p Hp. by apply list_elem_of_filter in Hp as [? _]. Qed.

Lemma presence_outcome_ok request direct answer :
  direct_of request direct -> resolution_ok request (presence_outcome request direct answer).
Proof.
  intros Hd. unfold presence_outcome.
  assert (resolution_ok request match answer with
    | Ok roster =>
        match usable_roster roster with
        | [] => dropped request "single relay pass returned no match or roster facts"
        | usable =>
            {| res_match_id := req_match_id request; res_queue_id := default 0 (req_queue_id request);
               res_status := RosterOnly; res_match := None; res_roster := Some usable;
               res_reason := Some "presence roster recovered without match detail" |}
        end
    | Err error => dropped request ("single relay pass returned no match or roster facts: "
        +:+ relay_error_to_string error)
    end) as Hr.
  { destruct answer as [roster|e]; [|apply dropped_ok].
    pose proof (usable_roster_ok roster). destruct (usable_roster roster) as [|p l]; [apply dropped_ok|].
    split; [done|done|]. split; [done|]. by exists (p :: l). }
  destruct direct as [m|]; [|done]. pose proof (usable_no_error (players m)) as Hn.
  unfold players_of. destruct (usable_players (players m)) as [|p l] eqn:E; [done|].
  destruct answer as [roster|e]; split; try done.
  - intros x [= <-]. exact (Hd m eq_refl).
  - unfold honours_status. simpl. eexists. split; [done|]. simpl. by split_and!.
  - intros x [= <-]. exact (Hd m eq_refl).
  - unfold honours_status. simpl. eexists. split; [done|]. simpl. split_and!; try done.
    + by apply sorted_nonempty.
    + by apply sorted_no_error.
Qed.

Lemma presence_ok request direct (w : W) r :
  direct_of request direct -> run (recover_presence request direct) w = Ok r -> resolution_ok request r.
Proof.
  intros Hd. unfold recover_presence, run.
  assert (forall w0, fst ((answer ← provider_player_batch (req_match_id request);
      mret (Ok (presence_outcome request direct answer)) : ST W (result _ RelayError)) w0) = Ok r ->
    resolution_ok request r) as Hp.
  { intros w0. unfold mbind, ST_bind. destruct (provider_player_batch _ w0) as [a w1].
    intros [= <-]. by apply presence_outcome_ok. }
  destruct direct as [m|]; [|apply Hp]. destruct (needs_recovery m) eqn:E; [apply Hp|].
  intros [= <-]. apply direct_ok; [by apply Hd|done].
Qed.

Lemma inherit_id request direct : req_match_id (inherit_queue request direct) = req_match_id request.
Proof. unfold inherit_queue. by repeat case_match. Qed.

Lemma resolution_ok_inherit request direct r :
  resolution_ok (inherit_queue request direct) r -> resolution_ok request r.
Proof. intros [H1 H2 H3]. rewrite inherit_id in *. by split. Qed.

Lemma resolve_one_ok request direct (w : W) r :
  direct_of request direct -> run (resolve_one request direct) w = Ok r -> resolution_ok request r.
Proof.
  intros Hd. assert (direct_of (inherit_queue request direct) direct) as Hd'.
  { intros m Hm. rewrite inherit_id. auto. }
  intros Hr. apply (resolution_ok_inherit request direct). revert Hr. unfold resolve_one.
  destruct direct as [m|]; [destruct (needs_recovery m) eqn:E|].
  2: { intros [= <-]. apply direct_ok; [by apply Hd'|done]. }
  all: destruct (is_ranked_work _); eauto using ranked_ok, presence_ok.
Qed.
End outcomes.
