(* ===== verification/ResolverBatch.v ===== *)
(** * A batch of resolutions, its provider calls and its resumption

    Every resolution of a batch honours its status; what can make a batch
    fail; the calls a casual batch and a resumption are confined to; and the
    truth of the reported number of provider calls. *)

From S2P Require Import Prelude Json Queue Model Resolver ResolverSpec.

Section batch.
Context {W : Type} `{Hprovider : CompletedMatchProvider W}.
Implicit Types (request : CompletedMatchRequest) (w : W).

Lemma resolve_each_ok work w outs :
  Forall (fun x => direct_of (fst x) (snd x)) work ->
  collect_results (run (resolve_each work) w) = Ok outs ->
  Forall2 resolution_ok (map fst work) outs.
Proof.
  revert w outs. induction work as [|[request direct] r IH]; intros w outs Hw; simpl.
  { intros [= <-]. constructor. }
  apply Forall_cons in Hw as [Hd Hw]. unfold run, mbind, ST_bind in *.
  destruct (resolve_one request direct w) as [o w1] eqn:Eo.
  specialize (IH w1). destruct (resolve_each r w1) as [rest w2]. simpl in *.
  destruct o as [x|e]; [|done]. destruct (collect_results rest) as [l|e]; [|done].
  intros [= <-]. constructor; [|by apply IH].
  eapply resolve_one_ok; [done|]. unfold run. by rewrite Eo.
Qed.

Lemma index_matches_id ms i m : index_matches ms !! i = Some m -> match_id m = i.
Proof.
  unfold index_matches. revert i m.
  assert (forall acc : gmap Z MatchDetails, (forall i m, acc !! i = Some m -> match_id m = i) ->
    forall i m, foldl (fun a x => <[match_id x := x]> a) acc ms !! i = Some m -> match_id m = i) as Hg.
  { induction ms as [|x r IH]; intros acc Hacc i m; simpl; [auto|]. apply IH.
    intros j y. rewrite lookup_insert_Some. intros [[<- <-]|[_ ?]]; auto. }
  apply Hg. intros i m. by rewrite lookup_empty.
Qed.

Lemma assign_work_direct (ms : gmap Z MatchDetails) requests :
  (forall i m, ms !! i = Some m -> match_id m = i) ->
  Forall (fun x => direct_of (fst x) (snd x)) (assign_work ms requests) /\
  map fst (assign_work ms requests) = requests.
Proof.
  revert ms. induction requests as [|request r IH]; intros ms Hms; simpl; [by split|].
  destruct (IH (delete (req_match_id request) ms)) as [H1 H2].
  { intros i m. rewrite lookup_delete_Some. intros [_ ?]. auto. }
  split; [|by rewrite H2]. constructor; [|done]. intros m Hm. by apply Hms.
Qed.

Lemma empty_index i m : (∅ : gmap Z MatchDetails) !! i = Some m -> match_id m = i.
Proof. by rewrite lookup_empty. Qed.

(** C3. Whatever the provider answers, a batch that succeeds has one
    resolution per request, in the order of the requests, and each honours the
    contract of its status: a direct match needs no recovery, a recovered one
    has at least ten players and a finished score, a limited one has usable
    players, a roster-only one a usable roster, a dropped one nothing; and a
    match that is delivered is the match that was asked for. *)
Theorem batch_resolutions_ok requests w outs w' :
  get_match_details_batch requests w = (Ok outs, w') -> Forall2 resolution_ok requests outs.
Proof.
  unfold get_match_details_batch. destruct (validate_requests requests); [|done].
  unfold mbind, ST_bind.
  assert (forall ms w1, (forall i m, ms !! i = Some m -> match_id m = i) ->
    (let '(outcomes, w2) := resolve_each (assign_work ms requests) w1 in
     (collect_results outcomes, w2)) = (Ok outs, w') -> Forall2 resolution_ok requests outs) as Hall.
  { intros ms w1 Hms E. destruct (assign_work_direct ms requests Hms) as [Hd Hr].
    rewrite <-Hr. apply (resolve_each_ok _ w1); [done|]. unfold run.
    destruct (resolve_each _ w1). by injection E. }
  destruct (provider_details_batch _ w) as [[ms|e] w1].
  - apply Hall. intros i m. apply index_matches_id.
  - case_match; [|done]. apply Hall, empty_index.
Qed.

(** ** Failures of a batch *)

Lemma recover_with_provider_total request direct ps ids w :
  is_ok (run (recover_with_provider request direct ps ids) w) = true.
Proof.
  unfold recover_with_provider, run, mbind, ST_bind.
  destruct (provider_player_batch _ w) as [[rows|e] w1]; [|done].
  by destruct (recover_from_roster _ _ _ _ _ w1).
Qed.

Lemma resolve_one_error request direct w e :
  run (resolve_one request direct) w = Err e ->
  exists w0, run (provider_local_players (req_match_id request)) w0 = Err e.
Proof.
  assert (forall q, run (recover_ranked q direct) w = Err e ->
    exists w0, run (provider_local_players (req_match_id q)) w0 = Err e) as Hr.
  { intros q. unfold recover_ranked.
    assert (forall w0, run (recover_with_provider q direct (players_of direct)
      (public_ids (players_of direct))) w0 = Err e -> False) as Ht.
    { intros w0 E. pose proof (recover_with_provider_total q direct (players_of direct)
        (public_ids (players_of direct)) w0) as H. by rewrite E in H. }
    destruct (_ =? 0)%nat; [|by intros ?%Ht]. unfold run, try_bind. intros E. exists w.
    destruct (provider_local_players _ w) as [[local|x] w1]; [|by injection E as ->].
    destruct (local_preflight _ _ _ _ local); [done|]. by apply Ht in E. }
  assert (forall q, run (recover_presence q direct) w <> Err e) as Hp.
  { intros q. unfold recover_presence, run, mbind, ST_bind.
    destruct (provider_player_batch (req_match_id q) w). by repeat case_match. }
  unfold resolve_one. intros E. rewrite <-(inherit_id request direct).
  destruct direct as [m|]; [destruct (needs_recovery m); [|done]|].
  all: destruct (is_ranked_work _); [by apply Hr|by apply Hp in E].
Qed.

Lemma collect_error {A E} (l : list (result A E)) e : collect_results l = Err e -> Err e ∈ l.
Proof.
  induction l as [|[a|x] r IH]; simpl; [done| |].
  - destruct (collect_results r); [done|]. intros [= ->]. right. by apply IH.
  - intros [= ->]. by left.
Qed.

Lemma resolve_each_error work w e :
  Err e ∈ run (resolve_each work) w ->
  exists x w0, x ∈ map fst work /\ run (provider_local_players (req_match_id x)) w0 = Err e.
Proof.
  revert w. induction work as [|[request direct] r IH]; intros w; simpl; [set_solver|].
  unfold run, mbind, ST_bind in *. destruct (resolve_one request direct w) as [o w1] eqn:Eo.
  specialize (IH w1). destruct (resolve_each r w1) as [rest w2]. simpl in *.
  intros [<-|Hin]%elem_of_cons.
  - destruct (resolve_one_error request direct w e) as [w0 H]; [unfold run; by rewrite Eo|].
    exists request, w0. split; [by left|done].
  - destruct (IH Hin) as (x & w0 & Hx & He). exists x, w0. split; [by right|done].
Qed.

(** A batch fails only for one of three reasons: it was refused, the
    shared detail call failed with an error that is not one of the malformed
    responses recovery exists for, or the relay's own store failed.  A failing
    roster, history or demo call never fails the batch. *)
Theorem batch_error_sources requests w e w' :
  get_match_details_batch requests w = (Err e, w') ->
  validate_requests requests = Err e \/
  (run (provider_details_batch (map req_match_id requests)) w = Err e /\
   is_recoverable_match_detail_error e = false) \/
  exists request w0, request ∈ requests /\
    run (provider_local_players (req_match_id request)) w0 = Err e.
Proof.
  unfold get_match_details_batch. destruct (validate_requests requests) as [[]|x]; [|intros [= ->]; auto].
  unfold mbind, ST_bind.
  assert (forall ms w1, (forall i m, ms !! i = Some m -> match_id m = i) ->
    (let '(outcomes, w2) := resolve_each (assign_work ms requests) w1 in
     (collect_results outcomes, w2)) = (Err e, w') ->
    exists request w0, request ∈ requests /\
      run (provider_local_players (req_match_id request)) w0 = Err e) as Hall.
  { intros ms w1 Hms E. destruct (assign_work_direct ms requests Hms) as [_ Hr].
    pose proof (resolve_each_error (assign_work ms requests) w1 e) as He. unfold run in He.
    destruct (resolve_each _ w1) as [outs w2]. injection E as E _.
    apply collect_error in E. rewrite Hr in He. auto. }
  unfold run at 1. destruct (provider_details_batch _ w) as [[ms|x] w1]; simpl.
  - intros E. right; right. eapply Hall; [|exact E]. intros i m. apply index_matches_id.
  - destruct (is_recoverable_match_detail_error x) eqn:Ex.
    + intros E. right; right. eapply Hall; [|exact E]. apply empty_index.
    + intros [= <-]. auto.
Qed.

(** ** Which provider calls are made *)

Definition keeps (P : W -> Prop) {A} (m : ST W A) : Prop := forall w, P w -> P (exec m w).

Lemma keeps_ret P {A} (a : A) : keeps P (mret a).
Proof. by intros w. Qed.

Lemma keeps_bind P {A B} (m : ST W A) (k : A -> ST W B) :
  keeps P m -> (forall a, keeps P (k a)) -> keeps P (m ≫= k).
Proof.
  intros Hm Hk w Hw. specialize (Hm w Hw). unfold exec, mbind, ST_bind in *.
  destruct (m w) as [a w1]. by apply Hk.
Qed.

Lemma keeps_try P {A B E} (m : ST W (result A E)) (k : A -> ST W (result B E)) :
  keeps P m -> (forall a, keeps P (k a)) -> keeps P (try_bind m k).
Proof.
  intros Hm Hk w Hw. specialize (Hm w Hw). unfold exec, try_bind in *.
  destruct (m w) as [[a|e] w1]; [by apply Hk|done].
Qed.

Lemma keeps_presence (P : W -> Prop) request direct :
  (forall id, keeps P (provider_player_batch id)) -> keeps P (recover_presence request direct).
Proof.
  intros Hp. unfold recover_presence.
  repeat case_match; try apply keeps_ret; (apply keeps_bind; [apply Hp|intros; apply keeps_ret]).
Qed.

(** A request whose queue hint is known and not the ranked one. *)
Definition casual (request : CompletedMatchRequest) : Prop :=
  exists q, req_queue_id request = Some q /\ q <> RANKED_QUEUE_ID.

Lemma casual_not_ranked request direct :
  casual request -> is_ranked_work (inherit_queue request direct) = false.
Proof.
  intros (q & Hq & Hne). unfold inherit_queue. rewrite Hq. unfold is_ranked_work. rewrite Hq.
  by apply Z.eqb_neq.
Qed.

(** Known casual work is never promoted into the ranked fan-out, whatever
    queue the provider's partial rows claim: a batch whose requests all carry a
    non-ranked queue hint makes no history, demo or local-store call, so any
    property that the detail batch and the roster call keep is kept. *)
Theorem casual_batch_calls (P : W -> Prop) requests w :
  (forall ids, keeps P (provider_details_batch ids)) ->
  (forall id, keeps P (provider_player_batch id)) ->
  Forall casual requests -> P w -> P (exec (get_match_details_batch requests) w).
Proof.
  intros Hd Hp Hc. revert w.
  assert (forall work, Forall casual (map fst work) -> keeps P (resolve_each work)) as Heach.
  { induction work as [|[request direct] r IH]; simpl; [intros; apply keeps_ret|].
    intros [Hr Hrest]%Forall_cons. apply keeps_bind; [|intros o; apply keeps_bind; [auto|intros; apply keeps_ret]].
    unfold resolve_one. rewrite casual_not_ranked by done.
    repeat case_match; try apply keeps_ret; by apply keeps_presence. }
  change (keeps P (get_match_details_batch requests)). unfold get_match_details_batch.
  destruct (validate_requests requests); [|apply keeps_ret].
  apply keeps_bind; [apply Hd|intros [ms|e]].
  - destruct (assign_work_direct (index_matches ms) requests) as [_ E];
      [intros i m; apply index_matches_id|].
    apply keeps_bind; [apply Heach; by rewrite E|intros; apply keeps_ret].
  - case_match; [|apply keeps_ret].
    destruct (assign_work_direct ∅ requests) as [_ E]; [apply empty_index|].
    apply keeps_bind; [apply Heach; by rewrite E|intros; apply keeps_ret].
Qed.

(** ** Resumption *)

Lemma resume_shell_id request demo : match_id (resume_shell request demo) = req_match_id request.
Proof. unfold resume_shell. by case_match. Qed.

(** Resuming a broken match replays neither the detail nor the roster nor
    any history call: what the local store and the demo call keep is kept.  Its
    answer is either pending or a recovered match that honours the contract. *)
Theorem resume_calls_and_outcome (P : W -> Prop) request w :
  (forall id, keeps P (provider_local_players id)) ->
  (forall id, keeps P (provider_demo id)) ->
  P w ->
  P (exec (resume_match_recovery request) w) /\
  match run (resume_match_recovery request) w with
  | Ok r => resolution_ok request r /\
      (res_status r = CompleteRecovered \/ res_status r = RecoveryPending)
  | Err e => req_match_id request = 0 \/ req_queue_id request = Some 0 \/
      run (provider_local_players (req_match_id request)) w = Err e
  end.
Proof.
  intros Hl Hd Hw. split.
  - revert w Hw. change (keeps P (resume_match_recovery request)). unfold resume_match_recovery.
    repeat case_match; try apply keeps_ret.
    apply keeps_try; [apply Hl|intros local].
    repeat case_match; try apply keeps_ret.
    apply keeps_bind; [apply Hd|intros demo]. case_match; apply keeps_ret.
  - assert (forall q reason, resolution_ok request (pending_resolution request q reason)) as Hpend.
    { intros q reason. split; [done|done|]. split; done. }
    unfold run, resume_match_recovery.
    destruct (Z.eqb_spec (req_match_id request) 0) as [|Hid]; [by left|].
    case_bool_decide as Hq; [by right; left|]. unfold try_bind.
    destruct (provider_local_players _ w) as [[local|e] w1]; [|by right; right].
    destruct (resolve_history_score (usable_players local)) as [s|] eqn:Es; [|simpl; auto].
    destruct (Nat.eqb_spec (length (usable_players local)) 10) as [El|]; simpl; [|auto].
    unfold mbind, ST_bind. destruct (provider_demo _ w1) as [demo w2].
    destruct (shell_incomplete _); simpl; [auto|]. split; [|by left].
    eapply (recovered_ok request _ (sort_players (usable_players local)) "local_resume" 1 s).
    + apply resume_shell_id.
    + by rewrite length_sort_players, El.
    + eauto with cat.
    + right; right. reflexivity.
Qed.
End batch.

(** * The reported provider calls, and a concrete provider

    recovery_api_calls is the number of calls a recovery really made; the
    witnesses of the resolver's theorems run on a small in-memory provider in
    the manner of the DummyProvider of the unit tests. *)

(** A meter of provider calls: one per roster or demo call, the reported usage
    of a history call, one for a history call that failed, none for the store. *)
Record metered {W} `{CompletedMatchProvider W} (cost : W -> Z) : Prop := {
  meter_roster : forall id w, cost (exec (provider_player_batch id) w) = cost w + 1;
  meter_demo : forall id w, cost (exec (provider_demo id) w) = cost w + 1;
  meter_local : forall id w, cost (exec (provider_local_players id) w) = cost w;
  meter_history_ok : forall id target w rows n,
    run (provider_history id target) w = Ok (rows, n) ->
    0 <= n /\ cost (exec (provider_history id target) w) = cost w + n;
  meter_history_err : forall id target w e,
    run (provider_history id target) w = Err e ->
    cost (exec (provider_history id target) w) = cost w + 1;
}.

(** How a reported count stands to the calls made: [R made reported]. *)
Record counting (R : Z -> Z -> Prop) : Prop := {
  counting_small : forall k, 0 <= k <= 1 -> R k k;
  counting_add : forall n c k, R n c -> 0 <= k -> R (n + k) (sat_add_u32 c k);
}.

(** A meter of which a history call that failed is only known to keep [R]. *)
Record metered_by {W} `{CompletedMatchProvider W} (R : Z -> Z -> Prop) (cost : W -> Z) : Prop := {
  by_roster : forall id w, cost (exec (provider_player_batch id) w) = cost w + 1;
  by_demo : forall id w, cost (exec (provider_demo id) w) = cost w + 1;
  by_local : forall id w, cost (exec (provider_local_players id) w) = cost w;
  by_history_ok : forall id target w rows n,
    run (provider_history id target) w = Ok (rows, n) ->
    0 <= n /\ cost (exec (provider_history id target) w) = cost w + n;
  by_history_err : forall id target w e n c,
    run (provider_history id target) w = Err e -> R n c ->
    R (n + (cost (exec (provider_history id target) w) - cost w)) (sat_add_u32 c 1);
}.

(** The count of the code, exactly; and a count that is not below it. *)
Definition exactly (n c : Z) : Prop := c = Z.min u32_max n.
Definition at_most (n c : Z) : Prop := Z.min u32_max n <= c.

Lemma counting_exactly : counting exactly.
Proof. split; unfold exactly, sat_add_u32, sat_add, u32_max; lia. Qed.

Lemma counting_at_most : counting at_most.
Proof. split; unfold at_most, sat_add_u32, sat_add, u32_max; lia. Qed.

Lemma metered_exactly {W} `{CompletedMatchProvider W} (cost : W -> Z) : metered cost -> metered_by exactly cost.
Proof.
  intros []. split; try done. intros id target w e n c He Hc. erewrite meter_history_err0 by done.
  replace (n + (cost w + 1 - cost w)) with (n + 1) by lia. by apply counting_add; [apply counting_exactly|..].
Qed.

Section accounting_by.
Context {W : Type} `{Hprovider : CompletedMatchProvider W} (R : Z -> Z -> Prop) (cost : W -> Z).
Hypothesis HR : counting R.
Hypothesis meter : metered_by R cost.

(** What a resolution reports of [n] calls. *)
Definition reports (n : Z) (r : CompletedMatchResolution) : Prop :=
  forall m, res_match r = Some m -> exists c, recovery_api_calls m = Some c /\ R n c.

Lemma R_eq n n' c : R n c -> n = n' -> R n' c.
Proof. by intros H ->. Qed.

Lemma history_cost id target t n w history w' :
  R n (history_api_calls t) ->
  provider_history id target w = (history, w') ->
  R (n + (cost w' - cost w)) (history_api_calls (tally_history target t history)).
Proof.
  intros Ht E.
  pose proof (by_history_ok _ cost meter id target w) as Hok.
  pose proof (by_history_err _ cost meter id target w) as Herr.
  unfold run, exec in *. rewrite E in *. simpl in *.
  destruct history as [[rows k]|e]; simpl.
  - destruct (Hok rows k eq_refl) as [Hk Hc].
    assert (R (n + (cost w' - cost w)) (sat_add_u32 (history_api_calls t) k)) as Hr
      by (eapply R_eq; [by apply (counting_add _ HR)|lia]).
    by destruct (history_target target rows).
  - by apply (Herr e).
Qed.

Lemma fetch_cost target ids t n w :
  R n (history_api_calls t) ->
  R (n + (cost (exec (fetch_histories target ids t) w) - cost w))
    (history_api_calls (run (fetch_histories target ids t) w)).
Proof.
  revert t n w. induction ids as [|id r IH]; intros t n w Ht; simpl.
  { unfold run, exec. simpl. eapply R_eq; [exact Ht|lia]. }
  unfold run, exec, mbind, ST_bind in *. destruct (provider_history id target w) as [h w1] eqn:E.
  eapply R_eq; [apply (IH _ _ w1 (history_cost _ _ _ _ _ _ _ Ht E))|lia].
Qed.

Lemma shell_cost request direct calls n w :
  R n calls ->
  R (n + (cost (exec (recovery_shell request direct calls) w) - cost w))
    (snd (run (recovery_shell request direct calls) w)).
Proof.
  intros Hn. unfold recovery_shell. destruct direct as [m|]; unfold run, exec; simpl.
  - eapply R_eq; [exact Hn|lia].
  - unfold mbind, ST_bind. pose proof (by_demo _ cost meter (req_match_id request) w) as Hd.
    unfold exec in Hd. destruct (provider_demo _ w) as [demo w1]. simpl in *.
    eapply R_eq; [by apply (counting_add _ HR)|lia].
Qed.

Lemma finish_reports request shell n c ps u direct_score resolved :
  R n c -> reports n (finish_ranked request shell c ps u direct_score resolved).
Proof.
  intros Hc m. unfold finish_ranked.
  repeat case_match; intros [= <-]; exists c; split; try done; simpl; by rewrite ?bans_calls.
Qed.

Lemma retain_reports request direct ps source terminal reason :
  reports 1 (retain_partial request direct ps source terminal reason).
Proof.
  intros m. unfold retain_partial. destruct direct; [|done]. destruct ps; [done|].
  intros [= <-]. exists 1. split; [done|]. by apply (counting_small _ HR).
Qed.

Lemma reports_eq n n' r : reports n r -> n = n' -> reports n' r.
Proof. by intros H ->. Qed.

Lemma roster_cost request direct ps ids roster w :
  reports (1 + (cost (exec (recover_from_roster request direct ps ids roster) w) - cost w))
    (run (recover_from_roster request direct ps ids roster) w).
Proof.
  unfold recover_from_roster. destruct (filter _ _) as [|i r].
  { unfold run, exec. simpl. eapply reports_eq; [apply retain_reports|lia]. }
  set (missing := filter _ _). set (t0 := {| recovered := []; unresolved := 0; history_api_calls := 0 |}).
  assert (R 0 (history_api_calls t0)) as H0 by (apply (counting_small _ HR 0); lia).
  pose proof (fetch_cost (req_match_id request) missing t0 0 w H0) as Hf.
  unfold run, exec, mbind, ST_bind in *. cbn [fst snd] in *.
  destruct (fetch_histories _ missing t0 w) as [t w1]. cbn [fst snd] in *.
  assert (R (1 + (cost w1 - cost w)) (sat_add_u32 1 (history_api_calls t))) as Ht.
  { replace (sat_add_u32 1 (history_api_calls t)) with (sat_add_u32 (history_api_calls t) 1)
      by (unfold sat_add_u32, sat_add; f_equal; apply Z.add_comm).
    eapply R_eq; [by apply (counting_add _ HR _ _ 1 Hf)|lia]. }
  pose proof (shell_cost request direct _ _ w1 Ht) as Hs.
  unfold run, exec in Hs. destruct (recovery_shell _ _ _ w1) as [[shell calls] w2]. simpl in *.
  eapply reports_eq; [by apply finish_reports|lia].
Qed.

Lemma provider_reports request direct ps ids w :
  match run (recover_with_provider request direct ps ids) w with
  | Ok r => reports (cost (exec (recover_with_provider request direct ps ids) w) - cost w) r
  | Err _ => True
  end.
Proof.
  unfold recover_with_provider, run, exec, mbind, ST_bind.
  pose proof (by_roster _ cost meter (req_match_id request) w) as Hr. unfold exec in Hr.
  destruct (provider_player_batch _ w) as [[rows|e] w1]; simpl in *.
  - pose proof (roster_cost request direct ps ids (usable_roster rows) w1) as Hc. unfold run, exec in Hc.
    destruct (recover_from_roster _ _ _ _ _ w1) as [x w2]. simpl in *. eapply reports_eq; [exact Hc|lia].
  - eapply reports_eq; [apply retain_reports|lia].
Qed.

Lemma recover_ranked_reports request direct w r :
  run (recover_ranked request direct) w = Ok r ->
  reports (cost (exec (recover_ranked request direct) w) - cost w) r.
Proof.
  intros Hr. unfold recover_ranked in *. destruct (_ =? 0)%nat.
  - unfold run, exec, try_bind in *.
    pose proof (by_local _ cost meter (req_match_id request) w) as Hl. unfold exec in Hl.
    destruct (provider_local_players _ w) as [[local|e] w1]; [|done]. simpl in Hl.
    destruct (local_preflight _ _ _ _ local) as [x|] eqn:Ex.
    + simpl in *. injection Hr as ->. unfold local_preflight in Ex. case_match; [|done].
      destruct direct as [sh|]; [|done]. simpl in Ex. case_match; [|done].
      apply bind_Some in Ex as (s & _ & Es). injection Es as <-. intros m [= <-]. simpl.
      rewrite bans_calls. exists 0. split; [done|]. eapply R_eq; [by apply (counting_small _ HR 0)|lia].
    + pose proof (provider_reports request direct (players_of direct) (public_ids (players_of direct)) w1) as Hp.
      unfold run, exec in Hp. rewrite Hr in Hp. eapply reports_eq; [exact Hp|lia].
  - pose proof (provider_reports request direct (players_of direct) (public_ids (players_of direct)) w) as Hp.
    by rewrite Hr in Hp.
Qed.
End accounting_by.

Section accounting.
Context {W : Type} `{Hprovider : CompletedMatchProvider W} (cost : W -> Z).

(** The recovery tells the truth about its cost: the call count a
    recovered, pending or limited ranked match reports is the number of
    provider calls made for it (saturated at the width of the counter). *)
Theorem recover_ranked_reports_calls (meter : metered cost) request direct w r m :
  run (recover_ranked request direct) w = Ok r -> res_match r = Some m ->
  recovery_api_calls m
  = Some (Z.min u32_max (cost (exec (recover_ranked request direct) w) - cost w)).
Proof.
  intros Hr Hm.
  destruct (recover_ranked_reports exactly cost counting_exactly (metered_exactly cost meter) _ _ _ _ Hr m Hm) as (c & -> & ->).
  done.
Qed.
End accounting.

(** ** A provider in memory *)

Record provider_world := {
  pw_details : list MatchDetails;
  pw_roster : list value;
  pw_histories : list (Z * value);
  pw_demo : value;
  pw_local : list value;
  pw_calls : Z;
}.

Definition charge (w : provider_world) : provider_world :=
  {| pw_details := pw_details w; pw_roster := pw_roster w; pw_histories := pw_histories w;
     pw_demo := pw_demo w; pw_local := pw_local w; pw_calls := pw_calls w + 1 |}.

#[export] Instance memory_provider : CompletedMatchProvider provider_world := {|
  provider_details_batch := fun _ w => (Ok (pw_details w), charge w);
  provider_player_batch := fun _ w => (Ok (pw_roster w), charge w);
  provider_history := fun id _ w =>
    match find_first (fun r => fst r =? id) (pw_histories w) with
    | Some r => (Ok ([snd r], 1), charge w)
    | None => (Err (RelayUpstream "no history"), charge w)
    end;
  provider_demo := fun _ w => (Ok (pw_demo w), charge w);
  provider_local_players := fun _ w => (Ok (pw_local w), w);
|}.

Lemma memory_metered : metered pw_calls.
Proof.
  split; try done.
  - intros id target w rows n. unfold run, exec. simpl. case_match; [|done]. simpl.
    intros [= _ <-]. lia.
  - intros id target w e. unfold run, exec. simpl. by case_match.
Qed.

(** Ten public players, of whom the detail knows nine. *)
Definition row (id : Z) : value :=
  Object [("player_id", Number (NInt id)); ("task_force", Number (NInt (1 + id / 6)));
          ("history_team1_score", Number (NInt 4)); ("history_team2_score", Number (NInt 2));
          ("history_winning_task_force", Number (NInt 1)); ("Match", Number (NInt 777))].
Definition rows (ids : list Z) : list value := map row ids.

Definition observation : value :=
  Object [("team1", Number (NInt 4)); ("team2", Number (NInt 2)); ("winner", Number (NInt 1))].

Definition sample_match (q : Z) (ids : list Z) : MatchDetails :=
  {| match_id := 777; entry_datetime := "7/29/2026 1:00:00 AM"; map_name := "Stone Keep";
     queue_id := q; duration_seconds := 900; minutes := 15; region := "Europe";
     team1_score := None; team2_score := None; winning_task_force := None;
     direct_score_observations := Some [observation; observation]; has_replay := Some true;
     recovery_source := None; recovery_api_calls := None; recovery_attempted := None;
     recovery_terminal := None; recovery_pending := None; limited := None;
     players := rows ids; extra := ∅ |}.

Definition nine : list Z := [1; 2; 3; 4; 5; 6; 7; 8; 9].

Definition sample_provider (q : Z) : provider_world :=
  {| pw_details := [sample_match q nine]; pw_roster := rows (nine ++ [10]);
     pw_histories := [(10, row 10)]; pw_demo := Null; pw_local := []; pw_calls := 0 |}.

Definition ask (q : option Z) : CompletedMatchRequest := {| req_match_id := 777; req_queue_id := q |}.

(** The broken ranked match is recovered: the detail, the roster and the one
    missing history are three calls, of which two belong to the recovery. *)
Example broken_match_recovered :
  match get_match_details_batch [ask (Some 486)] (sample_provider 486) with
  | (Ok [r], w) => res_status r = CompleteRecovered /\ pw_calls w = 3 /\
      (m ← res_match r; recovery_api_calls m) = Some 2 /\
      (m ← res_match r; team1_score m) = Some 4
  | _ => False
  end.
Proof. vm_compute. done. Qed.

(** The same row, asked for as casual work, stops after the roster. *)
Example casual_match_limited :
  match get_match_details_batch [ask (Some 424)] (sample_provider 486) with
  | (Ok [r], w) => res_status r = Limited /\ pw_calls w = 2
  | _ => False
  end.
Proof. vm_compute. done. Qed.

Lemma batch_resolutions_ok_witness :
  exists r w, get_match_details_batch [ask None] (sample_provider 486) = (Ok [r], w) /\
    resolution_ok (ask None) r.
Proof.
  destruct (get_match_details_batch [ask None] (sample_provider 486)) as [[outs|e] w] eqn:E.
  - pose proof (batch_resolutions_ok [ask None] (sample_provider 486) outs w E) as H.
    inversion H as [|a r l outs' Hr Hl]; subst. inversion Hl; subst. exists r, w. split; [reflexivity|exact Hr].
  - vm_compute in E. discriminate E.
Defined.

Lemma batch_error_sources_witness :
  validate_requests [ask (Some 0)] = Err (RelayValidation "queueId must be a positive integer").
Proof.
  destruct (batch_error_sources [ask (Some 0)] (sample_provider 486)
    (RelayValidation "queueId must be a positive integer") (sample_provider 486) eq_refl)
    as [H|[[H _]|(q & w & _ & H)]].
  - exact H.
  - vm_compute in H. discriminate H.
  - unfold run in H. simpl in H. discriminate H.
Defined.

Lemma casual_batch_calls_witness :
  (fun w => pw_local w = []) (exec (get_match_details_batch [ask (Some 424)]) (sample_provider 486)).
Proof.
  apply (casual_batch_calls (fun w => pw_local w = []) [ask (Some 424)] (sample_provider 486)).
  - intros ids w Hw. exact Hw.
  - intros id w Hw. exact Hw.
  - constructor; [|constructor]. exists 424. split; [reflexivity|vm_compute; discriminate].
  - reflexivity.
Defined.

Lemma resume_calls_and_outcome_witness :
  pw_details (exec (resume_match_recovery (ask (Some 486))) (sample_provider 486))
  = [sample_match 486 nine].
Proof.
  exact (proj1 (resume_calls_and_outcome (fun w => pw_details w = [sample_match 486 nine])
    (ask (Some 486)) (sample_provider 486) (fun _ _ H => H) (fun _ _ H => H) eq_refl)).
Defined.

Lemma recover_ranked_reports_calls_witness :
  exists r m, run (recover_ranked (ask (Some 486)) (Some (sample_match 486 nine))) (sample_provider 486) = Ok r /\
    res_match r = Some m /\ recovery_api_calls m = Some 2.
Proof.
  destruct (run (recover_ranked (ask (Some 486)) (Some (sample_match 486 nine))) (sample_provider 486))
    as [r|e] eqn:E; [|vm_compute in E; discriminate E].
  destruct (res_match r) as [m|] eqn:Em.
  - exists r, m. split; [reflexivity|]. split; [exact Em|].
    rewrite (recover_ranked_reports_calls pw_calls memory_metered (ask (Some 486))
      (Some (sample_match 486 nine)) (sample_provider 486) r m E Em).
    vm_compute. reflexivity.
  - vm_compute in E. injection E as <-. discriminate Em.
Defined.
