(* ===== verification/Lifecycle.v ===== *)
(** * The match lifecycle ledger (backend-rust/src/workers/match_lifecycle.rs)

    One row of match_ingest_status per match, shared by every worker process:
    a lease says who may work on the match, the evidence columns say what is
    already known, and plan_match_lifecycle turns the evidence into the next
    actions.  Each SQL statement of the repository is a function on the tables
    at the instant [now()] of its transaction; PostgreSQL runs it atomically on
    the row.  Instants are microseconds. *)

From S2P Require Import Prelude Queue.

Definition TERMINAL_NO_COMPLETED_MATCH_REASON : string := "provider returned no completed match".

(** [$n::int * interval '1 second']. *)
Definition seconds (n : Z) : Z := n * 1000000.

(** [i32::try_from(lease.as_secs()).unwrap_or(i32::MAX)]. *)
Definition lease_seconds (secs : Z) : Z := default i32_max (in_range i32_min i32_max secs).

(** ** Data *)

Inductive MatchDiscoverySource := HourlyDiscovery | ProfileHistory | DirectLookup | Recovery.

Definition source_as_database (s : MatchDiscoverySource) : string :=
  match s with
  | HourlyDiscovery => "hourly_discovery"
  | ProfileHistory => "profile_history"
  | DirectLookup => "direct_lookup"
  | Recovery => "recovery"
  end.

Inductive MatchPopulation := Ranked | Casual | Special | Unknown.

#[export] Instance MatchPopulation_eq_dec : EqDecision MatchPopulation.
Proof. solve_decision. Defined.

Definition population_from_database (s : string) : MatchPopulation :=
  if String.eqb s "ranked" then Ranked
  else if String.eqb s "casual" then Casual
  else if String.eqb s "special" then Special
  else Unknown.

Definition population_as_database (p : MatchPopulation) : string :=
  match p with
  | Ranked => "ranked" | Casual => "casual" | Special => "special" | Unknown => "unknown"
  end.

Record MatchDiscovery := {
  disc_match_id : Z;
  disc_queue_id : option Z;
  disc_source : MatchDiscoverySource;
}.

Record MatchDiscoveryRegistration := {
  reg_match_id : Z;
  reg_population : MatchPopulation;
  needs_work : bool;
}.

Inductive MatchDiscoveryError :=
  | PopulationConflict (match_id : Z) (existing incoming : string)
  | QueueConflict (match_id existing incoming : Z).

Record MatchEvidence := {
  match_id : Z;
  status : string;
  completed_stages : gset string;
  queue_id : option Z;
  population : MatchPopulation;
  acquisition_state : string;
  detail_attempted : bool;
  roster_resolved : bool;
  demo_resolved : bool;
  direct_player_ids : gset Z;
  roster_player_ids : gset Z;
  history_player_ids : gset Z;
  unresolved_player_ids : gset Z;
}.

Inductive MatchLifecycleAction :=
  | FetchDetail
  | FetchRoster
  | FetchHistories (ids : list Z)
  | FetchDemo
  | FinalizeFacts
  | Project (p : MatchPopulation)
  | Complete.

Inductive ParticipantAnchorSource := Direct | Roster | History | Local.

Definition anchor_as_database (s : ParticipantAnchorSource) : string :=
  match s with Direct => "direct" | Roster => "roster" | History => "history" | Local => "local" end.

Record ParticipantAnchor := {
  roster_slot : Z;
  anchor_player_id : Z;
  participant_kind : string;
  anchor_source : string;
}.

Record MatchCheckpoint := {
  cp_queue_id : option Z;
  cp_population : MatchPopulation;
  cp_acquisition_state : string;
  cp_detail_attempted : bool;
  cp_roster_resolved : bool;
  cp_demo_resolved : bool;
  cp_direct_player_count : Z;
  cp_roster_player_count : Z;
  cp_unresolved_player_ids : list Z;
}.

(** ** Planning *)

Definition facts_durable (e : MatchEvidence) : bool :=
  bool_decide ("player_facts" ∈ completed_stages e) && bool_decide ("match_bans" ∈ completed_stages e).

(** The stage that closes the projection of a population. *)
Definition projection_stage (p : MatchPopulation) : option string :=
  match p with
  | Ranked => Some "ranked_stats"
  | Casual => Some "casual_mechanics_stats"
  | Special => Some "special_mechanics_stats"
  | Unknown => None
  end.

Definition projection_complete (e : MatchEvidence) : bool :=
  match projection_stage (population e) with
  | Some stage => bool_decide (stage ∈ completed_stages e)
  | None => false
  end.

(** [sort_unstable] on the ids of a set. *)
Definition sorted_ids (s : gset Z) : list Z := sort_by Z.leb (elements s).

Definition missing_history_ids (e : MatchEvidence) : list Z :=
  let known := direct_player_ids e ∪ history_player_ids e in
  sorted_ids ((roster_player_ids e ∖ known) ∪ (unresolved_player_ids e ∖ known)).

Definition plan_match_lifecycle (e : MatchEvidence) : list MatchLifecycleAction :=
  if facts_durable e then
    if projection_complete e then [Complete]
    else match population e with
         | Unknown => [FinalizeFacts]
         | p => [Project p]
         end
  else if negb (detail_attempted e) then [FetchDetail]
  else if negb (roster_resolved e) then [FetchRoster]
  else
    let histories := match missing_history_ids e with
                     | [] => []
                     | ids => [FetchHistories ids]
                     end in
    let demo := if demo_resolved e then [] else [FetchDemo] in
    match histories ++ demo with
    | [] => [FinalizeFacts]
    | actions => actions
    end.

Definition persisted_roster_is_complete (queue_id : option Z) (recorded_count observed_public_count : Z) :
    bool :=
  match queue_id with
  | Some q => roster_evidence_is_complete q (Z.max (Z.max recorded_count 0) observed_public_count)
  | None => false
  end.

(** ** Tables *)

Record IngestRow := {
  row_status : string;
  row_completed_stages : list string;
  row_source : option string;
  row_attempts : Z;
  row_error_message : option string;
  row_queue_id : option Z;
  row_population : string;
  row_acquisition_state : string;
  detail_attempted_at : option Z;
  roster_resolved_at : option Z;
  demo_resolved_at : option Z;
  row_direct_player_count : Z;
  row_roster_player_count : Z;
  row_unresolved_player_ids : list Z;
  lease_owner : option string;
  lease_until : option Z;
  started_at : Z;
  updated_at : Z;
  completed_at : option Z;
}.

(** The columns no INSERT names take the defaults of the schema. *)
Definition new_row (now : Z) : IngestRow :=
  {| row_status := "processing"; row_completed_stages := []; row_source := None; row_attempts := 0;
     row_error_message := None; row_queue_id := None; row_population := "unknown";
     row_acquisition_state := "discovered"; detail_attempted_at := None; roster_resolved_at := None;
     demo_resolved_at := None; row_direct_player_count := 0; row_roster_player_count := 0;
     row_unresolved_player_ids := []; lease_owner := None; lease_until := None;
     started_at := now; updated_at := now; completed_at := None |}.

Abbreviation ledger := (gmap Z IngestRow).

(** A player row of one of the three classified fact tables. *)
Record PlayerRow := { pr_match_id : Z; pr_player_id : Z; pr_source : option string }.

Record MatchTables := {
  rows : ledger;
  participants : gmap Z (list ParticipantAnchor);
  fact_players : list PlayerRow;
  history_entries : list (Z * Z);
  queue_types : gmap Z (bool * string);
}.

Definition with_rows (r : ledger) (t : MatchTables) : MatchTables :=
  {| rows := r; participants := participants t; fact_players := fact_players t;
     history_entries := history_entries t; queue_types := queue_types t |}.

(** ** Statements on one row *)

Definition coalesce {A} (a b : option A) : option A :=
  match a with Some _ => a | None => b end.

(** SQL's [lease_until > now()]: not true of a NULL lease. *)
Definition lease_live (now : Z) (r : IngestRow) : bool :=
  match lease_until r with Some u => now <? u | None => false end.

Definition owned_by (owner : string) (r : IngestRow) : bool := bool_decide (lease_owner r = Some owner).

(** [lease_owner = $2 AND lease_until > now()]. *)
Definition holds_lease (now : Z) (owner : string) (r : IngestRow) : bool :=
  owned_by owner r && lease_live now r.

Definition terminal_status (s : string) : bool := String.eqb s "complete" || String.eqb s "limited".

(** The WHERE clause of CLAIM_SQL. *)
Definition claimable (now : Z) (owner : string) (r : IngestRow) : bool :=
  negb (terminal_status (row_status r))
  && (match lease_until r with None => true | Some u => u <=? now end || owned_by owner r).

Definition claimed_row (now : Z) (source owner : string) (secs : Z) (r : IngestRow) : IngestRow :=
  {| row_status := if String.eqb (row_status r) "failed" then "processing" else row_status r;
     row_completed_stages := row_completed_stages r;
     row_source := coalesce (row_source r) (Some source);
     row_attempts := row_attempts r + 1;
     row_error_message := row_error_message r; row_queue_id := row_queue_id r;
     row_population := row_population r; row_acquisition_state := row_acquisition_state r;
     detail_attempted_at := detail_attempted_at r; roster_resolved_at := roster_resolved_at r;
     demo_resolved_at := demo_resolved_at r; row_direct_player_count := row_direct_player_count r;
     row_roster_player_count := row_roster_player_count r;
     row_unresolved_player_ids := row_unresolved_player_ids r;
     lease_owner := Some owner; lease_until := Some (now + seconds (lease_seconds secs));
     started_at := started_at r; updated_at := now; completed_at := completed_at r |}.

(** The row CLAIM_SQL inserts for a match it has not met: every other column
    of [claimed_row] on the defaults is what the INSERT writes. *)
Definition inserted_claim (now : Z) (source owner : string) (secs : Z) : IngestRow :=
  claimed_row now source owner secs (new_row now).

(** CLAIM_SQL: the row it returns, and the ledger. *)
Definition claim_statement (now id : Z) (source owner : string) (secs : Z) (l : ledger) :
    option IngestRow * ledger :=
  match l !! id with
  | None => let r := inserted_claim now source owner secs in (Some r, <[id := r]> l)
  | Some r =>
      if claimable now owner r
      then let r' := claimed_row now source owner secs r in (Some r', <[id := r']> l)
      else (None, l)
  end.

(** An UPDATE of the row of a match, under a condition: whether it updated. *)
Definition update_where (id : Z) (cond : IngestRow -> bool) (f : IngestRow -> IngestRow) (l : ledger) :
    bool * ledger :=
  match l !! id with
  | Some r => if cond r then (true, <[id := f r]> l) else (false, l)
  | None => (false, l)
  end.

Definition stamp (flag : bool) (now : Z) (old : option Z) : option Z :=
  if flag then coalesce old (Some now) else old.

(** CHECKPOINT_SQL. *)
Definition checkpoint_row (now : Z) (c : MatchCheckpoint) (r : IngestRow) : IngestRow :=
  {| row_status := row_status r; row_completed_stages := row_completed_stages r;
     row_source := row_source r; row_attempts := row_attempts r;
     row_error_message := row_error_message r;
     row_queue_id := coalesce (cp_queue_id c) (row_queue_id r);
     row_population := if String.eqb (row_population r) "unknown"
                       then population_as_database (cp_population c) else row_population r;
     row_acquisition_state := cp_acquisition_state c;
     detail_attempted_at := stamp (cp_detail_attempted c) now (detail_attempted_at r);
     roster_resolved_at := stamp (cp_roster_resolved c) now (roster_resolved_at r);
     demo_resolved_at := stamp (cp_demo_resolved c) now (demo_resolved_at r);
     row_direct_player_count := cp_direct_player_count c;
     row_roster_player_count := cp_roster_player_count c;
     row_unresolved_player_ids := cp_unresolved_player_ids c;
     lease_owner := lease_owner r; lease_until := lease_until r;
     started_at := started_at r; updated_at := now; completed_at := completed_at r |}.

Definition checkpoint (now id : Z) (owner : string) (c : MatchCheckpoint) (l : ledger) : bool * ledger :=
  update_where id (holds_lease now owner) (checkpoint_row now c) l.

(** The lease columns of RELEASE_SQL, COMPLETE_SQL and the terminal update. *)
Definition released_row (now : Z) (r : IngestRow) : IngestRow :=
  {| row_status := row_status r; row_completed_stages := row_completed_stages r;
     row_source := row_source r; row_attempts := row_attempts r;
     row_error_message := row_error_message r; row_queue_id := row_queue_id r;
     row_population := row_population r; row_acquisition_state := row_acquisition_state r;
     detail_attempted_at := detail_attempted_at r; roster_resolved_at := roster_resolved_at r;
     demo_resolved_at := demo_resolved_at r; row_direct_player_count := row_direct_player_count r;
     row_roster_player_count := row_roster_player_count r;
     row_unresolved_player_ids := row_unresolved_player_ids r;
     lease_owner := None; lease_until := None;
     started_at := started_at r; updated_at := now; completed_at := completed_at r |}.

Definition release (now id : Z) (owner : string) (l : ledger) : bool * ledger :=
  update_where id (owned_by owner) (released_row now) l.

Definition has_stage (stage : string) (r : IngestRow) : bool := bool_decide (stage ∈ row_completed_stages r).

(** The condition of COMPLETE_SQL on the stages of the population. *)
Definition durable_row (r : IngestRow) : bool :=
  has_stage "player_facts" r && has_stage "match_bans" r
  && ((String.eqb (row_population r) "ranked" && has_stage "ranked_stats" r)
      || (String.eqb (row_population r) "casual" && has_stage "casual_mechanics_stats" r)
      || (String.eqb (row_population r) "special" && has_stage "special_mechanics_stats" r)).

Definition completed_row (now : Z) (r : IngestRow) : IngestRow :=
  {| row_status := "complete"; row_completed_stages := row_completed_stages r;
     row_source := row_source r; row_attempts := row_attempts r;
     row_error_message := None; row_queue_id := row_queue_id r;
     row_population := row_population r; row_acquisition_state := "complete";
     detail_attempted_at := detail_attempted_at r; roster_resolved_at := roster_resolved_at r;
     demo_resolved_at := demo_resolved_at r; row_direct_player_count := row_direct_player_count r;
     row_roster_player_count := row_roster_player_count r;
     row_unresolved_player_ids := row_unresolved_player_ids r;
     lease_owner := None; lease_until := None;
     started_at := started_at r; updated_at := now;
     completed_at := coalesce (completed_at r) (Some now) |}.

Definition complete_if_durable (now id : Z) (owner : string) (l : ledger) : bool * ledger :=
  update_where id (fun r => holds_lease now owner r && durable_row r) (completed_row now) l.

(** MARK_TERMINAL_UNAVAILABLE_SQL on a row it may touch, or on a new one. *)
Definition unavailable_row (now queue_id : Z) (source reason : string) (r : IngestRow) : IngestRow :=
  {| row_status := "limited"; row_completed_stages := row_completed_stages r;
     row_source := Some source; row_attempts := row_attempts r + 1;
     row_error_message := Some reason; row_queue_id := coalesce (row_queue_id r) (Some queue_id);
     row_population := row_population r; row_acquisition_state := "unavailable";
     detail_attempted_at := detail_attempted_at r; roster_resolved_at := roster_resolved_at r;
     demo_resolved_at := demo_resolved_at r; row_direct_player_count := row_direct_player_count r;
     row_roster_player_count := row_roster_player_count r;
     row_unresolved_player_ids := row_unresolved_player_ids r;
     lease_owner := None; lease_until := None;
     started_at := started_at r; updated_at := now;
     completed_at := coalesce (completed_at r) (Some now) |}.

Definition mark_terminal_unavailable (now id queue_id : Z) (source : MatchDiscoverySource)
    (reason : string) (l : ledger) : ledger :=
  let f := unavailable_row now queue_id (source_as_database source) reason in
  match l !! id with
  | None => <[id := f (new_row now)]> l
  | Some r => if String.eqb (row_status r) "complete" then l else <[id := f r]> l
  end.

(** ** Registration of a discovery *)

Definition queue_population (types : gmap Z (bool * string)) (queue_id : option Z) : MatchPopulation :=
  match queue_id ≫= (fun q => types !! q) with
  | Some (is_ranked, scope) =>
      if is_ranked || String.eqb scope "ranked" then Ranked
      else if String.eqb scope "casual" then Casual
      else Special
  | None => Unknown
  end.

(** [status = 'limited' AND acquisition_state = 'unavailable' AND error_message
    IS DISTINCT FROM $5]: an unavailable match whose reason is not the
    terminal one may be tried again. *)
Definition reopenable (r : IngestRow) : bool :=
  String.eqb (row_status r) "limited" && String.eqb (row_acquisition_state r) "unavailable"
  && negb (bool_decide (row_error_message r = Some TERMINAL_NO_COMPLETED_MATCH_REASON)).

Definition registered_row (now : Z) (d : MatchDiscovery) (incoming : MatchPopulation) (r : IngestRow) :
    IngestRow :=
  let reopen := reopenable r in
  {| row_status := if reopen then "processing" else row_status r;
     row_completed_stages := row_completed_stages r;
     row_source := coalesce (row_source r) (Some (source_as_database (disc_source d)));
     row_attempts := row_attempts r;
     row_error_message := if reopen then None else row_error_message r;
     row_queue_id := coalesce (row_queue_id r) (disc_queue_id d);
     row_population := if String.eqb (row_population r) "unknown"
                       then population_as_database incoming else row_population r;
     row_acquisition_state := if reopen then "discovered" else row_acquisition_state r;
     detail_attempted_at := detail_attempted_at r; roster_resolved_at := roster_resolved_at r;
     demo_resolved_at := demo_resolved_at r; row_direct_player_count := row_direct_player_count r;
     row_roster_player_count := row_roster_player_count r;
     row_unresolved_player_ids := row_unresolved_player_ids r;
     lease_owner := lease_owner r; lease_until := lease_until r;
     started_at := started_at r;
     updated_at := if String.eqb (row_status r) "complete"
                      || (String.eqb (row_status r) "limited" && negb reopen)
                   then updated_at r else now;
     completed_at := if reopen then None else completed_at r |}.

(** The conflicts a discovery is refused for. *)
Definition discovery_conflict (d : MatchDiscovery) (incoming : MatchPopulation) (r : IngestRow) :
    option MatchDiscoveryError :=
  let existing := population_from_database (row_population r) in
  if negb (bool_decide (existing = Unknown)) && negb (bool_decide (incoming = Unknown))
     && negb (bool_decide (existing = incoming))
  then Some (PopulationConflict (disc_match_id d) (population_as_database existing)
               (population_as_database incoming))
  else match row_queue_id r, disc_queue_id d with
       | Some existing, Some incoming =>
           if existing =? incoming then None
           else Some (QueueConflict (disc_match_id d) existing incoming)
       | _, _ => None
       end.

Definition registration (d : MatchDiscovery) (r : IngestRow) : MatchDiscoveryRegistration :=
  {| reg_match_id := disc_match_id d;
     reg_population := population_from_database (row_population r);
     needs_work := negb (terminal_status (row_status r)) |}.

Definition register_discovery (now : Z) (types : gmap Z (bool * string)) (d : MatchDiscovery) (l : ledger) :
    result MatchDiscoveryRegistration MatchDiscoveryError * ledger :=
  let incoming := queue_population types (disc_queue_id d) in
  match l !! disc_match_id d with
  | Some r =>
      match discovery_conflict d incoming r with
      | Some e => (Err e, l)
      | None =>
          let r' := registered_row now d incoming r in
          (Ok (registration d r'), <[disc_match_id d := r']> l)
      end
  | None =>
      let r' := registered_row now d incoming (new_row now) in
      (Ok (registration d r'), <[disc_match_id d := r']> l)
  end.

(** ** Participants and the evidence of a claim *)

Definition anchor_kinds : list string := ["human"; "private"; "bot"; "unknown"].

(** The constraints of match_ingest_participants: a violated one makes the
    INSERT, and with it the transaction, fail. *)
Definition anchors_admissible (anchors : list ParticipantAnchor) : bool :=
  forallb (fun a => (0 <? roster_slot a) && bool_decide (participant_kind a ∈ anchor_kinds)) anchors
  && bool_decide (NoDup (map roster_slot anchors))
  && bool_decide (NoDup (filter (fun id => 0 < id) (map anchor_player_id anchors))).

Inductive AnchorOutcome := Replaced (b : bool) | ConstraintViolation.

Definition replace_participant_anchors (now id : Z) (owner : string) (anchors : list ParticipantAnchor)
    (t : MatchTables) : AnchorOutcome * MatchTables :=
  match rows t !! id with
  | Some r =>
      if holds_lease now owner r then
        if anchors_admissible anchors then
          (Replaced true,
           {| rows := rows t; participants := <[id := anchors]> (participants t);
              fact_players := fact_players t; history_entries := history_entries t;
              queue_types := queue_types t |})
        else (ConstraintViolation, t)
      else (Replaced false, t)
  | None => (Replaced false, t)
  end.

(** PARTICIPANT_IDS_SQL: the ids and sources of every table that knows a
    player of the match.  Duplicates and order do not survive the sets built
    from the answer. *)
Definition participant_sources (id : Z) (t : MatchTables) : list (Z * string) :=
  filter (fun x => 0 < fst x)
    (map (fun a => (anchor_player_id a, anchor_source a)) (default [] (participants t !! id))
     ++ map (fun p => (pr_player_id p, default "direct" (pr_source p)))
            (filter (fun p => pr_match_id p = id) (fact_players t))).

Definition history_ids (id : Z) (t : MatchTables) : gset Z :=
  list_to_set (filter (fun p => 0 < p) (map snd (filter (fun h => fst h = id) (history_entries t)))).

Definition load_evidence_from_claim (id : Z) (r : IngestRow) (t : MatchTables) : MatchEvidence :=
  let sources := participant_sources id t in
  let roster : gset Z := list_to_set (map fst sources) in
  {| match_id := id;
     status := row_status r;
     completed_stages := list_to_set (row_completed_stages r);
     queue_id := row_queue_id r;
     population := population_from_database (row_population r);
     acquisition_state := row_acquisition_state r;
     detail_attempted := bool_decide (is_Some (detail_attempted_at r));
     roster_resolved := persisted_roster_is_complete (row_queue_id r) (row_roster_player_count r)
                          (Z.of_nat (size roster));
     demo_resolved := bool_decide (is_Some (demo_resolved_at r));
     direct_player_ids := list_to_set (map fst (filter (fun x => snd x = "direct") sources));
     roster_player_ids := roster;
     history_player_ids := history_ids id t;
     unresolved_player_ids := list_to_set (row_unresolved_player_ids r) |}.

Definition claim (now id : Z) (source owner : string) (secs : Z) (t : MatchTables) :
    option MatchEvidence * MatchTables :=
  let '(row, l) := claim_statement now id source owner secs (rows t) in
  let t' := with_rows l t in
  ((fun r => load_evidence_from_claim id r t') <$> row, t').
