(* ===== verification/LifecycleSpec.v ===== *)
(** * Properties of the match lifecycle

    What a plan asks for; when a match is closed; the exclusiveness of a lease
    and the permanence of what is known, over every interleaving of the
    statements of any number of workers; what a registration answers. *)

From S2P Require Import Prelude Queue Lifecycle.

(** ** Plans *)

Lemma sorted_ids_elem i s : i ∈ sorted_ids s <-> i ∈ s.
Proof. unfold sorted_ids. by rewrite sort_by_perm, elem_of_elements. Qed.

Lemma sorted_ids_nodup s : NoDup (sorted_ids s).
Proof. unfold sorted_ids. rewrite sort_by_perm. apply NoDup_elements. Qed.

Lemma sorted_ids_sorted s : LocallySorted (fun a b => (a <=? b) = true) (sorted_ids s).
Proof. apply sort_by_sorted. intros a b. lia. Qed.

(** Everything a match needs before its facts can be finalized is there. *)
Definition evidence_gathered (e : MatchEvidence) : Prop :=
  detail_attempted e = true /\ roster_resolved e = true /\ demo_resolved e = true /\
  (roster_player_ids e ∪ unresolved_player_ids e) ⊆ direct_player_ids e ∪ history_player_ids e.

Lemma missing_elem e i :
  i ∈ missing_history_ids e <->
  (i ∈ roster_player_ids e \/ i ∈ unresolved_player_ids e) /\
  i ∉ direct_player_ids e /\ i ∉ history_player_ids e.
Proof. unfold missing_history_ids. rewrite sorted_ids_elem. set_solver. Qed.

Lemma missing_nil e :
  missing_history_ids e = [] <->
  (roster_player_ids e ∪ unresolved_player_ids e) ⊆ direct_player_ids e ∪ history_player_ids e.
Proof.
  split.
  - intros E i Hi. destruct (decide (i ∈ direct_player_ids e ∪ history_player_ids e)) as [|Hn]; [done|].
    assert (i ∈ missing_history_ids e) as H by (apply missing_elem; set_solver).
    rewrite E in H. by apply elem_of_nil in H.
  - intros Hsub. destruct (missing_history_ids e) as [|i r] eqn:E; [done|].
    assert (i ∈ missing_history_ids e) as H by (rewrite E; by left).
    apply missing_elem in H. set_solver.
Qed.

(** The provider calls an action stands for. *)
Definition is_fetch (a : MatchLifecycleAction) : bool :=
  match a with FetchDetail | FetchRoster | FetchHistories _ | FetchDemo => true | _ => false end.

Lemma elem_of_one (a b : MatchLifecycleAction) : a ∈ [b] <-> a = b.
Proof. by rewrite list_elem_of_singleton. Qed.

Lemma elem_of_two (a b c : MatchLifecycleAction) : a ∈ [b; c] <-> a = b \/ a = c.
Proof. by rewrite elem_of_cons, elem_of_one. Qed.

(** Membership in a plan of one or two actions, then the cases. *)
Ltac plan_cases :=
  split_and!; intros; rewrite ?elem_of_two, ?elem_of_one in *; naive_solver.

(** A plan never repeats work whose result is durable: there is always a
    next action; durable facts are followed by local work only; the detail is
    fetched only if it never was attempted, the roster only while it is
    incomplete, the demo only while unresolved; histories are asked for
    exactly the known participants that have none, each once and in order; the
    facts of a match that has none are finalized exactly when all evidence is
    gathered; and only the projection of the match's own population runs. *)
Theorem plan_never_repeats e :
  let plan := plan_match_lifecycle e in
  plan <> [] /\
  (facts_durable e = true -> forall a, a ∈ plan -> is_fetch a = false) /\
  (FetchDetail ∈ plan <-> facts_durable e = false /\ detail_attempted e = false) /\
  (FetchRoster ∈ plan -> roster_resolved e = false) /\
  (FetchDemo ∈ plan -> demo_resolved e = false) /\
  (forall ids, FetchHistories ids ∈ plan ->
     NoDup ids /\ LocallySorted (fun a b => (a <=? b) = true) ids /\
     forall i, i ∈ ids <-> (i ∈ roster_player_ids e \/ i ∈ unresolved_player_ids e) /\
       i ∉ direct_player_ids e /\ i ∉ history_player_ids e) /\
  (facts_durable e = false -> (plan = [FinalizeFacts] <-> evidence_gathered e)) /\
  (forall p, Project p ∈ plan -> p = population e /\ p <> Unknown).
Proof.
  intros plan. subst plan. unfold plan_match_lifecycle, evidence_gathered.
  rewrite <-missing_nil.
  pose proof (sorted_ids_nodup) as Hnd. pose proof (sorted_ids_sorted) as Hs.
  assert (NoDup (missing_history_ids e)) as Hn by apply Hnd.
  assert (LocallySorted (fun a b => (a <=? b) = true) (missing_history_ids e)) as Hls by apply Hs.
  pose proof (missing_elem e) as Hm. clear Hnd Hs.
  destruct (facts_durable e).
  { destruct (projection_complete e); [|destruct (population e)]; plan_cases. }
  destruct (detail_attempted e); simpl; [|plan_cases].
  destruct (roster_resolved e); simpl; [|plan_cases].
  destruct (missing_history_ids e) as [|i r], (demo_resolved e); simpl; plan_cases.
Qed.

(** ** Closing a match *)

Lemma population_roundtrip p : population_from_database (population_as_database p) = p.
Proof. by destruct p. Qed.

Lemma has_stage_evidence stage id r t :
  has_stage stage r = bool_decide (stage ∈ completed_stages (load_evidence_from_claim id r t)).
Proof. unfold has_stage. apply bool_decide_ext. simpl. set_solver. Qed.

(** The SQL condition and the planner's test are the same predicate. *)
Lemma durable_row_iff id r t :
  durable_row r = facts_durable (load_evidence_from_claim id r t)
                  && projection_complete (load_evidence_from_claim id r t).
Proof.
  set (e := load_evidence_from_claim id r t).
  assert (population e = population_from_database (row_population r)) as Hp by done.
  unfold durable_row, facts_durable, projection_complete.
  rewrite !(has_stage_evidence _ id r t). fold e. f_equal. rewrite Hp.
  unfold population_from_database. clearbody e. clear Hp.
  destruct (String.eqb_spec (row_population r) "ranked") as [->|]; cbn.
  { by rewrite ?orb_false_r. }
  destruct (String.eqb_spec (row_population r) "casual") as [->|]; cbn.
  { by rewrite ?orb_false_r. }
  by destruct (String.eqb (row_population r) "special"); cbn; rewrite ?orb_false_r.
Qed.

Lemma plan_complete_iff e :
  plan_match_lifecycle e = [Complete] <-> facts_durable e && projection_complete e = true.
Proof.
  unfold plan_match_lifecycle. destruct (facts_durable e), (projection_complete e); simpl;
    try (split; [|done]); try done.
  - by destruct (population e).
  - by destruct (detail_attempted e), (roster_resolved e), (missing_history_ids e), (demo_resolved e).
  - by destruct (detail_attempted e), (roster_resolved e), (missing_history_ids e), (demo_resolved e).
Qed.

(** The database and the planner agree on what finished means: for the
    holder of a live lease, complete_if_durable closes the row exactly when
    the plan on the row's evidence is [Complete]; anybody else, or a row that
    is not finished, changes nothing. *)
Theorem complete_iff_planned now id owner t r :
  rows t !! id = Some r ->
  let e := load_evidence_from_claim id r t in
  (holds_lease now owner r = true /\ plan_match_lifecycle e = [Complete] ->
   complete_if_durable now id owner (rows t) = (true, <[id := completed_row now r]> (rows t))) /\
  (~ (holds_lease now owner r = true /\ plan_match_lifecycle e = [Complete]) ->
   complete_if_durable now id owner (rows t) = (false, rows t)).
Proof.
  intros Hr e. unfold complete_if_durable, update_where. rewrite Hr, (durable_row_iff id r t).
  rewrite plan_complete_iff. unfold e.
  destruct (holds_lease now owner r), (facts_durable _ && projection_complete _); simpl; split;
    try done; intros H; try (by destruct H); exfalso; by apply H.
Qed.

(** ** Interleavings

  A statement of some worker, at some instant of the database clock.  The
    clock never runs backwards; the instant is part of the configuration. *)

Inductive actor := By (owner : string) | Unowned | Closing (id : Z).

Inductive ledger_step (types : gmap Z (bool * string)) : actor -> Z -> ledger -> ledger -> Prop :=
| step_claim now id source owner secs l :
    ledger_step types (By owner) now l (snd (claim_statement now id source owner secs l))
| step_checkpoint now id owner c l :
    ledger_step types (By owner) now l (snd (checkpoint now id owner c l))
| step_release now id owner l : ledger_step types (By owner) now l (snd (release now id owner l))
| step_complete now id owner l :
    ledger_step types (By owner) now l (snd (complete_if_durable now id owner l))
| step_unavailable now id q source reason l :
    ledger_step types (Closing id) now l (mark_terminal_unavailable now id q source reason l)
| step_register now d l : ledger_step types Unowned now l (snd (register_discovery now types d l)).

(** A run: its steps, and the instants they happen at. *)
Inductive ledger_run (types : gmap Z (bool * string)) :
    Z -> list (actor * Z) -> ledger -> Z -> ledger -> Prop :=
| run_nil now l : ledger_run types now [] l now l
| run_cons now a now1 tr l l1 now2 l2 :
    now <= now1 -> ledger_step types a now1 l l1 -> ledger_run types now1 tr l1 now2 l2 ->
    ledger_run types now ((a, now1) :: tr) l now2 l2.

Lemma update_where_lookup id cond f l j r :
  snd (update_where id cond f l) !! j = Some r ->
  l !! j = Some r \/ exists r0, j = id /\ l !! j = Some r0 /\ cond r0 = true /\ r = f r0.
Proof.
  unfold update_where. destruct (l !! id) as [r0|] eqn:E; [|by left].
  destruct (cond r0) eqn:Ec; simpl; [|by left].
  rewrite lookup_insert_Some. intros [[<- <-]|[_ ?]]; [right; eauto 6|by left].
Qed.

(** What one step does to the row of a match that is already there. *)
Inductive row_step (types : gmap Z (bool * string)) (now id : Z) : actor -> IngestRow -> IngestRow -> Prop :=
| row_same a r : row_step types now id a r r
| row_claim source owner secs r : claimable now owner r = true ->
    row_step types now id (By owner) r (claimed_row now source owner secs r)
| row_checkpoint owner c r : holds_lease now owner r = true ->
    row_step types now id (By owner) r (checkpoint_row now c r)
| row_release owner r : owned_by owner r = true -> row_step types now id (By owner) r (released_row now r)
| row_complete owner r : holds_lease now owner r = true -> durable_row r = true ->
    row_step types now id (By owner) r (completed_row now r)
| row_unavailable q source reason r : String.eqb (row_status r) "complete" = false ->
    row_step types now id (Closing id) r (unavailable_row now q source reason r)
| row_register d incoming r : discovery_conflict d incoming r = None ->
    incoming = queue_population types (disc_queue_id d) ->
    row_step types now id Unowned r (registered_row now d incoming r).

(** A statement on match [j] leaves the row of another match as it is. *)
Ltac other_row id j :=
  destruct (decide (j = id)) as [->|?];
    [match goal with Hr : _ !! id = Some _ |- _ => rewrite ?Hr end
    |repeat case_match; simpl; rewrite ?lookup_insert_ne by done; eauto using row_step].

Lemma step_row types a now l l' id r :
  ledger_step types a now l l' -> l !! id = Some r ->
  exists r', l' !! id = Some r' /\ row_step types now id a r r'.
Proof.
  intros Hs Hr. destruct Hs as [now j source owner secs l|now j owner c l|now j owner l|now j owner l|now j q source reason l|now d l];
    simpl; unfold claim_statement, checkpoint, release, complete_if_durable, mark_terminal_unavailable,
      register_discovery, update_where.
  - other_row id j. destruct (claimable now owner r) eqn:E; simpl; [rewrite lookup_insert_eq|]; eauto using row_step.
  - other_row id j. destruct (holds_lease now owner r) eqn:E; simpl; [rewrite lookup_insert_eq|]; eauto using row_step.
  - other_row id j. destruct (owned_by owner r) eqn:E; simpl; [rewrite lookup_insert_eq|]; eauto using row_step.
  - other_row id j. destruct (holds_lease now owner r && durable_row r) eqn:E; simpl; [|eauto using row_step].
    bool_props. rewrite lookup_insert_eq. eauto using row_step.
  - other_row id j. destruct (String.eqb (row_status r) "complete") eqn:E; simpl; [|rewrite lookup_insert_eq];
      eauto using row_step.
  - other_row id (disc_match_id d). destruct (discovery_conflict _ _ r) eqn:E; simpl; [eauto using row_step|].
    rewrite lookup_insert_eq. eauto using row_step.
Qed.

Lemma holds_lease_iff now owner r :
  holds_lease now owner r = true <-> lease_owner r = Some owner /\ exists u, lease_until r = Some u /\ now < u.
Proof.
  unfold holds_lease, owned_by, lease_live. rewrite andb_true_iff, bool_decide_eq_true.
  destruct (lease_until r) as [u|].
  - rewrite Z.ltb_lt. split; [intros [? ?]; eauto|intros (? & v & [= <-] & ?); done].
  - split; [by intros [_ ?]|by intros (_ & ? & ? & _)].
Qed.

(** While a lease is live, a step of anybody else that does not close the match
    leaves the lease alone. *)
Lemma row_step_lease types now id a r r' owner u :
  row_step types now id a r r' -> a <> By owner -> a <> Closing id ->
  lease_owner r = Some owner -> lease_until r = Some u -> now < u ->
  lease_owner r' = Some owner /\ lease_until r' = Some u.
Proof.
  intros Hs Ha Hc' Ho Hu Hlt.
  destruct Hs as [a r|source o secs r Hc|o c r Hh|o r Hh|o r Hh _|q source reason r _|d inc r _ _]; try done.
  - exfalso. unfold claimable, owned_by in Hc. rewrite Hu, Ho in Hc. bool_props.
    destruct H0 as [H0|H0]; bool_props; [lia|]. apply bool_decide_eq_true in H0. congruence.
  - exfalso. unfold owned_by in Hh. apply bool_decide_eq_true in Hh. congruence.
  - exfalso. apply holds_lease_iff in Hh as [Hh _]. congruence.
Qed.

(** *** The rest of the backend

    Statements of other files write the ledger too.  Those of the facts
    (match_facts.rs), of the stages (ranked_projection.rs, casual_mechanics.rs)
    and of the ratings (rating.rs) leave the leases of the rows as they are;
    those with which a projection ends (ranked_projection.rs at 78 and 164,
    casual_mechanics.rs at 265) close a match: they complete its row and clear
    its lease, whoever holds it. *)

Definition same_lease (r r' : IngestRow) : Prop := lease_owner r' = lease_owner r /\ lease_until r' = lease_until r.

Inductive backend_step (types : gmap Z (bool * string)) : actor -> Z -> ledger -> ledger -> Prop :=
| backend_statement a now l l' : ledger_step types a now l l' -> backend_step types a now l l'
| backend_facts now l l' :
    (forall id r, l !! id = Some r -> exists r', l' !! id = Some r' /\ same_lease r r') -> backend_step types Unowned now l l'
| backend_closes id now l l' : (forall j, j <> id -> l' !! j = l !! j) -> backend_step types (Closing id) now l l'.

Inductive backend_run (types : gmap Z (bool * string)) :
    Z -> list (actor * Z) -> ledger -> Z -> ledger -> Prop :=
| backend_nil now l : backend_run types now [] l now l
| backend_cons now a now1 tr l l1 now2 l2 :
    now <= now1 -> backend_step types a now1 l l1 -> backend_run types now1 tr l1 now2 l2 ->
    backend_run types now ((a, now1) :: tr) l now2 l2.

Lemma backend_run_clock types now tr l now' l' : backend_run types now tr l now' l' -> now <= now'.
Proof. induction 1; lia. Qed.

Lemma backend_step_lease types a now l l' id r owner u :
  backend_step types a now l l' -> a <> By owner -> a <> Closing id ->
  l !! id = Some r -> lease_owner r = Some owner -> lease_until r = Some u -> now < u ->
  exists r', l' !! id = Some r' /\ lease_owner r' = Some owner /\ lease_until r' = Some u.
Proof.
  intros [a0 now0 l0 l1 Hs|now0 l0 l1 Hs|j now0 l0 l1 Hs] Ha Hc Hr Ho Hu Hlt.
  - destruct (step_row _ _ _ _ _ _ _ Hs Hr) as (r' & Hr' & Hrs). exists r'. split; [done|].
    exact (row_step_lease _ _ _ _ _ _ _ _ Hrs Ha Hc Ho Hu Hlt).
  - destruct (Hs _ _ Hr) as (r' & Hr' & Eo & Eu). exists r'. by rewrite Eo, Eu.
  - exists r. rewrite Hs by congruence. done.
Qed.

(** C2. A lease is exclusive: from the instant a worker holds the lease of a
    match until it expires, whatever statements on the ledger the rest of the
    backend runs and in whatever order, other workers' and those of facts,
    stages and ratings, and short of a closing of this match (marked
    unavailable, or completed by its projection), the worker keeps the lease,
    and every claim, checkpoint, release and completion of another worker is
    refused without effect. *)
Theorem lease_exclusive types now0 tr l now1 l1 id r owner u :
  backend_run types now0 tr l now1 l1 ->
  Forall (fun x => fst x <> By owner /\ fst x <> Closing id) tr ->
  l !! id = Some r -> lease_owner r = Some owner -> lease_until r = Some u -> now1 < u ->
  (exists r1, l1 !! id = Some r1 /\ lease_owner r1 = Some owner /\ lease_until r1 = Some u) /\
  forall other source secs c now, other <> owner -> now < u ->
    claim_statement now id source other secs l1 = (None, l1) /\
    checkpoint now id other c l1 = (false, l1) /\
    release now id other l1 = (false, l1) /\
    complete_if_durable now id other l1 = (false, l1).
Proof.
  intros Hrun Htr Hr Ho Hu Hlt.
  assert (exists r1, l1 !! id = Some r1 /\ lease_owner r1 = Some owner /\ lease_until r1 = Some u)
    as (r1 & Hr1 & Ho1 & Hu1).
  { revert r Hr Ho Hu Htr. induction Hrun as [|now a nowa tr l la nowb lb Hle Hs Hrun IH];
      intros r Hr Ho Hu Htr; [eauto|].
    apply Forall_cons in Htr as [[Ha Hc] Htr]. simpl in Ha, Hc.
    pose proof (backend_run_clock _ _ _ _ _ _ Hrun).
    destruct (backend_step_lease _ _ _ _ _ _ _ _ u Hs Ha Hc Hr Ho Hu) as (r' & Hr' & Ho' & Hu'); [lia|]. eauto. }
  split; [eauto|]. intros other source secs c now Hne Hnow.
  assert (holds_lease now other r1 = false) as Hh.
  { apply not_true_iff_false. rewrite holds_lease_iff. intros [H _]. congruence. }
  assert (owned_by other r1 = false) as Hw.
  { unfold owned_by. apply bool_decide_eq_false. congruence. }
  unfold claim_statement, checkpoint, release, complete_if_durable, update_where, claimable.
  rewrite Hr1, Hh, Hw, Hu1. rewrite (proj2 (Z.leb_gt _ _) Hnow), andb_false_r. done.
Qed.

(** ** What is never forgotten *)

(** The knowledge of a row that later statements may extend, not take back. *)
Record extends (r r' : IngestRow) : Prop := {
  ext_complete : row_status r = "complete" -> row_status r' = "complete";
  ext_population : row_population r <> "unknown" -> row_population r' = row_population r;
  ext_stages : row_completed_stages r' = row_completed_stages r;
  ext_detail : forall x, detail_attempted_at r = Some x -> detail_attempted_at r' = Some x;
  ext_roster : forall x, roster_resolved_at r = Some x -> roster_resolved_at r' = Some x;
  ext_demo : forall x, demo_resolved_at r = Some x -> demo_resolved_at r' = Some x;
  ext_queue : row_queue_id r <> None -> row_queue_id r' <> None;
  ext_attempts : row_attempts r <= row_attempts r';
}.

#[export] Instance extends_preorder : PreOrder extends.
Proof.
  split.
  - intros r. by split.
  - intros r1 r2 r3 H1 H2. split.
    + intros H. apply (ext_complete _ _ H2), (ext_complete _ _ H1), H.
    + intros H. rewrite (ext_population _ _ H2); [by apply (ext_population _ _ H1)|].
      by rewrite (ext_population _ _ H1).
    + by rewrite (ext_stages _ _ H2), (ext_stages _ _ H1).
    + intros x H. by apply (ext_detail _ _ H2), (ext_detail _ _ H1).
    + intros x H. by apply (ext_roster _ _ H2), (ext_roster _ _ H1).
    + intros x H. by apply (ext_demo _ _ H2), (ext_demo _ _ H1).
    + intros H. by apply (ext_queue _ _ H2), (ext_queue _ _ H1).
    + pose proof (ext_attempts _ _ H1). pose proof (ext_attempts _ _ H2). lia.
Qed.

Lemma stamp_keeps flag now old x : old = Some x -> stamp flag now old = Some x.
Proof. intros ->. by destruct flag. Qed.

Lemma coalesce_some {A} (a b : option A) : b <> None -> coalesce a b <> None.
Proof. by destruct a. Qed.

Lemma coalesce_old {A} (a b : option A) : a <> None -> coalesce a b <> None.
Proof. by destruct a. Qed.

Lemma known_population (p q : string) :
  p <> "unknown" -> (if String.eqb p "unknown" then q else p) = p.
Proof. by destruct (String.eqb_spec p "unknown"). Qed.

Lemma row_step_extends types now id a r r' : row_step types now id a r r' -> extends r r'.
Proof.
  intros Hs. destruct Hs as [a r|source o secs r Hc|o c r Hh|o r Hh|o r Hh Hd|q source reason r Hn|d inc r Hd Hi].
  - reflexivity.
  - split; simpl; try done; [|lia]. intros Hs. unfold claimable, terminal_status in Hc.
    by rewrite Hs in Hc.
  - split; simpl; try done; eauto using stamp_keeps, coalesce_some, known_population.
  - by split.
  - by split.
  - split; simpl; try done; [|by apply coalesce_old|lia]. intros Hs. by rewrite Hs in Hn.
  - split; simpl; try done; eauto using coalesce_old, known_population.
    unfold reopenable. intros Hs. by rewrite Hs.
Qed.

Lemma plan_never_repeats_detail e :
  FetchDetail ∈ plan_match_lifecycle e -> detail_attempted e = false.
Proof.
  unfold plan_match_lifecycle.
  destruct (facts_durable e).
  { destruct (projection_complete e); [|destruct (population e)]; by intros ?%elem_of_one. }
  destruct (detail_attempted e); simpl; [|done].
  destruct (roster_resolved e); simpl; [|by intros ?%elem_of_one].
  destruct (missing_history_ids e) as [|i r], (demo_resolved e); simpl;
    rewrite ?elem_of_two, ?elem_of_one; naive_solver.
Qed.

(** C25. Evidence is never forgotten.  Through every run of statements of all
    workers a match that is complete stays complete, a known population and a
    recorded detail, roster or demo attempt stay what they are, a queue stays
    known, no stage is lost; so once the detail was attempted no later plan
    fetches it again. *)
Theorem ledger_extends types now0 tr l now1 l1 id r :
  ledger_run types now0 tr l now1 l1 -> l !! id = Some r ->
  exists r1, l1 !! id = Some r1 /\ extends r r1 /\
    forall t t1, detail_attempted (load_evidence_from_claim id r t) = true ->
      FetchDetail ∉ plan_match_lifecycle (load_evidence_from_claim id r1 t1).
Proof.
  intros Hrun Hr.
  assert (exists r1, l1 !! id = Some r1 /\ extends r r1) as (r1 & Hr1 & He).
  { revert r Hr. induction Hrun as [|now a nowa tr l la nowb lb Hle Hs Hrun IH]; intros r Hr.
    - exists r. by split.
    - destruct (step_row _ _ _ _ _ _ _ Hs Hr) as (r' & Hr' & Hrs). apply row_step_extends in Hrs.
      destruct (IH r' Hr') as (r1 & Hr1 & He). exists r1. split; [done|]. by etrans. }
  exists r1. split_and!; [done|done|]. intros t t1 Hd Hin.
  apply plan_never_repeats_detail in Hin.
  simpl in *. apply bool_decide_eq_true in Hd as [x Hx].
  apply (ext_detail _ _ He) in Hx. apply bool_decide_eq_false in Hin. apply Hin. eauto.
Qed.

(** ** Registration *)

Lemma queue_conflict_none (a b : option Z) (e : Z -> Z -> MatchDiscoveryError) :
  match a, b with
  | Some existing, Some incoming => if existing =? incoming then None else Some (e existing incoming)
  | _, _ => None
  end = None <-> (forall q q', a = Some q -> b = Some q' -> q = q').
Proof.
  destruct a as [q|]; [|naive_solver]. destruct b as [q'|]; [|naive_solver].
  destruct (Z.eqb_spec q q'); split; try done.
  - intros _ x y [= <-] [= <-]. done.
  - intros H. by specialize (H q q' eq_refl eq_refl).
Qed.

(** The discovery says something about the match that is known to be false. *)
Definition contradicts (types : gmap Z (bool * string)) (d : MatchDiscovery) (r : IngestRow) : Prop :=
  (population_from_database (row_population r) <> Unknown /\
   queue_population types (disc_queue_id d) <> Unknown /\
   population_from_database (row_population r) <> queue_population types (disc_queue_id d)) \/
  (exists q q', row_queue_id r = Some q /\ disc_queue_id d = Some q' /\ q <> q').

#[export] Instance contradicts_dec types d r : Decision (contradicts types d r).
Proof.
  apply or_dec; [apply _|].
  destruct (row_queue_id r) as [q|]; [|right; naive_solver].
  destruct (disc_queue_id d) as [q'|]; [|right; naive_solver].
  destruct (decide (q = q')) as [->|]; [right|left]; naive_solver.
Defined.

Lemma discovery_conflict_none types d r :
  discovery_conflict d (queue_population types (disc_queue_id d)) r = None <-> ~ contradicts types d r.
Proof.
  unfold discovery_conflict, contradicts. set (incoming := queue_population _ _).
  assert (~ (exists q q', row_queue_id r = Some q /\ disc_queue_id d = Some q' /\ q <> q') <->
    forall q q', row_queue_id r = Some q -> disc_queue_id d = Some q' -> q = q') as Hq.
  { split; [|naive_solver]. intros H q q' E E'. destruct (decide (q = q')); [done|]. naive_solver. }
  rewrite <-(queue_conflict_none (row_queue_id r) (disc_queue_id d) (QueueConflict (disc_match_id d))) in Hq.
  destruct (decide (population_from_database (row_population r) = Unknown)) as [E1|E1];
    [rewrite (bool_decide_true _ E1); simpl; naive_solver|rewrite (bool_decide_false _ E1)].
  destruct (decide (incoming = Unknown)) as [E2|E2];
    [rewrite (bool_decide_true _ E2); simpl; naive_solver|rewrite (bool_decide_false _ E2)].
  destruct (decide (population_from_database (row_population r) = incoming)) as [E3|E3];
    [rewrite (bool_decide_true _ E3)|rewrite (bool_decide_false _ E3)]; simpl; naive_solver.
Qed.

Lemma terminal_not_claimable now owner r : terminal_status (row_status r) = true -> claimable now owner r = false.
Proof. unfold claimable. by intros ->. Qed.

(** A registration is consistent with what is known and truthful about
    the work left: it is refused, without effect, exactly when a known
    population or queue contradicts the discovery; otherwise the answer's
    population is the row's, a known population is kept, and needs_work says
    whether a worker can ever claim the match. *)
Theorem register_discovery_truthful now types d l res l' :
  register_discovery now types d l = (res, l') ->
  match res with
  | Err _ => l' = l /\ exists r, l !! disc_match_id d = Some r /\ contradicts types d r
  | Ok reg =>
      reg_match_id reg = disc_match_id d /\
      exists r', l' !! disc_match_id d = Some r' /\
      reg_population reg = population_from_database (row_population r') /\
      (forall r, l !! disc_match_id d = Some r -> extends r r' /\ ~ contradicts types d r) /\
      (forall j, j <> disc_match_id d -> l' !! j = l !! j) /\
      (needs_work reg = false -> forall now' source owner secs,
         claim_statement now' (disc_match_id d) source owner secs l' = (None, l')) /\
      (needs_work reg = true -> forall now' source owner secs,
         lease_live now' r' = false ->
         fst (claim_statement now' (disc_match_id d) source owner secs l')
         = Some (claimed_row now' source owner secs r'))
  end.
Proof.
  unfold register_discovery. set (inc := queue_population types (disc_queue_id d)).
  assert (forall r, let r' := registered_row now d inc r in
    (needs_work (registration d r') = false -> forall now' source owner secs,
       claim_statement now' (disc_match_id d) source owner secs (<[disc_match_id d := r']> l)
       = (None, <[disc_match_id d := r']> l)) /\
    (needs_work (registration d r') = true -> forall now' source owner secs,
       lease_live now' r' = false ->
       fst (claim_statement now' (disc_match_id d) source owner secs (<[disc_match_id d := r']> l))
       = Some (claimed_row now' source owner secs r'))) as Hw.
  { intros r r'. unfold claim_statement. rewrite lookup_insert_eq. split.
    - intros Hn now' source owner secs. rewrite terminal_not_claimable; [done|].
      apply negb_false_iff, Hn.
    - intros Hn now' source owner secs Hl. unfold claimable, lease_live in *.
      unfold needs_work, registration in Hn. rewrite Hn.
      destruct (lease_until r') as [u|] eqn:E; [|done].
      apply Z.ltb_ge in Hl. by rewrite (proj2 (Z.leb_le u now') Hl). }
  destruct (l !! disc_match_id d) as [r|] eqn:Hr.
  - destruct (discovery_conflict d inc r) as [e|] eqn:Ec; intros [= <- <-].
    + split; [done|]. exists r. split; [done|]. destruct (decide (contradicts types d r)) as [|Hc]; [done|].
      apply discovery_conflict_none in Hc. unfold inc in Ec. congruence.
    + split; [done|]. exists (registered_row now d inc r). destruct (Hw r) as [Hw1 Hw2].
      split_and!; try done.
      * by rewrite lookup_insert_eq.
      * intros r0 [= <-]. split; [|by apply discovery_conflict_none].
        by apply (row_step_extends types now (disc_match_id d) Unowned), row_register.
      * intros j Hj. by rewrite lookup_insert_ne.
  - intros [= <- <-]. split; [done|]. exists (registered_row now d inc (new_row now)).
    destruct (Hw (new_row now)) as [Hw1 Hw2]. split_and!; try done.
    + by rewrite lookup_insert_eq.
    + intros j Hj. by rewrite lookup_insert_ne.
Qed.

(** ** On concrete rows *)

Definition sample_types : gmap Z (bool * string) := {[486 := (true, "ranked"); 424 := (false, "casual")]}.

Definition sample_discovery : MatchDiscovery :=
  {| disc_match_id := 7; disc_queue_id := Some 486; disc_source := HourlyDiscovery |}.

Definition sample_ledger : ledger := snd (register_discovery 0 sample_types sample_discovery ∅).

Definition claimed_ledger : ledger := snd (claim_statement 1 7 "hourly_discovery" "worker-1" 60 sample_ledger).

Example claim_is_exclusive :
  fst (claim_statement 2 7 "recovery" "worker-2" 60 claimed_ledger) = None /\
  fst (claim_statement 60000001 7 "recovery" "worker-2" 60 claimed_ledger) <> None.
Proof. vm_compute. done. Qed.

Lemma sample_run :
  ledger_run sample_types 1 [(By "worker-2", 2)] claimed_ledger 2
    (snd (claim_statement 2 7 "recovery" "worker-2" 60 claimed_ledger)).
Proof. eapply run_cons; [|apply step_claim|apply run_nil]. lia. Qed.

(** Another worker's claim, and the closing of another match. *)
Lemma lease_exclusive_witness :
  let l := mark_terminal_unavailable 3 8 486 Recovery "gone" (snd (claim_statement 2 7 "recovery" "worker-2" 60 claimed_ledger)) in
  claim_statement 4 7 "recovery" "worker-2" 60 l = (None, l).
Proof.
  intros l.
  refine (proj1 (proj2 (lease_exclusive sample_types 1 [(By "worker-2", 2); (Closing 8, 3)] claimed_ledger 3 l 7
    (claimed_row 1 "hourly_discovery" "worker-1" 60 (registered_row 0 sample_discovery Ranked (new_row 0)))
    "worker-1" 60000001 _ _ _ _ _ _) "worker-2" "recovery" 60
    {| cp_queue_id := None; cp_population := Ranked; cp_acquisition_state := "detail_complete";
       cp_detail_attempted := true; cp_roster_resolved := true; cp_demo_resolved := false;
       cp_direct_player_count := 10; cp_roster_player_count := 10; cp_unresolved_player_ids := [] |} 4 _ _)).
  - eapply backend_cons; [|apply backend_statement, step_claim|]; [lia|].
    eapply backend_cons; [|apply backend_statement, step_unavailable|apply backend_nil]. lia.
  - repeat constructor; simpl; discriminate.
  - vm_compute. reflexivity.
  - reflexivity.
  - reflexivity.
  - reflexivity.
  - discriminate.
  - reflexivity.
Defined.

Lemma ledger_extends_witness :
  exists r1, snd (claim_statement 2 7 "recovery" "worker-2" 60 claimed_ledger) !! 7 = Some r1 /\
    row_population r1 = "ranked".
Proof.
  destruct (ledger_extends sample_types 1 [(By "worker-2", 2)] claimed_ledger 2 _ 7
    (claimed_row 1 "hourly_discovery" "worker-1" 60 (registered_row 0 sample_discovery Ranked (new_row 0)))
    sample_run) as (r1 & H1 & He & _).
  - vm_compute. reflexivity.
  - exists r1. split; [exact H1|]. exact (ext_population _ _ He ltac:(vm_compute; discriminate)).
Defined.

Lemma complete_iff_planned_witness :
  let r := {| row_status := "processing";
              row_completed_stages := ["player_facts"; "match_bans"; "ranked_stats"];
              row_source := None; row_attempts := 1; row_error_message := None; row_queue_id := Some 486;
              row_population := "ranked"; row_acquisition_state := "facts_ready";
              detail_attempted_at := Some 1; roster_resolved_at := Some 1; demo_resolved_at := Some 1;
              row_direct_player_count := 10; row_roster_player_count := 10;
              row_unresolved_player_ids := []; lease_owner := Some "w"; lease_until := Some 100;
              started_at := 0; updated_at := 1; completed_at := None |} in
  let t := {| rows := {[7 := r]}; participants := ∅; fact_players := []; history_entries := [];
              queue_types := ∅ |} in
  complete_if_durable 50 7 "w" (rows t) = (true, <[7 := completed_row 50 r]> (rows t)).
Proof.
  intros r t. apply (complete_iff_planned 50 7 "w" t r).
  - reflexivity.
  - split; vm_compute; reflexivity.
Defined.

Lemma register_discovery_truthful_witness :
  needs_work (registration sample_discovery (registered_row 0 sample_discovery Ranked (new_row 0))) = true /\
  exists r', sample_ledger !! 7 = Some r' /\ population_from_database (row_population r') = Ranked.
Proof.
  destruct (register_discovery_truthful 0 sample_types sample_discovery ∅
    (Ok (registration sample_discovery (registered_row 0 sample_discovery Ranked (new_row 0))))
    sample_ledger) as (_ & r' & Hr & Hp & _).
  - vm_compute. reflexivity.
  - split; [vm_compute; reflexivity|]. exists r'. split; [exact Hr|]. rewrite <-Hp. vm_compute. reflexivity.
Defined.
