(* ===== verification/HourlyIngest.v ===== *)
(** * Queue-hour ingestion (backend-rust/src/workers/discovery_control.rs,
      discovery_store.rs)

    hourly_ingest_state has one row per date, hour and queue.  Exactly one
    worker executes an hour at a time, the provider is searched once per hour,
    and the ids found are stored with the marker that the search succeeded.
    Each SQL statement is a function on the tables at the instant [now()];
    instants are microseconds, a date is a DATE value (PostgreSQL casts the
    text parameter before the statement touches a row). *)

From S2P Require Import Prelude Json Lifecycle.

Definition FETCH_LEASE_MINUTES : Z := 5.
Definition minutes (n : Z) : Z := n * 60000000.

(** ** Tables *)

Record HourKey := { key_date : Z; key_hour : Z; key_queue : Z }.

#[export] Instance HourKey_eq_dec : EqDecision HourKey.
Proof. solve_decision. Defined.

#[export] Instance HourKey_countable : Countable HourKey.
Proof.
  refine (inj_countable' (fun k => (key_date k, key_hour k, key_queue k))
    (fun '(d, h, q) => {| key_date := d; key_hour := h; key_queue := q |}) _).
  by intros [].
Defined.

Record HourRow := {
  h_status : string;
  h_attempts : Z;
  h_raw_match_count : Z;
  h_staged_match_count : Z;
  h_fetched : bool;
  h_fetch_succeeded : bool;
  h_source : option string;
  h_error_message : option string;
  h_last_attempt_at : option Z;
  h_next_retry_at : option Z;
  h_lease_until : option Z;
  h_completed_at : option Z;
  h_updated_at : Z;
}.

(** A row of match_count_discoveries; its key is the match and the queue. *)
Record DiscoveryRow := {
  d_region : string;
  d_entry_datetime : option string;
  d_active_flag : bool;
  d_source : Z * Z;
  d_last_seen_at : Z;
}.

Record HourTables := {
  hours : gmap HourKey HourRow;
  discoveries : gmap (Z * Z) DiscoveryRow;
  region_hours : gmap (HourKey * string) Z;
  (** Hours known to have had no match. *)
  match_counts : gmap HourKey Z;
  ingest : ledger;
}.

Definition with_hours (h : gmap HourKey HourRow) (t : HourTables) : HourTables :=
  {| hours := h; discoveries := discoveries t; region_hours := region_hours t;
     match_counts := match_counts t; ingest := ingest t |}.

(** ** Reopening *)

(** A match whose lifecycle is not durably closed. *)
Definition unfinished_match (l : ledger) (match_id : Z) : bool :=
  match l !! match_id with
  | None => true
  | Some r =>
      negb (terminal_status (row_status r))
      || (String.eqb (row_status r) "limited"
          && (negb (String.eqb (row_acquisition_state r) "unavailable")
              || negb (bool_decide (row_error_message r = Some TERMINAL_NO_COMPLETED_MATCH_REASON))))
  end.

Definition discovered_in (k : HourKey) (t : HourTables) : list Z :=
  map (fun x => fst (fst x))
    (filter (fun x => snd (fst x) = key_queue k /\ d_source (snd x) = (key_date k, key_hour k))
       (map_to_list (discoveries t))).

(** reopenable_hour_predicate. *)
Definition reopenable_hour (k : HourKey) (t : HourTables) : bool :=
  existsb (unfinished_match (ingest t)) (discovered_in k t).

(** ** Claims *)

Definition claimed_hour (now : Z) (source : string) (r : HourRow) : HourRow :=
  {| h_status := "fetching"; h_attempts := h_attempts r + 1;
     h_raw_match_count := h_raw_match_count r; h_staged_match_count := h_staged_match_count r;
     h_fetched := h_fetched r; h_fetch_succeeded := h_fetch_succeeded r;
     h_source := Some source; h_error_message := None; h_last_attempt_at := Some now;
     h_next_retry_at := None; h_lease_until := Some (now + minutes FETCH_LEASE_MINUTES);
     h_completed_at := h_completed_at r; h_updated_at := now |}.

(** The defaults of the schema, for the columns the INSERT does not name. *)
Definition fresh_hour (now : Z) : HourRow :=
  {| h_status := "fetching"; h_attempts := 0; h_raw_match_count := 0; h_staged_match_count := 0;
     h_fetched := false; h_fetch_succeeded := false; h_source := None; h_error_message := None;
     h_last_attempt_at := None; h_next_retry_at := None; h_lease_until := None;
     h_completed_at := None; h_updated_at := now |}.

(** The WHERE clause of the claim. *)
Definition hour_claimable (now : Z) (reopen : bool) (r : HourRow) : bool :=
  (String.eqb (h_status r) "failed" && (negb (h_fetched r) || h_fetch_succeeded r))
  || (String.eqb (h_status r) "complete" && reopen)
  || (String.eqb (h_status r) "fetching"
      && match h_lease_until r with None => true | Some u => u <=? now end).

Definition claim_hourly_ingest_hour (now : Z) (k : HourKey) (source : string) (t : HourTables) :
    bool * HourTables :=
  match hours t !! k with
  | None => (true, with_hours (<[k := claimed_hour now source (fresh_hour now)]> (hours t)) t)
  | Some r =>
      if hour_claimable now (reopenable_hour k t) r
      then (true, with_hours (<[k := claimed_hour now source r]> (hours t)) t)
      else (false, t)
  end.

(** An UPDATE of the row of an hour: whether a row came back, and the tables. *)
Definition update_hour (k : HourKey) (cond : HourRow -> bool) (f : HourRow -> HourRow) (t : HourTables) :
    bool * HourTables :=
  match hours t !! k with
  | Some r => if cond r then (true, with_hours (<[k := f r]> (hours t)) t) else (false, t)
  | None => (false, t)
  end.

Definition is_fetching (r : HourRow) : bool := String.eqb (h_status r) "fetching".

(** [SET fetched = TRUE, fetch_succeeded = b]. *)
Definition searched (now : Z) (succeeded : bool) (r : HourRow) : HourRow :=
  {| h_status := h_status r; h_attempts := h_attempts r; h_raw_match_count := h_raw_match_count r;
     h_staged_match_count := h_staged_match_count r; h_fetched := true;
     h_fetch_succeeded := succeeded; h_source := h_source r; h_error_message := h_error_message r;
     h_last_attempt_at := h_last_attempt_at r; h_next_retry_at := h_next_retry_at r;
     h_lease_until := h_lease_until r; h_completed_at := h_completed_at r; h_updated_at := now |}.

Definition claim_hourly_ingest_search (now : Z) (k : HourKey) (t : HourTables) : bool * HourTables :=
  update_hour k (fun r => is_fetching r && negb (h_fetched r)) (searched now false) t.

Definition refreshed (now : Z) (r : HourRow) : HourRow :=
  {| h_status := h_status r; h_attempts := h_attempts r; h_raw_match_count := h_raw_match_count r;
     h_staged_match_count := h_staged_match_count r; h_fetched := h_fetched r;
     h_fetch_succeeded := h_fetch_succeeded r; h_source := h_source r;
     h_error_message := h_error_message r; h_last_attempt_at := h_last_attempt_at r;
     h_next_retry_at := h_next_retry_at r; h_lease_until := Some (now + minutes FETCH_LEASE_MINUTES);
     h_completed_at := h_completed_at r; h_updated_at := now |}.

Definition refresh_hourly_ingest_lease (now : Z) (k : HourKey) (t : HourTables) : HourTables :=
  snd (update_hour k is_fetching (refreshed now) t).

(** ** Closing an hour *)

(** The columns the three closing statements share. *)
Definition closed (now : Z) (status : string) (raw staged : Z) (r : HourRow) : HourRow :=
  {| h_status := status; h_attempts := h_attempts r; h_raw_match_count := raw;
     h_staged_match_count := staged; h_fetched := true; h_fetch_succeeded := true;
     h_source := h_source r; h_error_message := None; h_last_attempt_at := h_last_attempt_at r;
     h_next_retry_at := None; h_lease_until := None; h_completed_at := Some now; h_updated_at := now |}.

Definition mark_hourly_ingest_empty (now : Z) (k : HourKey) (t : HourTables) : HourTables :=
  let t := snd (update_hour k (fun _ => true) (closed now "empty" 0 0) t) in
  {| hours := hours t; discoveries := discoveries t; region_hours := region_hours t;
     match_counts := match match_counts t !! k with
                     | Some _ => match_counts t
                     | None => <[k := 0]> (match_counts t)
                     end;
     ingest := ingest t |}.

Definition mark_hourly_ingest_complete (now : Z) (k : HourKey) (total_matches : Z) (t : HourTables) :
    HourTables :=
  snd (update_hour k (fun _ => true)
    (fun r => closed now "complete" (Z.max (h_raw_match_count r) total_matches)
                (Z.max (h_staged_match_count r) total_matches) r) t).

Definition failed_hour (now : Z) (message : string) (raw staged : option Z) (r : HourRow) : HourRow :=
  {| h_status := "failed"; h_attempts := h_attempts r;
     h_raw_match_count := Z.max (h_raw_match_count r) (default (h_raw_match_count r) raw);
     h_staged_match_count := Z.max (h_staged_match_count r) (default (h_staged_match_count r) staged);
     h_fetched := h_fetched r; h_fetch_succeeded := h_fetch_succeeded r; h_source := h_source r;
     h_error_message := Some message; h_last_attempt_at := h_last_attempt_at r;
     h_next_retry_at := None; h_lease_until := None; h_completed_at := h_completed_at r;
     h_updated_at := now |}.

Definition mark_hourly_ingest_failed (now : Z) (k : HourKey) (message : string) (raw staged : option Z)
    (t : HourTables) : HourTables :=
  snd (update_hour k (fun _ => true) (failed_hour now message raw staged) t).

(** ** The discovery store *)

Record MatchIdObservation := {
  obs_match_id : Z;
  obs_entry_datetime : option string;
  obs_region : option string;
  obs_active_flag : bool;
}.

Definition to_ascii_uppercase : string -> string :=
  map_string (fun c => if is_lower c then ascii_of_nat (nat_of_ascii c - 32) else c).

Definition normalize_region (v : option string) : string :=
  let r := to_ascii_uppercase (trim (default EmptyString v)) in
  if String.eqb r "NA" || String.eqb r "NORTH AMERICA" then "NA"
  else if String.eqb r "EU" || String.eqb r "EUROPE" then "EU"
  else if String.eqb r "ASIA" then "ASIA"
  else if String.eqb r "SEA" then "SEA"
  else if String.eqb r "JPN" || String.eqb r "JAPAN" then "JPN"
  else if String.eqb r "RUS" || String.eqb r "RUSSIA" then "RUS"
  else if String.eqb r "BR" || String.eqb r "BRAZIL" then "BR"
  else if String.eqb r "OCE" || String.eqb r "OCEANIA" then "OCE"
  else if String.eqb r "SA" || String.eqb r "SOUTH AMERICA" then "SA"
  else "Unknown".

(** The last observation of an id wins; ids that are not positive are skipped. *)
Definition observations_by_id (raw : list MatchIdObservation) : gmap Z MatchIdObservation :=
  foldl (fun m o => if obs_match_id o <=? 0 then m else <[obs_match_id o := o]> m) ∅ raw.

Definition new_discovery (now : Z) (k : HourKey) (o : MatchIdObservation) : DiscoveryRow :=
  {| d_region := normalize_region (obs_region o); d_entry_datetime := obs_entry_datetime o;
     d_active_flag := obs_active_flag o; d_source := (key_date k, key_hour k); d_last_seen_at := now |}.

(** The upsert of one observation: the hour of the first sighting stays. *)
Definition upsert_discovery (now : Z) (k : HourKey) (o : MatchIdObservation) (old : option DiscoveryRow) :
    DiscoveryRow :=
  match old with
  | None => new_discovery now k o
  | Some r =>
      {| d_region := if String.eqb (normalize_region (obs_region o)) "Unknown" then d_region r
                     else normalize_region (obs_region o);
         d_entry_datetime := coalesce (d_entry_datetime r) (obs_entry_datetime o);
         d_active_flag := obs_active_flag o; d_source := d_source r; d_last_seen_at := now |}
  end.

Definition store_discoveries (now : Z) (k : HourKey) (os : list MatchIdObservation)
    (m : gmap (Z * Z) DiscoveryRow) : gmap (Z * Z) DiscoveryRow :=
  foldl (fun m o => <[(obs_match_id o, key_queue k) :=
    upsert_discovery now k o (m !! (obs_match_id o, key_queue k))]> m) m os.

Definition count_region (region : string) (os : list MatchIdObservation) : Z :=
  Z.of_nat (length (filter (fun o => normalize_region (obs_region o) = region) os)).

(** DELETE of the hour's regions, then one row per region observed. *)
Definition store_regions (k : HourKey) (os : list MatchIdObservation) (m : gmap (HourKey * string) Z) :
    gmap (HourKey * string) Z :=
  foldl (fun m o => let region := normalize_region (obs_region o) in
           <[(k, region) := count_region region os]> m)
    (filter (fun x => fst (fst x) <> k) m) os.

(** The transaction of record_match_count_discovery_result. *)
Definition record_match_count_discovery_result (now : Z) (k : HourKey) (raw : list MatchIdObservation)
    (t : HourTables) : Z * HourTables :=
  let os := map snd (map_to_list (observations_by_id raw)) in
  let stored := {| hours := hours t; discoveries := store_discoveries now k os (discoveries t);
                   region_hours := store_regions k os (region_hours t);
                   match_counts := match_counts t; ingest := ingest t |} in
  (Z.of_nat (length os), snd (update_hour k is_fetching (searched now true) stored)).

(** ** The rows as the operations API reads them *)

Record HourlyIngestState := {
  st_date : string; st_hour : Z; st_queue_id : Z; st_status : string; st_attempts : Z;
  st_raw_match_count : Z; st_staged_match_count : Z; st_fetched : bool; st_fetch_succeeded : bool;
  st_source : option string; st_error_message : option string; st_last_attempt_at : option string;
  st_next_retry_at : option string; st_lease_until : option string; st_completed_at : option string;
}.

Definition text (row : value) (key : string) : option string := get key row ≫= as_str.
Definition integer (row : value) (key : string) : option Z := get key row ≫= int_or_text.
Definition integer_i32 (row : value) (key : string) : Z :=
  default 0 (integer row key ≫= in_range i32_min i32_max).
Definition flag (row : value) (key : string) : bool := default false (get key row ≫= as_bool).

Definition map_state (row : value) : HourlyIngestState :=
  {| st_date := default EmptyString (text row "date"); st_hour := integer_i32 row "hour";
     st_queue_id := integer_i32 row "queue_id"; st_status := default EmptyString (text row "status");
     st_attempts := integer_i32 row "attempts";
     st_raw_match_count := integer_i32 row "raw_match_count";
     st_staged_match_count := integer_i32 row "staged_match_count";
     st_fetched := flag row "fetched"; st_fetch_succeeded := flag row "fetch_succeeded";
     st_source := text row "source"; st_error_message := text row "error_message";
     st_last_attempt_at := text row "last_attempt_at"; st_next_retry_at := text row "next_retry_at";
     st_lease_until := text row "lease_until"; st_completed_at := text row "completed_at" |}.

(** ** Interleavings of the statements *)

Inductive hour_label :=
  | HClaim (k : HourKey) (won : bool)
  | HSearch (k : HourKey) (won : bool)
  | HRefresh (k : HourKey)
  | HRecord (k : HourKey)
  | HClose (k : HourKey)
  | HFail (k : HourKey)
  | HLedger.

(** One statement at the instant [now]; the lifecycle ledger changes freely. *)
Inductive hour_step (now : Z) : hour_label -> HourTables -> HourTables -> Prop :=
| hstep_claim k source t : hour_step now (HClaim k (fst (claim_hourly_ingest_hour now k source t))) t
    (snd (claim_hourly_ingest_hour now k source t))
| hstep_search k t : hour_step now (HSearch k (fst (claim_hourly_ingest_search now k t))) t
    (snd (claim_hourly_ingest_search now k t))
| hstep_refresh k t : hour_step now (HRefresh k) t (refresh_hourly_ingest_lease now k t)
| hstep_record k raw t :
    hour_step now (HRecord k) t (snd (record_match_count_discovery_result now k raw t))
| hstep_empty k t : hour_step now (HClose k) t (mark_hourly_ingest_empty now k t)
| hstep_complete k n t : hour_step now (HClose k) t (mark_hourly_ingest_complete now k n t)
| hstep_failed k m raw staged t : hour_step now (HFail k) t (mark_hourly_ingest_failed now k m raw staged t)
| hstep_ledger l t :
    hour_step now HLedger t
      {| hours := hours t; discoveries := discoveries t; region_hours := region_hours t;
         match_counts := match_counts t; ingest := l |}.

Inductive hour_run : Z -> list (hour_label * Z) -> HourTables -> Z -> HourTables -> Prop :=
| hrun_nil now t : hour_run now [] t now t
| hrun_cons now l now1 tr t t1 now2 t2 :
    now <= now1 -> hour_step now1 l t t1 -> hour_run now1 tr t1 now2 t2 ->
    hour_run now ((l, now1) :: tr) t now2 t2.

(** * Properties of queue-hour ingestion

    One search per hour, one worker per hour, the fate of an hour whose search
    failed, and what a recorded discovery stores. *)

(** ** One statement, one row *)

(** The row of an hour before and after a statement. *)
Definition row_of (k : HourKey) (t : HourTables) : option HourRow := hours t !! k.

Lemma update_hour_row k cond f t j :
  row_of j (snd (update_hour k cond f t))
  = if decide (j = k) then (fun r => if cond r then f r else r) <$> row_of j t else row_of j t.
Proof.
  unfold update_hour, row_of. destruct (decide (j = k)) as [->|Hne].
  - destruct (hours t !! k) as [r|] eqn:E; simpl; [|by rewrite E].
    destruct (cond r); simpl; [by rewrite lookup_insert_eq|by rewrite E].
  - destruct (hours t !! k) as [r|]; simpl; [|done].
    destruct (cond r); simpl; [by rewrite lookup_insert_ne|done].
Qed.

Lemma update_hour_won k cond f t :
  fst (update_hour k cond f t) = true <-> exists r, row_of k t = Some r /\ cond r = true.
Proof.
  unfold update_hour, row_of. destruct (hours t !! k) as [r|]; [|naive_solver].
  destruct (cond r) eqn:E; simpl; naive_solver.
Qed.

Definition label_key (l : hour_label) : option HourKey :=
  match l with
  | HClaim k _ | HSearch k _ | HRefresh k | HRecord k | HClose k | HFail k => Some k
  | HLedger => None
  end.

Lemma claim_row_ne now k source t j :
  j <> k -> row_of j (snd (claim_hourly_ingest_hour now k source t)) = row_of j t.
Proof.
  intros Hne. unfold claim_hourly_ingest_hour, row_of.
  destruct (hours t !! k); [destruct (hour_claimable _ _ _)|]; simpl; by rewrite ?lookup_insert_ne.
Qed.

(** A statement only touches the row of its own hour. *)
Lemma step_other now l t t' j : hour_step now l t t' -> label_key l <> Some j -> row_of j t' = row_of j t.
Proof.
  intros Hs Hl.
  destruct Hs as [k source t|k t|k t|k raw t|k t|k n t|k m raw staged t|l t]; simpl in Hl;
    try done; try (apply claim_row_ne; congruence);
    unfold claim_hourly_ingest_search, refresh_hourly_ingest_lease, record_match_count_discovery_result,
      mark_hourly_ingest_complete, mark_hourly_ingest_failed; cbn [fst snd];
    try (rewrite update_hour_row, decide_False by congruence; done).
  unfold mark_hourly_ingest_empty.
  change (row_of j (snd (update_hour k (fun _ => true) (closed now "empty" 0 0) t)) = row_of j t).
  by rewrite update_hour_row, decide_False by congruence.
Qed.

(** What a statement on an hour makes of an existing row of that hour. *)
Inductive hrow_step (now : Z) : hour_label -> HourRow -> HourRow -> Prop :=
| hrow_won k source reopen r : hour_claimable now reopen r = true ->
    hrow_step now (HClaim k true) r (claimed_hour now source r)
| hrow_lost k reopen r : hour_claimable now reopen r = false -> hrow_step now (HClaim k false) r r
| hrow_search k r : is_fetching r && negb (h_fetched r) = true ->
    hrow_step now (HSearch k true) r (searched now false r)
| hrow_no_search k r : is_fetching r && negb (h_fetched r) = false -> hrow_step now (HSearch k false) r r
| hrow_refresh k r : is_fetching r = true -> hrow_step now (HRefresh k) r (refreshed now r)
| hrow_no_refresh k r : is_fetching r = false -> hrow_step now (HRefresh k) r r
| hrow_record k r : is_fetching r = true -> hrow_step now (HRecord k) r (searched now true r)
| hrow_no_record k r : is_fetching r = false -> hrow_step now (HRecord k) r r
| hrow_close k status raw staged r : hrow_step now (HClose k) r (closed now status raw staged r)
| hrow_fail k m raw staged r : hrow_step now (HFail k) r (failed_hour now m raw staged r).

Lemma hour_step_row now l t t' k r :
  hour_step now l t t' -> label_key l = Some k -> row_of k t = Some r ->
  exists r', row_of k t' = Some r' /\ hrow_step now l r r'.
Proof.
  intros Hs Hl Hr.
  destruct Hs as [j source t|j t|j t|j raw t|j t|j n t|j m raw staged t|l t]; simpl in Hl;
    try done; injection Hl as ->;
    unfold claim_hourly_ingest_search, refresh_hourly_ingest_lease, record_match_count_discovery_result,
      mark_hourly_ingest_complete, mark_hourly_ingest_failed; cbn [fst snd].
  - unfold claim_hourly_ingest_hour, row_of in *. rewrite Hr.
    destruct (hour_claimable now (reopenable_hour k t) r) eqn:E; simpl.
    + rewrite lookup_insert_eq. eauto using hrow_step.
    + rewrite Hr. eauto using hrow_step.
  - assert (fst (update_hour k (fun r => is_fetching r && negb (h_fetched r)) (searched now false) t)
      = is_fetching r && negb (h_fetched r)) as Hw.
    { unfold update_hour, row_of in *. rewrite Hr. by destruct (is_fetching r && negb (h_fetched r)). }
    rewrite Hw, update_hour_row, decide_True, Hr by done. simpl. eexists. split; [done|].
    destruct (is_fetching r && negb (h_fetched r)) eqn:E; eauto using hrow_step.
  - rewrite update_hour_row, decide_True, Hr by done. simpl. eexists. split; [done|].
    destruct (is_fetching r) eqn:E; eauto using hrow_step.
  - rewrite update_hour_row, decide_True by done. unfold row_of in *. simpl. rewrite Hr. simpl.
    eexists. split; [done|]. destruct (is_fetching r) eqn:E; eauto using hrow_step.
  - unfold mark_hourly_ingest_empty.
    change (exists r', row_of k (snd (update_hour k (fun _ => true) (closed now "empty" 0 0) t)) = Some r'
      /\ hrow_step now (HClose k) r r').
    rewrite update_hour_row, decide_True, Hr by done. eauto using hrow_step.
  - rewrite update_hour_row, decide_True, Hr by done. simpl. eauto using hrow_step.
  - rewrite update_hour_row, decide_True, Hr by done. simpl. eauto using hrow_step.
Qed.

(** ** One search *)

Definition is_fetched (k : HourKey) (t : HourTables) : bool :=
  match row_of k t with Some r => h_fetched r | None => false end.

Fixpoint searches (k : HourKey) (tr : list (hour_label * Z)) : nat :=
  match tr with
  | [] => 0
  | (HSearch j true, _) :: r => (if decide (j = k) then 1 else 0) + searches k r
  | _ :: r => searches k r
  end.

Lemma fetched_kept now l t t' k : hour_step now l t t' -> is_fetched k t = true -> is_fetched k t' = true.
Proof.
  intros Hs. unfold is_fetched. destruct (row_of k t) as [r|] eqn:Hr; [|done]. intros Hf.
  destruct (decide (label_key l = Some k)) as [Hk|Hk].
  - destruct (hour_step_row _ _ _ _ _ _ Hs Hk Hr) as (r' & -> & Hrs). by destruct Hrs.
  - by rewrite (step_other _ _ _ _ _ Hs Hk), Hr.
Qed.

Lemma search_won now k t t' :
  hour_step now (HSearch k true) t t' -> is_fetched k t = false /\ is_fetched k t' = true.
Proof.
  intros Hs.
  assert (fst (claim_hourly_ingest_search now k t) = true /\ t' = snd (claim_hourly_ingest_search now k t))
    as [Hwon ->] by (by inversion Hs).
  unfold claim_hourly_ingest_search in *. apply update_hour_won in Hwon as (r & Hr & Hc).
  unfold is_fetched. rewrite update_hour_row, decide_True, Hr by done.
  simpl. rewrite Hc. bool_props. by rewrite H0.
Qed.

Lemma searches_once k now0 tr t now1 t1 :
  hour_run now0 tr t now1 t1 ->
  (searches k tr <= 1)%nat /\ (is_fetched k t = true -> searches k tr = 0%nat).
Proof.
  induction 1 as [|now l nowa tr t ta nowb tb Hle Hs Hrun [IH1 IH2]]; [simpl; lia|].
  assert ((exists j, l = HSearch j true) \/ searches k ((l, nowa) :: tr) = searches k tr) as [[j ->]| -> ].
  { destruct l as [| ? [] | | | | |]; simpl; eauto. }
  - destruct (search_won _ _ _ _ Hs) as [Hf Hf']. simpl. destruct (decide (j = k)) as [->|Hne].
    + rewrite (IH2 Hf'). split; [lia|]. congruence.
    + split; [lia|]. intros H. apply IH2. by apply (fetched_kept _ _ _ _ _ Hs).
  - split; [done|]. intros H. apply IH2. by apply (fetched_kept _ _ _ _ _ Hs).
Qed.

(** C4. The provider is searched at most once for an hour, over all workers,
    retries, reclaims and failures: in any run of the statements the search of
    an hour is granted at most once, and never when it already was attempted. *)
Theorem single_provider_search k now0 tr t now1 t1 :
  hour_run now0 tr t now1 t1 ->
  (searches k tr <= 1)%nat /\ (is_fetched k t = true -> searches k tr = 0%nat).
Proof. apply searches_once. Qed.

(** ** One worker *)

Definition no_closing (k : HourKey) (l : hour_label) : Prop := l <> HClose k /\ l <> HFail k.

(** The hour is being fetched under a lease that lasts at least until [u]. *)
Definition leased_until (u : Z) (r : HourRow) : Prop :=
  h_status r = "fetching" /\ exists v, h_lease_until r = Some v /\ u <= v.

Lemma leased_not_claimable u now reopen r :
  leased_until u r -> now < u -> hour_claimable now reopen r = false.
Proof.
  intros [Hs (v & Hv & Hle)] Hlt. unfold hour_claimable. rewrite Hs, Hv. simpl.
  apply Z.leb_gt. lia.
Qed.

Lemma claim_won_leased now k source t :
  fst (claim_hourly_ingest_hour now k source t) = true ->
  exists r, row_of k (snd (claim_hourly_ingest_hour now k source t)) = Some r /\
    leased_until (now + minutes FETCH_LEASE_MINUTES) r.
Proof.
  unfold claim_hourly_ingest_hour, row_of. intros H.
  assert (forall r, leased_until (now + minutes FETCH_LEASE_MINUTES) (claimed_hour now source r)) as Hl.
  { intros r. split; [done|]. eexists. split; [done|]. lia. }
  destruct (hours t !! k) as [r|]; [destruct (hour_claimable _ _ _); [|done]|];
    simpl; rewrite lookup_insert_eq; eauto.
Qed.

Lemma step_leased u now l t t' k r :
  hour_step now l t t' -> no_closing k l -> row_of k t = Some r -> leased_until u r ->
  now < u <= now + minutes FETCH_LEASE_MINUTES ->
  l <> HClaim k true /\ exists r', row_of k t' = Some r' /\ leased_until u r'.
Proof.
  intros Hs [Hc1 Hc2] Hr Hp Hnow. destruct (decide (label_key l = Some k)) as [Hk|Hk].
  - destruct (hour_step_row _ _ _ _ _ _ Hs Hk Hr) as (r' & Hr' & Hrs).
    assert (forall reopen, hour_claimable now reopen r = false) as Hno.
    { intros reopen. apply (leased_not_claimable u); [done|lia]. }
    destruct Hrs; simpl in Hk; try (split; [done|]; by exists r); try congruence.
    all: split; [done|]; eexists; (split; [done|]); destruct Hp as [Ha Hp]; split; simpl; try done.
    eexists. split; [done|]. lia.
  - split; [intros ->; by simpl in Hk|]. exists r. by rewrite (step_other _ _ _ _ _ Hs Hk).
Qed.

Lemma run_leased u now0 tr t now1 t1 k r :
  hour_run now0 tr t now1 t1 -> Forall (fun x => no_closing k (fst x)) tr ->
  row_of k t = Some r -> leased_until u r -> now1 < u <= now0 + minutes FETCH_LEASE_MINUTES ->
  Forall (fun x => fst x <> HClaim k true) tr /\
  exists r1, row_of k t1 = Some r1 /\ leased_until u r1.
Proof.
  intros Hrun. revert r. induction Hrun as [|now l nowa tr t ta nowb tb Hle Hs Hrun IH];
    intros r Hf Hr Hp Hnow; [split; [constructor|eauto]|].
  apply Forall_cons in Hf as [Ha Hf]. simpl in Ha.
  assert (nowa <= nowb) as Hab by (clear -Hrun; induction Hrun; lia).
  destruct (step_leased u _ _ _ _ _ _ Hs Ha Hr Hp) as (Hl & r' & Hr' & Hp'); [lia|].
  destruct (IH r' Hf Hr' Hp') as [Hf' Hend]; [lia|]. split; [by constructor|done].
Qed.

(** An hour has one owner: after a worker won the claim of an hour, and
    until five minutes have passed without it closing or failing the hour, no
    other claim of that hour is granted, whatever the workers do; refreshing
    the lease only prolongs this. *)
Theorem hour_claim_exclusive k source t now0 tr now1 t1 now2 source' :
  fst (claim_hourly_ingest_hour now0 k source t) = true ->
  hour_run now0 tr (snd (claim_hourly_ingest_hour now0 k source t)) now1 t1 ->
  Forall (fun x => no_closing k (fst x)) tr ->
  now1 <= now2 < now0 + minutes FETCH_LEASE_MINUTES ->
  claim_hourly_ingest_hour now2 k source' t1 = (false, t1) /\
  Forall (fun x => fst x <> HClaim k true) tr.
Proof.
  intros Hwon Hrun Hf Hnow. destruct (claim_won_leased _ _ _ _ Hwon) as (r & Hr & Hp).
  destruct (run_leased _ _ _ _ _ _ _ _ Hrun Hf Hr Hp) as [Hlost (r1 & Hr1 & Hp1)]; [lia|].
  split; [|done]. unfold claim_hourly_ingest_hour. unfold row_of in Hr1. rewrite Hr1.
  by rewrite (leased_not_claimable _ now2 _ r1 Hp1) by lia.
Qed.

(** ** A search that failed *)

(** The hour failed after its search was granted and before ids were stored. *)
Definition abandoned (r : HourRow) : Prop :=
  h_status r = "failed" /\ h_fetched r = true /\ h_fetch_succeeded r = false.

Lemma step_abandoned now l t t' k r :
  hour_step now l t t' -> l <> HClose k -> row_of k t = Some r -> abandoned r ->
  l <> HClaim k true /\ l <> HSearch k true /\ exists r', row_of k t' = Some r' /\ abandoned r'.
Proof.
  intros Hs Hc Hr (H1 & H2 & H3). destruct (decide (label_key l = Some k)) as [Hk|Hk].
  - destruct (hour_step_row _ _ _ _ _ _ Hs Hk Hr) as (r' & Hr' & Hrs).
    assert (forall reopen, hour_claimable now reopen r = false) as Hno.
    { intros reopen. unfold hour_claimable. by rewrite H1, H2, H3. }
    assert (is_fetching r = false) as Hnf by (unfold is_fetching; by rewrite H1).
    destruct Hrs; simpl in Hk; try congruence; try (by bool_props; congruence).
    all: try (split_and!; [done|done|]; by exists r).
    split_and!; [done|done|]. eexists. split; [done|]. by split_and!.
  - split_and!; [intros ->; by simpl in Hk..|]. exists r. by rewrite (step_other _ _ _ _ _ Hs Hk).
Qed.

(** The price of the single search: an hour whose granted search ends in
    a failure before its ids are stored is never executed again.  From then on
    no worker ever wins its claim or its search, at any later time, unless some
    worker still closes the hour. *)
Theorem failed_search_abandons_hour k t now0 message raw staged tr now1 t1 :
  fst (claim_hourly_ingest_search now0 k t) = true ->
  hour_run now0 tr (mark_hourly_ingest_failed now0 k message raw staged
    (snd (claim_hourly_ingest_search now0 k t))) now1 t1 ->
  Forall (fun x => fst x <> HClose k) tr ->
  Forall (fun x => fst x <> HClaim k true /\ fst x <> HSearch k true) tr /\
  exists r, row_of k t1 = Some r /\ abandoned r.
Proof.
  intros Hwon Hrun Hf.
  assert (exists r, row_of k (mark_hourly_ingest_failed now0 k message raw staged
    (snd (claim_hourly_ingest_search now0 k t))) = Some r /\ abandoned r) as (r & Hr & Ha).
  { unfold claim_hourly_ingest_search, mark_hourly_ingest_failed in *.
    apply update_hour_won in Hwon as (r & Hr & Hc).
    rewrite !update_hour_row, !decide_True, Hr by done. simpl. rewrite Hc. simpl.
    eexists. split; [done|]. by split_and!. }
  clear Hwon. revert r Hr Ha. induction Hrun as [|now l nowa tr t' ta nowb tb Hle Hs Hrun IH];
    intros r Hr Ha; [split; [constructor|eauto]|].
  apply Forall_cons in Hf as [Hl Hf]. simpl in Hl.
  destruct (step_abandoned _ _ _ _ _ _ Hs Hl Hr Ha) as (Hc1 & Hc2 & r' & Hr' & Ha').
  destruct (IH Hf r' Hr' Ha') as [Hf' Hend]. split; [by constructor|done].
Qed.

(** ** What is stored *)

Lemma observations_by_id_spec raw :
  (forall id o, observations_by_id raw !! id = Some o -> obs_match_id o = id /\ 0 < id /\ o ∈ raw) /\
  dom (observations_by_id raw) = (list_to_set (filter (fun i => 0 < i) (map obs_match_id raw)) : gset Z).
Proof.
  unfold observations_by_id.
  assert (forall (acc : gmap Z MatchIdObservation) (seen : list MatchIdObservation),
    (forall id o, acc !! id = Some o -> obs_match_id o = id /\ 0 < id /\ o ∈ seen) ->
    let m := foldl (fun m o => if obs_match_id o <=? 0 then m else <[obs_match_id o := o]> m) acc raw in
    (forall id o, m !! id = Some o -> obs_match_id o = id /\ 0 < id /\ o ∈ seen ++ raw) /\
    dom m = dom acc ∪ (list_to_set (filter (fun i => 0 < i) (map obs_match_id raw)) : gset Z)) as Hg.
  { induction raw as [|x r IH]; intros acc seen Hacc; simpl.
    { rewrite app_nil_r. split; [done|]. by rewrite union_empty_r_L. }
    rewrite cons_middle, app_assoc. destruct (Z.leb_spec (obs_match_id x) 0).
    - rewrite filter_cons_False by lia. apply IH. intros id o Ho.
      destruct (Hacc id o Ho) as (? & ? & ?). split_and!; [done|done|]. apply elem_of_app. by left.
    - rewrite filter_cons_True by lia.
      destruct (IH (<[obs_match_id x := x]> acc) (seen ++ [x])) as [H1 H2].
      { intros id o. rewrite lookup_insert_Some. intros [[<- <-]|[_ Ho]].
        - split_and!; [done|done|]. apply elem_of_app. right. by left.
        - destruct (Hacc id o Ho) as (? & ? & ?). split_and!; [done|done|]. apply elem_of_app. by left. }
      split; [done|]. rewrite H2, dom_insert_L. set_solver. }
  destruct (Hg ∅ [] ltac:(intros id o; by rewrite lookup_empty)) as [H1 H2].
  split; [done|]. rewrite H2, dom_empty_L. set_solver.
Qed.

Lemma store_discoveries_other now k os m j :
  (forall o, o ∈ os -> (obs_match_id o, key_queue k) <> j) -> store_discoveries now k os m !! j = m !! j.
Proof.
  unfold store_discoveries. revert m. induction os as [|o r IH]; intros m Hne; simpl; [done|].
  rewrite IH by (intros x Hx; apply Hne; by right).
  rewrite lookup_insert_ne; [done|]. apply Hne. by left.
Qed.

Lemma store_discoveries_lookup now k os m o :
  NoDup (map obs_match_id os) -> o ∈ os ->
  store_discoveries now k os m !! (obs_match_id o, key_queue k)
  = Some (upsert_discovery now k o (m !! (obs_match_id o, key_queue k))).
Proof.
  revert m. induction os as [|x r IH]; intros m Hnd Ho; [by apply elem_of_nil in Ho|].
  apply NoDup_cons in Hnd as [Hx Hnd].
  change (store_discoveries now k (x :: r) m) with (store_discoveries now k r
    (<[(obs_match_id x, key_queue k) := upsert_discovery now k x (m !! (obs_match_id x, key_queue k))]> m)).
  apply elem_of_cons in Ho as [->|Ho].
  - rewrite (store_discoveries_other now k r).
    + by rewrite lookup_insert_eq.
    + intros y Hy E. apply Hx. apply list_elem_of_fmap. exists y. split; [congruence|done].
  - rewrite IH by done. rewrite lookup_insert_ne; [done|].
    intros E. apply Hx. apply list_elem_of_fmap. exists o. split; [congruence|done].
Qed.

Lemma store_regions_lookup (k : HourKey) (os : list MatchIdObservation)
    (m : gmap (HourKey * string) Z) (region : string) :
  store_regions k os m !! (k, region)
  = if 0 <? count_region region os then Some (count_region region os) else None.
Proof.
  unfold store_regions.
  assert (forall l (acc : gmap (HourKey * string) Z),
    foldl (fun m o => let rg := normalize_region (obs_region o) in <[(k, rg) := count_region rg os]> m) acc l
      !! (k, region)
    = if bool_decide (Exists (fun o => normalize_region (obs_region o) = region) l)
      then Some (count_region region os) else acc !! (k, region)) as Hl.
  { induction l as [|o r IH]; intros acc; cbn [foldl]; cbn zeta.
    { rewrite bool_decide_false; [done|]. intros H. inversion H. }
    rewrite IH. destruct (decide (Exists (fun o => normalize_region (obs_region o) = region) r)) as [E|E].
    - rewrite (bool_decide_true _ E), bool_decide_true; [done|]. apply Exists_cons. by right.
    - rewrite (bool_decide_false _ E). destruct (decide (normalize_region (obs_region o) = region)) as [Heq|Hne].
      + rewrite Heq, lookup_insert_eq, bool_decide_true; [done|]. apply Exists_cons. by left.
      + rewrite lookup_insert_ne by congruence. rewrite bool_decide_false; [done|].
        intros [?|?]%Exists_cons; done. }
  rewrite Hl. unfold count_region.
  destruct (filter (fun o => normalize_region (obs_region o) = region) os) as [|o r] eqn:E; simpl.
  - rewrite bool_decide_false.
    + apply map_lookup_filter_None. right. intros x Hx Hne. by apply Hne.
    + intros (o & Ho & Hr)%Exists_exists.
      assert (o ∈ filter (fun o => normalize_region (obs_region o) = region) os) as Hin
        by (by apply list_elem_of_filter).
      rewrite E in Hin. by apply elem_of_nil in Hin.
  - rewrite bool_decide_true; [done|]. apply Exists_exists. exists o.
    assert (o ∈ filter (fun o => normalize_region (obs_region o) = region) os) as Hin
      by (rewrite E; by left).
    by apply list_elem_of_filter in Hin as [? ?].
Qed.

Lemma observations_nodup raw :
  NoDup (map obs_match_id (map snd (map_to_list (observations_by_id raw)))).
Proof.
  destruct (observations_by_id_spec raw) as [Hid _].
  assert (map obs_match_id (map snd (map_to_list (observations_by_id raw)))
    = map fst (map_to_list (observations_by_id raw))) as ->.
  { rewrite map_map. apply map_ext_in. intros [i o] Hin%list_elem_of_In%elem_of_map_to_list.
    by destruct (Hid i o Hin). }
  apply NoDup_fst_map_to_list.
Qed.

(** Recording a discovery stores exactly what was observed: the count it
    returns is the number of distinct positive ids, each of them is durable for
    the queue, an id that was known keeps the hour it was first seen in, the
    other rows do not change, the per-region counts of the hour are those of
    the observations, and an hour that is being fetched is marked as searched
    with success. *)
Theorem recorded_discovery now k raw t :
  let ids : gset Z := list_to_set (filter (fun i => 0 < i) (map obs_match_id raw)) in
  let os := map snd (map_to_list (observations_by_id raw)) in
  let '(n, t') := record_match_count_discovery_result now k raw t in
  n = Z.of_nat (size ids) /\
  (forall id, id ∈ ids -> exists row, discoveries t' !! (id, key_queue k) = Some row /\
     d_source row = match discoveries t !! (id, key_queue k) with
                    | Some old => d_source old
                    | None => (key_date k, key_hour k)
                    end) /\
  (forall id q, id ∉ ids \/ q <> key_queue k -> discoveries t' !! (id, q) = discoveries t !! (id, q)) /\
  (forall region, region_hours t' !! (k, region)
     = if 0 <? count_region region os then Some (count_region region os) else None) /\
  (forall r, row_of k t = Some r -> is_fetching r = true -> row_of k t' = Some (searched now true r)).
Proof.
  intros ids os. unfold record_match_count_discovery_result. fold os.
  destruct (observations_by_id_spec raw) as [Hid Hdom]. fold ids in Hdom.
  assert (forall i, i ∈ ids <-> exists o, o ∈ os /\ obs_match_id o = i) as Hos.
  { intros i. rewrite <-Hdom, elem_of_dom. unfold os. split.
    - intros [o Ho]. exists o. split; [|by apply Hid].
      apply list_elem_of_fmap. exists (i, o). split; [done|]. by apply elem_of_map_to_list.
    - intros (o & ([j x] & -> & Hin)%list_elem_of_fmap & E). apply elem_of_map_to_list in Hin.
      destruct (Hid j x Hin) as [<- _]. simpl in E. rewrite <-E. by exists x. }
  assert (NoDup (map obs_match_id os)) as Hnd by apply observations_nodup.
  set (stored := {| hours := hours t; discoveries := _; region_hours := _; match_counts := _; ingest := _ |}).
  assert (forall cond f, discoveries (snd (update_hour k cond f stored)) = discoveries stored /\
    region_hours (snd (update_hour k cond f stored)) = region_hours stored) as Hsame.
  { intros cond f. unfold update_hour. destruct (hours stored !! k); [|done]. by destruct (cond _). }
  destruct (Hsame is_fetching (searched now true)) as [-> ->]. simpl. split_and!.
  - unfold os. rewrite length_map, <-Hdom, size_dom, length_map_to_list. done.
  - intros i (o & Ho & <-)%Hos. rewrite store_discoveries_lookup by done. eexists. split; [done|].
    by destruct (discoveries t !! (obs_match_id o, key_queue k)).
  - intros i q Hn. apply store_discoveries_other. intros o Ho [= <- <-].
    destruct Hn as [Hn|Hn]; [|done]. apply Hn, Hos. eauto.
  - intros region. apply store_regions_lookup.
  - intros r Hr Hf. rewrite update_hour_row, decide_True by done.
    unfold row_of in *. simpl. rewrite Hr. simpl. by rewrite Hf.
Qed.

(** ** On a concrete hour *)

Definition sample_hour : HourKey := {| key_date := 20663; key_hour := 4; key_queue := 486 |}.

Definition no_hours : HourTables :=
  {| hours := ∅; discoveries := ∅; region_hours := ∅; match_counts := ∅; ingest := ∅ |}.

Definition claimed_tables : HourTables :=
  snd (claim_hourly_ingest_hour 0 sample_hour "hourly" no_hours).

(** A second worker claims and searches while the first one works. *)
Definition second_tables : HourTables :=
  snd (claim_hourly_ingest_search 2 sample_hour
    (snd (claim_hourly_ingest_hour 1 sample_hour "hourly" claimed_tables))).

Definition second_trace : list (hour_label * Z) :=
  [(HClaim sample_hour false, 1); (HSearch sample_hour true, 2)].

Lemma second_worker_run :
  hour_run 0 second_trace claimed_tables 2 second_tables.
Proof.
  set (t1 := snd (claim_hourly_ingest_hour 1 sample_hour "hourly" claimed_tables)).
  assert (hour_step 1 (HClaim sample_hour false) claimed_tables t1) as H1.
  { assert (fst (claim_hourly_ingest_hour 1 sample_hour "hourly" claimed_tables) = false) as <-
      by (vm_compute; reflexivity). apply hstep_claim. }
  assert (hour_step 2 (HSearch sample_hour true) t1 second_tables) as H2.
  { assert (fst (claim_hourly_ingest_search 2 sample_hour t1) = true) as <-
      by (vm_compute; reflexivity). apply hstep_search. }
  eapply hrun_cons; [|exact H1|eapply hrun_cons; [|exact H2|constructor]]; lia.
Qed.

Lemma single_provider_search_witness :
  (searches sample_hour second_trace <= 1)%nat.
Proof. exact (proj1 (single_provider_search sample_hour 0 _ claimed_tables 2 second_tables second_worker_run)). Defined.

Lemma hour_claim_exclusive_witness :
  claim_hourly_ingest_hour 3 sample_hour "gap" second_tables = (false, second_tables).
Proof.
  refine (proj1 (hour_claim_exclusive sample_hour "hourly" no_hours 0
    second_trace 2 second_tables 3 "gap"
    eq_refl second_worker_run _ _)).
  - repeat constructor; simpl; discriminate.
  - unfold minutes, FETCH_LEASE_MINUTES. lia.
Defined.

Lemma failed_search_abandons_hour_witness :
  exists r, row_of sample_hour (mark_hourly_ingest_failed 1 sample_hour "relay down" None None
    (snd (claim_hourly_ingest_search 1 sample_hour claimed_tables))) = Some r /\ abandoned r.
Proof.
  refine (proj2 (failed_search_abandons_hour sample_hour claimed_tables 1 "relay down" None None [] 1 _
    _ (hrun_nil _ _) _)).
  - vm_compute. reflexivity.
  - constructor.
Defined.
