(* ===== verification/Coordination.v ===== *)
(** * Worker coordination (backend-rust/src/workers/coordination.rs)

    Which process may run a scheduler domain, which process executes one job,
    and the log of runs.  Each SQL statement is a function on the tables at the
    instant [now()]; instants are microseconds.  Owner ids and keys fit the
    columns of their tables (an owner is "rust:", the host, the pid and a
    UUID), so the [varchar] casts of the statements are the identity. *)

From S2P Require Import Prelude Json Lifecycle.

Definition SCHEDULER_KEYS : list string :=
  ["ranked_tracker"; "auto_ingester"; "baseline_tracker"; "derived_projection_tracker";
   "hourly_gap_checker"; "tier_stats"].

Definition is_scheduler_key (key : string) : bool := existsb (String.eqb key) SCHEDULER_KEYS.

(** ** Tables *)

Record SchedulerAssignment := { desired_engine : string; generation : Z }.

Record OwnershipRow := {
  own_owner : string;
  own_engine : string;
  own_lease_until : Z;
  own_acquired_at : Z;
  own_heartbeat_at : Z;
  own_updated_at : Z;
}.

Record JobRow := {
  job_scheduler : string;
  job_owner : string;
  job_lease_until : Z;
  job_started_at : Z;
  job_heartbeat_at : Z;
  job_attempt : Z;
  job_updated_at : Z;
}.

Record RunRow := {
  run_job : string;
  run_scheduler : string;
  run_owner : string;
  run_trigger : string;
  run_status : string;
  run_started_at : Z;
  run_completed_at : option Z;
  run_duration_ms : option Z;
  run_result : option value;
  run_error : option string;
}.

Record Coordination := {
  assignments : gmap string SchedulerAssignment;
  ownership : gmap string OwnershipRow;
  jobs : gmap string JobRow;
  run_log : gmap Z RunRow;
  (** The sequence behind run_id. *)
  next_run : Z;
}.

Definition with_ownership (o : gmap string OwnershipRow) (c : Coordination) : Coordination :=
  {| assignments := assignments c; ownership := o; jobs := jobs c; run_log := run_log c;
     next_run := next_run c |}.

Definition with_jobs (j : gmap string JobRow) (c : Coordination) : Coordination :=
  {| assignments := assignments c; ownership := ownership c; jobs := j; run_log := run_log c;
     next_run := next_run c |}.

Definition with_runs (r : gmap Z RunRow) (n : Z) (c : Coordination) : Coordination :=
  {| assignments := assignments c; ownership := ownership c; jobs := jobs c; run_log := r;
     next_run := n |}.

Definition with_assignments (a : gmap string SchedulerAssignment) (c : Coordination) : Coordination :=
  {| assignments := a; ownership := ownership c; jobs := jobs c; run_log := run_log c;
     next_run := next_run c |}.

(** The identity a worker keeps of a lease it won. *)
Record JobLease := { lease_job_key : string; lease_scheduler_key : string; lease_owner_id : string }.

(** ** Scheduler ownership *)

Definition assigned_to_rust (key : string) (c : Coordination) : bool :=
  match assignments c !! key with
  | Some a => String.eqb (desired_engine a) "rust"
  | None => false
  end.

Definition owned_row (now : Z) (owner : string) (secs : Z) (old : option OwnershipRow) : OwnershipRow :=
  {| own_owner := owner; own_engine := "rust";
     own_lease_until := now + seconds (lease_seconds secs);
     own_acquired_at := match old with
                        | Some r => if String.eqb (own_owner r) owner then own_acquired_at r else now
                        | None => now
                        end;
     own_heartbeat_at := now; own_updated_at := now |}.

(** The INSERT ... ON CONFLICT of one domain. *)
Definition acquire_statement (now : Z) (key owner : string) (secs : Z) (c : Coordination) :
    bool * Coordination :=
  if assigned_to_rust key c then
    match ownership c !! key with
    | None => (true, with_ownership (<[key := owned_row now owner secs None]> (ownership c)) c)
    | Some r =>
        if (own_lease_until r <=? now) || String.eqb (own_owner r) owner
        then (true, with_ownership (<[key := owned_row now owner secs (Some r)]> (ownership c)) c)
        else (false, c)
    end
  else (false, c).

Definition acquire_scheduler_owner (now : Z) (key owner : string) (secs : Z) (c : Coordination) :
    bool * Coordination :=
  if negb (is_scheduler_key key) then (false, c) else acquire_statement now key owner secs c.

Definition heartbeat_row (now secs : Z) (r : OwnershipRow) : OwnershipRow :=
  {| own_owner := own_owner r; own_engine := own_engine r;
     own_lease_until := now + seconds (lease_seconds secs); own_acquired_at := own_acquired_at r;
     own_heartbeat_at := now; own_updated_at := now |}.

(** The WHERE clause the two heartbeats share. *)
Definition heartbeat_due (now : Z) (key owner : string) (c : Coordination) (r : OwnershipRow) : bool :=
  String.eqb (own_owner r) owner && String.eqb (own_engine r) "rust" && (now <? own_lease_until r)
  && assigned_to_rust key c.

Definition heartbeat_scheduler_owner (now : Z) (key owner : string) (secs : Z) (c : Coordination) :
    bool * Coordination :=
  if negb (is_scheduler_key key) then (false, c) else
  match ownership c !! key with
  | Some r =>
      if heartbeat_due now key owner c r
      then (true, with_ownership (<[key := heartbeat_row now secs r]> (ownership c)) c)
      else (false, c)
  | None => (false, c)
  end.

Definition releasable (owner : string) (r : OwnershipRow) : bool :=
  String.eqb (own_owner r) owner && String.eqb (own_engine r) "rust".

Definition release_scheduler_owner (key owner : string) (c : Coordination) : bool * Coordination :=
  if negb (is_scheduler_key key) then (false, c) else
  match ownership c !! key with
  | Some r => if releasable owner r then (true, with_ownership (delete key (ownership c)) c) else (false, c)
  | None => (false, c)
  end.

(** The loop of the transaction: how many domains were acquired. *)
Fixpoint acquire_each (now : Z) (keys : list string) (owner : string) (secs : Z) (c : Coordination) :
    nat * Coordination :=
  match keys with
  | [] => (0%nat, c)
  | key :: r =>
      let '(won, c1) := acquire_statement now key owner secs c in
      let '(n, c2) := acquire_each now r owner secs c1 in
      ((if won then S n else n), c2)
  end.

(** Commit when every domain was acquired, roll back otherwise. *)
Definition acquire_all_scheduler_owners (now : Z) (owner : string) (secs : Z) (c : Coordination) :
    bool * Coordination :=
  let '(acquired, c') := acquire_each now SCHEDULER_KEYS owner secs c in
  if (acquired =? length SCHEDULER_KEYS)%nat then (true, c') else (false, c).

(** One UPDATE over the six domains: whether it updated all of them. *)
Definition heartbeat_scheduler_owners (now : Z) (owner : string) (secs : Z) (c : Coordination) :
    bool * Coordination :=
  let due key r := is_scheduler_key key && heartbeat_due now key owner c r in
  let updated := filter (fun x => due (fst x) (snd x) = true) (map_to_list (ownership c)) in
  ((length updated =? length SCHEDULER_KEYS)%nat,
   with_ownership (map_imap (fun key r => Some (if due key r then heartbeat_row now secs r else r))
     (ownership c)) c).

Definition release_scheduler_owners (owner : string) (c : Coordination) : Z * Coordination :=
  let gone key r := is_scheduler_key key && releasable owner r in
  (Z.of_nat (length (filter (fun x => gone (fst x) (snd x) = true) (map_to_list (ownership c)))),
   with_ownership (filter (fun x => gone (fst x) (snd x) = false) (ownership c)) c).

(** ** Jobs *)

(** A live ownership row of the Rust engine for this scheduler and owner. *)
Definition owns_scheduler (now : Z) (scheduler owner : string) (c : Coordination) : bool :=
  match ownership c !! scheduler with
  | Some r => String.eqb (own_owner r) owner && String.eqb (own_engine r) "rust" && (now <? own_lease_until r)
  | None => false
  end.

Definition job_row (now : Z) (scheduler owner : string) (secs attempt : Z) : JobRow :=
  {| job_scheduler := scheduler; job_owner := owner;
     job_lease_until := now + seconds (lease_seconds secs); job_started_at := now;
     job_heartbeat_at := now; job_attempt := attempt; job_updated_at := now |}.

(** A job lease still binds while it has not expired and its owner still owns
    the scheduler it took the job for. *)
Definition job_held (now : Z) (c : Coordination) (j : JobRow) : bool :=
  (now <? job_lease_until j) && owns_scheduler now (job_scheduler j) (job_owner j) c.

Definition acquire_job (now : Z) (job scheduler owner : string) (secs : Z) (c : Coordination) :
    option JobLease * Coordination :=
  let lease := {| lease_job_key := job; lease_scheduler_key := scheduler; lease_owner_id := owner |} in
  if owns_scheduler now scheduler owner c then
    match jobs c !! job with
    | None => (Some lease, with_jobs (<[job := job_row now scheduler owner secs 1]> (jobs c)) c)
    | Some j =>
        if job_held now c j then (None, c)
        else (Some lease, with_jobs (<[job := job_row now scheduler owner secs (job_attempt j + 1)]> (jobs c)) c)
    end
  else (None, c).

Definition release_job (lease : JobLease) (c : Coordination) : bool * Coordination :=
  match jobs c !! lease_job_key lease with
  | Some j =>
      if String.eqb (job_scheduler j) (lease_scheduler_key lease)
         && String.eqb (job_owner j) (lease_owner_id lease)
      then (true, with_jobs (delete (lease_job_key lease) (jobs c)) c)
      else (false, c)
  | None => (false, c)
  end.

(** ** The run log *)

Definition start_run (now : Z) (lease : JobLease) (trigger : string) (c : Coordination) : Z * Coordination :=
  let id := next_run c in
  (id, with_runs (<[id :=
      {| run_job := lease_job_key lease; run_scheduler := lease_scheduler_key lease;
         run_owner := lease_owner_id lease; run_trigger := trigger; run_status := "running";
         run_started_at := now; run_completed_at := None; run_duration_ms := None;
         run_result := None; run_error := None |}]> (run_log c)) (id + 1) c).

(** [GREATEST(0, (EXTRACT(EPOCH FROM elapsed) * 1000)::bigint)]: the cast of
    a numeric rounds to the nearest integer. *)
Definition elapsed_ms (now started : Z) : Z := Z.max 0 ((now - started + 500) / 1000).

Definition finish_run (now id : Z) (status : string) (result : option value) (error : option string)
    (c : Coordination) : bool * Coordination :=
  match run_log c !! id with
  | Some r =>
      if String.eqb (run_status r) "running" then
        (true, with_runs (<[id :=
           {| run_job := run_job r; run_scheduler := run_scheduler r; run_owner := run_owner r;
              run_trigger := run_trigger r; run_status := status; run_started_at := run_started_at r;
              run_completed_at := Some now; run_duration_ms := Some (elapsed_ms now (run_started_at r));
              run_result := result; run_error := error |}]> (run_log c)) (next_run c) c)
      else (false, c)
  | None => (false, c)
  end.

(** ** Interleavings *)

(** A statement of the process [owner], or a change of assignment by an operator. *)
Inductive coord_step (now : Z) : option string -> Coordination -> Coordination -> Prop :=
| cstep_acquire key owner secs c :
    coord_step now (Some owner) c (snd (acquire_scheduler_owner now key owner secs c))
| cstep_heartbeat key owner secs c :
    coord_step now (Some owner) c (snd (heartbeat_scheduler_owner now key owner secs c))
| cstep_release key owner c : coord_step now (Some owner) c (snd (release_scheduler_owner key owner c))
| cstep_acquire_all owner secs c :
    coord_step now (Some owner) c (snd (acquire_all_scheduler_owners now owner secs c))
| cstep_heartbeat_all owner secs c :
    coord_step now (Some owner) c (snd (heartbeat_scheduler_owners now owner secs c))
| cstep_release_all owner c : coord_step now (Some owner) c (snd (release_scheduler_owners owner c))
| cstep_job job scheduler owner secs c :
    coord_step now (Some owner) c (snd (acquire_job now job scheduler owner secs c))
| cstep_release_job lease c : coord_step now (Some (lease_owner_id lease)) c (snd (release_job lease c))
| cstep_start lease trigger c :
    coord_step now (Some (lease_owner_id lease)) c (snd (start_run now lease trigger c))
| cstep_finish owner id status result error c :
    coord_step now (Some owner) c (snd (finish_run now id status result error c))
| cstep_assign a c : coord_step now None c (with_assignments a c).

Inductive coord_run : Z -> list (option string * Z) -> Coordination -> Z -> Coordination -> Prop :=
| crun_nil now c : coord_run now [] c now c
| crun_cons now a now1 tr c c1 now2 c2 :
    now <= now1 -> coord_step now1 a c c1 -> coord_run now1 tr c1 now2 c2 ->
    coord_run now ((a, now1) :: tr) c now2 c2.

(** * Properties of worker coordination

    A domain has one owner, a job one executor, the final wave is all or
    nothing, and a run is finished once. *)

(** ** Ownership under the statements of others *)

Definition held_by (owner : string) (now : Z) (r : OwnershipRow) : Prop :=
  own_owner r = owner /\ now < own_lease_until r.

Lemma eqb_other (a b : string) : a <> b -> String.eqb a b = false.
Proof. by apply String.eqb_neq. Qed.

Lemma acquire_statement_same now key other secs c k r owner :
  ownership c !! k = Some r -> held_by owner now r -> other <> owner ->
  ownership (snd (acquire_statement now key other secs c)) !! k = Some r /\
  (k = key -> acquire_statement now key other secs c = (false, c)).
Proof.
  intros Hr [Ho Hlt] Hne. unfold acquire_statement. destruct (assigned_to_rust key c); [|done].
  destruct (decide (key = k)) as [->|Hk].
  - rewrite Hr. assert ((own_lease_until r <=? now) || String.eqb (own_owner r) other = false) as ->; [|done].
    rewrite Ho, eqb_other by congruence. rewrite orb_false_r. apply Z.leb_gt. lia.
  - split; [|congruence]. destruct (ownership c !! key) as [r'|]; [destruct (_ || _)|]; simpl;
      by rewrite ?lookup_insert_ne.
Qed.

Lemma acquire_each_same now keys other secs c k r owner :
  ownership c !! k = Some r -> held_by owner now r -> other <> owner ->
  ownership (snd (acquire_each now keys other secs c)) !! k = Some r /\
  (fst (acquire_each now keys other secs c) <= length keys)%nat /\
  (k ∈ keys -> (fst (acquire_each now keys other secs c) < length keys)%nat).
Proof.
  intros Hr Hh Hne. revert c Hr. induction keys as [|key r' IH]; intros c Hr; simpl.
  { split_and!; [done|lia|]. by intros ?%elem_of_nil. }
  destruct (acquire_statement_same now key other secs c k r owner Hr Hh Hne) as [Hr' Hlost].
  destruct (acquire_statement now key other secs c) as [won c1]. simpl in *.
  destruct (IH c1 Hr') as (H1 & H2 & H3). destruct (acquire_each now r' other secs c1) as [n c2].
  simpl in *. split_and!; [done|destruct won; lia|].
  intros [->|Hin]%elem_of_cons.
  - specialize (Hlost eq_refl) as [= -> _]. lia.
  - specialize (H3 Hin). destruct won; lia.
Qed.

(** Statements on jobs and runs leave the ownership alone. *)
Lemma acquire_job_ownership now job s o secs c : ownership (snd (acquire_job now job s o secs c)) = ownership c.
Proof. unfold acquire_job. by repeat case_match. Qed.

Lemma release_job_ownership lease c : ownership (snd (release_job lease c)) = ownership c.
Proof. unfold release_job. by repeat case_match. Qed.

Lemma finish_run_ownership now id st res e c : ownership (snd (finish_run now id st res e c)) = ownership c.
Proof. unfold finish_run. by repeat case_match. Qed.

Lemma held_step now a c c' k r owner :
  coord_step now a c c' -> a <> Some owner -> is_scheduler_key k = true ->
  ownership c !! k = Some r -> held_by owner now r -> ownership c' !! k = Some r.
Proof.
  intros Hs Ha Hk Hr Hh. assert (own_owner r = owner) as Ho by apply Hh.
  destruct Hs as [key o secs c|key o secs c|key o c|o secs c|o secs c|o c|job s o secs c|lease c|lease tr c|o id st res e c|a c];
    simpl; try done.
  - unfold acquire_scheduler_owner. destruct (is_scheduler_key key); simpl; [|done].
    apply (acquire_statement_same now key o secs c k r owner); [done|done|congruence].
  - unfold heartbeat_scheduler_owner. destruct (is_scheduler_key key); simpl; [|done].
    destruct (decide (key = k)) as [->|Hne].
    + rewrite Hr. unfold heartbeat_due. by rewrite Ho, (eqb_other owner o) by congruence.
    + destruct (ownership c !! key) as [r'|]; [|done]. destruct (heartbeat_due _ _ _ _ _); simpl;
        by rewrite ?lookup_insert_ne.
  - unfold release_scheduler_owner. destruct (is_scheduler_key key); simpl; [|done].
    destruct (decide (key = k)) as [->|Hne].
    + rewrite Hr. unfold releasable. by rewrite Ho, (eqb_other owner o) by congruence.
    + destruct (ownership c !! key) as [r'|]; [|done]. destruct (releasable _ _); simpl;
        by rewrite ?lookup_delete_ne.
  - unfold acquire_all_scheduler_owners.
    destruct (acquire_each_same now SCHEDULER_KEYS o secs c k r owner Hr Hh) as (H1 & _); [congruence|].
    destruct (acquire_each now SCHEDULER_KEYS o secs c) as [n c']. by destruct (n =? _)%nat.
  - rewrite map_lookup_imap, Hr. simpl. unfold heartbeat_due.
    by rewrite Ho, (eqb_other owner o), andb_false_r by congruence.
  - apply map_lookup_filter_Some. split; [done|]. simpl. unfold releasable.
    by rewrite Ho, (eqb_other owner o), andb_false_r by congruence.
  - by rewrite acquire_job_ownership.
  - by rewrite release_job_ownership.
  - by rewrite finish_run_ownership.
Qed.

Lemma held_run now0 tr c now1 c1 k r owner :
  coord_run now0 tr c now1 c1 -> Forall (fun x => fst x <> Some owner) tr ->
  is_scheduler_key k = true -> ownership c !! k = Some r -> own_owner r = owner ->
  now1 < own_lease_until r -> ownership c1 !! k = Some r.
Proof.
  intros Hrun. induction Hrun as [|now a nowa tr c ca nowb cb Hle Hs Hrun IH];
    intros Hf Hk Hr Ho Hlt; [done|].
  apply Forall_cons in Hf as [Ha Hf]. simpl in Ha.
  assert (nowa <= nowb) as Hab by (clear -Hrun; induction Hrun; lia).
  apply IH; try done. eapply held_step; [exact Hs|done..|]. split; [done|lia].
Qed.

(** C23. A scheduler domain has one owner: while the lease of the owner runs,
    whatever the other processes and the operator do, the owner keeps it, and
    no other process acquires the domain, acquires all domains, or takes a job
    under it. *)
Theorem scheduler_owner_exclusive now0 tr c now1 c1 k r owner other secs now job :
  coord_run now0 tr c now1 c1 -> Forall (fun x => fst x <> Some owner) tr ->
  is_scheduler_key k = true -> ownership c !! k = Some r -> own_owner r = owner ->
  now1 <= now < own_lease_until r -> other <> owner ->
  ownership c1 !! k = Some r /\
  acquire_scheduler_owner now k other secs c1 = (false, c1) /\
  acquire_all_scheduler_owners now other secs c1 = (false, c1) /\
  acquire_job now job k other secs c1 = (None, c1).
Proof.
  intros Hrun Hf Hk Hr Ho Hnow Hne.
  assert (ownership c1 !! k = Some r) as Hr1 by (eapply held_run; eauto; lia).
  assert (held_by owner now r) as Hh by (split; [done|lia]).
  split_and!.
  - done.
  - unfold acquire_scheduler_owner. rewrite Hk. simpl.
    by apply (acquire_statement_same now k other secs c1 k r owner).
  - unfold acquire_all_scheduler_owners.
    destruct (acquire_each_same now SCHEDULER_KEYS other secs c1 k r owner Hr1 Hh Hne) as (_ & _ & Hlt).
    destruct (acquire_each now SCHEDULER_KEYS other secs c1) as [n c'].
    assert (k ∈ SCHEDULER_KEYS) as Hin.
    { unfold is_scheduler_key in Hk. apply existsb_exists in Hk as (x & Hx & ->%String.eqb_eq).
      by apply list_elem_of_In. }
    specialize (Hlt Hin). cbn [fst] in Hlt. by rewrite (proj2 (Nat.eqb_neq _ _)) by lia.
  - unfold acquire_job, owns_scheduler. rewrite Hr1. by rewrite Ho, (eqb_other owner other) by congruence.
Qed.

(** ** Jobs *)

Lemma acquire_job_other now job s o secs c j : j <> job -> jobs (snd (acquire_job now job s o secs c)) !! j = jobs c !! j.
Proof. intros Hne. unfold acquire_job. repeat case_match; simpl; by rewrite ?lookup_insert_ne. Qed.

Lemma acquire_statement_jobs now key o secs c : jobs (snd (acquire_statement now key o secs c)) = jobs c.
Proof. unfold acquire_statement. by repeat case_match. Qed.

Lemma acquire_each_jobs now keys o secs c : jobs (snd (acquire_each now keys o secs c)) = jobs c.
Proof.
  revert c. induction keys as [|k r IH]; intros c; simpl; [done|].
  pose proof (acquire_statement_jobs now k o secs c) as H.
  destruct (acquire_statement now k o secs c) as [won c1]. specialize (IH c1).
  destruct (acquire_each now r o secs c1) as [n c2]. simpl in *. congruence.
Qed.

Lemma job_step now a c c' job j owner :
  coord_step now a c c' -> a <> Some owner ->
  jobs c !! job = Some j -> job_owner j = owner -> job_held now c j = true -> jobs c' !! job = Some j.
Proof.
  intros Hs Ha Hj Ho Hh.
  destruct Hs as [key o secs c|key o secs c|key o c|o secs c|o secs c|o c|jb s o secs c|lease c|lease tr c|o id st res e c|a c];
    simpl; try done.
  - unfold acquire_scheduler_owner. destruct (is_scheduler_key key); simpl; [|done].
    by rewrite acquire_statement_jobs.
  - unfold heartbeat_scheduler_owner. by repeat case_match.
  - unfold release_scheduler_owner. by repeat case_match.
  - unfold acquire_all_scheduler_owners. pose proof (acquire_each_jobs now SCHEDULER_KEYS o secs c) as E.
    destruct (acquire_each now SCHEDULER_KEYS o secs c) as [n c']. simpl in E.
    destruct (n =? _)%nat; simpl; by rewrite ?E.
  - destruct (decide (job = jb)) as [->|Hne]; [|by rewrite acquire_job_other].
    unfold acquire_job. destruct (owns_scheduler _ _ _ _); [|done]. by rewrite Hj, Hh.
  - unfold release_job. destruct (decide (job = lease_job_key lease)) as [->|Hne].
    + rewrite Hj. rewrite Ho, (eqb_other owner (lease_owner_id lease)) by congruence.
      by rewrite andb_false_r.
    + repeat case_match; simpl; by rewrite ?lookup_delete_ne.
  - unfold finish_run. by repeat case_match.
Qed.

(** A job runs once at a time: while the holder of a job lease keeps its
    scheduler domain and the lease has not expired, no process acquires the
    job, the holder itself included, and the lease stays as it was. *)
Theorem job_single_flight now0 tr c now1 c1 job j r now owner scheduler secs :
  coord_run now0 tr c now1 c1 -> Forall (fun x => fst x <> Some (job_owner j)) tr ->
  jobs c !! job = Some j -> is_scheduler_key (job_scheduler j) = true ->
  ownership c !! job_scheduler j = Some r -> own_owner r = job_owner j -> own_engine r = "rust" ->
  now1 <= now -> now < own_lease_until r -> now < job_lease_until j ->
  jobs c1 !! job = Some j /\ acquire_job now job scheduler owner secs c1 = (None, c1).
Proof.
  intros Hrun Hf Hj Hk Hr Ho He H1 H2 H3.
  assert (forall t x, t <= now -> ownership x !! job_scheduler j = Some r -> job_held t x j = true) as Hheld.
  { intros t x Ht Hx. unfold job_held, owns_scheduler. rewrite Hx, Ho, He, String.eqb_refl. simpl.
    rewrite andb_true_iff, !Z.ltb_lt. lia. }
  assert (ownership c1 !! job_scheduler j = Some r) as Hr1 by (eapply held_run; eauto; lia).
  assert (jobs c1 !! job = Some j) as Hj1.
  { assert (now1 <= now) as Hle1 by lia. clear Hr1. revert Hle1 Hf Hj Hr.
    induction Hrun as [|t a ta tr c ca tb cb Hle Hs Hrun IH]; intros Hle1 Hf Hj Hr; [done|].
    apply Forall_cons in Hf as [Ha Hf]. simpl in Ha.
    assert (ta <= tb) as Hab by (clear -Hrun; induction Hrun; lia).
    apply IH; try done.
    - eapply job_step; [exact Hs|done|done|done|]. apply Hheld; [lia|done].
    - eapply held_step; [exact Hs|done|done|done|]. split; [done|lia]. }
  split; [done|]. unfold acquire_job. destruct (owns_scheduler _ _ _ _); [|done].
  by rewrite Hj1, Hheld by (done || lia).
Qed.

(** ** The final wave *)

(** What one acquisition depends on: the assignment and the row of its key. *)
Lemma acquire_statement_ext now key owner secs c c' :
  assignments c' = assignments c -> ownership c' !! key = ownership c !! key ->
  fst (acquire_statement now key owner secs c') = fst (acquire_statement now key owner secs c).
Proof.
  intros Ha Hr. unfold acquire_statement, assigned_to_rust. rewrite Ha, Hr. by repeat case_match.
Qed.

Lemma acquire_statement_frame now key owner secs c :
  assignments (snd (acquire_statement now key owner secs c)) = assignments c /\
  (forall k, k <> key -> ownership (snd (acquire_statement now key owner secs c)) !! k = ownership c !! k) /\
  (fst (acquire_statement now key owner secs c) = true ->
     exists r, ownership (snd (acquire_statement now key owner secs c)) !! key = Some r /\
       own_owner r = owner /\ own_engine r = "rust" /\
       own_lease_until r = now + seconds (lease_seconds secs)).
Proof.
  unfold acquire_statement. split_and!.
  - by repeat case_match.
  - intros k Hk. repeat case_match; simpl; by rewrite ?lookup_insert_ne.
  - destruct (assigned_to_rust key c); [|done].
    destruct (ownership c !! key) as [r|]; [destruct (_ || _); [|done]|]; simpl; intros _;
      rewrite lookup_insert_eq; eexists; by split_and!.
Qed.

Lemma acquire_each_spec now keys owner secs c :
  NoDup keys ->
  let '(n, c') := acquire_each now keys owner secs c in
  (n <= length keys)%nat /\ assignments c' = assignments c /\
  (forall k, k ∉ keys -> ownership c' !! k = ownership c !! k) /\
  (n = length keys <-> forall k, k ∈ keys -> fst (acquire_statement now k owner secs c) = true) /\
  (n = length keys -> forall k, k ∈ keys -> exists r, ownership c' !! k = Some r /\
     own_owner r = owner /\ own_engine r = "rust" /\
     own_lease_until r = now + seconds (lease_seconds secs)).
Proof.
  intros Hnd. revert c. induction Hnd as [|key keys Hin Hnd IH]; intros c; simpl.
  { split_and!; try done; try lia; set_solver. }
  destruct (acquire_statement_frame now key owner secs c) as (Ha & Hf & Hw).
  destruct (acquire_statement now key owner secs c) as [won c1] eqn:E1. simpl in *.
  specialize (IH c1). destruct (acquire_each now keys owner secs c1) as [n c2].
  destruct IH as (I1 & I2 & I3 & I4 & I5).
  assert (forall k, k ∈ keys -> fst (acquire_statement now k owner secs c1)
                              = fst (acquire_statement now k owner secs c)) as Hext.
  { intros k Hk. apply acquire_statement_ext; [done|]. apply Hf. intros ->. done. }
  split_and!.
  - destruct won; lia.
  - congruence.
  - intros k Hk. rewrite I3 by set_solver. apply Hf. set_solver.
  - split.
    + intros Hn k [->|Hk]%elem_of_cons.
      * rewrite E1. destruct won; [done|lia].
      * rewrite <-Hext by done. apply I4; [destruct won; lia|done].
    + intros Hall. assert (won = true) as ->.
      { specialize (Hall key (list_elem_of_here _ _)). by rewrite E1 in Hall. }
      f_equal. apply I4. intros k Hk. rewrite Hext by done. apply Hall. by right.
  - intros Hn k Hk. assert (won = true /\ n = length keys) as [-> Hn'] by (destruct won; split; lia || done).
    apply elem_of_cons in Hk as [->|Hk]; [|by apply I5].
    rewrite I3 by done. by apply Hw.
Qed.

(** The final wave is atomic: acquire_all_scheduler_owners succeeds
    exactly when each of the six domains could be acquired, and then the
    process owns all six under one lease; otherwise nothing changes. *)
Theorem acquire_all_atomic now owner secs c :
  let '(won, c') := acquire_all_scheduler_owners now owner secs c in
  (won = true <-> forall k, is_scheduler_key k = true ->
     fst (acquire_scheduler_owner now k owner secs c) = true) /\
  (won = true -> forall k, is_scheduler_key k = true -> exists r, ownership c' !! k = Some r /\
     own_owner r = owner /\ own_engine r = "rust" /\
     own_lease_until r = now + seconds (lease_seconds secs)) /\
  (forall k, is_scheduler_key k = false -> ownership c' !! k = ownership c !! k) /\
  (won = false -> c' = c).
Proof.
  assert (forall k, is_scheduler_key k = true <-> k ∈ SCHEDULER_KEYS) as Hkey.
  { intros k. unfold is_scheduler_key. rewrite existsb_exists. split.
    - intros (x & Hx & ->%String.eqb_eq). by apply list_elem_of_In.
    - intros H. exists k. split; [by apply list_elem_of_In|apply String.eqb_refl]. }
  unfold acquire_all_scheduler_owners.
  pose proof (acquire_each_spec now SCHEDULER_KEYS owner secs c) as Hs.
  destruct (acquire_each now SCHEDULER_KEYS owner secs c) as [n c'].
  destruct Hs as (H1 & H2 & H3 & H4 & H5); [by apply (bool_decide_unpack _); vm_compute|].
  assert ((n = length SCHEDULER_KEYS <-> forall k, is_scheduler_key k = true ->
     fst (acquire_scheduler_owner now k owner secs c) = true)) as H4'.
  { rewrite H4. unfold acquire_scheduler_owner. split; intros H k Hk.
    - rewrite Hk. by apply H, Hkey.
    - apply Hkey in Hk. specialize (H k Hk). by rewrite Hk in H. }
  assert (forall k, is_scheduler_key k = false -> k ∉ SCHEDULER_KEYS) as Hno.
  { intros k Hk Hin. apply Hkey in Hin. congruence. }
  destruct (Nat.eqb_spec n (length SCHEDULER_KEYS)) as [E|E]; split_and!.
  - by rewrite <-H4'.
  - intros _ k Hk. by apply H5, Hkey.
  - intros k Hk. by apply H3, Hno.
  - done.
  - rewrite <-H4'. split; [done|]. by intros ?.
  - done.
  - done.
  - done.
Qed.

(** ** The run log *)

(** A run is finished once: the second report finds nothing to update. *)
Lemma finish_run_once now id status result error c now' status' result' error' :
  status <> "running" ->
  fst (finish_run now id status result error c) = true ->
  let c1 := snd (finish_run now id status result error c) in
  finish_run now' id status' result' error' c1 = (false, c1).
Proof.
  intros Hs. unfold finish_run. destruct (run_log c !! id) as [r|] eqn:E; [|done].
  destruct (String.eqb (run_status r) "running"); [|done]. intros _. simpl.
  rewrite lookup_insert_eq. simpl. by rewrite eqb_other.
Qed.

(** ** Two workers *)

Definition all_rust : gmap string SchedulerAssignment :=
  list_to_map (map (fun k => (k, {| desired_engine := "rust"; generation := 1 |})) SCHEDULER_KEYS).

Definition no_workers : Coordination :=
  {| assignments := all_rust; ownership := ∅; jobs := ∅; run_log := ∅; next_run := 1 |}.

Definition one_worker : Coordination := snd (acquire_all_scheduler_owners 0 "w1" 60 no_workers).
Definition one_job : Coordination := snd (acquire_job 1 "ingest" "auto_ingester" "w1" 30 one_worker).

Definition w1_row : OwnershipRow :=
  {| own_owner := "w1"; own_engine := "rust"; own_lease_until := 60000000; own_acquired_at := 0;
     own_heartbeat_at := 0; own_updated_at := 0 |}.

Lemma scheduler_owner_exclusive_witness :
  acquire_scheduler_owner 5 "tier_stats" "w2" 60 one_worker = (false, one_worker).
Proof.
  refine (proj1 (proj2 (scheduler_owner_exclusive 0 [] one_worker 0 one_worker "tier_stats" w1_row "w1" "w2"
    60 5 "ingest" (crun_nil _ _) _ _ _ _ _ _))).
  - constructor.
  - reflexivity.
  - vm_compute. reflexivity.
  - reflexivity.
  - simpl. lia.
  - discriminate.
Defined.

Lemma job_single_flight_witness :
  acquire_job 5 "ingest" "auto_ingester" "w1" 30 one_job = (None, one_job).
Proof.
  refine (proj2 (job_single_flight 1 [] one_job 1 one_job "ingest" (job_row 1 "auto_ingester" "w1" 30 1)
    w1_row 5 "w1" "auto_ingester" 30 (crun_nil _ _) _ _ _ _ _ _ _ _ _)).
  - constructor.
  - vm_compute. reflexivity.
  - reflexivity.
  - vm_compute. reflexivity.
  - reflexivity.
  - reflexivity.
  - lia.
  - simpl. lia.
  - vm_compute. reflexivity.
Defined.
