(* ===== verification/Regex.v ===== *)
(** * The regular expressions of the program's patterns

    The patterns of security.rs use a small part of the syntax of the regex
    crate: anchored sequences of literals, classes, [\d], groups of
    alternatives and the quantifiers [?], [*], [+] and [{n,}].  A pattern is
    parsed from the text in the source, and matched by derivatives.  The texts
    it is matched against are ASCII: the path of a parsed URL, percent-encoded,
    and a header value. *)

From S2P Require Import Prelude.

(** A class: ranges of bytes, or everything outside of them. *)
Record CharClass := { class_negated : bool; class_ranges : list (Z * Z) }.

Definition in_class (cl : CharClass) (c : ascii) : bool :=
  xorb (class_negated cl)
    (existsb (fun r => (fst r <=? byte_of c) && (byte_of c <=? snd r)) (class_ranges cl)).

Inductive re :=
  | Void
  | Eps
  | Chr (cl : CharClass)
  | Cat (a b : re)
  | Alt (a b : re)
  | Star (a : re).

(** ** Matching *)

Fixpoint nullable (r : re) : bool :=
  match r with
  | Void | Chr _ => false
  | Eps | Star _ => true
  | Cat a b => nullable a && nullable b
  | Alt a b => nullable a || nullable b
  end.

(** The expressions are kept free of [Void] operands. *)
Definition cat (a b : re) : re :=
  match a, b with
  | Void, _ | _, Void => Void
  | Eps, b => b
  | a, b => Cat a b
  end.

Definition alt (a b : re) : re :=
  match a, b with
  | Void, b => b
  | a, Void => a
  | a, b => Alt a b
  end.

Fixpoint deriv (c : ascii) (r : re) : re :=
  match r with
  | Void | Eps => Void
  | Chr cl => if in_class cl c then Eps else Void
  | Cat a b => if nullable a then alt (cat (deriv c a) b) (deriv c b) else cat (deriv c a) b
  | Alt a b => alt (deriv c a) (deriv c b)
  | Star a => cat (deriv c a) (Star a)
  end.

Fixpoint derivs (s : string) (r : re) : re :=
  match s with
  | EmptyString => r
  | String c s => derivs s (deriv c r)
  end.

(** [Regex::is_match] for a pattern anchored at both ends. *)
Definition re_match (r : re) (s : string) : bool := nullable (derivs s r).

(** The language of an expression. *)
Inductive lang : re -> string -> Prop :=
  | lang_eps : lang Eps ""
  | lang_chr cl c : in_class cl c = true -> lang (Chr cl) (String c "")
  | lang_cat a b s t : lang a s -> lang b t -> lang (Cat a b) (s +:+ t)
  | lang_alt_l a b s : lang a s -> lang (Alt a b) s
  | lang_alt_r a b s : lang b s -> lang (Alt a b) s
  | lang_star_nil a : lang (Star a) ""
  | lang_star_cons a s t : lang a s -> lang (Star a) t -> lang (Star a) (s +:+ t).
#[local] Hint Constructors lang : core.

Lemma lang_void s : lang Void s -> False.
Proof. inversion 1. Qed.

Lemma lang_cat_inv a b s : lang (Cat a b) s -> exists u v, s = u +:+ v /\ lang a u /\ lang b v.
Proof. inversion 1; subst. by exists s0, t. Qed.

Lemma lang_alt_iff a b s : lang (Alt a b) s <-> lang a s \/ lang b s.
Proof. split; [inversion 1; subst; auto|intros [?|?]; auto]. Qed.

Lemma lang_smart_alt a b s : lang (alt a b) s <-> lang (Alt a b) s.
Proof.
  rewrite lang_alt_iff. destruct a, b; simpl; rewrite ?lang_alt_iff;
    split; auto; intros [Hx|Hx]; auto; by apply lang_void in Hx.
Qed.

Lemma lang_smart_cat a b s : lang (cat a b) s <-> lang (Cat a b) s.
Proof.
  destruct a, b; simpl; split; intros Hl; try done; try (by apply lang_void in Hl);
    try (apply (lang_cat Eps _ ""); [constructor|exact Hl]);
    apply lang_cat_inv in Hl as (u & v & -> & Hu & Hv);
    try (by apply lang_void in Hu); try (by apply lang_void in Hv);
    by inversion Hu.
Qed.

Lemma nullable_iff r : nullable r = true <-> lang r "".
Proof.
  induction r as [| |cl|a IHa b IHb|a IHa b IHb|a IHa]; simpl.
  - split; [done|]. by intros ?%lang_void.
  - by split.
  - split; [done|]. inversion 1.
  - rewrite andb_true_iff, IHa, IHb. split.
    + intros [? ?]. by apply (lang_cat a b "" "").
    + intros (u & v & E & Hu & Hv)%lang_cat_inv. by destruct u, v.
  - by rewrite orb_true_iff, IHa, IHb, lang_alt_iff.
  - by split.
Qed.

Lemma lang_star_head a c s :
  lang (Star a) (String c s) -> exists u v, s = u +:+ v /\ lang a (String c u) /\ lang (Star a) v.
Proof.
  intros Hl. remember (Star a) as r eqn:Er. remember (String c s) as w eqn:Ew.
  revert Er c s Ew.
  induction Hl as [| | | | | |b u v Hu _ Hv IH]; intros Er c' s' Ew; try discriminate.
  injection Er as ->. destruct u as [|x u].
  - by apply IH.
  - change (String x (u +:+ v) = String c' s') in Ew. injection Ew as -> <-. by exists u, v.
Qed.

Lemma deriv_iff c r s : lang (deriv c r) s <-> lang r (String c s).
Proof.
  revert s. induction r as [| |cl|a IHa b IHb|a IHa b IHb|a IHa]; intros s; simpl.
  - split; by intros ?%lang_void.
  - split; [by intros ?%lang_void|inversion 1].
  - destruct (in_class cl c) eqn:E; split; intros Hl.
    + inversion Hl; subst. by constructor.
    + inversion Hl; subst. constructor.
    + by apply lang_void in Hl.
    + inversion Hl; congruence.
  - assert (lang (cat (deriv c a) b) s <->
            exists u v, s = u +:+ v /\ lang a (String c u) /\ lang b v) as Hcat.
    { rewrite lang_smart_cat. split.
      - intros (u & v & -> & Hu & Hv)%lang_cat_inv. exists u, v. by rewrite <- IHa.
      - intros (u & v & -> & Hu & Hv). apply lang_cat; [by apply IHa|done]. }
    assert (lang (Cat a b) (String c s) <->
            (exists u v, s = u +:+ v /\ lang a (String c u) /\ lang b v)
            \/ (lang a "" /\ lang b (String c s))) as Hr.
    { split.
      - intros (u & v & E & Hu & Hv)%lang_cat_inv. destruct u as [|x u].
        + right. change (String c s = v) in E. by subst v.
        + change (String c s = String x (u +:+ v)) in E. injection E as <- ->. left. by exists u, v.
      - intros [(u & v & -> & Hu & Hv)|[Hn Hb]].
        + by apply (lang_cat a b (String c u)).
        + by apply (lang_cat a b ""). }
    rewrite Hr, <- nullable_iff. destruct (nullable a) eqn:En.
    + rewrite lang_smart_alt, lang_alt_iff, Hcat, IHb. tauto.
    + rewrite Hcat. split; [tauto|]. by intros [?|[? _]].
  - by rewrite lang_smart_alt, !lang_alt_iff, IHa, IHb.
  - rewrite lang_smart_cat. split.
    + intros (u & v & -> & Hu & Hv)%lang_cat_inv. apply IHa in Hu.
      by apply (lang_star_cons a (String c u)).
    + intros (u & v & -> & Hu & Hv)%lang_star_head. apply lang_cat; [by apply IHa|done].
Qed.

Lemma derivs_iff s r t : lang (derivs s r) t <-> lang r (s +:+ t).
Proof.
  revert r. induction s as [|c s IH]; intros r; simpl; [done|]. by rewrite IH, deriv_iff.
Qed.

Lemma re_match_iff r s : re_match r s = true <-> lang r s.
Proof.
  unfold re_match. rewrite nullable_iff, derivs_iff.
  assert (s +:+ "" = s) as ->; [|done].
  induction s as [|c s IH]; [done|]. change (String c (s +:+ "") = String c s). by rewrite IH.
Qed.

(** After a prefix that leaves nothing to match, nothing matches. *)
Lemma re_match_app r s t : re_match r (s +:+ t) = re_match (derivs s r) t.
Proof.
  unfold re_match. f_equal. revert r. induction s as [|c s IH]; intros r; simpl; [done|apply IH].
Qed.

Lemma derivs_void s : derivs s Void = Void.
Proof. by induction s. Qed.

Lemma re_match_dead r s t : derivs s r = Void -> re_match r (s +:+ t) = false.
Proof. intros Hd. rewrite re_match_app, Hd. unfold re_match. by rewrite derivs_void. Qed.

(** ** Patterns *)

Definition single (c : ascii) : CharClass :=
  {| class_negated := false; class_ranges := [(byte_of c, byte_of c)] |}.

Definition digit_class : CharClass :=
  {| class_negated := false; class_ranges := [(48, 57)] |}.

(** [.] is any character but the line feed. *)
Definition dot_class : CharClass :=
  {| class_negated := true; class_ranges := [(10, 10)] |}.

(** The groups that are open: the alternatives already complete, the sequence
    before the last atom, and that atom, which a quantifier applies to. *)
Record group := { alts : re; before : re; atom : re }.

Definition open_group : group := {| alts := Void; before := Eps; atom := Eps |}.
Definition group_re (g : group) : re := alt (alts g) (cat (before g) (atom g)).
Definition push_atom (r : re) (g : group) : group :=
  {| alts := alts g; before := cat (before g) (atom g); atom := r |}.
Definition map_atom (f : re -> re) (g : group) : group :=
  {| alts := alts g; before := before g; atom := f (atom g) |}.
Definition next_alt (g : group) : group :=
  {| alts := group_re g; before := Eps; atom := Eps |}.

Fixpoint repeat_re (n : nat) (r : re) : re :=
  match n with O => Eps | S n => cat r (repeat_re n r) end.

Inductive mode :=
  | Plain
  | Escaped
  | GroupHead (skipped : nat)
  | InClass (cl : CharClass) (start : option Z) (range : bool)
  | InBraces (n : Z).

Definition close_range (cl : CharClass) (start : option Z) : CharClass :=
  match start with
  | Some b => {| class_negated := class_negated cl; class_ranges := (b, b) :: class_ranges cl |}
  | None => cl
  end.

(** One pass over the text with the stack of open groups, innermost first. *)
Fixpoint parse_go (s : string) (m : mode) (g : group) (outer : list group) : option re :=
  match s with
  | EmptyString => match m, outer with Plain, [] => Some (group_re g) | _, _ => None end
  | String c r =>
      match m with
      | Escaped =>
          parse_go r Plain (push_atom (Chr (if Ascii.eqb c "d" then digit_class else single c)) g) outer
      | GroupHead (S n) => parse_go r (match n with O => Plain | S _ => GroupHead n end) g outer
      | GroupHead O => None
      | InBraces n =>
          if is_digit c then parse_go r (InBraces (10 * n + digit_value c)) g outer
          else if Ascii.eqb c "," then parse_go r (InBraces n) g outer
          else if Ascii.eqb c "}"
          then parse_go r Plain (map_atom (fun a => cat (repeat_re (Z.to_nat n) a) (Star a)) g) outer
          else None
      | InClass cl start range =>
          if Ascii.eqb c "]" then parse_go r Plain (push_atom (Chr (close_range cl start)) g) outer
          else if Ascii.eqb c "^" && negb (class_negated cl) && Z.eqb (Z.of_nat (length (class_ranges cl))) 0
                  && match start with None => true | _ => false end
          then parse_go r (InClass {| class_negated := true; class_ranges := [] |} None false) g outer
          else match start, range with
               | Some b, true =>
                   parse_go r (InClass {| class_negated := class_negated cl;
                                          class_ranges := (b, byte_of c) :: class_ranges cl |} None false)
                     g outer
               | Some b, false =>
                   if Ascii.eqb c "-" && negb (match r with String "]" _ => true | _ => false end)
                   then parse_go r (InClass cl start true) g outer
                   else parse_go r (InClass (close_range cl start) (Some (byte_of c)) false) g outer
               | None, _ => parse_go r (InClass cl (Some (byte_of c)) false) g outer
               end
      | Plain =>
          if Ascii.eqb c "\" then parse_go r Escaped g outer
          else if Ascii.eqb c "(" then parse_go r (GroupHead 2) open_group (g :: outer)
          else if Ascii.eqb c "|" then parse_go r Plain (next_alt g) outer
          else if Ascii.eqb c ")" then
            match outer with
            | [] => None
            | o :: outer => parse_go r Plain (push_atom (group_re g) o) outer
            end
          else if Ascii.eqb c "[" then
            parse_go r (InClass {| class_negated := false; class_ranges := [] |} None false) g outer
          else if Ascii.eqb c "{" then parse_go r (InBraces 0) g outer
          else if Ascii.eqb c "?" then parse_go r Plain (map_atom (alt Eps) g) outer
          else if Ascii.eqb c "*" then parse_go r Plain (map_atom Star g) outer
          else if Ascii.eqb c "+" then parse_go r Plain (map_atom (fun a => cat a (Star a)) g) outer
          else if Ascii.eqb c "." then parse_go r Plain (push_atom (Chr dot_class) g) outer
          else parse_go r Plain (push_atom (Chr (single c)) g) outer
      end
  end.

(** The text between [^] and [$]; a pattern outside of the fragment matches
    nothing, which [parse_anchored] of each pattern excludes. *)
Definition strip_end (s : string) : option string :=
  match String.rev s with
  | String "$" r => Some (String.rev r)
  | _ => None
  end.

Definition parse_anchored (s : string) : option re :=
  match s with
  | String "^" r => r ← strip_end r; parse_go r Plain open_group []
  | _ => None
  end.

Definition pattern (s : string) : re := default Void (parse_anchored s).

(** [Regex::is_match] for the pattern written [text]. *)
Definition is_match (text s : string) : bool := re_match (pattern text) s.

Example is_match_digits :
  is_match "^/players/\d+/(?:matches|champions)$" "/players/17/champions" = true /\
  is_match "^/players/\d+/(?:matches|champions)$" "/players//champions" = false /\
  is_match "^/stats(?:/.*)?$" "/stats" = true /\
  is_match "^/stats(?:/.*)?$" "/stats/a/b" = true /\
  is_match "^/stats(?:/.*)?$" "/statsx" = false /\
  is_match "^/champions/[^/]+$" "/champions/fernando" = true /\
  is_match "^/champions/[^/]+$" "/champions/a/b" = false /\
  is_match "^pc_(?:live|test)_[A-Za-z0-9_-]{3,}$" "pc_live_a-Z" = true /\
  is_match "^pc_(?:live|test)_[A-Za-z0-9_-]{3,}$" "pc_live_a." = false.
Proof. vm_compute. repeat split. Qed.
