(* ===== verification/Cache.v ===== *)
(** * The shared Redis cache (src/paladinscat-core/src/cache.rs)

    [RedisCache] is a client: it sends commands to a Redis server shared with
    other processes and remembers whether it holds a connection.  The server is
    a class, [Redis]: a command is sent and answered, refused or not answered
    in time.  [execute] states what the documentation of Redis promises of the
    commands sent here, and [ServerLaw] that a server keeps to it, where an
    answer may be lost whether or not its command was executed. *)

From S2P Require Import Prelude Json.

(** ** The server *)

(** A value and the instant at which it expires, in milliseconds. *)
Record Entry := { entry_value : string; entry_expires : option Z }.

Record Store := { store_entries : gmap string Entry; store_clock : Z }.

Inductive Reply :=
  | RStatus (s : string)
  | RNil
  | RBulk (s : string)
  | RInt (z : Z)
  | RInts (x y : Z)
  | RError.

Definition alive (now : Z) (e : Entry) : bool :=
  match entry_expires e with Some t => now <? t | None => true end.

(** The value of a key at the server's clock: an expired key is absent. *)
Definition read_key (k : string) (s : Store) : option Entry :=
  match store_entries s !! k with
  | Some e => if alive (store_clock s) e then Some e else None
  | None => None
  end.

Definition write_key (k : string) (e : Entry) (s : Store) : Store :=
  {| store_entries := <[k := e]> (store_entries s); store_clock := store_clock s |}.

Definition remove_key (k : string) (s : Store) : Store :=
  {| store_entries := delete k (store_entries s); store_clock := store_clock s |}.

(** [GET]. *)
Definition redis_get (k : string) (s : Store) : Reply * Store :=
  (match read_key k s with Some e => RBulk (entry_value e) | None => RNil end, s).

(** [SET key value [PX ms]]: the lifetime is positive and its end an i64. *)
Definition redis_set (k v : string) (px : option Z) (s : Store) : Reply * Store :=
  match px with
  | None => (RStatus "OK", write_key k {| entry_value := v; entry_expires := None |} s)
  | Some ms =>
      if (0 <? ms) && (store_clock s + ms <=? i64_max)
      then (RStatus "OK",
            write_key k {| entry_value := v; entry_expires := Some (store_clock s + ms) |} s)
      else (RError, s)
  end.

(** [SET ... NX]: nil when the key exists. *)
Definition redis_set_nx (k v : string) (ms : Z) (s : Store) : Reply * Store :=
  if (0 <? ms) && (store_clock s + ms <=? i64_max) then
    match read_key k s with
    | Some _ => (RNil, s)
    | None => redis_set k v (Some ms) s
    end
  else (RError, s).

(** [DEL key]: the number of keys removed. *)
Definition redis_del (k : string) (s : Store) : Reply * Store :=
  (RInt (match read_key k s with Some _ => 1 | None => 0 end), remove_key k s).

Definition redis_exists (k : string) (s : Store) : Reply * Store :=
  (RInt (match read_key k s with Some _ => 1 | None => 0 end), s).

(** [INCR]: an absent key counts as 0 and keeps no expiry, a present one keeps
    its own; a value that is not an i64 and the largest one are errors. *)
Definition redis_incr (k : string) (s : Store) : Reply * Store :=
  match read_key k s with
  | None => (RInt 1, write_key k {| entry_value := "1"; entry_expires := None |} s)
  | Some e =>
      match parse_i64 (entry_value e) with
      | Some n =>
          if n <? i64_max
          then (RInt (n + 1),
                write_key k {| entry_value := pretty (n + 1); entry_expires := entry_expires e |} s)
          else (RError, s)
      | None => (RError, s)
      end
  end.

(** [PTTL]: -2 for an absent key, -1 for one that does not expire. *)
Definition redis_pttl (k : string) (s : Store) : Z :=
  match read_key k s with
  | None => -2
  | Some e => match entry_expires e with Some t => t - store_clock s | None => -1 end
  end.

(** [EXPIRE key seconds]: an end beyond an i64 is an error. *)
Definition redis_expire (k : string) (seconds : Z) (s : Store) : Reply * Store :=
  if store_clock s + seconds * 1000 <=? i64_max then
    match read_key k s with
    | None => (RInt 0, s)
    | Some e =>
        (RInt 1, write_key k {| entry_value := entry_value e;
                                entry_expires := Some (store_clock s + seconds * 1000) |} s)
    end
  else (RError, s).

(** The commands and the two scripts the client sends. *)
Inductive Command :=
  | GET (k : string)
  | SET (k v : string)
  | SETEX (k : string) (seconds : Z) (v : string)
  | SET_EX_NX (k v : string) (seconds : Z)
  | SET_PX_NX (k v : string) (ms : Z)
  | DEL (k : string)
  | FLUSHDB
  | EXISTS (k : string)
  | INCR (k : string)
  | PING
  | EVAL_RELEASE (k token : string)
  | EVAL_RATE (k : string) (ttl_seconds : Z).

(** if redis.call('get', KEYS[1]) == ARGV[1] then
      return redis.call('del', KEYS[1]) else return 0 end *)
Definition release_script (k token : string) (s : Store) : Reply * Store :=
  match fst (redis_get k s) with
  | RBulk v => if String.eqb v token then redis_del k s else (RInt 0, s)
  | _ => (RInt 0, s)
  end.

(** local current = redis.call('INCR', KEYS[1]);
    local ttl = redis.call('PTTL', KEYS[1]);
    if ttl == -1 then redis.call('EXPIRE', KEYS[1], ARGV[1]); end;
    return {current, ttl} *)
Definition rate_script (k : string) (ttl_seconds : Z) (s : Store) : Reply * Store :=
  match redis_incr k s with
  | (RInt current, s1) =>
      let ttl := redis_pttl k s1 in
      if ttl =? -1 then
        match redis_expire k ttl_seconds s1 with
        | (RError, s2) => (RError, s2)
        | (_, s2) => (RInts current ttl, s2)
        end
      else (RInts current ttl, s1)
  | (_, s1) => (RError, s1)
  end.

Definition execute (c : Command) (s : Store) : Reply * Store :=
  match c with
  | GET k => redis_get k s
  | SET k v => redis_set k v None s
  | SETEX k seconds v => redis_set k v (Some (seconds * 1000)) s
  | SET_EX_NX k v seconds => redis_set_nx k v (seconds * 1000) s
  | SET_PX_NX k v ms => redis_set_nx k v ms s
  | DEL k => redis_del k s
  | FLUSHDB => (RStatus "OK", {| store_entries := ∅; store_clock := store_clock s |})
  | EXISTS k => redis_exists k s
  | INCR k => redis_incr k s
  | PING => (RStatus "PONG", s)
  | EVAL_RELEASE k token => release_script k token s
  | EVAL_RATE k ttl_seconds => rate_script k ttl_seconds s
  end.

(** What the client sees of a command: [timeout] elapsed, or a result. *)
Inductive Answer :=
  | TimedOut
  | Failed
  | Replied (r : Reply).

Class Redis (R : Type) := {
  redis_connect : ST R bool;
  redis_query : Command -> ST R Answer;
}.

Definition advance (now : Z) (s : Store) : Store :=
  {| store_entries := store_entries s; store_clock := now |}.

(** The store behind a server, and the promise that each command is executed
    once or not at all, at an instant not before the previous one. *)
Class ServerLaw (R : Type) `{Redis R} (store : R -> Store) : Prop := {
  law_connect r : exists now, store_clock (store r) <= now /\
    store (exec redis_connect r) = advance now (store r);
  law_query c r : exists now, store_clock (store r) <= now /\
    let s := advance now (store r) in
    let '(answer, r') := redis_query c r in
    match answer with
    | Replied reply => (reply, store r') = execute c s
    | _ => store r' = s \/ store r' = snd (execute c s)
    end;
}.

(** The [serde_json] text of a value and its parser. *)
Class JsonText := {
  json_to_string : value -> string;
  json_from_str : string -> option value;
}.

(** The codec of a cached type: [Serialize] and [DeserializeOwned]. *)
Class Serde (T : Type) := {
  to_value : T -> option value;
  from_value : value -> option T;
}.

#[export] Instance serde_value : Serde value := {| to_value := Some; from_value := Some |}.

(** ** The client *)

(** [manager] holds a connection between commands. *)
Record RedisCache (R : Type) := { manager : bool; server : R }.
Arguments manager {R} _.
Arguments server {R} _.
Arguments Build_RedisCache {R} _ _.

Record RateLimitResult := {
  remaining : Z;
  total : Z;
  reset_at_ms : Z;
  allowed : bool;
  backend_available : bool;
}.

Section client.
Context {R : Type} `{Redis R} `{JsonText}.

Definition connection : ST (RedisCache R) bool :=
  fun c =>
    if manager c then (true, c)
    else let '(connected, r) := redis_connect (server c) in
         (connected, {| manager := connected; server := r |}).

Definition mark_failed : ST (RedisCache R) unit :=
  fun c => (tt, {| manager := false; server := server c |}).

Definition wait_ready : ST (RedisCache R) bool := connection.

(** One command of a method: without a connection, on a timeout and on an
    error of the connection, the server or the conversion there is no answer;
    the last three drop the connection. *)
Definition command {A} (cmd : Command) (convert : Reply -> option A) :
    ST (RedisCache R) (option A) :=
  connected ← connection;
  if negb connected then mret None
  else fun c =>
    let '(answer, r) := redis_query cmd (server c) in
    let c := {| manager := manager c; server := r |} in
    match answer with
    | Replied reply =>
        match convert reply with
        | Some a => (Some a, c)
        | None => (mark_failed ≫= fun _ => mret None) c
        end
    | _ => (mark_failed ≫= fun _ => mret None) c
    end.

(** The conversions of the redis crate for the types the methods ask for. *)
Definition as_text (r : Reply) : option (option string) :=
  match r with RNil => Some None | RBulk s | RStatus s => Some (Some s) | _ => None end.
Definition as_unit (r : Reply) : option unit :=
  match r with RError => None | _ => Some tt end.
Definition as_int (r : Reply) : option Z :=
  match r with RInt z => Some z | _ => None end.
Definition as_pair (r : Reply) : option (Z * Z) :=
  match r with RInts x y => Some (x, y) | _ => None end.

Definition is_ok_text (reply : option string) : bool :=
  match reply with Some s => String.eqb s "OK" | None => false end.

Definition del (key : string) : ST (RedisCache R) Z :=
  reply ← command (DEL key) as_int; mret (default 0 reply).

(** [{"v":null}], the sentinel a null value is stored as. *)
Definition is_null_sentinel (v : value) : bool :=
  match v with
  | Object fields =>
      (Z.of_nat (length fields) =? 1)
      && match lookup_field "v" fields with Some v => is_null v | None => false end
  | _ => false
  end.

Definition get {T} `{Serde T} (key : string) : ST (RedisCache R) (option T) :=
  reply ← command (GET key) as_text;
  match reply with
  | Some (Some text) =>
      match json_from_str text with
      | None => del key ≫= fun _ => mret None
      | Some parsed =>
          if is_null_sentinel parsed then mret None
          else match from_value parsed with
               | Some v => mret (Some v)
               | None => del key ≫= fun _ => mret None
               end
      end
  | _ => mret None
  end.

(** The text stored for a value. *)
Definition null_sentinel : string :=
  "{" +:+ String "034" ("v" +:+ String "034" ":null}").

Definition serialized {T} `{Serde T} (v : T) : option string :=
  text ← json_to_string <$> to_value v;
  Some (if String.eqb text "null" then null_sentinel else text).

Definition set_required {T} `{Serde T} (key : string) (v : T) (ttl_seconds : option Z) :
    ST (RedisCache R) bool :=
  match serialized v with
  | None => mret false
  | Some text =>
      reply ← command (match ttl_seconds with
                       | Some ttl => SETEX key ttl text
                       | None => SET key text
                       end) as_unit;
      mret (match reply with Some _ => true | None => false end)
  end.

Definition set {T} `{Serde T} (key : string) (v : T) (ttl_seconds : option Z) :
    ST (RedisCache R) unit :=
  set_required key v ttl_seconds ≫= fun _ => mret tt.

Definition set_if_absent_required {T} `{Serde T} (key : string) (v : T) (ttl_seconds : Z) :
    ST (RedisCache R) (option bool) :=
  match serialized v with
  | None => mret None
  | Some text =>
      reply ← command (SET_EX_NX key text ttl_seconds) as_text;
      mret (is_ok_text <$> reply)
  end.

Definition acquire_lease (key token : string) (ttl_ms : Z) : ST (RedisCache R) (option bool) :=
  reply ← command (SET_PX_NX key token ttl_ms) as_text;
  mret (is_ok_text <$> reply).

Definition release_lease (key token : string) : ST (RedisCache R) unit :=
  command (EVAL_RELEASE key token) as_int ≫= fun _ => mret tt.

Definition flush_database : ST (RedisCache R) bool :=
  reply ← command FLUSHDB as_unit;
  mret (match reply with Some _ => true | None => false end).

Definition exists_key (key : string) : ST (RedisCache R) bool :=
  reply ← command (EXISTS key) as_int;
  mret (match reply with Some n => negb (n =? 0) | None => false end).

Definition incr (key : string) : ST (RedisCache R) Z :=
  reply ← command (INCR key) as_int; mret (default 0 reply).

Definition incr_get (key : string) : ST (RedisCache R) (option Z) :=
  reply ← command (GET key) as_text;
  mret (match reply with Some (Some text) => parse_i64 text | _ => None end).

(** An error reply of PING is not a failure of the connection. *)
Definition health_check : ST (RedisCache R) bool :=
  connected ← connection;
  if negb connected then mret false
  else (fun c =>
    let '(answer, r) := redis_query PING (server c) in
    let c := {| manager := manager c; server := r |} in
    match answer with
    | Replied (RStatus s) => (String.eqb s "PONG", c)
    | Replied (RBulk s) => (String.eqb s "PONG", c)
    | Replied _ | Failed => (false, c)
    | TimedOut => (mark_failed ≫= fun _ => mret false) c
    end) : ST (RedisCache R) bool.

Definition close : ST (RedisCache R) unit := mark_failed.

(** *** The rate limit *)

Definition rate_unavailable (limit window_ms : Z) (fail_open : bool) (now_ms : Z) :
    RateLimitResult :=
  {| remaining := if fail_open then limit else 0;
     total := limit;
     reset_at_ms := sat_add_u64 now_ms window_ms;
     allowed := fail_open;
     backend_available := false |}.

(** [window_ms.div_ceil(1_000).saturating_add(1)]. *)
Definition rate_ttl_seconds (window_ms : Z) : Z := sat_add_u64 ((window_ms + 999) / 1000) 1.

Definition window_key (key : string) : string := "rl:" +:+ key.

Definition rate_result (limit window_ms now_ms current current_ttl : Z) : RateLimitResult :=
  let actual_ttl := if 0 <? current_ttl then current_ttl else window_ms in
  let current := if 0 <=? current then current else u64_max in
  {| remaining := sat_sub limit current;
     total := limit;
     reset_at_ms := sat_add_u64 now_ms actual_ttl;
     allowed := current <=? limit;
     backend_available := true |}.

Definition check_rate_limit_at (key : string) (limit window_ms : Z) (fail_open : bool)
    (now_ms : Z) : ST (RedisCache R) RateLimitResult :=
  if is_empty (trim key) || (limit =? 0) || (window_ms =? 0)
  then mret (rate_unavailable limit window_ms fail_open now_ms)
  else
    reply ← command (EVAL_RATE (window_key key) (rate_ttl_seconds window_ms)) as_pair;
    mret (match reply with
          | Some (current, current_ttl) => rate_result limit window_ms now_ms current current_ttl
          | None => rate_unavailable limit window_ms fail_open now_ms
          end).

End client.
