(* ===== verification/CacheSpec.v ===== *)
(** * Properties of the shared cache

    What the methods of [RedisCache] promise of any server that keeps
    [ServerLaw]: every method is at most one command of the list in its body;
    a stored value is read back; a lease has one holder until it is released
    by its token or its time passes; the rate limit of a window is not
    exceeded by any number of processes. *)

From S2P Require Import Prelude Json Cache.

Section spec.
Context {R : Type} `{Redis R} {store : R -> Store} `{!ServerLaw R store} `{JsonText}.
Implicit Types (c : RedisCache R) (r : R) (k key token : string) (s : Store).

(** ** One command *)

(** A command is not executed, executed with its answer lost, or answered. *)
Inductive served (cmd : Command) (s : Store) : option Reply -> Store -> Prop :=
  | served_not now :
      store_clock s <= now -> served cmd s None (advance now s)
  | served_lost now :
      store_clock s <= now -> served cmd s None (snd (execute cmd (advance now s)))
  | served_reply now :
      store_clock s <= now ->
      served cmd s (Some (fst (execute cmd (advance now s)))) (snd (execute cmd (advance now s))).

(** Connecting takes time and changes nothing else. *)
Lemma connection_store c :
  exists now, store_clock (store (server c)) <= now /\
    store (server (exec connection c)) = advance now (store (server c)) /\
    manager (exec connection c) = run connection c.
Proof.
  unfold exec, run, connection. destruct (manager c) eqn:E.
  - exists (store_clock (store (server c))). split_and!; [lia| |done].
    simpl. unfold advance. by destruct (store (server c)).
  - destruct (law_connect (store := store) (server c)) as (now & Hle & Hst).
    unfold exec in Hst. destruct (redis_connect (server c)) as [b r']. simpl in *.
    by exists now.
Qed.

Lemma execute_clock cmd s : store_clock (snd (execute cmd s)) = store_clock s.
Proof.
  destruct cmd; simpl;
    unfold redis_get, redis_set_nx, redis_set, redis_del, redis_incr, release_script,
      rate_script, redis_expire, redis_exists;
    repeat (case_match; simplify_eq/=); try done;
    unfold redis_incr, redis_expire in *; repeat (case_match; simplify_eq/=); done.
Qed.

Lemma served_clock cmd s o s' : served cmd s o s' -> store_clock s <= store_clock s'.
Proof. destruct 1; rewrite ?execute_clock; done. Qed.

(** The command of a method is served once, and no answer means that the
    connection was dropped. *)
Lemma command_served {A} cmd (convert : Reply -> option A) c :
  exists o, served cmd (store (server c)) o (store (server (exec (command cmd convert) c))) /\
    run (command cmd convert) c = (o ≫= convert) /\
    ((o ≫= convert) = None -> manager (exec (command cmd convert) c) = false) /\
    ((o ≫= convert) <> None -> manager (exec (command cmd convert) c) = true).
Proof.
  destruct (connection_store c) as (t & Ht & Hst & Hm).
  unfold exec, run, command, mbind, ST_bind, mret, ST_ret in *.
  destruct (connection c) as [connected c1] eqn:Econ. simpl in *.
  destruct connected; simpl.
  - pose proof (law_query (store := store) cmd (server c1)) as (now & Hle & Hq).
    rewrite Hst in Hle, Hq. simpl in Hle, Hq.
    replace (advance now (advance t (store (server c)))) with (advance now (store (server c)))
      in Hq by done.
    assert (store_clock (store (server c)) <= now) as Hnow by lia.
    destruct (redis_query cmd (server c1)) as [answer r'] eqn:Eq.
    assert (forall reply, (reply, store r') = execute cmd (advance now (store (server c))) ->
              served cmd (store (server c)) (Some reply) (store r')) as Hreply.
    { intros reply Hex. pose proof (served_reply cmd _ now Hnow) as Hs.
      rewrite <- Hex in Hs. done. }
    destruct answer as [| |reply]; simpl.
    1,2: exists None; split_and!; try done; destruct Hq as [-> | ->]; by constructor.
    destruct (convert reply) as [a|] eqn:Ecv; simpl;
      exists (Some reply); simpl; rewrite Ecv; split_and!; try done; by apply Hreply.
  - exists None. simpl. split_and!; try done. rewrite Hst. by constructor.
Qed.

(** A program that runs a command and returns its answer. *)
Lemma command_ret {A B} cmd (convert : Reply -> option A) (f : option A -> B) c :
  (command cmd convert ≫= fun o => mret (f o)) c
  = (f (run (command cmd convert) c), exec (command cmd convert) c).
Proof.
  unfold mbind, ST_bind, mret, ST_ret, run, exec. by destruct (command cmd convert c).
Qed.

(** ** Interference

    What other processes do between two commands leaves [k] alone and takes
    time.  A FLUSHDB or a deletion of [k] is not harmless: the operators' routes
    (routes/system.rs, flush_cache and flush_pattern) issue both, and what is
    said of a span of harmless turns is said of a span without them. *)
Definition harmless (k : string) (s s' : Store) : Prop :=
  store_clock s <= store_clock s' /\ store_entries s' !! k = store_entries s !! k.

Lemma harmless_refl k s : harmless k s s.
Proof. by split. Qed.

Lemma harmless_trans k s1 s2 s3 : harmless k s1 s2 -> harmless k s2 s3 -> harmless k s1 s3.
Proof. intros [? E1] [? E2]. split; [lia|congruence]. Qed.

Lemma harmless_advance k s now : store_clock s <= now -> harmless k s (advance now s).
Proof. done. Qed.

(** An entry that is alive at the later instant is read at both. *)
Lemma harmless_read k s s' e :
  harmless k s s' -> store_entries s !! k = Some e -> alive (store_clock s') e = true ->
  read_key k s' = Some e.
Proof. intros [_ E] He Ha. unfold read_key. by rewrite E, He, Ha. Qed.

(** The key a command works on; the scripts and FLUSHDB included. *)
Definition command_touches (k : string) (cmd : Command) : bool :=
  match cmd with
  | GET _ | EXISTS _ | PING => false
  | SET k' _ | SETEX k' _ _ | SET_EX_NX k' _ _ | SET_PX_NX k' _ _ | DEL k' | INCR k'
  | EVAL_RELEASE k' _ | EVAL_RATE k' _ => String.eqb k' k
  | FLUSHDB => true
  end.

(** Commands on other keys are harmless. *)
Lemma execute_frame k cmd s :
  command_touches k cmd = false ->
  store_entries (snd (execute cmd s)) !! k = store_entries s !! k.
Proof.
  intros Ht. destruct cmd; simpl in *; bool_props;
    unfold redis_get, redis_set_nx, redis_set, redis_del, redis_incr, release_script,
      rate_script, redis_expire, redis_exists;
    repeat (case_match; simplify_eq/=); try done;
    rewrite ?lookup_insert_ne, ?lookup_delete_ne by done; try done;
    unfold redis_incr, redis_del in *; repeat (case_match; simplify_eq/=);
    rewrite ?lookup_insert_ne, ?lookup_delete_ne by done; done.
Qed.

Lemma served_frame k cmd s o s' :
  served cmd s o s' -> command_touches k cmd = false -> harmless k s s'.
Proof.
  intros Hs Ht. split; [by eapply served_clock|].
  destruct Hs; simpl; [done| |]; by rewrite execute_frame.
Qed.

(** ** A value is read back

    Between the two calls other commands run; the codec is only asked to be
    faithful on the value at hand. *)

Lemma set_required_stores {T} `{Serde T} key (v : T) ttl c :
  run (set_required key v (Some ttl)) c = true ->
  exists text, serialized v = Some text /\
    store_entries (store (server (exec (set_required key v (Some ttl)) c))) !! key
    = Some {| entry_value := text;
              entry_expires :=
                Some (store_clock (store (server (exec (set_required key v (Some ttl)) c)))
                      + ttl * 1000) |}.
Proof.
  unfold set_required. destruct (serialized v) as [text|]; [|done].
  unfold run, exec. rewrite command_ret. simpl. intros Hok. exists text. split; [done|].
  destruct (command_served (SETEX key ttl text) as_unit c) as (o & Hs & Hrun & _).
  rewrite Hrun in Hok. destruct o as [reply|]; [|done]. simpl in Hok.
  inversion Hs as [| |now Hle Er Es]; subst. simpl in *.
  unfold redis_set in *. destruct (_ && _); [|done]. simpl. by rewrite lookup_insert_eq.
Qed.

(** What [get] makes of the answer of its command. *)
Definition decode_answer {T} `{Serde T} (key : string) (answer : option (option string)) :
    ST (RedisCache R) (option T) :=
  match answer with
  | Some (Some text) =>
      match json_from_str text with
      | None => del key ≫= fun _ => mret None
      | Some parsed =>
          if is_null_sentinel parsed then mret None
          else match from_value parsed with
               | Some v => mret (Some v)
               | None => del key ≫= fun _ => mret None
               end
      end
  | _ => mret None
  end.

Lemma get_unfold {T} `{Serde T} key c :
  get (T := T) key c
  = decode_answer key (run (command (GET key) as_text) c) (exec (command (GET key) as_text) c).
Proof.
  unfold get, mbind, ST_bind, run, exec. by destruct (command (GET key) as_text c).
Qed.

Lemma decode_answer_clock {T} `{Serde T} key answer c :
  store_clock (store (server c))
  <= store_clock (store (server (exec (decode_answer (T := T) key answer) c))).
Proof.
  assert (store_clock (store (server c))
          <= store_clock (store (server (exec (del key ≫= fun _ => mret (None (A := T))) c))))
    as Hdel.
  { unfold exec, del, mbind at 1, ST_bind at 1. rewrite command_ret. simpl.
    destruct (command_served (DEL key) as_int c) as (? & Hd & _). by apply served_clock in Hd. }
  unfold decode_answer. repeat case_match; try done; simpl; lia.
Qed.

(** A value stored with a lifetime is read back by any process until the
    lifetime ends, whatever is done to other keys meanwhile; a null, which the
    cache stores as a sentinel, reads as absent; and the only other answer is
    that of a dropped connection. *)
Theorem get_after_set {T} `{Serde T} key (v : T) (json : value) ttl c c2 :
  to_value v = Some json -> from_value json = Some v ->
  json_from_str (json_to_string json) = Some json ->
  json_from_str null_sentinel = Some (Object [("v", Null)]) ->
  run (set_required key v (Some ttl)) c = true ->
  let c1 := exec (set_required key v (Some ttl)) c in
  let c3 := exec (get (T := T) key) c2 in
  harmless key (store (server c1)) (store (server c2)) ->
  store_clock (store (server c3)) < store_clock (store (server c1)) + ttl * 1000 ->
  run (get (T := T) key) c2
    = (if is_null_sentinel json || String.eqb (json_to_string json) "null" then None else Some v)
  \/ (run (get (T := T) key) c2 = None /\ manager c3 = false).
Proof.
  intros Hto Hfrom Htext Hsent Hset c1 c3 Hharm Hclock.
  destruct (set_required_stores key v ttl c Hset) as (text & Hser & He). fold c1 in He.
  destruct (command_served (GET key) as_text c2) as (o & Hs & Hrun & Hno & _).
  unfold c3, exec, run in *. rewrite get_unfold in Hclock |- *.
  unfold run, exec in *. set (c2' := (command (GET key) as_text c2).2) in *.
  rewrite Hrun in Hclock |- *.
  destruct o as [reply|]; [|right; split; [done|by apply Hno]].
  pose proof (decode_answer_clock (T := T) key (Some reply ≫= as_text) c2') as Hle.
  unfold exec in Hle.
  inversion Hs as [| |now Hnow Er Es]; subst reply.
  rewrite <- Es in Hle. simpl in Hle.
  assert (read_key key (advance now (store (server c2)))
          = Some {| entry_value := text;
                    entry_expires := Some (store_clock (store (server c1)) + ttl * 1000) |})
    as Hread.
  { apply (harmless_read _ (store (server c1))); [|done|].
    - eapply harmless_trans; [exact Hharm|]. by apply harmless_advance.
    - unfold alive. simpl. apply Z.ltb_lt. simpl in *. lia. }
  unfold execute, redis_get in *. rewrite Hread in Hclock |- *. simpl in *. left.
  unfold serialized in Hser. rewrite Hto in Hser. simpl in Hser. injection Hser as <-.
  destruct (String.eqb_spec (json_to_string json) "null") as [E|E].
  - rewrite Hsent. by rewrite orb_true_r.
  - rewrite Htext, orb_false_r. destruct (is_null_sentinel json); [done|]. by rewrite Hfrom.
Qed.

(** ** A lease has one holder *)

(** What happens to a lease: a process, with or without a connection, tries to
    take or to give back the lease, or does something else. *)
Inductive LeaseTurn :=
  | Acquire (m : bool) (token : string) (ttl_ms : Z)
  | Release (m : bool) (token : string)
  | LeaseElsewhere (f : R -> R).

(** One turn: the token that was granted, if any, and the server after it. *)
Definition lease_turn (key : string) (t : LeaseTurn) (r : R) : list string * R :=
  match t with
  | Acquire m token ttl_ms =>
      let '(granted, c) := acquire_lease key token ttl_ms {| manager := m; server := r |} in
      (match granted with Some true => [token] | _ => [] end, server c)
  | Release m token => ([], server (exec (release_lease key token) {| manager := m; server := r |}))
  | LeaseElsewhere f => ([], f r)
  end.

Fixpoint lease_run (key : string) (ts : list LeaseTurn) (r : R) : list string * R :=
  match ts with
  | [] => ([], r)
  | t :: ts =>
      let '(g1, r1) := lease_turn key t r in
      let '(g2, r2) := lease_run key ts r1 in
      (g1 ++ g2, r2)
  end.

(** The turns that are not the release of [token]. *)
Definition not_released_by (key token : string) (t : LeaseTurn) : Prop :=
  match t with
  | Acquire _ _ _ => True
  | Release _ token' => token' <> token
  | LeaseElsewhere f => forall r, harmless key (store r) (store (f r))
  end.

Definition held (token : string) (until : Z) (key : string) (s : Store) : Prop :=
  store_entries s !! key = Some {| entry_value := token; entry_expires := Some until |}.

Lemma held_read token until key s now :
  held token until key s -> now < until ->
  read_key key (advance now s) = Some {| entry_value := token; entry_expires := Some until |}.
Proof.
  unfold held, read_key, alive. simpl. intros -> Hlt.
  simpl. by destruct (Z.ltb_spec now until); [|lia].
Qed.

(** On a lease that is held, SET NX changes nothing and the release script of
    another token neither. *)
Lemma set_nx_held token until key s now v ms :
  held token until key s -> now < until ->
  snd (redis_set_nx key v ms (advance now s)) = advance now s /\
  is_ok_text <$> as_text (fst (redis_set_nx key v ms (advance now s))) <> Some true.
Proof.
  intros Hh Hlt. unfold redis_set_nx. rewrite (held_read _ _ _ _ _ Hh Hlt). by case_match.
Qed.

Lemma release_held token until key s now token' :
  held token until key s -> now < until -> token' <> token ->
  snd (release_script key token' (advance now s)) = advance now s.
Proof.
  intros Hh Hlt Hne. unfold release_script, redis_get. rewrite (held_read _ _ _ _ _ Hh Hlt).
  simpl. destruct (String.eqb_spec token token'); [by subst|done].
Qed.

(** A command that changes nothing while the lease is held keeps it. *)
Lemma served_held cmd token until key s o s' :
  served cmd s o s' -> held token until key s ->
  (forall now, now < until -> snd (execute cmd (advance now s)) = advance now s) ->
  store_clock s' < until -> held token until key s'.
Proof.
  intros Hs Hh Hsame Hlt. destruct Hs as [now Hn|now Hn|now Hn]; [done| |];
    rewrite execute_clock in Hlt; by rewrite Hsame.
Qed.

(** A turn of somebody else neither grants nor removes a lease that is held. *)
Lemma lease_turn_held key token until t r :
  not_released_by key token t -> held token until key (store r) ->
  let '(g, r') := lease_turn key t r in
  store_clock (store r') < until -> g = [] /\ held token until key (store r').
Proof.
  intros Ht Hh. destruct t as [m token' ttl|m token'|f]; simpl in *.
  - unfold acquire_lease. rewrite command_ret.
    destruct (command_served (SET_PX_NX key token' ttl) as_text {| manager := m; server := r |})
      as (o & Hs & -> & _). simpl in Hs. intros Hlt. split.
    + inversion Hs as [| |now Hn Eo Es]; subst o; try done. rewrite <- Es in Hlt.
      pose proof (execute_clock (SET_PX_NX key token' ttl) (advance now (store r))) as Hck.
      simpl in *. rewrite Hck in Hlt.
      destruct (set_nx_held _ _ _ _ _ token' ttl Hh Hlt) as [_ Hno].
      destruct (is_ok_text <$> _) as [[]|]; done.
    + eapply served_held; [done|done| |done]. intros now Hnow. by eapply set_nx_held.
  - unfold release_lease, exec. rewrite (command_ret _ _ (fun _ => tt)). simpl.
    destruct (command_served (EVAL_RELEASE key token') as_int {| manager := m; server := r |})
      as (o & Hs & _). simpl in Hs. intros Hlt. split; [done|].
    eapply served_held; [done|done| |done]. intros now Hnow. by eapply release_held.
  - intros _. split; [done|]. unfold held. destruct (Ht r) as [_ ->]. done.
Qed.

Lemma lease_turn_clock key token t r :
  not_released_by key token t -> store_clock (store r) <= store_clock (store (snd (lease_turn key t r))).
Proof.
  destruct t as [m token' ttl|m token'|f]; simpl; intros Ht.
  - unfold acquire_lease. rewrite command_ret. simpl.
    destruct (command_served (SET_PX_NX key token' ttl) as_text {| manager := m; server := r |})
      as (o & Hs & _). by eapply served_clock in Hs.
  - unfold release_lease, exec. rewrite (command_ret _ _ (fun _ => tt)). simpl.
    destruct (command_served (EVAL_RELEASE key token') as_int {| manager := m; server := r |})
      as (o & Hs & _). by eapply served_clock in Hs.
  - apply Ht.
Qed.

Lemma lease_run_clock key token ts r :
  Forall (not_released_by key token) ts ->
  store_clock (store r) <= store_clock (store (snd (lease_run key ts r))).
Proof.
  revert r. induction ts as [|t ts IH]; intros r Hts; simpl; [done|].
  apply Forall_cons in Hts as [Ht Hts]. pose proof (lease_turn_clock key token t r Ht).
  destruct (lease_turn key t r) as [g1 r1]. specialize (IH r1 Hts).
  destruct (lease_run key ts r1) as [g2 r2]. simpl in *. lia.
Qed.

Lemma lease_run_held key token until ts r :
  Forall (not_released_by key token) ts -> held token until key (store r) ->
  let '(g, r') := lease_run key ts r in
  store_clock (store r') < until -> g = [] /\ held token until key (store r').
Proof.
  revert r. induction ts as [|t ts IH]; intros r Hts Hh; simpl; [done|].
  apply Forall_cons in Hts as [Ht Hts].
  pose proof (lease_turn_held key token until t r Ht Hh) as Hstep.
  destruct (lease_turn key t r) as [g1 r1].
  pose proof (lease_run_clock key token ts r1 Hts) as Hc.
  specialize (IH r1 Hts). destruct (lease_run key ts r1) as [g2 r2]. simpl in Hc.
  intros Hlt. destruct Hstep as [-> Hh']; [lia|]. by apply IH.
Qed.

Lemma acquire_lease_held key token ttl_ms c :
  run (acquire_lease key token ttl_ms) c = Some true ->
  let s' := store (server (exec (acquire_lease key token ttl_ms) c)) in
  held token (store_clock s' + ttl_ms) key s'.
Proof.
  unfold acquire_lease, run, exec. rewrite command_ret. simpl.
  destruct (command_served (SET_PX_NX key token ttl_ms) as_text c) as (o & Hs & Hrun & _).
  rewrite Hrun. intros Hg. inversion Hs as [| |now Hn Eo Es]; subst o; try done.
  simpl in *. revert Hg. unfold redis_set_nx, redis_set.
  destruct (_ && _); [|done]. destruct (read_key _ _); [done|]. simpl. intros _.
  unfold held. simpl. by rewrite lookup_insert_eq.
Qed.

(** After a release that was answered, the token holds nothing. *)
Lemma release_lease_frees key token c e :
  manager (exec (release_lease key token) c) = true ->
  read_key key (store (server (exec (release_lease key token) c))) = Some e ->
  entry_value e <> token.
Proof.
  unfold release_lease, exec. rewrite (command_ret _ _ (fun _ => tt)). simpl.
  destruct (command_served (EVAL_RELEASE key token) as_int c) as (o & Hs & _ & Hno & _).
  destruct (o ≫= as_int) eqn:Eo; [|by rewrite Hno]. intros _.
  inversion Hs as [| |now Hn Er Es]; subst o; [done..|]. simpl.
  unfold release_script, redis_get. destruct (read_key key (advance now (store (server c)))) as [e'|] eqn:E.
  - simpl. destruct (String.eqb_spec (entry_value e') token) as [Ht|Ht]; simpl.
    + unfold read_key. simpl. by rewrite lookup_delete_eq.
    + rewrite E. by intros [= ->].
  - simpl. by rewrite E.
Qed.

(** C21. A lease granted to a token is granted to nobody else, and stays
    stored, until its time has passed, its own token is used to release it, or
    its very key is deleted: whatever is done to other keys, whichever processes
    try to take it and whichever tokens are released, with answers lost or not,
    over any turns among which no operator flushes the cache or deletes a
    pattern of this key ([flush_frees_lease] below shows what that does). *)
Theorem cache_lease_exclusive key token ttl_ms c ts granted r' :
  run (acquire_lease key token ttl_ms) c = Some true ->
  let c1 := exec (acquire_lease key token ttl_ms) c in
  Forall (not_released_by key token) ts ->
  lease_run key ts (server c1) = (granted, r') ->
  store_clock (store r') < store_clock (store (server c1)) + ttl_ms ->
  granted = [] /\ held token (store_clock (store (server c1)) + ttl_ms) key (store r').
Proof.
  intros Hg c1 Hts Hrun Hlt.
  pose proof (lease_run_held _ _ _ _ _ Hts (acquire_lease_held _ _ _ _ Hg)) as Hheld.
  fold c1 in Hheld. rewrite Hrun in Hheld. by apply Hheld.
Qed.

(** ** The rate limit *)

(** What happens to a counter: a process asks, at its own clock [now_ms], or
    somebody does something else. *)
Inductive RateTurn :=
  | Ask (m fail_open : bool) (now_ms : Z)
  | RateElsewhere (f : R -> R).

Definition rate_turn (key : string) (limit window_ms : Z) (t : RateTurn) (r : R) :
    list RateLimitResult * R :=
  match t with
  | Ask m fail_open now_ms =>
      let '(res, c) := check_rate_limit_at key limit window_ms fail_open now_ms
                         {| manager := m; server := r |} in
      ([res], server c)
  | RateElsewhere f => ([], f r)
  end.

Fixpoint rate_run (key : string) (limit window_ms : Z) (ts : list RateTurn) (r : R) :
    list RateLimitResult * R :=
  match ts with
  | [] => ([], r)
  | t :: ts =>
      let '(a1, r1) := rate_turn key limit window_ms t r in
      let '(a2, r2) := rate_run key limit window_ms ts r1 in
      (a1 ++ a2, r2)
  end.

Definition rate_turn_ok (key : string) (t : RateTurn) : Prop :=
  match t with
  | Ask _ _ _ => True
  | RateElsewhere f => forall r, harmless (window_key key) (store r) (store (f r))
  end.

(** A request the backend let through. *)
Definition passed (a : RateLimitResult) : bool := allowed a && backend_available a.

Definition passes (answers : list RateLimitResult) : Z :=
  Z.of_nat (length (filter (fun a => Is_true (passed a)) answers)).

Lemma passes_cons a answers : passes (a :: answers) = (if passed a then 1 else 0) + passes answers.
Proof.
  unfold passes. rewrite filter_cons. destruct (passed a); simpl; [|done].
  destruct (decide (Is_true true)) as [_|Hn]; [|by destruct Hn]. simpl. lia.
Qed.

Lemma passes_app l1 l2 : passes (l1 ++ l2) = passes l1 + passes l2.
Proof. unfold passes. rewrite filter_app, length_app. lia. Qed.

(** No counter below zero: INCR starts one at 1. *)
Definition counter_sound (k : string) (s : Store) : Prop :=
  forall e n, store_entries s !! k = Some e -> parse_i64 (entry_value e) = Some n -> 0 <= n.

(** How many requests may pass until [t_end]: what the running window leaves
    and, when that window ends before, a window more. *)
Definition budget (k : string) (limit t_end : Z) (s : Store) : Z :=
  match read_key k s with
  | None => limit
  | Some e =>
      match parse_i64 (entry_value e) with Some n => sat_sub limit n | None => 0 end
      + match entry_expires e with Some t => if t <=? t_end then limit else 0 | None => 0 end
  end.

Lemma budget_nonneg k limit t_end s : 0 <= limit -> 0 <= budget k limit t_end s.
Proof. unfold budget, sat_sub. intros. repeat case_match; lia. Qed.

Lemma budget_start k limit t_end s :
  0 <= limit -> counter_sound k s ->
  budget k limit t_end s <= (if read_key k s then 2 * limit else limit).
Proof.
  unfold budget, sat_sub. intros Hl Hs. destruct (read_key k s) as [e|] eqn:E; [|lia].
  assert (store_entries s !! k = Some e) as He.
  { unfold read_key in E. repeat case_match; simplify_eq; done. }
  specialize (Hs e). destruct (parse_i64 _) as [n|]; [specialize (Hs n He eq_refl)|];
    repeat case_match; lia.
Qed.

Lemma budget_harmless k limit t_end s s' :
  0 <= limit -> harmless k s s' -> store_clock s' <= t_end ->
  budget k limit t_end s' <= budget k limit t_end s.
Proof.
  intros Hl [Hc He] Hend. unfold budget, read_key. rewrite He.
  destruct (store_entries s !! k) as [e|]; [|lia]. unfold alive, sat_sub.
  destruct (entry_expires e) as [t|] eqn:Et; [|lia].
  destruct (Z.ltb_spec (store_clock s') t), (Z.ltb_spec (store_clock s) t); rewrite ?Et; try lia.
  destruct (Z.leb_spec t t_end); [|lia]. case_match; lia.
Qed.

Lemma read_write_key k e s :
  read_key k (write_key k e s) = if alive (store_clock s) e then Some e else None.
Proof. unfold read_key. simpl. by rewrite lookup_insert_eq. Qed.

Lemma read_key_Some k s e :
  read_key k s = Some e -> store_entries s !! k = Some e /\ alive (store_clock s) e = true.
Proof. unfold read_key. intros. repeat case_match; simplify_eq; done. Qed.

(** The count an INCR of the key is about to return, and the lifetime it keeps. *)
Definition next_count (k : string) (s : Store) : option (Z * option Z) :=
  match read_key k s with
  | None => Some (1, None)
  | Some e =>
      match parse_i64 (entry_value e) with
      | Some n => if n <? i64_max then Some (n + 1, entry_expires e) else None
      | None => None
      end
  end.

Lemma rate_script_unfold k ttl s :
  rate_script k ttl s =
  match next_count k s with
  | None => (RError, s)
  | Some (n, Some t) =>
      (RInts n (t - store_clock s), write_key k {| entry_value := pretty n; entry_expires := Some t |} s)
  | Some (n, None) =>
      if store_clock s + ttl * 1000 <=? i64_max
      then (RInts n (-1),
            write_key k {| entry_value := pretty n;
                           entry_expires := Some (store_clock s + ttl * 1000) |} s)
      else (RError, write_key k {| entry_value := pretty n; entry_expires := None |} s)
  end.
Proof.
  assert (forall n, (let s1 := write_key k {| entry_value := pretty n; entry_expires := None |} s in
            match redis_expire k ttl s1 with
            | (RError, s2) => (RError, s2)
            | (_, s2) => (RInts n (-1), s2)
            end) =
          if store_clock s + ttl * 1000 <=? i64_max
          then (RInts n (-1),
            write_key k {| entry_value := pretty n;
                           entry_expires := Some (store_clock s + ttl * 1000) |} s)
          else (RError, write_key k {| entry_value := pretty n; entry_expires := None |} s))
    as Hexpire.
  { intros n. simpl. unfold redis_expire. rewrite read_write_key. simpl.
    destruct (_ <=? i64_max); [|done]. unfold write_key. simpl. by rewrite insert_insert_eq. }
  unfold rate_script, next_count, redis_incr, redis_pttl.
  destruct (read_key k s) as [e|] eqn:E.
  - apply read_key_Some in E as [_ Ha]. destruct (parse_i64 (entry_value e)) as [n|]; [|done].
    destruct (n <? i64_max); [|done]. rewrite read_write_key. unfold alive in *. simpl.
    destruct (entry_expires e) as [t|]; simpl; [|apply Hexpire].
    rewrite Ha. simpl. apply Z.ltb_lt in Ha. by destruct (Z.eqb_spec (t - store_clock s) (-1)); [lia|].
  - rewrite read_write_key. simpl. apply (Hexpire 1).
Qed.

(** One execution of the script uses up what it lets pass. *)
Lemma rate_script_budget k limit t_end ttl s :
  0 < limit -> store_clock s <= t_end < store_clock s + ttl * 1000 -> counter_sound k s ->
  let '(reply, s') := rate_script k ttl s in
  counter_sound k s' /\
  budget k limit t_end s'
  + match reply with
    | RInts current _ => if (0 <=? current) && (current <=? limit) then 1 else 0
    | _ => 0
    end
  <= budget k limit t_end s.
Proof.
  intros Hlimit Hend Hsound. rewrite rate_script_unfold.
  destruct (next_count k s) as [[n x]|] eqn:En; [|split; [done|lia]].
  assert (1 <= n <= i64_max /\
          sat_sub limit (n - 1) + match x with Some t => if t <=? t_end then limit else 0 | None => 0 end
          <= budget k limit t_end s /\
          match x with Some t => store_clock s < t | None => True end) as (Hn & Hb & Hx).
  { unfold next_count, budget, i64_max in *. destruct (read_key k s) as [e|] eqn:E.
    - apply read_key_Some in E as [He Ha]. destruct (parse_i64 (entry_value e)) as [m|] eqn:Ep; [|done].
      specialize (Hsound e m He Ep). destruct (Z.ltb_spec m 9223372036854775807); [|done].
      simplify_eq. replace (m + 1 - 1) with m by lia. split_and!; [lia|lia|lia|].
      unfold alive in Ha. destruct (entry_expires e); [|done]. by apply Z.ltb_lt.
    - simplify_eq. unfold sat_sub. lia. }
  assert (parse_i64 (pretty n) = Some n) as Pn.
  { apply parse_i64_pretty. unfold in_i64, i64_min. lia. }
  assert (forall y, counter_sound k (write_key k {| entry_value := pretty n; entry_expires := y |} s))
    as Hs'.
  { intros y e m. simpl. rewrite lookup_insert_eq. intros [= <-]. simpl. rewrite Pn. intros [= <-]. lia. }
  assert (forall y, match y with Some t => store_clock s < t | None => True end ->
            budget k limit t_end (write_key k {| entry_value := pretty n; entry_expires := y |} s)
            = sat_sub limit n + match y with Some t => if t <=? t_end then limit else 0 | None => 0 end)
    as Hbudget.
  { intros y Hy. unfold budget. rewrite read_write_key. unfold alive. simpl.
    destruct y as [t|]; cbn; [|by rewrite Pn]. apply Z.ltb_lt in Hy. rewrite Hy. cbn. by rewrite Pn. }
  destruct x as [t|]; [|destruct (_ <=? i64_max)].
  - split; [done|]. rewrite Hbudget by done. unfold sat_sub in *.
    destruct (Z.leb_spec 0 n), (Z.leb_spec n limit); simpl; lia.
  - split; [done|]. rewrite Hbudget by lia. unfold sat_sub in *.
    destruct (Z.leb_spec (store_clock s + ttl * 1000) t_end); [lia|].
    destruct (Z.leb_spec 0 n), (Z.leb_spec n limit); simpl; lia.
  - split; [done|]. rewrite Hbudget by done. unfold sat_sub in *. lia.
Qed.

Lemma harmless_sound k s s' : harmless k s s' -> counter_sound k s -> counter_sound k s'.
Proof. intros [_ E] Hs e n. rewrite E. apply Hs. Qed.

Lemma served_rate_budget k limit t_end ttl s o s' :
  0 < limit -> t_end < store_clock s + ttl * 1000 -> store_clock s' <= t_end ->
  counter_sound k s -> served (EVAL_RATE k ttl) s o s' ->
  counter_sound k s' /\
  budget k limit t_end s'
  + match o with
    | Some (RInts current _) => if (0 <=? current) && (current <=? limit) then 1 else 0
    | _ => 0
    end
  <= budget k limit t_end s.
Proof.
  intros Hl Hend Hend' Hs Hserved. pose proof (served_clock _ _ _ _ Hserved) as Hc.
  assert (forall now, store_clock s <= now -> now <= t_end ->
            counter_sound k (advance now s) /\
            budget k limit t_end (advance now s) <= budget k limit t_end s) as Hadv.
  { intros now Hn Hn'. pose proof (harmless_advance k s now Hn) as Hh. split.
    - by eapply harmless_sound.
    - by apply budget_harmless; [lia| |]. }
  assert (forall now, store_clock s <= now -> now <= t_end ->
            let '(reply, s2) := rate_script k ttl (advance now s) in
            counter_sound k s2 /\
            budget k limit t_end s2
            + match reply with
              | RInts current _ => if (0 <=? current) && (current <=? limit) then 1 else 0
              | _ => 0
              end <= budget k limit t_end s) as Hexec.
  { intros now Hn Hn'. destruct (Hadv now Hn Hn') as [Hs' Hb].
    pose proof (rate_script_budget k limit t_end ttl (advance now s) Hl) as Hscript.
    simpl in Hscript. specialize (Hscript ltac:(lia) Hs').
    destruct (rate_script k ttl (advance now s)). destruct Hscript. split; [done|lia]. }
  destruct Hserved as [now Hn|now Hn|now Hn].
  - destruct (Hadv now Hn Hend'). split; [done|]. lia.
  - rewrite execute_clock in Hend'. simpl in *. specialize (Hexec now Hn Hend').
    destruct (rate_script k ttl (advance now s)) as [reply s2]. simpl.
    destruct Hexec as [? Hb]. split; [done|]. destruct reply; try lia. destruct (_ && _); lia.
  - rewrite execute_clock in Hend'. simpl in *. specialize (Hexec now Hn Hend').
    by destruct (rate_script k ttl (advance now s)) as [reply s2].
Qed.

(** The lifetime given to a window outlasts the window. *)
Lemma rate_ttl_outlasts window_ms : in_u64 window_ms -> window_ms < rate_ttl_seconds window_ms * 1000.
Proof.
  unfold in_u64, rate_ttl_seconds, sat_add_u64, sat_add, u64_max. intros [? ?].
  pose proof (Z.div_mod (window_ms + 999) 1000 ltac:(lia)).
  pose proof (Z.mod_pos_bound (window_ms + 999) 1000 ltac:(lia)). lia.
Qed.

(** One request of a process costs what it lets pass. *)
Lemma check_rate_limit_budget key limit window_ms fail_open now_ms t_end c :
  let k := window_key key in
  let s := store (server c) in
  let s' := store (server (exec (check_rate_limit_at key limit window_ms fail_open now_ms) c)) in
  let a := run (check_rate_limit_at key limit window_ms fail_open now_ms) c in
  0 <= limit < u64_max -> in_u64 window_ms ->
  t_end <= store_clock s + window_ms -> counter_sound k s ->
  store_clock s <= store_clock s' /\
  (store_clock s' <= t_end ->
   counter_sound k s' /\
   budget k limit t_end s' + (if passed a then 1 else 0) <= budget k limit t_end s).
Proof.
  intros k s s' a Hl Hw Hend Hs. subst s' a. unfold check_rate_limit_at, run, exec.
  destruct (is_empty _ || _ || _) eqn:Eguard.
  { simpl. split; [done|]. intros _. split; [done|]. unfold passed. simpl.
    rewrite andb_false_r. subst s. lia. }
  bool_props. rewrite command_ret. simpl.
  destruct (command_served (EVAL_RATE k (rate_ttl_seconds window_ms)) as_pair c)
    as (o & Hserved & Hrun & _). subst k s. rewrite Hrun.
  split; [by eapply served_clock|]. intros Hle.
  pose proof (rate_ttl_outlasts window_ms Hw).
  destruct (served_rate_budget (window_key key) limit t_end (rate_ttl_seconds window_ms)
              (store (server c)) o _ ltac:(lia) ltac:(lia) Hle Hs Hserved) as [Hs' Hb].
  split; [done|]. unfold exec in Hb. revert Hb.
  destruct o as [reply|]; simpl; [destruct reply as [?| | |?|cur ttl|]; simpl|];
    unfold passed, rate_result; simpl; rewrite ?andb_false_r, ?andb_true_r; try done.
  unfold exec. destruct (Z.leb_spec 0 cur); [done|].
  destruct (Z.leb_spec u64_max limit); [lia|done].
Qed.

Lemma rate_turn_budget key limit window_ms t_end t r :
  0 <= limit < u64_max -> in_u64 window_ms -> rate_turn_ok key t ->
  t_end <= store_clock (store r) + window_ms -> counter_sound (window_key key) (store r) ->
  let '(a, r') := rate_turn key limit window_ms t r in
  store_clock (store r) <= store_clock (store r') /\
  (store_clock (store r') <= t_end ->
   counter_sound (window_key key) (store r') /\
   budget (window_key key) limit t_end (store r') + passes a
   <= budget (window_key key) limit t_end (store r)).
Proof.
  intros Hl Hw Ht Hend Hs. destruct t as [m fo now_ms|f]; simpl.
  - pose proof (check_rate_limit_budget key limit window_ms fo now_ms t_end
                  {| manager := m; server := r |} Hl Hw Hend Hs) as Hstep.
    unfold run, exec in Hstep. destruct (check_rate_limit_at _ _ _ _ _ _) as [a c].
    rewrite passes_cons. unfold passes at 1. simpl in *. destruct Hstep as [? Hb].
    split; [done|]. intros Hle. destruct (Hb Hle). split; [done|]. lia.
  - pose proof (Ht r) as Hh. split; [apply Hh|]. intros Hle. unfold passes. simpl. split.
    + by eapply harmless_sound.
    + pose proof (budget_harmless _ limit t_end _ _ ltac:(lia) Hh Hle). lia.
Qed.

Lemma rate_run_clock key limit window_ms ts r :
  Forall (rate_turn_ok key) ts ->
  store_clock (store r) <= store_clock (store (snd (rate_run key limit window_ms ts r))).
Proof.
  revert r. induction ts as [|t ts IH]; intros r Hts; simpl; [done|].
  apply Forall_cons in Hts as [Ht Hts].
  assert (store_clock (store r) <= store_clock (store (snd (rate_turn key limit window_ms t r)))) as Hc.
  { destruct t as [m fo now_ms|f]; simpl; [|apply Ht].
    unfold check_rate_limit_at. destruct (_ || _ || _); [done|]. rewrite command_ret. simpl.
    edestruct (command_served (EVAL_RATE (window_key key) (rate_ttl_seconds window_ms)) as_pair
                {| manager := m; server := r |}) as (o & Hs & _). by apply served_clock in Hs. }
  destruct (rate_turn key limit window_ms t r) as [a1 r1]. specialize (IH r1 Hts).
  destruct (rate_run key limit window_ms ts r1) as [a2 r2]. simpl in *. lia.
Qed.

Lemma rate_run_budget key limit window_ms t_end ts r :
  0 <= limit < u64_max -> in_u64 window_ms -> Forall (rate_turn_ok key) ts ->
  t_end <= store_clock (store r) + window_ms -> counter_sound (window_key key) (store r) ->
  let '(a, r') := rate_run key limit window_ms ts r in
  store_clock (store r') <= t_end ->
  budget (window_key key) limit t_end (store r') + passes a
  <= budget (window_key key) limit t_end (store r).
Proof.
  intros Hl Hw. revert r. induction ts as [|t ts IH]; intros r Hts Hend Hs; simpl.
  { unfold passes. simpl. lia. }
  apply Forall_cons in Hts as [Ht Hts].
  pose proof (rate_turn_budget key limit window_ms t_end t r Hl Hw Ht Hend Hs) as Hstep.
  destruct (rate_turn key limit window_ms t r) as [a1 r1]. destruct Hstep as [Hc1 Hb1].
  pose proof (rate_run_clock key limit window_ms ts r1 Hts) as Hc.
  specialize (IH r1 Hts ltac:(lia)).
  destruct (rate_run key limit window_ms ts r1) as [a2 r2]. simpl in Hc. intros Hle.
  destruct Hb1 as [Hs1 Hb1]; [lia|]. specialize (IH Hs1 Hle). rewrite passes_app. lia.
Qed.

(** C32. In any span of time no longer than the window, however many processes
    ask and whatever they do to other keys, at most twice [limit] requests pass
    with an answer of the cache, and at most [limit] when no window was running
    at its start.  Requests that pass because the cache is unavailable and the
    limiter fails open are not counted ([unavailable_passes] below), and in the
    span nobody deletes the counter, as a flush by an operator does. *)
Theorem rate_limit_bound key limit window_ms ts r answers r' :
  0 <= limit < u64_max -> in_u64 window_ms -> Forall (rate_turn_ok key) ts ->
  counter_sound (window_key key) (store r) ->
  rate_run key limit window_ms ts r = (answers, r') ->
  store_clock (store r') <= store_clock (store r) + window_ms ->
  passes answers <= (if read_key (window_key key) (store r) then 2 * limit else limit).
Proof.
  intros Hl Hw Hts Hs Hrun Hle.
  pose proof (rate_run_budget key limit window_ms (store_clock (store r) + window_ms) ts r
                Hl Hw Hts ltac:(lia) Hs) as Hb.
  rewrite Hrun in Hb. specialize (Hb Hle).
  pose proof (budget_nonneg (window_key key) limit (store_clock (store r) + window_ms) (store r')
                ltac:(lia)).
  pose proof (budget_start (window_key key) limit (store_clock (store r) + window_ms) (store r)
                ltac:(lia) Hs). lia.
Qed.

End spec.

(** * A concrete Redis server

    An in-memory server whose commands take scripted times and whose answers
    are lost on a script; it keeps [ServerLaw], and the theorems of CacheSpec
    are applied to it. *)

Inductive Fault := Fine | NotExecuted | AnswerLost.

(** The store and, for each coming command, the time it takes and its fate. *)
Record Memory := { mem_store : Store; mem_fates : list (Z * Fault) }.

Definition memory_query (c : Command) (m : Memory) : Answer * Memory :=
  let '(delay, fault, rest) :=
    match mem_fates m with
    | [] => (0, Fine, [])
    | (d, f) :: r => (Z.max 0 d, f, r)
    end in
  let s := advance (store_clock (mem_store m) + delay) (mem_store m) in
  let '(reply, s') := execute c s in
  match fault with
  | Fine => (Replied reply, {| mem_store := s'; mem_fates := rest |})
  | NotExecuted => (TimedOut, {| mem_store := s; mem_fates := rest |})
  | AnswerLost => (TimedOut, {| mem_store := s'; mem_fates := rest |})
  end.

#[export] Instance memory_redis : Redis Memory := {|
  redis_connect := fun m => (true, m);
  redis_query := memory_query;
|}.

Lemma advance_id s : advance (store_clock s) s = s.
Proof. by destruct s. Qed.

#[export] Instance memory_law : ServerLaw Memory mem_store.
Proof.
  split.
  - intros m. exists (store_clock (mem_store m)). split; [lia|]. simpl. by rewrite advance_id.
  - intros c m. simpl. unfold memory_query.
    destruct (match mem_fates m with [] => _ | _ => _ end) as [[d f] rest] eqn:E.
    exists (store_clock (mem_store m) + d). split.
    + repeat case_match; simplify_eq; lia.
    + simpl. destruct (execute c _) as [reply s'] eqn:Ex. destruct f; simpl; rewrite ?Ex; auto.
Qed.

Definition quote : string := String "034" "".

(** A text codec for the values of the examples. *)
#[export] Instance small_json : JsonText := {|
  json_to_string v :=
    match v with
    | Null => "null"
    | Str s => quote +:+ s +:+ quote
    | _ => "{}"
    end;
  json_from_str s :=
    if String.eqb s "null" then Some Null
    else if String.eqb s null_sentinel then Some (Object [("v", Null)])
    else if String.eqb s (quote +:+ "warm" +:+ quote) then Some (Str "warm")
    else None;
|}.

Definition empty_store (now : Z) : Store := {| store_entries := ∅; store_clock := now |}.

Definition memory (fates : list (Z * Fault)) : Memory :=
  {| mem_store := empty_store 1000; mem_fates := fates |}.

Definition client (m : Memory) : RedisCache Memory := {| manager := false; server := m |}.

(** The value is written, another process deletes another key, and it is read
    back two seconds later. *)
Definition example_write : RedisCache Memory := client (memory [(5, Fine); (20, Fine); (2000, Fine)]).

Definition example_after_write : RedisCache Memory :=
  exec (set_required "page" (Str "warm") (Some 30)) example_write.

Definition example_before_read : RedisCache Memory :=
  client (server (exec (del "other") (client (server example_after_write)))).

Lemma get_after_set_witness :
  run (get (T := value) "page") example_before_read = Some (Str "warm") \/
  (run (get (T := value) "page") example_before_read = None /\
   manager (exec (get (T := value) "page") example_before_read) = false).
Proof.
  refine (get_after_set (store := mem_store) "page" (Str "warm") (Str "warm") 30
            example_write example_before_read eq_refl eq_refl eq_refl eq_refl eq_refl _ _).
  - split; [vm_compute; discriminate|reflexivity].
  - vm_compute. reflexivity.
Defined.

(** A holds the lease; B asks, an answer to B is lost, B releases, and C asks. *)
Definition example_lease_turns : list (LeaseTurn (R := Memory)) :=
  [Acquire false "b" 500; Acquire true "b" 500; Release true "b";
   LeaseElsewhere (fun m => server (exec (del "other") (client m))); Acquire true "c" 500].

Definition example_lease_server : RedisCache Memory :=
  client (memory [(5, Fine); (20, Fine); (30, AnswerLost); (10, Fine); (10, Fine); (40, Fine)]).

Lemma elsewhere_harmless k :
  k <> "other" -> forall m, harmless k (mem_store m) (mem_store (server (exec (del "other") (client m)))).
Proof.
  intros Hk m. unfold del, exec. rewrite (command_ret _ _ (default 0)). simpl.
  destruct (command_served (store := mem_store) (DEL "other") as_int (client m)) as (o & Hs & _).
  eapply served_frame; [exact Hs|]. change (command_touches k (DEL "other")) with (String.eqb "other" k).
  apply String.eqb_neq. congruence.
Qed.

Ltac split_turns :=
  repeat (apply Forall_cons; split); try apply Forall_nil; try exact I; try discriminate;
  refine (elsewhere_harmless _ _); discriminate.

Lemma cache_lease_exclusive_witness :
  fst (lease_run "job" example_lease_turns
         (server (exec (acquire_lease "job" "a" 1000) example_lease_server))) = [].
Proof.
  destruct (lease_run "job" example_lease_turns
              (server (exec (acquire_lease "job" "a" 1000) example_lease_server)))
    as [granted r'] eqn:E.
  refine (proj1 (cache_lease_exclusive (store := mem_store) "job" "a" 1000 example_lease_server
                   example_lease_turns granted r' eq_refl _ E _)).
  - split_turns.
  - assert (r' = snd (lease_run "job" example_lease_turns
              (server (exec (acquire_lease "job" "a" 1000) example_lease_server)))) as ->
      by (rewrite E; reflexivity).
    vm_compute. reflexivity.
Defined.

(** A flush ends the lease of A before its time: B is granted it. *)
Example flush_frees_lease :
  let c := exec (acquire_lease "job" "a" 1000) (client (memory (repeat (5, Fine) 6))) in
  let flushed := server (exec flush_database c) in
  fst (lease_run "job" [Acquire false "b" 500] flushed) = ["b"%string].
Proof. vm_compute. reflexivity. Qed.

(** Four requests of two processes against a limit of two. *)
Definition example_asks : list (RateTurn (R := Memory)) :=
  [Ask false true 10; Ask true false 20;
   RateElsewhere (fun m => server (exec (del "other") (client m))); Ask true false 30; Ask false true 40].

Definition example_rate_server : Memory :=
  memory [(100, Fine); (100, AnswerLost); (100, Fine); (100, Fine); (100, Fine)].

Example example_asks_pass :
  (fun a => (allowed a, backend_available a)) <$> fst (rate_run "ip" 2 60000 example_asks example_rate_server)
  = [(true, true); (false, false); (false, true); (false, true)].
Proof. vm_compute. reflexivity. Qed.

(** With the cache down, a limiter that fails open lets every request pass. *)
Example unavailable_passes :
  (fun a => (allowed a, backend_available a)) <$>
    fst (rate_run "ip" 2 60000 (repeat (Ask true true 10) 4) (memory (repeat (100, AnswerLost) 4)))
  = repeat (true, false) 4.
Proof. vm_compute. reflexivity. Qed.

Lemma rate_limit_bound_witness :
  passes (fst (rate_run "ip" 2 60000 example_asks example_rate_server)) <= 2.
Proof.
  destruct (rate_run "ip" 2 60000 example_asks example_rate_server) as [answers r'] eqn:E.
  refine (rate_limit_bound (store := mem_store) "ip" 2 60000 example_asks example_rate_server
            answers r' _ _ _ _ E _).
  - split; [discriminate|reflexivity].
  - split; discriminate.
  - split_turns.
  - intros e n He. discriminate He.
  - assert (r' = snd (rate_run "ip" 2 60000 example_asks example_rate_server)) as ->
      by (rewrite E; reflexivity).
    vm_compute. discriminate.
Defined.
