(* ===== verification/Deployment.v ===== *)
(** * Deployment control (src/paladinscat-core/src/deployment.rs)

    The phase of a deployment, shared through the cache and remembered by each
    process: while it is draining, switching or warming, public requests are
    refused.  A state carries the instant at which it expires, so that a
    deployment that is never finished does not close the gate for ever. *)

From S2P Require Import Prelude Json Cache.

Definition DEPLOYMENT_STATE_KEY : string := "paladinscat:deployment:state".

Inductive DeploymentPhase :=
  | Idle
  | Announced
  | Draining
  | Switching
  | Warming
  | Complete
  | DeploymentFailed.

#[export] Instance deployment_phase_dec : EqDecision DeploymentPhase.
Proof. solve_decision. Defined.

Definition is_blocking (p : DeploymentPhase) : bool :=
  match p with Draining | Switching | Warming => true | _ => false end.

Definition phase_name (p : DeploymentPhase) : string :=
  match p with
  | Idle => "idle" | Announced => "announced" | Draining => "draining" | Switching => "switching"
  | Warming => "warming" | Complete => "complete" | DeploymentFailed => "failed"
  end.

Definition phase_of_name (s : string) : option DeploymentPhase :=
  find_first (fun p => String.eqb (phase_name p) s)
    [Idle; Announced; Draining; Switching; Warming; Complete; DeploymentFailed].

Record DeploymentState := {
  deployment_id : string;
  phase : DeploymentPhase;
  message : option string;
  started_at : option string;
  updated_at : string;
  expires_at : option string;
}.

Record DeploymentStateInput := {
  input_id : string;
  input_phase : DeploymentPhase;
  input_message : option string;
  input_ttl_seconds : option Z;
}.

Inductive DeploymentError := MissingDeploymentId | RedisUnavailable.

Definition opt_text (s : option string) : value :=
  match s with Some s => Str s | None => Null end.

Definition state_to_value (s : DeploymentState) : option value :=
  Some (Object [("id", Str (deployment_id s)); ("phase", Str (phase_name (phase s)));
                ("message", opt_text (message s)); ("startedAt", opt_text (started_at s));
                ("updatedAt", Str (updated_at s)); ("expiresAt", opt_text (expires_at s))]).

(** An absent or null optional field is none. *)
Definition field_text (v : option value) : option (option string) :=
  match v with None | Some Null => Some None | Some (Str s) => Some (Some s) | Some _ => None end.

Definition state_of_fields (id ph msg started updated expires : option value) :
    option DeploymentState :=
  id ← (v ← id; as_str v); ph ← (v ← ph; s ← as_str v; phase_of_name s);
  msg ← field_text msg; started ← field_text started;
  updated ← (v ← updated; as_str v); expires ← field_text expires;
  Some {| deployment_id := id; phase := ph; message := msg; started_at := started;
          updated_at := updated; expires_at := expires |}.

(** The derived [Deserialize] reads an object, or the fields in order. *)
Definition state_from_value (v : value) : option DeploymentState :=
  match v with
  | Object m =>
      state_of_fields (lookup_field "id" m) (lookup_field "phase" m) (lookup_field "message" m)
        (lookup_field "startedAt" m) (lookup_field "updatedAt" m) (lookup_field "expiresAt" m)
  | Array [a; b; c; d; e; f] =>
      state_of_fields (Some a) (Some b) (Some c) (Some d) (Some e) (Some f)
  | _ => None
  end.

#[export] Instance deployment_serde : Serde DeploymentState :=
  {| to_value := state_to_value; from_value := state_from_value |}.

(** [OffsetDateTime] as nanoseconds: its JSON text, to the millisecond, and
    the RFC 3339 parser of the time crate. *)
Class Timestamps := {
  format_json_timestamp : Z -> string;
  parse_rfc3339 : string -> option Z;
}.

(** [chars().take(max)]: a character starts at each byte that is not a UTF-8
    continuation. *)
Definition is_continuation (c : ascii) : bool := (128 <=? byte_of c) && (byte_of c <? 192).

Fixpoint truncate_chars (s : string) (max : nat) : string :=
  match s with
  | EmptyString => EmptyString
  | String c r =>
      if is_continuation c then String c (truncate_chars r max)
      else match max with
           | O => EmptyString
           | S max => String c (truncate_chars r max)
           end
  end.

Definition nanos_per_second : Z := 1000000000.

Section deployment.
Context {R : Type} `{Redis R} `{JsonText} `{Timestamps}.

Record DeploymentControl := { control_redis : RedisCache R; local : DeploymentState }.
Notation M := (ST DeploymentControl).

Definition idle_state (now : Z) : DeploymentState :=
  {| deployment_id := ""; phase := Idle; message := None; started_at := None;
     updated_at := format_json_timestamp now; expires_at := None |}.

Definition is_expired (s : DeploymentState) (now : Z) : bool :=
  match (text ← expires_at s; parse_rfc3339 text) with
  | Some expires_at => expires_at <=? now
  | None => false
  end.

Definition build_state (input : DeploymentStateInput) (previous : DeploymentState) (now : Z) :
    result (DeploymentState * Z) DeploymentError :=
  let id := truncate_chars (trim (input_id input)) 128 in
  if is_empty id && negb (bool_decide (input_phase input = Idle)) then Err MissingDeploymentId
  else
    let ttl_seconds := Z.min (Z.max (default 1800 (input_ttl_seconds input)) 30) 7200 in
    let started_at :=
      if String.eqb (deployment_id previous) id
      then or_else (started_at previous) (Some (format_json_timestamp now))
      else Some (format_json_timestamp now) in
    Ok ({| deployment_id := id;
           phase := input_phase input;
           message :=
             (text ← trim <$> input_message input;
              if is_empty text then None else Some (truncate_chars text 500));
           started_at := started_at;
           updated_at := format_json_timestamp now;
           expires_at := Some (format_json_timestamp (now + ttl_seconds * nanos_per_second)) |},
        ttl_seconds).

Definition deployment_redis {A} (f : ST (RedisCache R) A) : M A :=
  fun c => let '(a, r) := f (control_redis c) in (a, {| control_redis := r; local := local c |}).

Definition apply_local (s : DeploymentState) : M unit :=
  fun c => (tt, {| control_redis := control_redis c; local := s |}).

(** The state in the cache, unless it has expired. *)
Definition stored_state (now : Z) : M DeploymentState :=
  stored ← deployment_redis (get (T := DeploymentState) DEPLOYMENT_STATE_KEY);
  mret (match stored with
        | Some s => if is_expired s now then idle_state now else s
        | None => idle_state now
        end).

Definition refresh (now : Z) : M DeploymentState :=
  s ← stored_state now; apply_local s ≫= fun _ => mret s.

Definition initialize (now : Z) : M DeploymentState :=
  deployment_redis wait_ready ≫= fun _ => refresh now.

Definition local_state_at (now : Z) : M DeploymentState :=
  fun c =>
    if is_expired (local c) now
    then (apply_local (idle_state now) ≫= fun _ => mret (idle_state now)) c
    else (local c, c).

Definition set_state (input : DeploymentStateInput) (now : Z) :
    M (result DeploymentState DeploymentError) :=
  previous ← local_state_at now;
  match build_state input previous now with
  | Err e => mret (Err e)
  | Ok (state, ttl_seconds) =>
      stored ← deployment_redis (set_required DEPLOYMENT_STATE_KEY state (Some ttl_seconds));
      if (stored : bool) then apply_local state ≫= fun _ => mret (Ok state)
      else mret (Err RedisUnavailable)
  end.

(** ** Properties *)

(** The parser reads the instant of a formatted timestamp, to the millisecond,
    up to the end of the year 9999. *)
Definition last_instant : Z := 253402300799 * nanos_per_second.

Class TimestampLaw : Prop :=
  timestamp_reads t : 0 <= t <= last_instant -> exists t', parse_rfc3339 (format_json_timestamp t) = Some t' /\ t' <= t.

Lemma truncate_chars_chars s max :
  (length (List.filter (fun c => negb (is_continuation c)) (String.list_ascii_of_string (truncate_chars s max)))
   <= max)%nat.
Proof.
  revert max. induction s as [|c s IH]; intros max; simpl; [lia|].
  destruct (is_continuation c) eqn:E.
  - simpl. rewrite E. simpl. apply IH.
  - destruct max as [|max]; simpl; [lia|]. rewrite E. simpl. specialize (IH max). lia.
Qed.

(** Every field of a state that was built. *)
Lemma build_state_fields input previous now s ttl :
  build_state input previous now = Ok (s, ttl) ->
  30 <= ttl <= 7200 /\ phase s = input_phase input /\
  (deployment_id s = "" -> phase s = Idle) /\
  expires_at s = Some (format_json_timestamp (now + ttl * nanos_per_second)) /\
  (deployment_id previous = deployment_id s -> started_at previous <> None ->
   started_at s = started_at previous).
Proof.
  unfold build_state. destruct (_ && _) eqn:E; [done|]. intros [= <- <-]. simpl.
  split_and!; try done; try lia.
  - intros Hid. rewrite Hid in E. simpl in E. apply negb_false_iff in E. by apply bool_decide_eq_true in E.
  - intros Hid Hs. rewrite <- Hid, String.eqb_refl. by destruct (started_at previous).
Qed.

(** The local state is never an expired one. *)
Lemma local_state_fresh now c :
  is_expired (run (local_state_at now) c) now = false /\
  local (exec (local_state_at now) c) = run (local_state_at now) c.
Proof.
  unfold run, exec, local_state_at. destruct (is_expired (local c) now) eqn:E; by split.
Qed.

(** A deployment can be announced with any lifetime, but the gate it
    closes opens by itself: two hours after a successful [set_state], a process
    that heard nothing since does not hold a blocking state. *)
Theorem deployment_gate_opens `{!TimestampLaw} input now c later :
  0 <= now <= last_instant - 7200 * nanos_per_second ->
  is_ok (run (set_state input now) c) = true ->
  now + 7200 * nanos_per_second <= later ->
  is_blocking (phase (run (local_state_at later) (exec (set_state input now) c))) = false.
Proof.
  intros Hnow Hok Hlater. unfold set_state, run, exec, mbind, ST_bind in *.
  destruct (local_state_at now c) as [previous c1]. simpl in *.
  destruct (build_state input previous now) as [[s ttl]|] eqn:Eb; [|done].
  apply build_state_fields in Eb as (Httl & _ & _ & Hexp & _).
  destruct (deployment_redis _ c1) as [[] c2]; [|done]. simpl.
  unfold local_state_at, apply_local, is_expired. simpl. rewrite Hexp. simpl.
  unfold nanos_per_second in *.
  destruct (timestamp_reads (now + ttl * 1000000000)) as (t & -> & Ht); [lia|]. by destruct (Z.leb_spec t later); [|lia].
Qed.
End deployment.
