(* ===== verification/Security.v ===== *)
(** * Request security (src/backend-rust/src/security.rs)

    Which credentials a request carries, which of the versioned API's routes it
    asks for, and which address it comes from.  SHA-256, URL and IP parsing are
    libraries; the tables of patterns are those of the source. *)

From S2P Require Import Prelude Json Regex.

Definition VERSION_PREFIX : string := "/v1".
Definition INTERNAL_REQUEST_HEADER : string := "x-pc-internal-request".
Definition SERVICE_TOKEN_HEADER : string := "x-paladinscat-service-token".

Definition KEY_PATTERN : string := "^pc_(?:live|test)_[A-Za-z0-9_-]{43,}$".

Definition SAFE_PATHS : list string := [
  "^/notifications$";
  "^/operations/stats$";
  "^/system/hirez-status$";
  "^/hirez-status$";
  "^/search/(?:universal|players|matches)$";
  "^/reference/(?:champions|items|bounty-items|maps|tiers|regions|talents|queues|patches|cards|skins|abilities)(?:/\d+)?$";
  "^/reference/lookup$";
  "^/champions$";
  "^/champions/(?:overview|tiers|top-winrate)$";
  "^/champions/[^/]+$";
  "^/champions/[^/]+/(?:page-data|patch-history|counters)$";
  "^/champions/[^/]+/talents/\d+/page-data$";
  "^/players/(?:overview|search|bulk)$";
  "^/players/leaderboard/(?:class|champion-elo|performance)$";
  "^/players/\d+$";
  "^/players/\d+/(?:matches|champions|charts|loadouts|card-winrates)$";
  "^/players/\d+/loadouts/decks/\d+$";
  "^/player-ext/(?:name-history|merges|status|achievements)/\d+$";
  "^/matches/(?:overview|batch|recent|search|bans|hourly-stats|compositions)$";
  "^/matches/queue/\d+$";
  "^/matches/fact/\d+$";
  "^/matches/\d+$";
  "^/live/matches$";
  "^/live/matches/\d+$";
  "^/live/ended$";
  "^/stats(?:/.*)?$";
  "^/ratings(?:/.*)?$";
  "^/coplay(?:/.*)?$";
  "^/meta/changelog$";
  "^/meta/(?:items|talents|cards|compositions|top)(?:/\d+)?$"
].

Definition ANONYMOUS_READ_PATHS : list string := ["^/stats/champions$"].
Definition GUARDED_WRITE_PATHS : list string := ["^/players/\d+/refresh$"].

Definition any_match (patterns : list string) (path : string) : bool :=
  existsb (fun p => is_match p path) patterns.

Record DeveloperApiDecision := {
  attempted : bool;
  supported : bool;
  anonymous : bool;
  target_url : string;
  status_code : option Z;
  code : option string;
  decision_message : option string;
}.

Inductive SecurityContextError :=
  | DeveloperKeyFile (e : string)
  | InvalidDeveloperKeyHash.

(** *** Hexadecimal *)

Definition hex_nibble (b : Z) : result Z SecurityContextError :=
  if (48 <=? b) && (b <=? 57) then Ok (b - 48)
  else if (97 <=? b) && (b <=? 102) then Ok (b - 97 + 10)
  else if (65 <=? b) && (b <=? 70) then Ok (b - 65 + 10)
  else Err InvalidDeveloperKeyHash.

Definition is_hexdigit (c : ascii) : bool := is_ok (hex_nibble (byte_of c)).

Fixpoint all_chars (p : ascii -> bool) (s : string) : bool :=
  match s with EmptyString => true | String c r => p c && all_chars p r end.

(** The bytes of [chunks_exact(2)]. *)
Fixpoint decode_pairs (s : string) : result (list Z) SecurityContextError :=
  match s with
  | String a (String b r) =>
      match hex_nibble (byte_of a), hex_nibble (byte_of b), decode_pairs r with
      | Ok x, Ok y, Ok rest => Ok (Z.lor (Z.shiftl x 4) y :: rest)
      | _, _, _ => Err InvalidDeveloperKeyHash
      end
  | _ => Ok []
  end.

Definition decode_sha256 (s : string) : result (list Z) SecurityContextError :=
  if negb (Z.of_nat (String.length s) =? 64) || negb (all_chars is_hexdigit s)
  then Err InvalidDeveloperKeyHash
  else decode_pairs s.

Definition hex_char (n : Z) : ascii :=
  ascii_of_nat (Z.to_nat (if n <? 10 then 48 + n else 97 + (n - 10))).

Fixpoint encode_hex (bytes : list Z) : string :=
  match bytes with
  | [] => EmptyString
  | b :: r =>
      String (hex_char (Z.shiftr b 4)) (String (hex_char (Z.land b 15)) (encode_hex r))
  end.

(** *** Headers *)

(** A [HeaderMap]: lower-case names, the values of a name in order. *)
Definition HeaderMap : Type := list (string * string).

Definition header_get (headers : HeaderMap) (name : string) : option string :=
  snd <$> find_first (fun h => String.eqb (fst h) name) headers.

(** [HeaderValue::to_str]: visible ASCII and tabs only. *)
Definition visible (c : ascii) : bool :=
  ((32 <=? byte_of c) && (byte_of c <? 127)) || (byte_of c =? 9).

Definition header_text (headers : HeaderMap) (name : string) : option string :=
  v ← header_get headers name; if all_chars visible v then Some v else None.

Definition strip_prefix (p s : string) : option string :=
  if String.prefix p s then Some (String.substring (String.length p) (String.length s) s) else None.

Definition non_empty (s : string) : option string := if is_empty s then None else Some s.

Definition bearer_token_case_sensitive (headers : HeaderMap) : option string :=
  v ← header_text headers "authorization"; t ← strip_prefix "Bearer " v; non_empty (trim t).

Definition service_token (headers : HeaderMap) : option string :=
  or_else (v ← header_text headers SERVICE_TOKEN_HEADER; non_empty (trim v))
    (bearer_token_case_sensitive headers).

(** [split_once(char::is_whitespace)] of an ASCII text. *)
Fixpoint split_once_whitespace (s : string) : option (string * string) :=
  match s with
  | EmptyString => None
  | String c r =>
      if ws1 c then Some (EmptyString, r)
      else '(a, b) ← split_once_whitespace r; Some (String c a, b)
  end.

Definition developer_bearer_token (headers : HeaderMap) : option string :=
  header ← header_text headers "authorization";
  '(scheme, v) ← split_once_whitespace header;
  if negb (eq_ignore_ascii_case scheme "Bearer") then None else non_empty (trim v).

(** *** The context *)

(** The URL and address parsers: a URL joined to a base without a path, the
    host of an absolute URL, an IP address and a socket address as their
    canonical text, the latter with whether it is IPv4. *)
Record ParsedUrl := {
  url_path : string;
  url_query : option string;
  url_pairs : list (string * string);
}.

Class Net := {
  url_join : string -> option ParsedUrl;
  url_host : string -> option (option string);
  parse_ip : string -> option string;
  parse_socket : string -> option (string * bool);
}.

(** The 32 bytes of a digest. *)
Class Digests := sha256 : string -> list Z.

Record SecurityContext := {
  environment : string;
  cors_origins : list string;
  trust_cloudflare_headers : bool;
  public_api_rate_limit_per_minute : Z;
  public_api_global_limit_per_minute : Z;
  account_auth_attempts_per_window : Z;
  account_auth_window_ms : Z;
  developer_api_rate_limit_per_minute : Z;
  developer_api_concurrency_limit : Z;
  context_service_token : option string;
  previous_service_token : option string;
  admin_secret : option string;
  developer_key_hash : option (list Z);
  developer_key_identity : string;
  internal_request_token : string;
}.

(** The fields of [BackendConfig] the context is made of. *)
Record SecurityConfig := {
  config_context : SecurityContext;
  developer_api_key_sha256 : option string;
  developer_api_key_sha256_file : option string;
}.

Section context.
Context `{Net} `{Digests}.
Implicit Types (sec : SecurityContext) (headers : HeaderMap).

Definition constant_time_equal (candidate expected : string) : bool :=
  bool_decide (sha256 candidate = sha256 expected).

(** [read] is the file system, [internal_token] the two fresh UUIDs; the other
    fields are copied from the configuration. *)
Definition from_config (config : SecurityConfig) (read : string -> result string string)
    (internal_token : string) : result SecurityContext SecurityContextError :=
  let copy (hash : option (list Z)) :=
    let c := config_context config in
    {| environment := environment c;
       cors_origins := cors_origins c;
       trust_cloudflare_headers := trust_cloudflare_headers c;
       public_api_rate_limit_per_minute := public_api_rate_limit_per_minute c;
       public_api_global_limit_per_minute := public_api_global_limit_per_minute c;
       account_auth_attempts_per_window := account_auth_attempts_per_window c;
       account_auth_window_ms := account_auth_window_ms c;
       developer_api_rate_limit_per_minute := developer_api_rate_limit_per_minute c;
       developer_api_concurrency_limit := developer_api_concurrency_limit c;
       context_service_token := context_service_token c;
       previous_service_token := previous_service_token c;
       admin_secret := admin_secret c;
       developer_key_hash := hash;
       developer_key_identity :=
         match hash with Some h => encode_hex (take 8 h) | None => "unconfigured" end;
       internal_request_token := internal_token |} in
  let configured_hash : result (option string) SecurityContextError :=
    match developer_api_key_sha256 config with
    | Some v => Ok (Some v)
    | None =>
        match developer_api_key_sha256_file config with
        | Some path =>
            match read path with
            | Ok text => Ok (Some (trim text))
            | Err e => Err (DeveloperKeyFile e)
            end
        | None => Ok None
        end
    end in
  match configured_hash with
  | Err e => Err e
  | Ok None => Ok (copy None)
  | Ok (Some v) =>
      match decode_sha256 v with Ok hash => Ok (copy (Some hash)) | Err e => Err e end
  end.

Definition developer_key_configured sec : bool :=
  match developer_key_hash sec with Some _ => true | None => false end.

Definition authenticate_developer_key sec (candidate : string) : bool :=
  match developer_key_hash sec with
  | None => false
  | Some expected_hash =>
      is_match KEY_PATTERN candidate && bool_decide (sha256 candidate = expected_hash)
  end.

Definition is_allowed_cors_origin sec (origin : string) : bool :=
  if existsb (fun allowed => String.eqb allowed origin) (cors_origins sec) then true
  else if String.eqb (environment sec) "production" then false
  else match url_host origin with
       | Some (Some host) => existsb (String.eqb host) ["localhost"; "127.0.0.1"; "::1"]
       | _ => false
       end.

Definition is_internal_request sec headers : bool :=
  match header_text headers INTERNAL_REQUEST_HEADER with
  | Some candidate => constant_time_equal candidate (internal_request_token sec)
  | None => false
  end.

Definition is_service_request sec headers : bool :=
  match context_service_token sec, service_token headers with
  | Some current, Some candidate =>
      constant_time_equal candidate current
      || match previous_service_token sec with
         | Some previous => constant_time_equal candidate previous
         | None => false
         end
  | _, _ => false
  end.

Definition is_operator_request sec headers (authenticated_developer : bool) : bool :=
  is_internal_request sec headers || is_service_request sec headers || authenticated_developer
  || match admin_secret sec, bearer_token_case_sensitive headers with
     | Some expected, Some candidate => constant_time_equal candidate expected
     | _, _ => false
     end.

Definition service_auth_configured sec : bool :=
  match context_service_token sec with Some _ => true | None => false end.

(** *** The versioned routes *)

Definition untouched_decision (raw_url : string) : DeveloperApiDecision :=
  {| attempted := false; supported := false; anonymous := false; target_url := raw_url;
     status_code := None; code := None; decision_message := None |}.

Definition rejected_decision (raw_url : string) (status : Z) (c m : string) : DeveloperApiDecision :=
  {| attempted := true; supported := false; anonymous := false; target_url := raw_url;
     status_code := Some status; code := Some c; decision_message := Some m |}.

Definition anonymous_target (path : string) : option string :=
  if String.eqb path "/health" then Some "/health"
  else if String.eqb path "/version" then Some "/meta/version" else None.

(** The first [remote] parameter asks for an upstream lookup. *)
Definition remote_lookup (pairs : list (string * string)) : bool :=
  match find_first (fun p => String.eqb (fst p) "remote") pairs with
  | Some (_, v) => let v := to_ascii_lowercase v in String.eqb v "true" || String.eqb v "1"
  | None => false
  end.

Definition to_ascii_uppercase : string -> string :=
  map_string (fun c => if is_lower c then ascii_of_nat (nat_of_ascii c - 32) else c).

(** The path of a versioned URL below its prefix, if it is one. *)
Definition versioned_path (pathname : string) : option string :=
  if negb (String.eqb pathname VERSION_PREFIX) && negb (String.prefix "/v1/" pathname) then None
  else Some (default "/" (p ← strip_prefix VERSION_PREFIX pathname; non_empty p)).

Definition resolve_developer_api_route (method raw_url : string) : DeveloperApiDecision :=
  match url_join raw_url with
  | None => untouched_decision raw_url
  | Some parsed =>
      match versioned_path (url_path parsed) with
      | None => untouched_decision raw_url
      | Some path =>
          let normalized_method := to_ascii_uppercase method in
          let target := anonymous_target path in
          let anonymous_read := any_match ANONYMOUS_READ_PATHS path in
          let guarded_write := any_match GUARDED_WRITE_PATHS path in
          let is_anonymous_target := match target with Some _ => true | None => false end in
          let safe_path := is_anonymous_target || any_match SAFE_PATHS path || guarded_write in
          if negb safe_path then
            rejected_decision raw_url 404 "API_ROUTE_NOT_FOUND"
              "This endpoint is not part of the PaladinsCat v1 API."
          else if negb (((String.eqb normalized_method "GET" || String.eqb normalized_method "HEAD")
                         && negb guarded_write)
                        || (String.eqb normalized_method "POST" && guarded_write)) then
            rejected_decision raw_url 405 "METHOD_NOT_ALLOWED"
              "This method is not available for the requested PaladinsCat v1 endpoint."
          else if String.eqb path "/search/universal" && remote_lookup (url_pairs parsed) then
            rejected_decision raw_url 400 "REMOTE_LOOKUP_NOT_AVAILABLE"
              "Developer API searches are database-only and cannot request an upstream lookup."
          else
            {| attempted := true; supported := true;
               anonymous := is_anonymous_target || anonymous_read;
               target_url := default path target
                             +:+ match url_query parsed with Some q => "?" +:+ q | None => "" end;
               status_code := None; code := None; decision_message := None |}
      end
  end.

(** *** Addresses *)

Fixpoint trim_start_char (c : ascii) (s : string) : string :=
  match s with
  | String d r => if Ascii.eqb d c then trim_start_char c r else s
  | EmptyString => s
  end.

Definition trim_end_char (c : ascii) (s : string) : string :=
  String.rev (trim_start_char c (String.rev s)).

Definition normalize_ip (v : string) : option string :=
  let trimmed := trim_end_char "]" (trim_start_char "[" (trim v)) in
  match parse_ip trimmed with
  | Some address => Some address
  | None =>
      match parse_socket trimmed with
      | Some (address, true) => Some address
      | _ => None
      end
  end.

(** [fallback] is the address of the peer. *)
Definition resolve_client_address headers (fallback : option string) (trust : bool) : string :=
  let cloudflare :=
    if trust then v ← header_text headers "cf-connecting-ip"; normalize_ip v else None in
  let forwarded :=
    v ← header_text headers "x-forwarded-for"; last (omap normalize_ip (split_on "," v)) in
  match cloudflare, forwarded with
  | Some address, _ => address
  | None, Some address => address
  | None, None => default "unknown" fallback
  end.

Definition client_rate_limit_identity (address : string) : string :=
  "client:" +:+ encode_hex (take 16 (sha256 address)).
End context.

(** *** Privileged routes *)

Definition is_sensitive_operator_route (method path : string) : bool :=
  String.prefix "/recovery/" path || String.eqb path "/recovery"
  || String.prefix "/api/hirez-raw-responses" path
  || String.prefix "/api/raw-responses" path
  || String.prefix "/matches/raw/" path
  || String.prefix "/players/raw/" path
  || String.eqb path "/api-keys/status"
  || (eq_ignore_ascii_case method "POST"
      && (String.eqb path "/matches/pull" || String.eqb path "/matches/discover")).

Definition is_service_only_route (path : string) : bool :=
  String.eqb path "/players/discord" || String.prefix "/players/discord/" path.

Definition requires_configured_service_route (path : string) : bool :=
  String.prefix "/players/discord/" path.

(** * Properties of request security

    The hexadecimal codec; what the versioned API lets through is never a
    privileged route; the comparison of secrets. *)

(** ** Hexadecimal *)

Lemma hex_nibble_char n :
  0 <= n < 16 -> hex_nibble (byte_of (hex_char n)) = Ok n /\ is_hexdigit (hex_char n) = true.
Proof.
  intros Hn. assert (n ∈ [0;1;2;3;4;5;6;7;8;9;10;11;12;13;14;15]) as H.
  { rewrite !elem_of_cons. lia. }
  repeat (apply elem_of_cons in H as [->|H]; [by vm_compute|]). by apply elem_of_nil in H.
Qed.

Lemma nibbles_of_byte b :
  0 <= b < 256 ->
  0 <= Z.shiftr b 4 < 16 /\ 0 <= Z.land b 15 < 16 /\
  Z.lor (Z.shiftl (Z.shiftr b 4) 4) (Z.land b 15) = b.
Proof.
  intros Hb. rewrite Z.shiftr_div_pow2 by lia. change 15 with (Z.ones 4). rewrite Z.land_ones by lia.
  pose proof (Z.div_mod b 16 ltac:(lia)). pose proof (Z.mod_pos_bound b 16 ltac:(lia)).
  change (2 ^ 4) with 16. split_and!; try lia.
  rewrite <- (Z.lor_ldiff_and b (Z.ones 4)) at 3. rewrite Z.ldiff_ones_r by lia.
  rewrite Z.land_ones by lia. rewrite Z.shiftr_div_pow2 by lia. done.
Qed.

Lemma decode_encode_pairs bytes :
  Forall (fun b => 0 <= b < 256) bytes ->
  decode_pairs (encode_hex bytes) = Ok bytes /\ all_chars is_hexdigit (encode_hex bytes) = true /\
  String.length (encode_hex bytes) = (2 * length bytes)%nat.
Proof.
  induction 1 as [|b bytes Hb _ (IHd & IHa & IHl)]; [done|].
  destruct (nibbles_of_byte b Hb) as (Hhi & Hlo & Hor).
  destruct (hex_nibble_char _ Hhi) as [Nhi Dhi]. destruct (hex_nibble_char _ Hlo) as [Nlo Dlo].
  cbn [encode_hex decode_pairs all_chars String.length length].
  rewrite Nhi, Nlo, IHd, Hor, Dhi, Dlo, IHa, IHl. split_and!; [done|done|lia].
Qed.

(** A SHA-256 digest printed in hexadecimal is read back as configured. *)
Theorem sha256_hex_roundtrip bytes :
  length bytes = 32%nat -> Forall (fun b => 0 <= b < 256) bytes ->
  decode_sha256 (encode_hex bytes) = Ok bytes.
Proof.
  intros Hlen Hb. destruct (decode_encode_pairs bytes Hb) as (Hd & Ha & Hl).
  unfold decode_sha256. rewrite Hl, Hlen, Ha. simpl. done.
Qed.

Lemma sha256_hex_roundtrip_witness :
  decode_sha256 (encode_hex (map (fun n => (n * 37) mod 256) (seqZ 0 32)))
  = Ok (map (fun n => (n * 37) mod 256) (seqZ 0 32)).
Proof.
  refine (sha256_hex_roundtrip (map (fun n => (n * 37) mod 256) (seqZ 0 32)) eq_refl _).
  apply (bool_decide_unpack _). vm_compute. exact I.
Defined.

(** ** The versioned API *)

Lemma prefix_app p s : String.prefix p s = true -> exists t, s = p +:+ t.
Proof.
  revert s. induction p as [|c p IH]; intros s Hp; [by exists s|].
  destruct s as [|d s]; [done|]. simpl in Hp. destruct (ascii_dec c d) as [->|]; [|done].
  destruct (IH s Hp) as [t ->]. by exists t.
Qed.

(** No pattern of the list can match a text that starts with [p]. *)
Definition dead_after (p : string) (patterns : list string) : bool :=
  forallb (fun t => match derivs p (pattern t) with Void => true | _ => false end) patterns.

Lemma dead_after_no_match p patterns path :
  dead_after p patterns = true -> String.prefix p path = true -> any_match patterns path = false.
Proof.
  unfold dead_after, any_match, is_match. intros Hd (t & ->)%prefix_app.
  induction patterns as [|x patterns IH]; [done|]. simpl in *. apply andb_prop in Hd as [Hx Hd].
  rewrite (IH Hd), orb_false_r. apply re_match_dead. by destruct (derivs p (pattern x)).
Qed.

Definition privileged_prefixes : list string :=
  ["/recovery/"; "/api/hirez-raw-responses"; "/api/raw-responses"; "/matches/raw/"; "/players/raw/";
   "/players/discord/"].
Definition privileged_paths : list string :=
  ["/recovery"; "/api-keys/status"; "/matches/pull"; "/matches/discover"; "/players/discord"].

Definition privileged (path : string) : bool :=
  existsb (fun p => String.prefix p path) privileged_prefixes
  || existsb (fun p => String.eqb path p) privileged_paths.

Lemma privileged_covers method path :
  is_sensitive_operator_route method path || is_service_only_route path = true ->
  privileged path = true.
Proof.
  unfold is_sensitive_operator_route, is_service_only_route, privileged. simpl.
  destruct (String.prefix "/recovery/" path), (String.eqb path "/recovery"),
    (String.prefix "/api/hirez-raw-responses" path), (String.prefix "/api/raw-responses" path),
    (String.prefix "/matches/raw/" path), (String.prefix "/players/raw/" path),
    (String.eqb path "/api-keys/status"), (String.prefix "/players/discord/" path),
    (String.eqb path "/matches/pull"), (String.eqb path "/matches/discover"),
    (String.eqb path "/players/discord"), (eq_ignore_ascii_case method "POST"); done.
Qed.

(** The patterns of the versioned API and the privileged routes are disjoint:
    every privileged prefix leaves each pattern nothing to match. *)
Lemma safe_paths_not_privileged path :
  any_match SAFE_PATHS path || any_match GUARDED_WRITE_PATHS path = true -> privileged path = false.
Proof.
  intros Hsafe. destruct (privileged path) eqn:Hp; [|done]. exfalso.
  assert (forallb (fun p => dead_after p (SAFE_PATHS ++ GUARDED_WRITE_PATHS)) privileged_prefixes = true)
    as Hdead by (vm_compute; reflexivity).
  assert (forallb (fun p => negb (any_match SAFE_PATHS p || any_match GUARDED_WRITE_PATHS p))
            privileged_paths = true) as Hno by (vm_compute; reflexivity).
  unfold privileged in Hp. apply orb_prop in Hp as [Hp|Hp].
  - apply existsb_exists in Hp as (p & Hin & Hp).
    rewrite forallb_forall in Hdead. specialize (Hdead p Hin).
    pose proof (dead_after_no_match _ _ _ Hdead Hp) as Hm.
    unfold any_match in *. rewrite existsb_app in Hm. congruence.
  - apply existsb_exists in Hp as (p & Hin & ->%String.eqb_eq).
    rewrite forallb_forall in Hno. specialize (Hno p Hin). by rewrite Hsafe in Hno.
Qed.

Lemma anonymous_target_not_privileged path target :
  anonymous_target path = Some target -> privileged target = false.
Proof.
  unfold anonymous_target. destruct (String.eqb path "/health"); [by intros [= <-]|].
  destruct (String.eqb path "/version"); [by intros [= <-]|done].
Qed.

Section routes.
Context `{Net}.

(** C34. A request the versioned API supports is read-only, or the guarded
    refresh of a player; it is a database-only search; and the route it is
    sent to is never an operator's or a service's, whatever the method. *)
Theorem v1_route_unprivileged method raw_url :
  let d := resolve_developer_api_route method raw_url in
  supported d = true ->
  attempted d = true /\
  exists parsed path route,
    url_join raw_url = Some parsed /\ versioned_path (url_path parsed) = Some path /\
    route = default path (anonymous_target path) /\
    target_url d = route +:+ match url_query parsed with Some q => "?" +:+ q | None => "" end /\
    (forall m, is_sensitive_operator_route m route = false) /\
    is_service_only_route route = false /\
    (path = "/search/universal" -> remote_lookup (url_pairs parsed) = false) /\
    let m := to_ascii_uppercase method in
    ((m = "GET" \/ m = "HEAD") /\ any_match GUARDED_WRITE_PATHS path = false \/
     m = "POST" /\ any_match GUARDED_WRITE_PATHS path = true).
Proof.
  intros d. subst d. unfold resolve_developer_api_route.
  destruct (url_join raw_url) as [parsed|]; [|done].
  destruct (versioned_path (url_path parsed)) as [path|] eqn:Ev; [|done].
  set (m := to_ascii_uppercase method).
  cbv zeta. fold m.
  match goal with |- context [if negb ?b then rejected_decision _ 404 _ _ else _] =>
    destruct (negb b) eqn:Esafe; [done|] end.
  match goal with |- context [if negb ?b then rejected_decision _ 405 _ _ else _] =>
    destruct (negb b) eqn:Emethod; [done|] end.
  match goal with |- context [if ?b then rejected_decision _ 400 _ _ else _] =>
    destruct b eqn:Eremote; [done|] end.
  intros _. split; [done|].
  apply negb_false_iff in Esafe, Emethod.
  set (route := default path (anonymous_target path)).
  assert (privileged route = false) as Hpriv.
  { subst route. destruct (anonymous_target path) as [t|] eqn:Et; simpl in *.
    - by eapply anonymous_target_not_privileged.
    - by apply safe_paths_not_privileged. }
  assert (forall m', is_sensitive_operator_route m' route || is_service_only_route route = false) as Hno.
  { intros m'. apply not_true_is_false. intros E%privileged_covers. congruence. }
  exists parsed, path, route. split_and!; try done.
  - intros m'. specialize (Hno m'). by apply orb_false_elim in Hno as [? _].
  - specialize (Hno "GET"). by apply orb_false_elim in Hno as [_ ?].
  - intros ->. by rewrite String.eqb_refl in Eremote.
  - apply orb_prop in Emethod as [Hm|Hm]; apply andb_prop in Hm as [Hm Hg].
    + left. apply negb_true_iff in Hg. split; [|done].
      apply orb_prop in Hm as [Hm|Hm]; apply String.eqb_eq in Hm; auto.
    + right. apply String.eqb_eq in Hm. auto.
Qed.
End routes.
