(* ===== verification/Foundation.v ===== *)
(** * The application foundation (src/backend-rust/src/foundation.rs)

    The middleware every request passes before its handler: session cookies,
    CORS preflight, the deployment gate, the public rate limits, the versioned
    API's key, limit and concurrency slot, and the credentials of privileged
    routes; and what it adds to the response.  A gate that refuses a request
    returns its finished response as an error of the stage. *)

From S2P Require Import Prelude Json Cache Deployment Security.

Definition ONE_MINUTE_MS : Z := 60000.
Definition OIDC_START_LIMIT : Z := 30.
Definition OIDC_START_WINDOW_MS : Z := 15 * ONE_MINUTE_MS.
Definition CONTENT_SECURITY_POLICY : string :=
  "default-src 'self';base-uri 'self';font-src 'self' https: data:;form-action 'self';frame-ancestors 'self';img-src 'self' data:;object-src 'none';script-src 'self';script-src-attr 'none';style-src 'self' https: 'unsafe-inline';upgrade-insecure-requests".

(** ** Requests and responses *)

(** An [http::Uri]: its text and its path. *)
Record Uri := { uri_text : string; uri_path : string }.

Record Request := {
  req_method : string;
  req_uri : Uri;
  req_headers : HeaderMap;
  req_peer : option string;
}.

Inductive Body :=
  | NoBody
  | TextBody (s : string)
  | JsonBody (v : value).

Record Response := { resp_status : Z; resp_body : Body; resp_headers : HeaderMap }.

Definition text_response (status : Z) (s : string) : Response :=
  {| resp_status := status; resp_body := TextBody s;
     resp_headers := [("content-type", "text/plain; charset=utf-8")] |}.

Definition json_response (status : Z) (v : value) : Response :=
  {| resp_status := status; resp_body := JsonBody v;
     resp_headers := [("content-type", "application/json")] |}.

(** [HeaderMap::insert] replaces the values of the name. *)
Definition header_insert (name v : string) (headers : HeaderMap) : HeaderMap :=
  List.filter (fun h => negb (String.eqb (fst h) name)) headers ++ [(name, v)].

Definition map_headers (f : HeaderMap -> HeaderMap) (r : Response) : Response :=
  {| resp_status := resp_status r; resp_body := resp_body r; resp_headers := f (resp_headers r) |}.

Definition insert_static (name v : string) : HeaderMap -> HeaderMap := header_insert name v.

(** [HeaderValue::from_str]: no control characters but the tab. *)
Definition header_value_char (c : ascii) : bool :=
  ((32 <=? byte_of c) && negb (byte_of c =? 127)) || (byte_of c =? 9).

Definition insert_header (name v : string) (headers : HeaderMap) : HeaderMap :=
  if all_chars header_value_char v then header_insert name v headers else headers.

Definition append_vary (v : string) (headers : HeaderMap) : HeaderMap :=
  let values :=
    List.filter (fun item => negb (is_empty item))
      (map trim (split_on "," (default "" (header_text headers "vary")))) in
  let values :=
    if existsb (fun item => eq_ignore_ascii_case item v) values then values else values ++ [v] in
  insert_header "vary" (String.concat ", " values) headers.

Definition helmet_headers : list (string * string) := [
  ("content-security-policy", CONTENT_SECURITY_POLICY);
  ("cross-origin-opener-policy", "same-origin");
  ("cross-origin-resource-policy", "same-origin");
  ("origin-agent-cluster", "?1");
  ("referrer-policy", "no-referrer");
  ("strict-transport-security", "max-age=31536000; includeSubDomains");
  ("x-content-type-options", "nosniff");
  ("x-dns-prefetch-control", "off");
  ("x-download-options", "noopen");
  ("x-frame-options", "SAMEORIGIN");
  ("x-permitted-cross-domain-policies", "none");
  ("x-xss-protection", "0")
].

Definition apply_helmet_headers (headers : HeaderMap) : HeaderMap :=
  foldl (fun h e => insert_static (fst e) (snd e) h) headers helmet_headers.

Definition set_limit_headers (prefix : string) (r : RateLimitResult) (headers : HeaderMap) :
    HeaderMap :=
  foldl (fun h e =>
           insert_header (to_ascii_lowercase ("x-" +:+ prefix +:+ "-" +:+ fst e)) (pretty (snd e)) h)
    headers [("Limit", total r); ("Remaining", remaining r); ("Reset", reset_at_ms r)].

Record PublicLimitHeaders := { limit_client : RateLimitResult; limit_global : RateLimitResult }.

Definition set_public_headers (limits : option PublicLimitHeaders) (headers : HeaderMap) : HeaderMap :=
  match limits with
  | Some l => set_limit_headers "Global-RateLimit" (limit_global l)
                (set_limit_headers "RateLimit" (limit_client l) headers)
  | None => headers
  end.

Definition set_optional_headers (prefix : string) (limit : option RateLimitResult)
    (headers : HeaderMap) : HeaderMap :=
  match limit with Some r => set_limit_headers prefix r headers | None => headers end.

(** The request handed to the router, with its extensions. *)
Record Forwarded := {
  fwd_method : string;
  fwd_uri : Uri;
  fwd_effective_uri : Uri;
  fwd_headers : HeaderMap;
  fwd_peer : option string;
  fwd_request_id : string;
  fwd_public_limits : option PublicLimitHeaders;
  fwd_developer_limit : option RateLimitResult;
  fwd_authenticated_developer : bool;
}.

(** *** Paths that skip a gate *)

Definition bypasses_deployment_gate (path : string) : bool :=
  String.prefix "/health" path || String.prefix "/migration/" path
  || String.prefix "/schedulers" path || String.prefix "/deployment/status" path
  || String.prefix "/admin/deployment" path.

Definition bypasses_public_rate_limit (path : string) : bool :=
  String.prefix "/health" path || String.prefix "/migration/" path
  || String.prefix "/deployment/status" path.

(** ** The middleware *)

(** What the middleware calls: the rate limits, the deployment control, the
    clock, the timer of the request, and the handler behind it. *)
Class FoundationEnv (W : Type) := {
  rate_check : string -> Z -> Z -> bool -> ST W RateLimitResult;
  deployment_local_state : ST W DeploymentState;
  unix_time_ms : ST W Z;
  next_request_id : ST W string;
  server_timing : ST W string;
  run_next : Forwarded -> ST W Response;
  parse_uri : string -> option Uri;
}.

(** The counters of the process beside everything else. *)
Record FoundationState (W : Type) := {
  active_requests : Z;
  developer_active_requests : Z;
  env : W;
}.
Arguments active_requests {W} _.
Arguments developer_active_requests {W} _.
Arguments env {W} _.
Arguments Build_FoundationState {W} _ _ _.

Section foundation.
Context {W : Type} `{FoundationEnv W} `{Net} `{Digests}.
Variable sec : SecurityContext.
Notation M := (ST (FoundationState W)).

Definition on_env {A} (f : ST W A) : M A :=
  fun s => let '(a, w) := f (env s) in
           (a, {| active_requests := active_requests s;
                  developer_active_requests := developer_active_requests s; env := w |}).

(** *** The guards *)

Definition begin_request : M unit :=
  fun s => (tt, {| active_requests := active_requests s + 1;
                   developer_active_requests := developer_active_requests s; env := env s |}).

(** The drop of an [ActiveRequestGuard], if there is one. *)
Definition drop_request (guard : bool) : M unit :=
  fun s => (tt, if guard
                then {| active_requests := active_requests s - 1;
                        developer_active_requests := developer_active_requests s; env := env s |}
                else s).

Definition acquire_developer_slot (limit : Z) : M bool :=
  fun s => if developer_active_requests s <? limit
           then (true, {| active_requests := active_requests s;
                          developer_active_requests := developer_active_requests s + 1; env := env s |})
           else (false, s).

(** The drop of a [DeveloperConcurrencyGuard], if there is one. *)
Definition drop_slot (guard : bool) : M unit :=
  fun s => (tt, if guard
                then {| active_requests := active_requests s;
                        developer_active_requests := developer_active_requests s - 1; env := env s |}
                else s).

(** *** Responses *)

Definition retry_after_seconds (r : RateLimitResult) : M Z :=
  now ← on_env unix_time_ms;
  mret (Z.max ((sat_sub (reset_at_ms r) now + 999) / 1000) 1).

Definition finalize_response (response : Response) (origin : option string) (helmet : bool) :
    M Response :=
  timing ← on_env server_timing;
  let response := map_headers (insert_header "server-timing" timing) response in
  mret (if helmet then
          let response := map_headers (fun h => append_vary "Origin" (apply_helmet_headers h)) response in
          match origin with
          | Some o =>
              if is_allowed_cors_origin sec o
              then map_headers (insert_header "access-control-allow-origin" o) response
              else response
          | None => response
          end
        else response).

Definition finalize_developer_response (response : Response) (origin : option string)
    (request_id : string) (public : option PublicLimitHeaders)
    (developer : option RateLimitResult) (private_boundary : bool) : M Response :=
  let response :=
    map_headers (fun h =>
      let h := set_optional_headers "Developer-RateLimit" developer (set_public_headers public h) in
      let h := insert_header "x-request-id" request_id
                 (insert_static "x-paladinscat-api-version" "v1" h) in
      if private_boundary then insert_static "cache-control" "private, no-store" h else h) response in
  response ← finalize_response response origin true;
  mret (if private_boundary then map_headers (append_vary "Authorization") response else response).

Definition error_body (fields : list (string * value)) : value := Object [("error", Object fields)].

Definition developer_error (status : Z) (code message request_id : string) : Response :=
  json_response status
    (error_body [("code", Str code); ("message", Str message); ("requestId", Str request_id)]).

Definition developer_error_with_details (status : Z) (code message request_id : string)
    (details : value) : Response :=
  json_response status
    (error_body [("code", Str code); ("message", Str message); ("requestId", Str request_id);
                 ("details", details)]).

Definition bearer_challenge : string :=
  "Bearer realm=" +:+ String "034" "PaladinsCat API" +:+ String "034" ", error="
  +:+ String "034" "invalid_token" +:+ String "034" "".

Definition developer_auth_error (request_id : string) : Response :=
  map_headers (insert_static "www-authenticate" bearer_challenge)
    (developer_error 401 "INVALID_API_KEY" "A valid PaladinsCat developer API key is required."
       request_id).

Definition apply_public_limit (prefix : string) (r : RateLimitResult) : M (option Response) :=
  if allowed r then mret None
  else
    retry_after ← retry_after_seconds r;
    mret (Some (map_headers (fun h =>
                  insert_header "retry-after" (pretty retry_after) (set_limit_headers prefix r h))
            (json_response 429
               (Object [("error", Str "Too Many Requests"); ("retryAfter", Number (NInt retry_after));
                        ("resetAt", Number (NInt (reset_at_ms r)))])))).

Definition request_security_error (status : Z) (code message : string) (r : RateLimitResult) :
    M Response :=
  retry_after ← retry_after_seconds r;
  mret (map_headers (insert_header "retry-after" (pretty retry_after))
          (json_response status
             (error_body [("code", Str code); ("message", Str message);
                          ("details", Object [("retry_after_seconds", Number (NInt retry_after))])]))).

(** *** Session cookies and preflight *)

Definition has_session_cookie (headers : HeaderMap) : bool :=
  match header_text headers "cookie" with
  | Some v => existsb (fun part => String.prefix "__Host-pc_session=" (trim_start part)) (split_on ";" v)
  | None => false
  end.

Definition cookie_request_is_safe (request : Request) (origin : option string) : bool :=
  let headers := req_headers request in
  if negb (match header_text headers "x-forwarded-proto" with
           | Some proto => String.eqb proto "https"
           | None => false
           end) then false
  else if existsb (String.eqb (req_method request)) ["GET"; "HEAD"; "OPTIONS"] then true
  else if negb (match origin with Some o => is_allowed_cors_origin sec o | None => false end) then false
  else
    let csrf_header := header_text headers "x-csrf-token" in
    let csrf_cookie :=
      cookie ← header_text headers "cookie";
      find_map (fun part => strip_prefix "__Host-pc_csrf=" (trim part)) (split_on ";" cookie) in
    match csrf_header, csrf_cookie with
    | Some header, Some cookie =>
        (32 <=? Z.of_nat (String.length header)) && constant_time_equal header cookie
    | _, _ => false
    end.

Definition preflight_response (request : Request) : option Response :=
  let headers := req_headers request in
  if negb (String.eqb (req_method request) "OPTIONS")
     || match header_get headers "access-control-request-method" with None => true | Some _ => false end
  then None
  else
    match header_text headers "origin" with
    | None => Some (text_response 400 "Invalid Preflight Request")
    | Some origin =>
        if negb (is_allowed_cors_origin sec origin) then None
        else
          let h := append_vary "Access-Control-Request-Headers" (append_vary "Origin" []) in
          let h := insert_header "access-control-allow-origin" origin h in
          let h := insert_static "access-control-allow-methods" "GET,HEAD,PUT,PATCH,POST,DELETE" h in
          Some {| resp_status := 204; resp_body := NoBody;
                  resp_headers :=
                    match header_get headers "access-control-request-headers" with
                    | Some requested => header_insert "access-control-allow-headers" requested h
                    | None => h
                    end |}
    end.

(** *** The gates *)

Definition deployment_drain_response (d : DeploymentState) : Response :=
  map_headers (fun h => insert_static "retry-after" "5" (insert_static "cache-control" "no-store" h))
    (json_response 503
       (error_body
          [("code", Str "DEPLOYMENT_DRAIN");
           ("message", Str (default "PaladinsCat is applying an update. Please retry shortly." (message d)));
           ("details", Object [("deploymentId", Str (deployment_id d));
                               ("phase", Str (phase_name (phase d)));
                               ("retryAfterSeconds", Number (NInt 5))])])).

(** The deployment gate: whether the request holds the public guard. *)
Definition deployment_gate (bypass : bool) (origin : option string) : M (result bool Response) :=
  if bypass then mret (Ok false)
  else
    d ← on_env deployment_local_state;
    if is_blocking (phase d)
    then response ← finalize_response (deployment_drain_response d) origin true; mret (Err response)
    else begin_request ≫= fun _ => mret (Ok true).

(** The client's and the global limit of public requests. *)
Definition public_limits (guard limited : bool) (request : Request) (origin : option string) :
    M (result (option PublicLimitHeaders) Response) :=
  if negb limited then mret (Ok None)
  else
    let address :=
      resolve_client_address (req_headers request) (req_peer request) (trust_cloudflare_headers sec) in
    client ← on_env (rate_check (client_rate_limit_identity address)
                       (public_api_rate_limit_per_minute sec) ONE_MINUTE_MS true);
    refused ← apply_public_limit "RateLimit" client;
    match refused with
    | Some response =>
        drop_request guard ≫= fun _ =>
        response ← finalize_response response origin true; mret (Err response)
    | None =>
        global ← on_env (rate_check "public-api:global" (public_api_global_limit_per_minute sec)
                           ONE_MINUTE_MS true);
        refused ← apply_public_limit "Global-RateLimit" global;
        match refused with
        | Some response =>
            let response := map_headers (set_limit_headers "RateLimit" client) response in
            drop_request guard ≫= fun _ =>
            response ← finalize_response response origin true; mret (Err response)
        | None => mret (Ok (Some {| limit_client := client; limit_global := global |}))
        end
    end.

(** The key, the limit and the slot of the versioned API: the limit's headers
    and whether the request holds a slot. *)
Definition developer_gate (guard : bool) (developer : DeveloperApiDecision) (request : Request)
    (origin : option string) (request_id : string) (public : option PublicLimitHeaders) :
    M (result (option RateLimitResult * bool) Response) :=
  let refuse (response : Response) (dev : option RateLimitResult) (private : bool) :=
    drop_request guard ≫= fun _ =>
    response ← finalize_developer_response response origin request_id public dev private;
    mret (Err response) in
  if negb (attempted developer) then mret (Ok (None, false))
  else if negb (supported developer) then
    refuse (developer_error (default 404 (status_code developer))
              (default "API_ROUTE_NOT_FOUND" (code developer))
              (default "This endpoint is not part of the PaladinsCat v1 API."
                 (decision_message developer)) request_id) None false
  else if anonymous developer then mret (Ok (None, false))
  else if negb (developer_key_configured sec) then
    refuse (developer_error 503 "DEVELOPER_API_NOT_CONFIGURED"
              "The PaladinsCat developer API is not configured." request_id) None true
  else
    match developer_bearer_token (req_headers request) with
    | None => refuse (developer_auth_error request_id) None true
    | Some candidate =>
        if negb (authenticate_developer_key sec candidate)
        then refuse (developer_auth_error request_id) None true
        else
          limit ← on_env (rate_check ("developer-api:" +:+ developer_key_identity sec)
                            (developer_api_rate_limit_per_minute sec) ONE_MINUTE_MS true);
          if negb (allowed limit) then
            retry_after ← retry_after_seconds limit;
            refuse (map_headers (fun h =>
                      insert_header "retry-after" (pretty retry_after)
                        (set_limit_headers "Developer-RateLimit" limit h))
                      (developer_error_with_details 429 "DEVELOPER_RATE_LIMITED"
                         "The developer key has reached its per-minute request limit." request_id
                         (Object [("retry_after_seconds", Number (NInt retry_after));
                                  ("reset_at", Number (NInt (reset_at_ms limit)))]))) None true
          else
            acquired ← acquire_developer_slot (developer_api_concurrency_limit sec);
            if negb acquired then
              refuse (developer_error 429 "DEVELOPER_CONCURRENCY_LIMITED"
                        "Too many concurrent requests for this developer key." request_id)
                (Some limit) true
            else mret (Ok (Some limit, true))
    end.

(** The limit of one kind of sign-in attempt: refused when the backend that
    counts them is unavailable. *)
Definition attempt_limit (key : string) (limit window_ms : Z) (code message : string) :
    M (option Response * option RateLimitResult) :=
  r ← on_env (rate_check key limit window_ms false);
  if negb (backend_available r) then
    response ← request_security_error 503 "PROTECTION_UNAVAILABLE"
                 "The upstream protection boundary is temporarily unavailable. Cached data remains available."
                 r;
    mret (Some response, Some r)
  else if negb (allowed r) then
    response ← request_security_error 429 code message r; mret (Some response, Some r)
  else mret (None, Some r).

Definition auth_required (code message : string) : Response :=
  json_response 401 (error_body [("code", Str code); ("message", Str message)]).

Definition authorize_prehandler (method effective_path : string) (headers : HeaderMap)
    (peer : option string) (authenticated_developer : bool) :
    M (option Response * option RateLimitResult) :=
  let address := resolve_client_address headers peer (trust_cloudflare_headers sec) in
  if is_sensitive_operator_route method effective_path
     && negb (is_operator_request sec headers authenticated_developer)
  then mret (Some (auth_required "OPERATOR_AUTH_REQUIRED"
                     "Operator credentials are required for this endpoint."), None)
  else if is_service_only_route effective_path
          && (requires_configured_service_route effective_path || service_auth_configured sec)
          && negb (is_service_request sec headers)
  then mret (Some (auth_required "SERVICE_AUTH_REQUIRED"
                     "Service credentials are required for this endpoint."), None)
  else if String.eqb method "POST" && String.eqb effective_path "/auth/oidc/transactions" then
    attempt_limit ("oidc-start:" +:+ client_rate_limit_identity address) OIDC_START_LIMIT
      OIDC_START_WINDOW_MS "OIDC_START_RATE_LIMITED"
      "Too many sign-in starts. Please try again later."
  else if String.eqb method "POST"
          && (String.eqb effective_path "/auth/login"
              || String.eqb effective_path "/auth/account/password") then
    attempt_limit ("account-auth:" +:+ effective_path +:+ ":" +:+ client_rate_limit_identity address)
      (account_auth_attempts_per_window sec) (account_auth_window_ms sec) "AUTH_RATE_LIMITED"
      "Too many account authentication attempts. Please try again later."
  else mret (None, None).

(** The last gate, and the handler behind it; the guards are dropped when the
    response is there. *)
Definition handle (guard slot : bool) (developer : DeveloperApiDecision) (effective : Uri)
    (request : Request) (origin : option string) (request_id : string)
    (public : option PublicLimitHeaders) (dev_limit : option RateLimitResult) : M Response :=
  '(prehandler, auth_limit) ←
    authorize_prehandler (req_method request) (uri_path effective) (req_headers request)
      (req_peer request) slot;
  match prehandler with
  | Some response =>
      let response := map_headers (set_optional_headers "Auth-RateLimit" auth_limit) response in
      let response :=
        if attempted developer then response else map_headers (set_public_headers public) response in
      drop_slot slot ≫= fun _ => drop_request guard ≫= fun _ =>
      if attempted developer
      then finalize_developer_response response origin request_id public dev_limit
             (negb (anonymous developer))
      else finalize_response response origin true
  | None =>
      response ← on_env (run_next
        {| fwd_method := req_method request;
           fwd_uri := if supported developer then effective else req_uri request;
           fwd_effective_uri := effective;
           fwd_headers := req_headers request;
           fwd_peer := req_peer request;
           fwd_request_id := request_id;
           fwd_public_limits := public;
           fwd_developer_limit := dev_limit;
           fwd_authenticated_developer := slot |});
      let response :=
        map_headers (fun h =>
          set_optional_headers "Auth-RateLimit" auth_limit
            (set_optional_headers "Developer-RateLimit" dev_limit (set_public_headers public h)))
          response in
      drop_slot slot ≫= fun _ => drop_request guard ≫= fun _ =>
      if attempted developer
      then finalize_developer_response response origin request_id None None slot
      else finalize_response response origin true
  end.

Definition effective_uri (developer : DeveloperApiDecision) (request : Request) : Uri :=
  if supported developer then default (req_uri request) (parse_uri (target_url developer))
  else req_uri request.

(** The stages in their order; an error of a stage is the response. *)
Definition admitted (request : Request) (origin : option string) (request_id : string) :
    M (result Response Response) :=
  let developer := resolve_developer_api_route (req_method request) (uri_text (req_uri request)) in
  let effective := effective_uri developer request in
  let internal := is_internal_request sec (req_headers request) in
  guard <-? deployment_gate (internal || bypasses_deployment_gate (uri_path effective)) origin;
  public <-? public_limits guard
               (negb internal
                && (attempted developer || negb (bypasses_public_rate_limit (uri_path effective))))
               request origin;
  dev <-? developer_gate guard developer request origin request_id public;
  response ← handle guard (snd dev) developer effective request origin request_id public (fst dev);
  mret (Ok response).

Definition application_foundation (request : Request) : M Response :=
  request_id ← on_env next_request_id;
  let origin := header_text (req_headers request) "origin" in
  if has_session_cookie (req_headers request) && negb (cookie_request_is_safe request origin)
  then finalize_response
         (text_response 403 "Cookie authentication requires HTTPS, same-origin and CSRF protection")
         origin true
  else
    match preflight_response request with
    | Some response => finalize_response response origin false
    | None =>
        answer ← admitted request origin request_id;
        mret (match answer with Ok response | Err response => response end)
    end.
End foundation.
