(* ===== verification/FoundationSpec.v ===== *)
(** * Properties of the foundation

    What must have been true of a request whose handler is run; the guards of
    every request are given back; the slots of the versioned API are never more
    than its limit, however requests interleave. *)

From S2P Require Import Prelude Json Cache CacheSpec Deployment Security Foundation.

Section spec.
Context {W : Type} `{FoundationEnv W} `{Net} `{Digests}.
Variable sec : SecurityContext.
Notation M := (ST (FoundationState W)).
Implicit Types (s : FoundationState W) (w : W).

(** ** The guards

    [shifts f da db]: running [f] adds [da] to the count of active requests and
    [db] to that of the slots, by its result. *)

Definition shifts {A} (f : M A) (da db : A -> Z) : Prop :=
  forall s, let '(a, s') := f s in
    active_requests s' = active_requests s + da a /\
    developer_active_requests s' = developer_active_requests s + db a.

Definition counts_kept {A} (f : M A) : Prop := shifts f (fun _ => 0) (fun _ => 0).

Lemma shifts_ext {A} (f : M A) da db da' db' :
  shifts f da db -> (forall a, da a = da' a) -> (forall a, db a = db' a) -> shifts f da' db'.
Proof.
  intros Hf Ea Eb s. specialize (Hf s). destruct (f s) as [a s']. by rewrite <- Ea, <- Eb.
Qed.

Lemma shifts_ret {A} (a : A) da db : da a = 0 -> db a = 0 -> shifts (mret a) da db.
Proof. intros Ea Eb s. simpl. lia. Qed.

Lemma shifts_bind {A B} (f : M A) (g : A -> M B) (da db : A -> Z) (ea eb : B -> Z) :
  shifts f da db -> (forall a, shifts (g a) (fun b => ea b - da a) (fun b => eb b - db a)) ->
  shifts (f ≫= g) ea eb.
Proof.
  intros Hf Hg s. specialize (Hf s). unfold mbind, ST_bind. destruct (f s) as [a s1].
  specialize (Hg a s1). destruct (g a s1) as [b s2]. lia.
Qed.

Lemma shifts_after {A B} (f : M A) (g : A -> M B) (ea eb : B -> Z) :
  counts_kept f -> (forall a, shifts (g a) ea eb) -> shifts (f ≫= g) ea eb.
Proof.
  intros Hf Hg. apply (shifts_bind f g _ _ _ _ Hf). intros a.
  eapply shifts_ext; [apply Hg| |]; intros; lia.
Qed.

Lemma shifts_try {A B E} (f : M (result A E)) (k : A -> M (result B E))
    (da db : result A E -> Z) (ea eb : result B E -> Z) :
  shifts f da db ->
  (forall e, da (Err e) = ea (Err e) /\ db (Err e) = eb (Err e)) ->
  (forall a, shifts (k a) (fun b => ea b - da (Ok a)) (fun b => eb b - db (Ok a))) ->
  shifts (try_bind f k) ea eb.
Proof.
  intros Hf He Hk s. specialize (Hf s). unfold try_bind. destruct (f s) as [[a|e] s1].
  - specialize (Hk a s1). destruct (k a s1) as [b s2]. lia.
  - destruct (He e). lia.
Qed.

Lemma env_counts {A} (f : ST W A) : counts_kept (on_env f).
Proof. intros s. unfold on_env. destruct (f (env s)). simpl. lia. Qed.

Definition weight (guard : bool) : Z := if guard then 1 else 0.

Lemma drop_request_shifts guard : shifts (drop_request guard) (fun _ => - weight guard) (fun _ => 0).
Proof. intros s. unfold weight. destruct guard; simpl; lia. Qed.

Lemma drop_slot_shifts slot : shifts (drop_slot slot) (fun _ => 0) (fun _ => - weight slot).
Proof. intros s. unfold weight. destruct slot; simpl; lia. Qed.

Lemma begin_shifts : shifts begin_request (fun _ => 1) (fun _ => 0).
Proof. intros s. simpl. lia. Qed.

Lemma acquire_shifts limit : shifts (acquire_developer_slot limit) (fun _ => 0) weight.
Proof. intros s. unfold acquire_developer_slot. destruct (_ <? limit); simpl; lia. Qed.

(** A program of environment calls only. *)
Ltac kept :=
  repeat first
    [ apply env_counts
    | apply shifts_ret; reflexivity
    | apply shifts_after; [|intros ?]
    | case_match ].

Lemma finalize_counts response origin helmet : counts_kept (finalize_response sec response origin helmet).
Proof. unfold finalize_response. kept. Qed.

Lemma finalize_developer_counts response origin id public dev private :
  counts_kept (finalize_developer_response sec response origin id public dev private).
Proof.
  unfold finalize_developer_response. apply shifts_after; [apply finalize_counts|].
  intros ?. by apply shifts_ret.
Qed.

Lemma retry_after_counts r : counts_kept (retry_after_seconds r).
Proof. unfold retry_after_seconds. kept. Qed.

Lemma public_limit_counts prefix r : counts_kept (apply_public_limit prefix r).
Proof. unfold apply_public_limit, retry_after_seconds. kept. Qed.

Lemma attempt_limit_counts key limit window code message :
  counts_kept (attempt_limit key limit window code message).
Proof. unfold attempt_limit, request_security_error, retry_after_seconds. kept. Qed.

Lemma prehandler_counts method path headers peer dev :
  counts_kept (authorize_prehandler sec method path headers peer dev).
Proof.
  unfold authorize_prehandler. repeat case_match; try (by apply shifts_ret); apply attempt_limit_counts.
Qed.

(** Dropping the public guard and finishing the response. *)
Lemma refuse_shifts {A B} guard (f : M A) (g : A -> B) (ea eb : B -> Z) :
  counts_kept f -> (forall a, ea (g a) = - weight guard) -> (forall a, eb (g a) = 0) ->
  shifts (drop_request guard ≫= fun _ => f ≫= fun a => mret (g a)) ea eb.
Proof.
  intros Hf Ea Eb. eapply shifts_bind; [apply drop_request_shifts|]. intros [].
  apply shifts_after; [done|]. intros a. apply shifts_ret; [rewrite Ea|rewrite Eb]; lia.
Qed.

(** A stage that refuses drops the public guard. *)
Definition on_err {A E} (v : Z) (r : result A E) : Z := match r with Ok _ => 0 | Err _ => v end.

Lemma deployment_gate_shifts bypass origin :
  shifts (deployment_gate sec bypass origin)
    (fun r => match r with Ok g => weight g | Err _ => 0 end) (fun _ => 0).
Proof.
  unfold deployment_gate. destruct bypass; [by apply shifts_ret|].
  apply shifts_after; [apply env_counts|]. intros d. destruct (is_blocking _).
  - apply shifts_after; [apply finalize_counts|]. intros r. by apply shifts_ret.
  - eapply shifts_bind; [apply begin_shifts|]. intros []. by apply shifts_ret.
Qed.

Lemma public_limits_shifts guard limited request origin :
  shifts (public_limits sec guard limited request origin) (on_err (- weight guard)) (fun _ => 0).
Proof.
  unfold public_limits. destruct (negb limited); [by apply shifts_ret|].
  apply shifts_after; [apply env_counts|]. intros client.
  apply shifts_after; [apply public_limit_counts|].
  intros [refused|]; [apply refuse_shifts; [apply finalize_counts|done..]|].
  apply shifts_after; [apply env_counts|]. intros global.
  apply shifts_after; [apply public_limit_counts|].
  intros [refused|]; [apply refuse_shifts; [apply finalize_counts|done..]|]. by apply shifts_ret.
Qed.

Lemma developer_gate_shifts guard developer request origin id public :
  shifts (developer_gate sec guard developer request origin id public)
    (on_err (- weight guard)) (fun r => match r with Ok (_, slot) => weight slot | Err _ => 0 end).
Proof.
  unfold developer_gate.
  assert (forall response dev private,
    shifts (drop_request guard ≫= fun _ =>
            finalize_developer_response sec response origin id public dev private ≫= fun response =>
            mret (Err response)) (on_err (- weight guard))
      (fun r : result (option RateLimitResult * bool) Response =>
         match r with Ok (_, slot) => weight slot | Err _ => 0 end)) as Hrefuse.
  { intros. apply refuse_shifts; [apply finalize_developer_counts|done..]. }
  destruct (negb (attempted developer)); [by apply shifts_ret|].
  destruct (negb (supported developer)); [apply Hrefuse|].
  destruct (anonymous developer); [by apply shifts_ret|].
  destruct (negb (developer_key_configured sec)); [apply Hrefuse|].
  destruct (developer_bearer_token _) as [candidate|]; [|apply Hrefuse].
  destruct (negb (authenticate_developer_key sec candidate)); [apply Hrefuse|].
  apply shifts_after; [apply env_counts|]. intros limit. destruct (negb (allowed limit)).
  - apply shifts_after; [apply retry_after_counts|]. intros ?. apply Hrefuse.
  - eapply shifts_bind; [apply acquire_shifts|]. intros [].
    + apply shifts_ret; simpl; lia.
    + eapply shifts_ext; [apply Hrefuse| |]; intros; unfold weight; lia.
Qed.

Lemma handle_shifts guard slot developer effective request origin id public dev :
  shifts (handle sec guard slot developer effective request origin id public dev)
    (fun _ => - weight guard) (fun _ => - weight slot).
Proof.
  unfold handle. apply shifts_after; [apply prehandler_counts|]. intros [prehandler auth_limit].
  assert (forall f : M Response, counts_kept f ->
    shifts (drop_slot slot ≫= fun _ => drop_request guard ≫= fun _ => f)
      (fun _ => - weight guard) (fun _ => - weight slot)) as Hdrop.
  { intros f Hf. eapply shifts_bind; [apply drop_slot_shifts|]. intros [].
    eapply shifts_bind; [apply drop_request_shifts|]. intros [].
    eapply shifts_ext; [exact Hf| |]; intros; cbn beta; lia. }
  destruct prehandler as [response|].
  - apply Hdrop. destruct (attempted developer); [apply finalize_developer_counts|apply finalize_counts].
  - apply shifts_after; [apply env_counts|]. intros response. apply Hdrop.
    destruct (attempted developer); [apply finalize_developer_counts|apply finalize_counts].
Qed.

Lemma admitted_counts request origin id : counts_kept (admitted sec request origin id).
Proof.
  unfold admitted. eapply shifts_try; [apply deployment_gate_shifts|done|]. intros guard.
  eapply shifts_try; [apply public_limits_shifts|intros; simpl; lia|]. intros public.
  eapply shifts_try; [apply developer_gate_shifts|intros; simpl; lia|]. intros [dev slot].
  eapply shifts_bind; [apply handle_shifts|]. intros r. apply shifts_ret; simpl; lia.
Qed.

(** Every request gives back what it took: on each path through the
    middleware, from a rejected cookie to the handler's response, the count of
    active requests and the count of developer slots end where they began. *)
Theorem request_guards_released request s :
  active_requests (exec (application_foundation sec request) s) = active_requests s /\
  developer_active_requests (exec (application_foundation sec request) s) = developer_active_requests s.
Proof.
  assert (counts_kept (application_foundation sec request)) as Hk.
  { unfold application_foundation. apply shifts_after; [apply env_counts|]. intros id.
    destruct (_ && _); [apply finalize_counts|].
    destruct (preflight_response sec request); [apply finalize_counts|].
    apply shifts_after; [apply admitted_counts|]. intros [r|r]; by apply shifts_ret. }
  specialize (Hk s). unfold exec. destruct (application_foundation sec request s). simpl. lia.
Qed.
(** ** The handler's log *)

(** [log] records the requests handed to the router: nothing else writes it. *)
Class LogLaw (log : W -> list Forwarded) : Prop := {
  log_rate key limit window fail_open w : log (exec (rate_check key limit window fail_open) w) = log w;
  log_deployment w : log (exec deployment_local_state w) = log w;
  log_now w : log (exec unix_time_ms w) = log w;
  log_id w : log (exec next_request_id w) = log w;
  log_timing w : log (exec server_timing w) = log w;
  log_next f w : log (exec (run_next f) w) = log w ++ [f];
}.

Context {log : W -> list Forwarded} `{!LogLaw log}.

(** [knows f Q]: running [f] forwards nothing and its result satisfies [Q]. *)
Definition knows {A} (f : M A) (Q : A -> Prop) : Prop :=
  forall s, let '(a, s') := f s in log (env s') = log (env s) /\ Q a.

(** [forwards f P]: running [f] forwards nothing, or one request with [P]. *)
Definition forwards {A} (f : M A) (P : Forwarded -> Prop) : Prop :=
  forall s, log (env (exec f s)) = log (env s) \/
    exists fwd, log (env (exec f s)) = log (env s) ++ [fwd] /\ P fwd.

Lemma knows_env {A} (f : ST W A) :
  (forall w, log (exec f w) = log w) -> knows (on_env f) (fun a => exists w, a = run f w).
Proof.
  intros Hf s. unfold on_env. specialize (Hf (env s)). unfold exec in Hf.
  destruct (f (env s)) as [a w] eqn:E. simpl in *. split; [done|]. exists (env s). unfold run. by rewrite E.
Qed.

Lemma knows_ret {A} (a : A) (Q : A -> Prop) : Q a -> knows (mret a) Q.
Proof. intros HQ s. by split. Qed.

Lemma knows_weaken {A} (f : M A) (P Q : A -> Prop) : knows f P -> (forall a, P a -> Q a) -> knows f Q.
Proof. intros Hf HPQ s. specialize (Hf s). destruct (f s) as [a s']. destruct Hf. auto. Qed.

Lemma knows_bind {A B} (f : M A) (g : A -> M B) P Q :
  knows f P -> (forall a, P a -> knows (g a) Q) -> knows (f ≫= g) Q.
Proof.
  intros Hf Hg s. specialize (Hf s). unfold mbind, ST_bind. destruct (f s) as [a s1].
  destruct Hf as [Hl Ha]. specialize (Hg a Ha s1). destruct (g a s1) as [b s2].
  destruct Hg. split; [congruence|done].
Qed.

Lemma forwards_bind {A B} (f : M A) (g : A -> M B) P Q :
  knows f P -> (forall a, P a -> forwards (g a) Q) -> forwards (f ≫= g) Q.
Proof.
  intros Hf Hg s. specialize (Hf s). unfold exec, mbind, ST_bind. destruct (f s) as [a s1].
  destruct Hf as [Hl Ha]. specialize (Hg a Ha s1). unfold exec in Hg. by rewrite Hl in Hg.
Qed.

Lemma forwards_try {A B E} (f : M (result A E)) (k : A -> M (result B E)) P Q :
  knows f P -> (forall a, P (Ok a) -> forwards (k a) Q) -> forwards (try_bind f k) Q.
Proof.
  intros Hf Hk s. specialize (Hf s). unfold exec, try_bind. destruct (f s) as [[a|e] s1].
  - destruct Hf as [Hl Ha]. specialize (Hk a Ha s1). unfold exec in Hk. by rewrite Hl in Hk.
  - left. apply Hf.
Qed.

Lemma forwards_then {A B} (f : M A) (g : A -> M B) P :
  forwards f P -> (forall a, knows (g a) (fun _ => True)) -> forwards (f ≫= g) P.
Proof.
  intros Hf Hg s. specialize (Hf s). unfold exec, mbind, ST_bind in *. destruct (f s) as [a s1].
  specialize (Hg a s1). destruct (g a s1) as [b s2]. simpl in *. destruct Hg as [-> _]. exact Hf.
Qed.

Lemma forwards_quiet {A} (f : M A) Q P : knows f Q -> forwards f P.
Proof. intros Hf s. specialize (Hf s). unfold exec. destruct (f s). left. apply Hf. Qed.

Lemma knows_check key limit window fail_open :
  knows (on_env (rate_check key limit window fail_open))
    (fun r => exists w, r = run (rate_check key limit window fail_open) w).
Proof. apply knows_env. intros. apply log_rate. Qed.

Lemma knows_now : knows (on_env unix_time_ms) (fun _ => True).
Proof. eapply knows_weaken; [apply knows_env; intros; apply log_now|done]. Qed.

Lemma knows_timing : knows (on_env server_timing) (fun _ => True).
Proof. eapply knows_weaken; [apply knows_env; intros; apply log_timing|done]. Qed.

Lemma knows_drop_request guard : knows (drop_request guard) (fun _ => True).
Proof. intros s. by destruct guard. Qed.

Lemma knows_drop_slot slot : knows (drop_slot slot) (fun _ => True).
Proof. intros s. by destruct slot. Qed.

Lemma knows_finalize response origin helmet :
  knows (finalize_response sec response origin helmet) (fun _ => True).
Proof. eapply knows_bind; [apply knows_timing|]. intros t _. by apply knows_ret. Qed.

Lemma knows_finalize_developer response origin id public dev private :
  knows (finalize_developer_response sec response origin id public dev private) (fun _ => True).
Proof. eapply knows_bind; [apply knows_finalize|]. intros r _. by apply knows_ret. Qed.

Lemma knows_retry r : knows (retry_after_seconds r) (fun _ => True).
Proof. eapply knows_bind; [apply knows_now|]. intros t _. by apply knows_ret. Qed.

Lemma knows_public_limit prefix r :
  knows (apply_public_limit prefix r) (fun o => o = None -> allowed r = true).
Proof.
  unfold apply_public_limit. destruct (allowed r); [by apply knows_ret|].
  eapply knows_bind; [apply knows_retry|]. intros t _. by apply knows_ret.
Qed.

(** Refusing ends the stage with an error. *)
Lemma knows_refuse {A B} guard (f : M B) (Q : result A B -> Prop) :
  knows f (fun _ => True) -> (forall b, Q (Err b)) ->
  knows (drop_request guard ≫= fun _ => f ≫= fun b => mret (Err b)) Q.
Proof.
  intros Hf HQ. eapply knows_bind; [apply knows_drop_request|]. intros [] _.
  eapply knows_bind; [exact Hf|]. intros b _. by apply knows_ret.
Qed.

(** *** What a request that reaches its handler has passed *)

(** Some check of the limit allowed the request. *)
Definition check_passed (key : string) (limit window : Z) (fail_open : bool) : Prop :=
  exists w, allowed (run (rate_check key limit window fail_open) w) = true.

(** A sign-in attempt is let through by a backend that is up. *)
Definition attempt_passed (key : string) (limit window : Z) : Prop :=
  exists w, let r := run (rate_check key limit window false) w in
    allowed r = true /\ backend_available r = true.

Definition client_key (request : Request) : string :=
  client_rate_limit_identity
    (resolve_client_address (req_headers request) (req_peer request) (trust_cloudflare_headers sec)).

Definition gate_open (bypass : bool) : Prop :=
  bypass = true \/ exists w, is_blocking (phase (run deployment_local_state w)) = false.

Definition public_passed (limited : bool) (request : Request) : Prop :=
  limited = true ->
  check_passed (client_key request) (public_api_rate_limit_per_minute sec) ONE_MINUTE_MS true /\
  check_passed "public-api:global" (public_api_global_limit_per_minute sec) ONE_MINUTE_MS true.

(** The key of a supported route that is not anonymous. *)
Definition key_passed (developer : DeveloperApiDecision) (request : Request) (authenticated : bool) : Prop :=
  (attempted developer = true -> supported developer = true) /\
  authenticated = attempted developer && negb (anonymous developer) /\
  (authenticated = true ->
   (exists candidate, developer_bearer_token (req_headers request) = Some candidate /\
      authenticate_developer_key sec candidate = true) /\
   check_passed ("developer-api:" +:+ developer_key_identity sec)
     (developer_api_rate_limit_per_minute sec) ONE_MINUTE_MS true).

Definition credentials_passed (method path : string) (request : Request) (authenticated : bool) : Prop :=
  (is_sensitive_operator_route method path = true ->
   is_operator_request sec (req_headers request) authenticated = true) /\
  (is_service_only_route path = true ->
   requires_configured_service_route path || service_auth_configured sec = true ->
   is_service_request sec (req_headers request) = true) /\
  (method = "POST" -> path = "/auth/oidc/transactions" ->
   attempt_passed ("oidc-start:" +:+ client_key request) OIDC_START_LIMIT OIDC_START_WINDOW_MS) /\
  (method = "POST" -> path = "/auth/login" \/ path = "/auth/account/password" ->
   attempt_passed ("account-auth:" +:+ path +:+ ":" +:+ client_key request)
     (account_auth_attempts_per_window sec) (account_auth_window_ms sec)).

Lemma deployment_gate_knows bypass origin :
  knows (deployment_gate sec bypass origin) (fun r => is_ok r = true -> gate_open bypass).
Proof.
  unfold deployment_gate. destruct bypass; [apply knows_ret; by left|].
  eapply knows_bind; [apply knows_env; intros; apply log_deployment|]. intros d [w ->].
  destruct (is_blocking _) eqn:E.
  - eapply knows_bind; [apply knows_finalize|]. intros r _. by apply knows_ret.
  - intros s. simpl. split; [done|]. intros _. right. by exists w.
Qed.

Lemma public_limits_knows guard limited request origin :
  knows (public_limits sec guard limited request origin)
    (fun r => is_ok r = true -> public_passed limited request).
Proof.
  unfold public_limits, public_passed, check_passed. destruct limited; simpl; [|by apply knows_ret].
  eapply knows_bind; [apply knows_check|]. intros client [w1 Hc].
  eapply knows_bind; [apply knows_public_limit|].
  intros [refused|] Hp1; [apply knows_refuse; [apply knows_finalize|done]|].
  eapply knows_bind; [apply knows_check|]. intros global [w2 Hg].
  eapply knows_bind; [apply knows_public_limit|].
  intros [refused|] Hp2; [apply knows_refuse; [apply knows_finalize|done]|].
  apply knows_ret. intros _ _. specialize (Hp1 eq_refl). specialize (Hp2 eq_refl). subst. eauto.
Qed.

Lemma developer_gate_knows guard developer request origin id public :
  knows (developer_gate sec guard developer request origin id public)
    (fun r => match r with Ok (_, slot) => key_passed developer request slot | Err _ => True end).
Proof.
  unfold developer_gate.
  assert (forall response dev private,
    knows (drop_request guard ≫= fun _ =>
           finalize_developer_response sec response origin id public dev private ≫= fun response =>
           mret (Err response))
      (fun r : result (option RateLimitResult * bool) Response =>
         match r with Ok (_, slot) => key_passed developer request slot | Err _ => True end)) as Hrefuse.
  { intros. by apply knows_refuse; [apply knows_finalize_developer|]. }
  destruct (attempted developer) eqn:Ea; simpl.
  2:{ apply knows_ret. unfold key_passed. rewrite Ea. by split_and!. }
  destruct (supported developer) eqn:Es; simpl; [|apply Hrefuse].
  destruct (anonymous developer) eqn:Ean.
  { apply knows_ret. unfold key_passed. rewrite Ea, Ean. by split_and!. }
  destruct (negb (developer_key_configured sec)); [apply Hrefuse|].
  destruct (developer_bearer_token _) as [candidate|] eqn:Et; [|apply Hrefuse].
  destruct (authenticate_developer_key sec candidate) eqn:Ek; simpl; [|apply Hrefuse].
  eapply knows_bind; [apply knows_check|]. intros limit [w Hw].
  destruct (allowed limit) eqn:El; simpl.
  - intros s. unfold mbind, ST_bind, acquire_developer_slot. destruct (_ <? _).
    + simpl. split; [done|]. unfold key_passed, check_passed. rewrite Ea, Ean, Es.
      split_and!; [done|done|]. intros _. split; [by eauto|]. exists w. by rewrite <- Hw.
    + apply (Hrefuse _ (Some limit) true s).
  - eapply knows_bind; [apply knows_retry|]. intros t _. apply Hrefuse.
Qed.

Lemma attempt_limit_knows key limit window code message :
  knows (attempt_limit key limit window code message)
    (fun r => fst r = None -> attempt_passed key limit window).
Proof.
  unfold attempt_limit. eapply knows_bind; [apply knows_check|]. intros r [w Hw].
  destruct (backend_available r) eqn:Eb; simpl.
  - destruct (allowed r) eqn:Er; simpl.
    + apply knows_ret. intros _. exists w. simpl. by rewrite <- Hw.
    + eapply knows_bind; [|intros x Hx; apply knows_ret; exact Hx].
      eapply knows_bind; [apply knows_retry|]. intros t _. by apply knows_ret.
  - eapply knows_bind; [|intros x Hx; apply knows_ret; exact Hx].
    eapply knows_bind; [apply knows_retry|]. intros t _. by apply knows_ret.
Qed.

Lemma prehandler_knows method path request slot :
  knows (authorize_prehandler sec method path (req_headers request) (req_peer request) slot)
    (fun r => fst r = None -> credentials_passed method path request slot).
Proof.
  unfold authorize_prehandler, credentials_passed.
  destruct (is_sensitive_operator_route method path && _) eqn:Es; [by apply knows_ret|].
  destruct (is_service_only_route path && _ && _) eqn:Ev; [by apply knows_ret|].
  assert ((is_sensitive_operator_route method path = true ->
           is_operator_request sec (req_headers request) slot = true) /\
          (is_service_only_route path = true ->
           requires_configured_service_route path || service_auth_configured sec = true ->
           is_service_request sec (req_headers request) = true)) as [H1' H2'].
  { split.
    - intros Hs. rewrite Hs in Es. by apply negb_false_iff in Es.
    - intros Hs Hc. rewrite Hs, Hc in Ev. by apply negb_false_iff in Ev. }
  destruct (String.eqb_spec method "POST") as [->|Hm]; simpl.
  - destruct (String.eqb_spec path "/auth/oidc/transactions") as [->|Hp].
    { eapply knows_weaken; [apply attempt_limit_knows|]. intros r Hr Hn.
      split_and!; [done|done|intros _ _; by apply Hr|]. by intros _ [?|?]. }
    destruct (String.eqb path "/auth/login" || String.eqb path "/auth/account/password") eqn:Ep.
    { eapply knows_weaken; [apply attempt_limit_knows|]. intros r Hr Hn.
      split_and!; [done|done|done|]. intros _ _. by apply Hr. }
    apply knows_ret. intros _. split_and!; try done. intros _ Hp'. exfalso.
    destruct Hp' as [-> | ->]; discriminate Ep.
  - apply knows_ret. intros _. by split_and!.
Qed.

(** Everything a request that is handed to the router has passed. *)
Definition admitted_request (request : Request) (fwd : Forwarded) : Prop :=
  let headers := req_headers request in
  let developer := resolve_developer_api_route (req_method request) (uri_text (req_uri request)) in
  let effective := effective_uri developer request in
  let path := uri_path effective in
  let internal := is_internal_request sec headers in
  (has_session_cookie headers = true ->
   cookie_request_is_safe sec request (header_text headers "origin") = true) /\
  gate_open (internal || bypasses_deployment_gate path) /\
  public_passed (negb internal && (attempted developer || negb (bypasses_public_rate_limit path))) request /\
  key_passed developer request (fwd_authenticated_developer fwd) /\
  credentials_passed (req_method request) path request (fwd_authenticated_developer fwd) /\
  fwd_method fwd = req_method request /\ fwd_headers fwd = headers /\ fwd_effective_uri fwd = effective.

Lemma handle_forwards guard slot developer effective request origin id public dev (P : Forwarded -> Prop) :
  (forall fwd, credentials_passed (req_method request) (uri_path effective) request slot ->
     fwd_authenticated_developer fwd = slot -> fwd_method fwd = req_method request ->
     fwd_headers fwd = req_headers request -> fwd_effective_uri fwd = effective -> P fwd) ->
  forwards (handle sec guard slot developer effective request origin id public dev) P.
Proof.
  intros HP. unfold handle. eapply forwards_bind; [apply prehandler_knows|].
  assert (forall f : M Response, knows f (fun _ => True) ->
            knows (drop_slot slot ≫= fun _ => drop_request guard ≫= fun _ => f) (fun _ => True)) as Hdrop.
  { intros f Hf. eapply knows_bind; [apply knows_drop_slot|]. intros [] _.
    eapply knows_bind; [apply knows_drop_request|]. intros [] _. exact Hf. }
  assert (forall response public dev private,
            knows (if attempted developer
                   then finalize_developer_response sec response origin id public dev private
                   else finalize_response sec response origin true) (fun _ => True)) as Hfinal.
  { intros. destruct (attempted developer); [apply knows_finalize_developer|apply knows_finalize]. }
  intros [[response|] auth_limit] Hcred.
  - eapply forwards_quiet. apply Hdrop, Hfinal.
  - apply forwards_then; [|intros response; apply Hdrop, Hfinal].
    intros s. right. unfold exec, on_env.
    match goal with |- context [run_next ?f (env s)] => exists f; pose proof (log_next f (env s)) as Hl end.
    unfold exec in Hl. destruct (run_next _ (env s)) as [r w]. simpl in *.
    split; [done|]. apply HP; try done. by apply Hcred.
Qed.

(** C16. A request reaches its handler, once, only when every gate let it pass:
    a session cookie came over HTTPS and, for a request that changes
    something, with its CSRF token from an allowed origin; the deployment does
    not block; both public limits allowed it, versioned anonymous routes
    included; a versioned route is supported and, unless anonymous, its key was
    authenticated and within its limit; an operator's or a service's route has
    those credentials; a sign-in attempt was counted by a backend that is up. *)
Theorem handler_admitted request s :
  let s' := exec (application_foundation sec request) s in
  log (env s') = log (env s) \/
  exists fwd, log (env s') = log (env s) ++ [fwd] /\ admitted_request request fwd.
Proof.
  assert (forwards (application_foundation sec request) (admitted_request request)) as Hf; [|apply Hf].
  unfold application_foundation.
  eapply forwards_bind; [apply knows_env; intros; apply log_id|]. intros id _.
  destruct (has_session_cookie (req_headers request) && _) eqn:Ec.
  { eapply forwards_quiet, knows_finalize. }
  destruct (preflight_response sec request); [eapply forwards_quiet, knows_finalize|].
  apply forwards_then; [|intros a; by apply knows_ret]. unfold admitted.
  eapply forwards_try; [apply deployment_gate_knows|]. intros guard Hgate.
  eapply forwards_try; [apply public_limits_knows|]. intros public Hpublic.
  eapply forwards_try; [apply developer_gate_knows|]. intros [dev slot] Hkey.
  apply forwards_then; [|intros r; by apply knows_ret].
  apply handle_forwards. intros fwd Hcred Hslot Hm Hh He. unfold admitted_request. rewrite Hslot.
  split_and!; try done; [|by apply Hgate|by apply Hpublic].
  intros Hs. rewrite Hs in Ec. by apply negb_false_iff in Ec.
Qed.

End spec.

(** * Requests that interleave, and a concrete environment

    The counters under any interleaving of the atomic steps of the requests of
    a process; then an environment in memory, whose rate limits answer from a
    table, with the theorems of FoundationSpec on a few requests. *)

(** ** Interleavings *)

Section interleaving.
Context {W : Type}.
Variable limit : Z.
Implicit Types (s : FoundationState W).

(** The guards a running request holds: the public one and the slot. *)
Record Running := { holds_guard : bool; holds_slot : bool }.

(** The atomic steps: a request starts, with the public guard or not; one that
    has no slot asks for it; one ends and drops what it holds. *)
Inductive Step :=
  | Start (guard : bool)
  | AskSlot (i : nat)
  | Stop (i : nat).

Definition slot_step (e : Step) (p : FoundationState W * list Running) :
    FoundationState W * list Running :=
  let '(s, running) := p in
  match e with
  | Start guard =>
      (if guard then exec begin_request s else s, {| holds_guard := guard; holds_slot := false |} :: running)
  | AskSlot i =>
      match running !! i with
      | Some r =>
          if holds_slot r then p
          else let '(acquired, s') := acquire_developer_slot limit s in
               (s', <[i := {| holds_guard := holds_guard r; holds_slot := acquired |}]> running)
      | None => p
      end
  | Stop i =>
      match running !! i with
      | Some r => (exec (drop_request (holds_guard r)) (exec (drop_slot (holds_slot r)) s), delete i running)
      | None => p
      end
  end.

Fixpoint sum_of (f : Running -> Z) (l : list Running) : Z :=
  match l with [] => 0 | r :: l => f r + sum_of f l end.

Lemma sum_of_insert f l i x y : l !! i = Some x -> sum_of f (<[i := y]> l) = sum_of f l - f x + f y.
Proof.
  revert i. induction l as [|z l IH]; intros [|i] Hi; simpl in *; simplify_eq; [lia|].
  rewrite (IH i Hi). lia.
Qed.

Lemma sum_of_delete f l i x : l !! i = Some x -> sum_of f (delete i l) = sum_of f l - f x.
Proof.
  revert i. induction l as [|z l IH]; intros [|i] Hi; simpl in *; simplify_eq; [lia|].
  rewrite (IH i Hi). lia.
Qed.

Definition guards (l : list Running) : Z := sum_of (fun r => weight (holds_guard r)) l.
Definition slots (l : list Running) : Z := sum_of (fun r => weight (holds_slot r)) l.

(** The counters are what the running requests hold. *)
Definition counted (p : FoundationState W * list Running) : Prop :=
  active_requests (fst p) = guards (snd p) /\ developer_active_requests (fst p) = slots (snd p).

Lemma slot_step_counted e p :
  0 <= limit -> counted p /\ slots (snd p) <= limit ->
  counted (slot_step e p) /\ slots (snd (slot_step e p)) <= limit.
Proof.
  intros Hl [[Ha Hd] Hle]. destruct p as [s running]. unfold counted, guards, slots in *. simpl in *.
  destruct e as [guard|i|i]; simpl.
  - destruct guard; simpl; lia.
  - destruct (running !! i) as [r|] eqn:Hi; [|done]. destruct (holds_slot r) eqn:Hs; [done|].
    unfold acquire_developer_slot. destruct (Z.ltb_spec (developer_active_requests s) limit) as [Hlt|Hge]; simpl;
      rewrite !(sum_of_insert _ _ _ _ _ Hi); simpl; rewrite Hs; simpl; lia.
  - destruct (running !! i) as [r|] eqn:Hi; [|done]. unfold exec, drop_request, drop_slot. simpl.
    rewrite !(sum_of_delete _ _ _ _ Hi). destruct (holds_guard r), (holds_slot r); simpl; lia.
Qed.

(** However the requests of a process interleave, the slots of the
    versioned API in use are never more than its limit, and both counters are
    exactly what the running requests hold: they are zero when none runs. *)
Theorem developer_slots_bounded steps (w : W) :
  0 <= limit ->
  let '(s, running) :=
    foldl (fun p e => slot_step e p)
      ({| active_requests := 0; developer_active_requests := 0; env := w |}, []) steps in
  developer_active_requests s = slots running /\ active_requests s = guards running /\
  developer_active_requests s <= limit.
Proof.
  intros Hl.
  assert (forall p, counted p /\ slots (snd p) <= limit ->
            let q := foldl (fun p e => slot_step e p) p steps in counted q /\ slots (snd q) <= limit) as Hinv.
  { induction steps as [|e steps IH]; intros p Hp; [done|]. apply IH. by apply slot_step_counted. }
  specialize (Hinv ({| active_requests := 0; developer_active_requests := 0; env := w |}, [])).
  destruct (foldl _ _ steps) as [s running]. destruct Hinv as [[Ha Hd] Hle]; [by split_and!|].
  simpl in *. lia.
Qed.
End interleaving.

Lemma developer_slots_bounded_witness :
  let '(s, running) :=
    foldl (fun p e => slot_step 1 e p)
      ({| active_requests := 0; developer_active_requests := 0; env := tt |}, [])
      [Start true; Start true; AskSlot 0; AskSlot 1; Stop 0; AskSlot 0] in
  developer_active_requests s <= 1.
Proof.
  pose proof (developer_slots_bounded 1 [Start true; Start true; AskSlot 0; AskSlot 1; Stop 0; AskSlot 0] tt
                ltac:(lia)) as Hb.
  destruct (foldl _ _ _) as [s running]. exact (proj2 (proj2 Hb)).
Defined.

(** ** An environment in memory *)

(** The keys that are over their limit, whether the counting backend is up,
    the deployment's phase, and the requests handed to the router. *)
Record Edge := {
  limited_keys : list string;
  backend_up : bool;
  edge_phase : DeploymentPhase;
  forwarded : list Forwarded;
}.

Definition table_check (key : string) (limit window : Z) (fail_open : bool) (e : Edge) : RateLimitResult :=
  if backend_up e then
    {| remaining := 1; total := limit; reset_at_ms := 1000 + window;
       allowed := negb (existsb (String.eqb key) (limited_keys e)); backend_available := true |}
  else rate_unavailable limit window fail_open 1000.

#[export] Instance edge_env : FoundationEnv Edge := {|
  rate_check key limit window fail_open e := (table_check key limit window fail_open e, e);
  deployment_local_state e :=
    ({| deployment_id := "d1"; phase := edge_phase e; message := None; started_at := None;
        updated_at := "now"; expires_at := None |}, e);
  unix_time_ms e := (1000, e);
  next_request_id e := ("req-1", e);
  server_timing e := ("app;dur=0.1", e);
  run_next f e :=
    (text_response 200 "ok",
     {| limited_keys := limited_keys e; backend_up := backend_up e; edge_phase := edge_phase e;
        forwarded := forwarded e ++ [f] |});
  parse_uri s := Some {| uri_text := s; uri_path := hd "" (split_on "?" s) |};
|}.

#[export] Instance edge_log : LogLaw forwarded.
Proof. by split. Qed.

(** URLs of paths, addresses as they are. *)
#[export] Instance edge_net : Net := {|
  url_join s := Some {| url_path := hd "" (split_on "?" s); url_query := None; url_pairs := [] |};
  url_host s := None;
  parse_ip s := Some s;
  parse_socket s := None;
|}.

(** A digest that tells the texts of the examples apart. *)
#[export] Instance edge_digest : Digests := fun s => map byte_of (String.list_ascii_of_string s).

Definition developer_key : string := "pc_live_0123456789012345678901234567890123456789012".

Definition edge_security : SecurityContext := {|
  environment := "production";
  cors_origins := ["https://paladinscat.example"];
  trust_cloudflare_headers := false;
  public_api_rate_limit_per_minute := 60;
  public_api_global_limit_per_minute := 600;
  account_auth_attempts_per_window := 5;
  account_auth_window_ms := 60000;
  developer_api_rate_limit_per_minute := 30;
  developer_api_concurrency_limit := 1;
  context_service_token := Some "service";
  previous_service_token := None;
  admin_secret := Some "admin";
  developer_key_hash := Some (edge_digest developer_key);
  developer_key_identity := "id";
  internal_request_token := "internal";
|}.

Definition edge_state (down : DeploymentPhase) (limited : list string) : FoundationState Edge :=
  {| active_requests := 3; developer_active_requests := 0;
     env := {| limited_keys := limited; backend_up := true; edge_phase := down; forwarded := [] |} |}.

Definition request_of (method path : string) (headers : HeaderMap) : Request :=
  {| req_method := method; req_uri := {| uri_text := path; uri_path := path |};
     req_headers := headers; req_peer := Some "10.0.0.7" |}.

Definition answer (request : Request) (s : FoundationState Edge) : Z * nat :=
  let '(r, s') := application_foundation edge_security request s in
  (resp_status r, length (forwarded (env s'))).

(** What a few requests are answered, and how many reach a handler. *)
Example foundation_answers :
  answer (request_of "GET" "/v1/players/7" [("authorization", "Bearer " +:+ developer_key)])
    (edge_state Idle []) = (200, 1%nat) /\
  answer (request_of "GET" "/v1/players/7" []) (edge_state Idle []) = (401, 0%nat) /\
  answer (request_of "GET" "/v1/stats/champions" []) (edge_state Idle []) = (200, 1%nat) /\
  answer (request_of "GET" "/v1/stats/champions" []) (edge_state Idle ["public-api:global"]) = (429, 0%nat) /\
  answer (request_of "GET" "/v1/recovery/run" [("authorization", "Bearer " +:+ developer_key)])
    (edge_state Idle []) = (404, 0%nat) /\
  answer (request_of "GET" "/recovery/run" [("authorization", "Bearer " +:+ developer_key)])
    (edge_state Idle []) = (401, 0%nat) /\
  answer (request_of "GET" "/matches/recent" []) (edge_state Draining []) = (503, 0%nat) /\
  answer (request_of "GET" "/health" []) (edge_state Draining []) = (200, 1%nat) /\
  answer (request_of "POST" "/profile" [("cookie", "__Host-pc_session=1"); ("x-forwarded-proto", "https")])
    (edge_state Idle []) = (403, 0%nat).
Proof. vm_compute. repeat split. Qed.

Definition signed_request : Request :=
  request_of "GET" "/v1/players/7" [("authorization", "Bearer " +:+ developer_key)].

Lemma handler_admitted_witness :
  exists fwd,
    forwarded (env (exec (application_foundation edge_security signed_request) (edge_state Idle []))) = [fwd] /\
    admitted_request edge_security signed_request fwd.
Proof.
  destruct (handler_admitted edge_security (log := forwarded) signed_request (edge_state Idle []))
    as [Hno|(fwd & Hlog & Hfwd)].
  - exfalso. revert Hno. vm_compute. discriminate.
  - exists fwd. split; [|exact Hfwd]. exact Hlog.
Defined.

Lemma v1_route_unprivileged_witness :
  attempted (resolve_developer_api_route "get" "/v1/version") = true.
Proof. exact (proj1 (v1_route_unprivileged "get" "/v1/version" eq_refl)). Defined.

(** Timestamps as the decimal text of their nanoseconds. *)
#[export] Instance edge_timestamps : Timestamps := {|
  format_json_timestamp t := pretty t;
  parse_rfc3339 s := parse_digits 0 s;
|}.

#[export] Instance edge_timestamp_law : TimestampLaw.
Proof.
  intros t Ht. exists t. split; [|lia]. simpl.
  rewrite <- (Z2N.id t) by lia. rewrite pretty_Z_nonneg. apply parse_digits_pretty.
Qed.

Definition drain_input : DeploymentStateInput :=
  {| input_id := " deploy-7 "; input_phase := Draining; input_message := None;
     input_ttl_seconds := Some 86400 |}.

Definition idle_control : DeploymentControl (R := Memory) :=
  {| control_redis := client (memory []); local := idle_state 0 |}.

Lemma deployment_gate_opens_witness :
  is_blocking (phase (run (local_state_at 1000) (exec (set_state drain_input 1000) idle_control))) = true /\
  is_blocking (phase (run (local_state_at (1000 + 7200 * nanos_per_second))
                        (exec (set_state drain_input 1000) idle_control))) = false.
Proof.
  split; [vm_compute; reflexivity|].
  refine (deployment_gate_opens drain_input 1000 idle_control (1000 + 7200 * nanos_per_second) _ eq_refl _).
  - unfold last_instant, nanos_per_second. lia.
  - lia.
Defined.
