(* ===== verification/RouteCache.v ===== *)
(** * The route cache (src/backend-rust/src/route_cache.rs)

    Responses of expensive routes, kept in the shared cache with an instant
    until which they are fresh.  A stale entry is served while one task of the
    process refreshes it; a missing one is loaded by the process that holds its
    lease while the others wait a little for it. *)

From S2P Require Import Prelude Json Cache.

Definition COLD_MISS_WAIT_MS : Z := 1500.
Definition LEASE_TTL_MS : Z := 30000.
Definition COMPRESSION_THRESHOLD_BYTES : Z := 64 * 1024.
Definition MAJOR_DIRECTORY_FRESH_SECONDS : Z := 900.
Definition MAJOR_DIRECTORY_STALE_SECONDS : Z := 21600.
Definition IGNORED_QUERY_PARAMS : list string :=
  ["utm_source"; "utm_medium"; "utm_campaign"; "utm_term"; "utm_content"; "fbclid"; "gclid"].

Record CachedRouteResponse := { payload : value; fresh_until : Z }.

Record StoredRouteResponse := {
  stored_payload : option value;
  stored_compressed : option string;
  stored_encoding : option string;
  stored_fresh_until : Z;
}.

(** The gzip and base64 codecs. *)
Class Codecs := {
  gzip : string -> option string;
  gunzip : string -> option string;
  base64_encode : string -> string;
  base64_decode : string -> option string;
}.

Definition saturating_add_i64 (x y : Z) : Z := clamp_i64 (x + y).

(** *** The stored form *)

Section stored.
Context `{JsonText} `{Codecs}.

Definition encode (payload : value) (fresh_until : Z) : option StoredRouteResponse :=
  let text := json_to_string payload in
  if Z.of_nat (String.length text) <? COMPRESSION_THRESHOLD_BYTES then
    Some {| stored_payload := Some payload; stored_compressed := None; stored_encoding := None;
            stored_fresh_until := fresh_until |}
  else
    compressed ← gzip text;
    Some {| stored_payload := None; stored_compressed := Some (base64_encode compressed);
            stored_encoding := Some "gzip-base64"; stored_fresh_until := fresh_until |}.

Definition decode (stored : StoredRouteResponse) : option CachedRouteResponse :=
  payload ←
    (if match stored_encoding stored with Some e => String.eqb e "gzip-base64" | None => false end
     then
       text ← stored_compressed stored;
       compressed ← base64_decode text;
       text ← gunzip compressed;
       json_from_str text
     else stored_payload stored);
  Some {| payload := payload; fresh_until := stored_fresh_until stored |}.
End stored.

(** The derived [Serialize]: an absent option is skipped. *)
Definition stored_to_value (s : StoredRouteResponse) : option value :=
  Some (Object
    (match stored_payload s with Some v => [("payload", v)] | None => [] end
     ++ match stored_compressed s with Some t => [("compressedPayload", Str t)] | None => [] end
     ++ match stored_encoding s with Some t => [("encoding", Str t)] | None => [] end
     ++ [("freshUntil", Number (NInt (stored_fresh_until s)))])).

(** An optional field of the derived [Deserialize]: absent and null are none. *)
Definition opt_value (v : option value) : option (option value) :=
  match v with None | Some Null => Some None | Some v => Some (Some v) end.
Definition opt_str (v : option value) : option (option string) :=
  match v with None | Some Null => Some None | Some (Str s) => Some (Some s) | _ => None end.

Definition stored_of_fields (p c e f : option value) : option StoredRouteResponse :=
  p ← opt_value p; c ← opt_str c; e ← opt_str e; f ← f; f ← as_i64 f;
  Some {| stored_payload := p; stored_compressed := c; stored_encoding := e;
          stored_fresh_until := f |}.

(** The derived [Deserialize] also reads the fields of a struct in order. *)
Definition stored_from_value (v : value) : option StoredRouteResponse :=
  match v with
  | Object m =>
      stored_of_fields (lookup_field "payload" m) (lookup_field "compressedPayload" m)
        (lookup_field "encoding" m) (lookup_field "freshUntil" m)
  | Array [p; c; e; f] => stored_of_fields (Some p) (Some c) (Some e) (Some f)
  | _ => None
  end.

#[export] Instance stored_serde : Serde StoredRouteResponse :=
  {| to_value := stored_to_value; from_value := stored_from_value |}.

(** ** The cache of one process *)

Inductive ColdMissLease :=
  | Owner (key token : string)
  | Unavailable
  | Follower.

Definition is_owner (l : ColdMissLease) : bool := match l with Owner _ _ => true | _ => false end.
Definition is_follower (l : ColdMissLease) : bool := match l with Follower => true | _ => false end.

(** The wall clock, the monotonic clock in milliseconds, fresh UUIDs, sleep. *)
Class RouteEnv (A : Type) := {
  now_millis : ST A Z;
  instant_millis : ST A Z;
  new_uuid : ST A string;
  sleep_millis : Z -> ST A unit;
}.

Record RouteCache (R A : Type) := {
  redis : RedisCache R;
  refresh_in_flight : gset string;
  app : A;
}.
Arguments redis {R A} _.
Arguments refresh_in_flight {R A} _.
Arguments app {R A} _.
Arguments Build_RouteCache {R A} _ _ _.

Section route_cache.
Context {R A : Type} `{Redis R} `{JsonText} `{Codecs} `{RouteEnv A}.
Notation M := (ST (RouteCache R A)).

Definition on_redis {B} (f : ST (RedisCache R) B) : M B :=
  fun w => let '(b, c) := f (redis w) in
           (b, {| redis := c; refresh_in_flight := refresh_in_flight w; app := app w |}).

Definition on_app {B} (f : ST A B) : M B :=
  fun w => let '(b, a) := f (app w) in
           (b, {| redis := redis w; refresh_in_flight := refresh_in_flight w; app := a |}).

Definition route_get (key : string) : M (option CachedRouteResponse) :=
  stored ← on_redis (get (T := StoredRouteResponse) key);
  match stored with
  | None => mret None
  | Some stored =>
      match decode stored with
      | Some cached => mret (Some cached)
      | None => on_redis (del key) ≫= fun _ => mret None
      end
  end.

(** [now_millis().saturating_add((fresh_ttl * 1_000) as i64)]. *)
Definition fresh_deadline (now fresh_ttl : Z) : Z :=
  saturating_add_i64 now (wrap_i64 (fresh_ttl * 1000)).

Definition store (key : string) (payload : value) (fresh_ttl stale_ttl : Z) : M unit :=
  now ← on_app now_millis;
  match encode payload (fresh_deadline now fresh_ttl) with
  | None => mret tt
  | Some entry => on_redis (set key entry (Some (sat_add_u64 fresh_ttl stale_ttl)))
  end.

Definition acquire_cold_miss (key : string) : M ColdMissLease :=
  let lease_key := key +:+ ":lease" in
  token ← on_app new_uuid;
  answer ← on_redis (acquire_lease lease_key token LEASE_TTL_MS);
  mret (match answer with
        | Some true => Owner lease_key token
        | Some false => Follower
        | None => Unavailable
        end).

Definition release (lease : ColdMissLease) : M unit :=
  match lease with
  | Owner key token => on_redis (release_lease key token)
  | _ => mret tt
  end.

(** The loop of [wait_for_cold_miss]; [turns] bounds its turns, which the
    clock does anyway ([wait_turns_enough] in RouteCacheSpec). *)
Fixpoint wait_loop (turns : nat) (key : string) (deadline delay : Z) :
    M (option CachedRouteResponse) :=
  match turns with
  | O => mret None
  | S turns =>
      now ← on_app instant_millis;
      if now <? deadline then
        on_app (sleep_millis delay) ≫= fun _ =>
        cached ← route_get key;
        match cached with
        | Some cached => mret (Some cached)
        | None => wait_loop turns key deadline (Z.min (delay * 2) 150)
        end
      else mret None
  end.

Definition WAIT_TURNS : nat := 13.

Definition wait_for_cold_miss (key : string) : M (option CachedRouteResponse) :=
  now ← on_app instant_millis;
  wait_loop WAIT_TURNS key (now + COLD_MISS_WAIT_MS) 25.

(** [HashSet::insert] says whether the key was new. *)
Definition begin_refresh (key : string) : M bool :=
  fun w => (negb (bool_decide (key ∈ refresh_in_flight w)),
            {| redis := redis w; refresh_in_flight := {[key]} ∪ refresh_in_flight w; app := app w |}).

Definition finish_refresh (key : string) : M unit :=
  fun w => (tt, {| redis := redis w; refresh_in_flight := refresh_in_flight w ∖ {[key]};
                   app := app w |}).

(** *** The cached loaders *)

Section loader.
Context {E : Type} (loader : ST A (result value E)).

(** The task spawned for a stale entry. *)
Definition refresh_task (key : string) (fresh_ttl stale_ttl : Z) : M unit :=
  lease ← acquire_cold_miss key;
  (if is_owner lease then
     loaded ← on_app loader;
     match loaded with
     | Ok payload => store key payload fresh_ttl stale_ttl
     | Err _ => mret tt
     end
   else mret tt) ≫= fun _ =>
  release lease ≫= fun _ => finish_refresh key.

(** [stale && cache.begin_refresh(&key).await]: whether to spawn the task. *)
Definition should_refresh (stale : bool) (key : string) : M bool :=
  if stale then begin_refresh key else mret false.

(** Beside the result, whether [refresh_task] was spawned. *)
Definition cached_database_value (key : string) (fresh_ttl stale_ttl : Z) :
    M (result value E * bool) :=
  hit ← route_get key;
  match hit with
  | Some cached =>
      now ← on_app now_millis;
      spawned ← should_refresh (fresh_until cached <=? now) key;
      mret (Ok (payload cached), spawned)
  | None =>
      lease ← acquire_cold_miss key;
      waited ← (if is_follower lease then wait_for_cold_miss key else mret None);
      match waited with
      | Some cached => mret (Ok (payload cached), false)
      | None =>
          loaded ← on_app loader;
          match loaded with
          | Err error => release lease ≫= fun _ => mret (Err error, false)
          | Ok payload =>
              store key payload fresh_ttl stale_ttl ≫= fun _ =>
              release lease ≫= fun _ => mret (Ok payload, false)
          end
      end
  end.

(** *** The HTTP response *)

Record JsonResponse := { body : value; headers : list (string * string) }.

Definition cache_control (fresh_seconds stale_seconds : Z) : string :=
  "public, max-age=" +:+ pretty fresh_seconds +:+ ", s-maxage=" +:+ pretty fresh_seconds
  +:+ ", stale-while-revalidate=" +:+ pretty stale_seconds.

Definition json_cache_response (payload : value) (status : string) (fresh_until : Z) :
    M JsonResponse :=
  if String.eqb status "HIT" || String.eqb status "STALE" then
    now ← on_app now_millis;
    let fresh_seconds := Z.max (sub_i64 fresh_until now / 1000) 0 in
    let stale_seconds := Z.max (clamp_i64 (fresh_seconds * 3)) 60 in
    now ← on_app now_millis;
    let age := Z.max (clamp_i64 (now - fresh_until) / 1000) 0 in
    mret {| body := payload;
            headers := [("x-cache", status);
                        ("cache-control", cache_control fresh_seconds stale_seconds);
                        ("x-cache-age", pretty age)] |}
  else mret {| body := payload; headers := [("x-cache", status)] |}.

Definition cached_database_json (key : string) (fresh_ttl stale_ttl : Z) :
    M (result JsonResponse E * bool) :=
  hit ← route_get key;
  match hit with
  | Some cached =>
      now ← on_app now_millis;
      let stale := fresh_until cached <=? now in
      spawned ← should_refresh stale key;
      response ← json_cache_response (payload cached) (if stale then "STALE" else "HIT")
                   (fresh_until cached);
      mret (Ok response, spawned)
  | None =>
      lease ← acquire_cold_miss key;
      waited ← (if is_follower lease then wait_for_cold_miss key else mret None);
      match waited with
      | Some cached =>
          response ← json_cache_response (payload cached) "COALESCED" (fresh_until cached);
          mret (Ok response, false)
      | None =>
          loaded ← on_app loader;
          match loaded with
          | Err error => release lease ≫= fun _ => mret (Err error, false)
          | Ok payload =>
              store key payload fresh_ttl stale_ttl ≫= fun _ =>
              release lease ≫= fun _ =>
              now ← on_app now_millis;
              response ← json_cache_response payload "MISS" (fresh_deadline now fresh_ttl);
              mret (Ok response, false)
          end
      end
  end.
End loader.
End route_cache.

(** *** The key of a route *)

(** The form-urlencoded codec of the url crate. *)
Class QueryCodec := {
  parse_query : string -> list (string * string);
  serialize_query : list (string * string) -> string;
}.

Definition le_entry (l r : string * string) : bool :=
  if String.eqb (fst l) (fst r) then le_bytes (snd l) (snd r) else le_bytes (fst l) (fst r).

Definition kept_param (entry : string * string) : bool :=
  negb (existsb (String.eqb (to_ascii_lowercase (fst entry))) IGNORED_QUERY_PARAMS).

Definition canonical_entries (entries : list (string * string)) : list (string * string) :=
  sort_by le_entry (List.filter kept_param entries).

(** [query] is the raw query of the URI. *)
Definition canonical_route_cache_url `{QueryCodec} (path : string) (query : option string) : string :=
  let entries := match query with Some q => canonical_entries (parse_query q) | None => [] end in
  let query := serialize_query entries in
  if is_empty query then path else path +:+ "?" +:+ query.
