(* ===== verification/RouteCacheSpec.v ===== *)
(** * Properties of the route cache

    The stored form of a response is read back; what a cached loader answers
    on each path and that it gives its lease back; one refresh of a key at a
    time in a process; the wait for another process is short; the key of a
    route does not depend on the order of its parameters. *)

From S2P Require Import Prelude Json Cache CacheSpec RouteCache.

(** ** The stored form *)

Section roundtrip.
Context `{JsonText} `{Codecs}.

(** A response that is encoded, written as JSON, parsed and decoded comes
    back with its payload and its freshness, compressed or not.  The exception
    is a null payload: its field is read back as absent, so that the entry
    does not decode. *)
Theorem route_entry_roundtrip payload fresh_until stored :
  in_i64 fresh_until ->
  json_from_str (json_to_string payload) = Some payload ->
  (forall z, gzip (json_to_string payload) = Some z ->
     gunzip z = Some (json_to_string payload) /\ base64_decode (base64_encode z) = Some z) ->
  encode payload fresh_until = Some stored ->
  (v ← to_value stored; s ← from_value v; decode s)
  = if is_null payload && (Z.of_nat (String.length (json_to_string payload)) <? COMPRESSION_THRESHOLD_BYTES)
    then None
    else Some {| payload := payload; fresh_until := fresh_until |}.
Proof.
  intros Hf Htext Hgzip. unfold encode.
  assert (in_range i64_min i64_max fresh_until = Some fresh_until) as Hr.
  { unfold in_range, in_i64 in *. destruct (Z.leb_spec i64_min fresh_until); [|lia].
    by destruct (Z.leb_spec fresh_until i64_max); [|lia]. }
  destruct (_ <? _) eqn:E.
  - intros [= <-]. rewrite andb_true_r. simpl. unfold stored_of_fields.
    destruct payload; simpl; rewrite Hr; done.
  - intros (z & Hz & [= <-])%bind_Some. destruct (Hgzip z Hz) as [Hu Hb].
    rewrite andb_false_r. simpl. unfold stored_of_fields. simpl. rewrite Hr. simpl.
    unfold decode. simpl. by rewrite Hb; simpl; rewrite Hu; simpl; rewrite Htext.
Qed.
End roundtrip.

(** ** The cached loader *)

Section loader.
Context {R A E : Type} `{Redis R} {store_of : R -> Store} `{!ServerLaw R store_of} `{JsonText}
  `{Codecs} `{RouteEnv A}.
Context (loader : ST A (result value E)).
Notation W := (RouteCache R A).
Implicit Types (w : W) (key : string).

(** A step that leaves the refreshes and the application alone. *)
Definition app_kept {B} (f : ST W B) : Prop :=
  forall w, refresh_in_flight (exec f w) = refresh_in_flight w /\ app (exec f w) = app w.

Lemma app_kept_redis {B} (f : ST (RedisCache R) B) : app_kept (on_redis f).
Proof. intros w. unfold exec, on_redis. by destruct (f (redis w)). Qed.

Lemma app_kept_bind {B C} (f : ST W B) (g : B -> ST W C) :
  app_kept f -> (forall b, app_kept (g b)) -> app_kept (f ≫= g).
Proof.
  intros Hf Hg w. specialize (Hf w). unfold exec, mbind, ST_bind in *.
  destruct (f w) as [b w1]. specialize (Hg b w1). unfold exec in Hg. simpl in *.
  destruct Hf, Hg. split; congruence.
Qed.

Lemma app_kept_ret {B} (b : B) : app_kept (mret b).
Proof. done. Qed.

Lemma route_get_kept key : app_kept (route_get key).
Proof.
  apply app_kept_bind; [apply app_kept_redis|]. intros [s|]; [|apply app_kept_ret].
  destruct (decode s); [apply app_kept_ret|].
  apply app_kept_bind; [apply app_kept_redis|]. intros _. apply app_kept_ret.
Qed.

Lemma release_kept lease : app_kept (release lease).
Proof. destruct lease; [apply app_kept_redis| |]; apply app_kept_ret. Qed.

(** A step that leaves the refreshes alone. *)
Definition flights_kept {B} (f : ST W B) : Prop :=
  forall w, refresh_in_flight (exec f w) = refresh_in_flight w.

Lemma flights_kept_app {B} (f : ST A B) : flights_kept (on_app f).
Proof. intros w. unfold exec, on_app. by destruct (f (app w)). Qed.

Lemma flights_kept_bind {B C} (f : ST W B) (g : B -> ST W C) :
  flights_kept f -> (forall b, flights_kept (g b)) -> flights_kept (f ≫= g).
Proof.
  intros Hf Hg w. specialize (Hf w). unfold exec, mbind, ST_bind in *.
  destruct (f w) as [b w1]. specialize (Hg b w1). unfold exec in Hg. simpl in *. congruence.
Qed.

Lemma flights_kept_ret {B} (b : B) : flights_kept (mret b).
Proof. done. Qed.

Lemma app_kept_flights {B} (f : ST W B) : app_kept f -> flights_kept f.
Proof. intros Hf w. apply Hf. Qed.

Ltac flights :=
  repeat first
    [ apply flights_kept_app
    | apply app_kept_flights, app_kept_redis
    | apply app_kept_flights, route_get_kept
    | apply app_kept_flights, release_kept
    | apply flights_kept_ret
    | apply flights_kept_bind; [|intros ?]
    | case_match ].

Lemma acquire_flights key : flights_kept (acquire_cold_miss key).
Proof. unfold acquire_cold_miss. flights. Qed.

Lemma store_flights key v fresh stale : flights_kept (store key v fresh stale).
Proof. unfold store. flights. Qed.

Lemma wait_flights n key deadline delay : flights_kept (wait_loop n key deadline delay).
Proof. revert delay. induction n; intros delay; simpl; flights. apply IHn. Qed.

(** *** One refresh at a time *)

(** The tasks of a process: requests, and the refresh tasks they spawned,
    which run to their end in any order. *)
Inductive RouteEvent :=
  | Request (key : string)
  | RunTask (key : string).

Record Process := { proc : W; tasks : list string }.

Definition route_event (fresh_ttl stale_ttl : Z) (e : RouteEvent) (p : Process) : Process :=
  match e with
  | Request key =>
      let '((_, spawned), w) := cached_database_value loader key fresh_ttl stale_ttl (proc p) in
      {| proc := w; tasks := if spawned then key :: tasks p else tasks p |}
  | RunTask key =>
      if bool_decide (key ∈ tasks p)
      then {| proc := exec (refresh_task loader key fresh_ttl stale_ttl) (proc p);
              tasks := filter (fun k => k <> key) (tasks p) |}
      else p
  end.

Definition single_flight (p : Process) : Prop :=
  NoDup (tasks p) /\ forall key, key ∈ tasks p <-> key ∈ refresh_in_flight (proc p).

(** The two halves of [cached_database_value]. *)
Definition hit_path (key : string) (cached : CachedRouteResponse) :
    ST W (result value E * bool) :=
  now ← on_app now_millis;
  spawned ← should_refresh (fresh_until cached <=? now) key;
  mret (Ok (payload cached), spawned).

Definition waited_for (lease : ColdMissLease) (key : string) : ST W (option CachedRouteResponse) :=
  if is_follower lease then wait_for_cold_miss key else mret None.

Definition load_path (lease : ColdMissLease) (key : string) (fresh_ttl stale_ttl : Z) :
    ST W (result value E * bool) :=
  loaded ← on_app loader;
  match loaded with
  | Err error => release lease ≫= fun _ => mret (Err error, false)
  | Ok payload =>
      store key payload fresh_ttl stale_ttl ≫= fun _ =>
      release lease ≫= fun _ => mret (Ok payload, false)
  end.

Definition miss_path (key : string) (fresh_ttl stale_ttl : Z) : ST W (result value E * bool) :=
  lease ← acquire_cold_miss key;
  waited ← waited_for lease key;
  match waited with
  | Some cached => mret (Ok (payload cached), false)
  | None => load_path lease key fresh_ttl stale_ttl
  end.

Lemma cached_value_unfold key fresh stale :
  cached_database_value loader key fresh stale
  = (hit ← route_get key;
     match hit with
     | Some cached => hit_path key cached
     | None => miss_path key fresh stale
     end).
Proof. done. Qed.

Lemma waited_flights lease key : flights_kept (waited_for lease key).
Proof.
  unfold waited_for, wait_for_cold_miss. destruct (is_follower lease); [|apply flights_kept_ret].
  apply flights_kept_bind; [apply flights_kept_app|]. intros ?. apply wait_flights.
Qed.

Lemma load_flights lease key fresh stale : flights_kept (load_path lease key fresh stale).
Proof.
  unfold load_path. apply flights_kept_bind; [apply flights_kept_app|]. intros [p|e]; [|flights].
  apply flights_kept_bind; [apply store_flights|]. intros _. flights.
Qed.

Lemma miss_flights key fresh stale : flights_kept (miss_path key fresh stale).
Proof.
  unfold miss_path. apply flights_kept_bind; [apply acquire_flights|]. intros lease.
  apply flights_kept_bind; [apply waited_flights|]. intros [c|]; [flights|apply load_flights].
Qed.

Lemma load_not_spawned lease key fresh stale w : snd (run (load_path lease key fresh stale) w) = false.
Proof.
  unfold load_path, run, mbind, ST_bind. destruct (on_app loader w) as [[p|e] w1].
  - destruct (store key p fresh stale w1) as [[] w2]. by destruct (release lease w2).
  - by destruct (release lease w1).
Qed.

Lemma miss_not_spawned key fresh stale w : snd (run (miss_path key fresh stale) w) = false.
Proof.
  unfold miss_path, run, mbind, ST_bind. destruct (acquire_cold_miss key w) as [lease w1].
  destruct (waited_for lease key w1) as [[c|] w2]; [done|]. apply load_not_spawned.
Qed.

Lemma cached_value_flights key fresh stale w :
  let '((_, spawned), w') := cached_database_value loader key fresh stale w in
  if (spawned : bool)
  then key ∉ refresh_in_flight w /\ refresh_in_flight w' = {[key]} ∪ refresh_in_flight w
  else refresh_in_flight w' = refresh_in_flight w \/
       (key ∈ refresh_in_flight w /\ refresh_in_flight w' = {[key]} ∪ refresh_in_flight w).
Proof.
  rewrite cached_value_unfold. unfold mbind at 1, ST_bind at 1.
  pose proof (proj1 (route_get_kept key w)) as Hget. unfold exec in Hget.
  destruct (route_get key w) as [[cached|] w1]; simpl in Hget.
  - unfold hit_path, mbind, ST_bind. pose proof (flights_kept_app now_millis w1) as Hnow.
    unfold exec in Hnow. destruct (on_app now_millis w1) as [now w2]. simpl in Hnow.
    unfold should_refresh. destruct (_ <=? now); unfold mret, ST_ret; simpl.
    + rewrite Hnow, Hget. destruct (bool_decide_reflect (key ∈ refresh_in_flight w)); simpl; [|done].
      by right.
    + left. congruence.
  - pose proof (miss_flights key fresh stale w1) as Hm. pose proof (miss_not_spawned key fresh stale w1) as Hs.
    unfold exec, run in *. destruct (miss_path key fresh stale w1) as [[res spawned] w'].
    simpl in *. subst spawned. left. congruence.
Qed.

Lemma refresh_task_flights key fresh stale w :
  refresh_in_flight (exec (refresh_task loader key fresh stale) w) = refresh_in_flight w ∖ {[key]}.
Proof.
  unfold refresh_task, exec, mbind, ST_bind.
  pose proof (acquire_flights key w) as Ha. unfold exec in Ha.
  destruct (acquire_cold_miss key w) as [lease w1]. simpl in Ha.
  match goal with |- context [let '(_, w') := ?f w1 in _] =>
    assert (refresh_in_flight (snd (f w1)) = refresh_in_flight w1) as Hf;
    [|destruct (f w1) as [u w2]] end.
  - destruct (is_owner lease); [|done].
    assert (forall l : result value E, flights_kept (match l with
                 | Ok payload => store key payload fresh stale
                 | Err _ => mret tt end)) as Hl.
    { intros [p|e]; [apply store_flights|flights]. }
    apply (flights_kept_bind (on_app loader) _ (flights_kept_app loader) Hl w1).
  - simpl in *. pose proof (proj1 (release_kept lease w2)) as Hr. unfold exec in Hr.
    destruct (release lease w2) as [[] w3]. simpl in *. congruence.
Qed.

(** In a process, however requests and the refresh tasks they spawn are
    ordered, the keys with a refresh under way are exactly those marked in
    flight and no key has two: a stale response is refreshed by one task at a
    time, and a task that has ended, whether or not its loader failed or its
    lease was refused, lets the next one be spawned. *)
Theorem refresh_single_flight fresh_ttl stale_ttl events p :
  single_flight p -> single_flight (foldl (fun p e => route_event fresh_ttl stale_ttl e p) p events).
Proof.
  revert p. induction events as [|e events IH]; intros p Hp; [done|]. simpl. apply IH. clear IH events.
  destruct Hp as [Hnd Hin]. destruct e as [key|key]; simpl.
  - pose proof (cached_value_flights key fresh_ttl stale_ttl (proc p)) as Hf.
    destruct (cached_database_value loader key fresh_ttl stale_ttl (proc p)) as [[res spawned] w'].
    destruct spawned; simpl.
    + destruct Hf as [Hno Hf]. split; simpl.
      * apply NoDup_cons. split; [|done]. by rewrite Hin.
      * intros k. rewrite Hf, elem_of_cons, Hin. set_solver.
    + split; [done|]. intros k. simpl. rewrite Hin. destruct Hf as [Hf|[? Hf]]; rewrite Hf; set_solver.
  - destruct (bool_decide_reflect (key ∈ tasks p)) as [Hk|Hk]; [|by split].
    split; simpl.
    + by apply NoDup_filter.
    + intros k. rewrite refresh_task_flights. rewrite elem_of_difference, elem_of_singleton, <- Hin.
      rewrite list_elem_of_filter. tauto.
Qed.
(** *** What a request is answered *)

(** The lease is not held by its owner any more, unless the connection that
    was to release it is gone. *)
Definition given_back (lease : ColdMissLease) (w : W) : Prop :=
  match lease with
  | Owner key token =>
      manager (redis w) = true ->
      forall e, read_key key (store_of (server (redis w))) = Some e -> entry_value e <> token
  | _ => True
  end.

Lemma release_gives_back lease w : given_back lease (exec (release lease) w).
Proof.
  destruct lease as [key token| |]; [|done|done]. simpl. unfold exec, on_redis.
  pose proof (release_lease_frees (store := store_of) key token (redis w)) as Hf.
  unfold exec in Hf. destruct (release_lease key token (redis w)) as [[] c]. simpl in *.
  intros Hm e. by apply Hf.
Qed.

Lemma store_app key v fresh stale w :
  app (exec (store key v fresh stale) w) = exec now_millis (app w).
Proof.
  unfold store, exec, mbind, ST_bind, on_app. destruct (now_millis (app w)) as [now a]. simpl.
  destruct (encode v _) as [entry|]; [|done]. unfold on_redis. simpl.
  by destruct (set key entry _ (redis w)).
Qed.

Lemma load_path_result lease key fresh stale w :
  let '((res, _), w') := load_path lease key fresh stale w in
  res = run loader (app w) /\ given_back lease w' /\
  app w' = (if is_ok res then exec now_millis else id) (exec loader (app w)).
Proof.
  unfold load_path, mbind at 1, ST_bind at 1, on_app, run, exec.
  destruct (loader (app w)) as [[p|e] a]; simpl; unfold mbind, ST_bind.
  - match goal with |- context [store key p fresh stale ?w1] =>
      pose proof (store_app key p fresh stale w1) as Hst; unfold exec in Hst;
      destruct (store key p fresh stale w1) as [[] w2] end.
    pose proof (release_gives_back lease w2) as Hg. pose proof (proj2 (release_kept lease w2)) as Ha.
    unfold exec in *. destruct (release lease w2) as [[] w3]. simpl in *. rewrite Ha, Hst. done.
  - match goal with |- context [release lease ?w1] =>
      pose proof (release_gives_back lease w1) as Hg; pose proof (proj2 (release_kept lease w1)) as Ha;
      unfold exec in *; destruct (release lease w1) as [[] w2] end.
    simpl in *. by rewrite Ha.
Qed.

(** A request for a cached value is answered the stored payload when there
    is one, and the loader is not run: a refresh is spawned exactly when the
    entry is stale and none is in flight.  Otherwise the process that does not
    get the lease waits, and answers what it found; in every other case the
    loader is run once, its result, error included, is the answer, and the
    lease taken for it has been given back. *)
Theorem cached_value_contract key fresh_ttl stale_ttl w :
  let '((res, spawned), w') := cached_database_value loader key fresh_ttl stale_ttl w in
  let w1 := exec (route_get key) w in
  match run (route_get key) w with
  | Some cached =>
      res = Ok (payload cached) /\ app w' = exec now_millis (app w) /\
      spawned = (fresh_until cached <=? run now_millis (app w))
                && negb (bool_decide (key ∈ refresh_in_flight w))
  | None =>
      spawned = false /\ refresh_in_flight w' = refresh_in_flight w /\
      let lease := run (acquire_cold_miss key) w1 in
      let w2 := exec (acquire_cold_miss key) w1 in
      match run (waited_for lease key) w2 with
      | Some cached => is_follower lease = true /\ res = Ok (payload cached)
      | None =>
          let a := app (exec (waited_for lease key) w2) in
          res = run loader a /\ given_back lease w' /\
          app w' = (if is_ok res then exec now_millis else id) (exec loader a)
      end
  end.
Proof.
  rewrite cached_value_unfold. unfold mbind at 1, ST_bind at 1.
  destruct (route_get_kept key w) as [Hfl Hap]. unfold exec, run in *.
  destruct (route_get key w) as [[cached|] w1]; simpl in *.
  - unfold hit_path, mbind, ST_bind, on_app. rewrite Hap. destruct (now_millis (app w)) as [now a].
    unfold should_refresh. simpl. destruct (_ <=? now); unfold mret, ST_ret; simpl; [|done].
    by rewrite Hfl.
  - pose proof (miss_flights key fresh_ttl stale_ttl w1) as Hmf.
    pose proof (miss_not_spawned key fresh_ttl stale_ttl w1) as Hms.
    unfold exec, run in *. unfold miss_path, mbind, ST_bind in *.
    destruct (acquire_cold_miss key w1) as [lease w2]. simpl.
    destruct (waited_for lease key w2) as [[cached|] w3] eqn:Ew; simpl in *.
    + split_and!; [done|congruence| |done]. unfold waited_for in Ew. by destruct (is_follower lease).
    + pose proof (load_path_result lease key fresh_ttl stale_ttl w3) as Hl.
      destruct (load_path lease key fresh_ttl stale_ttl w3) as [[res spawned] w']. simpl in *.
      destruct Hl as (-> & Hg & Ha). split_and!; try done. congruence.
Qed.
End loader.

(** ** The wait *)

Section wait.
Context {R A : Type} `{Redis R} `{JsonText} `{Codecs} `{RouteEnv A}.

(** The monotonic clock: reading it does not move it, a sleep moves it by no
    less than its length. *)
Class TickLaw (clock : A -> Z) : Prop := {
  instant_reads a : run instant_millis a = clock a /\ clock (exec instant_millis a) = clock a;
  sleep_passes d a : clock a + d <= clock (exec (sleep_millis d) a);
}.
Context {clock : A -> Z} `{!TickLaw clock}.
Implicit Types (w : RouteCache R A).

(** The time the first [n] turns from a delay of [d] take at least. *)
Fixpoint turns_time (n : nat) (d : Z) : Z :=
  match n with O => 0 | S n => d + turns_time n (Z.min (d * 2) 150) end.

Lemma wait_loop_step n key deadline delay w :
  wait_loop (S n) key deadline delay w
  = let '(now, w1) := on_app instant_millis w in
    if now <? deadline then
      let '(_, w2) := on_app (sleep_millis delay) w1 in
      let '(cached, w3) := route_get key w2 in
      match cached with
      | Some cached => (Some cached, w3)
      | None => wait_loop n key deadline (Z.min (delay * 2) 150) w3
      end
    else (None, w1).
Proof.
  cbn [wait_loop]. unfold mbind at 1, ST_bind at 1. destruct (on_app instant_millis w) as [now w1].
  destruct (now <? deadline); [|done].
  unfold mbind at 1, ST_bind at 1. destruct (on_app (sleep_millis delay) w1) as [u w2].
  unfold mbind at 1, ST_bind at 1. by destruct (route_get key w2) as [[c|] w3].
Qed.

(** With the turns that the deadline allows, more turns change nothing. *)
Lemma wait_loop_enough n m key deadline delay w :
  deadline <= clock (app w) + turns_time n delay -> (n <= m)%nat ->
  wait_loop (S m) key deadline delay w = wait_loop (S n) key deadline delay w.
Proof.
  revert m delay w. induction n as [|n IH]; intros m delay w Hd Hnm; rewrite !wait_loop_step;
    destruct (instant_reads (app w)) as [Hr Hk]; unfold on_app, run, exec in *;
    destruct (instant_millis (app w)) as [now a]; simpl in Hr, Hk, Hd; subst now.
  - by destruct (Z.ltb_spec (clock (app w)) deadline); [lia|].
  - destruct m as [|m]; [lia|]. destruct (_ <? deadline); [|done]. simpl.
    pose proof (sleep_passes delay a) as Hs. unfold exec in Hs.
    destruct (sleep_millis delay a) as [[] a2]. simpl in Hs.
    match goal with |- context [route_get key ?w2] =>
      pose proof (proj2 (route_get_kept key w2)) as Hg; unfold exec in Hg;
      destruct (route_get key w2) as [[cached|] w3] end; [done|].
    apply IH; [|lia]. simpl in *. rewrite Hg. lia.
Qed.

(** Waiting for another process is over after at most twelve looks at the
    cache: with any larger number of turns the wait returns the same. *)
Theorem wait_turns_enough key turns w :
  (WAIT_TURNS <= turns)%nat ->
  (now ← on_app instant_millis; wait_loop turns key (now + COLD_MISS_WAIT_MS) 25) w
  = wait_for_cold_miss key w.
Proof.
  intros Hle. unfold wait_for_cold_miss, mbind, ST_bind, on_app.
  destruct (instant_reads (app w)) as [Hr Hk]. unfold run, exec in *.
  destruct (instant_millis (app w)) as [now a]. simpl in Hr, Hk. subst now.
  destruct turns as [|m]; [unfold WAIT_TURNS in Hle; lia|]. unfold WAIT_TURNS in *.
  apply wait_loop_enough; [|lia]. simpl. unfold COLD_MISS_WAIT_MS. lia.
Qed.
End wait.

(** ** The key of a route *)

Lemma le_entry_total a b : le_entry a b = true \/ le_entry b a = true.
Proof.
  unfold le_entry. destruct (String.eqb_spec (fst a) (fst b)) as [E|E].
  - rewrite E, String.eqb_refl. apply le_bytes_total.
  - destruct (String.eqb_spec (fst b) (fst a)); [congruence|]. apply le_bytes_total.
Qed.

#[export] Instance le_entry_antisym : AntiSymm (=) (fun a b => le_entry a b = true).
Proof.
  intros [a1 a2] [b1 b2]. unfold le_entry. simpl. destruct (String.eqb_spec a1 b1) as [->|E].
  - rewrite String.eqb_refl. intros. f_equal. by apply le_bytes_antisym.
  - destruct (String.eqb_spec b1 a1); [congruence|]. intros. destruct E. by apply le_bytes_antisym.
Qed.

#[export] Instance le_entry_trans : Transitive (fun a b => le_entry a b = true).
Proof.
  intros [a1 a2] [b1 b2] [c1 c2]. unfold le_entry. simpl.
  destruct (String.eqb_spec a1 b1) as [->|E], (String.eqb_spec b1 c1) as [->|E'].
  - rewrite ?String.eqb_refl. apply le_bytes_trans.
  - by destruct (String.eqb_spec b1 c1).
  - by destruct (String.eqb_spec a1 c1).
  - intros H1 H2. destruct (String.eqb_spec a1 c1) as [->|]; [|by eapply le_bytes_trans].
    destruct E. by apply le_bytes_antisym.
Qed.

(** Two queries with the same parameters, in any order and with any
    tracking parameters added, are one key of the cache, with the kept
    parameters in it. *)
Theorem canonical_url_order `{QueryCodec} path q1 q2 :
  List.filter kept_param (parse_query q1) ≡ₚ List.filter kept_param (parse_query q2) ->
  canonical_route_cache_url path (Some q1) = canonical_route_cache_url path (Some q2).
Proof.
  intros Hp. unfold canonical_route_cache_url, canonical_entries.
  rewrite (sort_by_unique le_entry) with (l2 := List.filter kept_param (parse_query q2)); try done.
  - intros x y Hxy. destruct (le_entry_total x y); congruence.
  - apply le_entry_trans.
  - apply le_entry_antisym.
Qed.

(** * A concrete environment of the route cache

    A process with a clock and numbered tokens, a loader that counts its runs,
    and the theorems of RouteCacheSpec on it. *)

Record App := { app_clock : Z; app_tokens : Z; app_loads : Z }.

#[export] Instance app_env : RouteEnv App := {|
  now_millis a := (app_clock a, a);
  instant_millis a := (app_clock a, a);
  new_uuid a := ("token-" +:+ pretty (app_tokens a),
                 {| app_clock := app_clock a; app_tokens := app_tokens a + 1; app_loads := app_loads a |});
  sleep_millis d a := (tt, {| app_clock := app_clock a + d + 1; app_tokens := app_tokens a;
                              app_loads := app_loads a |});
|}.

#[export] Instance app_ticks : TickLaw app_clock.
Proof. split; intros; simpl; [done|lia]. Qed.

(** A codec whose compression marks the text. *)
#[export] Instance marking_codecs : Codecs := {|
  gzip s := Some ("z" +:+ s);
  gunzip s := match s with String "z" r => Some r | _ => None end;
  base64_encode s := "b" +:+ s;
  base64_decode s := match s with String "b" r => Some r | _ => None end;
|}.

(** A JSON text for the stored form of one page. *)
#[export] Instance page_json : JsonText := {|
  json_to_string v :=
    match v with
    | Null => "null"
    | Str s => quote +:+ s +:+ quote
    | Object [("payload", Str s); ("freshUntil", Number (NInt t))] => "page " +:+ pretty t
    | _ => "{}"
    end;
  json_from_str s :=
    if String.eqb s (quote +:+ "warm" +:+ quote) then Some (Str "warm")
    else match s with
         | String "p" (String "a" (String "g" (String "e" (String " " r)))) =>
             t ← parse_i64 r;
             Some (Object [("payload", Str "warm"); ("freshUntil", Number (NInt t))])
         | _ => None
         end;
|}.

Lemma route_entry_roundtrip_witness :
  (s ← encode (Str "warm") 5000; v ← to_value s; s ← from_value v; decode s)
  = Some {| payload := Str "warm"; fresh_until := 5000 |}.
Proof.
  destruct (encode (Str "warm") 5000) as [s|] eqn:E; [|discriminate E].
  refine (eq_trans (route_entry_roundtrip (Str "warm") 5000 s _ eq_refl _ E) eq_refl).
  - split; discriminate.
  - intros z Hz. injection Hz as <-. split; reflexivity.
Defined.

Definition load_page : ST App (result value string) :=
  fun a => (Ok (Str "warm"),
            {| app_clock := app_clock a; app_tokens := app_tokens a; app_loads := app_loads a + 1 |}).

Definition idle_process (fates : list (Z * Fault)) : RouteCache Memory App :=
  {| redis := client (memory fates); refresh_in_flight := ∅;
     app := {| app_clock := 1000; app_tokens := 0; app_loads := 0 |} |}.

(** A first request loads the page, a second one is a hit: one load. *)
Definition after_first : RouteCache Memory App :=
  exec (cached_database_value load_page "/matches" 60 600) (idle_process []).

Example second_request_hits :
  let '((res, spawned), w) := cached_database_value load_page "/matches" 60 600 after_first in
  res = Ok (Str "warm") /\ spawned = false /\ app_loads (app w) = 1.
Proof. vm_compute. repeat split. Qed.

Lemma cached_value_contract_witness :
  match run (route_get "/matches") (idle_process []) with
  | Some _ => False
  | None =>
      run (cached_database_value load_page "/matches" 60 600) (idle_process []) = (Ok (Str "warm"), false)
  end.
Proof.
  pose proof (cached_value_contract (store_of := mem_store) load_page "/matches" 60 600 (idle_process []))
    as Hc.
  unfold run. destruct (cached_database_value load_page "/matches" 60 600 (idle_process []))
    as [[res spawned] w'].
  assert (run (route_get "/matches") (idle_process []) = None) as Hmiss by (vm_compute; reflexivity).
  unfold run in Hmiss, Hc. rewrite Hmiss in Hc |- *.
  destruct Hc as (-> & _ & Hrest).
  assert (run (waited_for (run (acquire_cold_miss "/matches") (exec (route_get "/matches") (idle_process [])))
                 "/matches")
            (exec (acquire_cold_miss "/matches") (exec (route_get "/matches") (idle_process [])))
          = None) as Hwait by (vm_compute; reflexivity).
  unfold run in Hwait. rewrite Hwait in Hrest. destruct Hrest as (-> & _). vm_compute. reflexivity.
Defined.

(** Two requests of a stale page spawn one refresh; when it has run a later
    request spawns another. *)
Definition stale_process : Process (R := Memory) (A := App) :=
  {| proc := {| redis := redis after_first; refresh_in_flight := ∅;
                app := {| app_clock := 999999; app_tokens := 10; app_loads := 1 |} |};
     tasks := [] |}.

Definition stale_events : list RouteEvent :=
  [Request "/matches"; Request "/matches"; RunTask "/matches"; Request "/matches"].

Lemma refresh_single_flight_witness :
  let p := foldl (fun p e => route_event load_page 0 600 e p) stale_process stale_events in
  single_flight p /\ tasks p = ["/matches"].
Proof.
  split.
  - refine (refresh_single_flight load_page 0 600 stale_events stale_process _).
    split; [constructor|]. intros key. split; intros Hin; [inversion Hin|].
    exfalso. revert Hin. apply not_elem_of_empty.
  - vm_compute. reflexivity.
Defined.

Lemma wait_turns_enough_witness :
  (now ← on_app instant_millis; wait_loop 40 "/matches" (now + COLD_MISS_WAIT_MS) 25) (idle_process [])
  = wait_for_cold_miss "/matches" (idle_process []).
Proof. refine (wait_turns_enough (clock := app_clock) "/matches" 40 (idle_process []) _). unfold WAIT_TURNS. lia. Defined.

(** Queries of one-letter names and values, as [a=1&b=2]. *)
Fixpoint small_query (s : string) : list (string * string) :=
  match s with
  | String k (String "=" (String v r)) =>
      (String k "", String v "") :: match r with String "&" r => small_query r | _ => [] end
  | _ => []
  end.

#[export] Instance small_codec : QueryCodec := {|
  parse_query := small_query;
  serialize_query l := String.concat "&" (map (fun e => fst e +:+ "=" +:+ snd e) l);
|}.

Lemma canonical_url_order_witness :
  canonical_route_cache_url "/notifications/" (Some "b=2&c=5&b=1")
  = canonical_route_cache_url "/notifications/" (Some "b=1&b=2&c=5") /\
  canonical_route_cache_url "/notifications/" (Some "b=2&c=5&b=1") = "/notifications/?b=1&b=2&c=5".
Proof.
  split; [|vm_compute; reflexivity].
  refine (canonical_url_order "/notifications/" "b=2&c=5&b=1" "b=1&b=2&c=5" _).
  change ([("b", "2"); ("c", "5"); ("b", "1")] ≡ₚ [("b", "1"); ("b", "2"); ("c", "5")]).
  exact (Permutation_trans (perm_skip _ (perm_swap _ _ _)) (perm_swap _ _ _) ).
Defined.
