(* ===== verification/Policy.v ===== *)
(** * Worker policy (src/backend-rust/src/workers/policy.rs)

    The queues the workers know, the pages a cache warms, when a match may be
    closed as limited, the batches of profile refreshes, the cursor of the
    presence listing and the headroom of the provider's keys.  The page and
    limit parsers of the listings read floating point numbers and are left
    out. *)

From S2P Require Import Prelude Json Regex.

Definition ACTIVITY_PROFILE_TTL_HOURS : Z := 24.
Definition ACTIVITY_PROFILE_BATCH_SIZE : Z := 20.
Definition LIMITED_MATCH_REASON_ROSTER_UNAVAILABLE : string := "roster_anchor_unavailable".

(** ** Queues *)

Inductive MatchStatScope :=
  | ScopeRanked | ScopeCasual | ScopeBot | ScopeTeamDeathmatch | ScopeArcade | ScopeWaveDefense
  | ScopeExperiment | ScopeNewcomer | ScopeCustom | ScopeOther.

#[export] Instance MatchStatScope_eq_dec : EqDecision MatchStatScope.
Proof. solve_decision. Defined.

Inductive MatchParticipantModel := ModelPvp | ModelPve | ModelBots | ModelCustom | ModelUnknown.

Record MatchCountQueueDefinition := {
  qd_queue_id : Z;
  qd_name : string;
  qd_ranked : bool;
  qd_scope : MatchStatScope;
  qd_participant_model : MatchParticipantModel;
  qd_stats_enabled : bool;
  qd_track_presence : bool;
}.

Definition queue (queue_id : Z) (name : string) (ranked : bool) (scope : MatchStatScope)
    (participant_model : MatchParticipantModel) : MatchCountQueueDefinition :=
  {| qd_queue_id := queue_id; qd_name := name; qd_ranked := ranked; qd_scope := scope;
     qd_participant_model := participant_model; qd_stats_enabled := true; qd_track_presence := true |}.

Definition MATCH_COUNT_QUEUE_DEFINITIONS : list MatchCountQueueDefinition := [
  queue 424 "Casual Siege" false ScopeCasual ModelPvp;
  queue 425 "Siege Training" false ScopeBot ModelBots;
  queue 452 "Casual Onslaught" false ScopeCasual ModelPvp;
  queue 453 "Onslaught Training" false ScopeBot ModelBots;
  queue 469 "Team Deathmatch" false ScopeTeamDeathmatch ModelPvp;
  queue 486 "Ranked Siege" true ScopeRanked ModelPvp;
  queue 10297 "Team Deathmatch Training" false ScopeBot ModelBots;
  queue 10332 "Arcade" false ScopeArcade ModelPvp;
  queue 10348 "Wave Defense Party Beta" false ScopeWaveDefense ModelPve;
  queue 10362 "Wave Defense Public Beta" false ScopeWaveDefense ModelPve;
  queue 10367 "Newcomer" false ScopeNewcomer ModelPvp;
  queue 10369 "Experiment: Subclasses" false ScopeExperiment ModelPvp
].

Definition unknown_queue (queue_id : Z) : MatchCountQueueDefinition :=
  {| qd_queue_id := queue_id; qd_name := if 0 <? queue_id then "Unknown queue" else "Unknown";
     qd_ranked := false; qd_scope := ScopeOther; qd_participant_model := ModelUnknown;
     qd_stats_enabled := false; qd_track_presence := false |}.

Definition get_match_queue_definition (queue_id : Z) : MatchCountQueueDefinition :=
  default (unknown_queue queue_id)
    (find_first (fun d => qd_queue_id d =? queue_id) MATCH_COUNT_QUEUE_DEFINITIONS).

Definition is_public_stats_scope (scope : MatchStatScope) : bool :=
  negb (bool_decide (scope = ScopeCustom) || bool_decide (scope = ScopeOther)).

Definition is_ranked_stats_queue (queue_id : Z) : bool := queue_id =? 486.

(** ** Pages of champions *)

Fixpoint filter_string (p : ascii -> bool) (s : string) : string :=
  match s with
  | EmptyString => EmptyString
  | String c r => if p c then String c (filter_string p r) else filter_string p r
  end.

(** A name in UTF-8: the bytes of a character beyond ASCII are no
    alphanumeric ones. *)
Definition champion_page_slug (name : string) : string := to_ascii_lowercase (filter_string is_alphanumeric name).

(** The url, appended unless it was seen. *)
Definition push_url (url : string) (urls : list string) : list string :=
  if bool_decide (url ∈ urls) then urls else urls ++ [url].

Definition champion_page (slug : string) : string := "/champions/" +:+ slug +:+ "/page-data".
Definition talent_page (slug : string) (talent_id : Z) : string :=
  "/champions/" +:+ slug +:+ "/talents/" +:+ pretty talent_id +:+ "/page-data".

Definition warm_row (urls : list string) (row : string * option Z) : list string :=
  let slug := champion_page_slug (fst row) in
  if is_empty slug then urls
  else
    let urls := push_url (champion_page slug) urls in
    match snd row with
    | Some talent_id => if 0 <? talent_id then push_url (talent_page slug talent_id) urls else urls
    | None => urls
    end.

(** The urls pushed so far are the ones seen. *)
Definition champion_page_warm_urls (rows : list (string * option Z)) : list string := foldl warm_row [] rows.

(** ** Limited matches *)

Record LimitedMatchCandidate := {
  lc_player_count : Z;
  lc_team_one_count : Z;
  lc_team_two_count : Z;
  lc_all_rows_authoritative : bool;
  lc_recovery_source : string;
  lc_recovery_terminal : bool;
  lc_recovery_api_calls : Z;
  lc_anchor_player_count : Z;
}.

Definition recovery_ended (c : LimitedMatchCandidate) : bool :=
  lc_recovery_terminal c
  || existsb (String.eqb (to_ascii_lowercase (lc_recovery_source c)))
       ["no_player_anchors"; "getplayerbatchfrommatch_failed"]
  || (lc_anchor_player_count c =? 0).

Definition limited_match_reason (c : LimitedMatchCandidate) : option string :=
  if (1 <=? lc_player_count c) && (lc_player_count c <? 10) && lc_all_rows_authoritative c
     && ((1 <=? lc_team_one_count c) && (lc_team_one_count c <=? 5))
     && ((1 <=? lc_team_two_count c) && (lc_team_two_count c <=? 5))
     && (wrap_i32 (lc_team_one_count c + lc_team_two_count c) =? lc_player_count c)
     && recovery_ended c && (lc_recovery_api_calls c =? 1)
  then Some LIMITED_MATCH_REASON_ROSTER_UNAVAILABLE else None.

(** ** Batches of profiles *)

Definition MAX_SAFE_INTEGER : Z := 9007199254740991.

Definition player_id_of (v : value) : option Z :=
  id ← or_else (as_i64 v) (s ← as_str v; parse_i64 s);
  if (0 <? id) && (id <=? MAX_SAFE_INTEGER) then Some id else None.

Definition unique_player_ids (values : list value) : list Z :=
  sort_by Z.leb (remove_dups (omap player_id_of values)).

Definition chunk_activity_profile_ids (values : list value) (batch_size : Z) : list (list Z) :=
  chunks (Z.to_nat (Z.max 1 (Z.min ACTIVITY_PROFILE_BATCH_SIZE batch_size))) (unique_player_ids values).

Definition profile_id_keys : list string := ["Id"; "id"; "player_id"; "ActivePlayerId"; "active_player_id"].

Definition profile_error (profile : value) : bool :=
  match (v ← get "ret_msg" profile; as_str v) with
  | Some s => negb (is_empty (trim s))
  | None => false
  end.

Definition profile_ids (requested : gset Z) (profile : value) : list Z :=
  List.filter (fun id => bool_decide (id ∈ requested))
    (omap (fun key => v ← get key profile; or_else (as_i64 v) (s ← as_str v; parse_i64 s)) profile_id_keys).

Definition requested_ids_satisfied_by_profiles (requested_ids : list Z) (profiles : list value) : gset Z :=
  let requested := list_to_set requested_ids in
  foldl (fun satisfied profile =>
           if profile_error profile then satisfied
           else list_to_set (profile_ids requested profile) ∪ satisfied)
    ∅ profiles.

(** ** The cursor of the presence listing *)

Record PresenceDetailCursor := {
  pc_date : string; pc_hour : Z; pc_match_id : string; pc_queue_id : Z;
}.

Definition parse_presence_detail_queue_id (v : option string) : option Z :=
  match v with
  | None => None
  | Some s => if is_empty s then None else id ← parse_i32 s; if 0 <=? id then Some id else None
  end.

(** URL-safe base64 of a JSON text, and the calendar's reading of a date. *)
Class CursorCodec := {
  json_bytes : value -> string;
  json_of_bytes : string -> option value;
  base64_encode : string -> string;
  base64_decode : string -> option string;
  valid_date : string -> bool;
}.

Section cursor.
Context `{CursorCodec}.

Definition cursor_value (c : PresenceDetailCursor) : value :=
  Object [("date", Str (pc_date c)); ("hour", Number (NInt (pc_hour c))); ("matchId", Str (pc_match_id c));
          ("queueId", Number (NInt (pc_queue_id c)))].

Definition i32_of (v : value) : option Z := n ← as_i64 v; in_range i32_min i32_max n.

Definition cursor_of_value (v : value) : option PresenceDetailCursor :=
  m ← as_object v;
  date ← (v ← lookup_field "date" m; as_str v);
  hour ← (v ← lookup_field "hour" m; i32_of v);
  match_id ← (v ← lookup_field "matchId" m; as_str v);
  queue_id ← (v ← lookup_field "queueId" m; i32_of v);
  Some {| pc_date := date; pc_hour := hour; pc_match_id := match_id; pc_queue_id := queue_id |}.

Fixpoint all_digits (s : string) : bool :=
  match s with EmptyString => true | String c r => is_digit c && all_digits r end.

(** The regular expression [^\d+$] also takes the digits of other scripts,
    which the parse of the id then refuses. *)
Definition cursor_valid (c : PresenceDetailCursor) : bool :=
  valid_date (pc_date c) && ((0 <=? pc_hour c) && (pc_hour c <=? 23)) && (0 <=? pc_queue_id c)
  && negb (is_empty (pc_match_id c)) && all_digits (pc_match_id c)
  && match parse_i64 (pc_match_id c) with Some id => 0 <=? id | None => false end.

Definition decode_presence_detail_cursor (v : option string) : option PresenceDetailCursor :=
  text ← v;
  if is_empty text then None
  else
    decoded ← base64_decode text;
    parsed ← json_of_bytes decoded;
    c ← cursor_of_value parsed;
    if cursor_valid c then Some c else None.

Definition encode_presence_detail_cursor (c : PresenceDetailCursor) : string :=
  base64_encode (json_bytes (cursor_value c)).
End cursor.

(** ** The headroom of the keys *)

(** A row of [api_keys]: its status, its limit and the calls of the last day. *)
Record ApiKeyRow := { ak_status : string; ak_daily_limit : Z; ak_total_24h : Z }.

Record ApiHeadroomSnapshot := {
  total_keys : Z;
  usable_keys : Z;
  total_usable_before_reserve : Z;
  has_usable_keys : bool;
}.

Definition unusable_status (s : string) : bool :=
  existsb (String.eqb s) ["limited"; "unhealthy"; "exhausted"].

Definition headroom (k : ApiKeyRow) : Z := Z.max (ak_daily_limit k - ak_total_24h k) 0.

(** The sums of the query are numbers the snapshot's fields can hold. *)
Definition api_headroom_snapshot (reserve_per_key : Z) (keys : list ApiKeyRow) : ApiHeadroomSnapshot :=
  let total := Z.of_nat (length keys) in
  let usable := Z.of_nat (length (List.filter
    (fun k => negb (unusable_status (ak_status k)) && (reserve_per_key <? headroom k)) keys)) in
  {| total_keys := total; usable_keys := usable;
     total_usable_before_reserve :=
       foldr Z.add 0 (map (fun k => Z.max (ak_daily_limit k - ak_total_24h k - reserve_per_key) 0) keys);
     has_usable_keys := (total =? 0) || (0 <? usable) |}.

(** The calls a profile enrichment may make (workers/scheduler_host.rs). *)
Definition profile_enrichment_allowed_calls (max_calls : Z) (budget : ApiHeadroomSnapshot) : Z :=
  if negb (has_usable_keys budget) then 0
  else if total_keys budget =? 0 then max_calls
  else Z.min max_calls (total_usable_before_reserve budget).

(** * Properties of the worker policy

    The batches of a profile refresh, the round trip of a presence cursor, the
    urls of a warm-up and the budget the keys leave. *)

(** ** Batches *)

Lemma leb_total a b : Z.leb a b = false -> Z.leb b a = true.
Proof. rewrite Z.leb_gt, Z.leb_le. lia. Qed.

Lemma strictly_ascending l : LocallySorted (fun a b => Z.leb a b = true) l -> NoDup l -> LocallySorted Z.lt l.
Proof.
  induction 1 as [|a|a b l Hs IH Hab]; intros Hd; [constructor|constructor|].
  apply NoDup_cons in Hd as [Ha Hd]. constructor; [by apply IH|]. apply Z.leb_le in Hab.
  assert (a <> b) by (intros ->; apply Ha; by apply list_elem_of_here). lia.
Qed.

Lemma unique_ids_elem values id : id ∈ unique_player_ids values <-> exists v, v ∈ values /\ player_id_of v = Some id.
Proof.
  unfold unique_player_ids. rewrite sort_by_perm, elem_of_remove_dups, list_elem_of_omap. done.
Qed.

(** The batches of a profile refresh cover the ids named.  Put together,
    the batches are the ids in ascending order, each once; an id is among them
    exactly when one of the values names it, as a number or as its text, and it
    is positive and an exact JavaScript integer; and a batch has at least one
    id and at most the size asked for, at most twenty. *)
Theorem profile_batches_cover values size :
  let batches := chunk_activity_profile_ids values size in
  LocallySorted Z.lt (concat batches) /\
  (forall id, id ∈ concat batches <-> exists v, v ∈ values /\ player_id_of v = Some id) /\
  (forall id, id ∈ concat batches -> 0 < id <= MAX_SAFE_INTEGER) /\
  Forall (fun batch => batch <> [] /\ Z.of_nat (length batch) <= Z.max 1 (Z.min ACTIVITY_PROFILE_BATCH_SIZE size)) batches.
Proof.
  unfold chunk_activity_profile_ids. set (n := Z.to_nat _).
  assert (0 < n)%nat as Hn by (subst n; unfold ACTIVITY_PROFILE_BATCH_SIZE; lia).
  cbv zeta. unfold chunks. rewrite chunks_fuel_concat by lia. split_and!.
  - apply strictly_ascending; [apply sort_by_sorted, leb_total|].
    unfold unique_player_ids. rewrite sort_by_perm. apply NoDup_remove_dups.
  - intros id. apply unique_ids_elem.
  - intros id (v & _ & Hv)%unique_ids_elem. unfold player_id_of in Hv. apply bind_Some in Hv as (id' & _ & Hv).
    destruct (0 <? id') eqn:E1; [|done]. destruct (id' <=? MAX_SAFE_INTEGER) eqn:E2; [|done]. injection Hv as <-.
    apply Z.ltb_lt in E1. apply Z.leb_le in E2. lia.
  - apply Forall_forall. intros batch Hb. apply chunks_fuel_sizes in Hb as [Hne Hl]; [|done].
    split; [done|]. subst n. lia.
Qed.

(** ** Cursors *)

Section cursor.
Context `{CursorCodec}.

(** The fields of a cursor are of their types. *)
Definition cursor_typed (c : PresenceDetailCursor) : Prop := in_i32 (pc_hour c) /\ in_i32 (pc_queue_id c).

(** The codecs decode what they encoded; a JSON text is not empty. *)
Record codec_inverse : Prop := {
  base64_inverse : forall s, base64_decode (base64_encode s) = Some s;
  base64_nonempty : forall s, s <> "" -> base64_encode s <> "";
  json_inverse : forall c, cursor_typed c -> json_of_bytes (json_bytes (cursor_value c)) = Some (cursor_value c);
  json_nonempty : forall v, json_bytes v <> "";
}.

Lemma i32_of_number n : in_i32 n -> i32_of (Number (NInt n)) = Some n.
Proof.
  unfold in_i32, i32_of, i32_min, i32_max. intros Hn. simpl. unfold number_i64, in_range, i64_min, i64_max.
  rewrite !(proj2 (Z.leb_le _ _)) by lia. simpl. by rewrite !(proj2 (Z.leb_le _ _)) by lia.
Qed.

(** A cursor survives its round trip.  Decoding the text of a cursor
    gives the cursor when its date is one, its hour is between 0 and 23, its
    queue is not negative and its match is a text of digits that fits 64 bits,
    and nothing otherwise; so every cursor a client can present is one of
    these. *)
Theorem cursor_roundtrip c :
  codec_inverse -> cursor_typed c ->
  decode_presence_detail_cursor (Some (encode_presence_detail_cursor c)) = (if cursor_valid c then Some c else None).
Proof.
  intros [Hb Hbne Hj Hne] Ht. specialize (Hj c Ht). destruct Ht as [Hh Hq]. unfold decode_presence_detail_cursor, encode_presence_detail_cursor. simpl.
  specialize (Hbne _ (Hne (cursor_value c))). destruct (base64_encode (json_bytes (cursor_value c))) eqn:E; [done|].
  simpl. rewrite <- E, Hb. simpl. rewrite Hj. unfold cursor_value, cursor_of_value. simpl.
  rewrite !i32_of_number by done. simpl. by destruct c.
Qed.

Lemma cursor_of_cursor_value c : cursor_typed c -> cursor_of_value (cursor_value c) = Some c.
Proof.
  intros [Hh Hq]. unfold cursor_value, cursor_of_value. simpl. rewrite !i32_of_number by done. simpl. by destruct c.
Qed.
End cursor.

(** ** Warm urls *)

Lemma push_url_nodup url urls : NoDup urls -> NoDup (push_url url urls).
Proof.
  intros Hd. unfold push_url. case_bool_decide as Hin; [done|]. apply NoDup_app. split_and!; [done| |by repeat constructor; set_solver].
  intros x Hx ->%list_elem_of_singleton. done.
Qed.

Lemma push_url_elem x url urls : x ∈ push_url url urls <-> x = url \/ x ∈ urls.
Proof. unfold push_url. case_bool_decide; set_solver. Qed.

(** The urls a row asks for. *)
Definition urls_of (row : string * option Z) : list string :=
  let slug := champion_page_slug (fst row) in
  if is_empty slug then []
  else champion_page slug ::
       match snd row with
       | Some talent_id => if 0 <? talent_id then [talent_page slug talent_id] else []
       | None => []
       end.

Lemma warm_row_elem x urls row : x ∈ warm_row urls row <-> x ∈ urls \/ x ∈ urls_of row.
Proof.
  unfold warm_row, urls_of. destruct (is_empty _); [set_solver|].
  destruct (snd row) as [talent|]; [destruct (0 <? talent)|]; rewrite !push_url_elem; set_solver.
Qed.

Lemma warm_row_nodup urls row : NoDup urls -> NoDup (warm_row urls row).
Proof.
  intros Hd. unfold warm_row. destruct (is_empty _); [done|].
  destruct (snd row) as [talent|]; [destruct (0 <? talent)|]; by repeat apply push_url_nodup.
Qed.

(** A warm-up visits each page once, and every page of its rows. *)
Lemma warm_urls rows :
  NoDup (champion_page_warm_urls rows) /\
  forall x, x ∈ champion_page_warm_urls rows <-> exists row, row ∈ rows /\ x ∈ urls_of row.
Proof.
  unfold champion_page_warm_urls. induction rows as [|row rows [Hd He]] using rev_ind.
  - split; [constructor|]. intros x. set_solver.
  - rewrite foldl_app. simpl. split; [by apply warm_row_nodup|]. intros x. rewrite warm_row_elem, He. split.
    + intros [(r & Hr & Hx)|Hx]; [exists r|exists row]; set_solver.
    + intros (r & [Hr|Hr%list_elem_of_singleton]%elem_of_app & Hx); [left; by exists r|right; by subst].
Qed.

(** ** The budget of the keys *)

(** The headroom above the reserve of the keys that may be used. *)
Definition usable_headroom (reserve : Z) (keys : list ApiKeyRow) : Z :=
  foldr Z.add 0 (map (fun k => Z.max (ak_daily_limit k - ak_total_24h k - reserve) 0)
    (List.filter (fun k => negb (unusable_status (ak_status k))) keys)).

(** The calls allowed to a profile enrichment.  With no key at all it may
    make all the calls it is configured for; with keys of which none is usable
    it may make none; and otherwise it may make at most those it is configured
    for and at most the headroom above the reserve of all keys, the limited and
    the unhealthy ones included, which can be more than the usable ones have:
    with an exhausted status on a key of a high limit and one usable key with a
    single call left, a hundred calls are allowed. *)
Theorem enrichment_budget max_calls reserve keys :
  0 <= max_calls ->
  let allowed := profile_enrichment_allowed_calls max_calls (api_headroom_snapshot reserve keys) in
  0 <= allowed <= max_calls /\
  (keys = [] -> allowed = max_calls) /\
  (keys <> [] -> Forall (fun k => unusable_status (ak_status k) = true \/ headroom k <= reserve) keys -> allowed = 0) /\
  exists keys', usable_headroom 0 keys' = 1 /\
    profile_enrichment_allowed_calls 100 (api_headroom_snapshot 0 keys') = 100.
Proof.
  intros Hmax allowed. subst allowed. unfold profile_enrichment_allowed_calls. simpl.
  set (usable := length (List.filter _ keys)).
  assert (0 <= foldr Z.add 0 (map (fun k => Z.max (ak_daily_limit k - ak_total_24h k - reserve) 0) keys)) as Hpos
    by (clear; induction keys; simpl; lia).
  split_and!.
  - destruct (negb _); [lia|]. destruct (_ =? 0); lia.
  - destruct (negb _); [lia|]. destruct (_ =? 0); lia.
  - intros ->. done.
  - intros Hne Hall. assert (usable = 0%nat) as ->.
    { subst usable. clear -Hall. induction Hall as [|k keys Hk Hall IH]; [done|]. simpl.
      destruct Hk as [-> |Hk]; [exact IH|]. rewrite (proj2 (Z.ltb_ge _ _)) by lia. by rewrite andb_false_r. }
    destruct keys; [done|]. done.
  - exists [{| ak_status := "limited"; ak_daily_limit := 7500; ak_total_24h := 0 |};
            {| ak_status := "active"; ak_daily_limit := 7500; ak_total_24h := 7499 |}].
    by split.
Qed.
