(* ===== verification/Schedule.v ===== *)
(** * The schedule of the workers (src/backend-rust/src/workers/scheduler.rs
      and the cron evaluation of workers/scheduler_host.rs)

    The inventory of jobs with its typed schedules, the evaluator of cron
    expressions that decides in production, and the selection of the jobs a
    clock tick starts. *)

From S2P Require Import Prelude Coordination.

(** ** Instants *)

(** An instant of the UTC clock is a number of seconds; the calendar of the
    [time] crate gives the fields of its day. *)
Class Calendar := {
  day_of_month : Z -> Z;
  month_of_year : Z -> Z;
  (** Days since Sunday. *)
  weekday_of : Z -> Z;
  date_text : Z -> string;
}.

Class CalendarLaw `{Calendar} := {
  law_day : forall d, 1 <= day_of_month d <= 31;
  law_month : forall d, 1 <= month_of_year d <= 12;
  law_weekday : forall d, 0 <= weekday_of d <= 6;
}.

Definition minute_of (now : Z) : Z := now / 60 mod 60.
Definition hour_of_day (now : Z) : Z := now / 3600 mod 24.
Definition day_number (now : Z) : Z := now / 86400.

(** ** Typed schedules *)

Definition GAP_CHECK_MINUTES : list Z := [5; 15; 25; 40; 50].

Inductive MinuteSchedule :=
  | MinuteExact (expected : Z)
  | MinuteEvery (interval : Z)
  | MinuteOneOf (expected : list Z).

Definition is_multiple_of (n interval : Z) : bool := n mod interval =? 0.

Definition minute_matches (s : MinuteSchedule) (minute : Z) : bool :=
  match s with
  | MinuteExact expected => minute =? expected
  | MinuteEvery interval => (0 <? interval) && is_multiple_of minute interval
  | MinuteOneOf expected => existsb (Z.eqb minute) expected
  end.

Inductive HourSchedule :=
  | HourAny
  | HourExact (expected : Z)
  | HourEvery (interval : Z).

Definition hour_matches (s : HourSchedule) (hour : Z) : bool :=
  match s with
  | HourAny => true
  | HourExact expected => hour =? expected
  | HourEvery interval => (0 <? interval) && is_multiple_of hour interval
  end.

Inductive StartupPolicy :=
  | StartupNone
  | DurableCatchup (delay_seconds : Z)
  | Always (delay_seconds : Z).

Record ScheduledJob := {
  sj_key : string;
  sj_scheduler : string;
  sj_cron : string;
  sj_minute : MinuteSchedule;
  sj_hour : HourSchedule;
  sj_startup : StartupPolicy;
}.

Definition is_due (job : ScheduledJob) (now : Z) : bool :=
  minute_matches (sj_minute job) (minute_of now) && hour_matches (sj_hour job) (hour_of_day now).

Definition SCHEDULED_JOBS : list ScheduledJob := [
  {| sj_key := "ranked-tracker:leaderboard"; sj_scheduler := "ranked_tracker"; sj_cron := "0 */4 * * *";
     sj_minute := MinuteExact 0; sj_hour := HourEvery 4; sj_startup := DurableCatchup 2 |};
  {| sj_key := "auto-ingester:discovery"; sj_scheduler := "auto_ingester"; sj_cron := "30 * * * *";
     sj_minute := MinuteExact 30; sj_hour := HourAny; sj_startup := DurableCatchup 10 |};
  {| sj_key := "auto-ingester:buffer-drain"; sj_scheduler := "auto_ingester"; sj_cron := "*/5 * * * *";
     sj_minute := MinuteEvery 5; sj_hour := HourAny; sj_startup := Always 15 |};
  {| sj_key := "auto-ingester:raw-buffer-retention"; sj_scheduler := "auto_ingester"; sj_cron := "17 * * * *";
     sj_minute := MinuteExact 17; sj_hour := HourAny; sj_startup := Always 20 |};
  {| sj_key := "auto-ingester:player-history-retention"; sj_scheduler := "auto_ingester"; sj_cron := "23 * * * *";
     sj_minute := MinuteExact 23; sj_hour := HourAny; sj_startup := Always 25 |};
  {| sj_key := "auto-ingester:materialized-view-refresh"; sj_scheduler := "auto_ingester"; sj_cron := "5 * * * *";
     sj_minute := MinuteExact 5; sj_hour := HourAny; sj_startup := StartupNone |};
  {| sj_key := "auto-ingester:view-count-drain"; sj_scheduler := "auto_ingester"; sj_cron := "*/2 * * * *";
     sj_minute := MinuteEvery 2; sj_hour := HourAny; sj_startup := StartupNone |};
  {| sj_key := "auto-ingester:drop-detection"; sj_scheduler := "auto_ingester"; sj_cron := "*/15 * * * *";
     sj_minute := MinuteEvery 15; sj_hour := HourAny; sj_startup := StartupNone |};
  {| sj_key := "auto-ingester:profile-enrichment"; sj_scheduler := "auto_ingester"; sj_cron := "50 * * * *";
     sj_minute := MinuteExact 50; sj_hour := HourAny; sj_startup := DurableCatchup 30 |};
  {| sj_key := "baseline-tracker:refresh"; sj_scheduler := "baseline_tracker"; sj_cron := "0 3 * * *";
     sj_minute := MinuteExact 0; sj_hour := HourExact 3; sj_startup := StartupNone |};
  {| sj_key := "derived-projections:refresh"; sj_scheduler := "derived_projection_tracker";
     sj_cron := "30 3 * * *"; sj_minute := MinuteExact 30; sj_hour := HourExact 3; sj_startup := StartupNone |};
  {| sj_key := "ranked-projection:repair"; sj_scheduler := "derived_projection_tracker";
     sj_cron := "*/10 * * * *"; sj_minute := MinuteEvery 10; sj_hour := HourAny; sj_startup := StartupNone |};
  {| sj_key := "hourly-gap-checker:scan"; sj_scheduler := "hourly_gap_checker";
     sj_cron := "5,15,25,40,50 * * * *"; sj_minute := MinuteOneOf GAP_CHECK_MINUTES; sj_hour := HourAny;
     sj_startup := DurableCatchup 5 |};
  {| sj_key := "tier-stats:refresh"; sj_scheduler := "tier_stats"; sj_cron := "15 * * * *";
     sj_minute := MinuteExact 15; sj_hour := HourAny; sj_startup := StartupNone |}
].

Definition scheduled_jobs_for (scheduler_key : string) : list ScheduledJob :=
  List.filter (fun job => String.eqb (sj_scheduler job) scheduler_key) SCHEDULED_JOBS.

Definition startup_delay_seconds (job : ScheduledJob) : option Z :=
  match sj_startup job with
  | StartupNone => None
  | DurableCatchup delay | Always delay => Some delay
  end.

(** ** Cron expressions *)

(** [str::split_once] on one ASCII character. *)
Fixpoint split_once (sep : ascii) (s : string) : option (string * string) :=
  match s with
  | EmptyString => None
  | String c r =>
      if Ascii.eqb c sep then Some (EmptyString, r)
      else '(a, b) ← split_once sep r; Some (String c a, b)
  end.

(** The bytes of the whitespace character at the front, or none. *)
Definition whitespace_length (s : string) : nat :=
  match s with
  | String a r =>
      if ws1 a then 1
      else match r with
           | String b r2 =>
               if ws2 a b then 2
               else match r2 with String c _ => if ws3 a b c then 3 else 0 | EmptyString => 0 end
           | EmptyString => 0
           end
  | EmptyString => 0
  end%nat.

(** [str::split_whitespace]: [skip] bytes of a separator are still to pass and
    [word] is the one being read. *)
Fixpoint words (skip : nat) (word s : string) : list string :=
  match s with
  | EmptyString => if is_empty word then [] else [word]
  | String c r =>
      match skip with
      | S skip => words skip word r
      | O =>
          match whitespace_length s with
          | O => words O (word +:+ String c EmptyString) r
          | S rest => if is_empty word then words rest word r else word :: words rest EmptyString r
          end
      end
  end.

Definition split_whitespace (s : string) : list string := words 0 EmptyString s.

Definition parse_u8 : string -> option Z := parse_unsigned 255.

(** The first and last value of a term, and whether its step is given. *)
Definition cron_bounds (base : string) (stepped : bool) (min max : Z) : option (Z * Z) :=
  if String.eqb base "*" then Some (min, max)
  else match split_once "-" base with
       | Some (start, stop) => start ← parse_u8 start; stop ← parse_u8 stop; Some (start, stop)
       | None => start ← parse_u8 base; Some (start, if stepped then max else start)
       end.

Definition cron_term_matches (term : string) (value min max : Z) : bool :=
  let '(base, step, stepped) :=
    match split_once "/" term with
    | Some (base, step) => (base, default 0 (parse_u8 step), true)
    | None => (term, 1, false)
    end in
  if step =? 0 then false
  else match cron_bounds base stepped min max with
       | None => false
       | Some (start, stop) =>
           (min <=? start) && (stop <=? max) && (start <=? stop) && (start <=? value) && (value <=? stop)
           && is_multiple_of (value - start) step
       end.

Definition cron_field_matches (field : string) (value min max : Z) : bool :=
  existsb (fun term => cron_term_matches term value min max) (split_on "," field).

Section clock.
Context `{Calendar}.

Definition cron_matches (expression : string) (now : Z) : bool :=
  match split_whitespace expression with
  | [f0; f1; f2; f3; f4] =>
      let weekday := weekday_of (day_number now) in
      cron_field_matches f0 (minute_of now) 0 59
      && cron_field_matches f1 (hour_of_day now) 0 23
      && cron_field_matches f2 (day_of_month (day_number now)) 1 31
      && cron_field_matches f3 (month_of_year (day_number now)) 1 12
      && (cron_field_matches f4 weekday 0 7
          || ((weekday =? 0) && cron_field_matches f4 7 0 7))
  | _ => false
  end.

(** The environment may replace the expression of two jobs. *)
Definition scheduler_job_is_due_with (job : ScheduledJob) (now : Z) (lookup : string -> option string) : bool :=
  let expression :=
    if String.eqb (sj_key job) "hourly-gap-checker:scan" then lookup "GAP_CHECKER_CRON_EXPRESSION"
    else if String.eqb (sj_key job) "auto-ingester:profile-enrichment" then lookup "PLAYER_ACTIVITY_PROFILE_CRON"
    else None in
  cron_matches (default (sj_cron job) expression) now.

Definition due_inactive_jobs (schedules : list ScheduledJob) (now : Z) (lookup : string -> option string)
    (active : gset string) : list ScheduledJob :=
  List.filter (fun job => scheduler_job_is_due_with job now lookup && negb (bool_decide (sj_key job ∈ active)))
    schedules.

(** The last hour whose matches the provider lists completely. *)
Definition completed_discovery_window (now : Z) : string * Z :=
  let hours_behind := if minute_of now <? 30 then 2 else 1 in
  let completed := now - hours_behind * 3600 in
  (date_text (day_number completed), hour_of_day completed).
End clock.

(** * Properties of the schedule

    The cron evaluator against a reference semantics of cron fields, the two
    descriptions of each job's schedule, and the hour a discovery reads. *)

(** ** The clock *)

Lemma minute_range now : 0 <= minute_of now < 60.
Proof. apply Z.mod_pos_bound. lia. Qed.

Lemma hour_range_of_day now : 0 <= hour_of_day now < 24.
Proof. apply Z.mod_pos_bound. lia. Qed.

Lemma seqZ_forallb (f : Z -> bool) n v : forallb f (seqZ 0 n) = true -> 0 <= v < n -> f v = true.
Proof. intros Hf Hv. rewrite forallb_forall in Hf. apply Hf, list_elem_of_In, elem_of_seqZ. lia. Qed.

(** ** Both schedules of a job *)

Lemma star_matches v lo hi : lo <= v <= hi -> cron_field_matches "*" v lo hi = true.
Proof.
  intros Hv. unfold cron_field_matches, cron_term_matches, cron_bounds, is_multiple_of. simpl.
  rewrite Z.mod_1_r. rewrite !(proj2 (Z.leb_le _ _)) by lia. done.
Qed.

(** The five fields of a job's expression are its typed minute and hour. *)
Definition agrees (job : ScheduledJob) : bool :=
  match split_whitespace (sj_cron job) with
  | [f0; f1; f2; f3; f4] =>
      forallb (fun m => eqb (minute_matches (sj_minute job) m) (cron_field_matches f0 m 0 59)) (seqZ 0 60)
      && forallb (fun h => eqb (hour_matches (sj_hour job) h) (cron_field_matches f1 h 0 23)) (seqZ 0 24)
      && String.eqb f2 "*" && String.eqb f3 "*" && String.eqb f4 "*"
  | _ => false
  end.

Lemma all_agree : forallb agrees SCHEDULED_JOBS = true.
Proof. vm_compute. reflexivity. Qed.

Section agreement.
Context `{Law : CalendarLaw}.

Lemma agrees_due job now : agrees job = true -> cron_matches (sj_cron job) now = is_due job now.
Proof.
  unfold agrees, cron_matches, is_due.
  destruct (split_whitespace (sj_cron job)) as [|f0 [|f1 [|f2 [|f3 [|f4 [|? ?]]]]]]; try done.
  intros [[[[Hm Hh]%andb_prop ->%String.eqb_eq]%andb_prop ->%String.eqb_eq]%andb_prop ->%String.eqb_eq]%andb_prop.
  apply (seqZ_forallb _ _ (minute_of now)) in Hm; [|apply minute_range].
  apply (seqZ_forallb _ _ (hour_of_day now)) in Hh; [|apply hour_range_of_day].
  apply eqb_prop in Hm as <-. apply eqb_prop in Hh as <-.
  rewrite !star_matches by (apply law_day || apply law_month || (pose proof (law_weekday (day_number now)); lia)).
  by rewrite !andb_true_r.
Qed.

(** Both descriptions of a job's schedule agree.  For every job of the
    inventory and every instant, its cron expression, which the scheduler of
    its domain evaluates, matches exactly when its typed minute and hour, which
    the tier-stats runtime evaluates, are due. *)
Theorem cron_agrees_with_schedule job now :
  job ∈ SCHEDULED_JOBS -> scheduler_job_is_due_with job now (fun _ => None) = is_due job now.
Proof.
  intros Hj. rewrite <- agrees_due.
  - unfold scheduler_job_is_due_with. by repeat case_match.
  - pose proof all_agree as Ha. rewrite forallb_forall in Ha. by apply Ha, list_elem_of_In.
Qed.
End agreement.

(** A calendar of months of thirty days, from a Thursday on. *)
#[local] Instance plain_calendar : Calendar := {|
  day_of_month := fun d => d mod 30 + 1;
  month_of_year := fun d => d / 30 mod 12 + 1;
  weekday_of := fun d => (d + 4) mod 7;
  date_text := fun d => pretty d;
|}.

#[local] Instance plain_calendar_law : CalendarLaw.
Proof.
  split; intros d; simpl.
  - pose proof (Z.mod_pos_bound d 30). lia.
  - pose proof (Z.mod_pos_bound (d / 30) 12). lia.
  - pose proof (Z.mod_pos_bound (d + 4) 7). lia.
Qed.

(** At 03:00 the baselines are refreshed, and a minute later they are not. *)
Lemma cron_agrees_with_schedule_witness :
  let job := {| sj_key := "baseline-tracker:refresh"; sj_scheduler := "baseline_tracker"; sj_cron := "0 3 * * *";
                sj_minute := MinuteExact 0; sj_hour := HourExact 3; sj_startup := StartupNone |} in
  is_due job 10800 = true /\ scheduler_job_is_due_with job 10800 (fun _ => None) = is_due job 10800 /\
  scheduler_job_is_due_with job 10860 (fun _ => None) = is_due job 10860.
Proof.
  cbv zeta. split; [reflexivity|]. split; apply cron_agrees_with_schedule;
    do 9 apply list_elem_of_further; apply list_elem_of_here.
Defined.

(** The jobs have different keys and cover the six schedulers. *)
Example inventory_keys :
  NoDup (map sj_key SCHEDULED_JOBS) /\
  forallb (fun k => existsb (fun j => String.eqb (sj_scheduler j) k) SCHEDULED_JOBS) SCHEDULER_KEYS = true /\
  length (scheduled_jobs_for "auto_ingester") = 8%nat.
Proof. split_and!; [|vm_compute; done..]. apply (bool_decide_unpack _). vm_compute. done. Qed.

(** ** A reference semantics of cron fields *)

(** A term of a field: all values, one, or a range, each with a step or not. *)
Inductive cron_range := CronAll | CronOne (n : Z) | CronRange (a b : Z).
Record cron_term := { ct_range : cron_range; ct_step : option Z }.

Definition print_range (r : cron_range) : string :=
  match r with
  | CronAll => "*"
  | CronOne n => pretty n
  | CronRange a b => pretty a +:+ "-" +:+ pretty b
  end.

Definition print_term (t : cron_term) : string :=
  match ct_step t with
  | None => print_range (ct_range t)
  | Some s => print_range (ct_range t) +:+ "/" +:+ pretty s
  end.

Definition print_field (ts : list cron_term) : string := String.concat "," (map print_term ts).

(** The numbers of a term are bytes. *)
Definition is_byte (n : Z) : Prop := 0 <= n <= 255.
Definition term_of_bytes (t : cron_term) : Prop :=
  match ct_range t with
  | CronAll => True
  | CronOne n => is_byte n
  | CronRange a b => is_byte a /\ is_byte b
  end /\ match ct_step t with Some s => is_byte s | None => True end.

(** The values of a field between [min] and [max] a term stands for: a number
    with a step runs up to [max]. *)
Definition term_values (min max : Z) (t : cron_term) (v : Z) : Prop :=
  let '(a, b) :=
    match ct_range t with
    | CronAll => (min, max)
    | CronOne n => (n, match ct_step t with Some _ => max | None => n end)
    | CronRange a b => (a, b)
    end in
  min <= a /\ b <= max /\ a <= v <= b /\
  exists k, 0 <= k /\ 0 < default 1 (ct_step t) /\ v = a + k * default 1 (ct_step t).

(** *** Printed numbers *)

Lemma all_digits_go x s : (forall c, c ∈ String.list_ascii_of_string s -> is_digit c = true) ->
  forall c, c ∈ String.list_ascii_of_string (pretty_N_go x s) -> is_digit c = true.
Proof.
  revert s. induction (N.lt_wf_0 x) as [x _ IH]. intros s Hs.
  destruct (decide (0 < x)%N) as [Hx|Hx].
  - rewrite pretty_N_go_step by done. apply IH; [apply N.div_lt; lia|].
    intros c. simpl. intros [->|Hc]%elem_of_cons; [|by apply Hs].
    apply pretty_char_digit, N.mod_lt. done.
  - assert (x = 0%N) as -> by lia. by rewrite pretty_N_go_0.
Qed.

Lemma pretty_digits n c : 0 <= n -> c ∈ String.list_ascii_of_string (pretty n) -> is_digit c = true.
Proof.
  intros Hn. assert (exists m, n = Z.of_N m) as [m ->] by (exists (Z.to_N n); lia).
  rewrite pretty_Z_nonneg. unfold pretty, pretty_N. case_decide; [simpl; by intros ->%list_elem_of_singleton|].
  apply all_digits_go. simpl. by intros ? ?%elem_of_nil.
Qed.

Lemma parse_u8_pretty n : is_byte n -> parse_u8 (pretty n) = Some n.
Proof.
  intros Hn. unfold is_byte in Hn. pose proof (parse_u64_pretty n) as Hp.
  assert (in_u64 n) as Hu by (unfold in_u64, u64_max; lia). specialize (Hp Hu).
  unfold parse_u8, parse_u64, parse_unsigned in *. destruct (pretty n) as [|c r]; [done|].
  destruct (is_empty _); [done|]. apply bind_Some in Hp as (z & Hz & Hr). rewrite Hz. simpl.
  apply in_range_Some in Hr as [<- _]. unfold in_range. rewrite !(proj2 (Z.leb_le _ _)) by lia. done.
Qed.

(** A separator that does not occur. *)
Definition lacks (sep : ascii) (s : string) : Prop := sep ∉ String.list_ascii_of_string s.

Lemma list_ascii_app a b :
  String.list_ascii_of_string (a +:+ b) = String.list_ascii_of_string a ++ String.list_ascii_of_string b.
Proof. induction a as [|c a IH]; [done|]. change (String c a +:+ b) with (String c (a +:+ b)). simpl. by f_equal. Qed.

Lemma lacks_app sep a b : lacks sep a -> lacks sep b -> lacks sep (a +:+ b).
Proof. unfold lacks. rewrite list_ascii_app, elem_of_app. tauto. Qed.

Lemma pretty_lacks sep n : 0 <= n -> is_digit sep = false -> lacks sep (pretty n).
Proof. intros Hn Hs Hin. apply pretty_digits in Hin; [|done]. congruence. Qed.

Lemma split_once_app sep a b : lacks sep a -> split_once sep (a +:+ String sep b) = Some (a, b).
Proof.
  induction a as [|c a IH]; intros Ha.
  - simpl. by rewrite Ascii.eqb_refl.
  - change (String c a +:+ String sep b) with (String c (a +:+ String sep b)). simpl.
    unfold lacks in Ha. simpl in Ha. apply not_elem_of_cons in Ha as [Hc Ha].
    rewrite (proj2 (Ascii.eqb_neq c sep)) by congruence. by rewrite IH.
Qed.

Lemma split_once_lacks sep a : lacks sep a -> split_once sep a = None.
Proof.
  induction a as [|c a IH]; intros Ha; [done|]. simpl. unfold lacks in Ha. simpl in Ha.
  apply not_elem_of_cons in Ha as [Hc Ha]. rewrite (proj2 (Ascii.eqb_neq c sep)) by congruence. by rewrite IH.
Qed.

Lemma split_on_app sep a b : lacks sep a -> split_on sep (a +:+ String sep b) = a :: split_on sep b.
Proof.
  induction a as [|c a IH]; intros Ha.
  - simpl. by rewrite Ascii.eqb_refl.
  - change (String c a +:+ String sep b) with (String c (a +:+ String sep b)). simpl.
    unfold lacks in Ha. simpl in Ha. apply not_elem_of_cons in Ha as [Hc Ha].
    rewrite (proj2 (Ascii.eqb_neq c sep)) by congruence. by rewrite IH.
Qed.

Lemma split_on_lacks sep a : lacks sep a -> split_on sep a = [a].
Proof.
  induction a as [|c a IH]; intros Ha; [done|]. simpl. unfold lacks in Ha. simpl in Ha.
  apply not_elem_of_cons in Ha as [Hc Ha]. rewrite (proj2 (Ascii.eqb_neq c sep)) by congruence. by rewrite IH.
Qed.

(** *** Terms *)

Definition range_bounds (min max : Z) (stepped : bool) (r : cron_range) : Z * Z :=
  match r with
  | CronAll => (min, max)
  | CronOne n => (n, if stepped then max else n)
  | CronRange a b => (a, b)
  end.

Lemma pretty_not_star n s : 0 <= n -> String.eqb (pretty n +:+ s) "*" = false.
Proof.
  intros Hn. assert (exists m, n = Z.of_N m) as [m ->] by (exists (Z.to_N n); lia).
  rewrite pretty_Z_nonneg. destruct (pretty_head m) as (c & r & -> & Hc).
  change (String c r +:+ s) with (String c (r +:+ s)). apply String.eqb_neq. intros [= -> _]. by vm_compute in Hc.
Qed.

Lemma string_app_nil s : s +:+ "" = s.
Proof. induction s as [|c s IH]; [done|]. change (String c s +:+ "") with (String c (s +:+ "")). by rewrite IH. Qed.

Lemma cron_bounds_print r stepped min max :
  match r with CronAll => True | CronOne n => is_byte n | CronRange a b => is_byte a /\ is_byte b end ->
  cron_bounds (print_range r) stepped min max = Some (range_bounds min max stepped r).
Proof.
  unfold is_byte. destruct r as [|n|a b]; intros Hr; simpl; [done| |].
  - unfold cron_bounds. rewrite <- (string_app_nil (pretty n)) at 1. rewrite pretty_not_star by lia.
    rewrite split_once_lacks by (apply pretty_lacks; [lia|done]). by rewrite parse_u8_pretty.
  - destruct Hr as [Ha Hb]. unfold cron_bounds. rewrite pretty_not_star by lia.
    change (pretty a +:+ "-" +:+ pretty b) with (pretty a +:+ String "-" (pretty b)).
    rewrite split_once_app by (apply pretty_lacks; [lia|done]).
    by rewrite !parse_u8_pretty.
Qed.

Lemma range_lacks sep r :
  is_digit sep = false -> sep <> "*"%char -> sep <> "-"%char ->
  match r with CronAll => True | CronOne n => is_byte n | CronRange a b => is_byte a /\ is_byte b end ->
  lacks sep (print_range r).
Proof.
  unfold is_byte. intros Hs Hstar Hdash. destruct r as [|n|a b]; intros Hr; simpl.
  - unfold lacks. simpl. by intros ->%list_elem_of_singleton.
  - apply pretty_lacks; [lia|done].
  - apply lacks_app; [apply pretty_lacks; [lia|done]|]. change ("-" +:+ pretty b) with (String "-" (pretty b)).
    unfold lacks. simpl. intros [->|Hin]%elem_of_cons; [done|].
    by apply (pretty_lacks sep b) in Hin; [|lia|].
Qed.

Lemma term_lacks_comma t : term_of_bytes t -> lacks "," (print_term t).
Proof.
  intros [Hr Hs]. unfold print_term, is_byte in *. destruct (ct_step t) as [s|].
  - apply lacks_app; [by apply range_lacks|]. change ("/" +:+ pretty s) with (String "/" (pretty s)).
    unfold lacks. simpl. intros [?|Hin]%elem_of_cons; [done|]. by apply (pretty_lacks "," s) in Hin; [|lia|].
  - by apply range_lacks.
Qed.

(** The arithmetic of a term. *)
Definition in_steps (a b step v : Z) : bool :=
  (a <=? v) && (v <=? b) && is_multiple_of (v - a) step.

Lemma term_print t v min max :
  term_of_bytes t ->
  cron_term_matches (print_term t) v min max =
    let '(a, b) := range_bounds min max (match ct_step t with Some _ => true | None => false end) (ct_range t) in
    let step := default 1 (ct_step t) in
    negb (step =? 0) && ((min <=? a) && (b <=? max) && (a <=? b)) && in_steps a b step v.
Proof.
  intros [Hr Hs]. unfold cron_term_matches, print_term. destruct (ct_step t) as [s|].
  - change (print_range (ct_range t) +:+ "/" +:+ pretty s) with (print_range (ct_range t) +:+ String "/" (pretty s)).
    rewrite split_once_app by (by apply range_lacks). rewrite parse_u8_pretty by done. simpl.
    rewrite cron_bounds_print by done. destruct (range_bounds _ _ _ _) as [a b].
    destruct (s =? 0); [done|]. unfold in_steps. simpl. by rewrite !andb_assoc.
  - rewrite split_once_lacks by (by apply range_lacks).
    rewrite cron_bounds_print by done. destruct (range_bounds _ _ _ _) as [a b].
    unfold in_steps. simpl. by rewrite !andb_assoc.
Qed.

Lemma steps_values a b step v :
  0 <= step -> (negb (step =? 0) && in_steps a b step v = true <->
  a <= v <= b /\ exists k, 0 <= k /\ 0 < step /\ v = a + k * step).
Proof.
  intros Hs. unfold in_steps, is_multiple_of.
  rewrite !andb_true_iff, negb_true_iff, Z.eqb_neq, !Z.leb_le, Z.eqb_eq. split.
  - intros (Hz & (Ha & Hb) & Hm). split; [done|]. exists ((v - a) / step).
    pose proof (Z.div_mod (v - a) step). assert (0 <= (v - a) / step) by (apply Z.div_pos; lia). lia.
  - intros (Hv & k & Hk & Hpos & ->). split_and!; [lia|lia|lia|].
    replace (a + k * step - a) with (k * step) by lia. apply Z.mod_mul. lia.
Qed.

Lemma term_matches_iff t v min max :
  term_of_bytes t -> (cron_term_matches (print_term t) v min max = true <-> term_values min max t v).
Proof.
  intros Ht. rewrite term_print by done. unfold term_values.
  assert (0 <= default 1 (ct_step t)) as Hstep.
  { destruct Ht as [_ Hs]. unfold is_byte in Hs. destruct (ct_step t); simpl; lia. }
  assert (range_bounds min max (match ct_step t with Some _ => true | None => false end) (ct_range t)
          = match ct_range t with
            | CronAll => (min, max)
            | CronOne n => (n, match ct_step t with Some _ => max | None => n end)
            | CronRange a b => (a, b)
            end) as -> by (by destruct (ct_range t), (ct_step t)).
  destruct (match ct_range t with CronAll => _ | CronOne n => _ | CronRange a b => _ end) as [a b].
  cbv zeta. pose proof (steps_values a b (default 1 (ct_step t)) v Hstep) as Hiff.
  rewrite !andb_true_iff in *. rewrite !Z.leb_le. intuition lia.
Qed.

(** A cron field means the union of its terms.  On every field printed
    from terms, of bytes, the evaluator answers that a value matches exactly
    when one of the terms stands for it: all values, a single one, a range
    inside the bounds of the field, or every [step]-th value of one of these
    from its start; a step of zero stands for nothing. *)
Theorem cron_field_reference ts v min max :
  ts <> [] -> Forall term_of_bytes ts ->
  cron_field_matches (print_field ts) v min max = true <-> exists t, t ∈ ts /\ term_values min max t v.
Proof.
  intros Hne Hts. unfold cron_field_matches, print_field.
  assert (split_on "," (String.concat "," (map print_term ts)) = map print_term ts) as ->.
  { clear v min max. induction ts as [|t ts IH]; [done|]. apply Forall_cons in Hts as [Ht Hts].
    destruct ts as [|u ts].
    - simpl. apply split_on_lacks. by apply term_lacks_comma.
    - change (String.concat "," (map print_term (t :: u :: ts)))
        with (print_term t +:+ String "," (String.concat "," (map print_term (u :: ts)))).
      rewrite split_on_app by (by apply term_lacks_comma). by rewrite IH. }
  rewrite existsb_exists. rewrite Forall_forall in Hts. split.
  - intros (s & Hs & Hm). apply in_map_iff in Hs as (t & <- & Ht). apply list_elem_of_In in Ht.
    exists t. split; [done|]. apply term_matches_iff; [by apply Hts|done].
  - intros (t & Ht & Hv). exists (print_term t). split; [by apply in_map, list_elem_of_In|].
    apply term_matches_iff; [by apply Hts|done].
Qed.

Lemma cron_field_reference_witness :
  let ts := [{| ct_range := CronRange 5 25; ct_step := Some 10 |}; {| ct_range := CronOne 40; ct_step := None |}] in
  print_field ts = "5-25/10,40" /\ exists t, t ∈ ts /\ term_values 0 59 t 15.
Proof.
  split; [vm_compute; reflexivity|]. apply cron_field_reference.
  - discriminate.
  - repeat constructor; unfold is_byte; simpl; lia.
  - vm_compute. reflexivity.
Defined.

(** ** The window of a discovery *)

Section window.
Context `{Law : CalendarLaw}.

(** A discovery reads the last hour whose matches have had time to end.
    The window of an instant is the date and the hour of a UTC hour which is
    over for at least half an hour and for less than an hour and a half. *)
Theorem discovery_window_settled now :
  exists start, start mod 3600 = 0 /\
    completed_discovery_window now = (date_text (day_number start), hour_of_day start) /\
    start + 3600 + 1800 <= now < start + 3600 + 5400.
Proof.
  unfold completed_discovery_window. set (behind := if minute_of now <? 30 then 2 else 1).
  exists ((now - behind * 3600) / 3600 * 3600). split_and!.
  - apply Z.mod_mul. lia.
  - unfold day_number, hour_of_day. f_equal; [f_equal|]; Z.to_euclidean_division_equations; lia.
  - subst behind. unfold minute_of. destruct (now / 60 mod 60 <? 30) eqn:E;
      [apply Z.ltb_lt in E|apply Z.ltb_ge in E]; Z.to_euclidean_division_equations; lia.
  - subst behind. unfold minute_of. destruct (now / 60 mod 60 <? 30) eqn:E;
      [apply Z.ltb_lt in E|apply Z.ltb_ge in E]; Z.to_euclidean_division_equations; lia.
Qed.
End window.
