(* ===== verification/SchedulerHost.v ===== *)
(** * Running the schedule (src/backend-rust/src/workers/scheduler_host.rs)

    The execution of one job under its lease and in the run log, the jobs that
    follow each other, the loop of a scheduler domain as a machine that reacts
    to its timers, and the drain of the raw buffer.  What a job does is the
    argument [dispatch] of its execution. *)

From S2P Require Import Prelude Json Coordination Schedule.

Definition OWNERSHIP_LEASE : Z := 60.
Definition STARTUP_OWNERSHIP_LEASE : Z := 300.
Definition JOB_LEASE : Z := 3600.

(** ** Statements on the coordination tables *)

(** A statement fails, or has its instant. *)
Class CoordinationDb (W : Type) := coordination_begin : ST W (result Z string).

Section execution.
Context {W : Type} `{CoordinationDb W}.
Abbreviation X := (Coordination * W)%type.

Definition coordinated {A} (f : Z -> Coordination -> A * Coordination) : ST X (result A string) := fun s =>
  match coordination_begin (snd s) with
  | (Ok now, w) => let '(a, c) := f now (fst s) in (Ok a, (c, w))
  | (Err e, w) => (Err e, (fst s, w))
  end.

(** ** One job *)

(** What the job does, given its key and what triggered it. *)
Variable dispatch : string -> string -> ST X (result value string).

Definition outcome_status (r : result value string) : string :=
  match r with Ok _ => "completed" | Err _ => "failed" end.
Definition outcome_result (r : result value string) : option value :=
  match r with Ok v => Some v | Err _ => None end.
Definition outcome_error (r : result value string) : option string :=
  match r with Ok _ => None | Err e => Some e end.

Definition execute_scheduled_job_once (job : ScheduledJob) (owner trigger : string) : ST X bool :=
  lease ← coordinated (fun now => acquire_job now (sj_key job) (sj_scheduler job) owner JOB_LEASE);
  match lease with
  | Ok (Some lease) =>
      run_id ← coordinated (fun now => start_run now lease trigger);
      match run_id with
      | Err _ =>
          _ ← coordinated (fun _ => release_job lease);
          mret false
      | Ok run_id =>
          execution ← dispatch (sj_key job) trigger;
          _ ← coordinated (fun now => finish_run now run_id (outcome_status execution)
                                        (outcome_result execution) (outcome_error execution));
          _ ← coordinated (fun _ => release_job lease);
          mret true
      end
  | _ => mret false
  end.

(** A discovery that ran is followed by a drain of the buffer. *)
Definition execute_scheduled_sequence (execute : ScheduledJob -> string -> ST X bool) (job : ScheduledJob)
    (trigger : string) : ST X bool :=
  executed ← execute job trigger;
  if (executed : bool) && String.eqb (sj_key job) "auto-ingester:discovery" then
    match find_first (fun candidate => String.eqb (sj_key candidate) "auto-ingester:buffer-drain")
            (scheduled_jobs_for (sj_scheduler job)) with
    | Some buffer_drain => _ ← execute buffer_drain "post-discovery"; mret executed
    | None => mret executed
    end
  else mret executed.

Definition execute_scheduled_job (job : ScheduledJob) (owner trigger : string) : ST X bool :=
  execute_scheduled_sequence (fun step step_trigger => execute_scheduled_job_once step owner step_trigger)
    job trigger.

(** [scheduler_capture_fixture_allowed] is answered by [allowed]. *)
Definition run_scheduler_job_once (allowed : bool) (scheduler_key job_key owner : string) :
    ST X (result bool string) :=
  if negb allowed then mret (Ok false) else
  won <-? coordinated (fun now => acquire_scheduler_owner now scheduler_key owner STARTUP_OWNERSHIP_LEASE);
  if negb won then mret (Ok false) else
  match find_first (fun candidate => String.eqb (sj_key candidate) job_key) (scheduled_jobs_for scheduler_key) with
  | None =>
      _ ← coordinated (fun _ => release_scheduler_owner scheduler_key owner);
      mret (Ok false)
  | Some job =>
      executed ← execute_scheduled_job job owner "capture-once";
      _ ← coordinated (fun _ => release_scheduler_owner scheduler_key owner);
      mret (Ok executed)
  end.
End execution.

(** ** The loop of a domain *)

Inductive SchedulerRuntimeExit := ExitShutdown | OwnershipUnavailable | OwnershipLost.

(** The loop's variables: the minute it last looked at, the jobs it started
    and has not seen end, and why it ended; with the tasks that wait for their
    startup delay. *)
Record HostState := {
  last_started_minute : option Z;
  active : gset string;
  host_exit : option SchedulerRuntimeExit;
  (** Every start of a tick, latest first: the job and the minute. *)
  started : list (string * Z);
  (** The startup tasks that have not begun, those that have, and how many
      discoveries were followed by a drain. *)
  waiting : gset string;
  startups : list string;
  drains : nat;
}.

(** What wakes the loop: the signal, the heartbeat's answer ([None] for one
    that timed out), or the clock, with the jobs found finished; and the tasks
    beside it: a startup task whose delay has passed, and a discovery that ran,
    which begins the drain of the buffer. *)
Inductive HostEvent :=
  | HostShutdown
  | HostHeartbeat (answer : option (result bool string))
  | HostTick (now : Z) (finished : gset string)
  | HostStartup (job : string)
  | HostDiscovered.

Definition retained (answer : option (result bool string)) : bool :=
  match answer with Some (Ok true) => true | _ => false end.

Section domain.
Context `{Calendar}.
Variables (schedules : list ScheduledJob) (lookup : string -> option string).

(** A task is spawned for every job that has a startup delay. *)
Definition startup_jobs : list ScheduledJob :=
  List.filter (fun job => bool_decide (is_Some (startup_delay_seconds job))) schedules.

Definition initial_host : HostState :=
  {| last_started_minute := None; active := ∅; host_exit := None; started := [];
     waiting := list_to_set (map sj_key startup_jobs); startups := []; drains := 0 |}.

Definition minute_slot (now : Z) : Z := now / 60.

Definition host_tick (now : Z) (finished : gset string) (s : HostState) : HostState :=
  let running := active s ∖ finished in
  if bool_decide (last_started_minute s = Some (minute_slot now)) then
    {| last_started_minute := last_started_minute s; active := running; host_exit := host_exit s;
       started := started s; waiting := waiting s; startups := startups s; drains := drains s |}
  else
    let jobs := due_inactive_jobs schedules now lookup running in
    {| last_started_minute := Some (minute_slot now);
       active := running ∪ list_to_set (map sj_key jobs);
       host_exit := host_exit s;
       started := rev (map (fun job => (sj_key job, minute_slot now)) jobs) ++ started s;
       waiting := waiting s; startups := startups s; drains := drains s |}.

Definition host_stop (why : SchedulerRuntimeExit) (s : HostState) : HostState :=
  {| last_started_minute := last_started_minute s; active := active s; host_exit := Some why;
     started := started s; waiting := waiting s; startups := startups s; drains := drains s |}.

Definition host_startup (k : string) (s : HostState) : HostState :=
  if bool_decide (k ∈ waiting s) then
    {| last_started_minute := last_started_minute s; active := active s; host_exit := host_exit s;
       started := started s; waiting := waiting s ∖ {[k]}; startups := k :: startups s; drains := drains s |}
  else s.

(** The executions of a job that were begun by a tick or at startup. *)
Definition executions (k : string) (s : HostState) : nat :=
  length (List.filter (fun x => String.eqb (fst x) k) (started s))
  + length (List.filter (fun x => String.eqb x k) (startups s)).

Definition host_drain (s : HostState) : HostState :=
  if (drains s <? executions "auto-ingester:discovery" s)%nat then
    {| last_started_minute := last_started_minute s; active := active s; host_exit := host_exit s;
       started := started s; waiting := waiting s; startups := startups s; drains := S (drains s) |}
  else s.

(** The tasks: a lost ownership aborts them; a shutdown waits for them, and a
    delay that ends with it may still be over first. *)
Definition aborted (s : HostState) : bool := match host_exit s with Some OwnershipLost => true | _ => false end.

Definition host_step (e : HostEvent) (s : HostState) : HostState :=
  match e, host_exit s with
  | HostStartup job, _ => if aborted s then s else host_startup job s
  | HostDiscovered, _ => if aborted s then s else host_drain s
  | _, Some _ => s
  | HostShutdown, None => host_stop ExitShutdown s
  | HostHeartbeat answer, None => if retained answer then s else host_stop OwnershipLost s
  | HostTick now finished, None => host_tick now finished s
  end.

Definition host_run (events : list HostEvent) : HostState := foldl (fun s e => host_step e s) initial_host events.
End domain.

(** ** The drain of the raw buffer *)

Record BufferBatchResult := { bb_processed : Z; bb_failed : Z; bb_deferred : Z }.
Record BufferDrainTotals := { dt_processed : Z; dt_failed : Z; dt_deferred : Z; dt_batches : nat }.

Definition no_totals : BufferDrainTotals :=
  {| dt_processed := 0; dt_failed := 0; dt_deferred := 0; dt_batches := 0 |}.

Definition sat_add_i32 (x y : Z) : Z := Z.max i32_min (Z.min i32_max (x + y)).

Definition add_batch (r : BufferBatchResult) (t : BufferDrainTotals) : BufferDrainTotals :=
  {| dt_processed := sat_add_i32 (dt_processed t) (bb_processed r);
     dt_failed := sat_add_i32 (dt_failed t) (bb_failed r);
     dt_deferred := sat_add_i32 (dt_deferred t) (bb_deferred r);
     dt_batches := S (dt_batches t) |}.

Definition empty_batch (r : BufferBatchResult) : bool :=
  wrap_i32 (bb_processed r + bb_failed r + bb_deferred r) =? 0.

Section drain.
Context {W E : Type}.
(** The stop flag of the process, and the next batch. *)
Variables (should_stop : ST W bool) (next_batch : ST W (result BufferBatchResult E)).

(** [n] batches are still allowed. *)
Fixpoint drain_batches (n : nat) (t : BufferDrainTotals) : ST W (result BufferDrainTotals E) :=
  stop ← should_stop;
  if (stop : bool) then mret (Ok t) else
  match n with
  | O => mret (Ok t)
  | S n =>
      r <-? next_batch;
      if empty_batch r then mret (Ok t) else
      let t := add_batch r t in
      stop ← should_stop;
      if (stop : bool) then mret (Ok t) else drain_batches n t
  end.

Definition drain_buffer_continuously (max_batches : nat) : ST W (result BufferDrainTotals E) :=
  drain_batches max_batches no_totals.
End drain.

(** [value.clamp(1, 1)]. *)
Definition clamp (lo hi z : Z) : Z := Z.max lo (Z.min hi z).

Definition usize_max : Z := u64_max.
Definition parse_usize : string -> option Z := parse_unsigned usize_max.

Definition bounded_buffer_drain_max_batches (value : option Z) : Z := clamp 1 1 (default 1 value).

Definition buffer_drain_max_batches_per_run (env : string -> option string) : Z :=
  bounded_buffer_drain_max_batches
    (or_else (s ← env "BUFFER_DRAIN_MAX_BATCHES_PER_RUN"; parse_usize s)
       (s ← env "RUST_BUFFER_DRAIN_MAX_BATCHES"; parse_usize s)).

Definition buffer_drain_batch_size (env : string -> option string) : Z :=
  clamp 1 8 (default 8 (s ← env "BUFFER_DRAIN_BATCH_SIZE"; parse_usize s)).

Definition auto_ingester_presence_source (trigger : string) : string :=
  if String.eqb trigger "cron" then "auto-ingester-cron"
  else if String.eqb trigger "startup" then "auto-ingester-startup"
  else if String.eqb trigger "capture-once" then "auto-ingester-cron"
  else "auto-ingester".

(** ** The budget of the profile enrichment *)

Definition profile_enrichment_max_calls (env : string -> option string) : Z :=
  clamp 1 500 (default 100 (s ← env "PLAYER_ACTIVITY_PROFILE_MAX_CALLS_PER_RUN"; parse_usize s)).

Definition api_key_reserve_calls (env : string -> option string) : Z :=
  default 100 (s ← env "API_KEY_RESERVE_CALLS"; n ← parse_i32 s; if 0 <=? n then Some n else None).

(** * Properties of the scheduler host

    A job's execution leaves its run closed and its lease released, a domain
    starts each job by its ticks at most once in a minute and never beside an
    earlier start that it has not seen end, and a drain is bounded. *)

(** ** One job *)

Section execution.
Context {W : Type} `{CoordinationDb W}.
Abbreviation X := (Coordination * W)%type.
Variable dispatch : string -> string -> ST X (result value string).

Definition run_of (id : Z) (x : X) : option RunRow := run_log (fst x) !! id.
Definition lease_of (job : string) (x : X) : option JobRow := jobs (fst x) !! job.

(** The body of a job may do anything but write its own run and lease: these
    belong to the execution. *)
Definition leaves_own_run (job trigger : string) : Prop :=
  forall id x, run_of id (snd (dispatch job trigger x)) = run_of id x /\
               lease_of job (snd (dispatch job trigger x)) = lease_of job x.

(** The database answers every statement. *)
Definition answering : Prop := forall w, is_ok (fst (coordination_begin w)) = true.

Lemma coordinated_ok {A} (f : Z -> Coordination -> A * Coordination) (x : X) :
  answering -> exists now w, coordinated f x = (Ok (fst (f now (fst x))), (snd (f now (fst x)), w)).
Proof.
  intros Ha. specialize (Ha (snd x)). unfold coordinated.
  destruct (coordination_begin (snd x)) as [[now|e] w]; [|done]. exists now, w. by destruct (f now (fst x)).
Qed.

(** What the start of a run and its end do to the log. *)
Lemma start_run_row now lease trigger c :
  run_log (snd (start_run now lease trigger c)) !! fst (start_run now lease trigger c) =
    Some {| run_job := lease_job_key lease; run_scheduler := lease_scheduler_key lease;
            run_owner := lease_owner_id lease; run_trigger := trigger; run_status := "running";
            run_started_at := now; run_completed_at := None; run_duration_ms := None;
            run_result := None; run_error := None |}.
Proof. unfold start_run. simpl. apply lookup_insert_eq. Qed.

Lemma start_run_jobs now lease trigger c : jobs (snd (start_run now lease trigger c)) = jobs c.
Proof. done. Qed.

Lemma finish_run_jobs now id st res e c : jobs (snd (finish_run now id st res e c)) = jobs c.
Proof. unfold finish_run. by repeat case_match. Qed.

Lemma acquire_job_won now job scheduler owner secs c lease c' :
  acquire_job now job scheduler owner secs c = (Some lease, c') ->
  lease = {| lease_job_key := job; lease_scheduler_key := scheduler; lease_owner_id := owner |} /\
  exists j, jobs c' !! job = Some j /\ job_scheduler j = scheduler /\ job_owner j = owner.
Proof.
  unfold acquire_job. destruct (owns_scheduler _ _ _ _); [|done].
  destruct (jobs c !! job) as [j|]; [destruct (job_held _ _ _); [done|]|];
    intros [= <- <-]; simpl; (split; [done|]); eexists; by rewrite lookup_insert_eq.
Qed.

Lemma acquire_job_lost now job scheduler owner secs c c' :
  acquire_job now job scheduler owner secs c = (None, c') -> c' = c.
Proof.
  unfold acquire_job. destruct (owns_scheduler _ _ _ _); [|by intros [= <-]].
  destruct (jobs c !! job) as [j|]; [destruct (job_held _ _ _)|]; [by intros [= <-]|done..].
Qed.

Lemma acquire_job_next now job scheduler owner secs c :
  next_run (snd (acquire_job now job scheduler owner secs c)) = next_run c.
Proof. unfold acquire_job. by repeat case_match. Qed.

Lemma finish_run_row now id outcome c r :
  run_log c !! id = Some r -> run_status r = "running" ->
  exists r', run_log (snd (finish_run now id (outcome_status outcome) (outcome_result outcome)
                             (outcome_error outcome) c)) !! id = Some r' /\
    run_job r' = run_job r /\ run_scheduler r' = run_scheduler r /\ run_owner r' = run_owner r /\
    run_trigger r' = run_trigger r /\ run_status r' = outcome_status outcome /\
    run_result r' = outcome_result outcome /\ run_error r' = outcome_error outcome /\
    is_Some (run_completed_at r').
Proof.
  intros Hr Hs. unfold finish_run. rewrite Hr, Hs. simpl. eexists. split; [apply lookup_insert_eq|].
  simpl. by split_and!.
Qed.

Lemma release_own lease c j :
  jobs c !! lease_job_key lease = Some j -> job_scheduler j = lease_scheduler_key lease ->
  job_owner j = lease_owner_id lease ->
  jobs (snd (release_job lease c)) !! lease_job_key lease = None /\
  run_log (snd (release_job lease c)) = run_log c.
Proof.
  intros Hj Hs Ho. unfold release_job. rewrite Hj, Hs, Ho, !String.eqb_refl. simpl.
  by rewrite lookup_delete_eq.
Qed.

(** A closed run of the job, as the outcome of its body was. *)
Definition closed_run (job : ScheduledJob) (owner trigger : string) (r : RunRow) : Prop :=
  exists (outcome : result value string),
    run_job r = sj_key job /\ run_scheduler r = sj_scheduler job /\ run_owner r = owner /\
    run_trigger r = trigger /\ run_status r = outcome_status outcome /\
    run_result r = outcome_result outcome /\ run_error r = outcome_error outcome /\
    is_Some (run_completed_at r).

(** A job that is executed leaves a closed run and no lease.  When the
    database answers and the job's body leaves its own run and lease alone, an
    execution that reports that it ran has put a run of the job in the log,
    with its trigger, completed or failed as the body ended and with its result
    or its error, and the job's lease is gone; one that reports that it did not
    run has left the run log and the leases as they were. *)
Lemma execution_closes_run job owner trigger x :
  answering -> leaves_own_run (sj_key job) trigger ->
  let '(executed, x') := execute_scheduled_job_once dispatch job owner trigger x in
  if executed : bool then
    lease_of (sj_key job) x' = None /\ exists r, run_of (next_run (fst x)) x' = Some r /\ closed_run job owner trigger r
  else run_log (fst x') = run_log (fst x) /\ jobs (fst x') = jobs (fst x).
Proof.
  intros Ha Hd. unfold execute_scheduled_job_once, mbind, ST_bind.
  destruct (coordinated_ok (fun now => acquire_job now (sj_key job) (sj_scheduler job) owner JOB_LEASE) x Ha)
    as (n1 & w1 & ->).
  pose proof (acquire_job_next n1 (sj_key job) (sj_scheduler job) owner JOB_LEASE (fst x)) as Hn.
  destruct (acquire_job n1 (sj_key job) (sj_scheduler job) owner JOB_LEASE (fst x)) as [[lease|] c1] eqn:Eq;
    simpl in Hn |- *; [|by apply acquire_job_lost in Eq as ->].
  apply acquire_job_won in Eq as [-> (j & Hj & Hs & Ho)].
  set (lease := {| lease_job_key := sj_key job; lease_scheduler_key := sj_scheduler job; lease_owner_id := owner |}).
  destruct (coordinated_ok (fun now => start_run now lease trigger) (c1, w1) Ha) as (n2 & w2 & ->).
  pose proof (start_run_row n2 lease trigger c1) as Hrun. cbn [fst snd].
  change (fst (start_run n2 lease trigger c1)) with (next_run c1) in *. rewrite Hn in *.
  set (c2 := snd (start_run n2 lease trigger c1)) in *.
  destruct (Hd (next_run (fst x)) (c2, w2)) as [Hr3 Hj3].
  destruct (dispatch (sj_key job) trigger (c2, w2)) as [outcome x3].
  unfold run_of, lease_of in Hr3, Hj3. cbn [fst snd] in Hr3, Hj3. rewrite Hrun in Hr3.
  destruct (coordinated_ok (fun now => finish_run now (next_run (fst x)) (outcome_status outcome)
              (outcome_result outcome) (outcome_error outcome)) x3 Ha) as (n4 & w4 & ->).
  destruct (finish_run_row n4 _ outcome _ _ Hr3 eq_refl) as (r & Hr4 & Hc).
  pose proof (finish_run_jobs n4 (next_run (fst x)) (outcome_status outcome) (outcome_result outcome)
    (outcome_error outcome) (fst x3)) as Hj4.
  set (c4 := snd (finish_run n4 _ _ _ _ _)) in *. cbn [fst snd].
  destruct (coordinated_ok (fun _ => release_job lease) (c4, w4) Ha) as (n5 & w5 & ->).
  destruct (release_own lease c4 j) as [Hrel Hlog]; [by rewrite Hj4; simpl; rewrite Hj3|done|done|].
  unfold lease_of, run_of, mret, ST_ret. cbn [fst snd]. rewrite Hlog. split; [exact Hrel|]. exists r. split; [exact Hr4|].
  exists outcome. exact Hc.
Qed.
End execution.

(** ** The loop of a domain *)

Section domain.
Context `{Calendar}.
Variables (schedules : list ScheduledJob) (lookup : string -> option string).
Abbreviation run events := (host_run schedules lookup events).
Abbreviation step := (host_step schedules lookup).

Definition tick_time (e : HostEvent) : option Z := match e with HostTick now _ => Some now | _ => None end.

(** The clock does not go back between two ticks. *)
Definition clock_advances (events : list HostEvent) : Prop := StronglySorted Z.le (omap tick_time events).

(** The ticks at which a job was seen to have ended. *)
Definition ended (k : string) (e : HostEvent) : bool :=
  match e with HostTick _ finished => bool_decide (k ∈ finished) | _ => false end.
Definition ends_of (k : string) (events : list HostEvent) : nat := length (List.filter (ended k) events).

Definition starts_of (k : string) (s : HostState) : nat :=
  length (List.filter (fun x => String.eqb (fst x) k) (started s)).

Lemma run_snoc events e : run (events ++ [e]) = step e (run events).
Proof. unfold host_run. by rewrite foldl_app. Qed.

(** A step that is not a new minute starts nothing. *)
Lemma step_cases e s :
  (started (step e s) = started s /\ last_started_minute (step e s) = last_started_minute s /\
   forall k, k ∈ active s -> k ∈ active (step e s) \/ ended k e = true) \/
  exists now finished, e = HostTick now finished /\ host_exit s = None /\
    last_started_minute s <> Some (minute_slot now) /\ step e s = host_tick schedules lookup now finished s.
Proof.
  unfold host_step. destruct e as [|answer|now finished|job|].
  4, 5: left; destruct (aborted s); [by split_and!; auto|unfold host_startup, host_drain; case_match; by split_and!; auto].
  all: destruct (host_exit s) eqn:Hx; [left; by split_and!; auto|].
  1: left; by split_and!; auto.
  1: left; destruct (retained answer); by split_and!; auto.
  destruct (decide (last_started_minute s = Some (minute_slot now))) as [E|E].
  - left. unfold host_tick. rewrite bool_decide_eq_true_2 by done. simpl. split_and!; [done|done|].
    intros k Hk. destruct (decide (k ∈ finished)); [right; by apply bool_decide_eq_true|left; set_solver].
  - right. by exists now, finished.
Qed.

Lemma tick_new now finished s :
  last_started_minute s <> Some (minute_slot now) ->
  let jobs := due_inactive_jobs schedules now lookup (active s ∖ finished) in
  started (host_tick schedules lookup now finished s) = rev (map (fun job => (sj_key job, minute_slot now)) jobs) ++ started s /\
  last_started_minute (host_tick schedules lookup now finished s) = Some (minute_slot now) /\
  active (host_tick schedules lookup now finished s) = (active s ∖ finished) ∪ list_to_set (map sj_key jobs).
Proof. intros E. unfold host_tick. by rewrite bool_decide_eq_false_2. Qed.

Lemma due_inactive_elem now running job :
  job ∈ due_inactive_jobs schedules now lookup running <->
  job ∈ schedules /\ scheduler_job_is_due_with job now lookup = true /\ sj_key job ∉ running.
Proof.
  unfold due_inactive_jobs. rewrite list_elem_of_In, filter_In, <- list_elem_of_In.
  rewrite andb_true_iff, negb_true_iff, bool_decide_eq_false. tauto.
Qed.

(** *** What the log of starts says *)

(** Every start is of a job of the domain, at a tick at which it was due. *)
Definition due_start (events : list HostEvent) (x : string * Z) : Prop :=
  exists job now finished, job ∈ schedules /\ sj_key job = fst x /\ minute_slot now = snd x /\
    HostTick now finished ∈ events /\ scheduler_job_is_due_with job now lookup = true.

Lemma starts_due events x : x ∈ started (run events) -> due_start events x.
Proof.
  induction events as [|e events IH] using rev_ind; [by intros ?%elem_of_nil|]. rewrite run_snoc.
  assert (due_start events x -> due_start (events ++ [e]) x) as Hmono.
  { intros (job & now & fin & ? & ? & ? & He & ?). exists job, now, fin. split_and!; try done.
    apply elem_of_app. by left. }
  destruct (step_cases e (run events)) as [(-> & _)|(now & fin & -> & _ & Hl & ->)]; [auto|].
  destruct (tick_new now fin (run events) Hl) as (-> & _ & _).
  intros [Hx|Hx]%elem_of_app; [|auto]. rewrite list_elem_of_In, <- in_rev in Hx.
  apply in_map_iff in Hx as (job & <- & Hj). apply list_elem_of_In, due_inactive_elem in Hj as (Hs & Hd & _).
  exists job, now, fin. split_and!; try done. apply elem_of_app. right. by apply list_elem_of_here.
Qed.

(** The last minute looked at is the latest one started in, and no later than
    the last tick. *)
Lemma slots_bounded events :
  clock_advances events ->
  match last_started_minute (run events) with
  | None => started (run events) = []
  | Some m => (forall x, x ∈ started (run events) -> snd x <= m) /\
              exists now, now ∈ omap tick_time events /\ minute_slot now = m
  end.
Proof.
  unfold clock_advances. induction events as [|e events IH] using rev_ind; [done|]. rewrite omap_app. intros Hc.
  apply sorting.StronglySorted_app in Hc as (Hle & Hc & _). specialize (IH Hc). rewrite run_snoc.
  destruct (step_cases e (run events)) as [(-> & -> & _)|(now & fin & -> & _ & Hl & ->)].
  - destruct (last_started_minute (run events)) as [m|]; [|done]. destruct IH as [Hm (now & Hn & Hs)].
    split; [done|]. exists now. split; [apply elem_of_app; by left|done].
  - destruct (tick_new now fin (run events) Hl) as (-> & -> & _). split.
    + intros x [Hx|Hx]%elem_of_app.
      * rewrite list_elem_of_In, <- in_rev in Hx. apply in_map_iff in Hx as (job & <- & _). done.
      * destruct (last_started_minute (run events)) as [m|]; [|rewrite IH in Hx; by apply elem_of_nil in Hx].
        destruct IH as [Hm (now' & Hn & Hs)]. specialize (Hm x Hx).
        assert (now' <= now) as Hnn.
        { apply (Hle now'); [done|]. simpl. by apply list_elem_of_here. }
        unfold minute_slot in *. pose proof (Z.div_le_mono now' now 60). lia.
    + exists now. split; [|done]. apply elem_of_app. right. simpl. by apply list_elem_of_here.
Qed.

Lemma new_minute_later events now fin x :
  clock_advances (events ++ [HostTick now fin]) ->
  last_started_minute (run events) <> Some (minute_slot now) ->
  x ∈ started (run events) -> snd x < minute_slot now.
Proof.
  unfold clock_advances. rewrite omap_app. intros (Hle & Hc & _)%sorting.StronglySorted_app Hl Hx.
  apply slots_bounded in Hc. destruct (last_started_minute (run events)) as [m|].
  - destruct Hc as [Hm (now' & Hn & Hs)]. specialize (Hm x Hx).
    assert (now' <= now) as Hnn by (apply (Hle now'); [done|]; simpl; by apply list_elem_of_here).
    unfold minute_slot in *. pose proof (Z.div_le_mono now' now 60).
    assert (m <> now / 60) by congruence. lia.
  - rewrite Hc in Hx. by apply elem_of_nil in Hx.
Qed.

Lemma advances_prefix events e : clock_advances (events ++ [e]) -> clock_advances events.
Proof. unfold clock_advances. rewrite omap_app. by intros (_ & Hc & _)%sorting.StronglySorted_app. Qed.

Lemma NoDup_map_key {A} (f : A -> string) m l : NoDup (map f l) -> NoDup (map (fun a => (f a, m : Z)) l).
Proof.
  induction l as [|a l IH]; simpl; [constructor|]. intros [Hn Hd]%NoDup_cons. constructor; [|by apply IH].
  intros Hin. apply Hn. apply list_elem_of_In in Hin. apply in_map_iff in Hin as (b & [= E] & Hb). rewrite <- E.
  by apply list_elem_of_In, in_map.
Qed.

Lemma due_inactive_keys now running :
  NoDup (map sj_key schedules) -> NoDup (map sj_key (due_inactive_jobs schedules now lookup running)).
Proof.
  intros Hd. unfold due_inactive_jobs.
  induction schedules as [|job jobs IH]; simpl; [constructor|]. apply NoDup_cons in Hd as [Hn Hd].
  destruct (_ && _); simpl; [|by apply IH]. constructor; [|by apply IH]. intros Hin. apply Hn.
  apply list_elem_of_In in Hin. apply in_map_iff in Hin as (j & <- & Hj). apply filter_In in Hj as [Hj _].
  by apply list_elem_of_In, in_map.
Qed.

Lemma starts_nodup events :
  NoDup (map sj_key schedules) -> clock_advances events -> NoDup (started (run events)).
Proof.
  intros Hd. induction events as [|e events IH] using rev_ind; intros Hc; [constructor|].
  pose proof (advances_prefix _ _ Hc) as Hc'. rewrite run_snoc.
  destruct (step_cases e (run events)) as [(-> & _)|(now & fin & -> & _ & Hl & ->)]; [by apply IH|].
  destruct (tick_new now fin (run events) Hl) as (-> & _ & _). apply NoDup_app. split_and!.
  - apply NoDup_ListNoDup, NoDup_rev, NoDup_ListNoDup. by apply NoDup_map_key, due_inactive_keys.
  - intros x Hx Hold. rewrite list_elem_of_In, <- in_rev in Hx. apply in_map_iff in Hx as (job & <- & _).
    pose proof (new_minute_later events now fin _ Hc Hl Hold). simpl in *. lia.
  - by apply IH.
Qed.

Lemma filter_key_length k l :
  NoDup l -> length (List.filter (fun x => String.eqb x k) l) = if bool_decide (k ∈ l) then 1%nat else 0%nat.
Proof.
  induction l as [|x l IH]; intros Hd; [by rewrite bool_decide_eq_false_2 by set_solver|].
  apply NoDup_cons in Hd as [Hx Hd]. simpl. specialize (IH Hd). destruct (String.eqb_spec x k) as [->|Hne]; simpl.
  - rewrite IH, bool_decide_eq_false_2, bool_decide_eq_true_2 by set_solver. done.
  - rewrite IH. by rewrite (bool_decide_ext (k ∈ l) (k ∈ x :: l)) by set_solver.
Qed.

(** The starts of a job among those of one tick. *)
Lemma new_starts k m now running :
  NoDup (map sj_key schedules) ->
  let jobs := due_inactive_jobs schedules now lookup running in
  length (List.filter (fun x => String.eqb (fst x) k) (rev (map (fun job => (sj_key job, m : Z)) jobs)))
  = if bool_decide (k ∈ map sj_key jobs) then 1%nat else 0%nat.
Proof.
  intros Hd jobs. rewrite filter_rev, length_rev. rewrite <- filter_key_length by (by apply due_inactive_keys).
  clear. induction jobs as [|job jobs IH]; [done|]. simpl. destruct (String.eqb (sj_key job) k); simpl; by rewrite IH.
Qed.

(** A job starts only where its earlier start was seen to end. *)
Lemma starts_ended k events :
  NoDup (map sj_key schedules) ->
  (starts_of k (run events) <= ends_of k events + (if bool_decide (k ∈ active (run events)) then 1 else 0))%nat.
Proof.
  intros Hd. induction events as [|e events IH] using rev_ind; [by rewrite bool_decide_eq_false_2 by set_solver|].
  assert (ends_of k (events ++ [e]) = ends_of k events + (if ended k e then 1 else 0))%nat as Hends
    by (unfold ends_of; rewrite List.filter_app, length_app; simpl; destruct (ended k e); simpl; lia).
  rewrite run_snoc, Hends. unfold starts_of in *.
  destruct (step_cases e (run events)) as [(-> & _ & Ha)|(now & fin & -> & _ & Hl & ->)].
  - specialize (Ha k). destruct (ended k e); repeat case_bool_decide; try lia.
    destruct Ha as [?|?]; done.
  - destruct (tick_new now fin (run events) Hl) as (-> & _ & ->).
    rewrite List.filter_app, length_app, new_starts by done. simpl.
    set (keys := map sj_key (due_inactive_jobs schedules now lookup (active (run events) ∖ fin))).
    assert (k ∈ keys -> k ∉ active (run events) ∖ fin) as Hnew.
    { intros Hk. apply list_elem_of_In in Hk. apply in_map_iff in Hk as (job & <- & Hj).
      by apply list_elem_of_In, due_inactive_elem in Hj as (_ & _ & ?). }
    repeat case_bool_decide; try lia; set_solver.
Qed.

(** *** The tasks beside the loop *)

(** What a step does to the startup tasks and the drains. *)
Lemma step_tasks e s :
  startups (step e s) = startups s /\ waiting (step e s) = waiting s /\
    ((drains (step e s) <= drains s)%nat \/ (drains (step e s) <= executions "auto-ingester:discovery" s)%nat)
  \/ exists k, k ∈ waiting s /\ startups (step e s) = k :: startups s /\ waiting (step e s) = waiting s ∖ {[k]} /\ drains (step e s) = drains s.
Proof.
  unfold host_step. destruct e as [|answer|now finished|job|]; try destruct (host_exit s); try (left; by auto).
  all: try (destruct (retained answer); left; by auto).
  all: try (unfold host_tick; case_bool_decide; left; by auto).
  all: destruct (aborted s); [left; by auto|]; unfold host_startup, host_drain.
  all: try (case_bool_decide; [|left; by auto]; right; by exists job).
  all: destruct (Nat.ltb_spec (drains s) (executions "auto-ingester:discovery" s)); left; simpl; split_and!; [done..|right; lia|done|done|auto].
Qed.

(** A startup task begins once, and none that is still waiting has begun. *)
Lemma startups_once events :
  NoDup (startups (run events)) /\
  (forall k, k ∈ startups (run events) -> k ∈ map sj_key (startup_jobs schedules) /\ k ∉ waiting (run events)) /\
  (forall k, k ∈ waiting (run events) -> k ∈ map sj_key (startup_jobs schedules)).
Proof.
  induction events as [|e events IH] using rev_ind.
  - split_and!; [constructor|by intros k ?%elem_of_nil|]. intros k. simpl. by rewrite elem_of_list_to_set.
  - destruct IH as (Hd & Hs & Hw). rewrite run_snoc.
    destruct (step_tasks e (run events)) as [(-> & -> & _)|(k & Hk & -> & -> & _)]; [done|]. split_and!.
    + apply NoDup_cons. split; [|done]. intros Hin. by apply Hs in Hin as [_ ?].
    + intros j [-> |Hj]%elem_of_cons; [split; [by apply Hw|set_solver]|]. destruct (Hs j Hj). split; [done|set_solver].
    + intros j Hj. apply Hw. set_solver.
Qed.

Lemma executions_grow k e s : (executions k s <= executions k (step e s))%nat.
Proof.
  unfold executions. destruct (step_cases e s) as [(-> & _)|(now & fin & -> & _ & Hl & ->)].
  - destruct (step_tasks e s) as [(-> & _)|(j & _ & -> & _)]; [done|]. simpl. destruct (String.eqb j k); simpl; lia.
  - destruct (tick_new now fin s Hl) as (-> & _). rewrite List.filter_app, length_app.
    unfold host_tick. rewrite bool_decide_eq_false_2 by done. simpl. lia.
Qed.

Lemma drains_bounded events : (drains (run events) <= executions "auto-ingester:discovery" (run events))%nat.
Proof.
  induction events as [|e events IH] using rev_ind; [simpl; lia|]. rewrite run_snoc.
  pose proof (executions_grow "auto-ingester:discovery" e (run events)).
  destruct (step_tasks e (run events)) as [(_ & _ & [?|?])|(k & _ & _ & _ & ->)]; lia.
Qed.

(** C24. As long as the clock does not go back between two ticks, whatever wakes
    the loop: every start in the log of the ticks is of a job of the domain, in
    a minute in which a tick found it due; no start occurs twice, so a tick
    starts a job at most once in a minute; and the ticks have started a job at
    most once more than they saw it end.  Beside the ticks a job is executed at
    startup at most once, and only if it has a startup delay, and the buffer is
    drained at most once for each discovery that was begun. *)
Theorem domain_starts events k :
  NoDup (map sj_key schedules) -> clock_advances events ->
  NoDup (started (run events)) /\
  (forall x, x ∈ started (run events) -> due_start events x) /\
  (starts_of k (run events) <= S (ends_of k events))%nat /\
  NoDup (startups (run events)) /\
  (k ∈ startups (run events) -> exists job, job ∈ schedules /\ sj_key job = k /\ is_Some (startup_delay_seconds job)) /\
  (drains (run events) <= executions "auto-ingester:discovery" (run events))%nat.
Proof.
  intros Hd Hc. destruct (startups_once events) as (Hn & Hs & _).
  split_and!; [by apply starts_nodup|apply starts_due| |done| |apply drains_bounded].
  - pose proof (starts_ended k events Hd). case_bool_decide; lia.
  - intros [Hk _]%Hs. apply list_elem_of_In, in_map_iff in Hk as (job & <- & Hj). unfold startup_jobs in Hj.
    apply filter_In in Hj as [Hj Hst]. apply bool_decide_eq_true in Hst. exists job. by rewrite list_elem_of_In.
Qed.

(** A due job starts.  At the first tick of a minute every job of the
    domain that is due and not still running is started, unless the loop has
    ended. *)
Theorem due_job_starts events now fin job :
  clock_advances (events ++ [HostTick now fin]) -> host_exit (run events) = None ->
  (forall earlier, earlier ∈ omap tick_time events -> minute_slot earlier <> minute_slot now) ->
  job ∈ schedules -> scheduler_job_is_due_with job now lookup = true ->
  sj_key job ∉ active (run events) ∖ fin ->
  (sj_key job, minute_slot now) ∈ started (run (events ++ [HostTick now fin])) /\
  sj_key job ∈ active (run (events ++ [HostTick now fin])).
Proof.
  intros Hc Hx Hfirst Hj Hdue Hidle.
  assert (last_started_minute (run events) <> Some (minute_slot now)) as Hl.
  { pose proof (slots_bounded events (advances_prefix _ _ Hc)) as Hs. intros E. rewrite E in Hs.
    destruct Hs as [_ (t & Ht & Hm)]. by apply (Hfirst t). }
  assert (job ∈ due_inactive_jobs schedules now lookup (active (run events) ∖ fin)) as Hin
    by (by apply due_inactive_elem).
  rewrite run_snoc. unfold host_step. rewrite Hx. destruct (tick_new now fin (run events) Hl) as (-> & _ & ->). split.
  - apply elem_of_app. left. rewrite list_elem_of_In, <- in_rev. apply in_map_iff. exists job.
    split; [done|]. by apply list_elem_of_In.
  - apply elem_of_union. right. apply elem_of_list_to_set, list_elem_of_In, in_map. by apply list_elem_of_In.
Qed.
End domain.
