(* ===== verification/Outage.v ===== *)
(** * Provider outage telemetry (backend-rust/src/workers/outage.rs)

    Which error messages mean that a provider service is down, and the one row
    per service that records it. *)

From S2P Require Import Prelude Json HourlyIngest.

Definition MATCH_DETAIL_SERVICE_OUTAGE_KEY : string := "match_detail_server_regions".

(** ** Classification *)

(** The case folding of the regex crate's [(?i)] on the letters the patterns
    use: ASCII letters, and the two code points beyond ASCII that fold to
    them, U+017F (long s) and U+212A (Kelvin sign). *)
Fixpoint fold_case (s : string) : string :=
  match s with
  | EmptyString => EmptyString
  | String a r =>
      match r with
      | String b r2 =>
          if (byte_of a =? 197) && (byte_of b =? 191) then String "s" (fold_case r2) else
          match r2 with
          | String c r3 =>
              if (byte_of a =? 226) && (byte_of b =? 132) && (byte_of c =? 170)
              then String "k" (fold_case r3) else String (ascii_lower a) (fold_case r)
          | EmptyString => String (ascii_lower a) (fold_case r)
          end
      | EmptyString => String (ascii_lower a) EmptyString
      end
  end.

(** [Regex::new("(?i)p1|p2|...").is_match]: the patterns are literal texts. *)
Definition matches_any (patterns : list string) (message : string) : bool :=
  existsb (fun p => contains (fold_case p) (fold_case message)) patterns.

Record HirezServiceOutageClassification := {
  oc_service_key : string; oc_code : string; oc_title : string; oc_severity : string;
  oc_reason : string; oc_public_message : string;
}.

Definition classify_hirez_service_outage_message (message : string) :
    option HirezServiceOutageClassification :=
  if is_empty (trim message) then None
  else if matches_any ["Server_Regions"; "##sql_paladins_api"; "Invalid object name"] message then
    Some {| oc_service_key := MATCH_DETAIL_SERVICE_OUTAGE_KEY; oc_code := "HIREZ_DETAIL_SERVER_REGIONS";
            oc_title := "Hi-Rez match detail outage"; oc_severity := "critical"; oc_reason := message;
            oc_public_message := "Hi-Rez match detail endpoints are returning a server-side error. Ranked match backfill is being held to one safe probe until service recovers." |}
  else if matches_any ["maintenance"; "temporarily unavailable"; "service unavailable";
                       "API temporarily unavailable"; "HTTP 503"] message then
    Some {| oc_service_key := "hirez_api_service_unavailable"; oc_code := "HIREZ_SERVICE_UNAVAILABLE";
            oc_title := "Hi-Rez API service degraded"; oc_severity := "warning"; oc_reason := message;
            oc_public_message := "Hi-Rez API is reporting temporary service issues. Live lookups may be delayed while PaladinsCat keeps using local data." |}
  else None.

(** ** The table *)

Record OutageRow := {
  out_status : string;
  out_reason : option string;
  out_first_detected_at : Z;
  out_last_detected_at : option Z;
  out_next_probe_at : option Z;
  out_probe_count : Z;
  out_last_success_at : option Z;
  out_updated_at : Z;
}.

Abbreviation outage_table := (gmap string OutageRow).

(** [env_i32(...).max(15)] is the default of [retry]. *)
Definition retry_default (probe_minutes : Z) (retry : option Z) : Z :=
  match retry with Some m => m | None => Z.max probe_minutes 15 end.

Definition record_hirez_service_outage (now probe_minutes : Z) (key reason : string) (retry : option Z)
    (t : outage_table) : outage_table :=
  let next := Some (now + minutes (retry_default probe_minutes retry)) in
  let old := t !! key in
  <[key := {| out_status := "active"; out_reason := Some reason;
              out_first_detected_at := match old with Some r => out_first_detected_at r | None => now end;
              out_last_detected_at := Some now; out_next_probe_at := next;
              out_probe_count := match old with Some r => out_probe_count r + 1 | None => 1 end;
              out_last_success_at := old ≫= out_last_success_at; out_updated_at := now |}]> t.

Definition mark_hirez_service_recovered (now : Z) (key : string) (reason : option string)
    (t : outage_table) : outage_table :=
  match t !! key with
  | Some r =>
      if String.eqb (out_status r) "active" then
        <[key := {| out_status := "recovered";
                    out_reason := Some (default "authoritative detail response returned" reason);
                    out_first_detected_at := out_first_detected_at r;
                    out_last_detected_at := out_last_detected_at r; out_next_probe_at := None;
                    out_probe_count := out_probe_count r; out_last_success_at := Some now;
                    out_updated_at := now |}]> t
      else t
  | None => t
  end.

Definition active_hirez_service_outage (key : string) (t : outage_table) : option OutageRow :=
  match t !! key with
  | Some r => if String.eqb (out_status r) "active" then Some r else None
  | None => None
  end.

Section probe.
(** [OffsetDateTime::parse(text, &Rfc3339)], in the clock's units. *)
Variable parse_rfc3339 : string -> option Z.

Definition is_hirez_service_outage_probe_due (next_probe_at : option (option string)) (now : Z) : bool :=
  match next_probe_at with
  | None => false
  | Some None => true
  | Some (Some next) => match parse_rfc3339 next with Some t => t <=? now | None => true end
  end.
End probe.

Example detail_outage : oc_service_key <$> classify_hirez_service_outage_message
    "HirezRelay getMatchDetailsBatch failed: invalid OBJECT name '#Server_Regions'"
  = Some MATCH_DETAIL_SERVICE_OUTAGE_KEY.
Proof. vm_compute. reflexivity. Qed.
