(* ===== verification/Pipeline.v ===== *)
(** * The canonical ingest pipeline (backend-rust/src/workers/pipeline.rs)

    One queue-hour: claim it, search the provider once or read the ids already
    stored, drain every match of it in protocol batches of ten, close it.  The
    database is the tables of HourlyIngest and Lifecycle; each statement is run
    at an instant the database answers, or fails.  Relay, fact store and
    projections are interfaces that may also change the tables, as other
    processes do meanwhile.  The matches of one resume window run concurrently
    in the code; they are taken here in the order of the window. *)

From S2P Require Import Prelude Json Lifecycle HourlyIngest Outage.

Definition MATCH_DETAIL_PROTOCOL_BATCH_SIZE : nat := 10.

(** ** Errors and results *)

Inductive WorkerRelayError :=
  | RelayClient (message : string)
  | RelayTransport (message : string)
  | RelayOperation (operation message : string)
  | RelayMissingResult (operation : string)
  | RelayInvalidPlayerBatch (count : nat).

Definition worker_relay_error_to_string (e : WorkerRelayError) : string :=
  match e with
  | RelayClient m => "failed to construct HirezRelay HTTP client: " +:+ m
  | RelayTransport m => "HirezRelay transport failed: " +:+ m
  | RelayOperation op m => "HirezRelay " +:+ op +:+ " failed: " +:+ m
  | RelayMissingResult op => "HirezRelay " +:+ op +:+ " returned no result"
  | RelayInvalidPlayerBatch n =>
      "getPlayerBatch accepts at most 20 unique positive player IDs; received " +:+ pretty n
  end.

Inductive PipelineError :=
  | PipelineDatabase (message : string)
  | PipelineRelay (e : WorkerRelayError)
  | PipelineFacts (message : string)
  | PipelineTerminalFacts (match_id : Z) (reason : string).

Definition pipeline_error_to_string (e : PipelineError) : string :=
  match e with
  | PipelineDatabase m => m
  | PipelineRelay e => worker_relay_error_to_string e
  | PipelineFacts m => "match fact finalization failed: " +:+ m
  | PipelineTerminalFacts id reason => "match " +:+ pretty id +:+ " is terminally unavailable: " +:+ reason
  end.

Inductive MatchFactError :=
  | FactDatabase (message : string)
  | FactQuery (message : string)
  | InvalidPayload (message : string)
  | FactPopulationConflict (match_id : Z) (existing incoming : string)
  | FactQueueConflict (match_id existing incoming : Z).

Definition match_fact_error_to_string (e : MatchFactError) : string :=
  match e with
  | FactDatabase m | FactQuery m => m
  | InvalidPayload m => "invalid canonical match payload: " +:+ m
  | FactPopulationConflict id existing incoming =>
      "match " +:+ pretty id +:+ " was already classified as " +:+ existing
      +:+ "; refusing fact population " +:+ incoming
  | FactQueueConflict id existing incoming =>
      "match " +:+ pretty id +:+ " was already assigned queue " +:+ pretty existing
      +:+ "; refusing fact queue " +:+ pretty incoming
  end.

Record DiscoveryResult := {
  dr_queue_id : Z; dr_date : string; dr_hour : Z;
  dr_discovered : nat; dr_skipped : nat; dr_completed : nat; dr_empty : bool;
}.

Record MatchDrainProgress := {
  claimed_raw_match_count : option Z;
  checkpointed_ids : gset Z;
}.

Record CanonicalWorkSelection := { batch_ids : list Z; resume_ids : list Z }.

(** [i32::try_from(n).unwrap_or(i32::MAX)]. *)
Definition count_i32 (n : nat) : Z := default i32_max (in_range i32_min i32_max (Z.of_nat n)).

Definition checkpointed_count (p : MatchDrainProgress) : option Z :=
  if decide (checkpointed_ids p = ∅) then None else Some (count_i32 (size (checkpointed_ids p))).

(** ** Reading provider and database rows *)

Definition match_id_keys : list string := ["Match"; "match_id"; "matchId"; "id"].

Definition extract_match_id (v : value) : option Z :=
  find_map (fun candidate =>
    find_map (fun key =>
      id ← (get key candidate ≫= int_or_text);
      if 0 <? id then Some id else None) match_id_keys)
    (v :: option_list (get "match" v) ++ option_list (get "payload" v)).

Definition text_alias (v : value) (keys : list string) : option string :=
  find_map (fun key => get key v ≫= as_str) keys.

Definition boolean_alias (v : value) (keys : list string) : bool :=
  default false (find_map (fun key => get key v ≫= as_bool) keys).

(** The loop of parse_observations over the rows not yet seen. *)
Fixpoint parse_rows (seen : gset Z) (rows : list value) : list MatchIdObservation :=
  match rows with
  | [] => []
  | row :: r =>
      let id := default 0 (extract_match_id row) in
      if (id <=? 0) || bool_decide (id ∈ seen) then parse_rows seen r
      else {| obs_match_id := id;
              obs_entry_datetime := text_alias row ["Entry_Datetime"; "entry_datetime"];
              obs_region := text_alias row ["Region"; "region"];
              obs_active_flag := boolean_alias row ["Active_Flag"; "active_flag"] |}
           :: parse_rows ({[id]} ∪ seen) r
  end.

Definition parse_observations (v : value) : list MatchIdObservation :=
  parse_rows ∅ (default [] (as_array v)).

Definition authoritative_match_outcome (outcome : value) : bool :=
  match get "status" outcome ≫= as_str with
  | Some s => String.eqb s "complete_direct" || String.eqb s "complete_recovered"
  | None => false
  end
  && match get "match" outcome with Some (Object _) => true | _ => false end.

(** validate_requested_outcomes: the loop over the outcomes. *)
Fixpoint validate_each_outcome (requested seen : gset Z) (outcomes : list value) :
    result (list (Z * value)) PipelineError :=
  match outcomes with
  | [] => Ok []
  | outcome :: r =>
      match extract_match_id outcome with
      | None => Err (PipelineFacts "canonical relay returned an outcome without a match ID")
      | Some id =>
          if negb (bool_decide (id ∈ requested))
          then Err (PipelineFacts ("canonical relay returned unrequested match " +:+ pretty id))
          else if bool_decide (id ∈ seen)
          then Err (PipelineFacts ("canonical relay returned duplicate outcome for match " +:+ pretty id))
          else match validate_each_outcome requested ({[id]} ∪ seen) r with
               | Ok l => Ok ((id, outcome) :: l)
               | Err e => Err e
               end
      end
  end.

Definition validate_requested_outcomes (requested : list Z) (outcomes : list value) :
    result (list (Z * value)) PipelineError :=
  validate_each_outcome (list_to_set requested) ∅ outcomes.

(** [response.as_array().cloned().unwrap_or_else(|| vec![response])]. *)
Definition outcomes_of (response : value) : list value := default [response] (as_array response).

Definition pipeline_state_error_message (e : PipelineError) : string :=
  match e with
  | PipelineRelay (RelayOperation _ message) => message
  | _ => pipeline_error_to_string e
  end.

(** ** Database reads *)

(** A BIGINT column comes back as a JSON string. *)
Definition bigint (z : Z) : value := Str (pretty z).

Definition id_row (id : Z) : value := Object [("match_id", bigint id)].

(** The query of discovered_match_ids and the decoding of its rows. *)
Definition discovered_match_ids (k : HourKey) (t : HourTables) : list Z :=
  omap extract_match_id
    (map id_row (sort_by Z.leb (filter (fun id => 0 < id) (discovered_in k t)))).

(** MATCH_IDS_REQUIRING_CANONICAL_WORK_SQL: the lifecycle does not close the match. *)
Definition requires_canonical_work (l : ledger) (id : Z) : bool :=
  match l !! id with
  | None => true
  | Some r =>
      negb (String.eqb (row_status r) "complete"
            || (String.eqb (row_status r) "limited"
                && (negb (String.eqb (row_acquisition_state r) "unavailable")
                    || bool_decide (row_error_message r = Some TERMINAL_NO_COMPLETED_MATCH_REASON))))
  end.

Definition work_row (l : ledger) (id : Z) : value :=
  Object [("match_id", bigint id); ("resume_locally", Bool (bool_decide (is_Some (l !! id))))].

(** One row of the answer goes to one of the two drains. *)
Definition select_row (s : CanonicalWorkSelection) (row : value) : CanonicalWorkSelection :=
  match extract_match_id row with
  | None => s
  | Some id =>
      if default false (get "resume_locally" row ≫= as_bool)
      then {| batch_ids := batch_ids s; resume_ids := resume_ids s ++ [id] |}
      else {| batch_ids := batch_ids s ++ [id]; resume_ids := resume_ids s |}
  end.

Definition no_selection : CanonicalWorkSelection := {| batch_ids := []; resume_ids := [] |}.

Definition select_canonical_work (ids : list Z) (l : ledger) : CanonicalWorkSelection :=
  foldl select_row no_selection
    (map (work_row l) (filter (fun id => 0 < id /\ requires_canonical_work l id = true) ids)).

(** ** Services *)

Inductive RequestedMatchStatus := Ready | NotFound | RecoveryFailed | ProcessingTimeout.

Record RequestedMatchResult := {
  rm_match_id : Z; rm_status : RequestedMatchStatus; rm_error : option string;
}.

Record MatchIngestRequest := {
  mi_match_id : Z; mi_queue_id : option Z; mi_source : MatchDiscoverySource;
}.

Record PipelineDb := { hour_tables : HourTables; outages : outage_table }.

Class PipelineServices (W : Type) := {
  (** The DATE value of a text; a text that is no date makes the statement fail. *)
  date_value : string -> Z;
  (** A statement begins: the database answers its instant, or an error. *)
  db_begin : ST (PipelineDb * W) (result Z string);
  (** WorkerRelayClient::call_value: operation, arguments, consumer. *)
  relay_call : string -> list value -> string -> ST (PipelineDb * W) (result value WorkerRelayError);
  (** match_facts.rs *)
  CanonicalMatchPayload : Type;
  payload_match_id : CanonicalMatchPayload -> Z;
  payload_queue_id : CanonicalMatchPayload -> Z;
  from_relay_value : value -> result CanonicalMatchPayload string;
  facts_finalize : CanonicalMatchPayload -> string -> ST (PipelineDb * W) (result MatchPopulation MatchFactError);
  (** ranked_projection.rs and casual_mechanics.rs *)
  project_match : Z -> ST (PipelineDb * W) (result unit string);
  project_all_for_match : Z -> ST (PipelineDb * W) (result unit string);
  complete_cumulative_stages_for_matches : list Z -> ST (PipelineDb * W) (result nat string);
  (** requested_match.rs *)
  ingest_discovery : MatchIngestRequest -> ST (PipelineDb * W) RequestedMatchResult;
  (** HIREZ_DETAIL_OUTAGE_PROBE_MINUTES *)
  outage_probe_minutes : Z;
}.

(** ** The pipeline *)

Record PipelineState (W : Type) := {
  pdb : PipelineDb;
  progress : MatchDrainProgress;
  world : W;
}.
Arguments pdb {W} _.
Arguments progress {W} _.
Arguments world {W} _.

Section pipeline.
Context {W : Type} `{PipelineServices W}.

Abbreviation P := (PipelineState W).

(** A service call: it sees the database and the world, not the progress. *)
Definition service {A} (c : ST (PipelineDb * W) A) : ST P A := fun s =>
  let '(a, (d, w)) := c (pdb s, world s) in (a, {| pdb := d; progress := progress s; world := w |}).

Definition on_db {A} (f : PipelineDb -> A * PipelineDb) : ST P A := fun s =>
  let '(a, d) := f (pdb s) in (a, {| pdb := d; progress := progress s; world := world s |}).

(** One statement on the database. *)
Definition statement {A} (f : Z -> PipelineDb -> A * PipelineDb) : ST P (result A PipelineError) :=
  begun ← service db_begin;
  match begun with
  | Err m => mret (Err (PipelineDatabase m))
  | Ok now => a ← on_db (f now); mret (Ok a)
  end.

Definition hour_statement {A} (f : Z -> HourTables -> A * HourTables) : ST P (result A PipelineError) :=
  statement (fun now d => let '(a, t) := f now (hour_tables d) in
                          (a, {| hour_tables := t; outages := outages d |})).

Definition outage_statement (f : Z -> outage_table -> outage_table) : ST P (result unit PipelineError) :=
  statement (fun now d => (tt, {| hour_tables := hour_tables d; outages := f now (outages d) |})).

Definition with_ingest (l : ledger) (t : HourTables) : HourTables :=
  {| hours := hours t; discoveries := discoveries t; region_hours := region_hours t;
     match_counts := match_counts t; ingest := l |}.

Definition on_progress (f : MatchDrainProgress -> MatchDrainProgress) : ST P unit := fun s =>
  (tt, {| pdb := pdb s; progress := f (progress s); world := world s |}).

Definition checkpointed (id : Z) : ST P unit := on_progress (fun p =>
  {| claimed_raw_match_count := claimed_raw_match_count p;
     checkpointed_ids := {[id]} ∪ checkpointed_ids p |}).

Definition claimed_raw (n : Z) : ST P unit := on_progress (fun p =>
  {| claimed_raw_match_count := Some n; checkpointed_ids := checkpointed_ids p |}).

Definition hour_key (date : string) (hour queue_id : Z) : HourKey :=
  {| key_date := date_value date; key_hour := hour; key_queue := queue_id |}.

(** ** Outcomes *)

Definition record_match_detail_outage (e : WorkerRelayError) : ST P (result unit PipelineError) :=
  match classify_hirez_service_outage_message (worker_relay_error_to_string e) with
  | None => mret (Ok tt)
  | Some c =>
      if String.eqb (oc_service_key c) MATCH_DETAIL_SERVICE_OUTAGE_KEY then
        outage_statement (fun now => record_hirez_service_outage now outage_probe_minutes
          MATCH_DETAIL_SERVICE_OUTAGE_KEY
          "Hi-Rez match detail service outage: Server_Regions temp-table failure" None)
      else mret (Ok tt)
  end.

Definition record_terminal_outcome (error : PipelineError) (queue_id : Z) (source : MatchDiscoverySource) :
    ST P (result bool PipelineError) :=
  match error with
  | PipelineTerminalFacts id reason =>
      _ <-? hour_statement (fun now t =>
              (tt, with_ingest (mark_terminal_unavailable now id queue_id source reason (ingest t)) t));
      _ ← checkpointed id;
      mret (Ok true)
  | _ => mret (Ok false)
  end.

(** The projection of the population that finalization answered. *)
Definition project_population (id : Z) (population : MatchPopulation) : ST P (result unit PipelineError) :=
  match population with
  | Ranked => r ← service (project_match id); mret (map_err PipelineFacts r)
  | Casual | Special => r ← service (project_all_for_match id); mret (map_err PipelineFacts r)
  | Unknown => mret (Err (PipelineFacts ("match " +:+ pretty id +:+ " remained unclassified after finalization")))
  end.

(** checkpoint_canonical_outcome, once the telemetry is written. *)
Definition finalize_outcome (outcome : value) (queue_id : Z) (source : MatchDiscoverySource) :
    ST P (result unit PipelineError) :=
  let id := default 0 (extract_match_id outcome) in
  match from_relay_value outcome with
  | Err error =>
      if id <=? 0
      then mret (Err (PipelineFacts ("canonical relay outcome has no match ID: " +:+ error)))
      else mret (Err (PipelineFacts ("match " +:+ pretty id
             +:+ " returned non-authoritative canonical evidence: " +:+ error)))
  | Ok canonical =>
      if negb (payload_queue_id canonical =? queue_id)
      then mret (Err (PipelineFacts ("match " +:+ pretty (payload_match_id canonical)
             +:+ " discovered in queue " +:+ pretty queue_id
             +:+ " returned queue " +:+ pretty (payload_queue_id canonical))))
      else
        finalized ← service (facts_finalize canonical (source_as_database source));
        match finalized with
        | Err (InvalidPayload error) => mret (Err (PipelineFacts error))
        | Err error => mret (Err (PipelineFacts (match_fact_error_to_string error)))
        | Ok population =>
            _ <-? project_population (payload_match_id canonical) population;
            _ ← checkpointed (payload_match_id canonical);
            mret (Ok tt)
        end
  end.

Definition checkpoint_canonical_outcome (outcome : value) (queue_id : Z) (source : MatchDiscoverySource) :
    ST P (result unit PipelineError) :=
  _ <-? (if authoritative_match_outcome outcome
         then outage_statement (fun now => mark_hirez_service_recovered now MATCH_DETAIL_SERVICE_OUTAGE_KEY
                (Some "canonical completed-match batch returned authoritative rows"))
         else mret (Ok tt));
  finalize_outcome outcome queue_id source.

Definition recover_discovered_match (id queue_id : Z) (source : MatchDiscoverySource) :
    ST P (result unit PipelineError) :=
  r ← service (ingest_discovery {| mi_match_id := id; mi_queue_id := Some queue_id; mi_source := source |});
  match rm_status r with
  | Ready => mret (Ok tt)
  | NotFound => mret (Err (PipelineTerminalFacts id TERMINAL_NO_COMPLETED_MATCH_REASON))
  | _ => mret (Err (PipelineFacts (default
           ("match " +:+ pretty id +:+ " did not reach the durable fact boundary") (rm_error r))))
  end.

(** ** The drain of new matches *)

Record DrainState := {
  remaining : list Z;
  emitted : gset Z;
  completed : nat;
  failures : list string;
}.

Definition match_failure (id : Z) (message : string) : string :=
  "match " +:+ pretty id +:+ ": " +:+ message.

(** What a match adds to the tallies, once its result is known. *)
Definition settle (id : Z) (queue_id : Z) (source : MatchDiscoverySource) (r : result unit PipelineError)
    (d : DrainState) : ST P (result DrainState PipelineError) :=
  let done := {| remaining := remaining d; emitted := emitted d; completed := S (completed d);
                 failures := failures d |} in
  match r with
  | Ok _ => mret (Ok done)
  | Err error =>
      let message := pipeline_error_to_string error in
      terminal <-? record_terminal_outcome error queue_id source;
      mret (Ok (if (terminal : bool) then done
                else {| remaining := remaining d; emitted := emitted d; completed := completed d;
                        failures := failures d ++ [match_failure id message] |}))
  end.

Definition emit (id : Z) (d : DrainState) : DrainState :=
  {| remaining := remaining d; emitted := {[id]} ∪ emitted d; completed := completed d;
     failures := failures d |}.

(** One outcome of the relay. *)
Definition take_outcome (queue_id : Z) (source : MatchDiscoverySource) (x : Z * value) (d : DrainState) :
    ST P (result DrainState PipelineError) :=
  let '(id, outcome) := x in
  if bool_decide (id ∈ emitted d)
  then mret (Err (PipelineFacts ("canonical relay returned duplicate outcome for match " +:+ pretty id)))
  else
    r ← checkpoint_canonical_outcome outcome queue_id source;
    settle id queue_id source r (emit id d).

Fixpoint take_outcomes (queue_id : Z) (source : MatchDiscoverySource) (xs : list (Z * value)) (d : DrainState) :
    ST P (result DrainState PipelineError) :=
  match xs with
  | [] => mret (Ok d)
  | x :: r => d1 <-? take_outcome queue_id source x d; take_outcomes queue_id source r d1
  end.

(** The outcomes of the batch in the order of the batch, each taken once. *)
Fixpoint in_batch_order (batch : list Z) (by_id : gmap Z value) : list (Z * value) :=
  match batch with
  | [] => []
  | id :: r =>
      match by_id !! id with
      | Some outcome => (id, outcome) :: in_batch_order r (delete id by_id)
      | None => in_batch_order r by_id
      end
  end.

(** [remaining.remove(position)] of the first occurrence. *)
Fixpoint remove_first (id : Z) (l : list Z) : list Z :=
  match l with
  | [] => []
  | x :: r => if x =? id then r else x :: remove_first id r
  end.

Definition with_remaining (l : list Z) (d : DrainState) : DrainState :=
  {| remaining := l; emitted := emitted d; completed := completed d; failures := failures d |}.

Definition add_failure (m : string) (d : DrainState) : DrainState :=
  {| remaining := remaining d; emitted := emitted d; completed := completed d;
     failures := failures d ++ [m] |}.

Definition request_of (queue_id id : Z) : value :=
  Object [("matchId", Number (NInt id)); ("queueId", Number (NInt queue_id))].

(** One relay call for some matches: a failure is recorded and returned. *)
Definition fetch_batch (queue_id : Z) (ids : list Z) : ST P (result (list (Z * value)) PipelineError) :=
  answer ← service (relay_call "getMatchDetailsBatch" [Array (map (request_of queue_id) ids)]
                      "canonical_match_recovery");
  match answer with
  | Err e => _ <-? record_match_detail_outage e; mret (Err (PipelineRelay e))
  | Ok response => mret (validate_requested_outcomes ids (outcomes_of response))
  end.

(** The bounded second pass for the first match the batch did not answer. *)
Definition singleton_pass (queue_id : Z) (source : MatchDiscoverySource) (blocker : Z) (d : DrainState) :
    ST P (result DrainState PipelineError) :=
  outcomes <-? fetch_batch queue_id [blocker];
  d <-? take_outcomes queue_id source outcomes d;
  let d := match outcomes with
           | [] => add_failure ("match " +:+ pretty blocker
                     +:+ ": canonical relay omitted outcome after the bounded singleton pass") d
           | _ :: _ => d
           end in
  mret (Ok (with_remaining (remove_first blocker (remaining d)) d)).

(** One turn of the loop of fetch_discovered_completed_continuously. *)
Definition drain_round (queue_id : Z) (date : string) (hour : Z) (source : MatchDiscoverySource)
    (d : DrainState) : ST P (result DrainState PipelineError) :=
  _ <-? hour_statement (fun now t => (tt, refresh_hourly_ingest_lease now (hour_key date hour queue_id) t));
  let batch := take MATCH_DETAIL_PROTOCOL_BATCH_SIZE (remaining d) in
  validated <-? fetch_batch queue_id batch;
  let by_id : gmap Z value := list_to_map validated in
  d <-? take_outcomes queue_id source (in_batch_order batch by_id) d;
  let d := with_remaining (foldl (fun l id => remove_first id l) (remaining d)
             (filter (fun id => is_Some (by_id !! id)) batch)) d in
  match find_first (fun id => bool_decide (by_id !! id = None)) batch with
  | None => mret (Ok d)
  | Some blocker => singleton_pass queue_id source blocker d
  end.

(** [while !remaining.is_empty()]; every turn removes a match, so as many
    turns as there are matches suffice. *)
Fixpoint drain_loop (turns : nat) (queue_id : Z) (date : string) (hour : Z) (source : MatchDiscoverySource)
    (d : DrainState) : ST P (result DrainState PipelineError) :=
  match turns with
  | O => mret (Ok d)
  | S n =>
      match remaining d with
      | [] => mret (Ok d)
      | _ :: _ => d1 <-? drain_round queue_id date hour source d; drain_loop n queue_id date hour source d1
      end
  end.

(** The answer of a drain from its tallies. *)
Definition drain_result (what : string) (d : DrainState) : result nat PipelineError :=
  match failures d with
  | [] => Ok (completed d)
  | first :: _ =>
      Err (PipelineFacts (pretty (length (failures d)) +:+ what
        +:+ " failed after the full queue-hour drain; first: " +:+ first))
  end.

Definition start_drain (ids : list Z) : DrainState :=
  {| remaining := ids; emitted := ∅; completed := 0; failures := [] |}.

Definition fetch_discovered_completed_continuously (ids : list Z) (queue_id : Z) (date : string) (hour : Z)
    (source : MatchDiscoverySource) : ST P (result nat PipelineError) :=
  let ids := filter (fun id => 0 < id) ids in
  d <-? drain_loop (length ids) queue_id date hour source (start_drain ids);
  mret (drain_result " match(es)" d).

(** ** The resumption of known matches *)

Definition match_ids_requiring_canonical_work (ids : list Z) :
    ST P (result CanonicalWorkSelection PipelineError) :=
  match ids with
  | [] => mret (Ok no_selection)
  | _ :: _ => hour_statement (fun _ t => (select_canonical_work ids (ingest t), t))
  end.

Fixpoint recover_each (queue_id : Z) (source : MatchDiscoverySource) (ids : list Z) :
    ST P (list (Z * result unit PipelineError)) :=
  match ids with
  | [] => mret []
  | id :: r =>
      outcome ← recover_discovered_match id queue_id source;
      rest ← recover_each queue_id source r;
      mret ((id, outcome) :: rest)
  end.

(** The bookkeeping after a window: a success is checkpointed. *)
Fixpoint settle_each (queue_id : Z) (source : MatchDiscoverySource)
    (outcomes : list (Z * result unit PipelineError)) (d : DrainState) : ST P (result DrainState PipelineError) :=
  match outcomes with
  | [] => mret (Ok d)
  | (id, outcome) :: r =>
      _ ← (match outcome with Ok _ => checkpointed id | Err _ => mret tt end);
      d1 <-? settle id queue_id source outcome d;
      settle_each queue_id source r d1
  end.

(** [slice::chunks]; a window of ten leaves fewer ids, so as many windows as
    ids suffice. *)
Fixpoint windows (n : nat) (ids : list Z) : list (list Z) :=
  match n, ids with
  | S m, _ :: _ => take MATCH_DETAIL_PROTOCOL_BATCH_SIZE ids
                   :: windows m (drop MATCH_DETAIL_PROTOCOL_BATCH_SIZE ids)
  | _, _ => []
  end.

Fixpoint resume_windows (ws : list (list Z)) (queue_id : Z) (date : string) (hour : Z)
    (source : MatchDiscoverySource) (d : DrainState) : ST P (result DrainState PipelineError) :=
  match ws with
  | [] => mret (Ok d)
  | window :: r =>
      _ <-? hour_statement (fun now t => (tt, refresh_hourly_ingest_lease now (hour_key date hour queue_id) t));
      outcomes ← recover_each queue_id source window;
      d1 <-? settle_each queue_id source outcomes d;
      resume_windows r queue_id date hour source d1
  end.

Definition resume_discovered_continuously (ids : list Z) (queue_id : Z) (date : string) (hour : Z)
    (source : MatchDiscoverySource) : ST P (result nat PipelineError) :=
  cumulative ← service (complete_cumulative_stages_for_matches ids);
  match cumulative with
  | Err m => mret (Err (PipelineFacts m))
  | Ok n =>
      work <-? match_ids_requiring_canonical_work ids;
      let ids := batch_ids work ++ resume_ids work in
      d <-? resume_windows (windows (length ids) ids) queue_id date hour source
              {| remaining := []; emitted := ∅; completed := n; failures := [] |};
      mret (drain_result " lifecycle match(es)" d)
  end.

(** ** A queue-hour *)

Definition hour_result (queue_id : Z) (date : string) (hour : Z) (discovered skipped completed : nat)
    (empty : bool) : DiscoveryResult :=
  {| dr_queue_id := queue_id; dr_date := date; dr_hour := hour; dr_discovered := discovered;
     dr_skipped := skipped; dr_completed := completed; dr_empty := empty |}.

(** The two drains' results put together. *)
Definition join_drains (batch resume : result nat PipelineError) : result nat PipelineError :=
  match batch, resume with
  | Ok a, Ok b => Ok (a + b)%nat
  | Err e, Ok _ => Err e
  | Ok _, Err e => Err e
  | Err e, Err e' =>
      Err (PipelineFacts ("new acquisition failed: " +:+ pipeline_error_to_string e
        +:+ "; lifecycle resume failed: " +:+ pipeline_error_to_string e'))
  end.

(** [date.replace('-', "")]. *)
Fixpoint without_dashes (s : string) : string :=
  match s with
  | EmptyString => EmptyString
  | String c r => if Ascii.eqb c "-" then without_dashes r else String c (without_dashes r)
  end.

Definition known_or_error : PipelineError :=
  PipelineFacts "queue-hour discovery was already attempted without durable IDs".

(** The ids of the hour: the stored ones, or those of the one search. *)
Definition discover_ids (queue_id : Z) (date : string) (hour : Z) :
    ST P (result (list Z * nat) PipelineError) :=
  let k := hour_key date hour queue_id in
  known <-? hour_statement (fun _ t => (discovered_match_ids k t, t));
  match known with
  | _ :: _ => mret (Ok (known, length known))
  | [] =>
      granted <-? hour_statement (fun now t => claim_hourly_ingest_search now k t);
      if (granted : bool) then
        answer ← service (relay_call "getMatchIdsByQueueDetails"
          [Number (NInt queue_id); Str (without_dashes date); Number (NInt hour)]
          "hourly_match_discovery");
        match answer with
        | Err e => mret (Err (PipelineRelay e))
        | Ok discovery =>
            let observations := parse_observations discovery in
            n <-? hour_statement (fun now t => record_match_count_discovery_result now k observations t);
            mret (Ok (map obs_match_id observations, Z.to_nat n))
        end
      else mret (Err known_or_error)
  end.

(** The two drains of the matches that still need work. *)
Definition drain_hour (ids : list Z) (discovered : nat) (queue_id : Z) (date : string) (hour : Z) :
    ST P (result DiscoveryResult PipelineError) :=
  let k := hour_key date hour queue_id in
  work <-? match_ids_requiring_canonical_work ids;
  let skipped := (length ids - (length (batch_ids work) + length (resume_ids work)))%nat in
  _ ← claimed_raw (count_i32 (length ids));
  batch ← fetch_discovered_completed_continuously (batch_ids work) queue_id date hour HourlyDiscovery;
  resume ← resume_discovered_continuously (resume_ids work) queue_id date hour HourlyDiscovery;
  match join_drains batch resume with
  | Err e => mret (Err e)
  | Ok n =>
      _ <-? hour_statement (fun now t => (tt, mark_hourly_ingest_complete now k (count_i32 (length ids)) t));
      mret (Ok (hour_result queue_id date hour discovered skipped (skipped + n) false))
  end.

Definition discover_hour_inner (queue_id : Z) (date : string) (hour : Z) (source : string) :
    ST P (result DiscoveryResult PipelineError) :=
  let k := hour_key date hour queue_id in
  if queue_id <=? 0 then mret (Err (PipelineFacts "queue ID must be positive")) else
  won <-? hour_statement (fun now t => claim_hourly_ingest_hour now k source t);
  if negb won then mret (Ok (hour_result queue_id date hour 0 0 0 false)) else
  found <-? discover_ids queue_id date hour;
  match fst found with
  | [] =>
      _ <-? hour_statement (fun now t => (tt, mark_hourly_ingest_empty now k t));
      mret (Ok (hour_result queue_id date hour (snd found) 0 0 true))
  | ids => drain_hour ids (snd found) queue_id date hour
  end.

Definition mark_match_drain_failure (queue_id : Z) (date : string) (hour : Z) (e : PipelineError) :
    ST P (result unit PipelineError) := fun s =>
  hour_statement (fun now t => (tt, mark_hourly_ingest_failed now (hour_key date hour queue_id)
    (pipeline_state_error_message e) (claimed_raw_match_count (progress s))
    (checkpointed_count (progress s)) t)) s.

Definition fresh_progress : MatchDrainProgress :=
  {| claimed_raw_match_count := None; checkpointed_ids := ∅ |}.

Definition discover_hour (queue_id : Z) (date : string) (hour : Z) (source : string) :
    ST P (result DiscoveryResult PipelineError) :=
  _ ← on_progress (fun _ => fresh_progress);
  r ← discover_hour_inner queue_id date hour source;
  match r with
  | Err e => _ <-? mark_match_drain_failure queue_id date hour e; mret (Err e)
  | Ok _ => mret r
  end.

Fixpoint discover_queues (queues : list Z) (date : string) (hour : Z) (source : string) :
    ST P (list (result DiscoveryResult PipelineError)) :=
  match queues with
  | [] => mret []
  | q :: rest =>
      r ← discover_hour q date hour source;
      rs ← discover_queues rest date hour source;
      mret (r :: rs)
  end.

(** The queues of MATCH_COUNT_QUEUE_DEFINITIONS; all of them track presence. *)
Definition configured_queues : list Z :=
  [424; 425; 452; 453; 469; 486; 10297; 10332; 10348; 10362; 10367; 10369].

Definition discover_configured_queues (date : string) (hour : Z) (source : string) :
    ST P (list (result DiscoveryResult PipelineError)) :=
  discover_queues configured_queues date hour source.
End pipeline.
