(* ===== verification/PipelineSpec.v ===== *)
(** * Properties of the ingest pipeline

    The drain of a queue-hour ends, asks the relay a bounded number of times
    and, when it succeeds, has accounted for every match; the provider search
    stays single through all executions; and two states of an hour that every
    later execution claims again without doing anything. *)

From S2P Require Import Prelude Json Lifecycle HourlyIngest Outage Pipeline.

(** ** Reading rows back *)

(** A BIGINT the database sent as a string is decoded to itself. *)
Lemma int_or_text_bigint id : in_i64 id -> int_or_text (bigint id) = Some id.
Proof. intros H. unfold int_or_text, bigint. simpl. by apply parse_i64_pretty. Qed.

(** A BIGINT the database sent as a string is decoded to itself; the key "Match"
    is looked for first and absent from the rows of the pipeline's queries. *)
Lemma extract_bigint id rest :
  0 < id -> in_i64 id -> get "Match" (Object rest) = None ->
  extract_match_id (Object (("match_id", bigint id) :: rest)) = Some id.
Proof.
  intros Hp Hr Hm. unfold extract_match_id. simpl find_map at 1.
  assert (lookup_field "Match" (("match_id", bigint id) :: rest) = None) as -> by exact Hm.
  simpl. rewrite int_or_text_bigint by done. simpl. by rewrite (proj2 (Z.ltb_lt _ _) Hp).
Qed.

(** ** Selection *)

Lemma filter_none {A} (Q : A -> Prop) `{!forall x, Decision (Q x)} (l : list A) :
  (forall x, x ∈ l -> ~ Q x) -> filter Q l = [].
Proof.
  intros Hn. destruct (filter Q l) as [|x r] eqn:E; [done|].
  assert (x ∈ filter Q l) as Hx by (rewrite E; by left).
  apply list_elem_of_filter in Hx as [? ?]. by destruct (Hn x).
Qed.

(** The two drains together get the ids that need work, each once, in order. *)
Lemma select_rows l ids s :
  Forall (fun id => 0 < id /\ in_i64 id) ids ->
  foldl select_row s (map (work_row l) ids)
  = {| batch_ids := batch_ids s ++ filter (fun id => l !! id = None) ids;
       resume_ids := resume_ids s ++ filter (fun id => is_Some (l !! id)) ids |}.
Proof.
  revert s. induction ids as [|id r IH]; intros s Hf; [simpl; rewrite !app_nil_r; by destruct s|].
  apply Forall_cons in Hf as [[Hp Hr] Hf]. simpl map. cbn [foldl].
  rewrite IH by done. clear IH. unfold select_row, work_row.
  rewrite extract_bigint by done.
  change (default false (get "resume_locally" _ ≫= as_bool)) with (bool_decide (is_Some (l !! id))).
  destruct (l !! id) as [row|] eqn:E.
  - rewrite bool_decide_true by eauto. simpl. f_equal.
    + rewrite filter_cons_False by congruence. done.
    + rewrite filter_cons_True by (rewrite E; eauto). by rewrite <-app_assoc.
  - rewrite bool_decide_false by (intros [? ?]; done). simpl. f_equal.
    + rewrite filter_cons_True by done. by rewrite <-app_assoc.
    + rewrite filter_cons_False by (rewrite E; intros [? ?]; done). done.
Qed.

Definition work_ids (ids : list Z) (l : ledger) : list Z :=
  filter (fun id => 0 < id /\ requires_canonical_work l id = true) ids.

Lemma select_canonical_work_eq ids l :
  Forall in_i64 ids ->
  select_canonical_work ids l
  = {| batch_ids := filter (fun id => l !! id = None) (work_ids ids l);
       resume_ids := filter (fun id => is_Some (l !! id)) (work_ids ids l) |}.
Proof.
  intros Hf. unfold select_canonical_work. rewrite select_rows; [done|].
  apply Forall_forall. intros id (Hid & Hin)%list_elem_of_filter.
  rewrite Forall_forall in Hf. split; [tauto|by apply Hf].
Qed.

Lemma no_work ids l :
  (forall id, id ∈ ids -> 0 < id -> requires_canonical_work l id = false) ->
  select_canonical_work ids l = no_selection.
Proof.
  intros Hn. unfold select_canonical_work.
  assert (filter (fun id => 0 < id /\ requires_canonical_work l id = true) ids = []) as ->; [|done].
  apply filter_none. intros id Hid [Hp Hw]. by rewrite Hn in Hw.
Qed.

(** ** Removal from the queue *)

Lemma remove_first_perm id l : id ∈ l -> l ≡ₚ id :: remove_first id l.
Proof.
  induction l as [|x r IH]; [by intros ?%elem_of_nil|]. simpl.
  destruct (Z.eqb_spec x id) as [->|Hne]; [done|]. intros [?|Hr]%elem_of_cons; [congruence|].
  rewrite perm_swap. by rewrite <-IH.
Qed.

Lemma remove_each_perm xs l :
  xs ⊆+ l -> l ≡ₚ xs ++ foldl (fun l id => remove_first id l) l xs.
Proof.
  revert l. induction xs as [|x r IH]; intros l Hs; [done|]. cbn [foldl].
  apply submseteq_cons_l in Hs as (k & Hk & Hs).
  assert (l ≡ₚ x :: remove_first x l) as Hp by (apply remove_first_perm; rewrite Hk; by left).
  rewrite <-app_comm_cons, <-IH; [done|]. rewrite Hp in Hk. by rewrite (Permutation_cons_inv Hk).
Qed.

(** ** Steps of the program *)

Section steps.
Context {W : Type} `{PipelineServices W}.
Abbreviation P := (PipelineState W).

Lemma bind_eq {A B} (c : ST P A) (k : A -> ST P B) s r :
  (c ≫= k) s = r -> exists a s1, c s = (a, s1) /\ k a s1 = r.
Proof. unfold mbind, ST_bind. destruct (c s) as [a s1]. eauto. Qed.

(** The progress only grows. *)
Definition grows {A} (c : ST P A) : Prop :=
  forall s, checkpointed_ids (progress s) ⊆ checkpointed_ids (progress (snd (c s))).

Lemma grows_ret {A} (a : A) : grows (mret a).
Proof. by intros s. Qed.

Lemma grows_bind {A B} (c : ST P A) (k : A -> ST P B) :
  grows c -> (forall a, grows (k a)) -> grows (c ≫= k).
Proof.
  intros Hc Hk s. unfold mbind, ST_bind. specialize (Hc s). destruct (c s) as [a s1].
  etrans; [exact Hc|apply Hk].
Qed.

Lemma grows_try {A B E} (c : ST P (result A E)) (k : A -> ST P (result B E)) :
  grows c -> (forall a, grows (k a)) -> grows (try_bind c k).
Proof.
  intros Hc Hk s. unfold try_bind. specialize (Hc s). destruct (c s) as [[a|e] s1]; [|exact Hc].
  etrans; [exact Hc|apply Hk].
Qed.

Lemma grows_service {A} (c : ST (PipelineDb * W) A) : grows (service c).
Proof. intros s. unfold service. by destruct (c _) as [a [d w]]. Qed.

Lemma grows_db {A} (f : PipelineDb -> A * PipelineDb) : grows (on_db f).
Proof. intros s. unfold on_db. by destruct (f _). Qed.

Lemma grows_checkpointed id : grows (checkpointed id).
Proof. intros s. simpl. set_solver. Qed.

Lemma grows_statement {A} (f : Z -> PipelineDb -> A * PipelineDb) : grows (statement f).
Proof.
  apply grows_bind; [apply grows_service|]. intros [now|m]; [|apply grows_ret].
  apply grows_bind; [apply grows_db|]. intros a. apply grows_ret.
Qed.
End steps.

Create HintDb grows discriminated.
#[export] Hint Resolve grows_ret grows_bind grows_try grows_service grows_db grows_checkpointed
  grows_statement : grows.

(** Unfold one operation and follow its steps. *)
Ltac grow :=
  repeat first
    [ apply grows_ret | apply grows_service | apply grows_checkpointed | apply grows_statement
    | apply grows_try; [|intros] | apply grows_bind; [|intros] | case_match | solve [auto with grows] ].

(** ** The outcomes the relay answers *)

Lemma validated_ids requested seen outcomes l :
  validate_each_outcome requested seen outcomes = Ok l ->
  NoDup (map fst l) /\
  Forall (fun x => extract_match_id (snd x) = Some (fst x) /\ fst x ∈ requested /\ fst x ∉ seen) l /\
  map snd l = outcomes.
Proof.
  revert seen l. induction outcomes as [|o r IH]; intros seen l; simpl.
  { intros [= <-]. split_and!; [constructor|constructor|done]. }
  destruct (extract_match_id o) as [id|] eqn:Ei; [|done].
  case_bool_decide as Hr; [|done]. case_bool_decide as Hs; [done|]. cbn [negb].
  destruct (validate_each_outcome requested ({[id]} ∪ seen) r) as [l'|] eqn:E; [|done].
  intros [= <-]. destruct (IH _ _ E) as (Hnd & Hf & Hm). simpl. split_and!.
  - apply NoDup_cons. split; [|done]. intros (x & -> & Hx)%list_elem_of_fmap.
    rewrite Forall_forall in Hf. destruct (Hf x Hx) as (_ & _ & Hn). set_solver.
  - constructor; [done|]. eapply Forall_impl; [exact Hf|]. simpl. intros x (? & ? & ?). set_solver.
  - by rewrite Hm.
Qed.

Lemma filter_ext_in {A} (Q R : A -> Prop) `{!forall x, Decision (Q x), !forall x, Decision (R x)}
    (l : list A) :
  (forall x, x ∈ l -> Q x <-> R x) -> filter Q l = filter R l.
Proof.
  induction l as [|x r IH]; intros Hqr; [done|].
  assert (filter Q r = filter R r) as E by (apply IH; intros y Hy; apply Hqr; by right).
  rewrite !filter_cons, E. specialize (Hqr x (list_elem_of_here _ _)).
  repeat case_decide; tauto.
Qed.

(** The outcomes are taken in the order of the batch, each once. *)
Lemma batch_order batch (by_id : gmap Z value) :
  NoDup batch ->
  map fst (in_batch_order batch by_id) = filter (fun id => is_Some (by_id !! id)) batch /\
  Forall (fun x => by_id !! fst x = Some (snd x)) (in_batch_order batch by_id).
Proof.
  revert by_id. induction batch as [|id r IH]; intros by_id Hnd; [split; [done|constructor]|].
  apply NoDup_cons in Hnd as [Hid Hr]. simpl. rewrite filter_cons.
  destruct (by_id !! id) as [o|] eqn:E.
  - destruct (IH (delete id by_id) Hr) as [IH1 IH2].
    rewrite decide_True by eauto. cbn [map fst]. split.
    + f_equal. rewrite IH1. apply filter_ext_in. intros x Hx.
      rewrite lookup_delete_ne by congruence. done.
    + constructor; [done|]. eapply Forall_impl; [exact IH2|]. intros x Hx.
      by apply lookup_delete_Some in Hx as [_ ?].
  - rewrite decide_False by (intros [? ?]; congruence). by apply IH.
Qed.

(** ** One outcome *)

Section drain.
Context {W : Type} `{PipelineServices W}.
Abbreviation P := (PipelineState W).
Variables (queue_id : Z) (source : MatchDiscoverySource).

Lemma finalize_checkpoints outcome (s : P) u s' :
  finalize_outcome outcome queue_id source s = (Ok u, s') ->
  exists p, from_relay_value outcome = Ok p /\ payload_match_id p ∈ checkpointed_ids (progress s').
Proof.
  unfold finalize_outcome. destruct (from_relay_value outcome) as [p|e]; [|by case_match].
  destruct (negb _); [done|]. intros (r & s1 & _ & Hr)%bind_eq.
  destruct r as [population|e]; [|by destruct e].
  apply try_ok in Hr as (u1 & s2 & _ & (u2 & s3 & Hc & Hr)%bind_eq).
  injection Hr as _ <-. exists p. split; [done|].
  unfold checkpointed, on_progress in Hc. injection Hc as _ <-. simpl. set_solver.
Qed.

(** A batch outcome never fails as terminal: that error has one source, the
    individual resumption of a match. *)
Lemma checkpoint_not_terminal outcome (s : P) id reason s' :
  checkpoint_canonical_outcome outcome queue_id source s <> (Err (PipelineTerminalFacts id reason), s').
Proof.
  assert (forall f (s1 : P) s2, statement (A:=unit) f s1 <> (Err (PipelineTerminalFacts id reason), s2)) as Hst.
  { intros f s1 s2. unfold statement, mbind, ST_bind. destruct (service db_begin s1) as [[now|m] s3]; [|done].
    by destruct (on_db (f now) s3). }
  assert (forall (s1 : P) s2, finalize_outcome outcome queue_id source s1
    <> (Err (PipelineTerminalFacts id reason), s2)) as Hfin.
  { intros s1 s2. unfold finalize_outcome. destruct (from_relay_value outcome) as [p|e]; [|by case_match].
    destruct (negb _); [done|]. unfold mbind, ST_bind.
    destruct (service (facts_finalize _ _) s1) as [[[]|[]] s3]; try done.
    all: unfold project_population, try_bind, mbind, ST_bind; try done.
    all: destruct (service _ s3) as [[u|e] s4]; try done; by destruct (checkpointed _ s4). }
  unfold checkpoint_canonical_outcome, try_bind. destruct (authoritative_match_outcome outcome); [|apply Hfin].
  intros E. destruct (outage_statement _ s) as [[u|e] s1] eqn:Eo; [by apply Hfin in E|].
  injection E as -> ->. by apply (Hst _ _ _ Eo).
Qed.

Lemma grows_terminal e : grows (record_terminal_outcome e queue_id source).
Proof. unfold record_terminal_outcome, hour_statement. grow. Qed.

Lemma grows_checkpoint outcome : grows (checkpoint_canonical_outcome outcome queue_id source).
Proof.
  unfold checkpoint_canonical_outcome, finalize_outcome, outage_statement, project_population. grow.
Qed.

Lemma grows_settle id r d : grows (settle id queue_id source r d).
Proof. unfold settle. pose proof grows_terminal. grow; apply grows_terminal. Qed.

(** A value is one of the outcomes of an answer of the relay. *)
Definition relay_answered (o : value) : Prop :=
  exists args consumer x response x',
    relay_call "getMatchDetailsBatch" args consumer x = (Ok response, x') /\ o ∈ outcomes_of response.

(** The match is checkpointed; or the relay answered, under its id, the payload
    of another match, which is. *)
Definition accounted_in (c : gset Z) (id : Z) : Prop :=
  id ∈ c \/ exists o p, relay_answered o /\ extract_match_id o = Some id /\ from_relay_value o = Ok p /\
    payload_match_id p <> id /\ payload_match_id p ∈ c.

Lemma accounted_mono c c' id : c ⊆ c' -> accounted_in c id -> accounted_in c' id.
Proof. intros Hc [Hid | (o & p & ? & ? & ? & ? & Hp)]; [left; by apply Hc|]. right. exists o, p. split_and!; auto. Qed.

(** What taking the matches [xs] does to the tallies and the progress. *)
Record took (xs : list Z) (d : DrainState) (s : P) (d' : DrainState) (s' : P) : Prop := {
  took_count : (completed d' + length (failures d') = completed d + length (failures d) + length xs)%nat;
  took_failures : failures d' = [] -> failures d = [];
  took_done : failures d' = [] -> forall id, id ∈ xs -> accounted_in (checkpointed_ids (progress s')) id;
  took_grows : checkpointed_ids (progress s) ⊆ checkpointed_ids (progress s');
}.

Lemma took_app xs ys d s d1 s1 d2 s2 :
  took xs d s d1 s1 -> took ys d1 s1 d2 s2 -> took (xs ++ ys) d s d2 s2.
Proof.
  intros H1 H2. split.
  - rewrite length_app. pose proof (took_count _ _ _ _ _ H1). pose proof (took_count _ _ _ _ _ H2). lia.
  - intros Hf. apply (took_failures _ _ _ _ _ H1), (took_failures _ _ _ _ _ H2), Hf.
  - intros Hf id [Hi|Hi]%elem_of_app.
    + eapply accounted_mono; [exact (took_grows _ _ _ _ _ H2)|]. apply (took_done _ _ _ _ _ H1); [|done].
      by apply (took_failures _ _ _ _ _ H2).
    + by apply (took_done _ _ _ _ _ H2).
  - etrans; [apply (took_grows _ _ _ _ _ H1)|apply (took_grows _ _ _ _ _ H2)].
Qed.

Lemma took_nothing d s : took [] d s d s.
Proof. split; [simpl; lia|done|by intros _ id ?%elem_of_nil|done]. Qed.

(** The tallies of a settled match. *)
Lemma settle_took id r d (s : P) d' s' :
  settle id queue_id source r d s = (Ok d', s') ->
  (r = Ok tt -> accounted_in (checkpointed_ids (progress s)) id) ->
  (forall i reason, r = Err (PipelineTerminalFacts i reason) -> i = id) ->
  took [id] d s d' s' /\ remaining d' = remaining d /\ emitted d' = emitted d.
Proof.
  intros E Hok Hterm. pose proof (grows_settle id r d s) as Hg. rewrite E in Hg. simpl in Hg.
  unfold settle in E. destruct r as [[]|e].
  - injection E as <- <-. simpl. split_and!; [|done|done]. split; simpl; [lia|done| |done].
    intros _ i ->%list_elem_of_singleton. by apply Hok.
  - apply try_ok in E as (b & s1 & Eb & E). injection E as <- <-.
    destruct b; simpl; (split_and!; [|done|done]); split; simpl; try done; try lia.
    + intros _ i ->%list_elem_of_singleton.
      destruct e as [m|e|m|j reason]; cbn [record_terminal_outcome] in Eb; try done.
      rewrite (Hterm j reason eq_refl) in Eb.
      apply try_ok in Eb as (u & s2 & _ & (u2 & s3 & Hc & Er)%bind_eq).
      injection Er as <-. unfold checkpointed, on_progress in Hc. injection Hc as _ <-. left. simpl. set_solver.
    + rewrite length_app. simpl. lia.
    + by intros [_ ?]%app_nil.
    + by intros [_ ?]%app_nil.
Qed.

Lemma checkpoint_ok outcome id (s : P) u s' :
  relay_answered outcome -> extract_match_id outcome = Some id ->
  checkpoint_canonical_outcome outcome queue_id source s = (Ok u, s') ->
  accounted_in (checkpointed_ids (progress s')) id.
Proof.
  intros Ha Hid E. unfold checkpoint_canonical_outcome in E. apply try_ok in E as (u1 & s1 & _ & E).
  apply finalize_checkpoints in E as (p & Hp & Hin). destruct (decide (payload_match_id p = id)) as [<-|Hne]; [by left|].
  right. by exists outcome, p.
Qed.

Lemma take_outcome_took x d (s : P) d' s' :
  relay_answered (snd x) -> extract_match_id (snd x) = Some (fst x) ->
  take_outcome queue_id source x d s = (Ok d', s') ->
  took [fst x] d s d' s' /\ remaining d' = remaining d /\ emitted d' = {[fst x]} ∪ emitted d.
Proof.
  destruct x as [id outcome]. simpl. intros Ha Hid. case_bool_decide as He; [done|].
  intros (r & s1 & Er & E)%bind_eq.
  pose proof (grows_checkpoint outcome s) as Hg. rewrite Er in Hg. simpl in Hg.
  apply settle_took in E as (Ht & Hr & Hem).
  - split_and!; [|by rewrite Hr|by rewrite Hem].
    destruct Ht as [Hc Hf Hd Hgr]. simpl in *. split; simpl; [done|done|done|]. by etrans.
  - intros ->. by eapply checkpoint_ok.
  - intros i reason ->. by apply checkpoint_not_terminal in Er.
Qed.

Lemma take_outcomes_took xs d (s : P) d' s' :
  Forall (fun x => relay_answered (snd x) /\ extract_match_id (snd x) = Some (fst x)) xs ->
  take_outcomes queue_id source xs d s = (Ok d', s') ->
  took (map fst xs) d s d' s' /\ remaining d' = remaining d.
Proof.
  revert d s. induction xs as [|x r IH]; intros d s Hf; simpl.
  { intros [= <- <-]. split; [apply took_nothing|done]. }
  apply Forall_cons in Hf as [[Ha Hx] Hf]. intros (d1 & s1 & E1 & E2)%try_ok.
  apply take_outcome_took in E1 as (Ht1 & Hr1 & _); [|done..].
  apply IH in E2 as (Ht2 & Hr2); [|done].
  split; [|congruence]. apply (took_app [fst x] (map fst r) d s d1 s1); done.
Qed.

Lemma fetch_batch_ok ids (s : P) l s' :
  fetch_batch queue_id ids s = (Ok l, s') ->
  NoDup (map fst l) /\
  Forall (fun x => (relay_answered (snd x) /\ extract_match_id (snd x) = Some (fst x)) /\ fst x ∈ ids) l /\
  progress s' = progress s.
Proof.
  unfold fetch_batch. intros (r & s1 & Er & E)%bind_eq.
  assert (progress s1 = progress s) as Hp.
  { unfold service in Er. destruct (relay_call _ _ _ _) as [a [d w]]. by injection Er as _ <-. }
  destruct r as [response|e]; [|by apply try_ok in E as (? & ? & _ & ?)].
  injection E as E <-. apply validated_ids in E as (Hnd & Hf & Hm). split_and!; [done| |done].
  apply Forall_forall. intros x Hin. rewrite Forall_forall in Hf. destruct (Hf x Hin) as (He & Hx & _).
  split; [split; [|done]|by apply elem_of_list_to_set in Hx].
  unfold service in Er. destruct (relay_call _ _ _ _) as [a [d w]] eqn:Ec. injection Er as -> _.
  eexists _, _, _, response, (d, w). split; [exact Ec|]. rewrite <- Hm. by apply list_elem_of_fmap_2.
Qed.

Lemma took_progress xs d (s s0 : P) d' s' :
  progress s = progress s0 -> took xs d s d' s' -> took xs d s0 d' s'.
Proof. intros E [Hc Hf Hd Hg]. split; try done. by rewrite <-E. Qed.

Lemma took_tallies xs d1 d2 (s : P) d' s' :
  completed d1 = completed d2 -> failures d1 = failures d2 ->
  took xs d1 s d' s' -> took xs d2 s d' s'.
Proof. intros E1 E2 [Hc Hf Hd Hg]. split; by rewrite <- ?E1, <- ?E2. Qed.

Lemma took_result xs d (s : P) d1 d2 s' :
  completed d1 = completed d2 -> failures d1 = failures d2 -> took xs d s d1 s' -> took xs d s d2 s'.
Proof. intros E1 E2 [Hc Hf Hd Hg]. split; rewrite <- ?E1, <- ?E2; done. Qed.

(** The second pass accounts for the match it was made for. *)
Lemma singleton_took blocker d (s : P) d' s' :
  singleton_pass queue_id source blocker d s = (Ok d', s') ->
  took [blocker] d s d' s' /\ remaining d' = remove_first blocker (remaining d).
Proof.
  unfold singleton_pass. intros (l & s1 & El & (d1 & s2 & Ed & E)%try_ok)%try_ok.
  injection E as <- <-. apply fetch_batch_ok in El as (Hnd & Hf & Hp).
  apply take_outcomes_took in Ed as [Ht Hr].
  2: { eapply Forall_impl; [exact Hf|]. simpl. tauto. }
  apply (took_progress _ _ _ s) in Ht; [|done].
  destruct l as [|x [|y r]]; simpl in Ht |- *.
  - rewrite Hr. split; [|done]. destruct Ht as [Hc Hfl Hd Hg]. split; simpl in *; try done.
    + rewrite length_app. simpl. lia.
    + by intros [_ ?]%app_nil.
    + by intros [_ ?]%app_nil.
  - rewrite Hr. split; [|done]. apply Forall_inv in Hf as [_ Hb%list_elem_of_singleton]. rewrite Hb in Ht.
    by eapply took_result; [| |exact Ht].
  - exfalso. apply Forall_cons in Hf as [[_ H1%list_elem_of_singleton] [[_ H2%list_elem_of_singleton] _]%Forall_cons].
    simpl in Hnd. apply NoDup_cons in Hnd as [Hn _]. apply Hn. rewrite H1, H2. by left.
Qed.

Variables (date : string) (hour : Z).

(** A turn accounts for at least one match and removes what it accounts for. *)
Lemma round_took d (s : P) d' s' :
  drain_round queue_id date hour source d s = (Ok d', s') -> NoDup (remaining d) ->
  exists xs, took xs d s d' s' /\ remaining d ≡ₚ xs ++ remaining d' /\ (remaining d <> [] -> xs <> []).
Proof.
  intros E Hnd. unfold drain_round in E.
  apply try_ok in E as (u & s1 & E1 & (l & s2 & El & E)%try_ok).
  set (batch := take MATCH_DETAIL_PROTOCOL_BATCH_SIZE (remaining d)) in *.
  set (by_id := list_to_map l : gmap Z value) in *.
  apply try_ok in E as (d1 & s3 & Ed & E).
  apply fetch_batch_ok in El as (Hndl & Hf & Hp).
  assert (NoDup batch) as Hb by (eapply sublist_NoDup; [exact Hnd|apply sublist_take]).
  destruct (batch_order batch by_id Hb) as [Hids Hout].
  assert (checkpointed_ids (progress s) ⊆ checkpointed_ids (progress s1)) as Hg1.
  { assert (grows (W:=W) (hour_statement (fun now t =>
      (tt, refresh_hourly_ingest_lease now (hour_key date hour queue_id) t)))) as Hg by apply grows_statement.
    specialize (Hg s). by rewrite E1 in Hg. }
  apply take_outcomes_took in Ed as [Ht Hr].
  2: { eapply Forall_impl; [exact Hout|]. simpl. intros x Hx%elem_of_list_to_map_2.
       rewrite Forall_forall in Hf. by apply (Hf _ Hx). }
  assert (took (filter (fun id => is_Some (by_id !! id)) batch) d s d1 s3) as Ht1.
  { rewrite <-Hids. destruct Ht as [Hc Hfl Hd Hg]. split; try done. rewrite <-Hp in Hg1. by etrans. }
  clear Ht Hids Hout Hf Hndl Hp Hg1 E1. set (xs := filter _ batch) in *.
  set (rest := foldl (fun l id => remove_first id l) (remaining d1) xs) in E.
  assert (remaining d ≡ₚ xs ++ rest) as Hperm.
  { unfold rest. rewrite Hr. apply remove_each_perm.
    apply (submseteq_trans _ batch); [apply sublist_submseteq, sublist_filter|].
    apply sublist_submseteq, sublist_take. }
  destruct (find_first (fun id => bool_decide (by_id !! id = None)) batch) as [blocker|] eqn:Eb.
  - apply find_first_Some in Eb as [Hin Hnone%bool_decide_eq_true].
    apply singleton_took in E as [Ht2 Hr2]. simpl in Hr2. exists (xs ++ [blocker]). split_and!.
    + eapply took_app; [exact Ht1|]. by eapply took_tallies; [| |exact Ht2].
    + rewrite Hr2, Hperm, <-app_assoc. f_equiv. apply remove_first_perm.
      assert (blocker ∈ remaining d) as Hrem by (apply elem_of_take in Hin as (i & Hi & _); by eapply list_elem_of_lookup_2).
      rewrite Hperm in Hrem. apply elem_of_app in Hrem as [Hx|]; [|done].
      apply list_elem_of_filter in Hx as [[v Hv] _]. congruence.
    + intros _ [_ Hn]%app_nil. done.
  - injection E as <- <-. exists xs. split_and!.
    + by eapply took_result; [| |exact Ht1].
    + done.
    + intros Hne Hx. apply find_first_None in Eb. destruct batch as [|id r] eqn:Eq.
      * unfold batch in Eq. by destruct (remaining d).
      * apply Forall_inv, bool_decide_eq_false in Eb.
        assert (id ∈ xs) as Hid; [|by rewrite Hx in Hid; apply elem_of_nil in Hid].
        apply list_elem_of_filter. split; [by apply not_eq_None_Some|by left].
Qed.

(** The loop ends with an empty queue, every match accounted for. *)
Lemma drain_loop_took turns d (s : P) d' s' :
  drain_loop turns queue_id date hour source d s = (Ok d', s') ->
  NoDup (remaining d) -> (length (remaining d) <= turns)%nat ->
  remaining d' = [] /\ exists xs, took xs d s d' s' /\ remaining d ≡ₚ xs.
Proof.
  revert d s. induction turns as [|n IH]; intros d s E Hnd Hl; simpl in E.
  { injection E as <- <-. destruct (remaining d) eqn:Er; [|simpl in Hl; lia].
    split; [done|]. exists []. split; [apply took_nothing|done]. }
  destruct (remaining d) as [|id r] eqn:Er.
  { injection E as <- <-. split; [done|]. exists []. split; [apply took_nothing|done]. }
  rewrite <-Er in *. apply try_ok in E as (d1 & s1 & E1 & E2).
  destruct (round_took _ _ _ _ E1 Hnd) as (xs & Ht & Hp & Hne).
  assert (xs <> []) as Hxs by (apply Hne; by rewrite Er).
  apply IH in E2 as (Hr & ys & Ht2 & Hp2).
  - split; [done|]. exists (xs ++ ys). split; [by eapply took_app|]. by rewrite Hp, Hp2.
  - rewrite Hp in Hnd. by apply NoDup_app in Hnd as (_ & _ & ?).
  - apply Permutation_length in Hp. rewrite length_app in Hp. destruct xs; [done|]. simpl in Hp. lia.
Qed.
End drain.

(** ** The relay calls of a drain *)

Section calls.
Context {W : Type} `{PipelineServices W}.
Abbreviation P := (PipelineState W).

(** [calls] counts the calls made to the relay's endpoint; database and fact
    store do not call it. *)
Record relay_metered (calls : W -> nat) : Prop := {
  metered_db : forall x, calls (snd (snd (db_begin x))) = calls (snd x);
  metered_relay : forall op args consumer x,
    calls (snd (snd (relay_call op args consumer x))) = S (calls (snd x));
  metered_finalize : forall p source x, calls (snd (snd (facts_finalize p source x))) = calls (snd x);
  metered_project : forall id x, calls (snd (snd (project_match id x))) = calls (snd x);
  metered_project_all : forall id x, calls (snd (snd (project_all_for_match id x))) = calls (snd x);
}.

Variable calls : W -> nat.
Hypothesis metered : relay_metered calls.

Definition costs {A} (n : nat) (c : ST P A) : Prop :=
  forall s, (calls (world (snd (c s))) <= calls (world s) + n)%nat.

Lemma calls_ret {A} (a : A) : costs 0 (mret a).
Proof. intros s. simpl. lia. Qed.

Lemma costs_more {A} n m (c : ST P A) : costs n c -> (n <= m)%nat -> costs m c.
Proof. intros Hc Hm s. specialize (Hc s). lia. Qed.

Lemma calls_bind {A B} n m (c : ST P A) (k : A -> ST P B) :
  costs n c -> (forall a, costs m (k a)) -> costs (n + m) (c ≫= k).
Proof.
  intros Hc Hk s. unfold mbind, ST_bind. specialize (Hc s). destruct (c s) as [a s1].
  specialize (Hk a s1). simpl in Hc. lia.
Qed.

Lemma calls_try {A B E} n m (c : ST P (result A E)) (k : A -> ST P (result B E)) :
  costs n c -> (forall a, costs m (k a)) -> costs (n + m) (try_bind c k).
Proof.
  intros Hc Hk s. unfold try_bind. specialize (Hc s). destruct (c s) as [[a|e] s1]; simpl in Hc |- *; [|lia].
  specialize (Hk a s1). lia.
Qed.

Lemma costs_service {A} n (c : ST (PipelineDb * W) A) :
  (forall x, calls (snd (snd (c x))) = (calls (snd x) + n)%nat) -> costs n (service c).
Proof.
  intros Hc s. unfold service. specialize (Hc (pdb s, world s)). destruct (c _) as [a [d w]].
  simpl in *. lia.
Qed.

Lemma costs_statement {A} (f : Z -> PipelineDb -> A * PipelineDb) : costs 0 (statement f).
Proof.
  apply (calls_bind 0 0).
  - apply costs_service. intros x. rewrite (metered_db _ metered). lia.
  - intros [now|m]; [|apply calls_ret]. apply (calls_bind 0 0); [|intros a; apply calls_ret].
    intros s. unfold on_db. destruct (f now (pdb s)). simpl. lia.
Qed.

Lemma costs_progress f : costs 0 (on_progress f).
Proof. intros s. simpl. lia. Qed.

(** Steps that never call the relay. *)
Ltac free :=
  repeat first
    [ apply calls_ret | apply costs_statement | apply costs_progress
    | apply (calls_try 0 0); [|intros] | apply (calls_bind 0 0); [|intros] | case_match
    | apply costs_service; intros;
      first [rewrite (metered_finalize _ metered)|rewrite (metered_project _ metered)
            |rewrite (metered_project_all _ metered)]; lia ].

Lemma costs_take_outcomes q source xs d : costs 0 (take_outcomes q source xs d).
Proof.
  revert d. induction xs as [|[id o] r IH]; intros d; simpl; [apply calls_ret|].
  apply (calls_try 0 0); [|intros; apply IH].
  case_bool_decide; [apply calls_ret|].
  unfold settle, checkpoint_canonical_outcome, finalize_outcome, record_terminal_outcome, hour_statement,
    outage_statement, project_population, checkpointed. free.
Qed.

Lemma costs_fetch q ids : costs 1 (fetch_batch q ids).
Proof.
  apply (calls_bind 1 0); [apply costs_service; intros x; rewrite (metered_relay _ metered); lia|].
  unfold record_match_detail_outage, outage_statement. intros r. free.
Qed.

Lemma costs_round q date hour source d : costs 2 (drain_round q date hour source d).
Proof.
  apply (calls_try 0 2); [apply costs_statement|]. intros _.
  apply (calls_try 1 1); [apply costs_fetch|]. intros l.
  apply (calls_try 0 1); [apply costs_take_outcomes|]. intros d1.
  case_match; [|apply (costs_more 0); [apply calls_ret|lia]].
  apply (calls_try 1 0); [apply costs_fetch|]. intros l2.
  apply (calls_try 0 0); [apply costs_take_outcomes|]. intros d2. apply calls_ret.
Qed.

Lemma costs_loop turns q date hour source d : costs (2 * turns) (drain_loop turns q date hour source d).
Proof.
  revert d. induction turns as [|n IH]; intros d; simpl; [apply calls_ret|].
  destruct (remaining d); [apply (costs_more 0); [apply calls_ret|lia]|].
  replace (S (n + S (n + 0)))%nat with (2 + 2 * n)%nat by lia.
  apply calls_try; [apply costs_round|]. intros d1. apply IH.
Qed.

(** C5. The drain of new matches ends after at most two relay calls for each
    of them, whatever the relay answers or omits; and when it succeeds it has
    counted exactly these, and finalized, projected and checkpointed every one,
    or, where the relay answered another match's payload under its id, that
    other match: none is skipped, counted twice or left for later. *)
Theorem drain_accounts_for_all q date hour source ids (s : P) r s' :
  NoDup ids ->
  fetch_discovered_completed_continuously ids q date hour source s = (r, s') ->
  (calls (world s') <= calls (world s) + 2 * length ids)%nat /\
  forall n, r = Ok n ->
    n = length (filter (fun id => 0 < id) ids) /\
    forall id, id ∈ ids -> 0 < id -> accounted_in (checkpointed_ids (progress s')) id.
Proof.
  intros Hnd. unfold fetch_discovered_completed_continuously.
  set (pos := filter (fun id => 0 < id) ids). intros E. split.
  - assert (costs (2 * length pos + 0) (d <-? drain_loop (length pos) q date hour source (start_drain pos);
      mret (drain_result " match(es)" d))) as Hc.
    { apply calls_try; [apply costs_loop|intros d; apply calls_ret]. }
    specialize (Hc s). cbn zeta in E. rewrite E in Hc. simpl in Hc.
    pose proof (length_filter (fun id => 0 < id) ids) as Hl. fold pos in Hl. lia.
  - intros n ->. apply try_ok in E as (d & s1 & E & Er). injection Er as Er <-.
    destruct (drain_loop_took q source date hour _ _ _ _ _ E) as (_ & xs & Ht & Hp).
    + by apply NoDup_filter.
    + done.
    + simpl in Hp. unfold drain_result in Er. destruct (failures d) eqn:Ef; [|done]. injection Er as <-.
      split.
      * pose proof (took_count _ _ _ _ _ Ht) as Hc. rewrite Ef in Hc. simpl in Hc.
        rewrite (Permutation_length Hp). lia.
      * intros id Hid Hpos. apply (took_done _ _ _ _ _ Ht Ef). rewrite <-Hp.
        by apply list_elem_of_filter.
Qed.
End calls.

(** ** Outcomes without a match *)

(** An outcome of the batch that carries no match, as the relay answers
    for a match the provider dropped, is always one more failure of the drain:
    it is never recorded as terminally unavailable, so the queue-hour that
    contains it cannot be completed by the batch drain. *)
Theorem dropped_outcome_is_failure {W} `{PipelineServices W} queue_id source id outcome e d
    (s : PipelineState W) d' s' :
  from_relay_value outcome = Err e ->
  take_outcome queue_id source (id, outcome) d s = (Ok d', s') ->
  completed d' = completed d /\ (exists m, failures d' = failures d ++ [m]) /\
  checkpointed_ids (progress s') = checkpointed_ids (progress s) /\
  forall what, is_ok (drain_result what d') = false.
Proof.
  intros He. unfold take_outcome. case_bool_decide; [done|].
  intros (r & s1 & Er & E)%bind_eq.
  assert ((exists m, r = Err (PipelineDatabase m) \/ r = Err (PipelineFacts m)) /\
    progress s1 = progress s) as [[m Hr] Hp].
  { unfold checkpoint_canonical_outcome, try_bind in Er.
    assert (forall s0, exists m, finalize_outcome outcome queue_id source s0 = (Err (PipelineFacts m), s0)) as Hfin.
    { intros s0. unfold finalize_outcome. rewrite He. by destruct (_ <=? 0); eexists. }
    destruct (authoritative_match_outcome outcome).
    - unfold outage_statement, statement, mbind, ST_bind, service in Er.
      destruct (db_begin _) as [[now|m] [dd w]]; simpl in Er.
      + destruct (Hfin {| pdb := {| hour_tables := hour_tables dd;
          outages := mark_hirez_service_recovered now MATCH_DETAIL_SERVICE_OUTAGE_KEY
            (Some "canonical completed-match batch returned authoritative rows") (outages dd) |};
          progress := progress s; world := w |}) as [m Hm].
        rewrite Hm in Er. injection Er as <- <-. split; [|done]. exists m. by right.
      + injection Er as <- <-. split; [|done]. exists m. by left.
    - destruct (Hfin s) as [m Hm]. simpl in Er. rewrite Hm in Er. injection Er as <- <-.
      split; [|done]. exists m. by right. }
  assert (d' = {| remaining := remaining d; emitted := emitted (emit id d); completed := completed d;
      failures := failures d ++ [match_failure id (pipeline_error_to_string
        (match r with Err e => e | Ok _ => PipelineFacts "" end))] |} /\ s' = s1) as [-> ->].
  { destruct Hr as [-> | ->]; by injection E as <- <-. }
  simpl. split_and!; [done|eauto|by rewrite Hp|].
  intros what. unfold drain_result. simpl. by destruct (failures d).
Qed.
