(* ===== verification/MatchFacts.v ===== *)
(** * The facts of a match (src/backend-rust/src/workers/match_facts.rs)

    What the relay or the raw buffer says of a finished match, as one payload:
    its decoding, its validation, the slots of its private players, its bans
    and the quality its row is given. *)

From S2P Require Import Prelude Json Queue Lifecycle Pipeline.

Definition RANKED_STATS_QUEUE_ID : Z := 486.
Definition FACT_STAGES : list string := ["core"; "player_facts"; "match_bans"].
Definition PRIVATE_ACCOUNT_NAME : string := "PRIVATEACCOUNT".

(** ** Values of a player row *)

Definition positive_or_signed_i64 (v : option value) : option Z :=
  v ← v; or_else (as_i64 v) (s ← as_str v; parse_i64 s).

Definition positive_i64 (v : option value) : option Z :=
  n ← positive_or_signed_i64 v; if 0 <? n then Some n else None.

Definition player_i64 (player : value) (name : string) : Z :=
  default 0 (positive_or_signed_i64 (get name player)).

Definition player_text (player : value) (name : string) : string :=
  default "" (v ← get name player; as_str v).

Definition player_bool (player : value) (name : string) : bool :=
  match get name player with
  | Some v =>
      match as_bool v with Some true => true | _ => false end
      || match as_i64 v with Some n => negb (n =? 0) | None => false end
      || match as_str v with
         | Some s => existsb (String.eqb (to_ascii_lowercase s)) ["true"; "1"; "y"]
         | None => false
         end
  | None => false
  end.

Definition value_i64 (v : value) : option Z :=
  or_else (as_i64 v) (s ← as_str v; parse_i64 (trim s)).

Definition value_text (v : value) : option string :=
  match v with
  | Str s => Some s
  | Number n => Some (number_to_string n)
  | Bool b => Some (if b then "true" else "false")
  | _ => None
  end.

Definition normalized_region (region : string) : string := canonical_region region.

Definition is_private_player (player : value) : bool :=
  (player_i64 player "player_id" =? 0)
  && eq_ignore_ascii_case (player_text player "player_name") PRIVATE_ACCOUNT_NAME.

Definition is_detailed_player (player : value) : bool :=
  let source := to_ascii_lowercase (player_text player "source") in
  (0 <? player_i64 player "champion_id")
  && (String.eqb source "direct" || String.eqb source "recovered")
  && ((player_i64 player "task_force" =? 1) || (player_i64 player "task_force" =? 2))
  && existsb (String.eqb (to_ascii_lowercase (player_text player "win_status")))
       ["winner"; "win"; "loser"; "loss"].

(** ** Private slots *)

Definition private_sort_key (player : value) : string :=
  String.concat ":"
    (map (fun name => pretty (player_i64 player name))
       ["task_force"; "party_id"; "champion_id"; "account_level"; "mastery_level"; "league_tier";
        "league_points"]
     ++ [player_text player "portal_user_id"]
     ++ [pretty (player_i64 player "kills"); pretty (player_i64 player "deaths");
         pretty (player_i64 player "assists"); player_text player "source"]).

Definition le_private (l r : string * nat) : bool := le_bytes (fst l) (fst r).

(** The private players by their key, each with its index. *)
Definition private_order (players : list value) : list (string * nat) :=
  sort_by le_private
    (map (fun p => (private_sort_key (snd p), fst p))
       (List.filter (fun p => is_private_player (snd p)) (imap pair players))).

Definition set_slot (slot : Z) (player : value) : value :=
  match player with
  | Object m => Object (insert_field "_private_slot" (Number (NInt slot)) m)
  | _ => player
  end.

(** The slots from [slot] on, in the order of the keys. *)
Fixpoint fill_slots (slot : Z) (order : list (string * nat)) (players : list value) : list value :=
  match order with
  | [] => players
  | (_, index) :: order => fill_slots (slot + 1) order (alter (set_slot slot) index players)
  end.

Definition assign_private_slots (players : list value) : list value :=
  fill_slots 1 (private_order players) players.

(** ** The payload *)

Record CanonicalMatchPayload := {
  p_match_id : Z;
  p_entry_datetime : string;
  p_map : string;
  p_queue_id : Z;
  p_duration_seconds : Z;
  p_region : string;
  p_team1_score : option Z;
  p_team2_score : option Z;
  p_winning_task_force : option Z;
  p_has_replay : option bool;
  p_recovery_source : option string;
  p_recovery_api_calls : option Z;
  p_limited : option bool;
  p_players : list value;
  p_extra : fields;
}.

(** *** The derived decoding *)

(** The message of a decoding error of serde_json. *)
Class DecodeMessages := decode_message : value -> string.

Definition i32_value (v : value) : option Z := n ← as_i64 v; in_range i32_min i32_max n.

(** [#[serde(default)]]: an absent field is the default, a present one decodes. *)
Definition field_or {A} (decode : value -> option A) (d : A) (v : option value) : option A :=
  match v with None => Some d | Some v => decode v end.

(** An optional field: absent and null are none. *)
Definition optional {A} (decode : value -> option A) (v : option value) : option (option A) :=
  match v with None | Some Null => Some None | Some v => Some <$> decode v end.

Definition payload_fields : list string := [
  "match_id"; "entry_datetime"; "map"; "queue_id"; "duration_seconds"; "region"; "team1_score";
  "team2_score"; "winning_task_force"; "has_replay"; "recovery_source"; "recovery_api_calls";
  "limited"; "players"
].

Definition payload_from_value (v : value) : option CanonicalMatchPayload :=
  m ← as_object v;
  match_id ← (v ← lookup_field "match_id" m; as_i64 v);
  entry_datetime ← field_or as_str "" (lookup_field "entry_datetime" m);
  map ← field_or as_str "" (lookup_field "map" m);
  queue_id ← field_or i32_value 0 (lookup_field "queue_id" m);
  duration_seconds ← field_or i32_value 0 (lookup_field "duration_seconds" m);
  region ← field_or as_str "" (lookup_field "region" m);
  team1 ← optional i32_value (lookup_field "team1_score" m);
  team2 ← optional i32_value (lookup_field "team2_score" m);
  winner ← optional i32_value (lookup_field "winning_task_force" m);
  has_replay ← optional as_bool (lookup_field "has_replay" m);
  recovery_source ← optional as_str (lookup_field "recovery_source" m);
  recovery_api_calls ← optional i32_value (lookup_field "recovery_api_calls" m);
  limited ← optional as_bool (lookup_field "limited" m);
  players ← field_or as_array [] (lookup_field "players" m);
  Some {| p_match_id := match_id; p_entry_datetime := entry_datetime; p_map := map;
          p_queue_id := queue_id; p_duration_seconds := duration_seconds; p_region := region;
          p_team1_score := team1; p_team2_score := team2; p_winning_task_force := winner;
          p_has_replay := has_replay; p_recovery_source := recovery_source;
          p_recovery_api_calls := recovery_api_calls; p_limited := limited; p_players := players;
          p_extra := List.filter (fun kv => negb (existsb (String.eqb (fst kv)) payload_fields)) m |}.

(** A resolution's [match], a match itself, or the first of an array. *)
Fixpoint unwrap_relay_match (v : value) : option value :=
  match v with
  | Array values => find_map unwrap_relay_match values
  | Object m =>
      match lookup_field "match" m with
      | Some (Object nested) => Some (Object nested)
      | _ =>
          match lookup_field "match_id" m with
          | Some _ => Some (Object (List.filter (fun kv => negb (String.eqb (fst kv) "match")) m))
          | None => None
          end
      end
  | _ => None
  end.

(** *** Validation *)

Definition with_scores (p : CanonicalMatchPayload) (scores : option Z * option Z * option Z) :
    CanonicalMatchPayload :=
  let '(team1, team2, winner) := scores in
  {| p_match_id := p_match_id p; p_entry_datetime := p_entry_datetime p; p_map := p_map p;
     p_queue_id := p_queue_id p; p_duration_seconds := p_duration_seconds p; p_region := p_region p;
     p_team1_score := team1; p_team2_score := team2; p_winning_task_force := winner;
     p_has_replay := p_has_replay p; p_recovery_source := p_recovery_source p;
     p_recovery_api_calls := p_recovery_api_calls p; p_limited := p_limited p;
     p_players := p_players p; p_extra := p_extra p |}.

Definition payload_normalize_score (p : CanonicalMatchPayload) : CanonicalMatchPayload :=
  with_scores p
    (normalize_score_evidence (p_queue_id p) (p_team1_score p) (p_team2_score p) (p_winning_task_force p)).

Definition is_object (v : value) : bool := match v with Object _ => true | _ => false end.

Definition validate (p : CanonicalMatchPayload) : result unit MatchFactError :=
  if p_match_id p <=? 0 then Err (InvalidPayload "match_id must be positive")
  else if p_queue_id p <=? 0 then Err (InvalidPayload "queue_id must be positive")
  else if p_duration_seconds p <=? 0 then Err (InvalidPayload "duration_seconds must be positive")
  else if is_empty (trim (p_map p)) then Err (InvalidPayload "map must be present")
  else if is_empty (trim (p_entry_datetime p)) then Err (InvalidPayload "entry_datetime must be present")
  else if negb (score_evidence_is_complete (p_queue_id p) (p_team1_score p) (p_team2_score p)
                  (p_winning_task_force p))
  then Err (InvalidPayload "completed match score is missing or contradictory")
  else match p_players p with
       | [] => Err (InvalidPayload "players must not be empty")
       | players =>
           if existsb (fun v => negb (is_object v)) players
           then Err (InvalidPayload "every player fact must be an object")
           else Ok tt
       end.

Definition count (f : value -> bool) (players : list value) : Z :=
  Z.of_nat (length (List.filter f players)).

Definition on_team (team : Z) (player : value) : bool := player_i64 player "task_force" =? team.

Definition validate_authoritative_players (players : list value) (limited : bool) (queue_id : Z) :
    result unit MatchFactError :=
  let team_one := count (on_team 1) players in
  let team_two := count (on_team 2) players in
  if limited then Ok tt
  else if negb (has_variable_human_roster queue_id) && negb (Z.of_nat (length players) =? 10) then
    Err (InvalidPayload ("complete match requires 10 logical players; received "
                         +:+ pretty (Z.of_nat (length players))))
  else if negb (has_variable_human_roster queue_id) && (negb (team_one =? 5) || negb (team_two =? 5)) then
    Err (InvalidPayload ("complete match requires a 5v5 roster; received "
                         +:+ pretty team_one +:+ "v" +:+ pretty team_two))
  else if existsb (fun p => negb (is_detailed_player p)) (List.filter (fun p => negb (is_private_player p)) players)
  then Err (InvalidPayload "public player facts must be direct or recovered authoritative rows")
  else Ok tt.

Definition is_limited (p : CanonicalMatchPayload) : bool :=
  match p_limited p with Some true => true | _ => false end.

Definition normalized_players (p : CanonicalMatchPayload) : result (list value) MatchFactError :=
  let players := assign_private_slots (p_players p) in
  match validate_authoritative_players players (is_limited p) (p_queue_id p) with
  | Ok _ => Ok players
  | Err e => Err e
  end.

(** *** From the relay and from the raw buffer *)

Section decoding.
Context `{DecodeMessages}.

Definition from_relay_value (v : value) : result CanonicalMatchPayload MatchFactError :=
  match unwrap_relay_match v with
  | None => Err (InvalidPayload "relay response did not contain a completed match")
  | Some candidate =>
      match payload_from_value candidate with
      | None => Err (InvalidPayload ("match contract decode failed: " +:+ decode_message candidate))
      | Some payload =>
          let payload := payload_normalize_score payload in
          match validate payload with Ok _ => Ok payload | Err e => Err e end
      end
  end.

Definition row_text (first : value) (names : list string) : string :=
  default "" (find_map (fun name => v ← get name first; value_text v) names).

Definition row_integer (first : value) (names : list string) : Z :=
  default 0 (find_map (fun name => v ← get name first; value_i64 v) names).

Definition row_optional_integer (first : value) (names : list string) : option Z :=
  n ← find_map (fun name => v ← get name first; value_i64 v) names; in_range i32_min i32_max n.

Definition ban_names (slot : Z) : list string :=
  ["ban_id_" +:+ pretty slot; "BanId" +:+ pretty slot; "Ban_" +:+ pretty slot].

(** The columns of bans of the first row. *)
Definition row_bans (first : value) : fields :=
  omap (fun name => v ← get name first; Some (name, v)) (concat (map ban_names (seqZ 1 8))).

(** The first row with a region that is not blank. *)
Definition rows_region (rows : list value) : string :=
  default "Unknown"
    (find_map (fun row =>
       region ← find_map (fun name => v ← get name row; value_text v) ["Region"; "region"];
       if is_empty (trim region) then None else Some region) rows).

Definition flag_of (first : value) (name : string) : bool :=
  default false (v ← get name first; as_bool v).

Definition from_buffer_rows (v : value) : result CanonicalMatchPayload MatchFactError :=
  match from_relay_value v with
  | Ok payload => Ok payload
  | Err _ =>
      match as_array v with
      | None | Some [] => Err (InvalidPayload "buffered match rows were empty")
      | Some ((first :: _) as rows) =>
          let recovery := row_text first ["recovery_source"] in
          let payload := payload_normalize_score {|
            p_match_id := row_integer first ["Match"; "match_id"];
            p_entry_datetime :=
              row_text first ["Entry_Datetime"; "entry_datetime"; "Match_Time"; "match_time"];
            p_map := row_text first ["Map_Game"; "map"];
            p_queue_id :=
              default 0 (in_range i32_min i32_max
                (row_integer first ["match_queue_id"; "Match_Queue_Id"; "queue_id"; "Queue"]));
            p_duration_seconds :=
              default 0 (in_range i32_min i32_max (row_integer first ["Match_Duration"; "duration_seconds"]));
            p_region := rows_region rows;
            p_team1_score := row_optional_integer first ["Team1Score"; "Team1_Score"; "team1_score"];
            p_team2_score := row_optional_integer first ["Team2Score"; "Team2_Score"; "team2_score"];
            p_winning_task_force :=
              row_optional_integer first ["Winning_TaskForce"; "Winning_Task_Force"; "winning_task_force"];
            p_has_replay :=
              Some (eq_ignore_ascii_case (row_text first ["hasReplay"; "Has_Replay"; "has_replay"]) "y"
                    || flag_of first "has_replay");
            p_recovery_source := if is_empty recovery then None else Some recovery;
            p_recovery_api_calls := row_optional_integer first ["recovery_api_calls"];
            p_limited :=
              Some (flag_of first "limited" || eq_ignore_ascii_case (row_text first ["limited"]) "true");
            p_players := rows;
            p_extra := row_bans first |} in
          match validate payload with Ok _ => Ok payload | Err e => Err e end
      end
  end.
End decoding.

(** *** Bans and quality *)

(** The banned champion of a slot: of the match, or of the first player that
    names one. *)
Definition ban_of (p : CanonicalMatchPayload) (slot : Z) : Z :=
  default 0
    (or_else (find_map (fun name => positive_i64 (lookup_field name (p_extra p))) (ban_names slot))
       (find_map (fun player => find_map (fun name => positive_i64 (get name player)) (ban_names slot))
          (p_players p))).

Definition ban_entries (p : CanonicalMatchPayload) : list (Z * Z) :=
  List.filter (fun e => 0 <? snd e) (map (fun slot => (slot, ban_of p slot)) (seqZ 1 8)).

Record MatchQualityFlags := {
  q_broken : bool;
  q_recovered : bool;
  q_private : bool;
  q_limited : bool;
  q_source : string;
}.

Definition is_minimal_private (player : value) : bool :=
  is_private_player player && (player_i64 player "champion_id" <=? 0).

Definition quality_flags (p : CanonicalMatchPayload) : MatchQualityFlags :=
  let has_recovered :=
    existsb (fun player => eq_ignore_ascii_case (player_text player "source") "recovered") (p_players p) in
  let has_private := existsb is_private_player (p_players p) in
  let has_minimal_private := existsb is_minimal_private (p_players p) in
  let limited := is_limited p in
  let recovered :=
    negb limited && has_recovered && negb has_minimal_private && forallb is_detailed_player (p_players p) in
  {| q_broken := limited || has_recovered || has_minimal_private;
     q_recovered := recovered;
     q_private := has_private;
     q_limited := limited;
     q_source := if has_minimal_private then "minimal" else if recovered then "recovery" else "direct" |}.

Definition nonranked_quality_name (p : CanonicalMatchPayload) (q : MatchQualityFlags) : string :=
  if q_limited q then "limited"
  else if roster_evidence_is_complete (p_queue_id p) (Z.of_nat (length (p_players p)))
          && (negb (q_broken q) || q_recovered q)
  then "complete"
  else "partial".

Definition population_for_queue (is_ranked : bool) (stats_scope : string) : MatchPopulation :=
  if is_ranked || String.eqb stats_scope "ranked" then Ranked
  else if String.eqb stats_scope "casual" then Casual
  else Special.

(** Every player's region in its canonical spelling. *)
Definition canonicalized_player_regions (players : list value) : list value :=
  map (fun player =>
         match player with
         | Object m => Object (insert_field "region" (Str (canonical_region (player_text player "region"))) m)
         | _ => player
         end) players.
