(* ===== verification/MatchFactStore.v ===== *)
(** * Persisting the facts of a match (src/backend-rust/src/workers/match_facts.rs)

    [finalize] writes a payload in one transaction: it classifies the queue,
    locks the ledger row, writes the stages that are not durable yet and closes
    the row.  The tables it decides on are modelled; the writers of player
    facts, party groups and private identities are an interface. *)

From S2P Require Import Prelude Json Queue Lifecycle Pipeline MatchFacts.

(** A row of [matches]. *)
Record MatchRow := {
  m_map : string;
  m_queue_id : Z;
  m_duration_seconds : Z;
  m_region : string;
  m_team1_score : option Z;
  m_team2_score : option Z;
  m_winning_task_force : option Z;
  m_has_replay : bool;
  m_is_ranked : bool;
  m_quality : MatchQualityFlags;
  m_surrendered : bool;
  m_match_level : Z;
  m_ingested_at : Z;
}.

(** A row of [casual_matches] or [special_matches], without the participant
    model a special one copies from its queue. *)
Record NonrankedRow := {
  n_queue_id : Z;
  n_stats_scope : option string;
  n_entry_datetime : Z;
  n_region : string;
  n_map : string;
  n_duration_seconds : Z;
  n_team1_score : option Z;
  n_team2_score : option Z;
  n_winning_task_force : option Z;
  n_quality : string;
  n_stats_eligible : bool;
  n_player_count : Z;
  n_source : string;
  n_ingested_at : Z;
}.

(** A row of [hourly_match_counts]: the count of each region's column. *)
Record HourCount := { region_counts : gmap string Z; total_matches : Z }.

(** Keys: a match and its instant; a day, an hour and a queue. *)
Record FactDb (W : Type) := {
  tables : MatchTables;
  matches : gmap (Z * Z) MatchRow;
  casual_matches : gmap Z NonrankedRow;
  special_matches : gmap Z NonrankedRow;
  hourly_counts : gmap (Z * Z * Z) HourCount;
  champions : gset Z;
  match_bans : gmap (Z * Z) Z;
  facts_rest : W;
}.
Arguments tables {W} _.
Arguments matches {W} _.
Arguments casual_matches {W} _.
Arguments special_matches {W} _.
Arguments hourly_counts {W} _.
Arguments champions {W} _.
Arguments match_bans {W} _.
Arguments facts_rest {W} _.
Arguments Build_FactDb {W} _ _ _ _ _ _ _ _.

(** A parsed instant in seconds, with the offset it was written in. *)
Record OffsetTime := { utc_seconds : Z; offset_seconds : Z }.

(** What the transaction meets: its instant, whether the next statement fails,
    what becomes of its commit,
    the value of a timestamp text in PostgreSQL and in the program, and the
    writers that are not modelled. *)
Class FactServices (W : Type) := {
  begin_transaction : ST W (result Z string);
  statement_fails : ST W (option string);
  commit_transaction : ST W commit_outcome;
  timestamptz : string -> option Z;
  parse_entry : string -> option OffsetTime;
  persist_player_facts : CanonicalMatchPayload -> MatchPopulation -> list value ->
    ST W (result unit MatchFactError);
  persist_ranked_party_groups : CanonicalMatchPayload -> ST W (result unit MatchFactError);
  persist_private_identities : CanonicalMatchPayload -> list value -> bool ->
    ST W (result unit MatchFactError);
}.

Record MatchFactFinalization := {
  fin_match_id : Z;
  fin_population : MatchPopulation;
  fin_player_count : Z;
  fin_facts_written : bool;
  fin_completed_stages : list string;
}.

Section store.
Context {W : Type} `{FactServices W}.
Notation Db := (FactDb W).
Notation M := (ST (FactDb W)).

Definition with_tables (t : MatchTables) (db : Db) : Db :=
  Build_FactDb t (matches db) (casual_matches db) (special_matches db) (hourly_counts db)
    (champions db) (match_bans db) (facts_rest db).
Definition with_matches (m : gmap (Z * Z) MatchRow) (db : Db) : Db :=
  Build_FactDb (tables db) m (casual_matches db) (special_matches db) (hourly_counts db)
    (champions db) (match_bans db) (facts_rest db).
Definition with_casual (m : gmap Z NonrankedRow) (db : Db) : Db :=
  Build_FactDb (tables db) (matches db) m (special_matches db) (hourly_counts db)
    (champions db) (match_bans db) (facts_rest db).
Definition with_special (m : gmap Z NonrankedRow) (db : Db) : Db :=
  Build_FactDb (tables db) (matches db) (casual_matches db) m (hourly_counts db)
    (champions db) (match_bans db) (facts_rest db).
Definition with_hourly (m : gmap (Z * Z * Z) HourCount) (db : Db) : Db :=
  Build_FactDb (tables db) (matches db) (casual_matches db) (special_matches db) m
    (champions db) (match_bans db) (facts_rest db).
Definition with_bans (c : gset Z) (m : gmap (Z * Z) Z) (db : Db) : Db :=
  Build_FactDb (tables db) (matches db) (casual_matches db) (special_matches db) (hourly_counts db)
    c m (facts_rest db).
Definition with_rest (w : W) (db : Db) : Db :=
  Build_FactDb (tables db) (matches db) (casual_matches db) (special_matches db) (hourly_counts db)
    (champions db) (match_bans db) w.

Definition on_rest {A} (f : ST W A) : M A :=
  fun db => let '(a, w) := f (facts_rest db) in (a, with_rest w db).

(** A statement: it may fail, and otherwise acts on the tables. *)
Definition statement {A} (f : Db -> result A MatchFactError * Db) : M (result A MatchFactError) :=
  failure ← on_rest statement_fails;
  match failure with
  | Some message => mret (Err (FactQuery message))
  | None => f
  end.

Definition execute {A} (f : Db -> A * Db) : M (result A MatchFactError) :=
  statement (fun db => let '(a, db') := f db in (Ok a, db')).

(** *** Queue and ledger *)

(** An unknown queue is inserted unranked, with the scope [other]. *)
Definition ensure_queue_taxonomy (queue_id : Z) (t : MatchTables) : MatchTables :=
  match queue_types t !! queue_id with
  | Some _ => t
  | None =>
      {| rows := rows t; participants := participants t; fact_players := fact_players t;
         history_entries := history_entries t;
         queue_types := <[queue_id := (false, "other")]> (queue_types t) |}
  end.

Definition classify_queue (queue_id : Z) : M (result MatchPopulation MatchFactError) :=
  _ <-? execute (fun db => (tt, with_tables (ensure_queue_taxonomy queue_id (tables db)) db));
  execute (fun db =>
    (let '(is_ranked, scope) := default (false, "other") (queue_types (tables db) !! queue_id) in
     population_for_queue is_ranked scope, db)).

(** The row an existing one is updated to, and the one inserted. *)
Definition locked_row (now : Z) (source : string) (queue_id : Z) (population : MatchPopulation)
    (r : IngestRow) : IngestRow :=
  {| row_status :=
       if String.eqb (row_status r) "complete" || String.eqb (row_status r) "limited"
       then row_status r else "processing";
     row_completed_stages := row_completed_stages r;
     row_source := Some source;
     row_attempts := row_attempts r + 1;
     row_error_message := None;
     row_queue_id := coalesce (row_queue_id r) (Some queue_id);
     row_population :=
       if String.eqb (row_population r) "unknown" then population_as_database population
       else row_population r;
     row_acquisition_state :=
       if String.eqb (row_acquisition_state r) "complete"
          || String.eqb (row_acquisition_state r) "limited"
       then row_acquisition_state r else "detail_complete";
     detail_attempted_at := coalesce (detail_attempted_at r) (Some now);
     roster_resolved_at := roster_resolved_at r; demo_resolved_at := demo_resolved_at r;
     row_direct_player_count := row_direct_player_count r;
     row_roster_player_count := row_roster_player_count r;
     row_unresolved_player_ids := row_unresolved_player_ids r;
     lease_owner := lease_owner r; lease_until := lease_until r;
     started_at := started_at r; updated_at := now; completed_at := completed_at r |}.

(** The conflicts a locked row has with the payload. *)
Definition fact_conflict (p : CanonicalMatchPayload) (population : MatchPopulation) (r : IngestRow) :
    option MatchFactError :=
  match row_queue_id r with
  | Some existing =>
      if negb (existing =? p_queue_id p)
      then Some (FactQueueConflict (p_match_id p) existing (p_queue_id p))
      else if negb (String.eqb (row_population r) "unknown")
              && negb (String.eqb (row_population r) (population_as_database population))
      then Some (FactPopulationConflict (p_match_id p) (row_population r) (population_as_database population))
      else None
  | None =>
      if negb (String.eqb (row_population r) "unknown")
         && negb (String.eqb (row_population r) (population_as_database population))
      then Some (FactPopulationConflict (p_match_id p) (row_population r) (population_as_database population))
      else None
  end.

Definition lock_ingest_status (now : Z) (p : CanonicalMatchPayload) (population : MatchPopulation)
    (source : string) : M (result (list string) MatchFactError) :=
  existing <-? execute (fun db => (rows (tables db) !! p_match_id p, db));
  match (r ← existing; fact_conflict p population r) with
  | Some e => mret (Err e)
  | None =>
      execute (fun db =>
        let r := locked_row now source (p_queue_id p) population
                   (default (new_row now) (rows (tables db) !! p_match_id p)) in
        (row_completed_stages r,
         with_tables (with_rows (<[p_match_id p := r]> (rows (tables db))) (tables db)) db))
  end.

(** [array_agg(DISTINCT stage_name ORDER BY stage_name)]. *)
Definition merged_stages (stages : list string) (stage : string) : list string :=
  sort_by le_bytes (remove_dups (stages ++ [stage])).

Definition staged_row (now : Z) (stage : string) (r : IngestRow) : IngestRow :=
  {| row_status := row_status r;
     row_completed_stages := merged_stages (row_completed_stages r) stage;
     row_source := row_source r; row_attempts := row_attempts r;
     row_error_message := row_error_message r; row_queue_id := row_queue_id r;
     row_population := row_population r; row_acquisition_state := row_acquisition_state r;
     detail_attempted_at := detail_attempted_at r; roster_resolved_at := roster_resolved_at r;
     demo_resolved_at := demo_resolved_at r;
     row_direct_player_count := row_direct_player_count r;
     row_roster_player_count := row_roster_player_count r;
     row_unresolved_player_ids := row_unresolved_player_ids r;
     lease_owner := lease_owner r; lease_until := lease_until r;
     started_at := started_at r; updated_at := now; completed_at := completed_at r |}.

(** An UPDATE of the row of the match. *)
Definition update_row (id : Z) (f : IngestRow -> IngestRow) : M (result unit MatchFactError) :=
  execute (fun db => (tt, with_tables (with_rows (alter f id (rows (tables db))) (tables db)) db)).

Definition add_stage (now id : Z) (stage : string) : M (result unit MatchFactError) :=
  update_row id (staged_row now stage).

(** *** Matches *)

Definition match_row (now : Z) (p : CanonicalMatchPayload) (population : MatchPopulation)
    (quality : MatchQualityFlags) : MatchRow :=
  {| m_map := p_map p; m_queue_id := p_queue_id p; m_duration_seconds := p_duration_seconds p;
     m_region := normalized_region (p_region p);
     m_team1_score := p_team1_score p; m_team2_score := p_team2_score p;
     m_winning_task_force := p_winning_task_force p;
     m_has_replay := default false (p_has_replay p);
     m_is_ranked := bool_decide (population = Ranked);
     m_quality := quality;
     m_surrendered := existsb (fun player => player_bool player "surrendered") (p_players p);
     m_match_level :=
       wrap_i32 (match map (fun player => player_i64 player "final_match_level") (p_players p) with
                 | [] => 0
                 | x :: levels => foldl Z.max x levels
                 end);
     m_ingested_at := now |}.

(** ON CONFLICT: the quality and the scores are replaced, the rest is kept. *)
Definition updated_match (incoming existing : MatchRow) : MatchRow :=
  {| m_map := m_map existing; m_queue_id := m_queue_id existing;
     m_duration_seconds :=
       if (m_duration_seconds existing <=? 0) && (0 <? m_duration_seconds incoming)
       then m_duration_seconds incoming else m_duration_seconds existing;
     m_region := m_region existing;
     m_team1_score := m_team1_score incoming; m_team2_score := m_team2_score incoming;
     m_winning_task_force := m_winning_task_force incoming;
     m_has_replay := m_has_replay existing; m_is_ranked := m_is_ranked existing;
     m_quality := m_quality incoming;
     m_surrendered := m_surrendered existing; m_match_level := m_match_level existing;
     m_ingested_at := m_ingested_at incoming |}.

(** A text that is no timestamp fails the statement. *)
Definition bad_timestamp : MatchFactError := FactQuery "invalid input syntax for type timestamp with time zone".

Definition persist_match (now : Z) (p : CanonicalMatchPayload) (population : MatchPopulation)
    (quality : MatchQualityFlags) : M (result unit MatchFactError) :=
  statement (fun db =>
    match timestamptz (p_entry_datetime p) with
    | None => (Err bad_timestamp, db)
    | Some entry =>
        let k := (p_match_id p, entry) in
        let r := match_row now p population quality in
        let r := match matches db !! k with Some existing => updated_match r existing | None => r end in
        (Ok tt, with_matches (<[k := r]> (matches db)) db)
    end).

Definition nonranked_row (now : Z) (p : CanonicalMatchPayload) (scope : option string) (entry : Z)
    (quality : MatchQualityFlags) : NonrankedRow :=
  let name := nonranked_quality_name p quality in
  {| n_queue_id := p_queue_id p; n_stats_scope := scope; n_entry_datetime := entry;
     n_region := normalized_region (p_region p); n_map := p_map p;
     n_duration_seconds := p_duration_seconds p;
     n_team1_score := p_team1_score p; n_team2_score := p_team2_score p;
     n_winning_task_force := (v ← p_winning_task_force p; in_range (-32768) 32767 v);
     n_quality := name; n_stats_eligible := String.eqb name "complete";
     n_player_count := Z.min (Z.of_nat (length (p_players p))) 32767;
     n_source := q_source quality; n_ingested_at := now |}.

(** The insert of a row, which keeps the instant of an existing one's first
    ingestion and replaces everything else. *)
Definition upsert_nonranked (id : Z) (r : NonrankedRow) (m : gmap Z NonrankedRow) : gmap Z NonrankedRow :=
  <[id :=
      match m !! id with
      | None => r
      | Some old =>
          {| n_queue_id := n_queue_id r; n_stats_scope := n_stats_scope r;
             n_entry_datetime := n_entry_datetime r; n_region := n_region r; n_map := n_map r;
             n_duration_seconds := n_duration_seconds r; n_team1_score := n_team1_score r;
             n_team2_score := n_team2_score r; n_winning_task_force := n_winning_task_force r;
             n_quality := n_quality r; n_stats_eligible := n_stats_eligible r;
             n_player_count := n_player_count r; n_source := n_source r;
             n_ingested_at := n_ingested_at old |}
      end]> m.

(** COALESCE(NULLIF(stats_scope,'ranked'),'other'). *)
Definition nonranked_scope (queue_id : Z) (t : MatchTables) : string :=
  match queue_types t !! queue_id with
  | Some (_, scope) => if String.eqb scope "ranked" then "other" else scope
  | None => "other"
  end.

Definition persist_nonranked_match (now : Z) (p : CanonicalMatchPayload) (population : MatchPopulation)
    (quality : MatchQualityFlags) : M (result unit MatchFactError) :=
  scope <-? execute (fun db => (nonranked_scope (p_queue_id p) (tables db), db));
  match population with
  | Casual =>
      statement (fun db =>
        match timestamptz (p_entry_datetime p) with
        | None => (Err bad_timestamp, db)
        | Some entry =>
            (Ok tt, with_casual (upsert_nonranked (p_match_id p) (nonranked_row now p None entry quality)
                                   (casual_matches db)) db)
        end)
  | Special =>
      statement (fun db =>
        match timestamptz (p_entry_datetime p) with
        | None => (Err bad_timestamp, db)
        | Some entry =>
            (Ok tt, with_special (upsert_nonranked (p_match_id p)
                                    (nonranked_row now p (Some scope) entry quality)
                                    (special_matches db)) db)
        end)
  | Ranked | Unknown =>
      mret (Err (InvalidPayload ("non-ranked match writer rejected " +:+ population_as_database population
                                 +:+ " population")))
  end.

(** *** The hour's count *)

Definition day_seconds : Z := 86400.
Definition hour_seconds : Z := 3600.

Definition local_seconds (t : OffsetTime) : Z := utc_seconds t + offset_seconds t.
Definition date_of (t : OffsetTime) : Z := local_seconds t / day_seconds.
Definition hour_of (t : OffsetTime) : Z := local_seconds t mod day_seconds / hour_seconds.

(** [replace_time(Time::from_hms(hour, 0, 0))]: the same date and offset. *)
Definition replace_hour (t : OffsetTime) (hour : Z) : Z :=
  date_of t * day_seconds + hour * hour_seconds - offset_seconds t.

Definition region_column (region : string) : string :=
  default "matches_unknown"
    (snd <$> find_first (fun e => String.eqb (fst e) region)
      [("NA", "matches_na"); ("EU", "matches_eu"); ("SEA", "matches_sea"); ("JPN", "matches_jpn");
       ("RUS", "matches_rus"); ("BR", "matches_br"); ("OCE", "matches_oce"); ("SA", "matches_sa")]).

(** The rows of a queue in [start, end) that are not limited; instants of the
    table are microseconds. *)
Definition micros : Z := 1000000.

Definition in_hour (queue_id start stop : Z) (e : (Z * Z) * MatchRow) : bool :=
  (m_queue_id (snd e) =? queue_id)
  && (start * micros <=? snd (fst e)) && (snd (fst e) <? stop * micros)
  && negb (q_limited (m_quality (snd e))).

Definition counted_matches (queue_id start stop : Z) (db : Db) : list ((Z * Z) * MatchRow) :=
  List.filter (in_hour queue_id start stop) (map_to_list (matches db)).

Definition upsert_hourly_count (p : CanonicalMatchPayload) : M (result unit MatchFactError) :=
  if negb (p_queue_id p =? RANKED_STATS_QUEUE_ID) then mret (Ok tt)
  else if is_empty (p_entry_datetime p) then mret (Ok tt)
  else
    match parse_entry (p_entry_datetime p) with
    | None =>
        mret (Err (InvalidPayload ("upsert_hourly_count: unparseable entry_datetime " +:+ p_entry_datetime p)))
    | Some parsed =>
        let hour := hour_of parsed in
        let next_hour := (hour + 1) mod 24 in
        let region := normalized_region (p_region p) in
        counts <-? execute (fun db =>
          let found := counted_matches (p_queue_id p) (replace_hour parsed hour)
                         (replace_hour parsed next_hour) db in
          ((Z.of_nat (length (List.filter (fun e => String.eqb (m_region (snd e)) region) found)),
            Z.of_nat (length found)), db));
        execute (fun db =>
          let k := (date_of parsed, hour, p_queue_id p) in
          let old := default {| region_counts := ∅; total_matches := 0 |} (hourly_counts db !! k) in
          (tt, with_hourly
                 (<[k := {| region_counts := <[region_column region := fst counts]> (region_counts old);
                            total_matches := snd counts |}]> (hourly_counts db)) db))
    end.

(** *** Bans *)

(** A champion's id is cast to [int]. *)
Definition persist_bans (match_id : Z) (bans : list (Z * Z)) : M (result unit MatchFactError) :=
  _ <-? statement (fun db =>
    if existsb (fun e => i32_max <? snd e) bans then (Err (FactQuery "integer out of range"), db)
    else (Ok tt, with_bans (list_to_set (map snd bans) ∪ champions db) (match_bans db) db));
  execute (fun db =>
    (tt, with_bans (champions db)
           (foldl (fun m e => <[(match_id, fst e) := snd e]> m) (match_bans db) bans) db)).

(** *** The transaction *)

Definition is_direct (player : value) : bool :=
  let source := to_ascii_lowercase (player_text player "source") in
  String.eqb source "direct" || String.eqb source "recovered".

(** The row at the end of the transaction. *)
Definition finalized_row (now : Z) (direct players : Z) (limited : bool) (r : IngestRow) : IngestRow :=
  {| row_status :=
       if String.eqb (row_status r) "complete" || String.eqb (row_status r) "limited"
       then row_status r else if limited then "limited" else "partial";
     row_completed_stages := row_completed_stages r;
     row_source := row_source r; row_attempts := row_attempts r;
     row_error_message := None;
     row_queue_id := row_queue_id r; row_population := row_population r;
     row_acquisition_state := if limited then "limited" else "facts_ready";
     detail_attempted_at := detail_attempted_at r; roster_resolved_at := roster_resolved_at r;
     demo_resolved_at := demo_resolved_at r;
     row_direct_player_count := direct; row_roster_player_count := players;
     row_unresolved_player_ids := [];
     lease_owner := lease_owner r; lease_until := lease_until r;
     started_at := started_at r; updated_at := now;
     completed_at := if limited then coalesce (completed_at r) (Some now) else completed_at r |}.

(** Run a stage unless it is durable; the stages after it. *)
Definition stage_unless (now id : Z) (stages : list string) (stage : string)
    (write : M (result unit MatchFactError)) : M (result (list string) MatchFactError) :=
  if bool_decide (stage ∈ stages) then mret (Ok stages)
  else
    _ <-? write;
    _ <-? add_stage now id stage;
    mret (Ok (stages ++ [stage])).

Definition write_core (now : Z) (p : CanonicalMatchPayload) (population : MatchPopulation)
    (quality : MatchQualityFlags) : M (result unit MatchFactError) :=
  if bool_decide (population = Ranked) then
    _ <-? persist_match now p population quality; upsert_hourly_count p
  else persist_nonranked_match now p population quality.

Definition transaction_body (now : Z) (p : CanonicalMatchPayload) (players : list value) (source : string) :
    M (result MatchFactFinalization MatchFactError) :=
  let bans := ban_entries p in
  let quality := quality_flags p in
  population <-? classify_queue (p_queue_id p);
  locked <-? lock_ingest_status now p population source;
  let already_durable := forallb (fun stage => bool_decide (stage ∈ locked)) FACT_STAGES in
  stages <-? stage_unless now (p_match_id p) locked "core" (write_core now p population quality);
  stages <-? stage_unless now (p_match_id p) stages "player_facts"
               (on_rest (persist_player_facts p population (canonicalized_player_regions players)));
  _ <-? (if bool_decide (population = Ranked) then on_rest (persist_ranked_party_groups p) else mret (Ok tt));
  _ <-? on_rest (persist_private_identities p players (q_limited quality));
  stages <-? stage_unless now (p_match_id p) stages "match_bans" (persist_bans (p_match_id p) bans);
  let player_count := Z.min (Z.of_nat (length players)) 32767 in
  let direct := Z.min (count is_direct players) 32767 in
  _ <-? update_row (p_match_id p) (finalized_row now direct player_count (q_limited quality));
  mret (Ok {| fin_match_id := p_match_id p; fin_population := population;
              fin_player_count := player_count; fin_facts_written := negb already_durable;
              fin_completed_stages := stages |}).

(** An error before the commit rolls everything back; a commit may take effect
    and its answer be lost. *)
Definition finalize (p : CanonicalMatchPayload) (source : string) :
    M (result MatchFactFinalization MatchFactError) :=
  match validate p, normalized_players p with
  | Err e, _ => mret (Err e)
  | Ok _, Err e => mret (Err e)
  | Ok _, Ok players =>
      fun db =>
        match begin_transaction (facts_rest db) with
        | (Err message, w) => (Err (FactDatabase message), with_rest w db)
        | (Ok now, w) =>
            match transaction_body now p players source (with_rest w db) with
            | (Ok done, db') =>
                let '(o, w) := commit_transaction (facts_rest db') in
                (map_err FactQuery (_ <-! reported o; Ok done),
                 with_rest w (if applied o then db' else db))
            | (Err e, _) => (Err e, with_rest w db)
            end
        end
  end.
End store.
