(* ===== verification/MatchFactsSpec.v ===== *)
(** * Properties of the payload of a match

    What a decoded payload is; the slots of private players; the bans; which
    matches count for statistics. *)

From S2P Require Import Prelude Json Queue Lifecycle Pipeline MatchFacts MatchFactStore.

(** ** Decoded payloads *)

(** A payload that can be persisted. *)
Record well_formed (p : CanonicalMatchPayload) : Prop := {
  wf_match_id : 0 < p_match_id p <= i64_max;
  wf_queue_id : 0 < p_queue_id p <= i32_max;
  wf_duration : 0 < p_duration_seconds p <= i32_max;
  wf_map : trim (p_map p) <> "";
  wf_entry : trim (p_entry_datetime p) <> "";
  wf_score : score_evidence_is_complete (p_queue_id p) (p_team1_score p) (p_team2_score p)
               (p_winning_task_force p) = true;
  wf_players : p_players p <> [];
  wf_objects : Forall (fun v => is_object v = true) (p_players p);
}.

(** The numbers of a payload fit their columns. *)
Definition in_columns (p : CanonicalMatchPayload) : Prop :=
  in_i64 (p_match_id p) /\ in_i32 (p_queue_id p) /\ in_i32 (p_duration_seconds p).

Lemma not_blank s : is_empty s = false -> s <> "".
Proof. by destruct s. Qed.

Lemma validate_well_formed p : in_columns p -> validate p = Ok tt -> well_formed p.
Proof.
  intros (Hm & Hq & Hd). unfold validate. unfold in_i64, in_i32 in *.
  destruct (Z.leb_spec (p_match_id p) 0); [done|].
  destruct (Z.leb_spec (p_queue_id p) 0); [done|].
  destruct (Z.leb_spec (p_duration_seconds p) 0); [done|].
  destruct (is_empty (trim (p_map p))) eqn:Emap; [done|].
  destruct (is_empty (trim (p_entry_datetime p))) eqn:Eentry; [done|].
  destruct (score_evidence_is_complete _ _ _ _) eqn:Escore; [|done]. simpl.
  destruct (p_players p) as [|x players] eqn:Eplayers; [done|].
  change (negb (is_object x) || existsb (fun v => negb (is_object v)) players)
    with (existsb (fun v => negb (is_object v)) (x :: players)).
  destruct (existsb (fun v => negb (is_object v)) (x :: players)) eqn:Eobj; [done|]. intros _.
  split; try lia; try done; try (by apply not_blank); rewrite Eplayers; [done|].
  apply Forall_forall. intros v Hv. destruct (is_object v) eqn:E; [done|]. exfalso.
  assert (existsb (fun v => negb (is_object v)) (x :: players) = true) as Hc; [|congruence].
  apply existsb_exists. exists v. split; [by apply list_elem_of_In|]. by rewrite E.
Qed.

Lemma i32_value_range v z : i32_value v = Some z -> in_i32 z.
Proof. unfold i32_value. intros (n & _ & [-> ?]%in_range_Some)%bind_Some. done. Qed.

Lemma field_or_i32 v z : field_or i32_value 0 v = Some z -> in_i32 z.
Proof. destruct v; simpl; [apply i32_value_range|]. by intros [= <-]. Qed.

Lemma payload_in_columns v p : payload_from_value v = Some p -> in_columns p.
Proof.
  unfold payload_from_value. intros (m & _ & Hp)%bind_Some.
  apply bind_Some in Hp as (id & (v' & _ & Hid)%bind_Some & Hp).
  repeat (apply bind_Some in Hp as (? & ? & Hp)). injection Hp as <-. unfold in_columns. simpl.
  split_and!; [by eapply as_i64_range|by eapply field_or_i32|by eapply field_or_i32].
Qed.

Lemma normalize_score_columns p : in_columns p -> in_columns (payload_normalize_score p).
Proof. unfold payload_normalize_score, with_scores. by destruct (normalize_score_evidence _ _ _ _) as [[??]?]. Qed.

Lemma value_i64_range v z : value_i64 v = Some z -> in_i64 z.
Proof.
  unfold value_i64, or_else. destruct (as_i64 v) eqn:E.
  - intros [= <-]. by eapply as_i64_range.
  - intros (s & _ & Hs)%bind_Some. unfold in_i64. by eapply parse_signed_range.
Qed.

Lemma row_integer_range first names : in_i64 (row_integer first names).
Proof.
  unfold row_integer. destruct (find_map _ names) as [z|] eqn:E; [|done]. simpl.
  apply find_map_Some in E as (name & _ & (v & _ & Hv)%bind_Some). by eapply value_i64_range.
Qed.

Lemma clamped_column z : in_i32 (default 0 (in_range i32_min i32_max z)).
Proof. destruct (in_range _ _ z) as [n|] eqn:E; [|done]. by apply in_range_Some in E as [-> ?]. Qed.

Section decoding.
Context `{DecodeMessages}.

Lemma from_relay_well_formed v p : from_relay_value v = Ok p -> well_formed p.
Proof.
  unfold from_relay_value. destruct (unwrap_relay_match v) as [c|]; [|done].
  destruct (payload_from_value c) as [q|] eqn:E; [|done]. apply payload_in_columns in E.
  destruct (validate _) as [[]|] eqn:Ev; [|done]. intros [= <-].
  by apply validate_well_formed; [apply normalize_score_columns|].
Qed.

(** C33. Whatever the relay or the raw buffer holds, a payload that is accepted
    can be persisted: its ids and its duration are positive and fit their
    columns, its map and its instant are present, its score is complete for its
    queue, and it has players, every one an object. *)
Theorem accepted_payload_well_formed v p :
  from_relay_value v = Ok p \/ from_buffer_rows v = Ok p -> well_formed p.
Proof.
  intros [Hr|Hb]; [by apply from_relay_well_formed in Hr|]. unfold from_buffer_rows in Hb.
  destruct (from_relay_value v) as [q|] eqn:Er; [injection Hb as <-; by apply from_relay_well_formed in Er|].
  destruct (as_array v) as [[|first rows]|]; try done.
  match type of Hb with context [validate ?q] => destruct (validate q) as [[]|] eqn:Ev; [|done] end.
  injection Hb as <-. apply validate_well_formed; [|done]. apply normalize_score_columns.
  split_and!; [apply row_integer_range|apply clamped_column|apply clamped_column].
Qed.
End decoding.

(** ** Private slots *)

Section slots.
Implicit Types (players : list value).

Lemma set_slot_private slot player : is_private_player (set_slot slot player) = is_private_player player.
Proof.
  unfold is_private_player, player_i64, player_text, positive_or_signed_i64. destruct player; try done.
  simpl. by rewrite !lookup_insert_field_ne by done.
Qed.

Lemma fill_slots_other slot order players i :
  i ∉ map snd order -> fill_slots slot order players !! i = players !! i.
Proof.
  revert slot players. induction order as [|[key j] order IH]; intros slot players Hi; [done|].
  simpl in *. apply not_elem_of_cons in Hi as [Hne Hi]. rewrite IH by done.
  by rewrite list_lookup_alter_ne by congruence.
Qed.

Lemma fill_slots_lookup slot order players j key i :
  NoDup (map snd order) -> order !! j = Some (key, i) ->
  fill_slots slot order players !! i = set_slot (slot + Z.of_nat j) <$> players !! i.
Proof.
  revert slot players j. induction order as [|[key' i'] order IH]; intros slot players j Hnd Hj; [done|].
  simpl in *. apply NoDup_cons in Hnd as [Hi Hnd]. destruct j as [|j]; simpl in Hj.
  - injection Hj as -> ->. rewrite fill_slots_other by done. rewrite list_lookup_alter_eq.
    f_equal. f_equal. lia.
  - assert (i <> i') as Hne.
    { intros ->. apply Hi. apply list_elem_of_fmap. exists (key, i'). split; [done|].
      by eapply list_elem_of_lookup_2. }
    rewrite (IH _ _ j) by done. rewrite list_lookup_alter_ne by congruence.
    f_equal. f_equal. lia.
Qed.

Lemma fill_slots_length slot order players : length (fill_slots slot order players) = length players.
Proof.
  revert slot players. induction order as [|[key i] order IH]; intros slot players; [done|].
  simpl. by rewrite IH, length_alter.
Qed.

Lemma private_order_perm players :
  private_order players ≡ₚ
  map (fun p => (private_sort_key (snd p), fst p))
    (List.filter (fun p => is_private_player (snd p)) (imap pair players)).
Proof. apply sort_by_perm. Qed.

Lemma imap_pair_fst (l : list value) k : map fst (imap (fun i x => ((k + i)%nat, x)) l) = seq k (length l).
Proof.
  revert k. induction l as [|x l IH]; intros k; [done|]. simpl. rewrite Nat.add_0_r. f_equal.
  rewrite <- IH. f_equal. apply imap_ext. intros i y _. simpl. f_equal. lia.
Qed.

Lemma NoDup_map_filter {A B} (f : A -> B) (p : A -> bool) l : NoDup (map f l) -> NoDup (map f (List.filter p l)).
Proof.
  induction l as [|x l IH]; [done|]. simpl. intros [Hx Hl]%NoDup_cons. destruct (p x); [|by apply IH].
  simpl. apply NoDup_cons. split; [|by apply IH]. intros Hin. apply Hx.
  apply list_elem_of_fmap in Hin as (y & -> & Hy). apply list_elem_of_fmap. exists y. split; [done|].
  apply list_elem_of_In in Hy. apply list_elem_of_In. by apply filter_In in Hy as [? _].
Qed.

Lemma private_order_nodup players : NoDup (map snd (private_order players)).
Proof.
  rewrite private_order_perm, map_map. simpl. apply NoDup_map_filter.
  pose proof (imap_pair_fst players 0) as E. simpl in E.
  pose proof (NoDup_seq 0 (length players)) as Hnd. rewrite <- E in Hnd. exact Hnd.
Qed.

Lemma private_order_elem players key i :
  (key, i) ∈ private_order players <->
  exists p, players !! i = Some p /\ is_private_player p = true /\ key = private_sort_key p.
Proof.
  rewrite private_order_perm, list_elem_of_fmap. split.
  - intros ([j p] & [= -> ->] & Hin). apply list_elem_of_In, filter_In in Hin as [Hin Hp].
    apply list_elem_of_In, elem_of_lookup_imap in Hin as (j' & p' & [= -> ->] & Hl). by exists p'.
  - intros (p & Hl & Hp & ->). exists (i, p). split; [done|].
    apply list_elem_of_In, filter_In. split; [|done]. apply list_elem_of_In, elem_of_lookup_imap. by exists i, p.
Qed.

Lemma le_private_total a b : le_private a b = false -> le_private b a = true.
Proof. unfold le_private. destruct (le_bytes_total (fst a) (fst b)); congruence. Qed.

(** The private players of a match get the slots from 1 on, one each, in
    the order of their facts; every other row is as it was.  [order] lists the
    positions of the private players by slot. *)
Theorem private_slots_assigned players :
  exists order : list nat,
    length (assign_private_slots players) = length players /\
    NoDup order /\
    (forall i, i ∈ order <-> exists p, players !! i = Some p /\ is_private_player p = true) /\
    (forall i, i ∉ order -> assign_private_slots players !! i = players !! i) /\
    (forall j i p, order !! j = Some i -> players !! i = Some p ->
       assign_private_slots players !! i = Some (set_slot (Z.of_nat j + 1) p)) /\
    LocallySorted (fun i j => forall p q, players !! i = Some p -> players !! j = Some q ->
       le_bytes (private_sort_key p) (private_sort_key q) = true) order.
Proof.
  exists (map snd (private_order players)). unfold assign_private_slots. split_and!.
  - apply fill_slots_length.
  - apply private_order_nodup.
  - intros i. rewrite list_elem_of_fmap. split.
    + intros ([key j] & -> & (p & Hl & Hp & _)%private_order_elem). by exists p.
    + intros (p & Hl & Hp). exists (private_sort_key p, i). split; [done|].
      apply private_order_elem. by exists p.
  - intros i Hi. by apply fill_slots_other.
  - intros j i p Hj Hp. apply list_lookup_fmap_Some in Hj as ([key i'] & -> & Hj).
    rewrite (fill_slots_lookup _ _ _ j key) by (apply private_order_nodup || done).
    rewrite Hp. simpl. do 2 f_equal. lia.
  - assert (LocallySorted (fun a b => le_private a b = true) (private_order players)) as Hs
      by (apply sort_by_sorted, le_private_total).
    assert (Forall (fun e => (e : string * nat) ∈ private_order players) (private_order players)) as Hall
      by (by apply Forall_forall).
    revert Hs Hall. generalize (private_order players) at 1 3 4 as l.
    induction l as [|a l IH]; intros Hs Hall; simpl; [constructor|].
    destruct l as [|b l]; simpl; [constructor|]. inversion Hs as [| |? ? ? Hs' Hab]; subst.
    apply Forall_cons in Hall as [Ha Hall]. constructor; [by apply IH|].
    intros p q Hp Hq. destruct a as [ka ia], b as [kb ib]. simpl in *.
    apply Forall_cons in Hall as [Hb _].
    apply private_order_elem in Ha as (p' & Hp' & _ & ->).
    apply private_order_elem in Hb as (q' & Hq' & _ & ->).
    rewrite Hp in Hp'. rewrite Hq in Hq'. simplify_eq. exact Hab.
Qed.
End slots.

(** ** Quality *)

(** A non-ranked match counts for statistics exactly when it is not
    limited, its roster is complete for its queue, no private player lacks a
    champion, and, if any row was recovered, every row is detailed. *)
Theorem stats_eligible_iff p :
  nonranked_quality_name p (quality_flags p) = "complete" <->
  is_limited p = false /\
  roster_evidence_is_complete (p_queue_id p) (Z.of_nat (length (p_players p))) = true /\
  (forall v, v ∈ p_players p -> is_private_player v = true -> 0 < player_i64 v "champion_id") /\
  ((exists v, v ∈ p_players p /\ eq_ignore_ascii_case (player_text v "source") "recovered" = true) ->
   forall v, v ∈ p_players p -> is_detailed_player v = true).
Proof.
  unfold nonranked_quality_name, quality_flags. simpl.
  assert (existsb is_minimal_private (p_players p) = false <->
          forall v, v ∈ p_players p -> is_private_player v = true -> 0 < player_i64 v "champion_id") as Hmin.
  { unfold is_minimal_private. split.
    - intros Hno v Hv Hp. destruct (Z.leb_spec (player_i64 v "champion_id") 0) as [Hle|]; [|done].
      exfalso. assert (existsb is_minimal_private (p_players p) = true) as Hc; [|unfold is_minimal_private in Hc; congruence].
      apply existsb_exists. exists v. split; [by apply list_elem_of_In|]. unfold is_minimal_private.
      rewrite Hp. by apply Z.leb_le.
    - intros Hall. apply not_true_is_false. intros (v & Hv & [Hp Hc]%andb_prop)%existsb_exists.
      apply list_elem_of_In in Hv. specialize (Hall v Hv Hp). apply Z.leb_le in Hc. lia. }
  assert (existsb (fun v => eq_ignore_ascii_case (player_text v "source") "recovered") (p_players p) = true <->
          exists v, v ∈ p_players p /\ eq_ignore_ascii_case (player_text v "source") "recovered" = true) as Hrec.
  { rewrite existsb_exists. split; intros (v & Hv & ?); exists v; split; try done; by apply list_elem_of_In. }
  assert (forallb is_detailed_player (p_players p) = true <->
          forall v, v ∈ p_players p -> is_detailed_player v = true) as Hdet.
  { rewrite forallb_forall. split; intros Hall v Hv; apply Hall; by apply list_elem_of_In. }
  rewrite <- Hmin, <- Hrec, <- Hdet.
  destruct (is_limited p), (roster_evidence_is_complete _ _), (existsb is_minimal_private _),
    (existsb (fun v => eq_ignore_ascii_case _ _) _), (forallb is_detailed_player _); simpl;
    split; intros Hx; try discriminate Hx; try (by split_and!); try (by intuition discriminate).
Qed.

(** * Properties of the persistence of facts

    What a finalization that succeeds leaves in the ledger and in the tables,
    that one that fails leaves nothing, that a repeated one writes nothing
    twice, and what the count of an hour is. *)

Section spec.
Context {W : Type} `{FactServices W}.
Notation Db := (FactDb W).
Notation M := (ST (FactDb W)).
Implicit Types (db : Db) (p : CanonicalMatchPayload).

Definition ledger_in db : ledger := rows (tables db).

(** ** Steps *)

(** Two states that differ in the environment only. *)
Definition same_tables db db' : Prop :=
  tables db' = tables db /\ matches db' = matches db /\ casual_matches db' = casual_matches db /\
  special_matches db' = special_matches db /\ hourly_counts db' = hourly_counts db /\
  champions db' = champions db /\ match_bans db' = match_bans db.

Lemma same_tables_refl db : same_tables db db.
Proof. by split_and!. Qed.

Lemma same_tables_trans db1 db2 db3 : same_tables db1 db2 -> same_tables db2 db3 -> same_tables db1 db3.
Proof. unfold same_tables. intros Ha Hb. intuition congruence. Qed.

Lemma on_rest_same {A} (f : ST W A) db : same_tables db (snd (on_rest f db)).
Proof. unfold on_rest. destruct (f (facts_rest db)). by split_and!. Qed.

Lemma with_rest_same w db : same_tables db (with_rest w db).
Proof. by split_and!. Qed.

(** A statement that succeeds acted on the tables as they were. *)
Lemma execute_ok {A} (f : Db -> A * Db) db a db' :
  execute f db = (Ok a, db') -> exists w, f (with_rest w db) = (a, db').
Proof.
  unfold execute, statement, mbind, ST_bind, on_rest. destruct (statement_fails (facts_rest db)) as [[e|] w]; [done|].
  intros E. exists w. destruct (f (with_rest w db)) as [a' db1]. by simplify_eq.
Qed.

Lemma statement_ok {A} (f : Db -> result A MatchFactError * Db) db a db' :
  statement f db = (Ok a, db') -> exists w, f (with_rest w db) = (Ok a, db').
Proof.
  unfold statement, mbind, ST_bind, on_rest. destruct (statement_fails (facts_rest db)) as [[e|] w]; [done|].
  eauto.
Qed.

(** Writers that do not touch the lifecycle tables. *)
Definition keeps_ledger {A} (c : M (result A MatchFactError)) : Prop :=
  forall db, tables (snd (c db)) = tables db.

Lemma keeps_ledger_try {A B} (c : M (result A MatchFactError)) (k : A -> M (result B MatchFactError)) :
  keeps_ledger c -> (forall a, keeps_ledger (k a)) -> keeps_ledger (try_bind c k).
Proof.
  intros Hc Hk db. specialize (Hc db). unfold try_bind. destruct (c db) as [[a|e] db1]; [|done].
  simpl in Hc. by rewrite (Hk a db1).
Qed.

Lemma keeps_ledger_ret {A} (r : result A MatchFactError) : keeps_ledger (mret r).
Proof. done. Qed.

Lemma keeps_rest {A} (f : ST W (result A MatchFactError)) : keeps_ledger (on_rest f).
Proof. intros db. apply on_rest_same. Qed.

Lemma keeps_statement {A} (f : Db -> result A MatchFactError * Db) :
  (forall db, tables (snd (f db)) = tables db) -> keeps_ledger (statement f).
Proof.
  intros Hf db. unfold statement, mbind, ST_bind, on_rest.
  destruct (statement_fails (facts_rest db)) as [[e|] w]; [done|]. by rewrite Hf.
Qed.

Lemma keeps_execute {A} (f : Db -> A * Db) :
  (forall db, tables (snd (f db)) = tables db) -> keeps_ledger (execute f).
Proof. intros Hf. apply keeps_statement. intros db. specialize (Hf db). by destruct (f db). Qed.

Ltac keeps :=
  repeat first
    [ apply keeps_rest
    | apply keeps_ledger_ret
    | apply keeps_execute; intros ?; reflexivity
    | apply keeps_ledger_try; [|intros ?]
    | apply keeps_statement; intros ?; repeat case_match; reflexivity
    | case_match ].

Lemma keeps_match now p population quality : keeps_ledger (persist_match now p population quality).
Proof. unfold persist_match. keeps. Qed.

Lemma keeps_hourly p : keeps_ledger (upsert_hourly_count p).
Proof. unfold upsert_hourly_count. keeps. Qed.

Lemma keeps_nonranked now p population quality : keeps_ledger (persist_nonranked_match now p population quality).
Proof. unfold persist_nonranked_match. keeps. Qed.

Lemma keeps_core now p population quality : keeps_ledger (write_core now p population quality).
Proof.
  unfold write_core. case_bool_decide; [|apply keeps_nonranked].
  apply keeps_ledger_try; [apply keeps_match|intros ?; apply keeps_hourly].
Qed.

Lemma keeps_bans id bans : keeps_ledger (persist_bans id bans).
Proof. unfold persist_bans. keeps. Qed.

(** ** The row of the match *)

Lemma update_row_ok id f db db' :
  update_row id f db = (Ok tt, db') -> ledger_in db' = alter f id (ledger_in db).
Proof. unfold update_row. intros (w & E)%execute_ok. injection E as <-. done. Qed.

Lemma add_stage_ok now id stage db db' :
  add_stage now id stage db = (Ok tt, db') -> ledger_in db' = alter (staged_row now stage) id (ledger_in db).
Proof. apply update_row_ok. Qed.

Lemma elem_merged_stages x stages stage : x ∈ merged_stages stages stage <-> x ∈ stages \/ x = stage.
Proof.
  unfold merged_stages. rewrite sort_by_perm, elem_of_remove_dups, elem_of_app, list_elem_of_singleton. done.
Qed.

(** A row whose stages grew and nothing else changed. *)
Definition same_but_stages (r r' : IngestRow) : Prop :=
  row_status r' = row_status r /\ row_source r' = row_source r /\ row_attempts r' = row_attempts r /\
  row_error_message r' = row_error_message r /\ row_queue_id r' = row_queue_id r /\
  row_population r' = row_population r /\ row_acquisition_state r' = row_acquisition_state r /\
  detail_attempted_at r' = detail_attempted_at r /\ roster_resolved_at r' = roster_resolved_at r /\
  demo_resolved_at r' = demo_resolved_at r /\
  lease_owner r' = lease_owner r /\ lease_until r' = lease_until r /\ started_at r' = started_at r /\
  completed_at r' = completed_at r.

Lemma same_but_stages_refl r : same_but_stages r r.
Proof. by split_and!. Qed.

Lemma same_but_stages_trans r1 r2 r3 : same_but_stages r1 r2 -> same_but_stages r2 r3 -> same_but_stages r1 r3.
Proof. unfold same_but_stages. intros Ha Hb. intuition congruence. Qed.

(** The row of the match while the stages are written: [stages] is what the
    transaction knows of them. *)
Definition row_at id (l0 : ledger) (r0 : IngestRow) (stages : list string) db : Prop :=
  exists r, ledger_in db = <[id := r]> l0 /\ same_but_stages r0 r /\
    (forall x, x ∈ stages <-> x ∈ row_completed_stages r).

Lemma stage_unless_ok now id stages stage write l0 r0 db stages' db' :
  keeps_ledger write -> row_at id l0 r0 stages db ->
  stage_unless now id stages stage write db = (Ok stages', db') ->
  row_at id l0 r0 stages' db' /\ forall x, x ∈ stages' <-> x ∈ stages \/ x = stage.
Proof.
  intros Hw (r & Hl & Hr & Hs). unfold stage_unless. case_bool_decide as Hin.
  - intros [= <- <-]. split; [by exists r|]. intros x. split; [by left|]. by intros [?| ->].
  - intros ([] & db1 & Ew & Ha)%try_ok. apply try_ok in Ha as ([] & db2 & Ea & Er).
    injection Er as <- <-. apply add_stage_ok in Ea. specialize (Hw db). rewrite Ew in Hw. simpl in Hw.
    assert (forall x, x ∈ stages ++ [stage] <-> x ∈ stages \/ x = stage) as Happ.
    { intros x. by rewrite elem_of_app, list_elem_of_singleton. }
    split; [|done]. exists (staged_row now stage r). split_and!.
    + rewrite Ea. unfold ledger_in in *. by rewrite Hw, Hl, alter_insert_eq.
    + eapply same_but_stages_trans; [done|]. by split_and!.
    + intros x. rewrite Happ, Hs. symmetry. apply elem_merged_stages.
Qed.

Lemma row_at_tables id l0 r0 stages db db' :
  ledger_in db' = ledger_in db -> row_at id l0 r0 stages db -> row_at id l0 r0 stages db'.
Proof. intros E (r & Hl & Hr). exists r. by rewrite E. Qed.

Lemma classify_queue_ok q db population db' :
  classify_queue q db = (Ok population, db') ->
  ledger_in db' = ledger_in db /\ population <> Unknown /\
  population =
    match queue_types (tables db) !! q with
    | Some (is_ranked, scope) => population_for_queue is_ranked scope
    | None => Special
    end.
Proof.
  unfold classify_queue. intros ([] & db1 & (w1 & E1)%execute_ok & (w2 & E2)%execute_ok)%try_ok.
  injection E1 as <-. injection E2 as <- <-. unfold ledger_in, ensure_queue_taxonomy. simpl.
  destruct (queue_types (tables db) !! q) as [[is_ranked scope]|] eqn:E; simpl.
  - split_and!; [done| |by rewrite E]. rewrite E. simpl. unfold population_for_queue. by repeat case_match.
  - rewrite lookup_insert_eq. done.
Qed.

Lemma lock_ok now p population source db stages db' :
  lock_ingest_status now p population source db = (Ok stages, db') ->
  let r := default (new_row now) (ledger_in db !! p_match_id p) in
  ledger_in db' = <[p_match_id p := locked_row now source (p_queue_id p) population r]> (ledger_in db) /\
  stages = row_completed_stages r /\
  (forall old, ledger_in db !! p_match_id p = Some old -> fact_conflict p population old = None).
Proof.
  unfold lock_ingest_status. intros (existing & db1 & (w1 & E1)%execute_ok & Hk)%try_ok.
  injection E1 as <- <-. simpl in Hk.
  destruct (rows (tables db) !! p_match_id p ≫= fact_conflict p population) eqn:Ec; [done|].
  apply execute_ok in Hk as (w2 & E2). injection E2 as <- <-. unfold ledger_in. simpl.
  split_and!; [done|done|]. intros old Hold. rewrite Hold in Ec. exact Ec.
Qed.
(** ** The transaction *)

(** What the ledger row of the match is after a finalization, from what it
    was: the row of a match seen for the first time is a new one. *)
Record facts_row p (population : MatchPopulation) (stages : list string) (r r' : IngestRow) : Prop := {
  cr_queue : row_queue_id r' = Some (p_queue_id p);
  cr_population : row_population r' = population_as_database population;
  cr_known : population <> Unknown;
  cr_status :
    row_status r' =
      (if String.eqb (row_status r) "complete" || String.eqb (row_status r) "limited" then row_status r
       else if q_limited (quality_flags p) then "limited" else "partial");
  cr_acquisition :
    row_acquisition_state r' = (if q_limited (quality_flags p) then "limited" else "facts_ready");
  cr_stages : forall x, x ∈ row_completed_stages r' <-> x ∈ row_completed_stages r \/ x ∈ FACT_STAGES;
  cr_reported : forall x, x ∈ stages <-> x ∈ row_completed_stages r';
  cr_error : row_error_message r' = None;
  cr_attempts : row_attempts r' = row_attempts r + 1;
  cr_lease : lease_owner r' = lease_owner r /\ lease_until r' = lease_until r;
  cr_roster : row_unresolved_player_ids r' = [];
}.

Lemma fact_conflict_none p population r :
  population <> Unknown -> fact_conflict p population r = None ->
  coalesce (row_queue_id r) (Some (p_queue_id p)) = Some (p_queue_id p) /\
  (if String.eqb (row_population r) "unknown" then population_as_database population
   else row_population r) = population_as_database population.
Proof.
  intros Hk. unfold fact_conflict.
  assert (negb (String.eqb (row_population r) "unknown")
          && negb (String.eqb (row_population r) (population_as_database population)) = false ->
          (if String.eqb (row_population r) "unknown" then population_as_database population
           else row_population r) = population_as_database population) as Hp.
  { destruct (String.eqb (row_population r) "unknown"); [done|]. simpl.
    intros E%negb_false_iff. by apply String.eqb_eq in E. }
  destruct (row_queue_id r) as [q|].
  - destruct (q =? p_queue_id p) eqn:Eq; [|done]. apply Z.eqb_eq in Eq as ->. simpl.
    destruct (_ && _) eqn:E; [done|]. intros _. split; [done|]. by apply Hp.
  - simpl. destruct (_ && _) eqn:E; [done|]. intros _. split; [done|]. by apply Hp.
Qed.

Lemma lock_row now p population source db stages db' :
  lock_ingest_status now p population source db = (Ok stages, db') ->
  let r := default (new_row now) (ledger_in db !! p_match_id p) in
  row_at (p_match_id p) (ledger_in db) (locked_row now source (p_queue_id p) population r) stages db' /\
  stages = row_completed_stages r.
Proof.
  intros (Hl & -> & _)%lock_ok. split; [|done]. eexists. by split_and!.
Qed.

Lemma keeps_groups p population :
  keeps_ledger (if bool_decide (population = Ranked) then on_rest (persist_ranked_party_groups p)
                else mret (Ok tt)).
Proof. case_bool_decide; [apply keeps_rest|apply keeps_ledger_ret]. Qed.

Lemma row_at_keeps {A} id l0 r0 stages (c : M (result A MatchFactError)) db a db' :
  keeps_ledger c -> row_at id l0 r0 stages db -> c db = (a, db') -> row_at id l0 r0 stages db'.
Proof.
  intros Hc Hr E. eapply row_at_tables; [|exact Hr]. specialize (Hc db). rewrite E in Hc.
  unfold ledger_in. simpl in Hc. by rewrite Hc.
Qed.

(** The row before the last statement. *)
Lemma written_row now p players source db fin db' :
  transaction_body now p players source db = (Ok fin, db') ->
  let r := default (new_row now) (ledger_in db !! p_match_id p) in
  exists population r1 direct,
    ledger_in db' = <[p_match_id p := finalized_row now direct (fin_player_count fin)
                                        (q_limited (quality_flags p)) r1]> (ledger_in db) /\
    same_but_stages (locked_row now source (p_queue_id p) population r) r1 /\
    (forall x, x ∈ row_completed_stages r1 <-> x ∈ row_completed_stages r \/ x ∈ FACT_STAGES) /\
    (forall x, x ∈ fin_completed_stages fin <-> x ∈ row_completed_stages r1) /\
    population <> Unknown /\ fin_population fin = population /\ fin_match_id fin = p_match_id p /\
    (forall old, ledger_in db !! p_match_id p = Some old -> fact_conflict p population old = None).
Proof.
  intros E r. unfold transaction_body in E.
  apply try_ok in E as (population & db1 & (Hl1 & Hk & _)%classify_queue_ok & Hb).
  apply try_ok in Hb as (locked & db2 & Elock & Hb).
  pose proof (lock_ok _ _ _ _ _ _ _ Elock) as (_ & _ & Hconf). apply lock_row in Elock as [Hrow Hst].
  rewrite Hl1 in *. fold r in Hrow, Hst. simpl in Hst.
  apply try_ok in Hb as (s1 & db3 & E3 & Hb).
  eapply stage_unless_ok in E3 as [Hrow1 Hs1]; [|apply keeps_core|exact Hrow].
  apply try_ok in Hb as (s2 & db4 & E4 & Hb).
  eapply stage_unless_ok in E4 as [Hrow2 Hs2]; [|apply keeps_rest|exact Hrow1].
  apply try_ok in Hb as ([] & db5 & E5 & Hb). eapply row_at_keeps in E5; [|apply keeps_groups|exact Hrow2].
  apply try_ok in Hb as ([] & db6 & E6 & Hb). eapply row_at_keeps in E6; [|apply keeps_rest|exact E5].
  apply try_ok in Hb as (s3 & db7 & E7 & Hb).
  eapply stage_unless_ok in E7 as [Hrow3 Hs3]; [|apply keeps_bans|exact E6].
  apply try_ok in Hb as ([] & db8 & E8 & Hb). injection Hb as <- <-. simpl.
  apply update_row_ok in E8. destruct Hrow3 as (r1 & Hl3 & Hr1 & Hst3).
  exists population, r1. eexists. split_and!; [|done| |done|done|done|done|done].
  - rewrite E8, Hl3, alter_insert_eq. reflexivity.
  - intros x. rewrite <- Hst3, Hs3, Hs2, Hs1, Hst. unfold FACT_STAGES. set_solver.
Qed.

Lemma body_closes now p players source db fin db' :
  transaction_body now p players source db = (Ok fin, db') ->
  let r := default (new_row now) (ledger_in db !! p_match_id p) in
  exists r', ledger_in db' = <[p_match_id p := r']> (ledger_in db) /\
    facts_row p (fin_population fin) (fin_completed_stages fin) r r' /\ fin_match_id fin = p_match_id p.
Proof.
  intros (population & r1 & direct & Hl & Hsame & Hst & Hrep & Hk & -> & Hid & Hconf)%written_row r.
  eexists. split_and!; [exact Hl| |done]. fold r in Hsame, Hst.
  assert (fact_conflict p population r = None) as Hc.
  { subst r. destruct (ledger_in db !! p_match_id p) as [old|] eqn:E; simpl; [by apply Hconf|done]. }
  apply fact_conflict_none in Hc as [Hq Hp]; [|done].
  destruct Hsame as (Es & _ & Ea & _ & Eq & Ep & _ & _ & _ & _ & Elo & Elu & _ & _).
  constructor; simpl; try done.
  - by rewrite Eq.
  - by rewrite Ep.
  - rewrite Es. unfold locked_row. simpl. 
    destruct (String.eqb (row_status r) "complete" || String.eqb (row_status r) "limited") eqn:E;
      [by rewrite E|done].
Qed.

(** The transaction ran to its end, and its tables are the ones that are left. *)
Definition written p source fin db db' : Prop :=
  exists now players w db1, (validate p = Ok tt /\ normalized_players p = Ok players) /\
    transaction_body now p players source (with_rest w db) = (Ok fin, db1) /\ same_tables db1 db'.

(** The error of a commit whose answer was lost. *)
Definition lost_answer (e : MatchFactError) : Prop :=
  exists message w, e = FactQuery message /\ fst (commit_transaction w) = AnswerLost message.

(** What [finalize] did, by how its transaction ended. *)
Lemma finalize_cases p source db r db' :
  finalize p source db = (r, db') ->
  match r with
  | Ok fin => written p source fin db db'
  | Err e => same_tables db db' \/ lost_answer e /\ exists fin, written p source fin db db'
  end.
Proof.
  unfold finalize.
  destruct (validate p) as [[]|e0] eqn:Ev; [|intros [= <- <-]; left; apply same_tables_refl].
  destruct (normalized_players p) as [players|e0] eqn:Ep; [|intros [= <- <-]; left; apply same_tables_refl].
  destruct (begin_transaction (facts_rest db)) as [[now|e0] w]; [|intros [= <- <-]; left; apply with_rest_same].
  destruct (transaction_body now p players source (with_rest w db)) as [[fin|e0] db1] eqn:E;
    [|intros [= <- <-]; left; apply with_rest_same].
  destruct (commit_transaction (facts_rest db1)) as [o w1] eqn:Eo.
  assert (written p source fin db (with_rest w1 db1)) as Hw
    by (exists now, players, w, db1; split_and!; [done..|apply with_rest_same]).
  destruct o as [|m|m]; cbn; intros [= <- <-].
  - exact Hw.
  - right. split; [|by exists fin]. exists m, (facts_rest db1). by rewrite Eo.
  - left. apply with_rest_same.
Qed.

Lemma finalize_ok p source db fin db' : finalize p source db = (Ok fin, db') -> written p source fin db db'.
Proof. apply finalize_cases. Qed.

(** The row of the match is closed as the payload says, and no other row of the
    ledger has changed. *)
Definition finalized_as p (fin : MatchFactFinalization) db db' : Prop :=
  fin_match_id fin = p_match_id p /\
  exists now r', ledger_in db' = <[p_match_id p := r']> (ledger_in db) /\
    facts_row p (fin_population fin) (fin_completed_stages fin)
      (default (new_row now) (ledger_in db !! p_match_id p)) r'.

Lemma written_finalized p source fin db db' : written p source fin db db' -> finalized_as p fin db db'.
Proof.
  intros (now & players & w & db1 & _ & (r' & Hl & Hc & Hid)%body_closes & Ht).
  split; [done|]. exists now, r'. split; [|done]. unfold ledger_in in *. destruct Ht as (-> & _). by rewrite Hl.
Qed.

Lemma finalize_closes p source db fin db' : finalize p source db = (Ok fin, db') -> finalized_as p fin db db'.
Proof. intros E%finalize_ok. by eapply written_finalized. Qed.

(** The payload is not valid, or the ledger has its match in another queue. *)
Definition refused p db : Prop :=
  (exists e, validate p = Err e) \/
  exists old q, ledger_in db !! p_match_id p = Some old /\ row_queue_id old = Some q /\ q <> p_queue_id p.

(** C11. A finalization is atomic.  When it succeeds, the ledger has changed
    in the row of its match only, and that row is closed: it has the payload's
    queue and the population the queue's taxonomy gives, the three fact stages
    next to the ones it had, the status [complete] or [limited] it had before
    or the one its quality gives, no error, one more attempt and the lease it
    had.  When it fails, in whatever statement, every table is as it was; and
    when its commit fails, every table is as it was or, if only the answer of
    the commit was lost, as after a success.  A payload that is not valid, or
    whose match the ledger knows in another queue, always fails and always
    leaves every table as it was. *)
Theorem finalize_atomic p source db :
  let '(r, db') := finalize p source db in
  match r with
  | Ok fin => finalized_as p fin db db'
  | Err e => same_tables db db' \/ lost_answer e /\ exists fin, finalized_as p fin db db'
  end /\
  (refused p db -> is_ok r = false /\ same_tables db db').
Proof.
  destruct (finalize p source db) as [r db'] eqn:E. apply finalize_cases in E.
  assert (forall fin, refused p db -> ~ written p source fin db db') as Hno.
  { intros fin [[e He] | (old & q & Hold & Hq & Hne)] (now & players & w & db1 & [Hv _] & Hb & _); [congruence|].
    apply written_row in Hb as (population & r1 & d & _ & _ & _ & _ & _ & _ & _ & Hc).
    specialize (Hc old Hold). unfold fact_conflict in Hc. rewrite Hq in Hc.
    destruct (q =? p_queue_id p) eqn:Eq; [|done]. by apply Z.eqb_eq in Eq. }
  split.
  - destruct r as [fin|e]; [by eapply written_finalized|].
    destruct E as [E | (Hl & fin & E)]; [by left|]. right. split; [done|]. exists fin. by eapply written_finalized.
  - intros Hbad. destruct r as [fin|e]; [by apply Hno in E|]. split; [done|].
    destruct E as [E | (_ & fin & E)]; [done|by apply Hno in E].
Qed.

(** ** A repeated finalization *)

Definition durable id db : Prop :=
  exists r, ledger_in db !! id = Some r /\ forall stage, stage ∈ FACT_STAGES -> stage ∈ row_completed_stages r.

(** The fact tables, without the ledger's. *)
Definition same_facts db db' : Prop :=
  matches db' = matches db /\ casual_matches db' = casual_matches db /\
  special_matches db' = special_matches db /\ hourly_counts db' = hourly_counts db /\
  champions db' = champions db /\ match_bans db' = match_bans db.

Lemma same_facts_trans db1 db2 db3 : same_facts db1 db2 -> same_facts db2 db3 -> same_facts db1 db3.
Proof. unfold same_facts. intros Ha Hb. intuition congruence. Qed.

Lemma same_tables_facts db db' : same_tables db db' -> same_facts db db'.
Proof. by intros (_ & ?). Qed.

Definition keeps_facts {A} (c : M A) : Prop := forall db, same_facts db (snd (c db)).

Lemma keeps_facts_after {A} (c : M A) db0 db a db' :
  keeps_facts c -> c db = (a, db') -> same_facts db0 db -> same_facts db0 db'.
Proof. intros Hc E Hs. eapply same_facts_trans; [done|]. specialize (Hc db). by rewrite E in Hc. Qed.

Lemma keeps_facts_rest {A} (f : ST W A) : keeps_facts (on_rest f).
Proof. intros db. apply same_tables_facts, on_rest_same. Qed.

Lemma keeps_facts_execute {A} (f : Db -> A * Db) :
  (forall db, same_facts db (snd (f db))) -> keeps_facts (execute f).
Proof.
  intros Hf db. unfold execute, statement, mbind, ST_bind, on_rest.
  destruct (statement_fails (facts_rest db)) as [[e|] w]; [by split_and!|].
  specialize (Hf (with_rest w db)). by destruct (f (with_rest w db)).
Qed.

Lemma keeps_facts_try {A B} (c : M (result A MatchFactError)) (k : A -> M (result B MatchFactError)) :
  keeps_facts c -> (forall a, keeps_facts (k a)) -> keeps_facts (try_bind c k).
Proof.
  intros Hc Hk db. specialize (Hc db). unfold try_bind. destruct (c db) as [[a|e] db1]; [|done].
  eapply same_facts_trans; [exact Hc|apply Hk].
Qed.

Lemma keeps_facts_classify q : keeps_facts (classify_queue q).
Proof.
  unfold classify_queue. apply keeps_facts_try; [|intros ?]; apply keeps_facts_execute; intros ?; by split_and!.
Qed.

Lemma keeps_facts_lock now p population source : keeps_facts (lock_ingest_status now p population source).
Proof.
  unfold lock_ingest_status. apply keeps_facts_try; [apply keeps_facts_execute; intros ?; by split_and!|].
  intros existing. case_match; [intros ?; by split_and!|]. apply keeps_facts_execute. intros ?. by split_and!.
Qed.

Lemma keeps_facts_update id f : keeps_facts (update_row id f).
Proof. apply keeps_facts_execute. intros ?. by split_and!. Qed.

Lemma stage_unless_durable now id stages stage write db :
  stage ∈ stages -> stage_unless now id stages stage write db = (Ok stages, db).
Proof. intros Hs. unfold stage_unless. by rewrite bool_decide_eq_true_2. Qed.

Lemma durable_body now p players source db fin db' :
  durable (p_match_id p) db -> transaction_body now p players source db = (Ok fin, db') ->
  same_facts db db' /\ fin_facts_written fin = false.
Proof.
  intros (r & Hr & Hd) E. unfold transaction_body in E.
  apply try_ok in E as (population & db1 & Ec & E). pose proof (classify_queue_ok _ _ _ _ Ec) as (Hl1 & _ & _).
  assert (same_facts db db1) as F1 by (eapply keeps_facts_after; [apply keeps_facts_classify|exact Ec|by split_and!]).
  apply try_ok in E as (locked & db2 & Elock & E). pose proof (lock_row _ _ _ _ _ _ _ Elock) as [_ Hst].
  rewrite Hl1, Hr in Hst. simpl in Hst. subst locked.
  assert (same_facts db db2) as F2 by (eapply keeps_facts_after; [apply keeps_facts_lock|exact Elock|done]).
  assert (forall stage write db, stage ∈ FACT_STAGES ->
            stage_unless now (p_match_id p) (row_completed_stages r) stage write db
            = (Ok (row_completed_stages r), db)) as Hdone.
  { intros stage write db0 Hs. by apply stage_unless_durable, Hd. }
  apply try_ok in E as (s1 & db3 & E3 & E). rewrite Hdone in E3 by set_solver. injection E3 as <- <-.
  apply try_ok in E as (s2 & db4 & E4 & E). rewrite Hdone in E4 by set_solver. injection E4 as <- <-.
  apply try_ok in E as ([] & db5 & E5 & E).
  assert (same_facts db db5) as F5.
  { eapply keeps_facts_after; [|exact E5|exact F2].
    case_bool_decide; [apply keeps_facts_rest|intros ?; by split_and!]. }
  apply try_ok in E as ([] & db6 & E6 & E). eapply keeps_facts_after in E6; [|apply keeps_facts_rest|exact F5].
  apply try_ok in E as (s3 & db7 & E7 & E). rewrite Hdone in E7 by set_solver. injection E7 as <- <-.
  apply try_ok in E as ([] & db8 & E8 & E). injection E as <- <-. simpl. split.
  - eapply keeps_facts_after; [apply keeps_facts_update|exact E8|done].
  - rewrite !bool_decide_eq_true_2 by (apply Hd; set_solver). done.
Qed.

Lemma finalize_durable p source db fin db' :
  finalize p source db = (Ok fin, db') -> durable (p_match_id p) db'.
Proof.
  intros (_ & now & r' & Hl & Hc)%finalize_closes. exists r'. split; [by rewrite Hl, lookup_insert_eq|].
  intros stage Hs. apply (cr_stages _ _ _ _ _ Hc). by right.
Qed.
(** Finalizing a match again writes no fact twice.  After a finalization
    that succeeded, another one of the same match, with whatever payload and
    source, leaves every fact table as it was and reports that it wrote
    nothing. *)
Theorem finalize_repeated p source p' source' db fin db1 fin' db2 :
  finalize p source db = (Ok fin, db1) -> p_match_id p' = p_match_id p ->
  finalize p' source' db1 = (Ok fin', db2) ->
  same_facts db1 db2 /\ fin_facts_written fin' = false /\
  (forall stage, stage ∈ fin_completed_stages fin -> stage ∈ fin_completed_stages fin').
Proof.
  intros E Hid E'. pose proof (finalize_durable _ _ _ _ _ E) as Hd. rewrite <- Hid in Hd.
  pose proof E' as E''. apply finalize_closes in E as (_ & now & r & Hl & Hc).
  apply finalize_closes in E'' as (_ & now' & r' & Hl' & Hc').
  apply finalize_ok in E' as (? & ? & w & db3 & _ & E' & Ht).
  apply durable_body in E' as [Hf Hw]; [|done]. split_and!; [|done|].
  - eapply same_facts_trans; [|apply same_tables_facts, Ht]. exact Hf.
  - intros stage Hs. apply (cr_reported _ _ _ _ _ Hc'), (cr_stages _ _ _ _ _ Hc'). left.
    rewrite Hid, Hl, lookup_insert_eq. simpl. by apply (cr_reported _ _ _ _ _ Hc).
Qed.

(** ** The count of an hour *)

Lemma hour_range t : 0 <= hour_of t <= 23.
Proof. unfold hour_of, day_seconds, hour_seconds. Z.to_euclidean_division_equations. lia. Qed.

(** The matches of a queue in the hour an instant falls in, its own offset's
    clock telling the hour. *)
Definition of_hour (queue_id : Z) (t : OffsetTime) (e : (Z * Z) * MatchRow) : bool :=
  (m_queue_id (snd e) =? queue_id)
  && ((snd (fst e) / micros + offset_seconds t) / hour_seconds =? local_seconds t / hour_seconds)
  && negb (q_limited (m_quality (snd e))).

Lemma in_hour_of queue_id t e :
  hour_of t < 23 ->
  in_hour queue_id (replace_hour t (hour_of t)) (replace_hour t ((hour_of t + 1) mod 24)) e
  = of_hour queue_id t e.
Proof.
  intros Hh. pose proof (hour_range t). unfold in_hour, of_hour. f_equal. rewrite <- andb_assoc. f_equal.
  rewrite (Z.mod_small (hour_of t + 1)) by lia. apply eq_true_iff_eq.
  rewrite andb_true_iff, Z.leb_le, Z.ltb_lt, Z.eqb_eq.
  unfold replace_hour, date_of, hour_of, local_seconds, day_seconds, hour_seconds, micros in *. Z.to_euclidean_division_equations. lia.
Qed.

Lemma in_last_hour queue_id t e :
  hour_of t = 23 ->
  in_hour queue_id (replace_hour t (hour_of t)) (replace_hour t ((hour_of t + 1) mod 24)) e = false.
Proof.
  intros ->. change ((23 + 1) mod 24) with 0. unfold in_hour.
  destruct (replace_hour t 23 * micros <=? snd (fst e)) eqn:E1; [|by rewrite andb_false_r].
  destruct (snd (fst e) <? replace_hour t 0 * micros) eqn:E2; [|by rewrite !andb_false_r].
  apply Z.leb_le in E1. apply Z.ltb_lt in E2. unfold replace_hour, hour_seconds, micros in *. lia.
Qed.

Lemma filter_ext_list {A} (f g : A -> bool) l : (forall x, f x = g x) -> List.filter f l = List.filter g l.
Proof. intros E. apply filter_ext. exact E. Qed.

Lemma list_filter_none {A} (f : A -> bool) l : (forall x, f x = false) -> List.filter f l = [].
Proof. intros E. induction l as [|x l IH]; simpl; [done|]. by rewrite E. Qed.

(** The count of a ranked match's hour.  Storing it writes one row of
    the counts, of the day, the hour and the queue of the match.  At the hours
    0 to 22 the row holds the number of matches of the queue in that hour
    which are not limited, and in the column of the match's region those of
    the region.  At the hour 23 it holds zero, whatever the matches are. *)
Theorem hour_counted p db db' t :
  p_queue_id p = RANKED_STATS_QUEUE_ID -> is_empty (p_entry_datetime p) = false ->
  parse_entry (p_entry_datetime p) = Some t ->
  upsert_hourly_count p db = (Ok tt, db') ->
  let region := normalized_region (p_region p) in
  let found := if hour_of t <? 23 then List.filter (of_hour (p_queue_id p) t) (map_to_list (matches db)) else [] in
  let k := (date_of t, hour_of t, p_queue_id p) in
  exists c, hourly_counts db' = <[k := c]> (hourly_counts db) /\
    total_matches c = Z.of_nat (length found) /\
    region_counts c !! region_column region =
      Some (Z.of_nat (length (List.filter (fun e => String.eqb (m_region (snd e)) region) found))).
Proof.
  intros Hq He Ht E region found k. unfold upsert_hourly_count in E. rewrite He, Ht in E.
  rewrite Hq in E. change (negb (RANKED_STATS_QUEUE_ID =? RANKED_STATS_QUEUE_ID)) with false in E. rewrite <- Hq in E.
  apply try_ok in E as (counts & db1 & (w & E1)%execute_ok & (w2 & E2)%execute_ok).
  injection E1 as <- <-. injection E2 as <-.
  assert (counted_matches (p_queue_id p) (replace_hour t (hour_of t)) (replace_hour t ((hour_of t + 1) mod 24))
            (with_rest w db) = found) as Hf.
  { unfold counted_matches, found. simpl. destruct (hour_of t <? 23) eqn:E.
    - apply filter_ext_list. intros e. apply in_hour_of. by apply Z.ltb_lt.
    - apply list_filter_none. intros e. apply in_last_hour. pose proof (hour_range t). apply Z.ltb_ge in E. lia. }
  eexists. split_and!; [reflexivity| |].
  - simpl. by rewrite Hf.
  - rewrite <- Hf. apply lookup_insert_eq.
Qed.
End spec.
