(* ===== verification/GapCheck.v ===== *)
(** * Draining old hours (src/backend-rust/src/workers/scheduler_host.rs)

    The scan for the newest stored hour that is not finished and its drain,
    and the dispatch of a scheduled job to its body. *)

From S2P Require Import Prelude Json Lifecycle HourlyIngest Coordination Policy Schedule SchedulerHost Pipeline.

Definition GAP_CHECKER_MIN_DATE : string := "2026-05-31".
Definition configured_gap_min_date : string := GAP_CHECKER_MIN_DATE.

(** ** Ordered maps *)

(** [BTreeMap::insert] on the entries in order of their keys. *)
Fixpoint btree_insert {K V} (cmp : K -> K -> comparison) (k : K) (v : V) (l : list (K * V)) : list (K * V) :=
  match l with
  | [] => [(k, v)]
  | (k', v') :: r =>
      match cmp k k' with
      | Lt => (k, v) :: l
      | Eq => (k, v) :: r
      | Gt => (k', v') :: btree_insert cmp k v r
      end
  end.

Definition then_cmp (a b : comparison) : comparison := match a with Eq => b | _ => a end.

(** The key of a state: queue, date and hour; of an hour: date and hour. *)
Definition cmp_hour (x y : string * Z) : comparison :=
  then_cmp (String.compare (fst x) (fst y)) (Z.compare (snd x) (snd y)).
Definition cmp_state (x y : Z * (string * Z)) : comparison :=
  then_cmp (Z.compare (fst x) (fst y)) (cmp_hour (snd x) (snd y)).

(** ** Candidates *)

Record GapCandidate := { gc_queue_id : Z; gc_date : string; gc_hour : Z }.

(** What the scan reads of the process: its clock, and the text PostgreSQL
    gives a date. *)
Class GapEnv (W : Type) := {
  clock_now : ST W Z;
  pg_date_text : Z -> string;
}.

(** A row of the query for the newest eligible hour. *)
Definition lease_due (now : Z) (r : HourRow) : option bool := u ← h_lease_until r; Some (u <=? now).

Definition reopenable_row (k : HourKey) (t : HourTables) (r : HourRow) : bool :=
  String.eqb (h_status r) "complete" && reopenable_hour k t.

(** [(date, hour) <= (date, hour)]. *)
Definition le_hour (a b : Z * Z) : bool :=
  (fst a <? fst b) || ((fst a =? fst b) && (snd a <=? snd b)).

Definition eligible (now : Z) (queues : list Z) (min_date max_date max_hour : Z) (t : HourTables)
    (k : HourKey) (r : HourRow) : bool :=
  existsb (Z.eqb (key_queue k)) queues && h_fetched r && h_fetch_succeeded r
  && (min_date <=? key_date k) && le_hour (key_date k, key_hour k) (max_date, max_hour)
  && (reopenable_row k t r
      || (String.eqb (h_status r) "fetching"
          && match h_lease_until r with None => true | Some u => u <=? now end)).

Definition eligible_hours (now : Z) (queues : list Z) (min_date max_date max_hour : Z) (t : HourTables) :
    list (HourKey * HourRow) :=
  List.filter (fun e => eligible now queues min_date max_date max_hour t (fst e) (snd e)) (map_to_list (hours t)).

(** [ORDER BY date DESC, hour DESC LIMIT 1]. *)
Definition newest (es : list (HourKey * HourRow)) : option (Z * Z) :=
  foldr (fun e best =>
           let h := (key_date (fst e), key_hour (fst e)) in
           match best with Some b => if le_hour h b then Some b else Some h | None => Some h end) None es.

Definition le_queue (a b : HourKey * HourRow) : bool := key_queue (fst a) <=? key_queue (fst b).

Section gap.
Context {W : Type} `{Calendar} `{GapEnv W} `{PipelineServices W}.
Abbreviation P := (PipelineState W).

Definition state_row (now : Z) (t : HourTables) (e : HourKey * HourRow) : value :=
  let '(k, r) := e in
  Object [("date", Str (pg_date_text (key_date k))); ("hour", Number (NInt (key_hour k)));
          ("queue_id", Number (NInt (key_queue k))); ("status", Str (h_status r));
          ("fetched", Bool (h_fetched r)); ("fetch_succeeded", Bool (h_fetch_succeeded r));
          ("lease_due", match lease_due now r with Some b => Bool b | None => Null end);
          ("reopenable", Bool (reopenable_row k t r))].

Definition queue_hour_states (now : Z) (queues : list Z) (min_date max_date : string) (max_hour : Z)
    (t : HourTables) : list value :=
  let es := eligible_hours now queues (date_value min_date) (date_value max_date) max_hour t in
  match newest es with
  | Some h =>
      map (state_row now t)
        (sort_by le_queue (List.filter (fun e => bool_decide ((key_date (fst e), key_hour (fst e)) = h)) es))
  | None => []
  end.

Definition queue_hour_needs_recovery (row : value) : bool :=
  match (v ← get "status" row; as_str v) with
  | Some status =>
      if String.eqb status "complete" then default false (v ← get "reopenable" row; as_bool v)
      else if String.eqb status "fetching" then default true (v ← get "lease_due" row; as_bool v)
      else false
  | None => false
  end.

Definition i32_field (key : string) (row : value) : option Z :=
  v ← get key row; n ← as_i64 v; in_range i32_min i32_max n.

Definition row_key (row : value) : option (string * Z) :=
  date ← (v ← get "date" row; as_str v);
  hour ← i32_field "hour" row;
  Some (date, hour).

Definition states_of_rows (rows : list value) : list ((Z * (string * Z)) * value) :=
  foldl (fun states row =>
           match row_key row, i32_field "queue_id" row with
           | Some (date, hour), Some queue_id => btree_insert cmp_state (queue_id, (date, hour)) row states
           | _, _ => states
           end) [] rows.

Definition candidate_of (k : Z * (string * Z)) : GapCandidate :=
  {| gc_queue_id := fst k; gc_date := fst (snd k); gc_hour := snd (snd k) |}.

Definition candidates_of_states (states : list ((Z * (string * Z)) * value)) : list GapCandidate :=
  map snd (foldl (fun candidates e =>
                    if queue_hour_needs_recovery (snd e)
                    then btree_insert cmp_state (fst e) (candidate_of (fst e)) candidates
                    else candidates) [] states).

(** A query on the hours, whose failure is told as a text. *)
Definition read_hours {A} (f : Z -> HourTables -> A) : ST P (result A string) :=
  r ← hour_statement (fun now t => (f now t, t));
  mret (map_err pipeline_error_to_string r).

Definition queue_hour_gap_candidates (now : Z) (min_date : string) (queues : list Z) :
    ST P (result (list GapCandidate) string) :=
  let '(max_date, max_hour) := completed_discovery_window now in
  rows <-? read_hours (fun db_now t => queue_hour_states db_now queues min_date max_date max_hour t);
  mret (Ok (candidates_of_states (states_of_rows rows))).

(** Newest first, and by queue inside an hour. *)
Definition le_candidate (a b : GapCandidate) : bool :=
  match then_cmp (cmp_hour (gc_date b, gc_hour b) (gc_date a, gc_hour a)) (Z.compare (gc_queue_id a) (gc_queue_id b)) with
  | Gt => false
  | _ => true
  end.

(** [entry().or_default().push()]. *)
Fixpoint push_candidate (h : string * Z) (c : GapCandidate) (m : list ((string * Z) * list GapCandidate)) :
    list ((string * Z) * list GapCandidate) :=
  match m with
  | [] => [(h, [c])]
  | (h', cs) :: r =>
      match cmp_hour h h' with
      | Lt => (h, [c]) :: m
      | Eq => (h', cs ++ [c]) :: r
      | Gt => (h', cs) :: push_candidate h c r
      end
  end.

Definition candidates_by_hour (cs : list GapCandidate) : list ((string * Z) * list GapCandidate) :=
  foldl (fun m c => push_candidate (gc_date c, gc_hour c) c m) [] cs.

(** The attempts of the hour's rows, by queue. *)
Definition claim_versions (date : Z) (hour : Z) (queues : list Z) (t : HourTables) : gmap Z Z :=
  list_to_map (omap (fun q =>
    r ← hours t !! {| key_date := date; key_hour := hour; key_queue := q |};
    attempts ← in_range i32_min i32_max (h_attempts r);
    Some (q, attempts)) queues).

Definition queue_hour_claim_versions (date : string) (hour : Z) (queues : list Z) :
    ST P (result (gmap Z Z) string) :=
  if bool_decide (queues = []) then mret (Ok ∅)
  else read_hours (fun _ t => claim_versions (date_value date) hour queues t).

(** ** The drain of one hour *)

Definition GAP_SOURCE : string := "gap-checker".

Definition gap_discover (c : GapCandidate) : ST P (result DiscoveryResult PipelineError) :=
  discover_hour (gc_queue_id c) (gc_date c) (gc_hour c) GAP_SOURCE.

Fixpoint discover_candidates (cs : list GapCandidate) : ST P (list (result DiscoveryResult PipelineError)) :=
  match cs with
  | [] => mret []
  | c :: r => o ← gap_discover c; os ← discover_candidates r; mret (o :: os)
  end.

(** [{:02}]. *)
Definition two_digits (n : Z) : string :=
  if (0 <=? n) && (n <? 10) then "0" +:+ pretty n else pretty n.

(** The failed candidates whose claim this pass did not advance are tried once
    more; the number of them. *)
Fixpoint retry_unclaimed (before after : gmap Z Z) (failed : list Z) (cs : list GapCandidate) (n : Z) :
    ST P (result Z string) :=
  match cs with
  | [] => mret (Ok n)
  | c :: r =>
      if existsb (Z.eqb (gc_queue_id c)) failed
         && (default 0 (after !! gc_queue_id c) <=? default 0 (before !! gc_queue_id c))
      then
        o ← gap_discover c;
        match o with
        | Err e => mret (Err ("queue-hour claim failed twice for " +:+ pretty (gc_queue_id c) +:+ " "
            +:+ gc_date c +:+ " " +:+ two_digits (gc_hour c) +:+ ": " +:+ pipeline_error_to_string e))
        | Ok _ => retry_unclaimed before after failed r (n + 1)
        end
      else retry_unclaimed before after failed r n
  end.

Definition gap_report (candidates completed retried : Z) : value :=
  Object [("candidates", Number (NInt candidates)); ("attempted", Number (NInt candidates));
          ("completed", Number (NInt completed)); ("infrastructureRetried", Number (NInt retried))].

Definition drain_candidates (h : string * Z) (cs : list GapCandidate) : ST P (result (Z * Z) string) :=
  let '(date, hour) := h in
  before <-? queue_hour_claim_versions date hour (map gc_queue_id cs);
  outcomes ← discover_candidates cs;
  let failed := map (fun x => gc_queue_id (fst x)) (List.filter (fun x => negb (is_ok (snd x))) (zip cs outcomes)) in
  after <-? queue_hour_claim_versions date hour failed;
  retried <-? retry_unclaimed before after failed cs 0;
  mret (Ok (Z.of_nat (length (List.filter is_ok outcomes)) + retried, retried)).

Definition presence_queues : list Z :=
  map qd_queue_id (List.filter qd_track_presence MATCH_COUNT_QUEUE_DEFINITIONS).

Definition run_gap_check : ST P (result value string) :=
  now ← service (fun s => let '(now, w) := clock_now (snd s) in (now, (fst s, w)));
  found <-? queue_hour_gap_candidates now configured_gap_min_date presence_queues;
  let candidates := sort_by le_candidate found in
  match last (candidates_by_hour candidates) with
  | None => mret (Ok (Object [("candidates", Number (NInt 0)); ("attempted", Number (NInt 0));
                              ("completed", Number (NInt 0))]))
  | Some (h, cs) =>
      counts <-? drain_candidates h cs;
      mret (Ok (gap_report (Z.of_nat (length candidates)) (fst counts) (snd counts)))
  end.
End gap.

(** * Properties of the gap check

    Which hours the scan proposes, that each of them can be claimed, and what
    a match that is closed without its roster does to the scan. *)

(** ** Ordered maps *)

Section btree.
Context {K V : Type} (cmp : K -> K -> comparison).
Hypothesis cmp_eq : forall a b, cmp a b = Eq -> a = b.
Implicit Types (l : list (K * V)).

Lemma btree_insert_elem k v l x : x ∈ btree_insert cmp k v l -> x = (k, v) \/ x ∈ l.
Proof.
  clear cmp_eq. induction l as [|[k' v'] l IH]; simpl; [set_solver|]. destruct (cmp k k'); set_solver.
Qed.

Lemma btree_insert_keys k v l x : x ∈ map fst (btree_insert cmp k v l) <-> x = k \/ x ∈ map fst l.
Proof.
  induction l as [|[k' v'] l IH]; simpl; [set_solver|]. destruct (cmp k k') eqn:E; simpl; [|set_solver|set_solver].
  apply cmp_eq in E as ->. set_solver.
Qed.
End btree.

Lemma cmp_hour_eq a b : cmp_hour a b = Eq -> a = b.
Proof.
  destruct a as [d h], b as [d' h']. unfold cmp_hour, then_cmp. simpl.
  destruct (String.compare d d') eqn:E; try done. apply String.compare_eq_iff in E as ->.
  by intros ->%Z.compare_eq.
Qed.

Lemma cmp_state_eq a b : cmp_state a b = Eq -> a = b.
Proof.
  destruct a as [q h], b as [q' h']. unfold cmp_state, then_cmp. simpl.
  destruct (Z.compare q q') eqn:E; try done. apply Z.compare_eq in E as ->. by intros ->%cmp_hour_eq.
Qed.

(** ** The newest hour *)

Lemma le_hour_refl a : le_hour a a = true.
Proof. unfold le_hour. rewrite Z.eqb_refl, Z.leb_refl. apply orb_true_r. Qed.

Lemma le_hour_iff a b : le_hour a b = true <-> fst a < fst b \/ (fst a = fst b /\ snd a <= snd b).
Proof. unfold le_hour. by rewrite orb_true_iff, andb_true_iff, Z.ltb_lt, Z.eqb_eq, Z.leb_le. Qed.

Lemma le_hour_total a b : le_hour a b = false -> le_hour b a = true.
Proof. intros E. apply le_hour_iff. apply not_true_iff_false in E. rewrite le_hour_iff in E. lia. Qed.

Lemma le_hour_trans a b c : le_hour a b = true -> le_hour b c = true -> le_hour a c = true.
Proof. rewrite !le_hour_iff. lia. Qed.

Lemma le_hour_antisym a b : le_hour a b = true -> le_hour b a = true -> a = b.
Proof. rewrite !le_hour_iff. destruct a, b. simpl. intros ? ?. f_equal; lia. Qed.

Definition hour_of_entry (e : HourKey * HourRow) : Z * Z := (key_date (fst e), key_hour (fst e)).

Lemma newest_spec es :
  match newest es with
  | None => es = []
  | Some h => (exists e, e ∈ es /\ hour_of_entry e = h) /\ forall e, e ∈ es -> le_hour (hour_of_entry e) h = true
  end.
Proof.
  induction es as [|e es IH]; simpl; [done|]. destruct (newest es) as [b|].
  - destruct IH as [(e' & He' & Hb) Hall]. change (key_date e.1, key_hour e.1) with (hour_of_entry e).
    destruct (le_hour (hour_of_entry e) b) eqn:E.
    + split; [exists e'; set_solver|]. by intros x [->|Hx]%elem_of_cons; [|apply Hall].
    + split; [exists e; set_solver|]. intros x [->|Hx]%elem_of_cons; [apply le_hour_refl|].
      eapply le_hour_trans; [by apply Hall|]. by apply le_hour_total.
  - subst es. split; [exists e; set_solver|]. intros x ->%list_elem_of_singleton. apply le_hour_refl.
Qed.

Section gap.
Context {W : Type} `{Calendar} `{Genv : GapEnv W} `{PipelineServices W}.

(** The text PostgreSQL gives a date reads back as the date. *)
Definition date_texts : Prop := forall d, date_value (pg_date_text d) = d.

(** The hours and queues of the table are of their column's type. *)
Definition keys_in_columns (t : HourTables) : Prop :=
  forall k r, hours t !! k = Some r -> in_i32 (key_hour k) /\ in_i32 (key_queue k).

Definition candidate_for (k : HourKey) : GapCandidate :=
  {| gc_queue_id := key_queue k; gc_date := pg_date_text (key_date k); gc_hour := key_hour k |}.

(** ** Rows and candidates *)

Lemma i32_field_int key n row : get key row = Some (Number (NInt n)) -> in_i32 n -> i32_field key row = Some n.
Proof.
  intros Hg Hn. unfold i32_field. rewrite Hg. simpl. unfold number_i64, in_range, i64_min, i64_max.
  unfold in_i32, i32_min, i32_max in *. rewrite !(proj2 (Z.leb_le _ _)) by lia. simpl.
  by rewrite !(proj2 (Z.leb_le _ _)) by lia.
Qed.

Lemma state_row_key now t k r :
  in_i32 (key_hour k) -> in_i32 (key_queue k) ->
  row_key (state_row now t (k, r)) = Some (pg_date_text (key_date k), key_hour k) /\
  i32_field "queue_id" (state_row now t (k, r)) = Some (key_queue k).
Proof.
  intros Hh Hq. unfold row_key. rewrite (i32_field_int "hour" (key_hour k)) by done.
  by rewrite (i32_field_int "queue_id" (key_queue k)) by done.
Qed.

Lemma eligible_recovers now queues lo hi hour t k r :
  eligible now queues lo hi hour t k r = true -> queue_hour_needs_recovery (state_row now t (k, r)) = true.
Proof.
  unfold eligible, queue_hour_needs_recovery, state_row, lease_due, reopenable_row. rewrite !andb_true_iff.
  intros [_ Hr]. simpl. destruct (String.eqb (h_status r) "complete") eqn:Ec.
  - apply String.eqb_eq in Ec. rewrite Ec in Hr. simpl in Hr. by rewrite orb_false_r in Hr.
  - simpl in Hr. apply andb_true_iff in Hr as [-> Hl]. by destruct (h_lease_until r).
Qed.

(** Rows that all name their hour and need recovery become the candidates. *)
Lemma rows_candidates (rows : list value) (key : value -> Z * (string * Z)) :
  (forall row, row ∈ rows -> row_key row = Some (snd (key row)) /\ i32_field "queue_id" row = Some (fst (key row)) /\
                             queue_hour_needs_recovery row = true) ->
  forall c, c ∈ candidates_of_states (states_of_rows rows) <-> exists row, row ∈ rows /\ c = candidate_of (key row).
Proof.
  intros Hrows.
  assert ((forall x, x ∈ map fst (states_of_rows rows) <-> exists row, row ∈ rows /\ x = key row) /\
          (forall e, e ∈ states_of_rows rows -> queue_hour_needs_recovery (snd e) = true)) as [Hkeys Hneeds].
  { unfold states_of_rows. induction rows as [|row rows IH] using rev_ind; [simpl; split; set_solver|].
    rewrite foldl_app. simpl. destruct IH as [IHk IHn]; [intros r Hr; apply Hrows; set_solver|].
    destruct (Hrows row) as (-> & -> & Hn); [set_solver|]. destruct (snd (key row)) as [date hour] eqn:Ek.
    assert ((fst (key row), (date, hour)) = key row) as -> by (rewrite <- Ek; by destruct (key row)). split.
    - intros x. rewrite (btree_insert_keys _ cmp_state_eq), IHk. split.
      + intros [->|(r & Hr & ->)]; [exists row|exists r]; set_solver.
      + intros (r & [Hr|Hr%list_elem_of_singleton]%elem_of_app & ->); [right; by exists r|left; by subst].
    - intros e [->|He]%btree_insert_elem; [done|by apply IHn]. }
  intros c. unfold candidates_of_states.
  assert (forall (states : list ((Z * (string * Z)) * value)),
    (forall e, e ∈ states -> queue_hour_needs_recovery (snd e) = true) ->
    let m := foldl (fun cs e => if queue_hour_needs_recovery (snd e)
                                then btree_insert cmp_state (fst e) (candidate_of (fst e)) cs else cs) [] states in
    (forall x, x ∈ map fst m <-> x ∈ map fst states) /\ forall e, e ∈ m -> snd e = candidate_of (fst e)) as Hm.
  { clear. intros states. induction states as [|e states IH] using rev_ind; intros Hs; [simpl; split; set_solver|].
    rewrite foldl_app. simpl. rewrite Hs by set_solver. destruct IH as [IHk IHv]; [intros; apply Hs; set_solver|]. split.
    - intros x. rewrite (btree_insert_keys _ cmp_state_eq), IHk, map_app. simpl. set_solver.
    - intros x [->|Hx]%btree_insert_elem; [done|by apply IHv]. }
  specialize (Hm (states_of_rows rows) Hneeds) as [Hmk Hmv]. rewrite list_elem_of_fmap. split.
  - intros (e & -> & He). rewrite (Hmv e He).
    assert (fst e ∈ map fst (states_of_rows rows)) as Hin by (apply Hmk, list_elem_of_fmap; by exists e).
    apply Hkeys in Hin as (row & Hrow & ->). by exists row.
  - intros (row & Hrow & ->).
    assert (key row ∈ map fst (states_of_rows rows)) as Hin by (apply Hkeys; by exists row).
    apply Hmk, list_elem_of_fmap in Hin as (e & Ek & He). exists e. split; [|done]. by rewrite (Hmv e He), Ek.
Qed.
(** ** The scan *)

(** The scan proposes exactly the eligible hours of the newest eligible one. *)
Lemma scan_elem now queues lo hi hour t :
  date_texts -> keys_in_columns t ->
  forall c, c ∈ candidates_of_states (states_of_rows (queue_hour_states now queues lo hi hour t)) <->
    exists k r, hours t !! k = Some r /\ c = candidate_for k /\
      eligible now queues (date_value lo) (date_value hi) hour t k r = true /\
      forall k' r', hours t !! k' = Some r' ->
        eligible now queues (date_value lo) (date_value hi) hour t k' r' = true ->
        le_hour (key_date k', key_hour k') (key_date k, key_hour k) = true.
Proof.
  intros Hd Hk c. unfold queue_hour_states.
  set (es := eligible_hours now queues (date_value lo) (date_value hi) hour t).
  assert (forall e, e ∈ es <-> hours t !! fst e = Some (snd e) /\
            eligible now queues (date_value lo) (date_value hi) hour t (fst e) (snd e) = true) as Hes.
  { intros [k r]. unfold es, eligible_hours. rewrite list_elem_of_In, filter_In, <- list_elem_of_In. simpl.
    by rewrite elem_of_map_to_list. }
  pose proof (newest_spec es) as Hnew. destruct (newest es) as [h|].
  2: { rewrite Hnew in Hes. split; [intros Hc; by apply elem_of_nil in Hc|].
       intros (k & r & Hr & _ & He & _). pose proof (proj2 (Hes (k, r)) (conj Hr He)) as Hin.
       by apply elem_of_nil in Hin. }
  destruct Hnew as [(e0 & He0 & Hh0) Hmax].
  set (chosen := sort_by le_queue _).
  assert (forall e, e ∈ chosen <-> e ∈ es /\ hour_of_entry e = h) as Hchosen.
  { intros e. unfold chosen. rewrite sort_by_perm, list_elem_of_In, filter_In, <- list_elem_of_In.
    by rewrite bool_decide_eq_true. }
  set (key := fun row => (default 0 (i32_field "queue_id" row), default ("", 0) (row_key row))).
  assert (forall e, e ∈ chosen -> key (state_row now t e) = (key_queue (fst e), (pg_date_text (key_date (fst e)), key_hour (fst e)))) as Hkey.
  { intros [k r] [[Hr _]%Hes _]%Hchosen. simpl in Hr. apply Hk in Hr as [Hhour Hq]. unfold key.
    by destruct (state_row_key now t k r Hhour Hq) as [-> ->]. }
  rewrite (rows_candidates _ key).
  - split.
    + intros (row & (e & -> & He)%list_elem_of_fmap & ->). rewrite Hkey by done.
      apply Hchosen in He as [[Hr He]%Hes Hh]. exists (fst e), (snd e). split_and!; [done|done|done|].
      intros k' r' Hr' He'. change (key_date (fst e), key_hour (fst e)) with (hour_of_entry e). rewrite Hh.
      by apply (Hmax (k', r')), Hes.
    + intros (k & r & Hr & -> & He & Hlast). exists (state_row now t (k, r)).
      assert ((k, r) ∈ chosen) as Hin.
      { apply Hchosen. split; [by apply Hes|]. apply le_hour_antisym; [by apply Hmax, Hes|].
        rewrite <- Hh0. apply Hes in He0 as [Hr0 He0]. by apply (Hlast _ _ Hr0 He0). }
      split; [by apply list_elem_of_fmap_2|]. by rewrite Hkey.
  - intros row (e & -> & He)%list_elem_of_fmap. rewrite Hkey by done. apply Hchosen in He as [[Hr He]%Hes _].
    destruct e as [k r]. simpl in Hr, He. pose proof (Hk k r Hr) as [Hhour Hq].
    destruct (state_row_key now t k r Hhour Hq) as [-> ->]. split_and!; [done|done|].
    by eapply eligible_recovers.
Qed.

Lemma eligible_claimable now queues lo hi hour t k r :
  eligible now queues lo hi hour t k r = true -> hour_claimable now (reopenable_hour k t) r = true.
Proof.
  unfold eligible, hour_claimable, reopenable_row. rewrite !andb_true_iff. intros [_ Hr].
  apply orb_true_iff in Hr as [-> | -> ]; [by rewrite orb_true_r|apply orb_true_r].
Qed.

(** The gap check drains the newest stored hour that is not finished.
    Among the hours of the configured queues whose search has succeeded, from
    the lower date to the upper hour, it proposes exactly those which are
    complete with a match to reopen, or fetching without a live lease, and for
    which no such hour is newer; and every one it proposes could be claimed at
    that instant. *)
Theorem gap_scan_newest now queues lo hi hour t :
  date_texts -> keys_in_columns t ->
  let cs := candidates_of_states (states_of_rows (queue_hour_states now queues lo hi hour t)) in
  (forall c, c ∈ cs <->
     exists k r, hours t !! k = Some r /\ c = candidate_for k /\
       eligible now queues (date_value lo) (date_value hi) hour t k r = true /\
       forall k' r', hours t !! k' = Some r' ->
         eligible now queues (date_value lo) (date_value hi) hour t k' r' = true ->
         le_hour (key_date k', key_hour k') (key_date k, key_hour k) = true) /\
  (forall c, c ∈ cs -> exists k, c = candidate_for k /\
     fst (claim_hourly_ingest_hour now k GAP_SOURCE t) = true).
Proof.
  intros Hd Hk cs. split; [by apply scan_elem|]. intros c Hc. apply (scan_elem _ _ _ _ _ _ Hd Hk) in Hc as (k & r & Hr & -> & He & _).
  exists k. split; [done|]. unfold claim_hourly_ingest_hour. rewrite Hr. by erewrite eligible_claimable.
Qed.

(** A match closed without its roster pins the gap check.  Let an hour of
    the window be complete, and let one of its matches be closed as limited
    with its facts: the drain has no work for that match.  Then, whatever the
    other matches are, the hour is proposed as long as no newer one is
    eligible, and no older hour is ever proposed. *)
Theorem limited_match_pins_scan now queues lo hi hour t k r id row :
  date_texts -> keys_in_columns t ->
  hours t !! k = Some r -> h_status r = "complete" -> h_fetched r = true -> h_fetch_succeeded r = true ->
  key_queue k ∈ queues -> date_value lo <= key_date k ->
  le_hour (key_date k, key_hour k) (date_value hi, hour) = true ->
  id ∈ discovered_in k t -> ingest t !! id = Some row ->
  row_status row = "limited" -> row_acquisition_state row = "limited" ->
  (forall k' r', hours t !! k' = Some r' -> le_hour (key_date k', key_hour k') (key_date k, key_hour k) = true) ->
  let cs := candidates_of_states (states_of_rows (queue_hour_states now queues lo hi hour t)) in
  requires_canonical_work (ingest t) id = false /\ candidate_for k ∈ cs /\
  forall c, c ∈ cs -> gc_date c = pg_date_text (key_date k) /\ gc_hour c = key_hour k.
Proof.
  intros Hd Hk Hr Hs Hf Hfs Hq Hlo Hhi Hid Hrow Hst Hacq Hnewest cs.
  assert (eligible now queues (date_value lo) (date_value hi) hour t k r = true) as He.
  { unfold eligible, reopenable_row. rewrite Hf, Hfs, Hs, Hhi, (proj2 (Z.leb_le _ _) Hlo). simpl.
    assert (existsb (Z.eqb (key_queue k)) queues = true) as ->
      by (apply existsb_exists; exists (key_queue k); rewrite Z.eqb_refl; by split; [apply list_elem_of_In|]).
    assert (reopenable_hour k t = true) as ->; [|done].
    unfold reopenable_hour. apply existsb_exists. exists id. split; [by apply list_elem_of_In|].
    unfold unfinished_match. rewrite Hrow, Hst, Hacq. by rewrite orb_true_r. }
  split_and!.
  - unfold requires_canonical_work. rewrite Hrow, Hst, Hacq. done.
  - apply scan_elem; [done|done|]. exists k, r. split_and!; [done|done|done|]. intros k' r' Hr' _. by eapply Hnewest.
  - intros c (k' & r' & Hr' & -> & _ & Hlast)%(scan_elem _ _ _ _ _ _ Hd Hk). specialize (Hlast k r Hr He).
    pose proof (le_hour_antisym _ _ (Hnewest k' r' Hr') Hlast) as [= Ed Eh].
    unfold candidate_for. simpl. by rewrite Ed, Eh.
Qed.
End gap.
