(* ===== verification/Dispatch.v ===== *)
(** * What a scheduled job does (src/backend-rust/src/workers/scheduler_host.rs)

    The body of each job of the inventory: the discovery, the gap check, the
    buffer drain and the budget of the profile enrichment are the modelled
    ones, the other bodies are an interface.  The jobs of a process run over
    the coordination tables, which their bodies do not write. *)

From S2P Require Import Prelude Json HourlyIngest Pipeline Policy Coordination Schedule SchedulerHost GapCheck.

Record ProfileEnrichmentResult := {
  pe_claimed : Z; pe_calls : Z; pe_refreshed : Z; pe_unavailable : Z; pe_skipped_recent : Z; pe_failed : Z;
}.

Definition number (z : Z) : value := Number (NInt z).

Definition profile_enrichment_result_json (r : ProfileEnrichmentResult) : value :=
  Object [("claimed", number (pe_claimed r)); ("calls", number (pe_calls r));
          ("refreshed", number (pe_refreshed r)); ("unavailable", number (pe_unavailable r));
          ("skippedRecent", number (pe_skipped_recent r)); ("failed", number (pe_failed r))].

(** A result of which only the refreshed profiles are set. *)
Definition refreshed_profiles (n : Z) : value :=
  profile_enrichment_result_json
    {| pe_claimed := 0; pe_calls := 0; pe_refreshed := n; pe_unavailable := 0; pe_skipped_recent := 0; pe_failed := 0 |}.

Class JobBodies (W : Type) := {
  job_env : string -> option string;
  should_stop : ST (PipelineDb * W) bool;
  parse_rfc3339 : string -> result Z string;
  api_key_rows : ST (PipelineDb * W) (result (list ApiKeyRow) string);
  replay_audited_profiles : ST (PipelineDb * W) (result Z string);
  run_profile_enrichment : Z -> ST (PipelineDb * W) (result ProfileEnrichmentResult string);
  process_buffer_batch : Z -> ST (PipelineDb * W) (result BufferBatchResult string);
  repair_ranked_projection_gaps : Z -> ST (PipelineDb * W) (result Z string);
  (** The jobs whose bodies are not modelled, by their key. *)
  other_job : string -> ST (PipelineDb * W) (result value string);
}.

Definition other_jobs : list string := [
  "ranked-tracker:leaderboard"; "auto-ingester:raw-buffer-retention"; "auto-ingester:player-history-retention";
  "auto-ingester:materialized-view-refresh"; "auto-ingester:drop-detection"; "auto-ingester:view-count-drain";
  "baseline-tracker:refresh"; "derived-projections:refresh"; "tier-stats:refresh"
].

Section dispatch.
Context {W : Type} `{Calendar} `{GapEnv W} `{PipelineServices W} `{JobBodies W}.
Abbreviation P := (PipelineState W).

(** A capture run takes its clock from the environment. *)
Definition scheduler_dispatch_now (trigger : string) : ST P (result Z string) :=
  if negb (String.eqb trigger "capture-once") then
    service (fun s => let '(now, w) := clock_now (snd s) in (Ok now, (fst s, w)))
  else match job_env "PALADINSCAT_SCHEDULER_CAPTURE_NOW" with
       | None => mret (Err "scheduler capture clock is required")
       | Some s => mret (map_err (fun e => "scheduler capture clock is invalid: " +:+ e) (parse_rfc3339 s))
       end.

Definition discovery_job (trigger : string) : ST P (result value string) :=
  now <-? scheduler_dispatch_now trigger;
  let '(date, hour) := completed_discovery_window now in
  queues ← discover_configured_queues date hour (auto_ingester_presence_source trigger);
  let done := Z.of_nat (length (List.filter is_ok queues)) in
  mret (Ok (Object [("date", Str date); ("hour", number hour); ("queues", number (Z.of_nat (length queues)));
                    ("completed", number done); ("failed", number (Z.of_nat (length queues) - done))])).

Definition profile_job (trigger : string) : ST P (result value string) :=
  if String.eqb trigger "startup" then
    refreshed <-? service replay_audited_profiles;
    mret (Ok (refreshed_profiles refreshed))
  else
    keys <-? service api_key_rows;
    let max_calls := profile_enrichment_allowed_calls (profile_enrichment_max_calls job_env)
                       (api_headroom_snapshot (api_key_reserve_calls job_env) keys) in
    if max_calls =? 0 then mret (Ok (refreshed_profiles 0))
    else
      enrichment <-? service (run_profile_enrichment max_calls);
      mret (Ok (profile_enrichment_result_json enrichment)).

Definition buffer_job : ST P (result value string) :=
  totals <-? drain_buffer_continuously (service should_stop)
               (service (process_buffer_batch (buffer_drain_batch_size job_env)))
               (Z.to_nat (buffer_drain_max_batches_per_run job_env));
  mret (Ok (Object [("processed", number (dt_processed totals)); ("failed", number (dt_failed totals));
                    ("deferred", number (dt_deferred totals)); ("batches", number (Z.of_nat (dt_batches totals)))])).

Definition projection_job : ST P (result value string) :=
  let page := default 250 (s ← job_env "PROJECTION_REPAIR_PAGE_SIZE"; parse_usize s) in
  projected <-? service (repair_ranked_projection_gaps page);
  mret (Ok (Object [("projected", number projected); ("pageSize", number page)])).

Definition dispatch (job_key trigger : string) : ST P (result value string) :=
  if String.eqb job_key "auto-ingester:discovery" then discovery_job trigger
  else if String.eqb job_key "auto-ingester:profile-enrichment" then profile_job trigger
  else if String.eqb job_key "auto-ingester:buffer-drain" then buffer_job
  else if String.eqb job_key "ranked-projection:repair" then projection_job
  else if String.eqb job_key "hourly-gap-checker:scan" then run_gap_check
  else if existsb (String.eqb job_key) other_jobs then service (other_job job_key)
  else mret (Err ("unknown scheduled job " +:+ job_key)).

(** ** Over the coordination tables *)

(** The process: the coordination tables, and what its jobs work on. *)
Definition hosted {A} (f : ST P A) : ST (Coordination * P) A := fun s =>
  let '(a, p) := f (snd s) in (a, (fst s, p)).

Definition hosted_dispatch (job_key trigger : string) : ST (Coordination * P) (result value string) :=
  hosted (dispatch job_key trigger).

(** ** Every job of the inventory has a body *)

Definition has_body (job_key : string) : bool :=
  existsb (String.eqb job_key)
    (["auto-ingester:discovery"; "auto-ingester:profile-enrichment"; "auto-ingester:buffer-drain";
      "ranked-projection:repair"; "hourly-gap-checker:scan"] ++ other_jobs).

Lemma inventory_has_bodies : forallb (fun job => has_body (sj_key job)) SCHEDULED_JOBS = true.
Proof. reflexivity. Qed.

(** ** The bodies leave the coordination tables alone *)

Context `{CoordinationDb P}.

Lemma dispatch_leaves_own_run job trigger : leaves_own_run hosted_dispatch job trigger.
Proof. intros id [c p]. unfold hosted_dispatch, hosted. simpl. by destruct (dispatch job trigger p). Qed.

(** A scheduled job leaves a closed run and no lease.  When the
    coordination database answers, an execution that reports that it ran has
    put a run of the job in the log, with its trigger, completed or failed as
    the job's body ended and with its result or its error, and the job's lease
    is gone; one that reports that it did not run has left the run log and the
    leases as they were. *)
Theorem scheduled_job_closes_run job owner trigger x :
  answering (W := P) ->
  let '(executed, x') := execute_scheduled_job_once hosted_dispatch job owner trigger x in
  if executed : bool then
    lease_of (sj_key job) x' = None /\
    exists r, run_of (next_run (fst x)) x' = Some r /\ closed_run job owner trigger r
  else run_log (fst x') = run_log (fst x) /\ jobs (fst x') = jobs (fst x).
Proof. intros Ha. apply execution_closes_run; [done|]. apply dispatch_leaves_own_run. Qed.
End dispatch.
