(* ===== verification/RawBuffer.v ===== *)
(** * The raw ingest buffer (src/backend-rust/src/workers/raw_buffer.rs)

    Rows wait in a table until a batch claims them, writes their facts or
    projections and closes them.  Claims are leases: rows that stay claimed
    for too long go back.  The writers of the entities, the projections and the
    relay are an interface; the ids of matches fit 64 bits. *)

From S2P Require Import Prelude Json Lifecycle Pipeline Policy SchedulerHost MatchFacts.

Definition MAX_RETRIES : Z := 3.

(** ** The table *)

Record BufferRow := {
  rb_raw_data : value;
  rb_endpoint : string;
  rb_entity_type : string;
  rb_entity_id : option string;
  rb_status : string;
  rb_retry_count : Z;
  rb_error_message : option string;
  rb_created_at : Z;
  rb_processed_at : option Z;
  rb_available_at : Z;
}.

(** The buffer, the ledger of the matches, and the matches of the ranked
    population. *)
Record BufferDb := { buffer : gmap Z BufferRow; buffer_ledger : ledger; ranked_matches : gset Z }.

Definition with_buffer (b : gmap Z BufferRow) (d : BufferDb) : BufferDb :=
  {| buffer := b; buffer_ledger := buffer_ledger d; ranked_matches := ranked_matches d |}.

Definition is_status (s : string) (r : BufferRow) : bool := String.eqb (rb_status r) s.
Definition is_match (r : BufferRow) : bool := String.eqb (rb_entity_type r) "match".

(** The unique index [uq_rib_active_match_entity] of the schema: one active row
    per named match. *)
Definition active_match (r : BufferRow) : bool :=
  is_match r && negb (is_empty (default "" (rb_entity_id r))) && (is_status "pending" r || is_status "processing" r).

Definition clash (e e' : Z * BufferRow) : bool :=
  negb (fst e =? fst e') && active_match (snd e) && active_match (snd e')
  && bool_decide (rb_entity_id (snd e) = rb_entity_id (snd e')).

Definition unique_active (b : gmap Z BufferRow) : bool :=
  forallb (fun e => forallb (fun e' => negb (clash e e')) (map_to_list b)) (map_to_list b).

(** UPDATE ... WHERE. *)
Definition update_rows (p : Z -> BufferRow -> bool) (f : BufferRow -> BufferRow) (d : BufferDb) : BufferDb :=
  with_buffer (map_imap (fun id r => Some (if p id r then f r else r)) (buffer d)) d.

Definition set_row (status : string) (retry : Z) (error : option string) (processed : option Z) (available : Z)
    (r : BufferRow) : BufferRow :=
  {| rb_raw_data := rb_raw_data r; rb_endpoint := rb_endpoint r; rb_entity_type := rb_entity_type r;
     rb_entity_id := rb_entity_id r; rb_status := status; rb_retry_count := retry; rb_error_message := error;
     rb_created_at := rb_created_at r; rb_processed_at := processed; rb_available_at := available |}.

Fixpoint digits_only (s : string) : bool :=
  match s with EmptyString => true | String c r => is_digit c && digits_only r end.

(** [entity_id ~ '^[0-9]+$'] and the cast to a number. *)
Definition match_id_of (entity_id : option string) : option Z :=
  s ← entity_id; if negb (is_empty s) && digits_only s then parse_i64 s else None.

Definition has_stages (stages : list string) (l : ledger) (id : Z) : bool :=
  match l !! id with Some r => forallb (fun s => bool_decide (s ∈ row_completed_stages r)) stages | None => false end.

Definition fact_stages : list string := ["player_facts"; "match_bans"].

(** The facts of the row's match are durable. *)
Definition facts_durable (l : ledger) (r : BufferRow) : bool :=
  match match_id_of (rb_entity_id r) with Some id => has_stages fact_stages l id | None => false end.

(** ** Recovery *)

Definition minutes_us (n : Z) : Z := n * 60000000.

Definition stale (now : Z) (r : BufferRow) : bool :=
  match rb_processed_at r with
  | Some at_ => at_ <? now - minutes_us 15
  | None => rb_created_at r <? now - minutes_us 30
  end.

(** [concat_ws(' | ', nullif(error_message, ''), ...)]. *)
Definition stale_message (e : option string) : string :=
  match e with
  | Some m => if is_empty m then "stale processing lease reset" else m +:+ " | stale processing lease reset"
  | None => "stale processing lease reset"
  end.

Definition recovered_row (now : Z) (l : ledger) (r : BufferRow) : BufferRow :=
  let durable := is_match r && facts_durable l r in
  set_row (if durable then "pending" else if MAX_RETRIES - 1 <=? rb_retry_count r then "failed" else "pending")
    (rb_retry_count r + 1) (Some (stale_message (rb_error_message r))) None
    (if durable then now + minutes_us 5 else rb_available_at r) r.

Definition recover_stale_leases_for (now : Z) (row_id : option Z) (d : BufferDb) : BufferDb :=
  update_rows (fun id r => is_status "processing" r
                           && match row_id with None => true | Some i => id =? i end && stale now r)
    (recovered_row now (buffer_ledger d)) d.

Definition missing_projection (d : BufferDb) (r : BufferRow) : bool :=
  match match_id_of (rb_entity_id r) with
  | Some id =>
      bool_decide (id ∈ ranked_matches d)
      && has_stages ["player_facts"; "match_bans"; "ranked_stats"] (buffer_ledger d) id
      && negb (has_stages ["ranked_stats"; "performance_projections"; "scalable_stats"] (buffer_ledger d) id)
  | None => false
  end.

Definition requeue_incomplete_ranked_projections (now : Z) (d : BufferDb) : BufferDb :=
  update_rows (fun _ r => is_status "processed" r && is_match r && missing_projection d r)
    (fun r => set_row "pending" (rb_retry_count r)
                (Some "ranked projection repair: required cumulative stage missing") None now r) d.

(** ** Claims *)

(** The text of a JSON value ([->>]); that of an array or an object is only
    compared with texts it is not. *)
Definition json_text (v : option value) : option string :=
  match v with
  | Some Null | None => None
  | Some (Array _) => Some "["
  | Some (Object _) => Some "{"
  | Some v => value_text v
  end.

Fixpoint blank (s : string) : bool :=
  match s with EmptyString => true | String c r => Ascii.eqb c " " && blank r end.

Definition needs_rescue (player : value) : bool :=
  negb (blank (default "" (json_text (get "ret_msg" player))))
  || String.eqb (to_ascii_lowercase (default "" (json_text (get "source" player)))) "recovered".

(** A short roster, or a row the provider could not fill. *)
Definition broken_payload (raw : value) : bool :=
  match raw with
  | Array players => (length players <? 10)%nat || existsb needs_rescue players
  | _ => false
  end.

Definition history_endpoints : list string :=
  ["getmatchhistory"; "getplayermatchhistory"; "getplayermatchhistoryafterdatetime"].

Definition claim_priority (l : ledger) (r : BufferRow) : Z :=
  if is_match r then
    if facts_durable l r then 3 else if broken_payload (rb_raw_data r) then 0 else 1
  else if existsb (String.eqb (rb_endpoint r)) history_endpoints
          || existsb (String.eqb (rb_entity_type r)) ["match_history"; "prefetch_match"] then 4
  else 2.

Definition claim_key (id : Z) (r : BufferRow) : string :=
  if is_match r then "match:" +:+ default (pretty id) (rb_entity_id r) else "row:" +:+ pretty id.

Definition pending_facts (l : ledger) (r : BufferRow) : bool :=
  is_match r && is_status "pending" r && negb (facts_durable l r).

Definition has_pending_match_facts (d : BufferDb) : bool :=
  existsb (fun e => pending_facts (buffer_ledger d) (snd e)) (map_to_list (buffer d)).

(** Another row of the match is being processed. *)
Definition in_flight (b : gmap Z BufferRow) (id : Z) (r : BufferRow) : bool :=
  existsb (fun e => is_match (snd e) && bool_decide (rb_entity_id (snd e) = rb_entity_id r)
                    && is_status "processing" (snd e) && negb (fst e =? id)) (map_to_list b).

Definition eligible_row (now : Z) (facts_first : bool) (d : BufferDb) (e : Z * BufferRow) : bool :=
  let r := snd e in
  is_status "pending" r && (rb_available_at r <=? now)
  && (negb facts_first || (is_match r && negb (facts_durable (buffer_ledger d) r)))
  && (negb (is_match r) || negb (in_flight (buffer d) (fst e) r)).

(** By priority, age and id; ids differ. *)
Definition le_claim (l : ledger) (a b : Z * BufferRow) : bool :=
  let pa := claim_priority l (snd a) in
  let pb := claim_priority l (snd b) in
  (pa <? pb)
  || ((pa =? pb) && ((rb_created_at (snd a) <? rb_created_at (snd b))
                     || ((rb_created_at (snd a) =? rb_created_at (snd b)) && (fst a <=? fst b)))).

(** [DISTINCT ON (key) ... ORDER BY key, priority, created_at, id]. *)
Definition deduplicated (l : ledger) (es : list (Z * BufferRow)) : list (Z * BufferRow) :=
  List.filter (fun e => forallb (fun e' => negb (String.eqb (claim_key (fst e') (snd e')) (claim_key (fst e) (snd e)))
                                           || le_claim l e e') es) es.

Definition claim_candidates (now : Z) (limit : nat) (facts_first : bool) (d : BufferDb) : list (Z * BufferRow) :=
  let es := List.filter (eligible_row now facts_first d) (map_to_list (buffer d)) in
  take limit (sort_by (le_claim (buffer_ledger d)) (deduplicated (buffer_ledger d) es)).

Record ClaimedRow := {
  cl_id : Z;
  cl_raw_data : value;
  cl_endpoint : string;
  cl_entity_type : string;
  cl_entity_id : string;
  cl_retry_count : Z;
  cl_priority : Z;
}.

Inductive RawBufferError :=
  | BufferDatabase (message : string)
  | BufferFacts (e : MatchFactError)
  | Unsupported (row_id : Z) (entity_type endpoint : string)
  | Invalid (row_id : Z) (message : string).

Definition raw_buffer_error_to_string (e : RawBufferError) : string :=
  match e with
  | BufferDatabase m => m
  | BufferFacts e => match_fact_error_to_string e
  | Unsupported id entity_type endpoint =>
      "raw buffer row " +:+ pretty id +:+ " has unsupported entity type " +:+ entity_type
      +:+ " (" +:+ endpoint +:+ ")"
  | Invalid id m => "raw buffer row " +:+ pretty id +:+ " has invalid payload: " +:+ m
  end.

Definition decode_claimed_row (priority : Z) (e : Z * BufferRow) : result ClaimedRow RawBufferError :=
  let '(id, r) := e in
  if (id <=? 0) || is_null (rb_raw_data r) then Err (Invalid id "claim did not return id/raw_data")
  else Ok {| cl_id := id; cl_raw_data := rb_raw_data r; cl_endpoint := rb_endpoint r;
             cl_entity_type := rb_entity_type r; cl_entity_id := default "" (rb_entity_id r);
             cl_retry_count := rb_retry_count r; cl_priority := priority |}.

(** [collect::<Result<Vec<_>, _>>()]. *)
Fixpoint collect_results {A E} (l : list (result A E)) : result (list A) E :=
  match l with
  | [] => Ok []
  | Ok a :: r => match collect_results r with Ok x => Ok (a :: x) | Err e => Err e end
  | Err e :: _ => Err e
  end.

(** [ORDER BY priority, id]. *)
Definition le_returned (a b : Z * (Z * BufferRow)) : bool :=
  (fst a <? fst b) || ((fst a =? fst b) && (fst (snd a) <=? fst (snd b))).

Definition claim_statement (now : Z) (limit : nat) (facts_first : bool) (d : BufferDb) :
    result (list ClaimedRow) RawBufferError * BufferDb :=
  let candidates := claim_candidates now limit facts_first d in
  let returned := sort_by le_returned (map (fun e => (claim_priority (buffer_ledger d) (snd e), e)) candidates) in
  (collect_results (map (fun e => decode_claimed_row (fst e) (snd e)) returned),
   update_rows (fun id _ => bool_decide (id ∈ map fst candidates))
     (fun r => set_row "processing" (rb_retry_count r) (rb_error_message r) (Some now) (rb_available_at r) r) d).

(** ** Closing claims *)

Definition renew_row (now id : Z) (d : BufferDb) : bool * BufferDb :=
  match buffer d !! id with
  | Some r =>
      if is_status "processing" r
      then (true, with_buffer (<[id := set_row "processing" (rb_retry_count r) (rb_error_message r) (Some now)
                                          (rb_available_at r) r]> (buffer d)) d)
      else (false, d)
  | None => (false, d)
  end.

Definition renew_rows (now : Z) (ids : list Z) (d : BufferDb) : BufferDb :=
  update_rows (fun id r => bool_decide (id ∈ ids) && is_status "processing" r)
    (fun r => set_row "processing" (rb_retry_count r) (rb_error_message r) (Some now) (rb_available_at r) r) d.

(** An UPDATE of one row by its id. *)
Definition close_row (id : Z) (f : BufferRow -> BufferRow) (d : BufferDb) : BufferDb :=
  with_buffer (alter f id (buffer d)) d.

Definition mark_processed (now id : Z) : BufferDb -> BufferDb :=
  close_row id (fun r => set_row "processed" (rb_retry_count r) None (Some now) (rb_available_at r) r).

Definition retain_pending (id : Z) (message : string) : BufferDb -> BufferDb :=
  close_row id (fun r => set_row "pending" (rb_retry_count r) (Some message) None (rb_available_at r) r).

(** The first four thousand characters; bytes where they are ASCII. *)
Definition left_4000 (s : string) : string := String.substring 0 4000 s.

Definition retry_delay (retry : Z) : Z := Z.min 300 (2 ^ Z.max 0 (Z.min retry 8)).

Definition mark_failed_or_deferred (now id retry : Z) (terminal durable : bool) (message : string) :
    BufferDb -> BufferDb :=
  close_row id (fun r =>
    set_row (if terminal then "failed" else "pending") retry (Some (left_4000 message))
      (if terminal then Some now else None)
      (if terminal then rb_available_at r
       else if durable then now + retry_delay retry * 1000000 else rb_available_at r) r).

Definition return_claims (ids : list Z) : BufferDb -> BufferDb :=
  update_rows (fun id r => bool_decide (id ∈ ids) && is_status "processing" r)
    (fun r => set_row "pending" (rb_retry_count r) (rb_error_message r) None (rb_available_at r) r).

(** *** Retention (workers/maintenance.rs) *)

Definition retained_at (r : BufferRow) : Z := default (rb_created_at r) (rb_processed_at r).

Definition doomed (now : Z) (status : string) (hours limit : Z) (d : BufferDb) : list Z :=
  map fst (take (Z.to_nat limit)
    (sort_by (fun a b => (retained_at (snd a) <? retained_at (snd b))
                         || ((retained_at (snd a) =? retained_at (snd b)) && (fst a <=? fst b)))
       (List.filter (fun e => is_status status (snd e) && (retained_at (snd e) <? now - hours * minutes_us 60))
          (map_to_list (buffer d))))).

Definition delete_retained (now : Z) (status : string) (hours limit : Z) (d : BufferDb) : BufferDb :=
  with_buffer (foldl (fun b id => delete id b) (buffer d) (doomed now status hours limit d)) d.

(** ** What a row is *)

Definition buffer_text (v : value) (key : string) : string := default "" (x ← get key v; as_str x).

Definition observed_source (row : value) : bool :=
  existsb (String.eqb (to_ascii_lowercase (buffer_text row "source")))
    ["prefetch"; "match_history"; "history_observation"; "legacy_prefetch"].

Definition is_history_contract (endpoint entity_type : string) (raw : value) : bool :=
  existsb (String.eqb entity_type) ["match_history"; "prefetch_match"]
  || existsb (String.eqb endpoint) history_endpoints
  || match raw with Array rows => negb (bool_decide (rows = [])) && forallb observed_source rows | _ => false end.

Definition match_payload_requires_recovery (raw : value) : bool :=
  match raw with
  | Array rows =>
      (length rows <? 10)%nat
      || existsb (fun row => negb (is_empty (trim (buffer_text row "ret_msg")))) rows
      || existsb (fun row => eq_ignore_ascii_case (buffer_text row "source") "recovered") rows
  | _ => false
  end.

Definition entity_types : list string := [
  "loadout"; "player"; "champion"; "item"; "player_status"; "player_champions"; "player_achievements";
  "champion_skins"; "live_match"; "leaderboard"; "league_leaderboard"; "esports"; "esports_team"; "bounty_items"
].
