(* ===== verification/RawBufferWorker.v ===== *)
(** * The raw buffer worker (src/backend-rust/src/workers/raw_buffer.rs)

    One batch: recovery, claim, the facts lane, the projections in adaptive
    batches, the other rows, and the retention at the end.  The facts lane,
    which the program runs eight rows at a time, is taken in order. *)

From S2P Require Import Prelude Json Lifecycle Pipeline Policy SchedulerHost MatchFacts RawBuffer.

Inductive CumulativeProjectionStage := Performance | Scalable.

Class BufferServices (W : Type) := {
  (** A statement begins at its instant, or fails. *)
  buffer_begin : ST W (result Z string);
  (** The text of an error of the database, by the name of its condition. *)
  database_message : string -> string;
  stop_requested : ST W bool;
  buffer_env : string -> option string;
  headroom_snapshot : ST (BufferDb * W) (result ApiHeadroomSnapshot string);
  cleanup_relay_cache : ST (BufferDb * W) unit;
  buffer_decoder : DecodeMessages;
  finalize_payload : CanonicalMatchPayload -> ST (BufferDb * W) (result MatchPopulation MatchFactError);
  project_ranked : Z -> ST (BufferDb * W) (result unit string);
  project_nonranked : Z -> ST (BufferDb * W) (result unit string);
  project_cumulative : CumulativeProjectionStage -> list Z -> ST (BufferDb * W) (result unit string);
  (** The upserts of the other entities, by their type; histories have their own. *)
  persist_history : ClaimedRow -> ST (BufferDb * W) (result unit RawBufferError);
  persist_entity : string -> ClaimedRow -> ST (BufferDb * W) (result unit RawBufferError);
  audit_retention : ST (BufferDb * W) (result unit string);
}.

Section worker.
Context {W : Type} `{BufferServices W}.
Abbreviation X := (BufferDb * W)%type.
#[local] Existing Instance buffer_decoder.

(** A statement on the buffer. *)
Definition buffer_statement {A} (f : Z -> BufferDb -> A * BufferDb) : ST X (result A RawBufferError) := fun s =>
  match buffer_begin (snd s) with
  | (Ok now, w) => let '(a, d) := f now (fst s) in (Ok a, (d, w))
  | (Err e, w) => (Err (BufferDatabase e), (fst s, w))
  end.

(** A statement that fails of itself leaves the tables as they were. *)
Definition failing_statement {A} (f : Z -> BufferDb -> result A RawBufferError * BufferDb) :
    ST X (result A RawBufferError) :=
  answer <-? buffer_statement f;
  mret answer.

(** An UPDATE of the buffer, under its unique index; the statements that change
    no row's activity cannot violate it and are written without it. *)
Definition indexed_update (f : Z -> BufferDb -> BufferDb) (now : Z) (d : BufferDb) :
    result unit RawBufferError * BufferDb :=
  if unique_active (buffer (f now d)) then (Ok tt, f now d)
  else (Err (BufferDatabase (database_message "unique_violation")), d).

Definition buffer_update (f : Z -> BufferDb -> BufferDb) : ST X (result unit RawBufferError) :=
  failing_statement (indexed_update f).

(** [should_stop.is_some_and(...)]; a batch without a flag never stops. *)
Variable flagged : bool.
Definition stopped : ST X bool := fun s =>
  if flagged then let '(b, w) := stop_requested (snd s) in (b, (fst s, w)) else (false, s).

Definition return_claims_to_pending (rows : list ClaimedRow) : ST X (result unit RawBufferError) :=
  if bool_decide (map cl_id rows = []) then mret (Ok tt)
  else buffer_update (fun _ => return_claims (map cl_id rows)).

Definition claim_rows (batch_size : Z) : ST X (result (list ClaimedRow) RawBufferError) :=
  facts <-? buffer_statement (fun _ d => (has_pending_match_facts d, d));
  failing_statement (fun now => claim_statement now (Z.to_nat (Z.max 1 batch_size)) facts).

(** *** One row *)

Definition persist_match_row (row : ClaimedRow) (facts_only : bool) : ST X (result unit RawBufferError) :=
  match from_buffer_rows (cl_raw_data row) with
  | Err e => mret (Err (BufferFacts e))
  | Ok payload =>
      if negb (is_empty (cl_entity_id row))
         && negb (bool_decide (parse_i64 (cl_entity_id row) = Some (p_match_id payload)))
      then mret (Err (Invalid (cl_id row) "entity_id does not match payload match_id"))
      else
        finalized ← finalize_payload payload;
        match finalized with
        | Err e => mret (Err (BufferFacts e))
        | Ok population =>
            if facts_only || bool_decide (population = Unknown) then mret (Ok tt)
            else if bool_decide (population = Ranked) then
              projected ← project_ranked (p_match_id payload);
              mret (map_err (fun e => Invalid (cl_id row) ("ranked projection pending: " +:+ e)) projected)
            else
              projected ← project_nonranked (p_match_id payload);
              mret (map_err (Invalid (cl_id row)) projected)
        end
  end.

Definition process_row (row : ClaimedRow) (facts_only : bool) : ST X (result unit RawBufferError) :=
  let endpoint := to_ascii_lowercase (cl_endpoint row) in
  let entity_type := to_ascii_lowercase (cl_entity_type row) in
  if is_history_contract endpoint entity_type (cl_raw_data row) then persist_history row
  else if String.eqb entity_type "match" then persist_match_row row facts_only
  else if existsb (String.eqb entity_type) entity_types then persist_entity entity_type row
  else mret (Err (Unsupported (cl_id row) (cl_entity_type row) (cl_endpoint row))).

Definition no_rows : BufferBatchResult := {| bb_processed := 0; bb_failed := 0; bb_deferred := 0 |}.
Definition one_processed : BufferBatchResult := {| bb_processed := 1; bb_failed := 0; bb_deferred := 0 |}.
Definition one_failed : BufferBatchResult := {| bb_processed := 0; bb_failed := 1; bb_deferred := 0 |}.
Definition one_deferred : BufferBatchResult := {| bb_processed := 0; bb_failed := 0; bb_deferred := 1 |}.

Definition claimed_match (row : ClaimedRow) : bool := eq_ignore_ascii_case (cl_entity_type row) "match".

(** Whether the ledger calls the match limited; the id is cast to a number. *)
Definition match_is_limited (entity_id : string) : ST X (result bool RawBufferError) :=
  failing_statement (fun _ d =>
    (match parse_i64 entity_id with
     | Some id => Ok match buffer_ledger d !! id with
                     | Some r => String.eqb (row_status r) "limited"
                     | None => false
                     end
     | None => Err (BufferDatabase (database_message "invalid_text_representation"))
     end, d)).

Definition match_facts_are_durable (entity_id : string) : ST X (result bool RawBufferError) :=
  match parse_i64 entity_id with
  | None => mret (Ok false)
  | Some id => buffer_statement (fun _ d => (has_stages fact_stages (buffer_ledger d) id, d))
  end.

Definition is_unsupported (e : RawBufferError) : bool := match e with Unsupported _ _ _ => true | _ => false end.

Definition process_claimed_row (row : ClaimedRow) (has_api_headroom facts_only : bool) :
    ST X (result BufferBatchResult RawBufferError) :=
  renewed <-? buffer_statement (fun now => renew_row now (cl_id row));
  if negb renewed then mret (Ok no_rows)
  else if negb has_api_headroom && claimed_match row && match_payload_requires_recovery (cl_raw_data row) then
    _ <-? buffer_update (fun _ => retain_pending (cl_id row)
            "quota pause: recovery-required match retained pending");
    mret (Ok one_deferred)
  else
    outcome ← process_row row facts_only;
    match outcome with
    | Ok _ =>
        if facts_only then
          limited <-? match_is_limited (cl_entity_id row);
          if (limited : bool) then
            _ <-? buffer_update (fun now => mark_processed now (cl_id row));
            mret (Ok one_processed)
          else
            _ <-? buffer_update (fun _ => retain_pending (cl_id row)
                    "match facts durable; background projections pending");
            mret (Ok one_deferred)
        else
          _ <-? buffer_update (fun now => mark_processed now (cl_id row));
          mret (Ok one_processed)
    | Err error =>
        let retry := Z.min i32_max (cl_retry_count row + 1) in
        durable <-? (if claimed_match row then match_facts_are_durable (cl_entity_id row) else mret (Ok false));
        let terminal := negb durable && ((MAX_RETRIES <=? retry) || is_unsupported error) in
        _ <-? buffer_update (fun now => mark_failed_or_deferred now (cl_id row) retry terminal durable
                (raw_buffer_error_to_string error));
        mret (Ok (if terminal then one_failed else one_deferred))
    end.

Definition merge_batch_result (target source : BufferBatchResult) : BufferBatchResult :=
  {| bb_processed := sat_add_i32 (bb_processed target) (bb_processed source);
     bb_failed := sat_add_i32 (bb_failed target) (bb_failed source);
     bb_deferred := sat_add_i32 (bb_deferred target) (bb_deferred source) |}.

(** *** Adaptive projections *)

Definition renew_claimed_rows (rows : list ClaimedRow) : ST X (result unit RawBufferError) :=
  if bool_decide (map cl_id rows = []) then mret (Ok tt)
  else buffer_update (fun now => renew_rows now (map cl_id rows)).

Definition renew_claimed_matches (rows : list ClaimedRow) (match_ids : list Z) : ST X (result unit RawBufferError) :=
  renew_claimed_rows (List.filter (fun row =>
    match parse_i64 (cl_entity_id row) with Some id => bool_decide (id ∈ match_ids) | None => false end) rows).

Definition cumulative_batch_size : Z :=
  Z.min 25 (default 8 (s ← buffer_env "CUMULATIVE_PROJECTION_BATCH_SIZE"; n ← parse_usize s;
                       if 0 <? n then Some n else None)).

Definition div_ceil2 (n : nat) : nat := (n / 2 + n mod 2)%nat.

(** The chunks still to project, next first; [fuel] iterations of the loop. *)
Fixpoint project_chunks (fuel : nat) (rows : list ClaimedRow) (stage : CumulativeProjectionStage)
    (pending : list (list Z)) (fallback : list Z) : ST X (option (result (list Z) RawBufferError)) :=
  match pending, fuel with
  | [], _ => mret (Some (Ok fallback))
  | _ :: _, O => mret None
  | chunk :: pending, S fuel =>
      renewed ← renew_claimed_matches rows chunk;
      match renewed with
      | Err e => mret (Some (Err e))
      | Ok _ =>
          projected ← project_cumulative stage chunk;
          if is_ok projected then project_chunks fuel rows stage pending fallback
          else if (1 <? length chunk)%nat then
            let midpoint := div_ceil2 (length chunk) in
            project_chunks fuel rows stage (take midpoint chunk :: drop midpoint chunk :: pending) fallback
          else project_chunks fuel rows stage pending (chunk ++ fallback)
      end
  end.

(** Twice the number of ids is enough iterations. *)
Definition chunk_turns (candidates : list Z) : nat := 2 * length candidates.

Definition apply_adaptive_projection_stage (rows : list ClaimedRow) (candidates : list Z)
    (stage : CumulativeProjectionStage) : ST X (option (result (list Z) RawBufferError)) :=
  project_chunks (chunk_turns candidates) rows stage
    (chunks (Z.to_nat cumulative_batch_size) candidates) [].

Definition ranked_candidates (have lack : list string) (ids : list Z) (d : BufferDb) : list Z :=
  sort_by Z.leb (List.filter (fun id =>
    bool_decide (id ∈ ranked_matches d) && has_stages have (buffer_ledger d) id
    && negb (has_stages lack (buffer_ledger d) id)) ids).

Definition row_match_ids (rows : list ClaimedRow) : list Z :=
  sort_by Z.leb (remove_dups (omap (fun row => if claimed_match row then parse_i64 (cl_entity_id row) else None) rows)).

(** Its result only tells which matches are left to the ordinary retry. *)
Definition apply_adaptive_ranked_projection_batches (rows : list ClaimedRow) : ST X unit :=
  renewed ← renew_claimed_rows rows;
  let ids := row_match_ids rows in
  if negb (is_ok renewed) || (length ids <? 2)%nat then mret tt
  else
    performance ← buffer_statement (fun _ d => (ranked_candidates ["ranked_stats"] ["performance_projections"] ids d, d));
    match performance with
    | Err _ => mret tt
    | Ok performance =>
        first ← apply_adaptive_projection_stage rows performance Performance;
        match first with
        | Some (Ok _) =>
            scalable ← buffer_statement (fun _ d => (ranked_candidates ["performance_projections"] ["scalable_stats"] ids d, d));
            match scalable with
            | Err _ => mret tt
            | Ok scalable =>
                renewed ← renew_claimed_rows rows;
                if is_ok renewed then
                  _ ← apply_adaptive_projection_stage rows scalable Scalable;
                  mret tt
                else mret tt
            end
        | _ => mret tt
        end
    end.

(** *** A batch *)

Definition fact_lane_row (row : ClaimedRow) (headroom : bool) : ST X (result BufferBatchResult RawBufferError) :=
  stop ← stopped;
  if (stop : bool) then
    _ <-? return_claims_to_pending [row];
    mret (Ok no_rows)
  else
    outcome ← process_claimed_row row headroom true;
    match outcome with
    | Ok r => mret (Ok r)
    | Err e => _ ← return_claims_to_pending [row]; mret (Err e)
    end.

Fixpoint fact_lane (rows : list ClaimedRow) (headroom : bool) (t : BufferBatchResult) : ST X BufferBatchResult :=
  match rows with
  | [] => mret t
  | row :: rest =>
      outcome ← fact_lane_row row headroom;
      fact_lane rest headroom
        (match outcome with
         | Ok r => merge_batch_result t r
         | Err _ => {| bb_processed := bb_processed t; bb_failed := sat_add_i32 (bb_failed t) 1;
                       bb_deferred := bb_deferred t |}
         end)
  end.

Definition facts_came_in (row : ClaimedRow) : ST X (result bool RawBufferError) :=
  if 1 <? cl_priority row then buffer_statement (fun _ d => (has_pending_match_facts d, d)) else mret (Ok false).

Fixpoint derived_lane (rows : list ClaimedRow) (headroom : bool) (t : BufferBatchResult) :
    ST X (result BufferBatchResult RawBufferError) :=
  match rows with
  | [] => mret (Ok t)
  | row :: rest =>
      stop ← stopped;
      yield_now <-? (if (stop : bool) then mret (Ok true) else facts_came_in row);
      if (yield_now : bool) then
        _ <-? return_claims_to_pending rows;
        mret (Ok t)
      else
        outcome ← process_claimed_row row headroom false;
        match outcome with
        | Ok r => derived_lane rest headroom (merge_batch_result t r)
        | Err e => _ <-? return_claims_to_pending rows; mret (Err e)
        end
  end.

Definition fact_row (row : ClaimedRow) : bool := claimed_match row && (cl_priority row <=? 1).

Definition process_claims (rows : list ClaimedRow) (headroom : bool) : ST X (result BufferBatchResult RawBufferError) :=
  let derived := List.filter (fun row => negb (fact_row row)) rows in
  facts ← fact_lane (List.filter fact_row rows) headroom no_rows;
  _ ← apply_adaptive_ranked_projection_batches derived;
  done <-? derived_lane derived headroom facts;
  stop ← stopped;
  if (stop : bool) then mret (Ok done)
  else
    retained ← audit_retention;
    mret (match retained with Ok _ => Ok done | Err e => Err (BufferDatabase e) end).

Definition process_raw_buffer_batch_inner (batch_size : Z) : ST X (result BufferBatchResult RawBufferError) :=
  stop ← stopped;
  if (stop : bool) then mret (Ok no_rows) else
  snapshot ← headroom_snapshot;
  match snapshot with
  | Err e => mret (Err (BufferDatabase e))
  | Ok headroom =>
      _ ← cleanup_relay_cache;
      _ <-? buffer_update (fun now => recover_stale_leases_for now None);
      _ <-? buffer_update requeue_incomplete_ranked_projections;
      rows <-? claim_rows batch_size;
      if bool_decide (map cl_id rows = []) then mret (Ok no_rows) else
      stop ← stopped;
      if (stop : bool) then
        _ <-? return_claims_to_pending rows;
        mret (Ok no_rows)
      else process_claims rows (has_usable_keys headroom)
  end.
End worker.
