(* ===== verification/PipelineHours.v ===== *)
(** * One provider search per hour, through every execution

    Each statement of the pipeline is a statement of HourlyIngest, so an
    execution is a run of its interleaving semantics, together with whatever
    other processes do to the tables while the pipeline waits; the discovery
    call is only made after the search was granted in that run. *)

From S2P Require Import Prelude Json Lifecycle HourlyIngest Outage Pipeline PipelineSpec.

Lemma hour_run_app now0 tr1 t0 now1 t1 tr2 now2 t2 :
  hour_run now0 tr1 t0 now1 t1 -> hour_run now1 tr2 t1 now2 t2 -> hour_run now0 (tr1 ++ tr2) t0 now2 t2.
Proof. induction 1; intros; simpl; [done|]. econstructor; eauto. Qed.

Lemma searches_app k tr1 tr2 : searches k (tr1 ++ tr2) = (searches k tr1 + searches k tr2)%nat.
Proof. induction tr1 as [|[[|? []| | | | |] ?] r IH]; simpl; rewrite ?IH; lia. Qed.

Lemma hour_run_one now l t t' : hour_step now l t t' -> hour_run now [(l, now)] t now t'.
Proof. intros Hs. econstructor; [done|exact Hs|constructor]. Qed.

Definition DISCOVERY_CALL : string := "getMatchIdsByQueueDetails".

Section search.
Context {W : Type} `{PipelineServices W}.
Abbreviation P := (PipelineState W).

(** [clock] is the database clock, [asked] counts the discovery calls made to
    the relay by the pipeline. *)
Variables (clock : W -> Z) (asked : W -> nat).

(** A service leaves the hours to the statements of other processes and makes
    no discovery call of its own. *)
Definition bystander {A} (c : ST (PipelineDb * W) A) : Prop := forall d w,
  let x := snd (c (d, w)) in
  asked (snd x) = asked w /\
  exists tr, hour_run (clock w) tr (hour_tables d) (clock (snd x)) (hour_tables (fst x)).

Record law_abiding : Prop := {
  law_begin : bystander db_begin;
  law_instant : forall x now x', db_begin x = (Ok now, x') -> now = clock (snd x');
  law_relay : forall op args consumer, op <> DISCOVERY_CALL -> bystander (relay_call op args consumer);
  law_discovery : forall args consumer d w,
    let x := snd (relay_call DISCOVERY_CALL args consumer (d, w)) in
    asked (snd x) = S (asked w) /\
    exists tr, hour_run (clock w) tr (hour_tables d) (clock (snd x)) (hour_tables (fst x));
  law_finalize : forall p source, bystander (facts_finalize p source);
  law_project : forall id, bystander (project_match id);
  law_project_all : forall id, bystander (project_all_for_match id);
  law_cumulative : forall ids, bystander (complete_cumulative_stages_for_matches ids);
  law_ingest : forall r, bystander (ingest_discovery r);
}.

Hypothesis law : law_abiding.
Variable k : HourKey.

(** From one state to a later one: a run, and no discovery call without a
    search granted in it. *)
Definition proceeds (s s' : P) : Prop :=
  exists tr, hour_run (clock (world s)) tr (hour_tables (pdb s)) (clock (world s')) (hour_tables (pdb s')) /\
    (asked (world s') <= asked (world s) + searches k tr)%nat.

#[local] Instance proceeds_preorder : PreOrder proceeds.
Proof.
  split.
  - intros s. exists []. split; [constructor|simpl; lia].
  - intros s1 s2 s3 (tr1 & H1 & E1) (tr2 & H2 & E2). exists (tr1 ++ tr2). split.
    + by eapply hour_run_app.
    + rewrite searches_app. lia.
Qed.

Definition follows {A} (c : ST P A) : Prop := forall s, proceeds s (snd (c s)).

Lemma follows_ret {A} (a : A) : follows (mret a).
Proof. intros s. reflexivity. Qed.

Lemma follows_bind {A B} (c : ST P A) (f : A -> ST P B) :
  follows c -> (forall a, follows (f a)) -> follows (c ≫= f).
Proof.
  intros Hc Hf s. unfold mbind, ST_bind. specialize (Hc s). destruct (c s) as [a s1].
  etrans; [exact Hc|apply Hf].
Qed.

Lemma follows_try {A B E} (c : ST P (result A E)) (f : A -> ST P (result B E)) :
  follows c -> (forall a, follows (f a)) -> follows (try_bind c f).
Proof.
  intros Hc Hf s. unfold try_bind. specialize (Hc s). destruct (c s) as [[a|e] s1]; [|exact Hc].
  etrans; [exact Hc|apply Hf].
Qed.

Lemma follows_progress f : follows (on_progress f).
Proof. intros s. exists []. split; [constructor|simpl; lia]. Qed.

Lemma follows_service {A} (c : ST (PipelineDb * W) A) : bystander c -> follows (service c).
Proof.
  intros Hc s. unfold service. specialize (Hc (pdb s) (world s)). destruct (c _) as [a [d w]].
  destruct Hc as (Ha & tr & Hrun). exists tr. simpl in *. split; [done|lia].
Qed.

(** A statement that reads or is one of the statements of an hour. *)
Definition lawful {A} (f : Z -> HourTables -> A * HourTables) : Prop := forall now t,
  snd (f now t) = t \/ exists l, hour_step now l t (snd (f now t)).

Lemma follows_statement {A} (f : Z -> PipelineDb -> A * PipelineDb) :
  (forall now d, hour_tables (snd (f now d)) = hour_tables d \/
     exists l, hour_step now l (hour_tables d) (hour_tables (snd (f now d)))) ->
  follows (statement f).
Proof.
  intros Hf s. unfold statement, service, on_db, mbind, ST_bind.
  pose proof (law_begin law (pdb s) (world s)) as (Ha & tr & Hrun).
  destruct (db_begin (pdb s, world s)) as [[now|m] [d w]] eqn:E; simpl in *.
  - apply (law_instant law) in E. simpl in E. subst now. specialize (Hf (clock w) d).
    destruct (f (clock w) d) as [a d']. simpl in *. destruct Hf as [Heq|[l Hl]].
    + exists tr. simpl. rewrite Heq. split; [done|lia].
    + exists (tr ++ [(l, clock w)]). simpl. split; [|lia].
      eapply hour_run_app; [exact Hrun|]. by apply hour_run_one.
  - exists tr. simpl. split; [done|lia].
Qed.

Lemma follows_hour {A} (f : Z -> HourTables -> A * HourTables) : lawful f -> follows (hour_statement f).
Proof.
  intros Hf. apply follows_statement. intros now d. specialize (Hf now (hour_tables d)).
  by destruct (f now (hour_tables d)).
Qed.

Lemma follows_outage f : follows (outage_statement f).
Proof. apply follows_statement. intros now d. by left. Qed.

(** ** The statements of the pipeline *)

Lemma lawful_read {A} (f : HourTables -> A) : lawful (fun _ t => (f t, t)).
Proof. intros now t. by left. Qed.

Lemma lawful_claim j source : lawful (fun now t => claim_hourly_ingest_hour now j source t).
Proof. intros now t. right. eexists. apply hstep_claim. Qed.

Lemma lawful_refresh j : lawful (fun now t => (tt, refresh_hourly_ingest_lease now j t)).
Proof. intros now t. right. eexists. apply hstep_refresh. Qed.

Lemma lawful_record j raw : lawful (fun now t => record_match_count_discovery_result now j raw t).
Proof. intros now t. right. eexists. apply hstep_record. Qed.

Lemma lawful_empty j : lawful (fun now t => (tt, mark_hourly_ingest_empty now j t)).
Proof. intros now t. right. eexists. apply hstep_empty. Qed.

Lemma lawful_complete j n : lawful (fun now t => (tt, mark_hourly_ingest_complete now j n t)).
Proof. intros now t. right. eexists. apply hstep_complete. Qed.

Lemma lawful_failed j m a b : lawful (fun now t => (tt, mark_hourly_ingest_failed now j m a b t)).
Proof. intros now t. right. eexists. apply hstep_failed. Qed.

Lemma lawful_ledger (f : Z -> HourTables -> ledger) : lawful (fun now t => (tt, with_ingest (f now t) t)).
Proof. intros now t. right. eexists. apply hstep_ledger. Qed.

(** Follow the steps of an operation. *)
Ltac follow :=
  repeat first
    [ apply follows_ret | apply follows_progress | apply follows_outage
    | apply follows_hour;
      first [apply lawful_refresh|apply lawful_claim|apply lawful_record|apply lawful_empty
            |apply lawful_complete|apply lawful_failed|apply lawful_ledger|apply lawful_read]
    | apply follows_try; [|intros] | apply follows_bind; [|intros]
    | apply follows_service;
      first [by apply (law_finalize law)|by apply (law_project law)|by apply (law_project_all law)
            |by apply (law_cumulative law)|by apply (law_ingest law)|by apply (law_relay law)]
    | case_match ].

Lemma follows_take_outcomes q source xs d : follows (take_outcomes q source xs d).
Proof.
  revert d. induction xs as [|[id o] r IH]; intros d; simpl; [apply follows_ret|].
  apply follows_try; [|intros; apply IH].
  unfold settle, checkpoint_canonical_outcome, finalize_outcome, record_terminal_outcome,
    project_population, checkpointed. follow.
Qed.

Lemma follows_fetch_batch q ids : follows (fetch_batch q ids).
Proof. unfold fetch_batch, record_match_detail_outage. follow. Qed.

Lemma follows_drain turns q date hour source d : follows (drain_loop turns q date hour source d).
Proof.
  revert d. induction turns as [|n IH]; intros d; simpl; [apply follows_ret|].
  case_match; [apply follows_ret|]. apply follows_try; [|intros; apply IH].
  unfold drain_round. apply follows_try; [follow|intros _].
  apply follows_try; [apply follows_fetch_batch|intros validated].
  apply follows_try; [apply follows_take_outcomes|intros d1].
  case_match; [|apply follows_ret]. unfold singleton_pass.
  apply follows_try; [apply follows_fetch_batch|intros outcomes].
  apply follows_try; [apply follows_take_outcomes|intros d2]. apply follows_ret.
Qed.

Lemma follows_recover q source ids : follows (recover_each q source ids).
Proof.
  induction ids as [|id r IH]; simpl; [apply follows_ret|]. unfold recover_discovered_match.
  follow; try exact IH.
Qed.

Lemma follows_settle_each q source outcomes d : follows (settle_each q source outcomes d).
Proof.
  revert d. induction outcomes as [|[id o] r IH]; intros d; simpl; [apply follows_ret|].
  unfold settle, record_terminal_outcome, checkpointed. follow; apply IH.
Qed.

Lemma follows_windows ws q date hour source d : follows (resume_windows ws q date hour source d).
Proof.
  revert d. induction ws as [|ids r IH]; intros d; simpl; [apply follows_ret|].
  apply follows_try; [follow|intros _]. apply follows_bind; [apply follows_recover|intros outcomes].
  apply follows_try; [apply follows_settle_each|intros d1]. apply IH.
Qed.

Lemma follows_drain_hour ids n q date hour : follows (drain_hour ids n q date hour).
Proof.
  assert (forall l, follows (match_ids_requiring_canonical_work l)) as Hwork.
  { intros l. unfold match_ids_requiring_canonical_work. follow. }
  unfold drain_hour, claimed_raw. apply follows_try; [apply Hwork|intros work].
  apply follows_bind; [apply follows_progress|intros _].
  apply follows_bind.
  { unfold fetch_discovered_completed_continuously. apply follows_try; [apply follows_drain|intros; follow]. }
  intros batch. apply follows_bind; [|intros; follow].
  unfold resume_discovered_continuously. apply follows_bind; [follow|intros r]. case_match; [|apply follows_ret].
  apply follows_try; [apply Hwork|intros work2]. apply follows_try; [apply follows_windows|intros; follow].
Qed.

(** A granted search is in the run. *)
Lemma search_in_run (s : P) r s' :
  hour_statement (fun now t => claim_hourly_ingest_search now k t) s = (r, s') ->
  exists tr, hour_run (clock (world s)) tr (hour_tables (pdb s)) (clock (world s')) (hour_tables (pdb s')) /\
    asked (world s') = asked (world s) /\ (r = Ok true -> (1 <= searches k tr)%nat).
Proof.
  unfold hour_statement, statement, service, on_db, mbind, ST_bind.
  pose proof (law_begin law (pdb s) (world s)) as (Ha & tr & Hrun).
  destruct (db_begin (pdb s, world s)) as [[now|m] [d w]] eqn:E; simpl in *.
  - apply (law_instant law) in E. simpl in E. subst now.
    pose proof (hstep_search (clock w) k (hour_tables d)) as Hs.
    destruct (claim_hourly_ingest_search (clock w) k (hour_tables d)) as [b t']. simpl in *.
    intros [= <- <-]. exists (tr ++ [(HSearch k b, clock w)]). simpl. split_and!; [|done|].
    + eapply hour_run_app; [exact Hrun|]. by apply hour_run_one.
    + intros [= ->]. rewrite searches_app. simpl. rewrite decide_True by done. lia.
  - intros [= <- <-]. exists tr. split_and!; [done|done|done].
Qed.

Lemma follows_discover_ids q date hour : hour_key date hour q = k -> follows (discover_ids q date hour).
Proof.
  intros Hk. unfold discover_ids. rewrite Hk.
  apply follows_try; [apply follows_hour, lawful_read|]. intros known. destruct known; [|apply follows_ret].
  intros s. unfold try_bind at 1.
  destruct (hour_statement (fun now t => claim_hourly_ingest_search now k t) s) as [r s1] eqn:E.
  apply search_in_run in E as (tr & Hrun & Ha & Hone).
  destruct r as [[]|e].
  2, 3: exists tr; simpl; split; [done|lia].
  specialize (Hone eq_refl). unfold mbind, ST_bind, service.
  destruct (law_discovery law [Number (NInt q); Str (without_dashes date); Number (NInt hour)]
    "hourly_match_discovery" (pdb s1) (world s1)) as (Hask & tr2 & Hrun2).
  fold DISCOVERY_CALL. destruct (relay_call _ _ _ _) as [[v|e] [d w]]; simpl in Hask, Hrun2.
  - set (s2 := {| pdb := d; progress := progress s1; world := w |}).
    assert (proceeds s s2) as Hp.
    { exists (tr ++ tr2). split; [by eapply hour_run_app|]. rewrite searches_app. simpl. lia. }
    etrans; [exact Hp|].
    assert (follows (n <-? hour_statement (fun now t =>
        record_match_count_discovery_result now k (parse_observations v) t);
      mret (Ok (map obs_match_id (parse_observations v), Z.to_nat n) :
        result (list Z * nat) PipelineError))) as Hf by follow.
    apply Hf.
  - exists (tr ++ tr2). simpl. split; [by eapply hour_run_app|]. rewrite searches_app. simpl. lia.
Qed.

Lemma follows_discover_hour q date hour source :
  hour_key date hour q = k -> follows (discover_hour q date hour source).
Proof.
  intros Hk. unfold discover_hour. apply follows_bind; [apply follows_progress|]. intros _.
  apply follows_bind.
  - unfold discover_hour_inner. case_match; [apply follows_ret|].
    apply follows_try; [apply follows_hour, lawful_claim|]. intros won. case_match; [apply follows_ret|].
    apply follows_try; [by apply follows_discover_ids|]. intros found. case_match.
    + follow.
    + apply follows_drain_hour.
  - intros r. case_match; [apply follows_ret|]. apply follows_try; [|intros; apply follows_ret].
    intros s. unfold mark_match_drain_failure. apply (follows_hour (A:=unit)). apply lawful_failed.
Qed.

(** The executions of one hour, one after the other. *)
Fixpoint discover_again (n : nat) (q : Z) (date : string) (hour : Z) (source : string) : ST P unit :=
  match n with
  | O => mret tt
  | S m => _ ← discover_hour q date hour source; discover_again m q date hour source
  end.

(** However often an hour is executed, and whatever the other processes
    do meanwhile, the pipeline asks the provider for its matches at most once,
    and not at all if the search was already attempted: every execution is a
    run of the hour's statements, and the call follows a granted search. *)
Theorem discovery_asked_once n q date hour source (s : P) :
  hour_key date hour q = k ->
  (asked (world (snd (discover_again n q date hour source s))) <= S (asked (world s)))%nat /\
  (is_fetched k (hour_tables (pdb s)) = true ->
   asked (world (snd (discover_again n q date hour source s))) <= asked (world s))%nat.
Proof.
  intros Hk.
  assert (follows (discover_again n q date hour source)) as Hf.
  { induction n as [|m IH]; simpl; [apply follows_ret|].
    apply follows_bind; [by apply follows_discover_hour|]. intros _. exact IH. }
  destruct (Hf s) as (tr & Hrun & Ha).
  destruct (searches_once k _ _ _ _ _ Hrun) as [H1 H2]. split; [lia|].
  intros Hfet. specialize (H2 Hfet). lia.
Qed.
End search.

(** * Queue-hours that never come to rest

    Two states of an hour in which every later execution wins the claim, asks
    the provider for nothing, changes no match and leaves the hour in the same
    state: a complete hour with a limited match, and an hour whose ids were
    first seen in other hours.  The statements run here without failures and
    without other writers in between, which only isolates the pipeline's own
    part in it. *)

(** ** The stored ids of an hour *)

Lemma omap_id_rows ids :
  Forall (fun id => 0 < id /\ in_i64 id) ids -> omap extract_match_id (map id_row ids) = ids.
Proof.
  induction ids as [|id r IH]; [done|]. intros [[Hp Hr] Hf]%Forall_cons.
  change (match extract_match_id (id_row id) with
          | Some x => x :: omap extract_match_id (map id_row r)
          | None => omap extract_match_id (map id_row r)
          end = id :: r).
  unfold id_row at 1. rewrite extract_bigint by done. by rewrite IH.
Qed.

Lemma discovered_match_ids_perm k t :
  Forall in_i64 (discovered_in k t) ->
  discovered_match_ids k t ≡ₚ filter (fun id => 0 < id) (discovered_in k t).
Proof.
  intros Hf. unfold discovered_match_ids. rewrite omap_id_rows; [apply sort_by_perm|].
  rewrite sort_by_perm. apply Forall_forall. intros id [Hp Hin]%list_elem_of_filter.
  rewrite Forall_forall in Hf. eauto.
Qed.

Section quiet.
Context {W : Type} `{PipelineServices W}.
Abbreviation P := (PipelineState W).
Hypothesis quiet : forall d (w : W), exists now w', db_begin (d, w) = (Ok now, (d, w')).
Hypothesis nothing_cumulative : forall x : PipelineDb * W,
  complete_cumulative_stages_for_matches [] x = (Ok 0%nat, x).

(** A statement answers and does what it says. *)
Lemma hour_statement_quiet {A} (f : Z -> HourTables -> A * HourTables) (s : P) :
  exists now w', hour_statement f s
    = (Ok (fst (f now (hour_tables (pdb s)))),
       {| pdb := {| hour_tables := snd (f now (hour_tables (pdb s))); outages := outages (pdb s) |};
          progress := progress s; world := w' |}).
Proof.
  destruct (quiet (pdb s) (world s)) as (now & w' & E). exists now, w'.
  unfold hour_statement, statement, service, on_db, mbind, ST_bind. rewrite E. simpl.
  by destruct (f now (hour_tables (pdb s))).
Qed.

(** Read a step that is a statement. *)
Ltac quiet_step :=
  match goal with
  | |- context [try_bind (hour_statement ?f) ?k ?s] =>
      let now := fresh "now" in let w := fresh "w" in let E := fresh "E" in
      destruct (hour_statement_quiet f s) as (now & w & E);
      unfold try_bind at 1; rewrite E; clear E; cbn [fst snd pdb hour_tables progress world]
  end.

Lemma no_work_statement ids (s : P) :
  (forall id, id ∈ ids -> 0 < id -> requires_canonical_work (ingest (hour_tables (pdb s))) id = false) ->
  exists w', match_ids_requiring_canonical_work ids s
    = (Ok no_selection, {| pdb := pdb s; progress := progress s; world := w' |}).
Proof.
  intros Hn. destruct ids as [|id r]; [exists (world s); by destruct s|].
  unfold match_ids_requiring_canonical_work.
  destruct (hour_statement_quiet (fun _ t => (select_canonical_work (id :: r) (ingest t), t)) s)
    as (now & w' & ->). cbn [fst snd]. rewrite no_work by done. exists w'. by destruct (pdb s).
Qed.

(** With nothing to do both drains end at once. *)
Lemma empty_drains q date hour source (s : P) :
  fetch_discovered_completed_continuously [] q date hour source s = (Ok 0%nat, s) /\
  resume_discovered_continuously [] q date hour source s = (Ok 0%nat, s).
Proof.
  split; [done|]. unfold resume_discovered_continuously, service, mbind, ST_bind.
  rewrite nothing_cumulative. by destruct s.
Qed.

(** ** The stages of an execution *)

Definition reset (s : P) : P := {| pdb := pdb s; progress := fresh_progress; world := world s |}.

Lemma discover_hour_ok q date hour source (s : P) r s' :
  discover_hour_inner q date hour source (reset s) = (Ok r, s') ->
  discover_hour q date hour source s = (Ok r, s').
Proof.
  intros E. unfold discover_hour, mbind, ST_bind. cbn [on_progress]. fold (reset s). by rewrite E.
Qed.

Lemma discover_hour_err q date hour source (s : P) e s1 s2 :
  discover_hour_inner q date hour source (reset s) = (Err e, s1) ->
  mark_match_drain_failure q date hour e s1 = (Ok tt, s2) ->
  discover_hour q date hour source s = (Err e, s2).
Proof.
  intros E E2. unfold discover_hour, mbind, ST_bind. cbn [on_progress]. fold (reset s). rewrite E.
  unfold try_bind. by rewrite E2.
Qed.

(** The state after a statement that wrote the hour tables [t]. *)
Definition with_tables (t : HourTables) (p : MatchDrainProgress) (w : W) (s : P) : P :=
  {| pdb := {| hour_tables := t; outages := outages (pdb s) |}; progress := p; world := w |}.

Definition claimed_tables (now : Z) (k : HourKey) (source : string) (r : HourRow) (t : HourTables) :
    HourTables := with_hours (<[k := claimed_hour now source r]> (hours t)) t.

Lemma inner_claimed q date hour source (s : P) r :
  let k := hour_key date hour q in
  let t := hour_tables (pdb s) in
  0 < q -> hours t !! k = Some r -> (forall now, hour_claimable now (reopenable_hour k t) r = true) ->
  exists now w', discover_hour_inner q date hour source s
    = (found <-? discover_ids q date hour;
       match fst found with
       | [] =>
           _ <-? hour_statement (fun now t => (tt, mark_hourly_ingest_empty now k t));
           mret (Ok (hour_result q date hour (snd found) 0 0 true))
       | ids => drain_hour ids (snd found) q date hour
       end) (with_tables (claimed_tables now k source r t) (progress s) w' s).
Proof.
  intros k t Hq Hr Hc. unfold discover_hour_inner. rewrite (proj2 (Z.leb_gt _ _) Hq).
  quiet_step. fold k t. unfold claim_hourly_ingest_hour. rewrite Hr, Hc. cbn [fst snd negb].
  by exists now, w.
Qed.

Lemma discover_ids_known q date hour (s : P) ids :
  discovered_match_ids (hour_key date hour q) (hour_tables (pdb s)) = ids -> ids <> [] ->
  exists w', discover_ids q date hour s
    = (Ok (ids, length ids), with_tables (hour_tables (pdb s)) (progress s) w' s).
Proof.
  intros E Hne. unfold discover_ids. quiet_step. rewrite E. destruct ids; [done|]. by exists w.
Qed.

Lemma drain_hour_nothing ids n q date hour (s : P) :
  (forall id, id ∈ ids -> 0 < id -> requires_canonical_work (ingest (hour_tables (pdb s))) id = false) ->
  exists now w' p, drain_hour ids n q date hour s
    = (Ok (hour_result q date hour n (length ids) (length ids) false),
       with_tables (mark_hourly_ingest_complete now (hour_key date hour q) (count_i32 (length ids))
         (hour_tables (pdb s))) p w' s).
Proof.
  intros Hn. unfold drain_hour. destruct (no_work_statement ids s Hn) as [w1 E].
  unfold try_bind at 1. rewrite E. cbn [no_selection batch_ids resume_ids length].
  unfold claimed_raw, on_progress, mbind, ST_bind.
  match goal with |- context [fetch_discovered_completed_continuously [] _ _ _ _ ?x] =>
    destruct (empty_drains q date hour HourlyDiscovery x) as [-> ->] end.
  cbn [join_drains]. quiet_step. rewrite !Nat.add_0_r, ?Nat.sub_0_r. by eexists _, _, _.
Qed.

(** ** A complete hour with a limited match *)

(** The hour is closed and every match of it is closed for the pipeline, but
    one is limited in another way than unavailable, as match_facts.rs leaves a
    match with an incomplete roster. *)
Record settled_with_limited (k : HourKey) (t : HourTables) : Prop := {
  swl_complete : exists r, hours t !! k = Some r /\ h_status r = "complete";
  swl_range : Forall in_i64 (discovered_in k t);
  swl_settled : forall id, id ∈ discovered_in k t -> 0 < id -> requires_canonical_work (ingest t) id = false;
  swl_limited : exists id r, id ∈ discovered_in k t /\ 0 < id /\ ingest t !! id = Some r /\
    row_status r = "limited" /\ row_acquisition_state r <> "unavailable";
}.

Lemma limited_reopens k t : settled_with_limited k t -> reopenable_hour k t = true.
Proof.
  intros [_ _ _ (id & r & Hin & _ & Hr & Hs & Ha)]. unfold reopenable_hour.
  apply existsb_exists. exists id. split; [by apply list_elem_of_In|].
  unfold unfinished_match. rewrite Hr, Hs. apply orb_true_iff. right. simpl.
  by rewrite (proj2 (String.eqb_neq _ _) Ha).
Qed.

Definition attempts_of (k : HourKey) (t : HourTables) : Z :=
  match hours t !! k with Some r => h_attempts r | None => 0 end.

(** A closed hour with a limited match is executed for ever: each later
    execution wins the claim, finds no match that needs work, makes no relay
    call, changes neither the ledger nor the discoveries, and closes the hour
    in a state that can be claimed again, with one more attempt. *)
Theorem limited_hour_reclaimed queue_id date hour source (s : P) :
  let k := hour_key date hour queue_id in
  let t := hour_tables (pdb s) in
  0 < queue_id -> settled_with_limited k t ->
  exists s' n, discover_hour queue_id date hour source s
    = (Ok (hour_result queue_id date hour n n n false), s') /\
  let t' := hour_tables (pdb s') in
  settled_with_limited k t' /\ attempts_of k t' = attempts_of k t + 1 /\
  ingest t' = ingest t /\ discoveries t' = discoveries t /\ outages (pdb s') = outages (pdb s).
Proof.
  intros k t Hq Hset. pose proof Hset as [(r & Hr & Hs) Hrange Hdone Hlim].
  set (ids := discovered_match_ids k t).
  assert (ids ≡ₚ filter (fun id => 0 < id) (discovered_in k t)) as Hids by by apply discovered_match_ids_perm.
  assert (ids <> []) as Hne.
  { intros E. destruct Hlim as (id & x & Hin & Hp & _).
    assert (id ∈ ids) as Hid by (rewrite Hids; by apply list_elem_of_filter).
    rewrite E in Hid. by apply elem_of_nil in Hid. }
  destruct (inner_claimed queue_id date hour source (reset s) r Hq Hr) as (now1 & w1 & E1).
  { intros now. unfold hour_claimable. rewrite Hs. change (hour_tables (pdb (reset s))) with t.
    fold k. by rewrite (limited_reopens k t Hset). }
  change (hour_tables (pdb (reset s))) with t in E1. fold k in E1. set (s1 := with_tables _ _ w1 _) in E1.
  destruct (discover_ids_known queue_id date hour s1 ids) as (w2 & E2); [done|done|].
  set (s2 := with_tables _ _ w2 _) in E2.
  destruct (drain_hour_nothing ids (length ids) queue_id date hour s2) as (now3 & w3 & p & E3).
  { intros id Hin Hp. apply Hdone; [|done]. rewrite Hids in Hin. by apply list_elem_of_filter in Hin as [_ ?]. }
  assert (exists i l, ids = i :: l) as (i & l & Eids) by (destruct ids; [done|eauto]).
  eexists _, (length ids). split.
  { apply discover_hour_ok. rewrite E1. unfold try_bind. rewrite E2. cbn [fst snd].
    rewrite Eids in E3 |- *. exact E3. }
  fold k. rewrite <-Eids. change (hour_tables (pdb s2)) with (claimed_tables now1 k source r t).
  set (t' := mark_hourly_ingest_complete now3 k (count_i32 (length ids)) (claimed_tables now1 k source r t)).
  change (let t0 := t' in settled_with_limited k t0 /\ attempts_of k t0 = attempts_of k t + 1 /\
    ingest t0 = ingest t /\ discoveries t0 = discoveries t /\ outages (pdb s) = outages (pdb s)).
  cbn zeta.
  assert (hours t' !! k = Some (closed now3 "complete" (Z.max (h_raw_match_count r) (count_i32 (length ids)))
    (Z.max (h_staged_match_count r) (count_i32 (length ids))) (claimed_hour now1 source r))
    /\ ingest t' = ingest t /\ discoveries t' = discoveries t) as (Hk & Hi & Hd).
  { unfold t', mark_hourly_ingest_complete, update_hour, claimed_tables. simpl.
    rewrite lookup_insert_eq. simpl. by rewrite lookup_insert_eq. }
  clearbody t'. split_and!; [|by unfold attempts_of; rewrite Hk, Hr|done|done|done].
  assert (discovered_in k t' = discovered_in k t) as Hdisc by (unfold discovered_in; by rewrite Hd).
  split; rewrite ?Hdisc, ?Hi; eauto.
Qed.

(** ** An hour whose ids belong to other hours *)

(** The hour failed after its search succeeded, and no stored id names it as
    the hour of first sighting. *)
Definition without_own_ids (k : HourKey) (t : HourTables) : Prop :=
  (exists r, hours t !! k = Some r /\ h_status r = "failed" /\ h_fetched r = true /\ h_fetch_succeeded r = true) /\
  discovered_in k t = [].

Lemma claim_search_refused now k t r :
  hours t !! k = Some r -> h_fetched r = true -> claim_hourly_ingest_search now k t = (false, t).
Proof.
  intros Hr Hf. unfold claim_hourly_ingest_search, update_hour. rewrite Hr, Hf. by rewrite andb_false_r.
Qed.

(** Without ids of its own, a searched hour cannot be drained. *)
Lemma discover_ids_refused q date hour (s : P) r :
  let k := hour_key date hour q in
  let t := hour_tables (pdb s) in
  discovered_in k t = [] -> hours t !! k = Some r -> h_fetched r = true ->
  exists w', discover_ids q date hour s = (Err known_or_error, with_tables t (progress s) w' s).
Proof.
  intros k t Hd Hr Hf. unfold discover_ids. quiet_step. fold k t.
  assert (discovered_match_ids k t = []) as ->.
  { unfold discovered_match_ids. by rewrite Hd. }
  quiet_step. rewrite (claim_search_refused now0 k t r Hr Hf). cbn [fst snd]. by exists w0.
Qed.

Lemma failed_again now k m raw staged t r :
  hours t !! k = Some r -> h_fetched r = true -> h_fetch_succeeded r = true -> discovered_in k t = [] ->
  let t' := mark_hourly_ingest_failed now k m raw staged t in
  without_own_ids k t' /\ attempts_of k t' = h_attempts r /\ ingest t' = ingest t /\
  discoveries t' = discoveries t.
Proof.
  intros Hr Hf Hs Hd. unfold mark_hourly_ingest_failed, update_hour, without_own_ids, attempts_of.
  rewrite Hr. simpl. rewrite lookup_insert_eq. split_and!; try done. eexists. by split_and!.
Qed.

(** An hour whose search only returned matches first seen in other hours
    is stuck: its ids are stored under those other hours, so when its drain
    fails, every later execution wins the claim, neither finds an id nor may
    search again, fails with "already attempted without durable IDs", and
    leaves the hour as it was, with one more attempt. *)
Theorem rediscovered_hour_stuck queue_id date hour source (s : P) :
  let k := hour_key date hour queue_id in
  let t := hour_tables (pdb s) in
  0 < queue_id -> without_own_ids k t ->
  exists s', discover_hour queue_id date hour source s = (Err known_or_error, s') /\
  let t' := hour_tables (pdb s') in
  without_own_ids k t' /\ attempts_of k t' = attempts_of k t + 1 /\
  ingest t' = ingest t /\ discoveries t' = discoveries t.
Proof.
  intros k t Hq [(r & Hr & Hs & Hf & Hok) Hd].
  destruct (inner_claimed queue_id date hour source (reset s) r Hq Hr) as (now1 & w1 & E1).
  { intros now. unfold hour_claimable. by rewrite Hs, Hok, orb_true_r. }
  change (hour_tables (pdb (reset s))) with t in E1. fold k in E1. set (s1 := with_tables _ _ w1 _) in E1.
  assert (hours (hour_tables (pdb s1)) !! k = Some (claimed_hour now1 source r)) as Hr1
    by apply lookup_insert_eq.
  destruct (discover_ids_refused queue_id date hour s1 _ Hd Hr1 Hf) as (w2 & E2).
  set (s2 := with_tables _ _ w2 _) in E2.
  destruct (hour_statement_quiet (fun now t => (tt, mark_hourly_ingest_failed now k
    (pipeline_state_error_message known_or_error) (claimed_raw_match_count (progress s2))
    (checkpointed_count (progress s2)) t)) s2) as (now3 & w3 & E3).
  eexists. split.
  { eapply discover_hour_err; [|exact E3]. rewrite E1. unfold try_bind. by rewrite E2. }
  cbn [pdb hour_tables fst snd]. fold k.
  destruct (failed_again now3 k (pipeline_state_error_message known_or_error)
    (claimed_raw_match_count (progress s2)) (checkpointed_count (progress s2))
    (hour_tables (pdb s1)) _ Hr1 Hf Hok Hd) as (H1 & H2 & H3 & H4).
  split_and!; [exact H1| |exact H3|exact H4]. unfold attempts_of at 2. rewrite Hr. exact H2.
Qed.
End quiet.

(** ** How an hour loses its ids *)

(** Storing observations keeps the hour of first sighting of a known id. *)
Lemma store_keeps_source now k os m :
  (forall o, o ∈ os -> is_Some (m !! (obs_match_id o, key_queue k))) ->
  forall j row, store_discoveries now k os m !! j = Some row ->
  exists old, m !! j = Some old /\ d_source row = d_source old.
Proof.
  revert m. induction os as [|o r IH]; intros m Hknown j row Hj; [eauto|].
  change (store_discoveries now k (o :: r) m) with (store_discoveries now k r
    (<[(obs_match_id o, key_queue k) := upsert_discovery now k o (m !! (obs_match_id o, key_queue k))]> m)) in Hj.
  apply IH in Hj as (old & Hold & Hs).
  - apply lookup_insert_Some in Hold as [[<- <-]|[_ ?]]; [|eauto].
    destruct (Hknown o (list_elem_of_here _ _)) as [x Hx]. exists x. split; [done|].
    rewrite Hs, Hx. done.
  - intros x Hx. destruct (decide ((obs_match_id x, key_queue k) = (obs_match_id o, key_queue k))) as [->|Hne].
    + rewrite lookup_insert_eq. eauto.
    + rewrite lookup_insert_ne by done. apply Hknown. by right.
Qed.

Lemma discovered_in_nil k t :
  discovered_in k t = [] <->
  forall id row, discoveries t !! (id, key_queue k) = Some row -> d_source row <> (key_date k, key_hour k).
Proof.
  unfold discovered_in. split.
  - intros E id row Hrow Hs. apply map_eq_nil in E.
    assert (((id, key_queue k), row) ∈ filter (fun x : (Z * Z) * DiscoveryRow => snd (fst x) = key_queue k /\
      d_source (snd x) = (key_date k, key_hour k)) (map_to_list (discoveries t))) as Hin.
    { apply list_elem_of_filter. split; [done|]. by apply elem_of_map_to_list. }
    rewrite E in Hin. by apply elem_of_nil in Hin.
  - intros Hn. rewrite filter_none; [done|]. intros [[id q] row] Hin [Hq Hs]. simpl in Hq. subst q.
    apply elem_of_map_to_list in Hin. by apply (Hn id row Hin).
Qed.

(** This is how an hour gets there: the granted search of an hour without
    stored ids answers only ids that other hours stored before, they are
    recorded, and the drain fails. *)
Theorem rediscovered_hour_reached now now' k raw message raw_count staged t r :
  hours t !! k = Some r -> is_fetching r = true -> discovered_in k t = [] ->
  (forall o, o ∈ raw -> 0 < obs_match_id o -> is_Some (discoveries t !! (obs_match_id o, key_queue k))) ->
  without_own_ids k (mark_hourly_ingest_failed now' k message raw_count staged
    (snd (record_match_count_discovery_result now k raw t))).
Proof.
  intros Hr Hf Hd Hknown. set (t1 := snd (record_match_count_discovery_result now k raw t)).
  destruct (observations_by_id_spec raw) as [Hobs _].
  assert (hours t1 !! k = Some (searched now true r)) as Hr1.
  { unfold t1, record_match_count_discovery_result, update_hour. simpl. rewrite Hr. simpl. rewrite Hf.
    apply lookup_insert_eq. }
  assert (discovered_in k t1 = []) as Hd1.
  { apply discovered_in_nil. intros id row Hrow.
    assert (discoveries t1 = store_discoveries now k (map snd (map_to_list (observations_by_id raw)))
      (discoveries t)) as Hdisc.
    { unfold t1, record_match_count_discovery_result, update_hour. simpl. rewrite Hr. simpl. by rewrite Hf. }
    rewrite Hdisc in Hrow. apply store_keeps_source in Hrow as (old & Hold & ->).
    - rewrite discovered_in_nil in Hd. by apply (Hd id).
    - intros o ([j x] & -> & Hin)%list_elem_of_fmap. apply elem_of_map_to_list in Hin.
      destruct (Hobs _ _ Hin) as (E & Hp & Ho). simpl. apply Hknown; [done|]. by rewrite E. }
  by apply (failed_again now' k message raw_count staged t1 _ Hr1).
Qed.

(** * A concrete environment for the pipeline

    A database that always answers, one microsecond later each time, a relay
    that echoes the matches it is asked for and finds one match per hour, and a
    fact store that accepts everything.  The witnesses of the pipeline's
    theorems run on it. *)

Record pipe_world := { pw_clock : Z; pw_relay : nat; pw_asked : nat }.

Definition tick (w : pipe_world) : pipe_world :=
  {| pw_clock := pw_clock w + 1; pw_relay := pw_relay w; pw_asked := pw_asked w |}.

Definition echo_answer (op : string) (args : list value) : value :=
  if String.eqb op DISCOVERY_CALL then Array [Object [("Match", Str "7")]]
  else match args with [Array requests] => Array requests | _ => Null end.

Definition echo_relay (op : string) (args : list value) (x : PipelineDb * pipe_world) :
    result value WorkerRelayError * (PipelineDb * pipe_world) :=
  let '(d, w) := x in
  (Ok (echo_answer op args),
   (d, {| pw_clock := pw_clock w; pw_relay := S (pw_relay w);
          pw_asked := if String.eqb op DISCOVERY_CALL then S (pw_asked w) else pw_asked w |})).

#[export] Instance echo_services : PipelineServices pipe_world := {|
  date_value := fun _ => 20664;
  db_begin := fun x => (Ok (pw_clock (snd x) + 1), (fst x, tick (snd x)));
  relay_call := fun op args _ => echo_relay op args;
  CanonicalMatchPayload := Z;
  payload_match_id := fun id => id;
  payload_queue_id := fun _ => 424;
  from_relay_value := fun v => match extract_match_id v with
                               | Some id => Ok id
                               | None => Err "no match"
                               end;
  facts_finalize := fun _ _ => mret (Ok Casual);
  project_match := fun _ => mret (Ok tt);
  project_all_for_match := fun _ => mret (Ok tt);
  complete_cumulative_stages_for_matches := fun _ => mret (Ok 0%nat);
  ingest_discovery := fun r => mret {| rm_match_id := mi_match_id r; rm_status := Ready; rm_error := None |};
  outage_probe_minutes := 45;
|}.

Lemma echo_metered : relay_metered (W:=pipe_world) pw_relay.
Proof. split; try done. by intros op args consumer [d w]. Qed.

Lemma echo_quiet d (w : pipe_world) : exists now w', db_begin (d, w) = (Ok now, (d, w')).
Proof. by do 2 eexists. Qed.

(** A statement of another process that changes nothing. *)
Lemma idle_run now t : exists tr, hour_run now tr t (now + 1) t.
Proof.
  exists [(HLedger, now + 1)]. apply (hrun_cons _ _ _ _ _ t); [lia| |constructor].
  destruct t as [h d r m i]. apply (hstep_ledger (now + 1) i {| hours := h; discoveries := d;
    region_hours := r; match_counts := m; ingest := i |}).
Qed.

Lemma still_run now t : exists tr, hour_run now tr t now t.
Proof. exists []. constructor. Qed.

Lemma echo_law : law_abiding (W:=pipe_world) pw_clock pw_asked.
Proof.
  split; try (intros; split; [done|apply still_run]).
  - intros d w. split; [done|apply idle_run].
  - by intros [d w] now x' [= <- <-].
  - intros op args consumer Hop d w. simpl. rewrite (proj2 (String.eqb_neq _ _) Hop).
    split; [done|apply still_run].
Qed.

(** ** States *)

Definition sample_date : string := "2026-07-30".
Definition sample_hour : HourKey := {| key_date := 20664; key_hour := 5; key_queue := 424 |}.

Definition state_of (t : HourTables) : PipelineState pipe_world :=
  {| pdb := {| hour_tables := t; outages := ∅ |}; progress := fresh_progress;
     world := {| pw_clock := 1000; pw_relay := 0; pw_asked := 0 |} |}.

Definition no_tables : HourTables :=
  {| hours := ∅; discoveries := ∅; region_hours := ∅; match_counts := ∅; ingest := ∅ |}.

Definition hour_row (status : string) : HourRow :=
  {| h_status := status; h_attempts := 1; h_raw_match_count := 1; h_staged_match_count := 1;
     h_fetched := true; h_fetch_succeeded := true; h_source := Some "cron"; h_error_message := None;
     h_last_attempt_at := Some 0; h_next_retry_at := None; h_lease_until := None;
     h_completed_at := None; h_updated_at := 0 |}.

Definition seen_at (hour : Z) : DiscoveryRow :=
  {| d_region := "EU"; d_entry_datetime := None; d_active_flag := false; d_source := (20664, hour);
     d_last_seen_at := 0 |}.

(** What match_facts.rs leaves of a match with an incomplete roster. *)
Definition limited_row : IngestRow :=
  {| row_status := "limited"; row_completed_stages := ["core"; "player_facts"; "match_bans"];
     row_source := Some "hourly_discovery"; row_attempts := 1; row_error_message := None;
     row_queue_id := Some 424; row_population := "casual"; row_acquisition_state := "limited";
     detail_attempted_at := Some 0; roster_resolved_at := None; demo_resolved_at := None;
     row_direct_player_count := 9; row_roster_player_count := 9; row_unresolved_player_ids := [];
     lease_owner := None; lease_until := None; started_at := 0; updated_at := 0;
     completed_at := Some 0 |}.

Definition limited_tables : HourTables :=
  {| hours := {[sample_hour := hour_row "complete"]}; discoveries := {[(7, 424) := seen_at 5]};
     region_hours := ∅; match_counts := ∅; ingest := {[7 := limited_row]} |}.

Definition foreign_tables (status : string) : HourTables :=
  {| hours := {[sample_hour := hour_row status]}; discoveries := {[(7, 424) := seen_at 4]};
     region_hours := ∅; match_counts := ∅; ingest := ∅ |}.

(** ** Witnesses *)

Lemma drain_accounts_for_all_witness :
  let run := fetch_discovered_completed_continuously [7; 8] 424 sample_date 5 HourlyDiscovery
    (state_of no_tables) in
  fst run = Ok 2%nat /\ (pw_relay (world (snd run)) <= 4)%nat /\
  accounted_in (checkpointed_ids (progress (snd run))) 7.
Proof.
  intros run. assert (fst run = Ok 2%nat) as E by (vm_compute; reflexivity).
  destruct (drain_accounts_for_all (W:=pipe_world) pw_relay echo_metered 424 sample_date 5 HourlyDiscovery
    [7; 8] (state_of no_tables) (fst run) (snd run)) as [Hcalls Hall].
  - repeat constructor; set_solver.
  - apply surjective_pairing.
  - split; [exact E|]. split; [exact Hcalls|]. apply (proj2 (Hall 2%nat E)); [by left|reflexivity].
Defined.

Lemma limited_settled : settled_with_limited sample_hour limited_tables.
Proof.
  assert (discovered_in sample_hour limited_tables = [7]) as Hd by (vm_compute; reflexivity).
  split; rewrite ?Hd.
  - exists (hour_row "complete"). by split.
  - repeat constructor; by unfold i64_min, i64_max.
  - intros id ->%list_elem_of_singleton _. vm_compute. reflexivity.
  - exists 7, limited_row. split_and!; try done. by left.
Qed.

Lemma limited_hour_reclaimed_witness :
  exists s', discover_hour 424 sample_date 5 "gap_check" (state_of limited_tables)
    = (Ok (hour_result 424 sample_date 5 1 1 1 false), s') /\
  attempts_of sample_hour (hour_tables (pdb s')) = 2.
Proof.
  destruct (limited_hour_reclaimed echo_quiet (fun _ => eq_refl) 424 sample_date 5 "gap_check"
    (state_of limited_tables) eq_refl limited_settled) as (s' & n & E & _ & Ha & _).
  exists s'. split; [|exact Ha]. rewrite E.
  assert (fst (discover_hour 424 sample_date 5 "gap_check" (state_of limited_tables))
    = Ok (hour_result 424 sample_date 5 1 1 1 false)) as E1 by (vm_compute; reflexivity).
  rewrite E in E1. cbn [fst] in E1. by rewrite E1.
Defined.

Lemma rediscovered_hour_reached_witness :
  without_own_ids sample_hour (mark_hourly_ingest_failed 2 sample_hour "relay down" None None
    (snd (record_match_count_discovery_result 1 sample_hour
      [{| obs_match_id := 7; obs_entry_datetime := None; obs_region := None; obs_active_flag := false |}]
      (foreign_tables "fetching")))).
Proof.
  apply (rediscovered_hour_reached 1 2 sample_hour _ "relay down" None None (foreign_tables "fetching")
    (hour_row "fetching")); [reflexivity|reflexivity|vm_compute; reflexivity|].
  intros o ->%list_elem_of_singleton _. exists (seen_at 4). reflexivity.
Defined.

Lemma foreign_without_ids : without_own_ids sample_hour (foreign_tables "failed").
Proof. split; [exists (hour_row "failed"); by split_and!|vm_compute; reflexivity]. Qed.

Lemma rediscovered_hour_stuck_witness :
  exists s', discover_hour 424 sample_date 5 "gap_check" (state_of (foreign_tables "failed"))
    = (Err known_or_error, s') /\ without_own_ids sample_hour (hour_tables (pdb s')).
Proof.
  destruct (rediscovered_hour_stuck echo_quiet 424 sample_date 5 "gap_check"
    (state_of (foreign_tables "failed")) eq_refl foreign_without_ids) as (s' & E & Hs & _).
  exists s'. by split.
Defined.

Lemma discovery_asked_once_witness :
  let s := snd (discover_again 3 424 sample_date 5 "cron" (state_of no_tables)) in
  pw_asked (world s) = 1%nat /\ (pw_asked (world s) <= 1)%nat.
Proof.
  intros s. split; [vm_compute; reflexivity|].
  exact (proj1 (discovery_asked_once pw_clock pw_asked echo_law sample_hour 3 424 sample_date 5 "cron"
    (state_of no_tables) eq_refl)).
Defined.

Lemma dropped_outcome_is_failure_witness :
  let run := take_outcome 424 HourlyDiscovery (7, Null) (start_drain [7]) (state_of no_tables) in
  exists d', fst run = Ok d' /\ completed d' = 0%nat /\ length (failures d') = 1%nat.
Proof.
  intros run.
  destruct (fst run) as [d'|e] eqn:E; [|vm_compute in E; discriminate].
  destruct (dropped_outcome_is_failure 424 HourlyDiscovery 7 Null "no match" (start_drain [7])
    (state_of no_tables) d' (snd run)) as (Hc & [m Hm] & _).
  - vm_compute. reflexivity.
  - unfold run in *. rewrite (surjective_pairing (take_outcome _ _ _ _ _)), E. reflexivity.
  - exists d'. rewrite Hm. by split_and!.
Defined.
