(* ===== verification/SchedulerDouble.v ===== *)
(** * A process that runs its schedule

    A pipeline over a database in memory, the clock of a day and the cursor
    codecs, on which the properties of the schedule, of the gap check and of
    the worker policy apply. *)

From S2P Require Import Prelude Json Lifecycle HourlyIngest Outage Pipeline PipelineHours Policy Coordination Schedule SchedulerHost GapCheck Dispatch.

(** ** Dates as numbers of days *)

Definition read_digits (s : string) : Z := default 0 (parse_digits 0 s).
Definition read_Z (s : string) : Z :=
  match s with String c r => if Ascii.eqb c "-" then - read_digits r else read_digits s | EmptyString => 0 end.

Lemma read_pretty z : read_Z (pretty z) = z.
Proof.
  assert (forall n : N, read_Z (pretty n) = Z.of_N n) as Hn.
  { intros n. destruct (pretty_head n) as (c & r & E & Hc). unfold read_Z. rewrite E.
    destruct (digit_not_sign c Hc) as [_ ->]. rewrite <- E. unfold read_digits. by rewrite parse_digits_pretty. }
  destruct z as [|p|p]; [done|apply (Hn (N.pos p))|].
  change (pretty (Z.neg p)) with (String "-" (pretty (N.pos p))). unfold read_Z. rewrite Ascii.eqb_refl.
  unfold read_digits. by rewrite parse_digits_pretty.
Qed.

#[local] Instance day_services : PipelineServices pipe_world := {|
  date_value := read_Z;
  db_begin := @db_begin _ echo_services;
  relay_call := @relay_call _ echo_services;
  CanonicalMatchPayload := Z;
  payload_match_id := fun id => id;
  payload_queue_id := fun _ => 424;
  from_relay_value := @from_relay_value _ echo_services;
  facts_finalize := fun _ _ => mret (Ok Casual);
  project_match := fun _ => mret (Ok tt);
  project_all_for_match := fun _ => mret (Ok tt);
  complete_cumulative_stages_for_matches := fun _ => mret (Ok 0%nat);
  ingest_discovery := @ingest_discovery _ echo_services;
  outage_probe_minutes := 45;
|}.

#[local] Instance day_calendar : Calendar := {|
  day_of_month := fun d => d mod 30 + 1;
  month_of_year := fun d => d / 30 mod 12 + 1;
  weekday_of := fun d => (d + 4) mod 7;
  date_text := fun d => pretty d;
|}.

#[local] Instance day_env : GapEnv pipe_world := {|
  clock_now := fun w => (pw_clock w, w);
  pg_date_text := fun d => pretty d;
|}.

(** ** The gap check *)

Definition one_queue : list Z := [424].

(** The hour of the limited match, and an older one whose drain was interrupted. *)
Definition older_hour : HourKey := {| key_date := 20664; key_hour := 4; key_queue := 424 |}.

Definition scanned_tables : HourTables :=
  {| hours := {[sample_hour := hour_row "complete"; older_hour := hour_row "fetching"]};
     discoveries := {[(7, 424) := seen_at 5; (8, 424) := seen_at 4]};
     region_hours := ∅; match_counts := ∅; ingest := {[7 := limited_row]} |}.

Lemma scanned_in_columns : keys_in_columns scanned_tables.
Proof.
  intros k r Hk. unfold scanned_tables in Hk. cbn [hours] in Hk. rewrite lookup_insert_Some in Hk.
  destruct Hk as [[<- _]|[_ [<- _]%lookup_singleton_Some]]; vm_compute; done.
Qed.

Lemma day_texts : date_texts (W := pipe_world).
Proof. intros d. apply read_pretty. Qed.

Definition scan : list GapCandidate :=
  candidates_of_states (states_of_rows (queue_hour_states 1000 one_queue "20500" "20664" 9 scanned_tables)).

Lemma gap_scan_newest_witness :
  scan = [candidate_for sample_hour] /\
  exists k, candidate_for sample_hour = candidate_for k /\
    fst (claim_hourly_ingest_hour 1000 k GAP_SOURCE scanned_tables) = true.
Proof.
  split; [vm_compute; reflexivity|].
  apply (gap_scan_newest (W := pipe_world) 1000 one_queue "20500" "20664" 9 scanned_tables day_texts scanned_in_columns).
  change (candidate_for sample_hour ∈ scan).
  assert (scan = [candidate_for sample_hour]) as -> by (vm_compute; reflexivity). apply list_elem_of_here.
Defined.

(** The older hour holds a match nobody has fetched, and is never proposed. *)
Lemma limited_match_pins_scan_witness :
  eligible 1000 one_queue 20500 20664 9 scanned_tables older_hour (hour_row "fetching") = true /\
  requires_canonical_work (ingest scanned_tables) 8 = true /\
  candidate_for sample_hour ∈ scan /\ forall c, c ∈ scan -> gc_hour c = 5.
Proof.
  split; [vm_compute; reflexivity|]. split; [vm_compute; reflexivity|].
  destruct (limited_match_pins_scan (W := pipe_world) 1000 one_queue "20500" "20664" 9 scanned_tables sample_hour
              (hour_row "complete") 7 limited_row day_texts scanned_in_columns) as (_ & Hin & Hall);
    try (vm_compute; reflexivity).
  - apply list_elem_of_here.
  - vm_compute. discriminate.
  - assert (discovered_in sample_hour scanned_tables = [7]) as -> by (vm_compute; reflexivity).
    apply list_elem_of_here.
  - intros k r Hk. unfold scanned_tables in Hk. cbn [hours] in Hk. rewrite lookup_insert_Some in Hk.
    destruct Hk as [[<- _]|[_ [<- _]%lookup_singleton_Some]]; vm_compute; reflexivity.
  - split; [exact Hin|]. intros c Hc. by apply Hall.
Defined.

(** ** A job *)

#[local] Instance day_jobs : JobBodies pipe_world := {|
  job_env := fun _ => None;
  should_stop := mret false;
  parse_rfc3339 := fun _ => Err "no instant";
  api_key_rows := mret (Ok []);
  replay_audited_profiles := mret (Ok 3);
  run_profile_enrichment := fun _ => mret (Err "no relay");
  process_buffer_batch := fun n => mret (Ok {| bb_processed := n; bb_failed := 0; bb_deferred := 0 |});
  repair_ranked_projection_gaps := fun page => mret (Ok page);
  other_job := fun _ => mret (Ok Null);
|}.

#[local] Instance day_coordination : CoordinationDb (PipelineState pipe_world) := fun s => (Ok (pw_clock (world s)), s).

Definition owned : Coordination := {|
  assignments := {["auto_ingester" := {| desired_engine := "rust"; generation := 1 |}]};
  ownership := {["auto_ingester" := {| own_owner := "rust:a"; own_engine := "rust"; own_lease_until := 60000000;
    own_acquired_at := 0; own_heartbeat_at := 0; own_updated_at := 0 |}]};
  jobs := ∅; run_log := ∅; next_run := 1 |}.

Definition drain_job : ScheduledJob :=
  {| sj_key := "auto-ingester:buffer-drain"; sj_scheduler := "auto_ingester"; sj_cron := "*/5 * * * *";
     sj_minute := MinuteEvery 5; sj_hour := HourAny; sj_startup := Always 15 |}.

Definition drained := execute_scheduled_job_once hosted_dispatch drain_job "rust:a" "cron" (owned, state_of no_tables).

Lemma scheduled_job_closes_run_witness :
  fst drained = true /\ lease_of (sj_key drain_job) (snd drained) = None /\
  exists r, run_of 1 (snd drained) = Some r /\ closed_run drain_job "rust:a" "cron" r.
Proof.
  pose proof (scheduled_job_closes_run drain_job "rust:a" "cron" (owned, state_of no_tables)) as Hrun.
  assert (answering (W := PipelineState pipe_world)) as Ha by (intros w; reflexivity).
  specialize (Hrun Ha). fold drained in Hrun. destruct drained as [executed x'] eqn:E.
  assert (executed = true) as -> by (change executed with (fst (executed, x')); rewrite <- E; vm_compute; reflexivity).
  split; [reflexivity|]. exact Hrun.
Defined.

(** A discovery that ran is followed by a drain. *)
Example discovery_then_drain :
  snd (execute_scheduled_sequence (W := list (string * string))
         (fun job trigger x => (true, (fst x, snd x ++ [(sj_key job, trigger)])))
         {| sj_key := "auto-ingester:discovery"; sj_scheduler := "auto_ingester"; sj_cron := "30 * * * *";
            sj_minute := MinuteExact 30; sj_hour := HourAny; sj_startup := DurableCatchup 10 |} "cron" (owned, []))
  = (owned, [("auto-ingester:discovery", "cron"); ("auto-ingester:buffer-drain", "post-discovery")]).
Proof. reflexivity. Qed.

(** ** The loop *)

Definition ingester_jobs : list ScheduledJob := scheduled_jobs_for "auto_ingester".

(** Two ticks of 00:05 and one of 00:10, by which the first drain has ended;
    between them the discovery of the startup, followed by its drain. *)
Definition some_ticks : list HostEvent :=
  [HostTick 300 ∅; HostStartup "auto-ingester:discovery"; HostStartup "auto-ingester:discovery"; HostTick 301 ∅;
   HostDiscovered; HostDiscovered; HostHeartbeat (Some (Ok true)); HostTick 600 {["auto-ingester:buffer-drain"]}].

Lemma ingester_keys : NoDup (map sj_key ingester_jobs).
Proof. apply (bool_decide_unpack _). vm_compute. exact I. Qed.

Lemma domain_starts_witness :
  started (host_run ingester_jobs (fun _ => None) some_ticks) =
    [("auto-ingester:view-count-drain", 10); ("auto-ingester:buffer-drain", 10);
     ("auto-ingester:materialized-view-refresh", 5); ("auto-ingester:buffer-drain", 5)] /\
  startups (host_run ingester_jobs (fun _ => None) some_ticks) = ["auto-ingester:discovery"%string] /\
  drains (host_run ingester_jobs (fun _ => None) some_ticks) = 1%nat /\
  NoDup (started (host_run ingester_jobs (fun _ => None) some_ticks)).
Proof.
  do 3 (split; [vm_compute; reflexivity|]).
  apply (domain_starts ingester_jobs (fun _ => None) some_ticks "auto-ingester:buffer-drain" ingester_keys).
  vm_compute. repeat constructor; discriminate.
Defined.

Lemma due_job_starts_witness :
  ("auto-ingester:buffer-drain", 5) ∈ started (host_run ingester_jobs (fun _ => None) ([] ++ [HostTick 300 ∅])).
Proof.
  apply (due_job_starts ingester_jobs (fun _ => None) [] 300 ∅ drain_job).
  - vm_compute. repeat constructor.
  - reflexivity.
  - intros t Ht. by apply elem_of_nil in Ht.
  - vm_compute. apply list_elem_of_further, list_elem_of_here.
  - vm_compute. reflexivity.
  - apply (bool_decide_unpack _). vm_compute. exact I.
Defined.

(** ** The policy *)

(** A cursor as the number its fields encode to. *)
Definition cursor_fields (c : PresenceDetailCursor) : string * Z * string * Z :=
  (pc_date c, pc_hour c, pc_match_id c, pc_queue_id c).
Definition cursor_of_fields (f : string * Z * string * Z) : PresenceDetailCursor :=
  let '(d, h, m, q) := f in {| pc_date := d; pc_hour := h; pc_match_id := m; pc_queue_id := q |}.

#[local] Instance number_codec : CursorCodec := {|
  json_bytes := fun v =>
    match cursor_of_value v with Some c => pretty (N.pos (encode (cursor_fields c))) | None => "?" end;
  json_of_bytes := fun s =>
    n ← parse_digits 0 s; f ← decode (Z.to_pos n); Some (cursor_value (cursor_of_fields f));
  base64_encode := fun s => s;
  base64_decode := fun s => Some s;
  valid_date := fun s => String.eqb s "2026-07-30";
|}.

Lemma number_codec_inverse : codec_inverse.
Proof.
  split; [done|done| |].
  - intros c Hc. simpl. rewrite cursor_of_cursor_value by done. rewrite parse_digits_pretty. simpl.
    rewrite decode_encode. simpl. by destruct c.
  - intros v. simpl. destruct (cursor_of_value v) as [c|]; [|done].
    by destruct (pretty_head (N.pos (encode (cursor_fields c)))) as (a & r & -> & _).
Qed.

Definition sample_cursor : PresenceDetailCursor :=
  {| pc_date := "2026-07-30"; pc_hour := 5; pc_match_id := "1270000001"; pc_queue_id := 486 |}.

Lemma cursor_roundtrip_witness :
  decode_presence_detail_cursor (Some (encode_presence_detail_cursor sample_cursor)) = Some sample_cursor.
Proof.
  rewrite (cursor_roundtrip sample_cursor number_codec_inverse); [vm_compute; reflexivity|].
  split; vm_compute; split; discriminate.
Defined.

Lemma enrichment_budget_witness :
  profile_enrichment_allowed_calls 100
    (api_headroom_snapshot 100 [{| ak_status := "active"; ak_daily_limit := 7500; ak_total_24h := 7383 |}]) = 17 /\
  17 <= 100.
Proof.
  split; [reflexivity|].
  apply (enrichment_budget 100 100 [{| ak_status := "active"; ak_daily_limit := 7500; ak_total_24h := 7383 |}]).
  discriminate.
Defined.
