(* ===== verification/RequestedMatch.v ===== *)
(** * One match through its lifecycle (backend-rust/src/workers/requested_match.rs)

    The path by which a manual lookup and the pipeline's resumption bring one
    match to its durable facts: read the database first, register, claim, fetch
    what the ledger says is missing, finalize, project, release.  Also the
    client of the relay it uses (workers/relay.rs).  The ledger is the one of
    the pipeline's database; the other tables a match has, the generator of
    owner ids and the HTTP transport are the class [MatchStore]. *)

From S2P Require Import Prelude Json Lifecycle HourlyIngest Pipeline.

(** ** The relay client *)

Record RelayCallResponse (T : Type) := {
  relay_ok : bool;
  relay_result : option T;
  relay_error : option string;
}.
Arguments relay_ok {T} _.
Arguments relay_result {T} _.
Arguments relay_error {T} _.

(** What [send] and [json] answer: a transport error, or the HTTP status with
    the decoded envelope or the error of its decoding. *)
Abbreviation http_answer T := (result (Z * result (RelayCallResponse T) string) string).

Definition is_success (status : Z) : bool := (200 <=? status) && (status <? 300).

Definition call {T} (operation : string) (answer : http_answer T) : result T WorkerRelayError :=
  match answer with
  | Err m => Err (RelayTransport m)
  | Ok (_, Err m) => Err (RelayTransport m)
  | Ok (status, Ok envelope) =>
      if negb (is_success status) || negb (relay_ok envelope)
      then Err (RelayOperation operation (default ("HTTP " +:+ pretty status) (relay_error envelope)))
      else match relay_result envelope with
           | Some v => Ok v
           | None => Err (RelayMissingResult operation)
           end
  end.

Record MatchLifecycleFetches := {
  f_detail : option value;
  f_roster : option (list value);
  f_histories : list (Z * list value);
  f_demo : option value;
}.

Definition no_fetches : MatchLifecycleFetches :=
  {| f_detail := None; f_roster := None; f_histories := []; f_demo := None |}.

(** [{"matchId": match_id, "queueId": queue_id}], without an unknown queue. *)
Definition match_request (id : Z) (queue : option Z) : value :=
  match queue with
  | Some q => Object [("matchId", Number (NInt id)); ("queueId", Number (NInt q))]
  | None => Object [("matchId", Number (NInt id))]
  end.

(** [for result in results { fetched.histories.push(result?) }]. *)
Fixpoint push_histories (results : list (Z * result (list value) WorkerRelayError))
    (f : MatchLifecycleFetches) : result MatchLifecycleFetches WorkerRelayError :=
  match results with
  | [] => Ok f
  | (_, Err e) :: _ => Err e
  | (id, Ok rows) :: r =>
      push_histories r {| f_detail := f_detail f; f_roster := f_roster f;
                          f_histories := f_histories f ++ [(id, rows)]; f_demo := f_demo f |}
  end.

(** ** The results *)

Definition ready (id : Z) : RequestedMatchResult :=
  {| rm_match_id := id; rm_status := Ready; rm_error := None |}.

Definition failed (id : Z) (error : string) : RequestedMatchResult :=
  {| rm_match_id := id; rm_status := RecoveryFailed; rm_error := Some error |}.

Definition not_found (id : Z) : RequestedMatchResult :=
  {| rm_match_id := id; rm_status := NotFound; rm_error := None |}.

Definition can_resume_without_detail_or_roster (actions : list MatchLifecycleAction) : bool :=
  match actions with [] => false | _ :: _ => true end
  && negb (existsb (fun a => match a with FetchDetail | FetchRoster => true | _ => false end) actions).

Definition is_history (a : MatchLifecycleAction) : bool :=
  match a with FetchHistories _ => true | _ => false end.

Fixpoint relay_terminal_status (v : value) : option string :=
  match v with
  | Array values => find_map relay_terminal_status values
  | Object fields => lookup_field "status" fields ≫= as_str
  | _ => None
  end.

Definition match_discovery_error_to_string (e : MatchDiscoveryError) : string :=
  match e with
  | PopulationConflict id existing incoming =>
      "match " +:+ pretty id +:+ " was already classified as " +:+ existing
      +:+ "; refusing conflicting " +:+ incoming +:+ " discovery"
  | QueueConflict id existing incoming =>
      "match " +:+ pretty id +:+ " was already assigned queue " +:+ pretty existing
      +:+ "; refusing conflicting queue " +:+ pretty incoming
  end.

(** ** The store *)

Class MatchStore (W : Type) := {
  (** The tables of matches beside the ledger. *)
  other_tables : W -> MatchTables;
  (** The matches with a row in matches, casual_matches or special_matches. *)
  stored_matches : W -> gset Z;
  (** [Uuid::new_v4()]. *)
  new_uuid : ST W string;
  completion_timeout_secs : Z;
  (** The POST of a call whose result is decoded as an array. *)
  relay_post_rows : string -> list value -> string -> ST (PipelineDb * W) (http_answer (list value));
}.

Section requested.
Context {W : Type} `{PipelineServices W, MatchStore W}.

Abbreviation X := (PipelineDb * W)%type.

Definition ledger_of (s : X) : ledger := ingest (hour_tables (fst s)).

Definition set_ledger (l : ledger) (s : X) : X :=
  ({| hour_tables := with_ingest l (hour_tables (fst s)); outages := outages (fst s) |}, snd s).

Definition tables_of (s : X) : MatchTables := with_rows (ledger_of s) (other_tables (snd s)).

Definition on_ledger {A} (f : X -> A * ledger) : ST X (result A string) := fun s =>
  let '(a, l) := f s in (Ok a, set_ledger l s).

(** A statement that reads the tables and may write the ledger. *)
Definition ledger_statement {A} (f : Z -> X -> A * ledger) : ST X (result A string) :=
  begun ← db_begin;
  match begun with
  | Err m => mret (Err m)
  | Ok now => on_ledger (f now)
  end.

Definition ledger_read {A} (f : X -> A) : ST X (result A string) :=
  ledger_statement (fun _ s => (f s, ledger_of s)).

(** FACTS_DURABLE_SQL. *)
Definition durable_in (id : Z) (s : X) : bool :=
  bool_decide (id ∈ stored_matches (snd s))
  && match ledger_of s !! id with
     | Some r => has_stage "player_facts" r && has_stage "match_bans" r
     | None => false
     end.

Definition facts_are_durable (id : Z) : ST X (result bool string) := ledger_read (durable_in id).

Definition ensure_projected (id : Z) : ST X (result unit string) :=
  row <-? ledger_read (fun s => ledger_of s !! id);
  match row with
  | None => mret (Err "match ingest status is missing")
  | Some r =>
      let population := row_population r in
      if String.eqb population "ranked" then
        if has_stage "ranked_stats" r then mret (Ok tt) else project_match id
      else if String.eqb population "casual" then
        if has_stage "casual_mechanics_stats" r then mret (Ok tt) else project_all_for_match id
      else if String.eqb population "special" then
        if has_stage "special_mechanics_stats" r then mret (Ok tt) else project_all_for_match id
      else mret (Err "match population is unknown")
  end.

(** ** The calls of the relay *)

Definition fetch_detail (id : Z) (queue : option Z) : ST X (result value WorkerRelayError) :=
  relay_call "getMatchDetailsBatch" [Array [match_request id queue]] "rust_match_lifecycle".

Definition call_rows (operation : string) (args : list value) (consumer : string) :
    ST X (result (list value) WorkerRelayError) :=
  answer ← relay_post_rows operation args consumer;
  mret (call operation answer).

Definition fetch_roster (id : Z) : ST X (result (list value) WorkerRelayError) :=
  call_rows "getPlayerBatchFromMatch" [Number (NInt id)] "rust_match_recovery".

Definition fetch_history (player : Z) : ST X (result (list value) WorkerRelayError) :=
  call_rows "getMatchHistory" [Number (NInt player); Number (NInt 50); Bool false] "rust_match_recovery".

Definition fetch_demo (id : Z) : ST X (result value WorkerRelayError) :=
  relay_call "getDemoDetails" [Number (NInt id)] "rust_match_recovery".

Definition resume_recovery (id : Z) (queue : option Z) : ST X (result value WorkerRelayError) :=
  relay_call "resumeMatchRecovery" [Array [match_request id queue]] "rust_match_recovery_resume".

(** [buffered(5).collect()]: every player is asked, whatever the others answer. *)
Fixpoint fetch_each (players : list Z) : ST X (list (Z * result (list value) WorkerRelayError)) :=
  match players with
  | [] => mret []
  | p :: r =>
      answer ← fetch_history p;
      rest ← fetch_each r;
      mret ((p, answer) :: rest)
  end.

Fixpoint fetch_actions (id : Z) (queue : option Z) (actions : list MatchLifecycleAction)
    (f : MatchLifecycleFetches) : ST X (result MatchLifecycleFetches WorkerRelayError) :=
  match actions with
  | [] => mret (Ok f)
  | FetchDetail :: r =>
      v <-? fetch_detail id queue;
      fetch_actions id queue r {| f_detail := Some v; f_roster := f_roster f;
                                  f_histories := f_histories f; f_demo := f_demo f |}
  | FetchRoster :: r =>
      rows <-? fetch_roster id;
      fetch_actions id queue r {| f_detail := f_detail f; f_roster := Some rows;
                                  f_histories := f_histories f; f_demo := f_demo f |}
  | FetchHistories players :: r =>
      results ← fetch_each players;
      match push_histories results f with
      | Err e => mret (Err e)
      | Ok f' => fetch_actions id queue r f'
      end
  | FetchDemo :: r =>
      v <-? fetch_demo id;
      fetch_actions id queue r {| f_detail := f_detail f; f_roster := f_roster f;
                                  f_histories := f_histories f; f_demo := Some v |}
  | _ :: r => fetch_actions id queue r f
  end.

Definition execute_match_lifecycle_fetches (id : Z) (queue : option Z) (actions : list MatchLifecycleAction) :
    ST X (result MatchLifecycleFetches WorkerRelayError) := fetch_actions id queue actions no_fetches.

(** ** The repository *)

Definition release_claim (id : Z) (owner : string) : ST X unit :=
  _ ← ledger_statement (fun now s => release now id owner (ledger_of s));
  mret tt.

Definition register_match (d : MatchDiscovery) : ST X (result MatchDiscoveryRegistration string) :=
  r <-? ledger_statement (fun now s => register_discovery now (queue_types (tables_of s)) d (ledger_of s));
  mret (map_err match_discovery_error_to_string r).

(** The participants are read at one instant, the histories at a later one. *)
Definition evidence_tables (t histories : MatchTables) : MatchTables :=
  {| rows := rows t; participants := participants t; fact_players := fact_players t;
     history_entries := history_entries histories; queue_types := queue_types t |}.

Definition claim_match (id : Z) (source owner : string) : ST X (result (option MatchEvidence) string) :=
  row <-? ledger_statement (fun now s => claim_statement now id source owner completion_timeout_secs (ledger_of s));
  match row with
  | None => mret (Ok None)
  | Some r =>
      t <-? ledger_read tables_of;
      h <-? ledger_read tables_of;
      mret (Ok (Some (load_evidence_from_claim id r (evidence_tables t h))))
  end.

(** ** The lifecycle of one match *)

Definition answer_projected (id : Z) : ST X RequestedMatchResult :=
  r ← ensure_projected id;
  mret (match r with Ok _ => ready id | Err e => failed id e end).

Definition answer_released (id : Z) (owner : string) (answer : RequestedMatchResult) : ST X RequestedMatchResult :=
  _ ← release_claim id owner;
  mret answer.

(** The relay call that the evidence asks for. *)
Definition acquire_evidence (id : Z) (e : MatchEvidence) : ST X (result value WorkerRelayError) :=
  let actions := plan_match_lifecycle e in
  if can_resume_without_detail_or_roster actions then
    _ <-? execute_match_lifecycle_fetches id (queue_id e)
            (filter (fun a => is_history a = true) actions);
    resume_recovery id (queue_id e)
  else fetch_detail id (queue_id e).

Definition project_finalized (id : Z) (population : MatchPopulation) : ST X (result unit string) :=
  match population with
  | Ranked => project_match id
  | Casual | Special => project_all_for_match id
  | Unknown => mret (Err "match population remained unknown after canonical finalization")
  end.

(** Finalization, projection and the last look at the facts. *)
Definition store_payload (id : Z) (source : MatchDiscoverySource) (owner : string)
    (payload : CanonicalMatchPayload) : ST X RequestedMatchResult :=
  if negb (payload_match_id payload =? id) then
    answer_released id owner (failed id ("HirezRelay returned match " +:+ pretty (payload_match_id payload)
      +:+ " for requested match " +:+ pretty id))
  else
    finalized ← facts_finalize payload (source_as_database source);
    match finalized with
    | Err e => answer_released id owner (failed id (match_fact_error_to_string e))
    | Ok population =>
        projection ← project_finalized id population;
        match projection with
        | Err e => answer_released id owner (failed id e)
        | Ok _ =>
            _ ← release_claim id owner;
            durable ← facts_are_durable id;
            mret (match durable with
                  | Ok true => ready id
                  | Ok false => failed id "canonical finalizer returned before the durable fact boundary"
                  | Err e => failed id e
                  end)
        end
    end.

(** The call after a won claim. *)
Definition ingest_claimed (id : Z) (source : MatchDiscoverySource) (owner : string) (e : MatchEvidence) :
    ST X RequestedMatchResult :=
  if facts_durable e then
    _ ← release_claim id owner; answer_projected id
  else
    answer ← acquire_evidence id e;
    match answer with
    | Err error => answer_released id owner (failed id (worker_relay_error_to_string error))
    | Ok v =>
        let terminal := relay_terminal_status v in
        if bool_decide (terminal = Some "dropped") then answer_released id owner (not_found id)
        else if bool_decide (terminal = Some "recovery_pending") then
          answer_released id owner (failed id
            "HirezRelay did not produce a complete recoverable payload in this invocation")
        else match from_relay_value v with
             | Err error =>
                 answer_released id owner (if bool_decide (terminal = Some "dropped") then not_found id
                                   else failed id error)
             | Ok payload => store_payload id source owner payload
             end
    end.

Definition ingest_unclaimed (id : Z) : ST X RequestedMatchResult :=
  durable ← facts_are_durable id;
  match durable with
  | Ok true => answer_projected id
  | Ok false =>
      mret (failed id "canonical lifecycle is already owned but has not reached durable facts")
  | Err e => mret (failed id e)
  end.

Definition draw_owner : ST X string := fun s =>
  let '(uuid, w) := new_uuid (snd s) in ("canonical-match-" +:+ uuid, (fst s, w)).

Definition ingest_registered (id : Z) (source : MatchDiscoverySource) : ST X RequestedMatchResult :=
  owner ← draw_owner;
  claimed ← claim_match id (source_as_database source) owner;
  match claimed with
  | Err e => mret (failed id e)
  | Ok None => ingest_unclaimed id
  | Ok (Some e) => ingest_claimed id source owner e
  end.

Definition ingest_match (request : MatchIngestRequest) : ST X RequestedMatchResult :=
  let id := mi_match_id request in
  if id <=? 0 then mret (failed id "match ID must be positive") else
  durable ← facts_are_durable id;
  match durable with
  | Ok true => answer_projected id
  | Err e => mret (failed id e)
  | Ok false =>
      registered ← register_match {| disc_match_id := id; disc_queue_id := mi_queue_id request;
                                     disc_source := mi_source request |};
      match registered with
      | Err e => mret (failed id e)
      | Ok r => if negb (needs_work r) then answer_projected id else ingest_registered id (mi_source request)
      end
  end.

(** [RequestedMatchIngestor::ingest]: a manual lookup. *)
Definition ingest_lookup (id : Z) : ST X RequestedMatchResult :=
  ingest_match {| mi_match_id := id; mi_queue_id := None; mi_source := DirectLookup |}.
End requested.

(** ** The pipeline on this path

    The services of the pipeline, with the resumption of a match done here. *)
Definition canonical_services {W} (base : PipelineServices W) (store : MatchStore W) : PipelineServices W := {|
  date_value := date_value;
  db_begin := db_begin;
  relay_call := relay_call;
  CanonicalMatchPayload := CanonicalMatchPayload;
  payload_match_id := payload_match_id;
  payload_queue_id := payload_queue_id;
  from_relay_value := from_relay_value;
  facts_finalize := facts_finalize;
  project_match := project_match;
  project_all_for_match := project_all_for_match;
  complete_cumulative_stages_for_matches := complete_cumulative_stages_for_matches;
  ingest_discovery := ingest_match;
  outage_probe_minutes := outage_probe_minutes;
|}.
