(* ===== verification/RequestedMatchSpec.v ===== *)
(** * Properties of the lifecycle of one match

    What a lookup may ask of the relay and what each of its answers means, that
    a match answered as ready is projected, and that the claim of a match never
    outlives the call that took it. *)

From S2P Require Import Prelude Json Lifecycle LifecycleSpec HourlyIngest Pipeline RequestedMatch.

Section spec.
Context {W : Type} `{PipelineServices W, MatchStore W}.
Abbreviation X := (PipelineDb * W)%type.

Lemma ledger_of_set l (s : X) : ledger_of (set_ledger l s) = l.
Proof. by destruct s as [d w]. Qed.

Lemma set_ledger_same (s : X) : set_ledger (ledger_of s) s = s.
Proof. by destruct s as [[[h di r m i] o] w]. Qed.

Lemma run_bind {A B} (c : ST X A) (k : A -> ST X B) s : (c ≫= k) s = k (fst (c s)) (snd (c s)).
Proof. unfold mbind, ST_bind. by destruct (c s). Qed.

Lemma run_try {A B E} (c : ST X (result A E)) (k : A -> ST X (result B E)) s :
  try_bind c k s = match fst (c s) with
                   | Ok a => k a (snd (c s))
                   | Err e => (Err e, snd (c s))
                   end.
Proof. unfold try_bind. by destruct (c s) as [[a|e] s1]. Qed.

(** ** Invariants of a program *)

Definition preserves (I : X -> Prop) {A} (c : ST X A) : Prop := forall s, I s -> I (snd (c s)).

Section invariant.
Variable I : X -> Prop.

Lemma keep_ret {A} (a : A) : preserves I (mret a).
Proof. by intros s. Qed.

Lemma keep_bind {A B} (c : ST X A) (k : A -> ST X B) :
  preserves I c -> (forall a, preserves I (k a)) -> preserves I (c ≫= k).
Proof. intros Hc Hk s Hs. rewrite run_bind. apply Hk. by apply Hc. Qed.

Lemma keep_try {A B E} (c : ST X (result A E)) (k : A -> ST X (result B E)) :
  preserves I c -> (forall a, preserves I (k a)) -> preserves I (try_bind c k).
Proof.
  intros Hc Hk s Hs. rewrite run_try. specialize (Hc s Hs).
  destruct (fst (c s)); [by apply Hk|done].
Qed.

Hypothesis keep_begin : preserves I db_begin.

Lemma keep_statement {A} (f : Z -> X -> A * ledger) :
  (forall now s, I s -> I (set_ledger (snd (f now s)) s)) -> preserves I (ledger_statement f).
Proof.
  intros Hf. apply keep_bind; [done|]. intros [now|m]; [|apply keep_ret].
  intros s Hs. specialize (Hf now s Hs). unfold on_ledger. by destruct (f now s).
Qed.

Lemma keep_read {A} (f : X -> A) : preserves I (ledger_read f).
Proof. apply keep_statement. intros now s Hs. simpl. by rewrite set_ledger_same. Qed.
End invariant.

(** ** The relay calls *)

Record relay_entry := { re_op : string; re_args : list value; re_answer : result value WorkerRelayError }.

Definition request_of_entry (c : relay_entry) : string * list value := (re_op c, re_args c).

(** [log] lists the calls made to the relay, with their answers. *)
Record logging (log : W -> list relay_entry) : Prop := {
  log_begin : forall x, log (snd (snd (db_begin x))) = log (snd x);
  log_relay : forall op args consumer x,
    log (snd (snd (relay_call op args consumer x)))
    = log (snd x) ++ [{| re_op := op; re_args := args; re_answer := fst (relay_call op args consumer x) |}];
  log_rows : forall op args consumer x,
    exists answer, log (snd (snd (relay_post_rows op args consumer x)))
    = log (snd x) ++ [{| re_op := op; re_args := args; re_answer := answer |}];
  log_finalize : forall p source x, log (snd (snd (facts_finalize p source x))) = log (snd x);
  log_project : forall id x, log (snd (snd (project_match id x))) = log (snd x);
  log_project_all : forall id x, log (snd (snd (project_all_for_match id x))) = log (snd x);
  log_uuid : forall w, log (snd (new_uuid w)) = log w;
}.

Definition history_request (player : Z) : string * list value :=
  ("getMatchHistory", [Number (NInt player); Number (NInt 50); Bool false]).
Definition detail_request (id : Z) (queue : option Z) : string * list value :=
  ("getMatchDetailsBatch", [Array [match_request id queue]]).
Definition resume_request (id : Z) (queue : option Z) : string * list value :=
  ("resumeMatchRecovery", [Array [match_request id queue]]).

(** Evidence with an attempted detail and a resolved roster is resumed: the
    missing histories, each once, then the resumption unless a history failed;
    other evidence asks for the detail of this match only. *)
Definition planned_calls (id : Z) (e : MatchEvidence) (requests : list (string * list value)) : Prop :=
  if detail_attempted e && roster_resolved e
  then requests = map history_request (missing_history_ids e)
       \/ requests = map history_request (missing_history_ids e) ++ [resume_request id (queue_id e)]
  else requests = [detail_request id (queue_id e)].

Lemma plan_resumes e :
  facts_durable e = false ->
  can_resume_without_detail_or_roster (plan_match_lifecycle e) = detail_attempted e && roster_resolved e
  /\ (detail_attempted e && roster_resolved e = true ->
      filter (fun a => is_history a = true) (plan_match_lifecycle e)
      = match missing_history_ids e with [] => [] | ids => [FetchHistories ids] end).
Proof.
  intros Hf. unfold plan_match_lifecycle. rewrite Hf.
  destruct (detail_attempted e); [|done]. destruct (roster_resolved e); [|done].
  destruct (missing_history_ids e), (demo_resolved e); done.
Qed.

Section log.
Variable log : W -> list relay_entry.
Hypothesis logged : logging log.

(** The calls a program makes, with what its result says of them. *)
Definition calls_at {A} (s : X) (c : ST X A) (Q : A -> list relay_entry -> X -> Prop) : Prop :=
  exists l, log (snd (snd (c s))) = log (snd s) ++ l /\ Q (fst (c s)) l (snd (c s)).
Definition calls {A} (c : ST X A) (Q : A -> list relay_entry -> X -> Prop) : Prop := forall s, calls_at s c Q.

Definition silent {A} (c : ST X A) : Prop := calls c (fun _ l _ => l = []).

Lemma logs_ret {A} (a : A) (Q : A -> list relay_entry -> X -> Prop) :
  (forall s, Q a [] s) -> calls (mret a) Q.
Proof. intros HQ s. exists []. simpl. by rewrite app_nil_r. Qed.

Lemma logs_bind {A B} (c : ST X A) (k : A -> ST X B) Q (R : B -> list relay_entry -> X -> Prop) :
  calls c Q -> (forall a l1 s1, Q a l1 s1 -> calls (k a) (fun b l2 s2 => R b (l1 ++ l2) s2)) ->
  calls (c ≫= k) R.
Proof.
  intros Hc Hk s. destruct (Hc s) as (l1 & E1 & H1). destruct (Hk _ _ _ H1 (snd (c s))) as (l2 & E2 & H2).
  exists (l1 ++ l2). rewrite run_bind. split; [|done]. by rewrite E2, E1, app_assoc.
Qed.

Lemma logs_weaken {A} (c : ST X A) (Q R : A -> list relay_entry -> X -> Prop) :
  calls c Q -> (forall a l s, Q a l s -> R a l s) -> calls c R.
Proof. intros Hc HQ s. destruct (Hc s) as (l & E & Hl). exists l. eauto. Qed.

Lemma logs_try {A B E} (c : ST X (result A E)) (k : A -> ST X (result B E)) Q
    (R : result B E -> list relay_entry -> X -> Prop) :
  calls c Q ->
  (forall a l1 s1, Q (Ok a) l1 s1 -> calls (k a) (fun b l2 s2 => R b (l1 ++ l2) s2)) ->
  (forall e l1 s1, Q (Err e) l1 s1 -> R (Err e) l1 s1) ->
  calls (try_bind c k) R.
Proof.
  intros Hc Hk He s. destruct (Hc s) as (l1 & E1 & H1). unfold calls_at. rewrite run_try.
  destruct (fst (c s)) as [a|e]; [|exists l1; eauto].
  destruct (Hk _ _ _ H1 (snd (c s))) as (l2 & E2 & H2).
  exists (l1 ++ l2). split; [|done]. by rewrite E2, E1, app_assoc.
Qed.

(** A silent program before the one that counts. *)
Lemma logs_after {A B} (c : ST X A) (k : A -> ST X B) (R : B -> list relay_entry -> X -> Prop) :
  silent c -> (forall a, calls (k a) R) -> calls (c ≫= k) R.
Proof. intros Hc Hk. eapply logs_bind; [exact Hc|]. intros a l1 s1 ->. apply Hk. Qed.

Lemma logs_after_at {A B} s (c : ST X A) (k : A -> ST X B) (R : B -> list relay_entry -> X -> Prop) :
  silent c -> calls_at (snd (c s)) (k (fst (c s))) R -> calls_at s (c ≫= k) R.
Proof.
  intros Hc (l2 & E2 & H2). destruct (Hc s) as (l1 & E1 & ->). exists l2. rewrite run_bind.
  split; [|done]. by rewrite E2, E1, app_nil_r.
Qed.

Lemma silent_try {A B E} (c : ST X (result A E)) (k : A -> ST X (result B E)) :
  silent c -> (forall a, silent (k a)) -> silent (try_bind c k).
Proof.
  intros Hc Hk s. destruct (Hc s) as (l1 & E1 & ->). unfold calls_at. rewrite run_try.
  destruct (fst (c s)) as [a|e]; [|by exists []].
  destruct (Hk a (snd (c s))) as (l2 & E2 & ->). exists []. split; [|done].
  by rewrite E2, E1, !app_nil_r.
Qed.

Lemma silent_eq {A} (c : ST X A) : (forall x, log (snd (snd (c x))) = log (snd x)) -> silent c.
Proof. intros Hc s. exists []. by rewrite Hc, app_nil_r. Qed.

Lemma silent_statement {A} (f : Z -> X -> A * ledger) : silent (ledger_statement f).
Proof.
  apply logs_after; [apply silent_eq, (log_begin _ logged)|]. intros [now|m]; [|by apply logs_ret].
  apply silent_eq. intros s. unfold on_ledger. by destruct (f now s).
Qed.

(** Steps that never call the relay. *)
Ltac quiet :=
  repeat first
    [ apply logs_ret; intros; reflexivity | apply silent_statement | apply silent_try; [|intros]
    | apply logs_after; [|intros] | case_match
    | apply silent_eq; first [apply (log_project _ logged)|apply (log_project_all _ logged)
                             |apply (log_finalize _ logged)|apply (log_begin _ logged)] ].

Lemma silent_ensure id : silent (ensure_projected id).
Proof. unfold ensure_projected, ledger_read. quiet. Qed.

Lemma silent_release id owner : silent (release_claim id owner).
Proof. unfold release_claim. quiet. Qed.

Lemma silent_register d : silent (register_match d).
Proof. unfold register_match. quiet. Qed.

Lemma silent_draw : silent draw_owner.
Proof.
  apply silent_eq. intros [d w]. unfold draw_owner. pose proof (log_uuid _ logged w) as Hw. simpl.
  destruct (new_uuid w). exact Hw.
Qed.

Lemma silent_project id population : silent (project_finalized id population).
Proof. unfold project_finalized. quiet. Qed.

(** A read answers what still holds after it. *)
Lemma read_answer {A} (f : X -> A) :
  calls (ledger_read f) (fun r l s => l = [] /\ forall a, r = Ok a -> a = f s).
Proof.
  intros s. destruct (silent_statement (fun _ s => (f s, ledger_of s)) s) as (l & E & ->).
  exists []. split; [exact E|]. split; [done|]. unfold ledger_read, ledger_statement. rewrite run_bind.
  destruct (fst (db_begin s)); [|done]. unfold on_ledger. simpl. rewrite set_ledger_same. by intros ? [= <-].
Qed.

(** ** What is asked *)

Lemma calls_histories players :
  calls (fetch_each players) (fun _ l _ => map request_of_entry l = map history_request players).
Proof.
  induction players as [|p r IH]; [by apply logs_ret|]. simpl.
  apply (logs_bind _ _ (fun _ l _ => map request_of_entry l = [history_request p])).
  - unfold fetch_history, call_rows. eapply (logs_bind _ _ (fun _ l _ => map request_of_entry l = [history_request p])).
    + intros s. destruct (log_rows _ logged "getMatchHistory" [Number (NInt p); Number (NInt 50); Bool false]
        "rust_match_recovery" s) as [answer E]. eexists. split; [exact E|done].
    + intros a l1 s1 Hl. apply logs_ret. intros _. by rewrite app_nil_r.
  - intros a l1 s1 Hl. eapply logs_bind; [exact IH|]. intros b l2 s2 Hl2. apply logs_ret. intros _.
    by rewrite app_nil_r, map_app, Hl, Hl2.
Qed.

(** The last call of [l] answered [v]. *)
Definition last_answer (l : list relay_entry) (v : value) : Prop :=
  exists c, last l = Some c /\ re_answer c = Ok v.

Lemma calls_value op args consumer :
  calls (relay_call op args consumer)
    (fun r l _ => map request_of_entry l = [(op, args)] /\ forall v, r = Ok v -> last_answer l v).
Proof.
  intros s. eexists. split; [apply (log_relay _ logged)|]. split; [done|].
  intros v E. by eexists.
Qed.

Lemma calls_acquire id e :
  facts_durable e = false ->
  calls (acquire_evidence id e)
    (fun r l _ => planned_calls id e (map request_of_entry l) /\ forall v, r = Ok v -> last_answer l v).
Proof.
  intros Hf. unfold acquire_evidence, planned_calls. destruct (plan_resumes e Hf) as [-> Hh].
  destruct (detail_attempted e && roster_resolved e); [|apply calls_value].
  rewrite Hh by done. clear Hh.
  apply (logs_try _ _ (fun _ l _ => map request_of_entry l = map history_request (missing_history_ids e))).
  - unfold execute_match_lifecycle_fetches. destruct (missing_history_ids e) as [|p ids]; [by apply logs_ret|].
    change (fetch_actions id (queue_id e) [FetchHistories (p :: ids)] no_fetches) with
      (results ← fetch_each (p :: ids);
       match push_histories results no_fetches with
       | Err e => mret (Err e)
       | Ok f' => mret (Ok f')
       end).
    eapply logs_bind; [apply calls_histories|]. intros results l1 s1 Hl.
    destruct (push_histories results no_fetches); apply logs_ret; intros _; by rewrite app_nil_r.
  - intros _ l1 s1 Hl. eapply logs_weaken; [apply calls_value|]. intros r l2 s2 [H2 Hv]. split.
    + right. by rewrite map_app, Hl, H2.
    + intros v ->. destruct (Hv v eq_refl) as (c & Hc & Ha). exists c. split; [|done].
      rewrite last_app. by rewrite Hc.
  - intros error l1 s1 Hl. split; [by left|done].
Qed.

(** ** What is answered *)

Record match_contract (id : Z) (asked : list (string * list value) -> Prop) (r : RequestedMatchResult)
    (l : list relay_entry) (s : X) : Prop := {
  mc_id : rm_match_id r = id;
  mc_calls : asked (map request_of_entry l);
  mc_status : match rm_status r with
              | Ready => l = [] \/ durable_in id s = true
              | NotFound => exists v, last_answer l v /\ relay_terminal_status v = Some "dropped"
              | RecoveryFailed => is_Some (rm_error r)
              | ProcessingTimeout => False
              end;
}.

Lemma contract_failed id asked m l s :
  asked (map request_of_entry l) -> match_contract id asked (failed id m) l s.
Proof. intros Hl. by split; [..|exists m]. Qed.

Lemma contract_quiet id (asked : list (string * list value) -> Prop) (c : ST X RequestedMatchResult) :
  asked [] -> silent c -> (forall s, fst (c s) = ready id \/ exists m, fst (c s) = failed id m) ->
  calls c (match_contract id asked).
Proof.
  intros Ha Hc Hr s. destruct (Hc s) as (l & E & ->). exists []. split; [done|].
  destruct (Hr s) as [-> |[m ->]]; [|by apply contract_failed]. split; simpl; auto.
Qed.

Lemma contract_projected id (asked : list (string * list value) -> Prop) :
  asked [] -> calls (answer_projected id) (match_contract id asked).
Proof.
  intros Ha. apply contract_quiet; [done|..].
  - apply logs_after; [apply silent_ensure|]. intros r. by apply logs_ret.
  - intros s. unfold answer_projected. rewrite run_bind. destruct (fst (ensure_projected id s)) as [[]|m]; [by left|right; by eexists].
Qed.

Lemma contract_unclaimed id (asked : list (string * list value) -> Prop) :
  asked [] -> calls (ingest_unclaimed id) (match_contract id asked).
Proof.
  intros Ha. apply logs_after; [apply silent_statement|]. intros [[|]|m]; [by apply contract_projected|..];
    apply logs_ret; intros s; by apply contract_failed.
Qed.

(** After the calls [l1]: a release, then the answer. *)
Lemma contract_released id owner asked answer l1 :
  (forall s, match_contract id asked answer l1 s) ->
  calls (answer_released id owner answer) (fun r l s => match_contract id asked r (l1 ++ l) s).
Proof.
  intros Ha. apply logs_after; [apply silent_release|]. intros _. apply logs_ret. intros s.
  by rewrite app_nil_r.
Qed.

(** The last look at the facts: ready only when they are durable now. *)
Lemma calls_verdict id m :
  calls (durable ← facts_are_durable id;
         mret (match durable with
               | Ok true => ready id
               | Ok false => failed id m
               | Err e => failed id e
               end))
    (fun r l s => l = [] /\ ((r = ready id /\ durable_in id s = true) \/ exists m, r = failed id m)).
Proof.
  intros s. destruct (read_answer (durable_in id) s) as (l & E & -> & Hd).
  exists []. rewrite run_bind. split; [exact E|]. split; [done|]. unfold facts_are_durable.
  destruct (fst (ledger_read (durable_in id) s)) as [[|]|e]; simpl; [|by right; eexists..].
  left. by rewrite (Hd true).
Qed.

Lemma contract_store id source owner payload (asked : list (string * list value) -> Prop) l1 :
  asked (map request_of_entry l1) ->
  calls (store_payload id source owner payload) (fun r l s => match_contract id asked r (l1 ++ l) s).
Proof.
  intros Hl. assert (forall m s, match_contract id asked (failed id m) l1 s) as Hfail
    by (intros; by apply contract_failed).
  unfold store_payload. destruct (negb _); [by apply contract_released|].
  apply logs_after; [apply silent_eq; apply (log_finalize _ logged)|].
  intros [population|m]; [|by apply contract_released].
  apply logs_after; [apply silent_project|]. intros [[]|m]; [|by apply contract_released].
  apply logs_after; [apply silent_release|]. intros [].
  eapply logs_weaken; [apply calls_verdict|]. intros r l s [-> [[-> Hd]|[m ->]]]; rewrite app_nil_r; [|done].
  split; simpl; auto.
Qed.

(** The calls of a match claimed with this evidence. *)
Definition asked_by (id : Z) (claimed : option MatchEvidence) (requests : list (string * list value)) : Prop :=
  match claimed with
  | Some e => if facts_durable e then requests = [] else planned_calls id e requests
  | None => requests = []
  end.

Lemma contract_claimed id source owner e :
  calls (ingest_claimed id source owner e) (match_contract id (asked_by id (Some e))).
Proof.
  unfold ingest_claimed, asked_by. destruct (facts_durable e) eqn:Hf.
  - apply logs_after; [apply silent_release|]. intros _. by apply contract_projected.
  - eapply logs_bind; [by apply calls_acquire|]. intros r l s [Hp Hv].
    assert (forall m s, match_contract id (planned_calls id e) (failed id m) l s) as Hfail
      by (intros; by apply contract_failed).
    destruct r as [v|error]; [|by apply contract_released]. specialize (Hv v eq_refl). cbn zeta.
    case_bool_decide as Hd; [|case_bool_decide; [by apply contract_released|]].
    + apply contract_released. intros s'. split; simpl; eauto.
    + destruct (from_relay_value v); [by apply contract_store|by apply contract_released].
Qed.

(** The evidence of a claim made in the state [s]: the row its statement wins
    there, the participants and the histories as the next two reads find them. *)
Definition evidence_at (id : Z) (source owner : string) (s : X) : option MatchEvidence :=
  let '(begun, s1) := db_begin s in
  match begun with
  | Err _ => None
  | Ok now =>
      let '(row, l) := claim_statement now id source owner completion_timeout_secs (ledger_of s1) in
      let '(t, s2) := db_begin (set_ledger l s1) in
      let '(h, s3) := db_begin s2 in
      match row with
      | Some r =>
          if is_ok t && is_ok h
          then Some (load_evidence_from_claim id r (evidence_tables (tables_of s2) (tables_of s3)))
          else None
      | None => None
      end
  end.

Lemma claim_reads id source owner s :
  match fst (claim_match id source owner s) with
  | Ok claimed => evidence_at id source owner s = claimed
  | Err _ => evidence_at id source owner s = None
  end.
Proof.
  unfold claim_match, evidence_at, ledger_read, ledger_statement. rewrite run_try, run_bind.
  destruct (db_begin s) as [[now|m] s1]; [|done]. unfold on_ledger. simpl.
  destruct (claim_statement _ _ _ _ _ _) as [row l]. simpl.
  destruct row as [r|]; [|by destruct (db_begin _) as [t s2]; destruct (db_begin _)].
  rewrite run_try, run_bind. destruct (db_begin (set_ledger l s1)) as [[now2|m] s2]; simpl;
    [|by destruct (db_begin s2)].
  rewrite set_ledger_same, run_try, run_bind. by destruct (db_begin s2) as [[now3|m] s3].
Qed.

Lemma silent_claim id source owner : silent (claim_match id source owner).
Proof. unfold claim_match, ledger_read. quiet. Qed.

(** The evidence with which this call, run from [s], claims the match: none
    when its facts are durable, its registration is refused or needs no work,
    the database fails or the claim is lost. *)
Definition claim_of (request : MatchIngestRequest) (s : X) : option MatchEvidence :=
  let id := mi_match_id request in
  if id <=? 0 then None else
  let '(durable, s1) := facts_are_durable id s in
  let '(registered, s2) := register_match {| disc_match_id := id; disc_queue_id := mi_queue_id request;
                                             disc_source := mi_source request |} s1 in
  let '(owner, s3) := draw_owner s2 in
  match durable, registered with
  | Ok false, Ok r =>
      if needs_work r then evidence_at id (source_as_database (mi_source request)) owner s3 else None
  | _, _ => None
  end.

Lemma contract_match request s :
  calls_at s (ingest_match request)
    (match_contract (mi_match_id request) (asked_by (mi_match_id request) (claim_of request s))).
Proof.
  unfold ingest_match, claim_of. set (id := mi_match_id request). cbn zeta.
  assert (forall m s', calls_at s' (mret (failed id m)) (match_contract id (asked_by id None))) as Hfail
    by (intros m s'; apply logs_ret; intros ?; by apply contract_failed).
  destruct (id <=? 0); [apply Hfail|].
  apply logs_after_at; [apply silent_statement|]. destruct (facts_are_durable id s) as [durable s1]. cbn [fst snd].
  set (d := {| disc_match_id := _ |}).
  destruct (register_match d s1) as [registered s2] eqn:Hreg. destruct (draw_owner s2) as [owner s3] eqn:Ho.
  destruct durable as [[|]|m]; [by apply contract_projected| |apply Hfail].
  apply logs_after_at; [apply silent_register|]. rewrite Hreg. cbn [fst snd].
  destruct registered as [r|m]; [|apply Hfail]. destruct (needs_work r); [|by apply contract_projected]. simpl.
  apply logs_after_at; [apply silent_draw|]. rewrite Ho. cbn [fst snd].
  apply logs_after_at; [apply silent_claim|]. pose proof (claim_reads id (source_as_database (mi_source request)) owner s3) as He.
  destruct (claim_match _ _ _ _) as [[[e|]|m] s4]; cbn [fst snd] in *; rewrite He;
    [apply contract_claimed|by apply contract_unclaimed|apply Hfail].
Qed.

(** C12. Ingesting a match asks the relay exactly what the database lacks: when
    the call, run from this state, wins the claim with evidence that is not yet
    durable, the missing histories and the resumption if the detail was attempted
    and the roster is resolved, and the detail of this match only otherwise; and
    nothing when it wins no claim or its claim finds the facts durable.  The
    evidence is the one [claim_of] computes from the state of the call: the row
    its claim wins, the participants and histories read after it.  It answers
    Ready after relay calls only if the facts are durable in the end, NotFound
    only if the last call answered a dropped match, an error with its message
    otherwise, and never ProcessingTimeout. *)
Theorem ingest_match_contract request s :
  let r := fst (ingest_match request s) in
  let s' := snd (ingest_match request s) in
  exists l, log (snd s') = log (snd s) ++ l
    /\ match_contract (mi_match_id request) (asked_by (mi_match_id request) (claim_of request s)) r l s'.
Proof. apply contract_match. Qed.
End log.

(** ** The claim ends with the call *)

Section lease.
(** A worker id no other process uses. *)
Variables (id : Z) (owner : string).

Definition unclaimed (s : X) : Prop :=
  match ledger_of s !! id with Some r => lease_owner r <> Some owner | None => True end.

Record undisturbed : Prop := {
  und_begin : preserves unclaimed db_begin;
  und_answers : forall s : X, is_ok (fst (db_begin s)) = true;
  und_relay : forall op args consumer, preserves unclaimed (relay_call op args consumer);
  und_rows : forall op args consumer, preserves unclaimed (relay_post_rows op args consumer);
  und_finalize : forall p source, preserves unclaimed (facts_finalize p source);
  und_project : forall i, preserves unclaimed (project_match i);
  und_project_all : forall i, preserves unclaimed (project_all_for_match i);
}.
Hypothesis law : undisturbed.

(** The program ends without the claim, whatever held before. *)
Definition closes {A} (c : ST X A) : Prop := forall s, unclaimed (snd (c s)).

Lemma closes_last {A B} (c : ST X A) (k : A -> ST X B) : (forall a, closes (k a)) -> closes (c ≫= k).
Proof. intros Hk s. rewrite run_bind. apply Hk. Qed.

Lemma closes_first {A B} (c : ST X A) (k : A -> ST X B) :
  closes c -> (forall a, preserves unclaimed (k a)) -> closes (c ≫= k).
Proof. intros Hc Hk s. rewrite run_bind. apply Hk, Hc. Qed.

Lemma unclaimed_set l (s : X) :
  unclaimed (set_ledger l s) <-> match l !! id with Some r => lease_owner r <> Some owner | None => True end.
Proof. unfold unclaimed. by rewrite ledger_of_set. Qed.

Lemma release_closes : closes (release_claim id owner).
Proof.
  intros s. unfold release_claim, ledger_statement. rewrite run_bind. simpl. rewrite run_bind.
  pose proof (und_answers law s) as Hok. destruct (fst (db_begin s)) as [now|]; [|done].
  unfold on_ledger. destruct (release _ _ _ _) as [b l] eqn:E. simpl. apply unclaimed_set.
  unfold release, update_where in E. destruct (_ !! id) as [r|] eqn:Hr.
  - unfold owned_by in E. case_bool_decide; injection E as _ <-.
    + by rewrite lookup_insert_eq.
    + by rewrite Hr.
  - injection E as _ <-. by rewrite Hr.
Qed.

Lemma answer_released_closes answer : closes (answer_released id owner answer).
Proof. apply closes_first; [apply release_closes|]. intros _. apply keep_ret. Qed.

Lemma keep_update (f : Z -> X -> bool * ledger) :
  (forall now s, exists i cond g, f now s = update_where i cond g (ledger_of s)
     /\ forall r, lease_owner (g r) <> Some owner \/ lease_owner (g r) = lease_owner r) ->
  preserves unclaimed (ledger_statement f).
Proof.
  intros Hf. apply keep_statement; [apply (und_begin law)|]. intros now s Hs.
  destruct (Hf now s) as (i & cond & g & -> & Hg). apply unclaimed_set. unfold unclaimed in Hs.
  unfold update_where. destruct (ledger_of s !! i) as [r|] eqn:Hr; [|done]. destruct (cond r); [|done].
  simpl. destruct (decide (i = id)) as [->|]; [|by rewrite lookup_insert_ne].
  rewrite lookup_insert_eq. rewrite Hr in Hs. destruct (Hg r) as [|Hl]; [done|by rewrite Hl].
Qed.

Lemma keep_release i o : preserves unclaimed (release_claim i o).
Proof.
  apply keep_bind; [|intros; apply keep_ret]. apply keep_update. intros now s.
  exists i, (owned_by o), (released_row now). split; [done|]. by left.
Qed.

Lemma keep_register d : preserves unclaimed (register_match d).
Proof.
  apply keep_try; [|intros; apply keep_ret]. apply keep_statement; [apply (und_begin law)|].
  intros now s Hs. apply unclaimed_set. unfold unclaimed in Hs. unfold register_discovery.
  destruct (decide (disc_match_id d = id)) as [<-|Hne].
  - destruct (ledger_of s !! disc_match_id d) as [r|] eqn:Hr.
    + destruct (discovery_conflict _ _ _); simpl; [by rewrite Hr|]. by rewrite lookup_insert_eq.
    + simpl. by rewrite lookup_insert_eq.
  - destruct (ledger_of s !! disc_match_id d) as [r|].
    + destruct (discovery_conflict _ _ _); simpl; [done|]. by rewrite lookup_insert_ne.
    + simpl. by rewrite lookup_insert_ne.
Qed.

(** Programs that leave the claims of this owner alone. *)
Ltac stay_by tac :=
  repeat first
    [ tac | apply keep_ret | apply keep_release | apply keep_register
    | apply keep_read; apply (und_begin law) | apply keep_try; [|intros] | apply keep_bind; [|intros]
    | apply (und_relay law) | apply (und_rows law) | apply (und_finalize law) | apply (und_project law)
    | apply (und_project_all law) | progress cbn zeta | case_match ].
Ltac stay := stay_by fail.

Lemma keep_projected i : preserves unclaimed (answer_projected i).
Proof. unfold answer_projected, ensure_projected. stay. Qed.

Lemma keep_durable i : preserves unclaimed (facts_are_durable i).
Proof. apply keep_read, (und_begin law). Qed.

Lemma keep_each players : preserves unclaimed (fetch_each players).
Proof. induction players; simpl; unfold fetch_history, call_rows; stay_by ltac:(apply IHplayers). Qed.

Lemma keep_actions i queue actions f : preserves unclaimed (fetch_actions i queue actions f).
Proof.
  revert f. induction actions as [|[] r IH]; intros f; simpl; unfold fetch_detail, fetch_roster, fetch_demo,
    call_rows; stay_by ltac:(first [apply IH|apply keep_each]).
Qed.

Lemma keep_acquire i e : preserves unclaimed (acquire_evidence i e).
Proof.
  unfold acquire_evidence, execute_match_lifecycle_fetches, resume_recovery, fetch_detail.
  stay_by ltac:(apply keep_actions).
Qed.

Lemma keep_unclaimed i : preserves unclaimed (ingest_unclaimed i).
Proof. unfold ingest_unclaimed. stay_by ltac:(first [apply keep_durable|apply keep_projected]). Qed.

Lemma keep_claimed source o e : preserves unclaimed (ingest_claimed id source o e).
Proof.
  unfold ingest_claimed, answer_released, store_payload, project_finalized.
  stay_by ltac:(first [apply keep_projected|apply keep_acquire|apply keep_durable]).
Qed.

Lemma claimed_closes source e : closes (ingest_claimed id source owner e).
Proof.
  unfold ingest_claimed. destruct (facts_durable e).
  - apply closes_first; [apply release_closes|]. intros _. apply keep_projected.
  - apply closes_last. intros [v|]; [|apply answer_released_closes]. cbn zeta.
    case_bool_decide; [apply answer_released_closes|]. case_bool_decide; [apply answer_released_closes|].
    destruct (from_relay_value v) as [payload|]; [|apply answer_released_closes]. unfold store_payload.
    destruct (negb _); [apply answer_released_closes|]. apply closes_last. intros [population|]; [|apply answer_released_closes].
    apply closes_last. intros [[]|]; [|apply answer_released_closes].
    apply closes_first; [apply release_closes|]. intros [].
    apply keep_bind; [apply keep_durable|]. intros. stay.
Qed.

(** Claiming under a name: evidence is only answered with the claim taken. *)
Lemma claim_outcome source o s :
  unclaimed s ->
  match claim_match id source o s with
  | (Ok None, s') => unclaimed s'
  | (Ok (Some _), s') => o <> owner -> unclaimed s'
  | (Err _, _) => False
  end.
Proof.
  intros Hs. unfold claim_match, ledger_statement, ledger_read. rewrite run_try, run_bind.
  pose proof (und_begin law s Hs) as Hb. pose proof (und_answers law s) as Hok.
  destruct (db_begin s) as [[now|] s1]; [|done]. simpl in Hb |- *. unfold on_ledger.
  destruct (claim_statement _ _ _ _ _ _) as [[row|] l] eqn:Ec; simpl.
  - assert (o <> owner -> unclaimed (set_ledger l s1)) as Hl.
    { intros Ho. apply unclaimed_set. unfold claim_statement in Ec. unfold unclaimed in Hb.
      destruct (ledger_of s1 !! id) as [r|]; [destruct (claimable _ _ _); [|done]|]; injection Ec as _ <-;
        rewrite lookup_insert_eq; simpl; congruence. }
    set (s2 := set_ledger l s1) in *. clearbody s2.
    pose proof (@keep_read unclaimed (und_begin law) _ tables_of) as Hread.
    assert (forall x : X, is_ok (fst (ledger_read tables_of x)) = true) as Hrd.
    { intros x. unfold ledger_read, ledger_statement. rewrite run_bind.
      pose proof (und_answers law x) as Hx. by destruct (fst (db_begin x)). }
    change (ledger_statement _) with (ledger_read tables_of). rewrite run_try.
    pose proof (Hrd s2) as H2. pose proof (Hread s2) as K2.
    destruct (ledger_read tables_of s2) as [[t|] s3]; [|done]. simpl in K2 |- *. rewrite run_try.
    pose proof (Hrd s3) as H3. pose proof (Hread s3) as K3.
    destruct (ledger_read tables_of s3) as [[h|] s4]; [|done]. simpl in K3 |- *. auto.
  - apply unclaimed_set. unfold claim_statement in Ec. unfold unclaimed in Hb.
    destruct (ledger_of s1 !! id) as [r|] eqn:Hr; [destruct (claimable _ _ _)|]; [done| |done].
    injection Ec as <-. by rewrite Hr.
Qed.

Lemma registered_unclaimed source s : unclaimed s -> unclaimed (snd (ingest_registered id source s)).
Proof.
  intros Hs. unfold ingest_registered. rewrite run_bind.
  assert (unclaimed (snd (draw_owner s))) as Hd.
  { destruct s as [d w]. unfold draw_owner. simpl. by destruct (new_uuid w). }
  set (o := fst (draw_owner s)). rewrite run_bind.
  pose proof (claim_outcome (source_as_database source) o _ Hd) as Hc.
  destruct (claim_match _ _ _ _) as [[[e|]|m] s1]; simpl; [| by apply keep_unclaimed|done].
  destruct (decide (o = owner)) as [->|Hne]; [apply claimed_closes|]. apply keep_claimed. by apply Hc.
Qed.

(** C7. The claim of a match never outlives the call that takes it: on every path,
    whatever relay, fact store and projections answer, an owner that did not
    hold the match before the call does not hold it after, as long as the
    database answers and no other process claims under its name. *)
Theorem claim_ends_with_call request s :
  mi_match_id request = id -> unclaimed s -> unclaimed (snd (ingest_match request s)).
Proof.
  intros Hid. revert s. change (preserves unclaimed (ingest_match request)). unfold ingest_match. rewrite Hid.
  stay_by ltac:(first [apply keep_projected|apply keep_durable|intros s Hs; by apply registered_unclaimed]).
Qed.
End lease.

(** ** Ready means projected *)

Section ready.
Variable id : Z.

(** The row of the match has the projection stage of its population. *)
Definition projected_in (s : X) : Prop :=
  exists r stage, ledger_of s !! id = Some r
    /\ projection_stage (population_from_database (row_population r)) = Some stage
    /\ has_stage stage r = true.

(** A projection that succeeds has recorded its stage, and waiting for the
    database loses none. *)
Record projections_recorded : Prop := {
  rec_begin : preserves projected_in db_begin;
  rec_ranked : forall s, is_ok (fst (project_match id s)) = true -> projected_in (snd (project_match id s));
  rec_others : forall s,
    is_ok (fst (project_all_for_match id s)) = true -> projected_in (snd (project_all_for_match id s));
}.
Hypothesis law : projections_recorded.

Definition truthful (c : ST X RequestedMatchResult) : Prop :=
  forall s, rm_status (fst (c s)) = Ready -> projected_in (snd (c s)).

Lemma truthful_last {A} (c : ST X A) (k : A -> ST X RequestedMatchResult) :
  (forall a, truthful (k a)) -> truthful (c ≫= k).
Proof. intros Hk s. rewrite run_bind. apply Hk. Qed.

Lemma truthful_ret r : rm_status r <> Ready -> truthful (mret r).
Proof. by intros Hr s Hs. Qed.

Lemma truthful_released owner r : rm_status r <> Ready -> truthful (answer_released id owner r).
Proof. intros Hr. apply truthful_last. intros _. by apply truthful_ret. Qed.

Lemma stage_projected r s stage :
  ledger_of s !! id = Some r ->
  projection_stage (population_from_database (row_population r)) = Some stage ->
  has_stage stage r = true -> projected_in s.
Proof. intros. by exists r, stage. Qed.

Lemma ensured s : is_ok (fst (ensure_projected id s)) = true -> projected_in (snd (ensure_projected id s)).
Proof.
  unfold ensure_projected. rewrite run_try. unfold ledger_read, ledger_statement. rewrite run_bind.
  destruct (fst (db_begin s)) as [now|]; [|done]. unfold on_ledger. simpl. rewrite set_ledger_same.
  set (s1 := snd (db_begin s)). destruct (ledger_of s1 !! id) as [r|] eqn:Hr; [|done]. cbn zeta.
  destruct (String.eqb_spec (row_population r) "ranked") as [Hp|_];
    [|destruct (String.eqb_spec (row_population r) "casual") as [Hp|_];
      [|destruct (String.eqb_spec (row_population r) "special") as [Hp|_]; [|done]]];
    (destruct (has_stage _ r) eqn:Hst;
     [intros _; eapply stage_projected; [exact Hr|by rewrite Hp|done]
     |first [apply (rec_ranked law)|apply (rec_others law)]]).
Qed.

Lemma truthful_projected : truthful (answer_projected id).
Proof.
  intros s. unfold answer_projected. rewrite run_bind. pose proof (ensured s) as He.
  destruct (fst (ensure_projected id s)); [|done]. intros _. by apply He.
Qed.

Lemma keep_projection_release owner : preserves projected_in (release_claim id owner).
Proof.
  apply keep_bind; [|intros; apply keep_ret]. apply keep_statement; [apply (rec_begin law)|].
  intros now s (r & stage & Hr & Hp & Hs). unfold release, update_where. rewrite Hr.
  destruct (owned_by owner r); simpl.
  - exists (released_row now r), stage. rewrite ledger_of_set, lookup_insert_eq. done.
  - exists r, stage. by rewrite ledger_of_set.
Qed.

Lemma truthful_store source owner payload : truthful (store_payload id source owner payload).
Proof.
  unfold store_payload. destruct (negb _); [by apply truthful_released|].
  apply truthful_last. intros [population|]; [|by apply truthful_released].
  intros s. rewrite run_bind.
  assert (is_ok (fst (project_finalized id population s)) = true ->
          projected_in (snd (project_finalized id population s))) as Hp
    by (destruct population; first [apply (rec_ranked law)|apply (rec_others law)|done]).
  destruct (fst (project_finalized id population s)) as [[]|]; [|by apply truthful_released].
  specialize (Hp eq_refl). rewrite run_bind. intros _.
  apply (keep_bind projected_in); [apply keep_read, (rec_begin law)|intros; apply keep_ret|].
  by apply keep_projection_release.
Qed.

Lemma truthful_claimed source owner e : truthful (ingest_claimed id source owner e).
Proof.
  unfold ingest_claimed. destruct (facts_durable e); [apply truthful_last; intros _; apply truthful_projected|].
  apply truthful_last. intros [v|]; [|by apply truthful_released]. cbn zeta.
  case_bool_decide; [by apply truthful_released|]. case_bool_decide; [by apply truthful_released|].
  destruct (from_relay_value v); [apply truthful_store|by apply truthful_released].
Qed.

Lemma ready_projected request s :
  mi_match_id request = id ->
  rm_status (fst (ingest_match request s)) = Ready -> projected_in (snd (ingest_match request s)).
Proof.
  intros Hid. revert s. change (truthful (ingest_match request)). unfold ingest_match. rewrite Hid.
  destruct (id <=? 0); [by apply truthful_ret|].
  apply truthful_last. intros [[|]|]; [apply truthful_projected| |by apply truthful_ret].
  apply truthful_last. intros [r|]; [|by apply truthful_ret].
  destruct (negb _); [apply truthful_projected|].
  apply truthful_last. intros owner. apply truthful_last. intros [[e|]|]; [apply truthful_claimed| |by apply truthful_ret].
  apply truthful_last. intros [[|]|]; [apply truthful_projected|by apply truthful_ret..].
Qed.
End ready.
End spec.
