(* ===== verification/RequestedMatchDrain.v ===== *)
(** * The resumption of known matches, end to end

    The pipeline with RequestedMatch as its resumption of a match: what one
    recovery answers is true of the ledger or of the relay, and a resumption
    that succeeds leaves none of its matches open. *)

From S2P Require Import Prelude Json Lifecycle HourlyIngest Outage Pipeline PipelineSpec RequestedMatch.
From S2P Require Import RequestedMatchSpec.

(** ** Settled rows *)

Definition projected_row (r : IngestRow) : bool :=
  match projection_stage (population_from_database (row_population r)) with
  | Some stage => has_stage stage r
  | None => false
  end.

(** The pipeline selects no work for the match of this row. *)
Definition closed_row (r : IngestRow) : bool :=
  String.eqb (row_status r) "complete"
  || (String.eqb (row_status r) "limited"
      && (negb (String.eqb (row_acquisition_state r) "unavailable")
          || bool_decide (row_error_message r = Some TERMINAL_NO_COMPLETED_MATCH_REASON))).

Definition settled_row (r : IngestRow) : bool := projected_row r || closed_row r.

Lemma requires_closed l id :
  requires_canonical_work l id = match l !! id with Some r => negb (closed_row r) | None => true end.
Proof. done. Qed.

Lemma projected_known r : projected_row r = true -> String.eqb (row_population r) "unknown" = false.
Proof.
  unfold projected_row. intros Hp. destruct (String.eqb_spec (row_population r) "unknown") as [E|]; [|done].
  by rewrite E in Hp.
Qed.

Lemma settled_released now r : settled_row (released_row now r) = settled_row r.
Proof. done. Qed.

Lemma closed_not_reopened r : closed_row r = true -> reopenable r = false.
Proof.
  unfold closed_row, reopenable. destruct (String.eqb_spec (row_status r) "complete") as [->|_]; [done|].
  destruct (String.eqb (row_status r) "limited"); [|done]. simpl.
  destruct (String.eqb (row_acquisition_state r) "unavailable"); [|done]. simpl. by intros ->.
Qed.

Lemma settled_registered now d incoming r :
  settled_row r = true -> settled_row (registered_row now d incoming r) = true.
Proof.
  unfold settled_row. intros [Hp|Hc]%orb_true_iff; apply orb_true_iff.
  - left. pose proof (projected_known _ Hp) as Hk. unfold projected_row, registered_row, has_stage in *. simpl.
    by rewrite Hk.
  - right. pose proof (closed_not_reopened _ Hc) as Hr. unfold closed_row, registered_row in *. simpl.
    by rewrite Hr.
Qed.

Lemma closed_terminal r : closed_row r = true -> terminal_status (row_status r) = true.
Proof.
  unfold closed_row, terminal_status. intros [->|[->%String.eqb_eq _]%andb_true_iff]%orb_true_iff; [done|].
  by rewrite orb_true_r.
Qed.

Lemma settled_claimed now source owner secs r :
  settled_row r = true -> terminal_status (row_status r) = false ->
  settled_row (claimed_row now source owner secs r) = true.
Proof.
  unfold settled_row. intros [Hp|Hc]%orb_true_iff Ht; [|by rewrite (closed_terminal _ Hc) in Ht].
  apply orb_true_iff. by left.
Qed.

Lemma closed_unavailable now q source r :
  closed_row (unavailable_row now q source TERMINAL_NO_COMPLETED_MATCH_REASON r) = true.
Proof.
  unfold closed_row. apply orb_true_iff. right. apply andb_true_iff. split; [done|].
  apply orb_true_iff. right. by apply bool_decide_eq_true.
Qed.

Definition settled_in (i : Z) (l : ledger) : Prop := exists r, l !! i = Some r /\ settled_row r = true.

(** A change of one row that keeps it settled keeps every match settled. *)
Lemma settled_insert i j r' (l : ledger) :
  settled_in i l -> (forall r, l !! j = Some r -> settled_row r = true -> settled_row r' = true) ->
  settled_in i (<[j := r']> l).
Proof.
  intros (r & Hr & Hs) Hj. destruct (decide (i = j)) as [->|Hne].
  - exists r'. rewrite lookup_insert_eq. split; [done|]. by apply (Hj r).
  - exists r. by rewrite lookup_insert_ne.
Qed.

Lemma settled_release i now id owner l : settled_in i l -> settled_in i (snd (release now id owner l)).
Proof.
  intros Hs. unfold release, update_where. destruct (l !! id) as [r|] eqn:Hr; [|done].
  destruct (owned_by owner r); [|done]. apply settled_insert; [done|]. intros r'. rewrite Hr. by intros [= <-].
Qed.

Lemma settled_register i now types d l : settled_in i l -> settled_in i (snd (register_discovery now types d l)).
Proof.
  intros Hs. unfold register_discovery. destruct (l !! disc_match_id d) as [r|] eqn:Hr.
  - destruct (discovery_conflict _ _ _); [done|]. apply settled_insert; [done|]. intros r'. rewrite Hr.
    intros [= <-]. apply settled_registered.
  - apply settled_insert; [done|]. intros r'. by rewrite Hr.
Qed.

Lemma settled_claim i now id source owner secs l :
  settled_in i l -> settled_in i (snd (claim_statement now id source owner secs l)).
Proof.
  intros Hs. unfold claim_statement. destruct (l !! id) as [r|] eqn:Hr.
  - destruct (claimable now owner r) eqn:Hc; [|done]. apply settled_insert; [done|]. intros r'. rewrite Hr.
    intros [= <-] Hr'. apply settled_claimed; [done|]. unfold claimable in Hc.
    by apply andb_true_iff in Hc as [?%negb_true_iff _].
  - apply settled_insert; [done|]. intros r'. by rewrite Hr.
Qed.

Lemma settled_unavailable i now id q source l :
  settled_in i l \/ i = id ->
  settled_in i (mark_terminal_unavailable now id q source TERMINAL_NO_COMPLETED_MATCH_REASON l).
Proof.
  unfold mark_terminal_unavailable. set (f := unavailable_row _ _ _ _).
  assert (forall r, settled_row (f r) = true) as Hf.
  { intros r. unfold settled_row, f. rewrite closed_unavailable. apply orb_true_r. }
  destruct (l !! id) as [r|] eqn:Hr.
  - destruct (String.eqb (row_status r) "complete") eqn:Hc.
    + intros [Hs| ->]; [done|]. exists r. split; [done|]. unfold settled_row, closed_row. rewrite Hc.
      by rewrite orb_true_r.
    + intros [Hs| ->]; [by apply settled_insert|]. exists (f r). by rewrite lookup_insert_eq.
  - intros [Hs| ->]; [by apply settled_insert|]. eexists. by rewrite lookup_insert_eq.
Qed.

(** ** Services that undo nothing *)

Section drain.
Context {W : Type} (base : PipelineServices W) (store : MatchStore W).
Abbreviation X := (PipelineDb * W)%type.

#[local] Instance recovering : PipelineServices W := canonical_services base store.
Abbreviation P := (PipelineState W).

Definition settled (i : Z) (x : X) : Prop := settled_in i (ledger_of x).

(** Whatever the pipeline waits for, a settled match stays settled, and a
    projection that succeeds has recorded its stage. *)
Record keeps_settled : Prop := {
  ks_begin : forall i, preserves (settled i) (@db_begin W base);
  ks_relay : forall i op args consumer, preserves (settled i) (@relay_call W base op args consumer);
  ks_rows : forall i op args consumer, preserves (settled i) (@relay_post_rows W store op args consumer);
  ks_finalize : forall i p source, preserves (settled i) (@facts_finalize W base p source);
  ks_project : forall i id, preserves (settled i) (@project_match W base id);
  ks_project_all : forall i id, preserves (settled i) (@project_all_for_match W base id);
  ks_recorded : forall id, @projections_recorded W base id;
}.
Hypothesis law : keeps_settled.

Lemma keep_settled_statement {A} i (f : Z -> X -> A * ledger) :
  (forall now s, settled i s -> settled_in i (snd (f now s))) ->
  preserves (settled i) (@ledger_statement W base A f).
Proof.
  intros Hf. apply (@keep_statement W base); [apply (ks_begin law)|]. intros now s Hs.
  unfold settled. rewrite ledger_of_set. by apply Hf.
Qed.

Ltac keep_by tac :=
  repeat first
    [ tac | apply keep_ret
    | apply keep_settled_statement; intros; simpl;
      first [done|by apply settled_release|by apply settled_register|by apply settled_claim]
    | apply keep_try; [|intros] | apply keep_bind; [|intros]
    | apply (ks_relay law) | apply (ks_rows law) | apply (ks_finalize law) | apply (ks_project law)
    | apply (ks_project_all law) | progress cbn zeta | case_match ].

Lemma settled_projected i id : preserves (settled i) (@answer_projected W base id).
Proof. unfold answer_projected, ensure_projected, ledger_read. keep_by fail. Qed.

Lemma settled_checked i id : preserves (settled i) (@facts_are_durable W base store id).
Proof. unfold facts_are_durable, ledger_read. keep_by fail. Qed.

Lemma settled_released_claim i id owner : preserves (settled i) (@release_claim W base id owner).
Proof. unfold release_claim. keep_by fail. Qed.

Lemma settled_each i players : preserves (settled i) (@fetch_each W store players).
Proof. induction players; simpl; unfold fetch_history, call_rows; keep_by ltac:(apply IHplayers). Qed.

Lemma settled_actions i id queue actions f : preserves (settled i) (@fetch_actions W base store id queue actions f).
Proof.
  revert f. induction actions as [|[] r IH]; intros f; simpl; unfold fetch_detail, fetch_roster, fetch_demo,
    call_rows; keep_by ltac:(first [apply IH|apply settled_each]).
Qed.

Lemma settled_acquire i id e : preserves (settled i) (@acquire_evidence W base store id e).
Proof.
  unfold acquire_evidence, execute_match_lifecycle_fetches, resume_recovery, fetch_detail.
  keep_by ltac:(apply settled_actions).
Qed.

Lemma settled_ingest i request : preserves (settled i) (@ingest_match W base store request).
Proof.
  assert (forall o e, preserves (settled i) (@ingest_claimed W base store (mi_match_id request)
    (mi_source request) o e)) as Hclaimed.
  { intros o e. unfold ingest_claimed, answer_released, store_payload, project_finalized.
    keep_by ltac:(first [apply settled_projected|apply settled_acquire|apply settled_checked
                        |apply settled_released_claim]). }
  unfold ingest_match, register_match, ingest_registered, claim_match, ledger_read, ingest_unclaimed.
  keep_by ltac:(first [apply settled_projected|apply settled_checked|apply Hclaimed|
    (intros [d w]; unfold draw_owner; simpl; by destruct (new_uuid w))]).
Qed.

(** ** One recovery *)

(** What a service sees of the pipeline's state. *)
Definition seen (s : P) : X := (pdb s, world s).

(** A recovery that succeeds has settled its match; one that ends it for good
    names the match and the reason for which the ledger closes matches. *)
Definition sound_outcome (id : Z) (o : result unit PipelineError) (s : P) : Prop :=
  match o with
  | Ok _ => settled id (seen s)
  | Err (PipelineTerminalFacts j reason) => j = id /\ reason = TERMINAL_NO_COMPLETED_MATCH_REASON
  | Err _ => True
  end.

Lemma projected_settled id (x : X) : projected_in id x -> settled id x.
Proof.
  intros (r & stage & Hr & Hp & Hs). exists r. split; [done|]. unfold settled_row, projected_row.
  by rewrite Hp, Hs.
Qed.

Lemma recover_run id q source (s : P) :
  recover_discovered_match id q source s
  = let request := {| mi_match_id := id; mi_queue_id := Some q; mi_source := source |} in
    let r := fst (@ingest_match W base store request (seen s)) in
    let x := snd (@ingest_match W base store request (seen s)) in
    (match rm_status r with
     | Ready => Ok tt
     | NotFound => Err (PipelineTerminalFacts id TERMINAL_NO_COMPLETED_MATCH_REASON)
     | _ => Err (PipelineFacts (default ("match " +:+ pretty id +:+ " did not reach the durable fact boundary")
              (rm_error r)))
     end, {| pdb := fst x; progress := progress s; world := snd x |}).
Proof.
  unfold recover_discovered_match, mbind, ST_bind, service, seen. simpl.
  destruct (ingest_match _ (pdb s, world s)) as [r [d w]]. simpl. by destruct (rm_status r).
Qed.

Lemma recover_sound id q source (s : P) :
  sound_outcome id (fst (recover_discovered_match id q source s)) (snd (recover_discovered_match id q source s)).
Proof.
  rewrite recover_run. cbn zeta. set (request := {| mi_match_id := id; mi_queue_id := _; mi_source := _ |}).
  pose proof (@ready_projected W base store id (ks_recorded law id) request (seen s) eq_refl) as Hr.
  destruct (ingest_match request (seen s)) as [r [d w]]. simpl in *.
  destruct (rm_status r); simpl; try done. by apply projected_settled, Hr.
Qed.

(** A recovery answers success only when the ledger holds the projection of
    the match, and ends a match for good only when the relay's last answer in
    this very recovery was that the match is dropped. *)
Theorem recovery_is_truthful (log : W -> list relay_entry) id q source (s : P) :
  @logging W base store log -> @projections_recorded W base id ->
  let o := fst (recover_discovered_match id q source s) in
  let s' := snd (recover_discovered_match id q source s) in
  (o = Ok tt -> projected_in id (seen s')) /\
  (forall j reason, o = Err (PipelineTerminalFacts j reason) ->
     j = id /\ reason = TERMINAL_NO_COMPLETED_MATCH_REASON /\
     exists l v, log (world s') = log (world s) ++ l /\ last_answer l v /\ relay_terminal_status v = Some "dropped").
Proof.
  intros Hlog Hrec. rewrite recover_run. cbn zeta.
  set (request := {| mi_match_id := id; mi_queue_id := _; mi_source := _ |}).
  pose proof (@ready_projected W base store id Hrec request (seen s) eq_refl) as Hr.
  destruct (@contract_match W base store log Hlog request (seen s)) as (l & El & [_ _ Hst]).
  destruct (ingest_match request (seen s)) as [r [d w]]. simpl in *. split.
  - destruct (rm_status r); [|done..]. intros _. by apply Hr.
  - intros j reason. destruct (rm_status r); [done| |done|done]. intros [= <- <-].
    destruct Hst as (v & Hl & Hv). eauto 10.
Qed.

(** ** The windows *)

Definition settles (i : Z) {A} (c : ST P A) : Prop := forall s, settled i (seen s) -> settled i (seen (snd (c s))).

Lemma settles_ret i {A} (a : A) : settles i (mret a).
Proof. by intros s. Qed.

Lemma settles_bind i {A B} (c : ST P A) (k : A -> ST P B) :
  settles i c -> (forall a, settles i (k a)) -> settles i (c ≫= k).
Proof.
  intros Hc Hk s Hs. unfold mbind, ST_bind. specialize (Hc s Hs). destruct (c s) as [a s1]. by apply Hk.
Qed.

Lemma settles_try i {A B E} (c : ST P (result A E)) (k : A -> ST P (result B E)) :
  settles i c -> (forall a, settles i (k a)) -> settles i (try_bind c k).
Proof.
  intros Hc Hk s Hs. unfold try_bind. specialize (Hc s Hs). destruct (c s) as [[a|e] s1]; [by apply Hk|done].
Qed.

Lemma settles_service i {A} (c : ST X A) : preserves (settled i) c -> settles i (service c).
Proof.
  intros Hc s Hs. unfold service. specialize (Hc (seen s) Hs). unfold seen in *.
  by destruct (c (pdb s, world s)) as [a [d w]].
Qed.

Lemma settles_hour_statement i {A} (f : Z -> HourTables -> A * HourTables) :
  (forall now t, settled_in i (ingest t) -> settled_in i (ingest (snd (f now t)))) ->
  settles i (hour_statement f).
Proof.
  intros Hf. apply settles_bind; [apply settles_service, (ks_begin law)|]. intros [now|m]; [|apply settles_ret].
  apply settles_bind; [|intros; apply settles_ret].
  intros s Hs. specialize (Hf now (hour_tables (pdb s)) Hs). unfold on_db.
  by destruct (f now (hour_tables (pdb s))).
Qed.

Lemma settles_recover i id q source : settles i (recover_discovered_match id q source).
Proof.
  apply settles_bind; [apply settles_service, settled_ingest|]. intros r. destruct (rm_status r); apply settles_ret.
Qed.

Lemma settles_checkpointed i id : settles i (checkpointed id).
Proof. by intros s. Qed.

Lemma settles_terminal i id q source :
  settles i (record_terminal_outcome (PipelineTerminalFacts id TERMINAL_NO_COMPLETED_MATCH_REASON) q source).
Proof.
  apply settles_try; [|intros _; apply settles_bind; [apply settles_checkpointed|intros; apply settles_ret]].
  apply settles_hour_statement. intros now t Ht. simpl. apply settled_unavailable. by left.
Qed.

Lemma terminal_settles id q source (s : P) b s' :
  record_terminal_outcome (PipelineTerminalFacts id TERMINAL_NO_COMPLETED_MATCH_REASON) q source s = (Ok b, s') ->
  b = true /\ settled id (seen s').
Proof.
  intros E. apply try_ok in E as (a & s1 & E1 & E2).
  apply bind_eq in E2 as (u & s2 & E2 & E3). injection E3 as <- <-. split; [done|].
  assert (settled id (seen s1)) as Hs.
  { apply bind_eq in E1 as (now & s0 & _ & E1). destruct now as [now|]; [|done].
    apply bind_eq in E1 as (u' & s3 & E1 & E4). injection E4 as _ <-. unfold on_db in E1. injection E1 as _ <-.
    unfold settled. apply settled_unavailable. by right. }
  pose proof (settles_checkpointed id id s1 Hs) as Hc. by rewrite E2 in Hc.
Qed.

Lemma recovered_each q source ids (s : P) :
  let outcomes := fst (recover_each q source ids s) in
  let s' := snd (recover_each q source ids s) in
  map fst outcomes = ids /\ (forall i, settled i (seen s) -> settled i (seen s'))
  /\ forall id o, (id, o) ∈ outcomes -> sound_outcome id o s'.
Proof.
  revert s. induction ids as [|id r IH]; intros s; simpl.
  { split; [done|]. split; [done|]. by intros ? ? ?%elem_of_nil. }
  unfold mbind, ST_bind.
  pose proof (recover_sound id q source s) as Hsound. pose proof (fun i => settles_recover i id q source s) as Hkeep.
  destruct (recover_discovered_match id q source s) as [o s1]. simpl in Hsound, Hkeep.
  destruct (IH s1) as (E & Hk & Hs). clear IH.
  destruct (recover_each q source r s1) as [rest s2]. simpl in *. split; [by rewrite E|].
  split; [auto|]. intros i oi [[= -> ->]|Hin]%elem_of_cons; [|by apply Hs].
  destruct o as [|[| | |]]; simpl in *; auto.
Qed.

(** The tallies after some outcomes: without a new failure all are settled. *)
Lemma settled_each_outcome q source outcomes d (s : P) d' s' :
  (forall id o, (id, o) ∈ outcomes -> sound_outcome id o s) ->
  settle_each q source outcomes d s = (Ok d', s') ->
  (forall i, settled i (seen s) -> settled i (seen s')) /\
  exists fl, failures d' = failures d ++ fl /\
    (fl = [] -> forall id, id ∈ map fst outcomes -> settled id (seen s')).
Proof.
  revert d s. induction outcomes as [|[id o] r IH]; intros d s Ho E; simpl in E.
  { injection E as <- <-. split; [done|]. exists []. rewrite app_nil_r. split; [done|].
    by intros _ ? ?%elem_of_nil. }
  apply bind_eq in E as (u & s1 & E1 & E). apply try_ok in E as (d1 & s2 & E2 & E).
  assert (forall i, settled i (seen s) -> settled i (seen s1)) as K1.
  { intros i Hi. destruct o; [|by injection E1 as _ <-].
    pose proof (settles_checkpointed i id s Hi) as Hc. by rewrite E1 in Hc. }
  assert ((forall i, settled i (seen s1) -> settled i (seen s2)) /\ exists fl, failures d1 = failures d ++ fl /\
    (fl = [] -> settled id (seen s2))) as (K2 & fl1 & F1 & S1).
  { assert (sound_outcome id o s) as Hid by (apply Ho; by left).
    destruct o as [u'|e]; simpl in E2.
    - injection E2 as <- <-. split; [done|]. exists []. rewrite app_nil_r. split; [done|]. intros _. by apply K1.
    - apply try_ok in E2 as (b & s3 & E2 & E3). injection E3 as <- <-.
      destruct e as [m|e|m|j reason];
        try (injection E2 as <- <-; split; [done|]; eexists; split; [done|done]).
      destruct Hid as [-> ->]. split.
      + intros i Hi. pose proof (settles_terminal i id q source s1 Hi) as Ht. by rewrite E2 in Ht.
      + apply terminal_settles in E2 as [-> Hs]. exists []. by rewrite app_nil_r. }
  destruct (IH d1 s2) as (K3 & fl2 & F2 & S2); [|exact E|].
  { intros i oi Hin. assert (sound_outcome i oi s) as Hs by (apply Ho; by right).
    destruct oi as [|[| | |]]; simpl in *; auto. }
  split; [auto|]. exists (fl1 ++ fl2). rewrite F2, F1, app_assoc. split; [done|].
  intros [-> ->]%app_nil i [->|Hin]%elem_of_cons; [by apply K3, S1|by apply S2].
Qed.

Lemma settled_windows ws q date hour source d (s : P) d' s' :
  resume_windows ws q date hour source d s = (Ok d', s') ->
  (forall i, settled i (seen s) -> settled i (seen s')) /\
  exists fl, failures d' = failures d ++ fl /\ (fl = [] -> forall id, id ∈ concat ws -> settled id (seen s')).
Proof.
  revert d s. induction ws as [|window r IH]; intros d s E; simpl in E.
  { injection E as <- <-. split; [done|]. exists []. rewrite app_nil_r. split; [done|].
    by intros _ ? ?%elem_of_nil. }
  apply try_ok in E as (u & s1 & E1 & E). apply bind_eq in E as (outcomes & s2 & E2 & E).
  apply try_ok in E as (d1 & s3 & E3 & E).
  assert (forall i, settled i (seen s) -> settled i (seen s1)) as K1.
  { intros i Hi. assert (settled i (seen (snd (hour_statement
      (fun now t => (tt, refresh_hourly_ingest_lease now (hour_key date hour q) t)) s)))) as Hr.
    - apply settles_hour_statement; [|done]. intros now t Ht. simpl.
      unfold refresh_hourly_ingest_lease, update_hour.
      destruct (hours t !! _) as [row|]; [destruct (is_fetching row)|]; exact Ht.
    - by rewrite E1 in Hr. }
  destruct (recovered_each q source window s1) as (Em & K2 & Hs). rewrite E2 in Em, K2, Hs. simpl in *.
  destruct (settled_each_outcome _ _ _ _ _ _ _ Hs E3) as (K3 & fl1 & F1 & S1).
  destruct (IH _ _ E) as (K4 & fl2 & F2 & S2). split; [auto|].
  exists (fl1 ++ fl2). rewrite F2, F1, app_assoc. split; [done|].
  intros [-> ->]%app_nil i [Hin|Hin]%elem_of_app; [|by apply S2].
  apply K4. apply S1; [done|]. by rewrite Em.
Qed.

Lemma concat_windows n ids : (length ids <= n)%nat -> concat (windows n ids) = ids.
Proof.
  revert ids. induction n as [|m IH]; intros [|x r] Hl; try done; simpl in Hl; [lia|].
  change (take MATCH_DETAIL_PROTOCOL_BATCH_SIZE (x :: r)
          ++ concat (windows m (drop MATCH_DETAIL_PROTOCOL_BATCH_SIZE (x :: r))) = x :: r).
  rewrite IH; [apply take_drop|]. rewrite length_drop. simpl. lia.
Qed.

(** C6. A resumption that succeeds leaves none of its matches open: each of them
    has its projection recorded, or its lifecycle is closed (complete, limited,
    or unavailable for good), so that the pipeline selects no work for it. *)
Theorem resumed_matches_settled ids q date hour source (s : P) n s' :
  Forall in_i64 ids ->
  resume_discovered_continuously ids q date hour source s = (Ok n, s') ->
  forall id, id ∈ ids -> 0 < id -> settled id (seen s').
Proof.
  intros Hr E id Hid Hpos. unfold resume_discovered_continuously in E.
  apply bind_eq in E as (cumulative & s1 & _ & E). destruct cumulative as [done0|]; [|done].
  apply try_ok in E as (work & s2 & Ew & E). apply try_ok in E as (d & s3 & E3 & E). injection E as Er <-.
  destruct ids as [|id0 rest]; [by apply elem_of_nil in Hid|]. set (ids := id0 :: rest) in *.
  assert (exists x1, work = select_canonical_work ids (ledger_of x1) /\ (settled id x1 -> settled id (seen s2)))
    as (x1 & -> & K1).
  { apply bind_eq in Ew as (begun & s4 & _ & Ew). destruct begun as [now|]; [|done].
    apply bind_eq in Ew as (w & s5 & E5 & Ew). injection Ew as -> <-. unfold on_db in E5.
    injection E5 as <- <-. by exists (seen s4). }
  destruct (settled_windows _ _ _ _ _ _ _ _ _ E3) as (K2 & fl & Hf & Hs).
  simpl in Hf. assert (fl = []) as ->.
  { unfold drain_result in Er. destruct (failures d); [by symmetry in Hf|done]. }
  rewrite concat_windows in Hs by done.
  rewrite select_canonical_work_eq in Hs by done. simpl batch_ids in Hs. simpl resume_ids in Hs.
  destruct (requires_canonical_work (ledger_of x1) id) eqn:Hreq.
  - apply Hs; [done|]. apply elem_of_app.
    assert (id ∈ work_ids ids (ledger_of x1)) as Hw by (by apply list_elem_of_filter).
    destruct (ledger_of x1 !! id) as [row|] eqn:Hrow; [right|left]; apply list_elem_of_filter; split; eauto.
  - apply K2, K1. rewrite requires_closed in Hreq. destruct (ledger_of x1 !! id) as [row|] eqn:Hrow; [|done].
    exists row. split; [done|]. apply negb_false_iff in Hreq. unfold settled_row. rewrite Hreq. apply orb_true_r.
Qed.
End drain.

(** * A concrete environment for the lifecycle of one match

    A database that always answers, a relay that logs its calls, delivers every
    match but one it reports as dropped, and a fact store and projections that
    record their stages in the ledger.  The witnesses run on it. *)

Record rm_world := {
  rw_clock : Z;
  rw_log : list relay_entry;
  rw_stored : gset Z;
  rw_uuids : nat;
}.

Definition DROPPED_MATCH : Z := 13.

(** Stages are added, a known population stays. *)
Definition with_stages (stages : list string) (r : IngestRow) : IngestRow :=
  {| row_status := row_status r; row_completed_stages := row_completed_stages r ++ stages;
     row_source := row_source r; row_attempts := row_attempts r;
     row_error_message := row_error_message r; row_queue_id := row_queue_id r;
     row_population := row_population r; row_acquisition_state := row_acquisition_state r;
     detail_attempted_at := detail_attempted_at r; roster_resolved_at := roster_resolved_at r;
     demo_resolved_at := demo_resolved_at r; row_direct_player_count := row_direct_player_count r;
     row_roster_player_count := row_roster_player_count r;
     row_unresolved_player_ids := row_unresolved_player_ids r;
     lease_owner := lease_owner r; lease_until := lease_until r;
     started_at := started_at r; updated_at := updated_at r; completed_at := completed_at r |}.

Abbreviation RX := (PipelineDb * rm_world)%type.

Definition rm_tick (x : RX) : RX :=
  (fst x, {| rw_clock := rw_clock (snd x) + 1; rw_log := rw_log (snd x); rw_stored := rw_stored (snd x);
             rw_uuids := rw_uuids (snd x) |}).

Definition rm_logged (op : string) (args : list value) (answer : result value WorkerRelayError) (x : RX) : RX :=
  (fst x, {| rw_clock := rw_clock (snd x);
             rw_log := rw_log (snd x) ++ [{| re_op := op; re_args := args; re_answer := answer |}];
             rw_stored := rw_stored (snd x); rw_uuids := rw_uuids (snd x) |}).

(** The match the relay delivers for a request. *)
Definition rm_delivery (args : list value) : value :=
  match args with
  | [Array [request]] =>
      let dropped := bool_decide (extract_match_id request = Some DROPPED_MATCH) in
      Array [Object [("status", Str (if dropped then "dropped" else "complete_direct")); ("match", request)]]
  | _ => Null
  end.

Definition rm_payload (v : value) : result Z string :=
  match v with
  | Array [r] => match extract_match_id r with Some id => Ok id | None => Err "no match" end
  | _ => Err "no match"
  end.

(** A stage of a match of this population is recorded. *)
Definition rm_project (populations : list string) (id : Z) (x : RX) : result unit string * RX :=
  match ledger_of x !! id with
  | Some r =>
      match projection_stage (population_from_database (row_population r)) with
      | Some stage =>
          if bool_decide (row_population r ∈ populations)
          then (Ok tt, set_ledger (<[id := with_stages [stage] r]> (ledger_of x)) x)
          else (Err "rejected", x)
      | None => (Err "rejected", x)
      end
  | None => (Err "rejected", x)
  end.

Definition rm_finalize (id : Z) (x : RX) : result MatchPopulation MatchFactError * RX :=
  match ledger_of x !! id with
  | Some r =>
      (Ok (population_from_database (row_population r)),
       let x' := set_ledger (<[id := with_stages ["core"; "player_facts"; "match_bans"] r]> (ledger_of x)) x in
       (fst x', {| rw_clock := rw_clock (snd x); rw_log := rw_log (snd x);
                   rw_stored := {[id]} ∪ rw_stored (snd x); rw_uuids := rw_uuids (snd x) |}))
  | None => (Err (FactQuery "no lifecycle row"), x)
  end.

#[export] Instance rm_services : PipelineServices rm_world := {|
  date_value := fun _ => 20664;
  db_begin := fun x => (Ok (rw_clock (snd x) + 1), rm_tick x);
  relay_call := fun op args _ x => (Ok (rm_delivery args), rm_logged op args (Ok (rm_delivery args)) x);
  CanonicalMatchPayload := Z;
  payload_match_id := fun id => id;
  payload_queue_id := fun _ => 424;
  from_relay_value := rm_payload;
  facts_finalize := fun id _ => rm_finalize id;
  project_match := rm_project ["ranked"];
  project_all_for_match := rm_project ["casual"; "special"];
  complete_cumulative_stages_for_matches := fun _ => mret (Ok 0%nat);
  ingest_discovery := fun r => mret (not_found (mi_match_id r));
  outage_probe_minutes := 45;
|}.

#[export] Instance rm_store : MatchStore rm_world := {|
  other_tables := fun _ => {| rows := ∅; participants := ∅; fact_players := []; history_entries := [];
                              queue_types := {[424 := (false, "casual")]} |};
  stored_matches := rw_stored;
  new_uuid := fun w => (pretty (rw_uuids w),
    {| rw_clock := rw_clock w; rw_log := rw_log w; rw_stored := rw_stored w; rw_uuids := (rw_uuids w + 1)%nat |});
  completion_timeout_secs := 120;
  relay_post_rows := fun op args _ x =>
    (Ok (200, Ok {| relay_ok := true; relay_result := Some []; relay_error := None |}),
     rm_logged op args (Ok (Array [])) x);
|}.

(** ** The laws hold *)

Lemma rm_logging : logging (W:=rm_world) rw_log.
Proof.
  split; try done.
  - intros op args consumer [d w]. by eexists.
  - intros p source [d w]. simpl. unfold rm_finalize. by case_match.
  - intros id [d w]. simpl. unfold rm_project. repeat case_match; simplify_eq; done.
  - intros id [d w]. simpl. unfold rm_project. repeat case_match; simplify_eq; done.
Qed.

(** What a service leaves of the ledger: more stages in one row. *)
Definition only_stages (x x' : RX) : Prop :=
  ledger_of x' = ledger_of x \/ exists id r stages, ledger_of x !! id = Some r
    /\ ledger_of x' = <[id := with_stages stages r]> (ledger_of x).

Lemma rm_project_stages ps id x : only_stages x (snd (rm_project ps id x)).
Proof.
  destruct x as [d w]. unfold rm_project. destruct (_ !! id) as [r|] eqn:Hr; [|by left].
  destruct (projection_stage _) as [stage|]; [|by left]. destruct (bool_decide _); [|by left].
  right. by exists id, r, [stage].
Qed.

Lemma rm_finalize_stages id x : only_stages x (snd (rm_finalize id x)).
Proof.
  destruct x as [d w]. unfold rm_finalize. destruct (_ !! id) as [r|] eqn:Hr; [|by left].
  right. by eexists id, r, _.
Qed.

Lemma only_stages_unclaimed id owner x x' : only_stages x x' -> unclaimed id owner x -> unclaimed id owner x'.
Proof.
  unfold unclaimed. intros [-> |(j & r & stages & Hr & ->)]; [done|].
  destruct (decide (j = id)) as [->|]; [|by rewrite lookup_insert_ne]. by rewrite Hr, lookup_insert_eq.
Qed.

Lemma settled_with_stages stages r : settled_row r = true -> settled_row (with_stages stages r) = true.
Proof.
  unfold settled_row. intros [Hp|Hc]%orb_true_iff; apply orb_true_iff; [left|by right].
  unfold projected_row, has_stage in *. simpl. destruct (projection_stage _); [|done].
  apply bool_decide_eq_true in Hp. apply bool_decide_eq_true. apply elem_of_app. by left.
Qed.

Lemma only_stages_settled i x x' : only_stages x x' -> settled i x -> settled i x'.
Proof.
  unfold settled. intros [-> |(j & r & stages & Hr & ->)]; [done|]. intros Hs.
  apply settled_insert; [done|]. intros r'. rewrite Hr. intros [= <-]. apply settled_with_stages.
Qed.

Lemma rm_undisturbed id owner : undisturbed (W:=rm_world) id owner.
Proof.
  split; [by intros [d w]|done|by intros op args consumer [d w]|by intros op args consumer [d w]|..].
  - intros p source s. apply only_stages_unclaimed, rm_finalize_stages.
  - intros i s. apply only_stages_unclaimed, rm_project_stages.
  - intros i s. apply only_stages_unclaimed, rm_project_stages.
Qed.

Lemma rm_project_records ps id (x : RX) :
  is_ok (fst (rm_project ps id x)) = true -> projected_in id (snd (rm_project ps id x)).
Proof.
  destruct x as [d w]. unfold rm_project. destruct (_ !! id) as [r|] eqn:Hr; [|done].
  destruct (projection_stage _) as [stage|] eqn:Hst; [|done]. destruct (bool_decide _); [|done]. intros _.
  exists (with_stages [stage] r), stage. simpl. rewrite ledger_of_set, lookup_insert_eq. split; [done|].
  split; [done|]. unfold has_stage. simpl. apply bool_decide_eq_true. apply elem_of_app. right. by left.
Qed.

Lemma rm_recorded id : projections_recorded (W:=rm_world) id.
Proof. split; [by intros [d w]|intros; by apply rm_project_records..]. Qed.

Lemma rm_keeps_settled : keeps_settled rm_services rm_store.
Proof.
  split; [by intros i [d w]|by intros i op args consumer [d w]|by intros i op args consumer [d w]|..].
  - intros i p source s. apply only_stages_settled, rm_finalize_stages.
  - intros i id s. apply only_stages_settled, rm_project_stages.
  - intros i id s. apply only_stages_settled, rm_project_stages.
  - apply rm_recorded.
Qed.

(** ** Witnesses *)

Definition rm_state (l : ledger) : RX :=
  ({| hour_tables := {| hours := ∅; discoveries := ∅; region_hours := ∅; match_counts := ∅; ingest := l |};
      outages := ∅ |}, {| rw_clock := 1000; rw_log := []; rw_stored := ∅; rw_uuids := 0 |}).

Definition hourly_request (id : Z) : MatchIngestRequest :=
  {| mi_match_id := id; mi_queue_id := Some 424; mi_source := HourlyDiscovery |}.

(** A new match is fetched once, by its detail, and answered as ready. *)
Example new_match_ready :
  let x := ingest_match (hourly_request 7) (rm_state ∅) in
  rm_status (fst x) = Ready /\ durable_in 7 (snd x) = true
  /\ map request_of_entry (rw_log (snd (snd x))) = [detail_request 7 (Some 424)].
Proof. vm_compute. by repeat split. Qed.

(** The evidence of the claim of a new match asks for its detail only. *)
Lemma ingest_match_contract_witness :
  (exists e, claim_of (hourly_request 7) (rm_state ∅) = Some e /\ detail_attempted e = false)
  /\ map request_of_entry (rw_log (snd (snd (ingest_match (hourly_request 7) (rm_state ∅)))))
     = [detail_request 7 (Some 424)]
  /\ durable_in 7 (snd (ingest_match (hourly_request 7) (rm_state ∅))) = true.
Proof.
  destruct (ingest_match_contract rw_log rm_logging (hourly_request 7) (rm_state ∅)) as (l & El & [_ Ha Hst]).
  split; [by vm_compute; eexists|]. change (rw_log (snd (rm_state ∅))) with (@nil relay_entry) in El.
  rewrite app_nil_l in El. assert (map request_of_entry l = [detail_request 7 (Some 424)]) as Hl by exact Ha.
  rewrite El. split; [exact Hl|].
  assert (rm_status (fst (ingest_match (hourly_request 7) (rm_state ∅))) = Ready) as Hr
    by (vm_compute; reflexivity).
  rewrite Hr in Hst. destruct Hst as [->|Hd]; [discriminate Hl|exact Hd].
Defined.

Lemma claim_ends_with_call_witness :
  unclaimed 7 "canonical-match-0" (snd (ingest_match (hourly_request 7) (rm_state ∅))).
Proof.
  apply (claim_ends_with_call 7 "canonical-match-0" (rm_undisturbed 7 "canonical-match-0")).
  - reflexivity.
  - unfold unclaimed. simpl. exact I.
Defined.

Definition resuming (l : ledger) : PipelineState rm_world :=
  {| pdb := fst (rm_state l); progress := fresh_progress; world := snd (rm_state l) |}.

Lemma recovery_is_truthful_witness :
  exists l v, rw_log (world (snd (@recover_discovered_match _ (canonical_services rm_services rm_store)
      DROPPED_MATCH 424 HourlyDiscovery (resuming ∅)))) = [] ++ l
    /\ last_answer l v /\ relay_terminal_status v = Some "dropped".
Proof.
  refine (proj2 (proj2 (proj2 (recovery_is_truthful rm_services rm_store rw_log DROPPED_MATCH 424
    HourlyDiscovery (resuming ∅) rm_logging (rm_recorded DROPPED_MATCH))
    DROPPED_MATCH TERMINAL_NO_COMPLETED_MATCH_REASON _))).
  vm_compute. reflexivity.
Defined.

(** A match found an hour ago and not worked on since. *)
Definition waiting_row : IngestRow :=
  registered_row 0 {| disc_match_id := 7; disc_queue_id := Some 424; disc_source := HourlyDiscovery |} Casual
    (new_row 0).

Definition waiting_ledger : ledger := {[7 := waiting_row; DROPPED_MATCH := waiting_row]}.

Lemma resumed_matches_settled_witness :
  let x := @resume_discovered_continuously _ (canonical_services rm_services rm_store) [7; DROPPED_MATCH] 424
    "2026-07-30" 5 HourlyDiscovery (resuming waiting_ledger) in
  fst x = Ok 2%nat /\ settled 7 (pdb (snd x), world (snd x))
  /\ settled DROPPED_MATCH (pdb (snd x), world (snd x)).
Proof.
  set (x := resume_discovered_continuously _ _ _ _ _ _). cbn zeta.
  assert (fst x = Ok 2%nat) as Hx by (vm_compute; reflexivity).
  pose proof (resumed_matches_settled rm_services rm_store rm_keeps_settled [7; DROPPED_MATCH] 424
    "2026-07-30" 5 HourlyDiscovery (resuming waiting_ledger) 2 (snd x)) as Hs.
  split; [exact Hx|]. split; apply Hs.
  1,5: repeat constructor; vm_compute; discriminate.
  1,4: fold x; rewrite <- Hx; apply surjective_pairing.
  1,3: apply list_elem_of_In; simpl; auto.
  all: reflexivity.
Defined.
