(* ===== verification/MatchFactLink.v ===== *)
(** * The persistence of facts behind the pipeline's interface

    [stored_finalize] runs [MatchFactStore.finalize] over the ledger of the
    pipeline.  It satisfies what the requested match and its drain assume of
    [facts_finalize]: settled matches stay settled and no claim appears. *)

From S2P Require Import Prelude Json Queue Lifecycle HourlyIngest Pipeline MatchFacts MatchFactsSpec.
From S2P Require Import MatchFactStore MatchFactsSpec RequestedMatch RequestedMatchSpec RequestedMatchDrain.

Section link.
Context {V : Type} `{FactServices V}.
Abbreviation X := (PipelineDb * FactDb V)%type.

(** One database: the ledger of the pipeline is the one of the facts. *)
Definition joined (x : X) : FactDb V := with_tables (with_rows (ledger_of x) (tables (snd x))) (snd x).
Definition split_tables (db : FactDb V) (x : X) : X := set_ledger (ledger_in db) (fst x, db).

Definition stored_finalize (p : CanonicalMatchPayload) (source : string) :
    ST X (result MatchPopulation MatchFactError) := fun x =>
  let '(r, db) := finalize p source (joined x) in
  (match r with Ok fin => Ok (fin_population fin) | Err e => Err e end, split_tables db x).

Lemma stored_ledger p source x :
  ledger_of (snd (stored_finalize p source x)) = ledger_in (snd (finalize p source (joined x))).
Proof. unfold stored_finalize. by destruct (finalize p source (joined x)). Qed.

(** The ledger after a finalization: the row is closed, or nothing happened. *)
Lemma stored_cases p source x :
  ledger_of (snd (stored_finalize p source x)) = ledger_of x \/
  exists population stages now r',
    ledger_of (snd (stored_finalize p source x)) = <[p_match_id p := r']> (ledger_of x) /\
    facts_row p population stages (default (new_row now) (ledger_of x !! p_match_id p)) r' /\
    (forall old, ledger_of x !! p_match_id p = Some old -> fact_conflict p population old = None).
Proof.
  rewrite stored_ledger. destruct (finalize p source (joined x)) as [r db'] eqn:E. apply finalize_cases in E.
  assert (forall fin, written p source fin (joined x) db' -> exists population stages now r',
    ledger_in db' = <[p_match_id p := r']> (ledger_of x) /\
    facts_row p population stages (default (new_row now) (ledger_of x !! p_match_id p)) r' /\
    (forall old, ledger_of x !! p_match_id p = Some old -> fact_conflict p population old = None)) as Hw.
  { intros fin (now & players & w & db1 & _ & Eb & Ht).
    pose proof (written_row _ _ _ _ _ _ _ Eb) as (population & r1 & d & _ & _ & _ & _ & _ & Hpop & _ & Hc).
    apply body_closes in Eb as (r' & Hl & Hr & _). rewrite Hpop in Hr.
    exists population, (fin_completed_stages fin), now, r'. split_and!; [|exact Hr|exact Hc].
    unfold ledger_in in *. destruct Ht as (-> & _). exact Hl. }
  destruct r as [fin|e]; simpl; [right; by eapply Hw|].
  destruct E as [(Ht & _) | (_ & fin & Hf)]; [|right; by eapply Hw]. left. unfold ledger_in. by rewrite Ht.
Qed.

Lemma closed_stays_closed p population stages r r' :
  facts_row p population stages r r' -> closed_row r = true ->
  closed_row r' = true.
Proof.
  intros [_ _ _ Hs Ha _ _ _ _ _ _] Hc. unfold closed_row in *. rewrite Hs, Ha.
  destruct (String.eqb (row_status r) "complete") eqn:E1; simpl; [by rewrite E1|].
  simpl in Hc. apply andb_true_iff in Hc as [Hlim _]. rewrite !Hlim, E1.
  by destruct (is_limited p).
Qed.

Lemma projected_stays_projected p population stages r r' :
  facts_row p population stages r r' -> fact_conflict p population r = None ->
  projected_row r = true -> projected_row r' = true.
Proof.
  intros Hc Hconf Hp. pose proof (projected_known _ Hp) as Hk.
  apply fact_conflict_none in Hconf as [_ Hpop]; [|apply (cr_known _ _ _ _ _ Hc)].
  rewrite Hk in Hpop. unfold projected_row in *. rewrite (cr_population _ _ _ _ _ Hc), <- Hpop.
  destruct (projection_stage (population_from_database (row_population r))) as [stage|]; [|done].
  unfold has_stage in *. apply bool_decide_eq_true in Hp. apply bool_decide_eq_true.
  apply (cr_stages _ _ _ _ _ Hc). by left.
Qed.

(** Finalizing a match keeps every settled match settled: one whose
    statistics are projected, or that the pipeline has closed, is still so
    after whatever the persistence of facts answers, for this match or for
    another one.  It is what the drain of requested matches assumes of the
    persistence of facts. *)
Theorem finalize_keeps_settled i p source : preserves (fun x => settled_in i (ledger_of x)) (stored_finalize p source).
Proof.
  intros x Hs. destruct (stored_cases p source x) as [->|(population & stages & now & r' & -> & Hc & Hconf)]; [done|].
  apply settled_insert; [done|]. intros r Hr Hset. rewrite Hr in Hc. simpl in Hc. specialize (Hconf r Hr).
  unfold settled_row in *. apply orb_true_iff in Hset as [Hp|Hcl]; apply orb_true_iff.
  - left. by eapply projected_stays_projected.
  - right. by eapply closed_stays_closed.
Qed.

(** Finalizing a match claims nothing: an owner without a claim on a match
    has none after it.  It is what the end of a claim assumes of the
    persistence of facts. *)
Theorem finalize_claims_nothing id owner p source : preserves (unclaimed id owner) (stored_finalize p source).
Proof.
  intros x Hu. unfold unclaimed in *.
  destruct (stored_cases p source x) as [->|(population & stages & now & r' & -> & Hc & _)]; [done|].
  destruct (decide (id = p_match_id p)) as [->|Hne]; [|by rewrite lookup_insert_ne].
  rewrite lookup_insert_eq. destruct (cr_lease _ _ _ _ _ Hc) as [-> _].
  by destruct (ledger_of x !! p_match_id p).
Qed.
End link.

(** * A match whose facts are persisted

    A database in memory and a relay answer for a ranked match of 23:10 UTC,
    on which the properties of the payload and of its persistence apply. *)

#[local] Open Scope string_scope.

#[local] Instance fixed_message : DecodeMessages := fun _ => "invalid type".

(** The clock of the database ticks with every transaction. *)
#[local] Instance fact_double : FactServices Z := {|
  begin_transaction := fun w => (Ok (w + 1), w + 1);
  statement_fails := mret None;
  commit_transaction := mret Committed;
  timestamptz := fun s => if String.eqb s "2026-07-01T23:10:00Z" then Some (1782947400 * micros) else None;
  parse_entry := fun s =>
    if (s =? "2026-07-01T23:10:00Z")%string then Some {| utc_seconds := 1782947400; offset_seconds := 0 |} else None;
  persist_player_facts := fun _ _ _ => mret (Ok tt);
  persist_ranked_party_groups := fun _ => mret (Ok tt);
  persist_private_identities := fun _ _ _ => mret (Ok tt);
|}.

Definition num (n : Z) : value := Number (NInt n).

Definition player_value (id team : Z) : value :=
  Object [("player_id", num id); ("player_name", Str ("player" +:+ pretty id)); ("champion_id", num (2000 + id));
          ("task_force", num team); ("source", Str "direct"); ("win_status", Str (if (team =? 1)%Z then "Winner" else "Loser"))].

Definition ten_players : list value :=
  map (fun n => player_value (Z.of_nat n + 1) (if (n <? 5)%nat then 1 else 2)) (seq 0 10).

Definition ranked_fields : fields := [
  ("match_id", num 900); ("entry_datetime", Str "2026-07-01T23:10:00Z"); ("map", Str "Stone Keep");
  ("queue_id", num 486); ("duration_seconds", num 900); ("region", Str "NA");
  ("team1_score", num 4); ("team2_score", num 2); ("winning_task_force", num 1);
  ("players", Array ten_players); ("ban_id_1", num 2100)].

Definition ranked_payload : CanonicalMatchPayload :=
  match from_relay_value (Object [("match", Object ranked_fields)]) with
  | Ok p => p
  | Err _ => default {| p_match_id := 0; p_entry_datetime := ""; p_map := ""; p_queue_id := 0;
      p_duration_seconds := 0; p_region := ""; p_team1_score := None; p_team2_score := None;
      p_winning_task_force := None; p_has_replay := None; p_recovery_source := None;
      p_recovery_api_calls := None; p_limited := None; p_players := []; p_extra := [] |} None
  end.

Definition ranked_types : MatchTables :=
  {| rows := ∅; participants := ∅; fact_players := []; history_entries := [];
     queue_types := {[486 := (true, "ranked")]} |}.

Definition empty_facts : FactDb Z := {|
  tables := ranked_types; matches := ∅; casual_matches := ∅; special_matches := ∅; hourly_counts := ∅;
  champions := ∅; match_bans := ∅; facts_rest := 1000;
|}.

Definition first_finalize := Eval vm_compute in finalize ranked_payload "canonical" empty_facts.

(** The match is written, and its hour, the last of the day, counts nobody. *)
Example finalized_match :
  finalize ranked_payload "canonical" empty_facts =
    (Ok {| fin_match_id := 900; fin_population := Ranked; fin_player_count := 10; fin_facts_written := true;
           fin_completed_stages := FACT_STAGES |}, snd first_finalize) /\
  option_map (fun r => (row_status r, row_acquisition_state r, row_completed_stages r, row_attempts r))
    (ledger_in (snd first_finalize) !! 900) = Some ("partial", "facts_ready", sort_by le_bytes FACT_STAGES, 1) /\
  option_map m_region (matches (snd first_finalize) !! (900, 1782947400 * micros)) = Some "NA" /\
  match_bans (snd first_finalize) !! (900, 1) = Some 2100 /\
  option_map total_matches (hourly_counts (snd first_finalize) !! (20635, 23, 486)) = Some 0.
Proof. vm_compute. by split_and!. Qed.

(** A database whose commits take effect without an answer. *)
Definition mute_commits : FactServices Z := {|
  begin_transaction := fun w => (Ok (w + 1), w + 1);
  statement_fails := mret None;
  commit_transaction := mret (AnswerLost "connection closed");
  timestamptz := @timestamptz _ fact_double;
  parse_entry := @parse_entry _ fact_double;
  persist_player_facts := fun _ _ _ => mret (Ok tt);
  persist_ranked_party_groups := fun _ => mret (Ok tt);
  persist_private_identities := fun _ _ _ => mret (Ok tt);
|}.

(** There an error leaves the match closed in the ledger; a report of the match
    in another queue leaves nothing. *)
Lemma finalize_atomic_witness :
  let '(r, db) := @finalize _ mute_commits ranked_payload "canonical" empty_facts in
  is_ok r = false /\ exists fin, finalized_as ranked_payload fin empty_facts db.
Proof.
  pose proof (@finalize_atomic _ mute_commits ranked_payload "canonical" empty_facts) as H. revert H.
  destruct (@finalize _ mute_commits ranked_payload "canonical" empty_facts) as [r db] eqn:E. intros [Hr _].
  assert (is_ok r = false /\ ledger_in db !! 900 <> None) as [Hf Hl] by (vm_compute in E; injection E as <- <-; by vm_compute).
  split; [exact Hf|]. destruct r as [fin|e]; [discriminate Hf|].
  destruct Hr as [(Ht & _) | (_ & Hc)]; [|exact Hc].
  exfalso. apply Hl. unfold ledger_in. rewrite Ht. reflexivity.
Defined.

Lemma accepted_payload_well_formed_witness : well_formed ranked_payload.
Proof. apply (accepted_payload_well_formed (Object [("match", Object ranked_fields)])). left. vm_compute. reflexivity. Defined.

(** The drain of new matches reads the id of an outcome in one place and its
    payload in another: this outcome is match 7 to the one and 900 to the other. *)
Example outcome_of_two_matches :
  let outcome := Object [("matchId", num 7); ("match", Object ranked_fields)] in
  extract_match_id outcome = Some 7 /\ from_relay_value outcome = Ok ranked_payload /\ p_match_id ranked_payload = 900.
Proof. vm_compute. by split_and!. Qed.

(** A second, limited, report of the match changes no fact. *)
Definition limited_payload : CanonicalMatchPayload :=
  {| p_match_id := 900; p_entry_datetime := "2026-07-01T23:10:00Z"; p_map := "Frog Isle";
     p_queue_id := 486; p_duration_seconds := 60; p_region := "EU"; p_team1_score := Some 0;
     p_team2_score := Some 4; p_winning_task_force := Some 2; p_has_replay := None;
     p_recovery_source := None; p_recovery_api_calls := None; p_limited := Some true;
     p_players := [player_value 1 1]; p_extra := [] |}.

Definition second_finalize := Eval vm_compute in finalize limited_payload "demand" (snd first_finalize).

Lemma finalize_repeated_witness :
  is_ok (fst second_finalize) = true /\ same_facts (snd first_finalize) (snd second_finalize) /\
  forall fin', fst second_finalize = Ok fin' -> fin_facts_written fin' = false.
Proof.
  split; [reflexivity|].
  destruct (finalize ranked_payload "canonical" empty_facts) as [[fin|e] db1] eqn:E1; [|by vm_compute in E1].
  destruct (finalize limited_payload "demand" db1) as [[fin'|e] db2] eqn:E2;
    [|vm_compute in E1; injection E1 as _ <-; by vm_compute in E2].
  destruct (finalize_repeated ranked_payload "canonical" limited_payload "demand" empty_facts fin db1 fin' db2 E1
              eq_refl E2) as (Hs & Hw & _).
  vm_compute in E1. injection E1 as _ <-. vm_compute in E2. injection E2 as <- <-.
  split; [exact Hs|]. by intros ? [= <-].
Defined.

(** The hour's count after the match is in the table is still zero. *)
Definition recounted := Eval vm_compute in upsert_hourly_count ranked_payload (snd first_finalize).

Lemma hour_counted_witness :
  size (matches (snd first_finalize)) = 1%nat /\
  exists c, hourly_counts (snd recounted) = <[(20635, 23, 486) := c]> (hourly_counts (snd first_finalize)) /\
    total_matches c = 0.
Proof.
  split; [vm_compute; reflexivity|].
  destruct (hour_counted ranked_payload (snd first_finalize) (snd recounted)
              {| utc_seconds := 1782947400; offset_seconds := 0 |}) as (c & E & T & _);
    [vm_compute; reflexivity|vm_compute; reflexivity|vm_compute; reflexivity|vm_compute; reflexivity|].
  exists c. split; [exact E|exact T].
Defined.

(** The pipeline's ledger holds a projected match; the persistence of another
    match keeps it settled. *)
Definition projected : IngestRow := {|
  row_status := "partial"; row_completed_stages := ["core"; "player_facts"; "ranked_stats"]; row_source := None;
  row_attempts := 1; row_error_message := None; row_queue_id := Some 486; row_population := "ranked";
  row_acquisition_state := "facts_ready"; detail_attempted_at := None; roster_resolved_at := None;
  demo_resolved_at := None; row_direct_player_count := 10; row_roster_player_count := 10;
  row_unresolved_player_ids := []; lease_owner := None; lease_until := None; started_at := 0; updated_at := 0;
  completed_at := None |}.

Definition linked_state (l : ledger) : PipelineDb * FactDb Z :=
  ({| hour_tables := {| hours := ∅; discoveries := ∅; region_hours := ∅; match_counts := ∅; ingest := l |}; outages := ∅ |}, empty_facts).

Lemma finalize_keeps_settled_witness :
  ledger_of (snd (stored_finalize ranked_payload "canonical" (linked_state {[800 := projected]}))) !! 900 <> None /\
  settled_in 800 (ledger_of (snd (stored_finalize ranked_payload "canonical" (linked_state {[800 := projected]})))).
Proof.
  split; [vm_compute; discriminate|].
  apply (finalize_keeps_settled 800 ranked_payload "canonical" (linked_state {[800 := projected]})).
  exists projected. split; vm_compute; reflexivity.
Defined.

Lemma finalize_claims_nothing_witness :
  unclaimed 900 "canonical-match-0"
    (snd (stored_finalize ranked_payload "canonical" (linked_state {[800 := projected]}))).
Proof.
  apply (finalize_claims_nothing 900 "canonical-match-0" ranked_payload "canonical" (linked_state {[800 := projected]})).
  exact I.
Defined.
