(* ===== verification/RawBufferSpec.v ===== *)
(** * Properties of the raw ingest buffer

    A match is worked on once at a time; a batch closes every claim it takes;
    the adaptive projections end and leave no match out. *)

From S2P Require Import Prelude Json Lifecycle Policy SchedulerHost Pipeline MatchFacts RawBuffer RawBufferWorker.

(** ** Rows under a claim *)

Definition processing (r : BufferRow) : Prop := is_status "processing" r = true.

Definition same_row (r r' : BufferRow) : Prop :=
  rb_entity_type r' = rb_entity_type r /\ rb_entity_id r' = rb_entity_id r.

(** No row of [d'] is claimed that was not claimed in [d]. *)
Definition no_new_claims (d d' : BufferDb) : Prop :=
  forall id r', buffer d' !! id = Some r' -> processing r' ->
  exists r, buffer d !! id = Some r /\ processing r /\ same_row r r'.

#[export] Instance no_new_claims_preorder : PreOrder no_new_claims.
Proof.
  split.
  - intros d id r Hr Hp. by exists r.
  - intros a b c Hab Hbc id r Hr Hp. destruct (Hbc _ _ Hr Hp) as (r1 & H1 & P1 & S1).
    destruct (Hab _ _ H1 P1) as (r0 & H0 & P0 & S0). exists r0. unfold same_row in *. intuition congruence.
Qed.

Lemma lookup_update_rows p f d id :
  buffer (update_rows p f d) !! id = (fun r => if p id r then f r else r) <$> buffer d !! id.
Proof. unfold update_rows. simpl. rewrite map_lookup_imap. by destruct (buffer d !! id). Qed.

Lemma set_row_same s n e p a r : same_row r (set_row s n e p a r).
Proof. done. Qed.

(** An UPDATE that leaves a row claimed had it claimed before. *)
Lemma update_rows_no_new p f d :
  (forall id r, p id r = true -> processing (f r) -> processing r) -> (forall r, same_row r (f r)) ->
  no_new_claims d (update_rows p f d).
Proof.
  intros Hf Hs id r'. rewrite lookup_update_rows. intros (r & Hr & ->)%fmap_Some.
  rewrite Hr. intros Hp. exists r. case_match eqn:E; eauto. done.
Qed.

Lemma recover_no_new now row_id d : no_new_claims d (recover_stale_leases_for now row_id d).
Proof. apply update_rows_no_new; [|done]. intros id r [[H _]%andb_true_iff _]%andb_true_iff. done. Qed.

Lemma requeue_no_new now d : no_new_claims d (requeue_incomplete_ranked_projections now d).
Proof. by apply update_rows_no_new. Qed.

Lemma return_no_new ids d : no_new_claims d (return_claims ids d).
Proof. by apply update_rows_no_new. Qed.

Lemma renew_rows_no_new now ids d : no_new_claims d (renew_rows now ids d).
Proof. apply update_rows_no_new; [|done]. by intros id r [_ H]%andb_true_iff. Qed.

(** A row closed by its id is not claimed afterwards. *)
Lemma close_row_spec id f d :
  (forall r, ~ processing (f r)) ->
  no_new_claims d (close_row id f d) /\ forall r, buffer (close_row id f d) !! id = Some r -> ~ processing r.
Proof.
  intros Hf. split.
  - intros i r'. simpl. destruct (decide (i = id)) as [-> | Hi].
    + rewrite lookup_alter_eq. intros (r & Hr & ->)%fmap_Some Hp. by destruct (Hf r).
    + rewrite lookup_alter_ne by done. intros Hr Hp. by exists r'.
  - intros r. simpl. rewrite lookup_alter_eq. by intros (r0 & _ & ->)%fmap_Some.
Qed.

Lemma failed_or_deferred_closes (terminal : bool) n e p a r :
  ~ processing (set_row (if terminal then "failed" else "pending") n e p a r).
Proof. by destruct terminal. Qed.

Lemma renew_row_no_new now id d : no_new_claims d (snd (renew_row now id d)).
Proof.
  unfold renew_row. destruct (buffer d !! id) as [r|] eqn:Er; [|done].
  destruct (is_status "processing" r) eqn:Ep; [|done]. intros i r'. simpl.
  destruct (decide (i = id)) as [-> | Hi].
  - rewrite lookup_insert_eq. intros [= <-] _. by exists r.
  - rewrite lookup_insert_ne by done. intros Hr Hp. by exists r'.
Qed.

Lemma renew_row_refused now id d :
  fst (renew_row now id d) = false -> forall r, buffer (snd (renew_row now id d)) !! id = Some r -> ~ processing r.
Proof.
  unfold renew_row. destruct (buffer d !! id) as [r0|] eqn:Er; simpl; [|congruence].
  destruct (is_status "processing" r0) eqn:Ep; simpl; [done|]. intros _ r Hr Hp. unfold processing in Hp. congruence.
Qed.

Lemma delete_retained_no_new now s hours limit d : no_new_claims d (delete_retained now s hours limit d).
Proof.
  unfold delete_retained. generalize (doomed now s hours limit d) as ids. intros ids id r'. simpl.
  generalize (buffer d) as b. induction ids as [|i ids IH]; intros b; simpl; [by exists r'|].
  intros Hr Hp. destruct (IH _ Hr Hp) as (r & Hr0 & ?). apply lookup_delete_Some in Hr0 as [_ Hr0]. by exists r.
Qed.

(** ** What a claim takes *)

Lemma le_claim_antisym l a b : le_claim l a b = true -> le_claim l b a = true -> fst a = fst b.
Proof. unfold le_claim. rewrite !orb_true_iff, !andb_true_iff, !Z.ltb_lt, !Z.eqb_eq, !orb_true_iff, !andb_true_iff,
  !Z.ltb_lt, !Z.eqb_eq, !Z.leb_le. lia. Qed.

Lemma candidate_spec now limit ff d e :
  e ∈ claim_candidates now limit ff d ->
  buffer d !! fst e = Some (snd e) /\ eligible_row now ff d e = true /\
  forall e', buffer d !! fst e' = Some (snd e') -> eligible_row now ff d e' = true ->
    claim_key (fst e') (snd e') = claim_key (fst e) (snd e) -> le_claim (buffer_ledger d) e e' = true.
Proof.
  intros He. unfold claim_candidates in He. apply elem_of_take in He as (? & He%list_elem_of_lookup_2 & _).
  rewrite sort_by_perm in He. unfold deduplicated in He.
  apply list_elem_of_In, filter_In in He as [He Hall]. apply filter_In in He as [He Hel].
  destruct e as [id r]. apply list_elem_of_In, elem_of_map_to_list in He. split_and!; [done|done|].
  intros [id' r'] Hr' Hel' Hkey. rewrite forallb_forall in Hall.
  specialize (Hall (id', r')). simpl in *. rewrite Hkey, String.eqb_refl in Hall. simpl in Hall. apply Hall.
  apply filter_In. split; [|done]. by apply list_elem_of_In, elem_of_map_to_list.
Qed.

(** The rows a claim leaves claimed: those it took, and those claimed before. *)
Lemma claimed_after now limit ff d id r' :
  buffer (snd (claim_statement now limit ff d)) !! id = Some r' -> processing r' ->
  exists r, buffer d !! id = Some r /\ same_row r r' /\
            (processing r \/ (id, r) ∈ claim_candidates now limit ff d).
Proof.
  unfold claim_statement. simpl. rewrite map_lookup_imap. intros Hr Hp.
  destruct (buffer d !! id) as [r|] eqn:Er; simpl in Hr; [|done]. exists r.
  destruct (bool_decide_reflect (id ∈ map fst (claim_candidates now limit ff d))) as [Hin|Hout];
    injection Hr as <-; split_and!; try done; [|by left].
  right. apply list_elem_of_fmap in Hin as ([i r0] & Hi & Hin). simpl in Hi. subst i.
  destruct (candidate_spec _ _ _ _ _ Hin) as (Hb & _). simpl in Hb. by simplify_eq.
Qed.

(** ** One claim per match *)

(** No two claimed rows belong to the same named match. *)
Definition exclusive (d : BufferDb) : Prop :=
  forall i j r r' m,
    buffer d !! i = Some r -> buffer d !! j = Some r' -> processing r -> processing r' ->
    is_match r = true -> is_match r' = true -> rb_entity_id r = Some m -> rb_entity_id r' = Some m -> i = j.

Lemma same_row_match r r' : same_row r r' -> is_match r = is_match r'.
Proof. intros [H _]. unfold is_match. by rewrite H. Qed.

Lemma no_new_exclusive d d' : no_new_claims d d' -> exclusive d -> exclusive d'.
Proof.
  intros Hnn He i j r r' m Hi Hj Pi Pj Mi Mj Ei Ej.
  destruct (Hnn _ _ Hi Pi) as (r0 & H0 & P0 & S0). destruct (Hnn _ _ Hj Pj) as (r1 & H1 & P1 & S1).
  eapply (He i j r0 r1 m); eauto; rewrite ?(same_row_match _ _ S0), ?(same_row_match _ _ S1); try done;
    unfold same_row in *; intuition congruence.
Qed.

Lemma claim_excludes_in_flight now limit ff d i j r r' :
  (i, r) ∈ claim_candidates now limit ff d -> buffer d !! j = Some r' -> processing r' ->
  is_match r = true -> is_match r' = true -> rb_entity_id r = rb_entity_id r' -> i = j.
Proof.
  intros Hc Hj Pj Mi Mj He. destruct (candidate_spec _ _ _ _ _ Hc) as (_ & Hel & _). simpl in Hel.
  unfold eligible_row in Hel. simpl in Hel. rewrite Mi in Hel. simpl in Hel.
  apply andb_true_iff in Hel as [_ Hf%negb_true_iff]. unfold in_flight in Hf.
  destruct (decide (i = j)) as [|Hne]; [done|]. exfalso. apply not_true_iff_false in Hf. apply Hf.
  apply existsb_exists. exists (j, r'). split; [by apply list_elem_of_In, elem_of_map_to_list|]. simpl.
  rewrite Mj, bool_decide_true by done. unfold processing in Pj. rewrite Pj. simpl. by apply negb_true_iff, Z.eqb_neq.
Qed.

Lemma claim_exclusive now limit ff d : exclusive d -> exclusive (snd (claim_statement now limit ff d)).
Proof.
  intros He i j r r' m Hi Hj Pi Pj Mi Mj Ei Ej.
  destruct (claimed_after _ _ _ _ _ _ Hi Pi) as (r0 & H0 & S0 & C0).
  destruct (claimed_after _ _ _ _ _ _ Hj Pj) as (r1 & H1 & S1 & C1).
  rewrite <- (same_row_match _ _ S0) in Mi. rewrite <- (same_row_match _ _ S1) in Mj.
  destruct S0 as [_ S0], S1 as [_ S1]. rewrite S0 in Ei. rewrite S1 in Ej.
  destruct C0 as [C0|C0], C1 as [C1|C1].
  - by eapply (He i j r0 r1 m).
  - symmetry. eapply (claim_excludes_in_flight _ _ _ _ j i); eauto. congruence.
  - eapply (claim_excludes_in_flight _ _ _ _ i j); eauto. congruence.
  - destruct (candidate_spec _ _ _ _ _ C0) as (B0 & L0 & A0), (candidate_spec _ _ _ _ _ C1) as (B1 & L1 & A1).
    assert (claim_key i r0 = claim_key j r1) as Hk by (unfold claim_key; by rewrite Mi, Mj, Ei, Ej).
    apply (le_claim_antisym (buffer_ledger d) (i, r0) (j, r1)); [by apply A0|by apply A1].
Qed.

(** Everything the processes do to the buffer. *)
Inductive buffer_step : BufferDb -> BufferDb -> Prop :=
  | step_arrive id r d :
      buffer d !! id = None -> rb_status r = "pending" -> buffer_step d (with_buffer (<[id := r]> (buffer d)) d)
  | step_tables l ranked d : buffer_step d {| buffer := buffer d; buffer_ledger := l; ranked_matches := ranked |}
  | step_claim now limit ff d : buffer_step d (snd (claim_statement now limit ff d))
  | step_recover now row_id d : buffer_step d (recover_stale_leases_for now row_id d)
  | step_requeue now d : buffer_step d (requeue_incomplete_ranked_projections now d)
  | step_renew now id d : buffer_step d (snd (renew_row now id d))
  | step_renew_rows now ids d : buffer_step d (renew_rows now ids d)
  | step_processed now id d : buffer_step d (mark_processed now id d)
  | step_retain id message d : buffer_step d (retain_pending id message d)
  | step_failed now id retry terminal durable message d :
      buffer_step d (mark_failed_or_deferred now id retry terminal durable message d)
  | step_return ids d : buffer_step d (return_claims ids d)
  | step_retention now status hours limit d : buffer_step d (delete_retained now status hours limit d).

Lemma step_exclusive d d' : buffer_step d d' -> exclusive d -> exclusive d'.
Proof.
  intros Hs He. destruct Hs; [|done|by apply claim_exclusive|..]; (eapply no_new_exclusive; [|exact He]).
  - intros i r'. simpl. destruct (decide (i = id)) as [-> | Hi].
    + rewrite lookup_insert_eq. intros [= <-] Hp. unfold processing, is_status in Hp. by rewrite H0 in Hp.
    + rewrite lookup_insert_ne by done. intros Hr Hp. by exists r'.
  - apply recover_no_new.
  - apply requeue_no_new.
  - apply renew_row_no_new.
  - apply renew_rows_no_new.
  - by apply close_row_spec.
  - by apply close_row_spec.
  - apply close_row_spec. intros r. apply failed_or_deferred_closes.
  - apply return_no_new.
  - apply delete_retained_no_new.
Qed.

(** C31. A match is worked on once at a time.  Whatever the processes do to the
    buffer, in whatever order (rows that arrive, claims of any size, stale or
    repaired rows that go back, renewals, closed and returned rows, the
    retention), no two rows of the same match are claimed together, as long as
    none were at the start; the unique index of the schema is not needed for it. *)
Theorem match_claimed_once d d' :
  rtc buffer_step d d' -> exclusive d -> exclusive d'.
Proof. intros Hr. induction Hr; eauto using step_exclusive. Qed.

Lemma collected_ids priority (l : list (Z * (Z * BufferRow))) rows :
  collect_results (map (fun e => decode_claimed_row (priority e) (snd e)) l) = Ok rows -> map cl_id rows = map (fun e => fst (snd e)) l.
Proof.
  revert rows. induction l as [|[p [id r]] l IH]; simpl; intros rows; [by intros [= <-]|].
  destruct ((id <=? 0) || is_null (rb_raw_data r)); [done|]. case_match; [|done]. intros [= <-]. simpl.
  f_equal. by apply IH.
Qed.

(** The rows a claim answers are the rows it took. *)
Lemma claim_answers now limit ff d rows :
  fst (claim_statement now limit ff d) = Ok rows ->
  forall id, id ∈ map cl_id rows <-> id ∈ map fst (claim_candidates now limit ff d).
Proof.
  unfold claim_statement. simpl. intros Hrows%(collected_ids fst) id. rewrite Hrows.
  rewrite <- (map_map snd fst). rewrite !list_elem_of_fmap. split.
  - intros (e & -> & He). exists e. split; [done|]. apply list_elem_of_fmap in He as (x & -> & Hx).
    rewrite sort_by_perm in Hx. by apply list_elem_of_fmap in Hx as (y & -> & Hy).
  - intros (e & -> & He). exists e. split; [done|]. apply list_elem_of_fmap.
    exists (claim_priority (buffer_ledger d) (snd e), e). split; [done|]. rewrite sort_by_perm.
    apply list_elem_of_fmap. by exists e.
Qed.

(** ** The unique index *)

Lemma unique_active_spec b :
  unique_active b = true <->
  forall i j r r', b !! i = Some r -> b !! j = Some r' -> active_match r = true -> active_match r' = true ->
    rb_entity_id r = rb_entity_id r' -> i = j.
Proof.
  unfold unique_active. rewrite forallb_forall. split.
  - intros Hu i j r r' Hi Hj Ai Aj He. destruct (decide (i = j)) as [|Hne]; [done|]. exfalso.
    specialize (Hu (i, r)). rewrite forallb_forall in Hu.
    assert (negb (clash (i, r) (j, r')) = true) as Hc
      by (apply Hu; apply list_elem_of_In, elem_of_map_to_list; done).
    unfold clash in Hc. simpl in Hc. rewrite Ai, Aj, bool_decide_true in Hc by done.
    apply Z.eqb_neq in Hne. by rewrite Hne in Hc.
  - intros Hu [i r] Hi. apply forallb_forall. intros [j r'] Hj.
    apply list_elem_of_In, elem_of_map_to_list in Hi, Hj. apply negb_true_iff, not_true_iff_false. unfold clash. simpl.
    rewrite !andb_true_iff, bool_decide_eq_true, negb_true_iff, Z.eqb_neq. intros [[[Hne Ai] Aj] He]. by eapply Hne, Hu.
Qed.

(** A change under which every active row was active keeps the index. *)
Lemma unique_active_mono b b' :
  (forall id r', b' !! id = Some r' -> active_match r' = true ->
     exists r, b !! id = Some r /\ active_match r = true /\ rb_entity_id r = rb_entity_id r') ->
  unique_active b = true -> unique_active b' = true.
Proof.
  rewrite !unique_active_spec. intros Hm Hu i j r r' Hi Hj Ai Aj He.
  destruct (Hm _ _ Hi Ai) as (r0 & ? & ? & ?), (Hm _ _ Hj Aj) as (r1 & ? & ? & ?). eapply Hu; eauto. congruence.
Qed.

Lemma active_of_processing s n e p a r :
  processing r -> active_match (set_row s n e p a r) = true -> active_match r = true.
Proof.
  unfold processing, active_match, is_match. simpl. intros ->. rewrite orb_true_r, andb_true_r.
  by intros [-> _]%andb_true_iff.
Qed.

Lemma update_processing_unique p f d :
  (forall id r, p id r = true -> processing r) -> (forall r, exists s n e q a, f r = set_row s n e q a r) ->
  unique_active (buffer d) = true -> unique_active (buffer (update_rows p f d)) = true.
Proof.
  intros Hp Hf. apply unique_active_mono. intros id r'. rewrite lookup_update_rows. intros (r & Hr & ->)%fmap_Some Ha.
  exists r. destruct (p id r) eqn:E; [|done]. destruct (Hf r) as (s & n & e & q & a & Hfr). rewrite Hfr in Ha |- *.
  split_and!; [done| |done]. eapply active_of_processing; [by eapply Hp|exact Ha].
Qed.

(** What leaves no new claim and keeps the index. *)
Definition calm (d d' : BufferDb) : Prop :=
  no_new_claims d d' /\ (unique_active (buffer d) = true -> unique_active (buffer d') = true).

#[export] Instance calm_preorder : PreOrder calm.
Proof.
  split; [by split|]. intros a b c [H1 H2] [H3 H4]. split; [by etransitivity|auto].
Qed.

Lemma renew_row_calm now id d : calm d (snd (renew_row now id d)).
Proof.
  split; [apply renew_row_no_new|]. apply unique_active_mono. unfold renew_row.
  destruct (buffer d !! id) as [r|] eqn:Er; [|eauto]. destruct (is_status "processing" r) eqn:Ep; [|eauto].
  intros i r'. simpl. destruct (decide (i = id)) as [-> | Hi].
  - rewrite lookup_insert_eq. intros [= <-] Ha. exists r. split_and!; [done| |done]. by eapply active_of_processing.
  - rewrite lookup_insert_ne by done. eauto.
Qed.

Lemma active_pending r r' : same_row r r' -> is_status "pending" r = true -> active_match r' = true -> active_match r = true.
Proof.
  intros [Ht Hi] Hp. unfold active_match, is_match. rewrite Hp, Ht, Hi. simpl. rewrite andb_true_r. by intros [-> _]%andb_true_iff.
Qed.

(** A claim only turns waiting rows into claimed ones. *)
Lemma claim_unique now limit ff d :
  unique_active (buffer d) = true -> unique_active (buffer (snd (claim_statement now limit ff d))) = true.
Proof.
  apply unique_active_mono. intros id r'. unfold claim_statement. simpl. rewrite map_lookup_imap.
  destruct (buffer d !! id) as [r|] eqn:Er; simpl; [|done]. intros [= <-] Ha. exists r.
  destruct (bool_decide_reflect (id ∈ map fst (claim_candidates now limit ff d))) as [Hin|Hout]; [|done].
  split_and!; [done| |done]. apply list_elem_of_fmap in Hin as ([i r0] & Hi & Hin). simpl in Hi. subst i.
  destruct (candidate_spec _ _ _ _ _ Hin) as (Hb & Hel & _). simpl in Hb. simplify_eq.
  unfold eligible_row in Hel. simpl in Hel. do 3 (apply andb_true_iff in Hel as [Hel _]).
  eapply active_pending; [|exact Hel|exact Ha]. done.
Qed.

(** ** A batch closes its claims *)

Section batch.
Context {W : Type} `{BufferServices W}.
Abbreviation X := (BufferDb * W)%type.
Variable flagged : bool.

(** The index holds, and only rows of [base] and of [ids] are claimed. *)
Definition open_in (base : Z -> Prop) (ids : list Z) (s : X) : Prop :=
  unique_active (buffer (fst s)) = true /\
  forall id r, buffer (fst s) !! id = Some r -> processing r -> base id \/ id ∈ ids.

(** Every statement gets through. *)
Definition answering_buffer : Prop := forall w, is_ok (fst (buffer_begin w)) = true.

(** [f] claims no row, and keeps the index. *)
Definition spares {A} (f : ST X A) : Prop := forall s, calm (fst s) (fst (snd (f s))).

(** The writers of entities, projections and caches claim nothing. *)
Record services_spare : Prop := {
  spare_headroom : spares headroom_snapshot;
  spare_relay : spares cleanup_relay_cache;
  spare_facts p : spares (finalize_payload p);
  spare_ranked id : spares (project_ranked id);
  spare_nonranked id : spares (project_nonranked id);
  spare_cumulative stage ids : spares (project_cumulative stage ids);
  spare_history row : spares (persist_history row);
  spare_entity entity_type row : spares (persist_entity entity_type row);
  spare_retention : spares audit_retention;
}.

(** [f], begun with the claims [pre], ends with those that [post] tells from
    its answer. *)
Definition leaves {A} (base : Z -> Prop) (pre : list Z) (f : ST X A) (post : A -> list Z) : Prop :=
  forall s, open_in base pre s -> let '(a, s') := f s in open_in base (post a) s'.

(** A success leaves the claims [post], a failure those of [pre]. *)
Definition answered {A E} (pre : list Z) (post : A -> list Z) (r : result A E) : list Z :=
  match r with Ok a => post a | Err _ => pre end.

Context (Hans : answering_buffer) (Hsp : services_spare) (base : Z -> Prop).

Lemma open_calm ids d d' w w' : calm d d' -> open_in base ids (d, w) -> open_in base ids (d', w').
Proof.
  intros [Hn Hu] [Hi Ho]. split; [by apply Hu|]. intros id r Hr Hp.
  destruct (Hn _ _ Hr Hp) as (r0 & ? & ? & _). by eapply Ho.
Qed.

Lemma open_sub ids ids' s : (forall id, id ∈ ids -> id ∈ ids') -> open_in base ids s -> open_in base ids' s.
Proof. intros Hs [Hu Ho]. split; [done|]. intros id r Hr Hp. destruct (Ho _ _ Hr Hp); eauto. Qed.

Lemma leaves_ret {A} ids (a : A) : leaves base ids (mret a) (fun _ => ids).
Proof. by intros s. Qed.

Lemma leaves_weaken {A} pre pre' (f : ST X A) post post' :
  leaves base pre f post -> (forall id, id ∈ pre' -> id ∈ pre) -> (forall a id, id ∈ post a -> id ∈ post' a) ->
  leaves base pre' f post'.
Proof.
  intros Hf Hp Hq s Hs. specialize (Hf s (open_sub _ _ _ Hp Hs)). destruct (f s) as [a s'].
  eapply open_sub; [|exact Hf]. apply Hq.
Qed.

Lemma leaves_bind {A B} pre (f : ST X A) mid (k : A -> ST X B) post :
  leaves base pre f mid -> (forall a, leaves base (mid a) (k a) post) -> leaves base pre (a ← f; k a) post.
Proof.
  intros Hf Hk s Hs. specialize (Hf s Hs). unfold mbind, ST_bind. destruct (f s) as [a s']. by apply Hk.
Qed.

(** A step that may fail; its failure leaves the claims of [mid]. *)
Lemma leaves_try {A B E} pre (f : ST X (result A E)) mid (k : A -> ST X (result B E)) post :
  leaves base pre f mid -> (forall a, leaves base (mid (Ok a)) (k a) post) ->
  (forall e id, id ∈ mid (Err e) -> id ∈ post (Err e)) ->
  leaves base pre (a <-? f; k a) post.
Proof.
  intros Hf Hk He s Hs. specialize (Hf s Hs). unfold try_bind. destruct (f s) as [[a|e] s']; [by apply Hk|].
  eapply open_sub; [|exact Hf]. apply He.
Qed.

Lemma leaves_spares {A} ids (f : ST X A) : spares f -> leaves base ids f (fun _ => ids).
Proof.
  intros Hf s Hs. specialize (Hf s). destruct s as [d w], (f (d, w)) as [x s']. destruct s' as [d' w'].
  eapply open_calm; [exact Hf|exact Hs].
Qed.

Lemma leaves_drop {A B} pre (f : ST X A) (k : ST X B) post :
  spares f -> leaves base pre k post -> leaves base pre (_ ← f; k) post.
Proof. intros Hf Hk. eapply leaves_bind; [by apply leaves_spares|]. intros x. exact Hk. Qed.

(** A statement: what it does to the buffer; every one gets through. *)
Lemma leaves_statement {A} pre err (f : Z -> BufferDb -> A * BufferDb) post :
  (forall now d w, open_in base pre (d, w) -> open_in base (post (fst (f now d))) (snd (f now d), w)) ->
  leaves base pre (buffer_statement f) (answered err post).
Proof.
  intros Hf [d w] Ho. unfold buffer_statement. simpl. specialize (Hans w).
  destruct (buffer_begin w) as [[now|e] w']; [|done]. specialize (Hf now d w' Ho). by destruct (f now d).
Qed.

Lemma leaves_read {A} pre err (f : Z -> BufferDb -> A) :
  leaves base pre (buffer_statement (fun now d => (f now d, d))) (answered err (fun _ => pre)).
Proof. apply (leaves_statement pre _ _ (fun _ => pre)). intros now d w Ho. exact Ho. Qed.

Lemma leaves_failing {A} pre (f : Z -> BufferDb -> result A RawBufferError * BufferDb) post :
  (forall now d w, open_in base pre (d, w) -> open_in base (answered pre post (fst (f now d))) (snd (f now d), w)) ->
  leaves base pre (failing_statement f) (answered pre post).
Proof.
  intros Hf s Ho. pose proof (leaves_statement pre pre f (answered pre post) Hf s Ho) as Hs.
  unfold failing_statement, try_bind. by destruct (buffer_statement f s) as [[a|e] s'].
Qed.

(** Updates that claim nothing. *)
Lemma leaves_update pre (f : Z -> BufferDb -> BufferDb) :
  (forall now d, no_new_claims d (f now d)) -> leaves base pre (buffer_update f) (answered pre (fun _ => pre)).
Proof.
  intros Hf. apply leaves_failing. intros now d w Ho. unfold indexed_update.
  destruct (unique_active (buffer (f now d))) eqn:E; [|exact Ho].
  eapply open_calm; [|exact Ho]. split; [apply Hf|by intros _].
Qed.

Lemma close_row_unique id f d r :
  (forall r, exists s n e q a, f r = set_row s n e q a r) -> buffer d !! id = Some r -> processing r ->
  unique_active (buffer d) = true -> unique_active (buffer (close_row id f d)) = true.
Proof.
  intros Hf Hr Hp. apply unique_active_mono. intros i r'. simpl. destruct (decide (i = id)) as [-> | Hi].
  - rewrite lookup_alter_eq, Hr. intros [= <-] Ha. exists r.
    destruct (Hf r) as (s & n & e & q & a & Hfr). rewrite Hfr in Ha |- *.
    split_and!; [done|by eapply active_of_processing|done].
  - rewrite lookup_alter_ne by done. eauto.
Qed.

(** The closing of the first claim: a claimed row cannot violate the index, so a
    refused update found the row already closed. *)
Lemma leaves_close id ids (f : Z -> BufferRow -> BufferRow) :
  (forall now r, ~ processing (f now r)) -> (forall now r, exists s n e q a, f now r = set_row s n e q a r) ->
  leaves base (id :: ids) (buffer_update (fun now => close_row id (f now))) (answered (id :: ids) (fun _ => ids)).
Proof.
  intros Hf Hset. apply leaves_failing. intros now d w Ho. unfold indexed_update.
  destruct (unique_active (buffer (close_row id (f now) d))) eqn:E; [|exact Ho]. destruct Ho as [_ Ho].
  split; [exact E|]. intros i r Hr Hp. simpl fst in Hr.
  destruct (close_row_spec id (f now) d (Hf now)) as [Hn Hc].
  destruct (Hn _ _ Hr Hp) as (r0 & Hr0 & Hp0 & _). destruct (Ho _ _ Hr0 Hp0) as [?|[-> | ?]%elem_of_cons]; auto.
  by destruct (Hc r).
Qed.

Lemma return_unique ids d : unique_active (buffer d) = true -> unique_active (buffer (return_claims ids d)) = true.
Proof. apply update_processing_unique; [by intros id r [_ H0]%andb_true_iff|]. intros r. by repeat eexists. Qed.

Lemma leaves_return rows rest :
  leaves base (map cl_id rows ++ rest) (return_claims_to_pending rows) (fun _ => rest).
Proof.
  unfold return_claims_to_pending. destruct (bool_decide_reflect (map cl_id rows = [])) as [-> | _].
  { intros s Hs. exact Hs. }
  intros [d w] [Hu Ho]. unfold buffer_update, failing_statement, buffer_statement, try_bind, indexed_update. cbn [fst snd].
  specialize (Hans w). destruct (buffer_begin w) as [[now|e] w']; [|done].
  rewrite return_unique by done. split; [by apply return_unique|]. intros i r Hr Hp. cbn [fst snd] in Hr.
  unfold return_claims in Hr. rewrite lookup_update_rows in Hr. apply fmap_Some in Hr as (r0 & Hr0 & ->).
  destruct (decide (i ∈ map cl_id rows)) as [Hi|Hi].
  - rewrite bool_decide_true in Hp by done. destruct (is_status "processing" r0) eqn:Es; [done|].
    unfold processing in Hp. simpl in Hp. congruence.
  - rewrite bool_decide_false in Hp by done. simpl in Hp. destruct (Ho _ _ Hr0 Hp) as [?|Hin]; [by left|].
    right. set_solver.
Qed.

(** *** One row *)

Lemma spares_ret {A} (a : A) : spares (mret a).
Proof. by intros s. Qed.

Lemma spares_bind {A B} (f : ST X A) (k : A -> ST X B) : spares f -> (forall a, spares (k a)) -> spares (a ← f; k a).
Proof.
  intros Hf Hk s. unfold mbind, ST_bind. specialize (Hf s). destruct (f s) as [a s']. simpl in Hf.
  etransitivity; [exact Hf|apply Hk].
Qed.

Lemma process_row_spares row facts_only : spares (process_row row facts_only).
Proof.
  destruct Hsp as [_ _ Hf Hr Hn _ Hh He _]. unfold process_row. case_match; [apply Hh|]. case_match.
  - unfold persist_match_row. destruct (from_buffer_rows (cl_raw_data row)) as [p|e]; [|apply spares_ret].
    case_match; [apply spares_ret|]. apply spares_bind; [apply Hf|]. intros [population|e]; [|apply spares_ret].
    case_match; [apply spares_ret|]. case_match; (apply spares_bind; [auto|]; intros a; apply spares_ret).
  - case_match; [apply He|apply spares_ret].
Qed.

Lemma leaves_answer {A E} pre ids (a : A) : leaves base ids (mret (Ok a : result A E)) (answered pre (fun _ => ids)).
Proof. intros s Hs. exact Hs. Qed.

Lemma leaves_closed {A} (id : Z) ids (f : Z -> BufferRow -> BufferRow) (a : A) :
  (forall now r, ~ processing (f now r)) -> (forall now r, exists s n e q a, f now r = set_row s n e q a r) ->
  leaves base (id :: ids) (_ <-? buffer_update (fun now => close_row id (f now)); mret (Ok a))
    (answered (id :: ids) (fun _ => ids)).
Proof.
  intros Hf Hset. eapply leaves_try; [by apply leaves_close|intros []; apply leaves_answer|intros e i Hi; exact Hi].
Qed.

Ltac close_claim := apply leaves_closed; [intros now r; by try apply failed_or_deferred_closes|by repeat eexists].

Lemma process_claimed_row_closes row ids headroom facts_only :
  leaves base (cl_id row :: ids) (process_claimed_row row headroom facts_only)
    (answered (cl_id row :: ids) (fun _ => ids)).
Proof.
  unfold process_claimed_row.
  eapply leaves_try with (mid := answered (cl_id row :: ids) (fun renewed : bool => if renewed then cl_id row :: ids else ids)).
  { apply leaves_statement. intros now d w Ho. pose proof (renew_row_calm now (cl_id row) d) as Hn.
    pose proof (renew_row_refused now (cl_id row) d) as Hr. destruct (fst (renew_row now (cl_id row) d)) eqn:E.
    - eapply open_calm; [exact Hn|exact Ho].
    - destruct Ho as [Hu Ho]. split; [by apply Hn|]. intros i r Hi Hp.
      destruct (proj1 Hn _ _ Hi Hp) as (r0 & H0 & P0 & _).
      destruct (Ho _ _ H0 P0) as [?|[-> | ?]%elem_of_cons]; auto. by destruct (Hr eq_refl r). }
  2: { intros e id Hid. exact Hid. }
  intros [|]; cbn [answered negb]; [|apply leaves_answer]. case_match; [close_claim|].
  eapply leaves_bind; [apply leaves_spares, process_row_spares|]. intros [u|error].
  - case_match; [|close_claim].
    eapply leaves_try with (mid := answered (cl_id row :: ids) (fun _ => cl_id row :: ids)); [| |intros e id Hid; exact Hid].
    + apply leaves_failing. intros now d w Ho. simpl. destruct (parse_i64 (cl_entity_id row)); exact Ho.
    + intros [|]; cbn [answered]; close_claim.
  - eapply leaves_try with (mid := answered (cl_id row :: ids) (fun _ => cl_id row :: ids)); [| |intros e id Hid; exact Hid].
    + unfold match_facts_are_durable. case_match; [|apply leaves_answer]. case_match; [apply leaves_read|apply leaves_answer].
    + intros durable. cbn [answered]. close_claim.
Qed.

(** *** The adaptive projections claim nothing *)

Lemma spares_try {A B E} (f : ST X (result A E)) (k : A -> ST X (result B E)) :
  spares f -> (forall a, spares (k a)) -> spares (a <-? f; k a).
Proof.
  intros Hf Hk s. unfold try_bind. specialize (Hf s). destruct (f s) as [[a|e] s']; simpl in Hf; [|exact Hf].
  etransitivity; [exact Hf|apply Hk].
Qed.

Lemma spares_statement {A} (f : Z -> BufferDb -> A * BufferDb) :
  (forall now d, calm d (snd (f now d))) -> spares (buffer_statement f).
Proof.
  intros Hf [d w]. unfold buffer_statement. simpl. destruct (buffer_begin w) as [[now|e] w']; [|done].
  specialize (Hf now d). by destruct (f now d).
Qed.

Lemma spares_update (f : Z -> BufferDb -> BufferDb) : (forall now d, no_new_claims d (f now d)) -> spares (buffer_update f).
Proof.
  intros Hf. unfold buffer_update, failing_statement. apply spares_try; [|intros a; apply spares_ret].
  apply spares_statement. intros now d. unfold indexed_update.
  destruct (unique_active (buffer (f now d))) eqn:E; [|done].
  split; [apply Hf|by intros _].
Qed.

Lemma spares_renew rows : spares (renew_claimed_rows rows).
Proof.
  unfold renew_claimed_rows. case_match; [apply spares_ret|]. apply spares_update. intros. apply renew_rows_no_new.
Qed.

Lemma spares_chunks fuel rows stage pending fallback : spares (project_chunks fuel rows stage pending fallback).
Proof.
  revert pending fallback. induction fuel as [|fuel IH]; intros [|c p] fb; simpl; try apply spares_ret.
  apply spares_bind; [apply spares_renew|]. intros [u|e]; [|apply spares_ret].
  apply spares_bind; [apply Hsp|]. intros projected. case_match; [apply IH|]. case_match; apply IH.
Qed.

Lemma spares_projections rows : spares (apply_adaptive_ranked_projection_batches rows).
Proof.
  unfold apply_adaptive_ranked_projection_batches. apply spares_bind; [apply spares_renew|]. intros u.
  case_match; [apply spares_ret|]. apply spares_bind; [by apply spares_statement|]. intros [ids|e]; [|apply spares_ret].
  apply spares_bind; [apply spares_chunks|]. intros [[fb|e]|]; try apply spares_ret.
  apply spares_bind; [by apply spares_statement|]. intros [ids'|e]; [|apply spares_ret].
  apply spares_bind; [apply spares_renew|]. intros u'. case_match; [|apply spares_ret].
  apply spares_bind; [apply spares_chunks|]. intros fb'. apply spares_ret.
Qed.

Lemma spares_stopped : spares (stopped flagged).
Proof. intros [d w]. unfold stopped. case_match; [|done]. simpl. by destruct (stop_requested w). Qed.

(** *** The two lanes *)

Lemma fact_lane_row_closes row ids headroom :
  leaves base (cl_id row :: ids) (fact_lane_row flagged row headroom) (fun _ => ids).
Proof.
  unfold fact_lane_row. eapply leaves_bind; [apply leaves_spares, spares_stopped|]. intros [|]; cbn [answered].
  - eapply leaves_try; [apply (leaves_return [row] ids)| |done]. intros []. apply leaves_ret.
  - eapply leaves_bind; [apply process_claimed_row_closes|]. intros [r|e]; cbn [answered]; [apply leaves_ret|].
    eapply leaves_bind; [apply (leaves_return [row] ids)|]. intros u. apply leaves_ret.
Qed.

Lemma fact_lane_closes rows ids headroom t :
  leaves base (map cl_id rows ++ ids) (fact_lane flagged rows headroom t) (fun _ => ids).
Proof.
  revert t. induction rows as [|row rows IH]; intros t; simpl; [apply leaves_ret|].
  eapply leaves_bind; [apply fact_lane_row_closes|]. intros o. apply IH.
Qed.

Lemma derived_lane_closes rows headroom t :
  leaves base (map cl_id rows) (derived_lane flagged rows headroom t) (fun _ => []).
Proof.
  revert t. induction rows as [|row rows IH]; intros t; cbn [derived_lane]; [apply leaves_ret|].
  assert (forall A (k : ST X (result A RawBufferError)), spares k ->
    leaves base (map cl_id (row :: rows)) (_ <-? return_claims_to_pending (row :: rows); k) (fun _ => [])) as Hreturn.
  { intros A k Hk. eapply leaves_try with (mid := fun _ => []); [|intros []; by apply leaves_spares|done].
    rewrite <- (app_nil_r (map cl_id (row :: rows))). apply leaves_return. }
  eapply leaves_bind; [apply leaves_spares, spares_stopped|]. intros stop.
  eapply leaves_try with (mid := answered [] (fun _ => map cl_id (row :: rows))); [| |done].
  { case_match; [apply leaves_answer|]. unfold facts_came_in. case_match; [apply leaves_read|apply leaves_answer]. }
  intros [|]; cbn [answered]; [apply Hreturn, spares_ret|].
  eapply leaves_bind; [apply process_claimed_row_closes|]. intros [r|e]; cbn [answered]; [apply IH|].
  eapply leaves_weaken; [apply Hreturn, spares_ret|set_solver|done].
Qed.
(** *** A batch *)

Lemma process_claims_closes rows headroom :
  leaves base (map cl_id rows) (process_claims flagged rows headroom) (fun _ => []).
Proof.
  unfold process_claims. eapply leaves_weaken with (pre := _ ++ map cl_id (List.filter (fun row => negb (fact_row row)) rows));
    [|intros id Hid|intros a id Hid; exact Hid].
  - eapply leaves_bind; [apply fact_lane_closes|]. intros facts. eapply leaves_drop; [apply spares_projections|].
    eapply leaves_try with (mid := fun _ => []); [apply derived_lane_closes|intros done_|done].
    eapply leaves_bind; [apply leaves_spares, spares_stopped|]. intros [|]; [apply leaves_ret|].
    eapply leaves_bind; [apply leaves_spares, Hsp|]. intros r. apply leaves_ret.
  - apply list_elem_of_fmap in Hid as (row & -> & Hrow). apply elem_of_app.
    destruct (fact_row row) eqn:E; [left|right]; apply list_elem_of_fmap_2, list_elem_of_In, filter_In;
      (split; [by apply list_elem_of_In|by rewrite ?E]).
Qed.

(** [f], if it succeeds, ends with the claims [post]. *)
Definition ends {A E} (pre : list Z) (f : ST X (result A E)) (post : A -> list Z) : Prop :=
  forall s, open_in base pre s -> match f s with (Ok a, s') => open_in base (post a) s' | (Err _, _) => True end.

Lemma ends_leaves {A E} pre err (f : ST X (result A E)) post : leaves base pre f (answered err post) -> ends pre f post.
Proof. intros Hf s Hs. specialize (Hf s Hs). by destruct (f s) as [[a|e] s']. Qed.

Lemma ends_try {A B E} pre (f : ST X (result A E)) mid (k : A -> ST X (result B E)) post :
  ends pre f mid -> (forall a, ends (mid a) (k a) post) -> ends pre (a <-? f; k a) post.
Proof.
  intros Hf Hk s Hs. specialize (Hf s Hs). unfold try_bind. destruct (f s) as [[a|e] s']; [by apply Hk|done].
Qed.

Lemma ends_bind {A B E} pre (f : ST X A) (k : A -> ST X (result B E)) post :
  spares f -> (forall a, ends pre (k a) post) -> ends pre (a ← f; k a) post.
Proof.
  intros Hf Hk s Hs. pose proof (leaves_spares _ _ Hf s Hs) as Ho. unfold mbind, ST_bind.
  destruct (f s) as [a s']. by apply Hk.
Qed.

Lemma claim_rows_ends size : ends [] (claim_rows size) (map cl_id).
Proof.
  unfold claim_rows. eapply ends_try; [apply (ends_leaves _ []), leaves_read|]. intros ff.
  intros [d w] [Hu Ho]. unfold failing_statement, try_bind, buffer_statement. cbn [fst snd].
  pose proof (fun now => claim_unique now (Z.to_nat (Z.max 1 size)) ff d Hu) as Huc.
  destruct (buffer_begin w) as [[now|e] w']; [|done].
  specialize (Huc now). pose proof (claim_answers now (Z.to_nat (Z.max 1 size)) ff d) as Hrows.
  pose proof (claimed_after now (Z.to_nat (Z.max 1 size)) ff d) as Hafter.
  destruct (claim_statement now (Z.to_nat (Z.max 1 size)) ff d) as [[rows|e] d1]; simpl; [|exact I].
  split; [exact Huc|]. intros id r Hr Hp. destruct (Hafter _ _ Hr Hp) as (r0 & Hr0 & _ & [Hp0|Hc]).
  - destruct (Ho _ _ Hr0 Hp0) as [?|?%elem_of_nil]; [by left|done].
  - right. apply (Hrows rows eq_refl). by apply (list_elem_of_fmap_2 fst _ (id, r0)).
Qed.

Lemma batch_ends size : ends [] (process_raw_buffer_batch_inner flagged size) (fun _ => []).
Proof.
  unfold process_raw_buffer_batch_inner. apply ends_bind; [apply spares_stopped|]. intros [|]; [by intros s Hs|].
  apply ends_bind; [apply Hsp|]. intros [headroom|e]; [|done]. apply ends_bind; [apply Hsp|]. intros u.
  eapply ends_try; [eapply ends_leaves, leaves_update; intros; apply recover_no_new|intros u1; simpl].
  eapply ends_try; [eapply ends_leaves, leaves_update; intros; apply requeue_no_new|intros u2; simpl].
  eapply ends_try; [apply claim_rows_ends|]. intros rows.
  destruct (bool_decide_reflect (map cl_id rows = [])) as [-> | _]; [by intros s Hs|].
  apply ends_bind; [apply spares_stopped|]. intros [|].
  - eapply ends_try with (mid := fun _ => []); [|by intros x s Hs]. apply (ends_leaves _ []).
    eapply leaves_weaken; [apply (leaves_return rows [])|set_solver|by intros a id Hid%elem_of_nil].
  - apply (ends_leaves _ []). eapply leaves_weaken; [apply process_claims_closes|done|by intros a id Hid%elem_of_nil].
Qed.
End batch.

(** C10. While the database answers every statement, the index of active rows
    holds, and nobody else claims a row or breaks that index, a batch that
    succeeds leaves no claim of its own behind: every row that is claimed after
    it was claimed before it.  Whatever the rows are, whatever their writers
    answer, and wherever the batch is told to stop, each row it took is
    processed, failed, waiting again, or gone. *)
Theorem batch_closes_claims {W} `{BufferServices W} flagged size d w result d' w' :
  answering_buffer -> services_spare -> unique_active (buffer d) = true ->
  process_raw_buffer_batch_inner flagged size (d, w) = (Ok result, (d', w')) ->
  forall id r', buffer d' !! id = Some r' -> processing r' ->
  exists r, buffer d !! id = Some r /\ processing r.
Proof.
  intros Ha Hs Hu E id r' Hr Hp.
  pose proof (batch_ends flagged Ha Hs (fun id => exists r, buffer d !! id = Some r /\ processing r) size (d, w)) as He.
  rewrite E in He. destruct He as [_ He]; [split; [exact Hu|by left; eauto]|].
  destruct (He id r' Hr Hp) as [?|?%elem_of_nil]; done.
Qed.

(** ** A repair that cannot be made *)

(** Two processed rows of one match, whose ranked stages are not complete. *)
Definition repair_conflict (i j : Z) (d : BufferDb) : Prop :=
  i <> j /\ exists r r', buffer d !! i = Some r /\ buffer d !! j = Some r' /\ rb_entity_id r = rb_entity_id r' /\
  Forall (fun x => is_status "processed" x = true /\ is_match x = true /\ missing_projection d x = true) [r; r'].

Lemma match_id_nonempty e id : match_id_of e = Some id -> is_empty (default "" e) = false.
Proof. unfold match_id_of. destruct e as [s|]; simpl; [|done]. by destruct (is_empty s). Qed.

Lemma repair_violates i j now d : repair_conflict i j d -> unique_active (buffer (requeue_incomplete_ranked_projections now d)) = false.
Proof.
  intros (Hne & r & r' & Hi & Hj & He & Hrows). apply Forall_cons in Hrows as [(Pi & Mi & Xi) Hrows].
  apply Forall_cons in Hrows as [(Pj & Mj & Xj) _]. apply not_true_iff_false. rewrite unique_active_spec. intros Hu.
  apply Hne. unfold requeue_incomplete_ranked_projections in Hu.
  assert (forall x, is_match x = true -> missing_projection d x = true -> forall msg,
    active_match (set_row "pending" (rb_retry_count x) msg None now x) = true) as Hact.
  { intros x Mx Xx msg. unfold missing_projection in Xx. destruct (match_id_of (rb_entity_id x)) as [id|] eqn:E; [|done].
    apply match_id_nonempty in E. unfold active_match, is_match in *. simpl. by rewrite Mx, E. }
  eapply (Hu i j); rewrite ?lookup_update_rows, ?Hi, ?Hj; simpl; rewrite ?Pi, ?Mi, ?Xi, ?Pj, ?Mj, ?Xj; simpl;
    try reflexivity; by try apply Hact.
Qed.

Lemma recover_keeps_others now d id r :
  buffer d !! id = Some r -> is_status "processing" r = false -> buffer (recover_stale_leases_for now None d) !! id = Some r.
Proof. intros Hr Hp. unfold recover_stale_leases_for. rewrite lookup_update_rows, Hr. simpl. by rewrite Hp. Qed.

Lemma recover_keeps_conflict i j now d : repair_conflict i j d -> repair_conflict i j (recover_stale_leases_for now None d).
Proof.
  intros (Hne & r & r' & Hi & Hj & He & Hrows). split; [done|]. exists r, r'.
  pose proof Hrows as Hall. apply Forall_cons in Hrows as [(Pi & _) Hrows]. apply Forall_cons in Hrows as [(Pj & _) _].
  assert (forall x, is_status "processed" x = true -> is_status "processing" x = false) as Hst.
  { intros x. unfold is_status. by intros ->%String.eqb_eq. }
  split_and!; [by apply recover_keeps_others; [|apply Hst]..|done|exact Hall].
Qed.

(** The services of a batch before its claim touch no table. *)
Definition untouched {W A} (f : ST (BufferDb * W) A) : Prop := forall s, fst (snd (f s)) = fst s.

(** A repair that would break the index stops the buffer.  Two processed
    rows of one ranked match whose later stages are missing make every batch
    that is not told to stop fail: the repair before the claim turns both into
    waiting rows, which the unique index of active match rows refuses, so the
    batch ends in an error, nothing is claimed, every waiting row still waits,
    and the two rows are as they were for the next batch. *)
Theorem repair_conflict_stops_batch {W} `{BufferServices W} i j size d w :
  repair_conflict i j d -> untouched (W := W) headroom_snapshot -> untouched (W := W) cleanup_relay_cache ->
  let '(answer, (d', w')) := process_raw_buffer_batch_inner false size (d, w) in
  is_ok answer = false /\ repair_conflict i j d' /\
  forall id r, buffer d !! id = Some r -> is_status "pending" r = true -> buffer d' !! id = Some r.
Proof.
  intros Hc Hh Hr. unfold process_raw_buffer_batch_inner, stopped, mbind, ST_bind.
  specialize (Hh (d, w)). destruct (headroom_snapshot (d, w)) as [[headroom|e] [d1 w1]]; simpl in Hh; subst d1; [|by split_and!].
  specialize (Hr (d, w1)). destruct (cleanup_relay_cache (d, w1)) as [u [d2 w2]]. simpl in Hr. subst d2.
  unfold try_bind at 1, buffer_update at 1, failing_statement, try_bind at 1, buffer_statement. cbn [fst snd].
  destruct (buffer_begin w2) as [[now|e] w3]; [|by split_and!]. unfold indexed_update at 1.
  destruct (unique_active (buffer (recover_stale_leases_for now None d))); cbn [mret ST_ret]; [|by split_and!].
  pose proof (recover_keeps_conflict i j now d Hc) as Hc1.
  assert (forall id r, buffer d !! id = Some r -> is_status "pending" r = true ->
    buffer (recover_stale_leases_for now None d) !! id = Some r) as Hw.
  { intros id r Hid Hp. apply recover_keeps_others; [done|]. unfold is_status in *. by apply String.eqb_eq in Hp as ->. }
  unfold try_bind at 1, buffer_update, failing_statement, try_bind at 1, buffer_statement. cbn [fst snd].
  destruct (buffer_begin w3) as [[now'|e] w4]; [|by split_and!]. unfold indexed_update.
  rewrite (repair_violates i j) by done. by split_and!.
Qed.

(** ** The adaptive projections *)

Section adaptive.
Context {W : Type} `{BufferServices W}.
Abbreviation X := (BufferDb * W)%type.

Definition stage_name (stage : CumulativeProjectionStage) : string :=
  match stage with Performance => "performance_projections" | Scalable => "scalable_stats" end.

(** The ledger has the stage of the match. *)
Definition staged (stage : CumulativeProjectionStage) (id : Z) (s : X) : Prop :=
  has_stages [stage_name stage] (buffer_ledger (fst s)) id = true.

(** A projection that succeeds has staged its matches; none undoes a stage. *)
Record projection_contract (stage : CumulativeProjectionStage) : Prop := {
  projects ids s s' : project_cumulative stage ids s = (Ok tt, s') -> forall id, id ∈ ids -> staged stage id s';
  projects_only ids s id : staged stage id s -> staged stage id (snd (project_cumulative stage ids s));
}.

(** The match was tried alone, and failed. *)
Definition failed_alone (stage : CumulativeProjectionStage) (id : Z) : Prop :=
  exists s e s', project_cumulative stage [id] s = (Err e, s').

Fixpoint turns_needed (pending : list (list Z)) : nat :=
  match pending with [] => 0 | c :: r => (2 * length c - 1) + turns_needed r end.

Lemma turns_needed_concat pending :
  Forall (fun c => c <> []) pending -> (turns_needed pending <= 2 * length (concat pending))%nat.
Proof.
  induction 1 as [|c r Hc Hr IH]; simpl; [lia|]. rewrite length_app. destruct c; [done|]. simpl in *. lia.
Qed.

Lemma div_ceil2_bounds n : (1 < n)%nat -> (0 < div_ceil2 n < n)%nat.
Proof.
  intros Hn. unfold div_ceil2. pose proof (Nat.div_mod_eq n 2). pose proof (Nat.mod_upper_bound n 2). lia.
Qed.

(** Halving a chunk saves at least a turn. *)
Lemma turns_needed_split c r :
  (1 < length c)%nat ->
  let m := div_ceil2 (length c) in
  take m c <> [] /\ drop m c <> [] /\ (S (turns_needed (take m c :: drop m c :: r)) <= turns_needed (c :: r))%nat.
Proof.
  intros Hl m. pose proof (div_ceil2_bounds (length c) Hl) as Hm. fold m in Hm.
  assert (length (take m c) = m) as Ht by (rewrite length_take; lia).
  assert (length (drop m c) = length c - m)%nat as Hd by apply length_drop.
  split_and!; [intros E; rewrite E in Ht; simpl in Ht; lia|intros E; rewrite E in Hd; simpl in Hd; lia|].
  simpl. rewrite Ht, Hd. lia.
Qed.

Lemma renew_claimed_matches_ledger rows ids s :
  buffer_ledger (fst (snd (renew_claimed_matches rows ids s))) = buffer_ledger (fst s).
Proof.
  unfold renew_claimed_matches, renew_claimed_rows. case_match; [done|].
  unfold buffer_update, failing_statement, try_bind, buffer_statement, indexed_update.
  destruct (buffer_begin (snd s)) as [[now|e] w]; [|done]. by destruct (unique_active _).
Qed.

Context (stage : CumulativeProjectionStage) (Hc : projection_contract stage).

(** The loop with [fuel] iterations left: [seen] are the matches whose chunk
    has been taken off. *)
Lemma project_chunks_spec fuel rows pending fallback seen s :
  Forall (fun c => c <> []) pending -> (turns_needed pending <= fuel)%nat ->
  (forall id, id ∈ seen -> id ∈ fallback \/ staged stage id s) ->
  (forall id, id ∈ fallback -> id ∈ seen /\ failed_alone stage id) ->
  exists r s', project_chunks fuel rows stage pending fallback s = (Some r, s') /\
  forall left_, r = Ok left_ ->
    (forall id, id ∈ seen ++ concat pending -> id ∈ left_ \/ staged stage id s') /\
    (forall id, id ∈ left_ -> id ∈ seen ++ concat pending /\ failed_alone stage id).
Proof.
  revert pending fallback seen s. induction fuel as [|fuel IH]; intros [|c pending] fb seen s Hne Hfuel Hseen Hfb.
  1,3: exists (Ok fb), s; split; [done|]; intros l [= <-]; simpl; rewrite app_nil_r; done.
  { apply Forall_cons in Hne as [Hne _]. destruct c; [done|]. simpl in Hfuel. lia. }
  apply Forall_cons in Hne as [Hcne Hne]. cbn [project_chunks]. unfold mbind, ST_bind.
  pose proof (renew_claimed_matches_ledger rows c s) as Hl.
  destruct (renew_claimed_matches rows c s) as [[u|e] s1]; [|by exists (Err e), s1].
  assert (forall id, id ∈ seen -> id ∈ fb \/ staged stage id s1) as Hseen1
    by (unfold staged in *; simpl in Hl; rewrite Hl; exact Hseen).
  pose proof (projects _ Hc c s1) as Hp. pose proof (projects_only _ Hc c s1) as Hk.
  destruct (project_cumulative stage c s1) as [[[]|e] s2] eqn:E; simpl in Hk |- *.
  - destruct (IH pending fb (seen ++ c) s2) as (r & s' & -> & Hr); [done| | | |].
    + destruct c; [done|]. simpl in *. lia.
    + intros id [Hin|Hin]%elem_of_app; [destruct (Hseen1 _ Hin); auto|]. right. by eapply Hp.
    + intros id Hin. destruct (Hfb _ Hin). set_solver.
    + exists r, s'. split; [done|]. intros l Hl0. rewrite <- app_assoc in Hr. by apply Hr.
  - destruct (1 <? length c)%nat eqn:Elen.
    + apply Nat.ltb_lt in Elen. destruct (turns_needed_split c pending Elen) as (Ht & Hd & Hn).
      destruct (IH (take (div_ceil2 (length c)) c :: drop (div_ceil2 (length c)) c :: pending) fb seen s2)
        as (r & s' & -> & Hr); [by repeat constructor|lia| |done|].
      * intros id Hin. destruct (Hseen1 _ Hin); auto.
      * exists r, s'. split; [done|]. intros l Hl0. specialize (Hr l Hl0). simpl in Hr |- *.
        rewrite (app_assoc (take _ _)), take_drop in Hr. exact Hr.
    + apply Nat.ltb_ge in Elen. destruct c as [|x [|y c]]; [done| |simpl in Elen; lia].
      destruct (IH pending ([x] ++ fb) (seen ++ [x]) s2) as (r & s' & -> & Hr); [done|simpl in *; lia| | |].
      * intros id [Hin|Hin]%elem_of_app; [destruct (Hseen1 _ Hin); [set_solver|by right; apply Hk]|set_solver].
      * intros id [->%list_elem_of_singleton|Hin]%elem_of_app; [|destruct (Hfb _ Hin); set_solver].
        split; [set_solver|]. by exists s1, e, s2.
      * exists r, s'. split; [done|]. intros l Hl0. rewrite <- app_assoc in Hr. by apply Hr.
Qed.
End adaptive.

Lemma cumulative_batch_size_positive {W} `{BufferServices W} : 1 <= cumulative_batch_size <= 25.
Proof.
  unfold cumulative_batch_size. destruct (buffer_env "CUMULATIVE_PROJECTION_BATCH_SIZE") as [s|]; simpl; [|lia].
  destruct (parse_usize s) as [n|]; simpl; [|lia]. destruct (0 <? n) eqn:E; simpl; lia.
Qed.

(** The adaptive projections end and leave no match out.  Whatever chunks
    fail, the loop that halves them stops within twice as many iterations as
    there are matches; when it reports its fallback, every candidate has the
    stage in the ledger or is in the fallback, and the fallback holds only
    candidates that failed alone. *)
Theorem adaptive_projection_ends {W} `{BufferServices W} rows candidates stage s :
  projection_contract stage ->
  exists r s', apply_adaptive_projection_stage rows candidates stage s = (Some r, s') /\
  forall fallback, r = Ok fallback ->
    (forall id, id ∈ candidates -> id ∈ fallback \/ staged stage id s') /\
    (forall id, id ∈ fallback -> id ∈ candidates /\ failed_alone stage id).
Proof.
  intros Hc. unfold apply_adaptive_projection_stage, chunk_turns, chunks.
  pose proof cumulative_batch_size_positive as Hb.
  assert (Forall (fun c => c <> []) (chunks_fuel (length candidates) (Z.to_nat cumulative_batch_size) candidates)) as Hne.
  { apply Forall_forall. intros c Hin. eapply chunks_fuel_sizes in Hin as [? _]; [done|lia]. }
  pose proof (turns_needed_concat _ Hne) as Ht.
  assert (concat (chunks_fuel (length candidates) (Z.to_nat cumulative_batch_size) candidates) = candidates) as Hcat
    by (apply chunks_fuel_concat; lia).
  destruct (project_chunks_spec stage Hc (2 * length candidates) rows _ [] [] s Hne) as (r & s' & E & Hr);
    [by rewrite Hcat in Ht|set_solver|set_solver|].
  exists r, s'. split; [exact E|]. intros fb Hfb. specialize (Hr fb Hfb). simpl in Hr. by rewrite Hcat in Hr.
Qed.

(** * A buffer to evaluate

    Writers that accept every entity, projections that fail whenever match 13
    is among theirs, and the theorems of RawBufferSpec at work on them. *)

#[local] Abbreviation X := (BufferDb * unit)%type.

Definition all_stages : IngestRow :=
  {| row_status := "processing"; row_completed_stages := ["performance_projections"; "scalable_stats"];
     row_source := None; row_attempts := 0; row_error_message := None; row_queue_id := None;
     row_population := "ranked"; row_acquisition_state := "discovered"; detail_attempted_at := None;
     roster_resolved_at := None; demo_resolved_at := None; row_direct_player_count := 0;
     row_roster_player_count := 0; row_unresolved_player_ids := []; lease_owner := None; lease_until := None;
     started_at := 0; updated_at := 0; completed_at := None |}.

Definition stage_all (ids : list Z) (l : ledger) : ledger := foldr (fun id l => <[id := all_stages]> l) l ids.

Definition accept {A E} (a : A) : ST X (result A E) := mret (Ok a).

#[local] Instance buffer_double : BufferServices unit := {|
  buffer_begin := fun w => (Ok 1000, w);
  database_message := fun condition => condition;
  stop_requested := fun w => (false, w);
  buffer_env := fun _ => Some "2";
  headroom_snapshot := accept (api_headroom_snapshot 0 []);
  cleanup_relay_cache := mret tt;
  buffer_decoder := fun _ => "invalid type";
  finalize_payload := fun _ => accept Unknown;
  project_ranked := fun _ => accept tt;
  project_nonranked := fun _ => accept tt;
  project_cumulative := fun _ ids s =>
    if bool_decide (13 ∈ ids) then (Err "division by zero", s)
    else (Ok tt, ({| buffer := buffer (fst s); buffer_ledger := stage_all ids (buffer_ledger (fst s));
                     ranked_matches := ranked_matches (fst s) |}, snd s));
  persist_history := fun _ => accept tt;
  persist_entity := fun _ _ => accept tt;
  audit_retention := accept tt;
|}.

Definition waiting (entity_type : string) (entity_id : option string) : BufferRow :=
  {| rb_raw_data := Array []; rb_endpoint := "getitems"; rb_entity_type := entity_type; rb_entity_id := entity_id;
     rb_status := "pending"; rb_retry_count := 0; rb_error_message := None; rb_created_at := 1;
     rb_processed_at := None; rb_available_at := 1 |}.

Definition empty_buffer : BufferDb := {| buffer := ∅; buffer_ledger := ∅; ranked_matches := ∅ |}.

(** Two rows of one match, an item and a row nobody knows. *)
Definition four_rows : BufferDb := with_buffer (list_to_map
  [(1, waiting "match" (Some "77")); (2, waiting "match" (Some "77")); (3, waiting "item" None);
   (4, waiting "teapot" None)]) empty_buffer.

(** An item, a row nobody knows, and a claim of another process. *)
Definition other_rows : BufferDb := with_buffer (list_to_map
  [(3, waiting "item" None); (4, waiting "teapot" None);
   (5, set_row "processing" 0 None (Some 1) 1 (waiting "match" (Some "78")))]) empty_buffer.

Definition ranked_row : IngestRow :=
  {| row_status := "processing"; row_completed_stages := ["player_facts"; "match_bans"; "ranked_stats"];
     row_source := None; row_attempts := 0; row_error_message := None; row_queue_id := Some 486;
     row_population := "ranked"; row_acquisition_state := "discovered"; detail_attempted_at := None;
     roster_resolved_at := None; demo_resolved_at := None; row_direct_player_count := 10;
     row_roster_player_count := 10; row_unresolved_player_ids := []; lease_owner := None; lease_until := None;
     started_at := 0; updated_at := 0; completed_at := None |}.

(** Match 77 in two processed rows, before its later stages, and an item. *)
Definition twice_processed : BufferDb := {|
  buffer := list_to_map
    [(1, set_row "processed" 0 None (Some 1) 1 (waiting "match" (Some "77")));
     (2, set_row "processed" 0 None (Some 1) 1 (waiting "match" (Some "77"))); (3, waiting "item" None)];
  buffer_ledger := {[77 := ranked_row]}; ranked_matches := {[77]} |}.

Lemma staged_stage_all stage ids (l : ledger) id :
  has_stages [stage_name stage] (stage_all ids l) id
  = bool_decide (id ∈ ids) || has_stages [stage_name stage] l id.
Proof.
  induction ids as [|i ids IH]; simpl; [done|]. unfold has_stages in *. destruct (decide (id = i)) as [-> | Hi].
  - rewrite lookup_insert_eq. rewrite bool_decide_true by set_solver. by destruct stage.
  - rewrite lookup_insert_ne by done. rewrite IH. f_equal. apply bool_decide_ext. set_solver.
Qed.

Lemma double_projections stage : projection_contract stage.
Proof.
  split; intros ids s; simpl; unfold staged; case_bool_decide; try done.
  - intros s' [= <-] id Hid. simpl. rewrite staged_stage_all.
    by rewrite (bool_decide_true (id ∈ ids)).
  - intros id Hid. simpl. rewrite staged_stage_all, Hid. apply orb_true_r.
Qed.

Lemma double_spares : services_spare (W := unit).
Proof.
  split; intros; intros s; cbn; try case_bool_decide; (split; [intros i r Hr Hp; by exists r|done]).
Qed.

(** Four matches in chunks of two: the chunk with match 13 is halved. *)
Example projection_fallback :
  fst (apply_adaptive_projection_stage [] [11; 12; 13; 14] Performance (empty_buffer, tt)) = Some (Ok [13]).
Proof. reflexivity. Qed.

Definition ranked_again : BufferDb -> BufferDb := fun d =>
  {| buffer := buffer d; buffer_ledger := buffer_ledger d; ranked_matches := {[77]} |}.

Lemma match_claimed_once_witness :
  let d := snd (claim_statement 1000 10 true four_rows) in
  map fst (claim_candidates 1000 10 true four_rows) = [1] /\ exclusive (snd (claim_statement 1001 10 true (ranked_again d))).
Proof.
  cbv zeta. split; [reflexivity|].
  apply (match_claimed_once four_rows).
  - set (d := snd (claim_statement 1000 10 true four_rows)).
    apply (rtc_l _ _ d); [exact (step_claim 1000 10 true four_rows)|].
    apply (rtc_l _ _ (ranked_again d)); [exact (step_tables (buffer_ledger d) {[77]} d)|].
    apply rtc_once. exact (step_claim 1001 10 true (ranked_again d)).
  - intros i j r r' m Hi Hj Pi. exfalso. revert Hi Pi. unfold four_rows. simpl. rewrite !lookup_insert_Some.
    intros [[_ <-]|[_ [[_ <-]|[_ [[_ <-]|[_ [[_ <-]|[_ Hi]]]]]]]]; done.
Defined.

Lemma batch_closes_claims_witness :
  exists result d', process_raw_buffer_batch_inner false 10 (other_rows, tt) = (Ok result, (d', tt)) /\
  (bb_processed result, bb_failed result) = (1, 1) /\
  (fun i => rb_status <$> buffer d' !! i) <$> [3; 4; 5] = [Some "processed"; Some "failed"; Some "processing"] /\
  forall id r', buffer d' !! id = Some r' -> processing r' -> exists r, buffer other_rows !! id = Some r /\ processing r.
Proof.
  destruct (process_raw_buffer_batch_inner false 10 (other_rows, tt)) as [[result|e] [d' []]] eqn:E.
  - exists result, d'. split_and!; [done| | |].
    + apply (f_equal (fun x => match fst x with Ok r => (bb_processed r, bb_failed r) | Err _ => (0, 0) end)) in E.
      vm_compute in E. by simpl in E.
    + apply (f_equal (fun x => (fun i => rb_status <$> buffer (fst (snd x)) !! i) <$> [3; 4; 5])) in E.
      vm_compute in E. by simpl in E.
    + apply (batch_closes_claims false 10 other_rows tt result d' tt); [by intros []|apply double_spares|reflexivity|exact E].
  - exfalso. apply (f_equal (fun x => is_ok (fst x))) in E. vm_compute in E. discriminate.
Defined.

Lemma repair_conflict_stops_batch_witness :
  let '(answer, (d', w')) := process_raw_buffer_batch_inner false 10 (twice_processed, tt) in
  is_ok answer = false /\ repair_conflict 1 2 d' /\
  forall id r, buffer twice_processed !! id = Some r -> is_status "pending" r = true -> buffer d' !! id = Some r.
Proof.
  apply (repair_conflict_stops_batch 1 2 10 twice_processed tt); [|by intros []|by intros []].
  split; [done|]. do 2 eexists. split_and!; [reflexivity|reflexivity|reflexivity|].
  repeat constructor; reflexivity.
Defined.

Lemma adaptive_projection_ends_witness :
  exists r s', apply_adaptive_projection_stage [] [11; 12; 13; 14] Performance (empty_buffer, tt) = (Some r, s') /\
  forall fallback, r = Ok fallback ->
    (forall id, id ∈ [11; 12; 13; 14] -> id ∈ fallback \/ staged Performance id s') /\
    (forall id, id ∈ fallback -> id ∈ [11; 12; 13; 14] /\ failed_alone Performance id).
Proof. apply (adaptive_projection_ends [] [11; 12; 13; 14] Performance (empty_buffer, tt)), double_projections. Defined.
