(* ===== verification/RankedStage.v ===== *)
(** * Counter tables that grow by upserts

    The tables of the ranked statistics hold, under a key, texts of the last
    write and counters that every INSERT ... ON CONFLICT DO UPDATE adds to.
    The columns that only say when a row was written are left out, and so are
    the rates computed from the counters of their row. *)

From S2P Require Import Prelude.

(** ** Vectors of counters; the empty one is zero *)

Fixpoint vadd (a b : list Z) : list Z :=
  match a, b with
  | [], _ => b
  | _, [] => a
  | x :: a, y :: b => x + y :: vadd a b
  end.

Definition vsum (l : list (list Z)) : list Z := foldr vadd [] l.

Definition in_int4 (v : list Z) : bool := forallb (fun z => (i32_min <=? z) && (z <=? i32_max)) v.

(** [GROUP BY]: the sums of the rows of each key. *)
Definition grouped {K} `{EqDecision K} (rows : list (K * list Z)) : list (K * list Z) :=
  map (fun k => (k, vsum (map snd (List.filter (fun e => bool_decide (fst e = k)) rows)))) (remove_dups (map fst rows)).

(** ** Tables *)

Section table.
Context {K L : Type} `{Countable K}.

Abbreviation AggTable := (gmap K (L * list Z)).

(** What the conflicting row keeps of its texts. *)
Variable merge : L -> L -> L.

Definition counters (t : AggTable) (k : K) : list Z := match t !! k with Some (_, v) => v | None => [] end.

Definition upsert_row (row : K * (L * list Z)) (t : AggTable) : result AggTable string :=
  let '(k, (label, v)) := row in
  let v' := vadd (counters t k) v in
  if in_int4 v && in_int4 v' then
    Ok (<[k := (match t !! k with Some (old, _) => merge old label | None => label end, v')]> t)
  else Err "integer out of range".

Fixpoint upsert_rows (rows : list (K * (L * list Z))) (t : AggTable) : result AggTable string :=
  match rows with
  | [] => Ok t
  | row :: rows => t <-! upsert_row row t; upsert_rows rows t
  end.

(** A statement that meets one key twice fails. *)
Definition upsert (rows : list (K * (L * list Z))) (t : AggTable) : result AggTable string :=
  if bool_decide (NoDup (map fst rows)) then upsert_rows rows t
  else Err "ON CONFLICT DO UPDATE command cannot affect row a second time".
End table.

Arguments counters {K L _ _} t k.

(** Texts overwritten by the new row. *)
Definition excluded {L} (_ new : L) : L := new.

(** ** Upserts add *)

Lemma vadd_nil_r a : vadd a [] = a.
Proof. by destruct a. Qed.

Lemma vadd_comm a b : vadd a b = vadd b a.
Proof.
  revert b. induction a as [|x a IH]; intros [|y b]; simpl; [done..|]. rewrite IH. f_equal. lia.
Qed.

Lemma vadd_assoc a b c : vadd a (vadd b c) = vadd (vadd a b) c.
Proof.
  revert b c. induction a as [|x a IH]; intros [|y b] [|z c]; simpl; [done..|]. rewrite IH. f_equal. lia.
Qed.

Lemma vsum_app a b : vsum (a ++ b) = vadd (vsum a) (vsum b).
Proof. unfold vsum. induction a as [|x a IH]; simpl; [done|]. by rewrite IH, vadd_assoc. Qed.

Lemma vsum_perm a b : a ≡ₚ b -> vsum a = vsum b.
Proof.
  induction 1 as [|x a b _ IH|x y a|a b c _ IH1 _ IH2]; simpl; [done| | |congruence].
  - by rewrite IH.
  - by rewrite !vadd_assoc, (vadd_comm y x).
Qed.

(** The sum of the rows with a key. *)
Definition contribution {K L} `{EqDecision K} (rows : list (K * (L * list Z))) (k : K) : list Z :=
  vsum (map (fun e => snd (snd e)) (List.filter (fun e => bool_decide (fst e = k)) rows)).

Section table.
Context {K L : Type} `{Countable K} (merge : L -> L -> L).

Lemma upsert_row_counters row (t t' : gmap K (L * list Z)) k :
  upsert_row merge row t = Ok t' ->
  counters t' k = vadd (counters t k) (if bool_decide (fst row = k) then snd (snd row) else []).
Proof.
  destruct row as [k0 [l v]]. unfold upsert_row. destruct (_ && _); [|done]. intros [= <-]. simpl. unfold counters at 1.
  destruct (decide (k0 = k)) as [-> | Hk].
  - by rewrite lookup_insert_eq, bool_decide_true.
  - by rewrite lookup_insert_ne, bool_decide_false, vadd_nil_r.
Qed.

Lemma upsert_rows_counters rows (t t' : gmap K (L * list Z)) k :
  upsert_rows merge rows t = Ok t' -> counters t' k = vadd (counters t k) (contribution rows k).
Proof.
  revert t. induction rows as [|row rows IH]; intros t; simpl; [intros [= <-]; by rewrite vadd_nil_r|].
  destruct (upsert_row merge row t) as [t1|e] eqn:E; simpl; [|done]. intros Hr. rewrite (IH _ Hr).
  rewrite (upsert_row_counters _ _ _ k E), <- vadd_assoc. f_equal. unfold contribution. simpl.
  by destruct (bool_decide (fst row = k)).
Qed.

Lemma upsert_counters rows (t t' : gmap K (L * list Z)) k :
  upsert merge rows t = Ok t' -> counters t' k = vadd (counters t k) (contribution rows k).
Proof. unfold upsert. case_bool_decide; [apply upsert_rows_counters|done]. Qed.

(** A counter that would leave its column refuses the whole statement. *)
Lemma upsert_overflow rows (t : gmap K (L * list Z)) :
  (exists row, row ∈ rows /\ in_int4 (vadd (counters t (fst row)) (snd (snd row))) = false) ->
  is_ok (upsert merge rows t) = false.
Proof.
  intros (row & Hin & Hover). unfold upsert. case_bool_decide as Hnd; [|done].
  revert t Hover. induction rows as [|row0 rows IH]; intros t Hover; [by apply elem_of_nil in Hin|].
  simpl. apply elem_of_cons in Hin as [-> | Hin].
  - unfold upsert_row at 1. destruct row0 as [k0 [l0 v0]]. simpl in *. by rewrite Hover, andb_false_r.
  - destruct (upsert_row merge row0 t) as [t1|e] eqn:E; simpl; [|done]. simpl in Hnd. apply NoDup_cons in Hnd as [Hni Hnd].
    apply IH; [done|done|]. rewrite (upsert_row_counters _ _ _ (fst row) E).
    rewrite bool_decide_false; [by rewrite vadd_nil_r|]. intros Heq. apply Hni. rewrite Heq.
    by apply (list_elem_of_fmap_2 fst).
Qed.
End table.

(** * The ranked statistics of one match
      (src/backend-rust/src/workers/ranked_projection.rs)

    The facts of matches as the projection reads them, what one match adds to
    each table of the ranked statistics, and the statements of the stage in
    their order. *)

(** ** Facts *)

Record MatchMeta := { mm_match : Z; mm_entry : Z; mm_queue : option Z; mm_map : option string; mm_limited : bool }.

Record PlayerFact := {
  pf_match : Z; pf_player : Z; pf_entry : Z;
  pf_champion : option Z; pf_skin : option Z; pf_skin_name : option string;
  pf_kills : option Z; pf_deaths : option Z; pf_assists : option Z; pf_damage : option Z; pf_gold : option Z;
  pf_healing : option Z; pf_mitigated : option Z;
  pf_win_status : option string; pf_task_force : option Z; pf_league_tier : option Z; pf_party : Z;
  pf_is_ranked : option bool;
}.

Record ItemFact := { if_match : Z; if_player : Z; if_slot : Z; if_item : Z; if_level : option Z }.
Record TalentFact := { tf_match : Z; tf_player : Z; tf_talent : Z }.
Record CardFact := { cf_match : Z; cf_player : Z; cf_card : Z; cf_level : option Z }.
Record BanFact := { bf_match : Z; bf_slot : Z; bf_champion : option Z }.

(** The names of a talent or a card, and its champion. *)
Record NamedRow := { nr_name : option string; nr_champion : option Z }.

Record RankedFacts := {
  rf_matches : list MatchMeta;
  rf_players : list PlayerFact;
  rf_items : list ItemFact;
  rf_talents : list TalentFact;
  rf_cards : list CardFact;
  rf_bans : list BanFact;
  (** The reference tables: name and roles of a champion, names of the rest. *)
  rf_champions : gmap Z (string * option string);
  rf_item_names : gmap Z (option string);
  rf_talent_names : gmap Z NamedRow;
  rf_card_names : gmap Z NamedRow;
}.

Definition RANKED_QUEUE : Z := 486.

Definition is_queue (q : Z) (m : MatchMeta) : bool := bool_decide (mm_queue m = Some q).

Definition matches_of (f : RankedFacts) (id : Z) : list MatchMeta := List.filter (fun m => mm_match m =? id) (rf_matches f).
Definition players_of (f : RankedFacts) (id : Z) : list PlayerFact := List.filter (fun p => pf_match p =? id) (rf_players f).

Definition status_in (texts : list string) (p : PlayerFact) : bool :=
  existsb (String.eqb (to_ascii_lowercase (default "" (pf_win_status p)))) texts.
Definition won : PlayerFact -> bool := status_in ["winner"; "win"].
Definition lost : PlayerFact -> bool := status_in ["loser"; "loss"].
Definition decided : PlayerFact -> bool := status_in ["winner"; "win"; "loser"; "loss"].

Definition b2z (b : bool) : Z := if b then 1 else 0.
Definition tally (p : PlayerFact) : list Z := [1; b2z (won p); b2z (lost p)].

Definition has_champion (p : PlayerFact) : bool := match pf_champion p with Some c => 0 <? c | None => false end.

Definition known_tier (p : PlayerFact) : list Z :=
  match pf_league_tier p with Some t => if (1 <=? t) && (t <=? 26) then [t] else [] | None => [] end.

Definition sum_z (l : list Z) : Z := foldr Z.add 0 l.

(** [round(avg(...))], half away from zero, of numbers that are not negative. *)
Definition rounded_average (l : list Z) : Z :=
  let n := Z.of_nat (length l) in if n =? 0 then 0 else (2 * sum_z l + n) / (2 * n).

(** ** The lobby *)

(** The tier of the lobby of each row of the match, and the players it is
    known of. *)
Definition lobby_rows (f : RankedFacts) (id : Z) : list ((Z * Z) * (Z * Z)) :=
  map (fun m =>
    let tiers := mbind known_tier (List.filter (fun p => pf_entry p =? mm_entry m) (players_of f id)) in
    ((mm_match m, mm_entry m), (rounded_average tiers, Z.of_nat (length tiers))))
    (List.filter (is_queue RANKED_QUEUE) (matches_of f id)).

Abbreviation LobbyTiers := (gmap (Z * Z) (Z * Z)).

Definition store_lobby (f : RankedFacts) (id : Z) (t : LobbyTiers) : LobbyTiers :=
  foldl (fun t row => <[fst row := snd row]> t) t (lobby_rows f id).

Definition lobby_tier (t : LobbyTiers) (m entry : Z) : Z := match t !! (m, entry) with Some (tier, _) => tier | None => 0 end.

(** The tier of the latest row of the match. *)
Definition latest_lobby_tier (t : LobbyTiers) (id : Z) : Z :=
  match foldr (fun e best => if fst (fst e) =? id
                             then match best with
                                  | Some b => if snd (fst b) <? snd (fst e) then Some e else Some b
                                  | None => Some e
                                  end
                             else best) None (map_to_list t) with
  | Some (_, (tier, _)) => tier
  | None => 0
  end.

(** ** What a match adds to each table *)

(** The rows of a fact with the decided players of its match and id. *)
Definition of_player {A} (player : A -> Z) (f : RankedFacts) (id : Z) (facts : list A) : list (A * PlayerFact) :=
  mbind (fun x => map (pair x) (List.filter (fun p => (pf_player p =? player x) && decided p) (players_of f id))) facts.

Definition items_of (f : RankedFacts) (id : Z) : list ItemFact := List.filter (fun x => if_match x =? id) (rf_items f).
Definition talents_of (f : RankedFacts) (id : Z) : list TalentFact := List.filter (fun x => tf_match x =? id) (rf_talents f).
Definition cards_of (f : RankedFacts) (id : Z) : list CardFact := List.filter (fun x => cf_match x =? id) (rf_cards f).

(** The rows of a [GROUP BY] whose key is that of the table with its texts. *)
Definition with_label {K L} (rows : list ((K * L) * list Z)) : list (K * (L * list Z)) :=
  map (fun e => (fst (fst e), (snd (fst e), snd e))) rows.

Definition item_rows (f : RankedFacts) (id : Z) : list ((Z * Z * Z) * (option string * list Z)) :=
  with_label (grouped (map (fun e : ItemFact * PlayerFact =>
    let x := fst e in
    ((if_item x, if_slot x, default 0 (if_level x), x ← rf_item_names f !! if_item x; x), tally (snd e)))
    (of_player if_player f id (items_of f id)))).

(** Of the first projection of the match only. *)
Definition map_item_rows (f : RankedFacts) (lobby : LobbyTiers) (id : Z) : list ((option string * Z * Z) * (unit * list Z)) :=
  with_label (grouped (mbind (fun m : MatchMeta => map (fun e : ItemFact * PlayerFact =>
    ((mm_map m, lobby_tier lobby id (mm_entry m), if_item (fst e), tt), tally (snd e)))
    (List.filter (fun e : ItemFact * PlayerFact => pf_entry (snd e) =? mm_entry m)
       (of_player if_player f id (items_of f id)))) (matches_of f id))).

Definition champion_name (f : RankedFacts) (c : option Z) : option string := fst <$> (c ≫= fun c => rf_champions f !! c).

(** [COALESCE(t.champion_id, p.champion_id)]. *)
Definition named_champion (row : option NamedRow) (p : PlayerFact) : option Z :=
  match row ≫= nr_champion with Some c => Some c | None => pf_champion p end.

Definition talent_rows (f : RankedFacts) (id : Z) : list (Z * ((option string * option string) * list Z)) :=
  with_label (grouped (map (fun e : TalentFact * PlayerFact =>
    let row := rf_talent_names f !! tf_talent (fst e) in
    ((tf_talent (fst e), (champion_name f (named_champion row (snd e)), row ≫= nr_name)), tally (snd e)))
    (of_player tf_player f id (talents_of f id)))).

Definition card_rows (f : RankedFacts) (id : Z) : list ((Z * Z) * ((option string * option string) * list Z)) :=
  with_label (grouped (map (fun e : CardFact * PlayerFact =>
    let row := rf_card_names f !! cf_card (fst e) in
    ((cf_card (fst e), default 0 (cf_level (fst e)), (champion_name f (named_champion row (snd e)), row ≫= nr_name)),
     tally (snd e)))
    (of_player cf_player f id (cards_of f id)))).

Definition talent_card_rows (f : RankedFacts) (id : Z) : list ((Z * Z * Z) * (unit * list Z)) :=
  with_label (grouped (mbind (fun e : TalentFact * PlayerFact => map (fun c : CardFact =>
    ((tf_talent (fst e), cf_card c, default 0 (cf_level c), tt), tally (snd e)))
    (List.filter (fun c => cf_player c =? tf_player (fst e)) (cards_of f id)))
    (of_player tf_player f id (talents_of f id)))).

Definition non_empty_or (d : string) (s : option string) : string :=
  match s with Some s => if is_empty s then d else s | None => d end.

Definition champion_players (f : RankedFacts) (id : Z) : list PlayerFact :=
  List.filter (fun p => has_champion p && decided p) (players_of f id).

Definition skin_rows (f : RankedFacts) (id : Z) : list ((Z * Z * Z) * (string * list Z)) :=
  with_label (grouped (map (fun p =>
    ((default 0 (pf_champion p), default 0 (pf_skin p), default 0 (pf_league_tier p),
      non_empty_or "Default" (pf_skin_name p)), tally p)) (champion_players f id))).

Definition ban_slots : list Z := [1; 2; 3; 4; 5; 6; 7; 8].

Definition ban_rows (f : RankedFacts) (id : Z) : list (Z * (string * list Z)) :=
  with_label (grouped (omap (fun b =>
    match bf_champion b with
    | Some c =>
        if (bf_match b =? id) && (0 <? c)
        then Some ((c, default "Unknown" (champion_name f (Some c))), 1 :: map (fun s => b2z (bf_slot b =? s)) ban_slots)
        else None
    | None => None
    end) (rf_bans f))).

Definition champion_counters (p : PlayerFact) : list Z :=
  tally p ++ map (default 0) [pf_kills p; pf_deaths p; pf_assists p; pf_damage p; pf_gold p; pf_healing p; pf_mitigated p]
  ++ [sum_z (known_tier p); Z.of_nat (length (known_tier p))].

Definition champion_rows (f : RankedFacts) (id : Z) : list (Z * (string * list Z)) :=
  with_label (grouped (map (fun p =>
    let c := default 0 (pf_champion p) in
    ((c, default (pretty c) (champion_name f (Some c))), champion_counters p)) (champion_players f id))).

(** [ILIKE '%...%']. *)
Definition has_role (needle : string) (roles : option string) : bool :=
  match roles with
  | Some r => match String.index 0 (to_ascii_lowercase needle) (to_ascii_lowercase r) with Some _ => true | None => false end
  | None => false
  end.

Record Team := { tm_frontline : Z; tm_damage : Z; tm_flank : Z; tm_support : Z; tm_won : option bool }.

(** [bool_or]: unknown where every player's status is. *)
Definition team_won (ps : list PlayerFact) : option bool :=
  match List.filter (fun p => negb (bool_decide (pf_win_status p = None))) ps with
  | [] => None
  | known => Some (existsb won known)
  end.

Definition team_of (f : RankedFacts) (id task_force : Z) : list Team :=
  let ps := List.filter (fun p => bool_decide (pf_task_force p = Some task_force)
                                  && negb (bool_decide (champion_name f (pf_champion p) = None))) (players_of f id) in
  let count_role (roles : list string) :=
    Z.of_nat (length (List.filter (fun p =>
      existsb (fun r => has_role r (c ← pf_champion p; row ← rf_champions f !! c; snd row)) roles) ps)) in
  if (length ps =? 5)%nat then
    [{| tm_frontline := count_role ["Frontline"; "Front Line"]; tm_damage := count_role ["Damage"];
        tm_flank := count_role ["Flank"]; tm_support := count_role ["Support"]; tm_won := team_won ps |}]
  else [].

Definition comp_id (t : Team) : string :=
  pretty (tm_frontline t) +:+ "-" +:+ pretty (tm_damage t) +:+ "-" +:+ pretty (tm_flank t) +:+ "-" +:+ pretty (tm_support t).

Definition composition_rows (f : RankedFacts) (lobby : LobbyTiers) (id : Z) :
    list ((string * Z) * ((Z * Z * Z * Z) * list Z)) :=
  with_label (grouped (map (fun t =>
    ((comp_id t, latest_lobby_tier lobby id, (tm_frontline t, tm_damage t, tm_flank t, tm_support t)),
     [1; b2z (bool_decide (tm_won t = Some true)); b2z (bool_decide (tm_won t = Some false))]))
    (team_of f id 1 ++ team_of f id 2))).

(** Pairs of players of one row of the match. *)
Definition player_pairs (f : RankedFacts) (id : Z) : list (PlayerFact * PlayerFact) :=
  mbind (fun a => map (pair a) (List.filter (fun b => pf_entry b =? pf_entry a) (players_of f id))) (players_of f id).

(** A column that may not be null. *)
Fixpoint not_null {A} (l : list (option A)) : result (list A) string :=
  match l with
  | [] => Ok []
  | Some a :: l => r <-! not_null l; Ok (a :: r)
  | None :: _ => Err "null value violates not-null constraint"
  end.

Definition relationship_rows (f : RankedFacts) (id : Z) : result (list ((Z * Z * bool) * (bool * list Z))) string :=
  not_null (map (fun e =>
    let '(a, b) := e in
    ta ← pf_task_force a; tb ← pf_task_force b;
    Some ((pf_player a, pf_player b, ta =? tb), ((0 <? pf_party a) && (pf_party a =? pf_party b), [1])))
    (List.filter (fun e : PlayerFact * PlayerFact =>
       (pf_player (fst e) <? pf_player (snd e)) && (0 <? pf_player (fst e)) && (0 <? pf_player (snd e)))
       (player_pairs f id))).

Definition other_team (a b : PlayerFact) : bool :=
  match pf_task_force a, pf_task_force b with Some x, Some y => negb (x =? y) | _, _ => false end.

Definition opponent_rows (f : RankedFacts) (id : Z) : result (list ((Z * Z * Z) * (unit * list Z))) string :=
  not_null (map (fun e =>
    let '(p, o) := e in
    _ ← pf_win_status p;
    Some ((pf_player p, default 0 (pf_champion p), default 0 (pf_champion o)), (tt, [b2z (won p); b2z (lost p)])))
    (List.filter (fun e : PlayerFact * PlayerFact =>
       other_team (fst e) (snd e) && has_champion (snd e) && (0 <? pf_player (fst e)) && has_champion (fst e))
       (player_pairs f id))).

(** ** The stage *)

Record RankedTables := {
  rt_lobby : LobbyTiers;
  rt_items : gmap (Z * Z * Z) (option string * list Z);
  rt_map_claims : gset Z;
  rt_map_items : gmap (option string * Z * Z) (unit * list Z);
  rt_talents : gmap Z ((option string * option string) * list Z);
  rt_cards : gmap (Z * Z) ((option string * option string) * list Z);
  rt_talent_cards : gmap (Z * Z * Z) (unit * list Z);
  rt_skins : gmap (Z * Z * Z) (string * list Z);
  rt_bans : gmap Z (string * list Z);
  rt_champions : gmap Z (string * list Z);
  rt_compositions : gmap (string * Z) ((Z * Z * Z * Z) * list Z);
  rt_relationships : gmap (Z * Z * bool) (bool * list Z);
  rt_opponents : gmap (Z * Z * Z) (unit * list Z);
}.

(** The constraints of a table over the rows of a statement. *)
Definition checked {A} (ok : A -> bool) (rows : list A) : result (list A) string :=
  if forallb ok rows then Ok rows else Err "new row violates a constraint".

(** [REFERENCES champions(id)]. *)
Definition known_champion (f : RankedFacts) (c : Z) : bool := bool_decide (is_Some (rf_champions f !! c)).

Definition valid_skin (f : RankedFacts) (row : (Z * Z * Z) * (string * list Z)) : bool :=
  let '((champion, _, tier), _) := row in known_champion f champion && (0 <=? tier) && (tier <=? 26).

Definition valid_opponents (f : RankedFacts) (row : (Z * Z * Z) * (unit * list Z)) : bool :=
  let '((_, champion, opponent), _) := row in known_champion f champion && known_champion f opponent.

Definition ranked_stage (f : RankedFacts) (id : Z) (t : RankedTables) : result RankedTables string :=
  let lobby := store_lobby f id (rt_lobby t) in
  items <-! upsert excluded (item_rows f id) (rt_items t);
  map_rows <-! (if bool_decide (id ∈ rt_map_claims t) then Ok []
                else checked (fun e => negb (bool_decide (fst (fst (fst e)) = None))) (map_item_rows f lobby id));
  map_items <-! upsert excluded map_rows (rt_map_items t);
  talents <-! upsert excluded (talent_rows f id) (rt_talents t);
  cards <-! upsert excluded (card_rows f id) (rt_cards t);
  talent_cards <-! upsert excluded (talent_card_rows f id) (rt_talent_cards t);
  skin_rows <-! checked (valid_skin f) (skin_rows f id);
  skins <-! upsert excluded skin_rows (rt_skins t);
  bans <-! upsert excluded (ban_rows f id) (rt_bans t);
  champion_rows <-! checked (fun e => known_champion f (fst e)) (champion_rows f id);
  champions <-! upsert excluded champion_rows (rt_champions t);
  compositions <-! upsert excluded (composition_rows f lobby id) (rt_compositions t);
  relationship_rows <-! relationship_rows f id;
  relationships <-! upsert orb relationship_rows (rt_relationships t);
  opponent_rows <-! opponent_rows f id;
  opponent_rows <-! checked (valid_opponents f) opponent_rows;
  opponents <-! upsert excluded opponent_rows (rt_opponents t);
  Ok {| rt_lobby := lobby; rt_items := items; rt_map_claims := {[id]} ∪ rt_map_claims t; rt_map_items := map_items;
        rt_talents := talents; rt_cards := cards; rt_talent_cards := talent_cards; rt_skins := skins; rt_bans := bans;
        rt_champions := champions; rt_compositions := compositions; rt_relationships := relationships;
        rt_opponents := opponents |}.
