(* ===== verification/RankedProjection.v ===== *)
(** * Ranked projections
      (src/backend-rust/src/workers/ranked_projection.rs, and the claims and
      the repair of workers/projections.rs)

    A ranked match is projected in three stages, each committed with its mark
    in the ledger.  The later two are registered match by match, so that
    overlapping batches do not count a match twice; what they write is an
    interface, as is the rating of the match. *)

From S2P Require Import Prelude Json Lifecycle Policy RankedStage.

Inductive RankedProjectionResult := Projected | AlreadyProjected.

Inductive RankedProjectionError :=
  | ProjectionDatabase (message : string)
  | Query (message : string)
  | Rejected (match_id : Z)
  | Rating (message : string).

Inductive RatingApplicationResult := Applied | Skipped | Deferred | Busy.

Class RankedServices (W : Type) := {
  (** The tables of the two later stages. *)
  PerformanceTables : Type;
  ScalableTables : Type;
  (** Six and ten statements over the claimed matches. *)
  write_performance : RankedFacts -> list Z -> PerformanceTables -> result PerformanceTables string;
  write_scalable : RankedFacts -> LobbyTiers -> list Z -> ScalableTables -> result ScalableTables string;
  (** A transaction begins at its instant or fails; then its commit. *)
  ranked_begin : ST W (result Z RankedProjectionError);
  ranked_commit : ST W commit_outcome;
  (** A statement in a transaction of its own. *)
  ranked_query : ST W (Z * commit_outcome);
}.

Section projection.
Context {W : Type} `{RankedServices W}.

Record RankedDb := {
  rk_ledger : ledger;
  rk_facts : RankedFacts;
  rk_tables : RankedTables;
  rk_performance_claims : gset Z;
  rk_performance : PerformanceTables;
  rk_stats_claims : gset Z;
  rk_scalable : ScalableTables;
}.

Abbreviation X := (RankedDb * W)%type.

(** The rating of a match, in a transaction of its own. *)
Variable apply_rating : Z -> ST X (result RatingApplicationResult string).

Definition with_ledger (l : ledger) (d : RankedDb) : RankedDb :=
  {| rk_ledger := l; rk_facts := rk_facts d; rk_tables := rk_tables d;
     rk_performance_claims := rk_performance_claims d; rk_performance := rk_performance d;
     rk_stats_claims := rk_stats_claims d; rk_scalable := rk_scalable d |}.

(** A transaction: its statements change the tables at its instant, and
    nothing remains of one that fails or is not committed. *)
Definition transaction {A} (body : Z -> RankedDb -> result (A * RankedDb) RankedProjectionError) :
    ST X (result A RankedProjectionError) := fun s =>
  match ranked_begin (snd s) with
  | (Err e, w) => (Err e, (fst s, w))
  | (Ok now, w) =>
      match body now (fst s) with
      | Err e => (Err e, (fst s, w))
      | Ok (a, d) =>
          let '(o, w) := ranked_commit w in
          (map_err Query (_ <-! reported o; Ok a), (if applied o then d else fst s, w))
      end
  end.

Definition ranked_statement {A} (f : Z -> RankedDb -> A * RankedDb) : ST X (result A RankedProjectionError) := fun s =>
  let '((now, o), w) := ranked_query (snd s) in
  let '(a, d) := f now (fst s) in
  (map_err ProjectionDatabase (_ <-! reported o; Ok a), (if applied o then d else fst s, w)).

(** ** The ledger *)

Definition stages_of (l : ledger) (id : Z) : list string := match l !! id with Some r => row_completed_stages r | None => [] end.
Definition has_stage_in (stage : string) (l : ledger) (id : Z) : bool := bool_decide (stage ∈ stages_of l id).

Definition set_stages (now : Z) (stages : list string) (r : IngestRow) : IngestRow :=
  {| row_status := row_status r; row_completed_stages := stages; row_source := row_source r;
     row_attempts := row_attempts r; row_error_message := row_error_message r; row_queue_id := row_queue_id r;
     row_population := row_population r; row_acquisition_state := row_acquisition_state r;
     detail_attempted_at := detail_attempted_at r; roster_resolved_at := roster_resolved_at r;
     demo_resolved_at := demo_resolved_at r; row_direct_player_count := row_direct_player_count r;
     row_roster_player_count := row_roster_player_count r; row_unresolved_player_ids := row_unresolved_player_ids r;
     lease_owner := lease_owner r; lease_until := lease_until r; started_at := started_at r; updated_at := now;
     completed_at := completed_at r |}.

Definition close_ranked (now : Z) (r : IngestRow) : IngestRow :=
  {| row_status := "complete"; row_completed_stages := row_completed_stages r; row_source := row_source r;
     row_attempts := row_attempts r; row_error_message := row_error_message r; row_queue_id := row_queue_id r;
     row_population := row_population r; row_acquisition_state := "complete";
     detail_attempted_at := detail_attempted_at r; roster_resolved_at := roster_resolved_at r;
     demo_resolved_at := demo_resolved_at r; row_direct_player_count := row_direct_player_count r;
     row_roster_player_count := row_roster_player_count r; row_unresolved_player_ids := row_unresolved_player_ids r;
     lease_owner := None; lease_until := None; started_at := started_at r; updated_at := now;
     completed_at := coalesce (completed_at r) (Some now) |}.

Definition update_ledger (p : Z -> IngestRow -> bool) (f : IngestRow -> IngestRow) (d : RankedDb) : RankedDb :=
  with_ledger (map_imap (fun id r => Some (if p id r then f r else r)) (rk_ledger d)) d.

Definition row_has (stages : list string) (r : IngestRow) : bool :=
  forallb (fun s => bool_decide (s ∈ row_completed_stages r)) stages.

(** [array_append], where the stage is missing. *)
Definition append_stage (now : Z) (stage : string) (ids : list Z) : RankedDb -> RankedDb :=
  update_ledger (fun id r => bool_decide (id ∈ ids) && negb (row_has [stage] r))
    (fun r => set_stages now (row_completed_stages r ++ [stage]) r).

(** The stages without repetition, in the order of their names. *)
Definition add_sorted (stage : string) (stages : list string) : list string :=
  sort_by le_bytes (remove_dups (stages ++ [stage])).

Definition all_ranked_stages : list string := ["ranked_stats"; "performance_projections"; "scalable_stats"].

(** ** The registries *)

Definition unlimited_match (d : RankedDb) (id : Z) : bool := existsb (fun m => negb (mm_limited m)) (matches_of (rk_facts d) id).
Definition ranked_unlimited (d : RankedDb) (id : Z) : bool :=
  existsb (fun m => is_queue RANKED_QUEUE m && negb (mm_limited m)) (matches_of (rk_facts d) id).

(** [INSERT ... ON CONFLICT DO NOTHING RETURNING match_id]. *)
Definition newly_claimed (wanted : Z -> bool) (ids : list Z) (claims : gset Z) : list Z :=
  remove_dups (List.filter (fun id => wanted id && negb (bool_decide (id ∈ claims))) ids).

Definition query_error {A} (r : result A string) : result A RankedProjectionError := map_err Query r.

Definition project_performance_many (ids : list Z) (d : RankedDb) : result RankedDb RankedProjectionError :=
  match newly_claimed (unlimited_match d) ids (rk_performance_claims d) with
  | [] => Ok d
  | claimed =>
      tables <-! query_error (write_performance (rk_facts d) claimed (rk_performance d));
      Ok {| rk_ledger := rk_ledger d; rk_facts := rk_facts d; rk_tables := rk_tables d;
            rk_performance_claims := list_to_set claimed ∪ rk_performance_claims d; rk_performance := tables;
            rk_stats_claims := rk_stats_claims d; rk_scalable := rk_scalable d |}
  end.

Definition claim_stats (claimed : list Z) (d : RankedDb) : RankedDb :=
  {| rk_ledger := rk_ledger d; rk_facts := rk_facts d; rk_tables := rk_tables d;
     rk_performance_claims := rk_performance_claims d; rk_performance := rk_performance d;
     rk_stats_claims := list_to_set claimed ∪ rk_stats_claims d; rk_scalable := rk_scalable d |}.

Definition project_scalable_many (ids : list Z) (d : RankedDb) : result RankedDb RankedProjectionError :=
  match newly_claimed (ranked_unlimited d) ids (rk_stats_claims d) with
  | [] => Ok d
  | claimed =>
      tables <-! query_error (write_scalable (rk_facts d) (rt_lobby (rk_tables d)) claimed (rk_scalable d));
      Ok {| rk_ledger := rk_ledger d; rk_facts := rk_facts d; rk_tables := rk_tables d;
            rk_performance_claims := rk_performance_claims d; rk_performance := rk_performance d;
            rk_stats_claims := list_to_set claimed ∪ rk_stats_claims d; rk_scalable := tables |}
  end.

(** ** Batches *)

Definition project_cumulative_batch (many : list Z -> RankedDb -> result RankedDb RankedProjectionError) (stage : string)
    (ids : list Z) : ST X (result unit RankedProjectionError) :=
  match ids with
  | [] => mret (Ok tt)
  | _ => transaction (fun now d => d <-! many ids d; Ok (tt, append_stage now stage ids d))
  end.

Definition project_performance_batch : list Z -> ST X (result unit RankedProjectionError) :=
  project_cumulative_batch project_performance_many "performance_projections".
Definition project_scalable_batch : list Z -> ST X (result unit RankedProjectionError) :=
  project_cumulative_batch project_scalable_many "scalable_stats".

(** *** Of many matches *)

Definition cumulative_candidate (ids : list Z) (stage : string) (d : RankedDb) (m : MatchMeta) : bool :=
  match rk_ledger d !! mm_match m with
  | Some r => bool_decide (mm_match m ∈ ids) && String.eqb (row_population r) "ranked" && is_queue RANKED_QUEUE m
              && negb (mm_limited m) && row_has ["ranked_stats"] r && negb (row_has [stage] r)
  | None => false
  end.

Definition cumulative_stage_candidates (ids : list Z) (stage : string) : ST X (result (list Z) RankedProjectionError) :=
  ranked_statement (fun _ d =>
    (sort_by Z.leb (map mm_match (List.filter (cumulative_candidate ids stage d) (rf_matches (rk_facts d)))), d)).

Fixpoint each_chunk (f : list Z -> ST X (result unit RankedProjectionError)) (cs : list (list Z)) :
    ST X (result unit RankedProjectionError) :=
  match cs with
  | [] => mret (Ok tt)
  | c :: cs => _ <-? f c; each_chunk f cs
  end.

Definition closable (ids : list Z) (id : Z) (r : IngestRow) : bool :=
  bool_decide (id ∈ ids) && String.eqb (row_population r) "ranked" && row_has all_ranked_stages r
  && negb (String.eqb (row_status r) "complete").

Definition complete_cumulative_stages_for_matches (ids : list Z) : ST X (result Z RankedProjectionError) :=
  match ids with
  | [] => mret (Ok 0)
  | _ =>
      performance <-? cumulative_stage_candidates ids "performance_projections";
      _ <-? each_chunk project_performance_batch (chunks 25 performance);
      scalable <-? cumulative_stage_candidates ids "scalable_stats";
      _ <-? each_chunk project_scalable_batch (chunks 25 scalable);
      ranked_statement (fun now d =>
        (Z.of_nat (length (List.filter (fun e => closable ids (fst e) (snd e)) (map_to_list (rk_ledger d)))),
         update_ledger (closable ids) (close_ranked now) d))
  end.

(** ** One match *)

Definition finish_cumulative_stages (id : Z) (needs_performance needs_scalable : bool) :
    ST X (result bool RankedProjectionError) :=
  _ <-? (if needs_performance then project_performance_batch [id] else mret (Ok tt));
  _ <-? (if needs_scalable then project_scalable_batch [id] else mret (Ok tt));
  _ <-? ranked_statement (fun now d =>
    (tt, update_ledger (fun i r => (i =? id) && row_has all_ranked_stages r) (close_ranked now) d));
  mret (Ok (needs_performance || needs_scalable)).

Definition ranked_in_ledger (d : RankedDb) (id : Z) : bool :=
  match rk_ledger d !! id with
  | Some r => String.eqb (row_population r) "ranked" && ranked_unlimited d id
  | None => false
  end.

Definition is_ranked_fact (p : PlayerFact) : bool := match pf_is_ranked p with Some b => b | None => false end.

(** At least ten players whose champion and outcome are known. *)
Definition eligible_match (f : RankedFacts) (id : Z) : bool :=
  existsb (is_queue RANKED_QUEUE) (matches_of f id)
  && (10 <=? length (List.filter (fun p => is_ranked_fact p && has_champion p && decided p) (players_of f id)))%nat.

(** What the locked row says is left to do. *)
Inductive RankedWork := StageDone | StageLeft (performance scalable : bool).

Definition apply_ranked_stage (now id : Z) (d : RankedDb) : result (RankedWork * RankedDb) RankedProjectionError :=
  match rk_ledger d !! id with
  | None => Err (Rejected id)
  | Some r =>
      if negb (String.eqb (row_population r) "ranked") then Err (Rejected id)
      else if row_has ["ranked_stats"] r then
        Ok (StageLeft (negb (row_has ["performance_projections"] r)) (negb (row_has ["scalable_stats"] r)), d)
      else if negb (eligible_match (rk_facts d) id) then Err (Rejected id)
      else
        tables <-! query_error (ranked_stage (rk_facts d) id (rk_tables d));
        Ok (StageDone,
            {| rk_ledger := <[id := set_stages now (add_sorted "ranked_stats" (row_completed_stages r)) r]> (rk_ledger d);
               rk_facts := rk_facts d; rk_tables := tables;
               rk_performance_claims := rk_performance_claims d; rk_performance := rk_performance d;
               rk_stats_claims := rk_stats_claims d; rk_scalable := rk_scalable d |})
  end.

Definition project_match (id : Z) : ST X (result RankedProjectionResult RankedProjectionError) :=
  ranked <-? ranked_statement (fun _ d => (ranked_in_ledger d id, d));
  if negb ranked then mret (Err (Rejected id)) else
  rated ← apply_rating id;
  match rated with
  | Err e => mret (Err (Rating e))
  | Ok Busy => mret (Err (Rating "rating stream is not ready"))
  | Ok _ =>
      work <-? transaction (fun now d => apply_ranked_stage now id d);
      match work with
      | StageLeft performance scalable =>
          projected <-? finish_cumulative_stages id performance scalable;
          mret (Ok (if (projected : bool) then Projected else AlreadyProjected))
      | StageDone =>
          _ <-? finish_cumulative_stages id true true;
          mret (Ok Projected)
      end
  end.

(** ** The repair of gaps (workers/projections.rs) *)

Definition gap_candidate (d : RankedDb) (m : MatchMeta) : bool :=
  match rk_ledger d !! mm_match m with
  | Some r => String.eqb (row_status r) "complete" && negb (bool_decide (mm_match m ∈ rk_stats_claims d))
              && is_queue RANKED_QUEUE m && negb (mm_limited m)
  | None => false
  end.

Definition le_meta (a b : MatchMeta) : bool :=
  (mm_entry a <? mm_entry b) || ((mm_entry a =? mm_entry b) && (mm_match a <=? mm_match b)).

(** The rows of the query, as [query_json] gives them: a BIGINT is a string. *)
Definition gap_rows (size : Z) (d : RankedDb) : list value :=
  map (fun m => Object [("match_id", Str (pretty (mm_match m)))])
    (take (Z.to_nat size) (sort_by le_meta (List.filter (gap_candidate d) (rf_matches (rk_facts d))))).

(** [Value::as_i64] reads no string: no id is ever found. *)
Definition gap_page (size : Z) (d : RankedDb) : list Z :=
  omap (fun row => v ← get "match_id" row; id ← as_i64 v; if 0 <? id then Some id else None) (gap_rows size d).

(** The page in its transaction: the matches newly registered. *)
Definition repair_page (ids : list Z) (d : RankedDb) : result (Z * RankedDb) RankedProjectionError :=
  match newly_claimed (fun _ => true) ids (rk_stats_claims d) with
  | [] => Ok (0, d)
  | claimed =>
      d <-! project_scalable_many claimed (claim_stats claimed d);
      d <-! project_performance_many claimed d;
      Ok (Z.of_nat (length claimed), d)
  end.

Definition repair_ranked_projection_gaps (page_size : Z) : ST X (result Z RankedProjectionError) :=
  let size := Z.max 1 (Z.min 1000 page_size) in
  page <-? ranked_statement (fun _ d => (gap_page size d, d));
  match page with
  | [] => mret (Ok 0)
  | _ => fun s =>
      (* A page that fails after its transaction has begun is only logged. *)
      match ranked_begin (snd s) with
      | (Err e, w) => (Err e, (fst s, w))
      | (Ok _, w) =>
          match repair_page page (fst s) with
          | Err _ => (Ok 0, (fst s, w))
          | Ok (n, d) =>
              if n =? 0 then (Ok 0, (fst s, w)) else
              let '(o, w) := ranked_commit w in
              (Ok (if is_ok (reported o) then n else 0), (if applied o then d else fst s, w))
          end
      end
  end.
End projection.
