(* ===== verification/RankedProjectionSpec.v ===== *)
(** * What the ranked projections promise

    Every operation is a run of the transactions of [ranked_step], which the
    workers' runs interleave; over any of them a match enters the tables of
    each stage at most once. *)

From S2P Require Import Prelude Json Lifecycle Policy RankedStage RankedProjection.

(** ** Logs of what was written *)

(** What the entries of a log did to the tables, entry after entry. *)
Class Additive {E T : Type} (effect : list E -> T -> T -> Prop) := {
  effect_nil t : effect [] t t;
  effect_app log1 log2 t1 t2 t3 : effect log1 t1 t2 -> effect log2 t2 t3 -> effect (log1 ++ log2) t1 t3;
}.

Fixpoint replay {E T} (write : E -> T -> result T string) (log : list E) (t : T) : result T string :=
  match log with
  | [] => Ok t
  | e :: log => t <-! write e t; replay write log t
  end.

Definition replays {E T} (write : E -> T -> result T string) (log : list E) (t t' : T) : Prop := replay write log t = Ok t'.

#[local] Instance replays_additive {E T} (write : E -> T -> result T string) : Additive (replays write).
Proof.
  split; [done|]. intros log1 log2 t1 t2 t3. unfold replays. revert t1.
  induction log1 as [|e log1 IH]; intros t1; simpl; [by intros [= ->]|].
  destruct (write e t1) as [t|?]; simpl; [apply IH|done].
Qed.

Section log.
Context {D E T : Type} (ids : E -> list Z) (effect : list E -> T -> T -> Prop) `{!Additive effect}
  (tables : D -> T) (member : D -> Z -> Prop).

(** The tables of [d'] are those of [d] with the effect of the log, which
    names no match twice, and only matches that became members meanwhile. *)
Definition logged (log : list E) (d d' : D) : Prop :=
  effect log (tables d) (tables d') /\ NoDup (mbind ids log) /\
  (forall id, id ∈ mbind ids log -> ~ member d id /\ member d' id) /\
  (forall id, member d id -> member d' id).

(** It names all of them. *)
Definition exhaustive (log : list E) (d d' : D) : Prop :=
  forall id, member d' id -> member d id \/ id ∈ mbind ids log.

Lemma logged_nil d d' :
  tables d' = tables d -> (forall id, member d id -> member d' id) -> logged [] d d'.
Proof.
  intros Ht Hm. split_and!; simpl; [rewrite Ht; apply effect_nil|constructor|by intros ? ?%elem_of_nil|done].
Qed.

Lemma logged_app log1 log2 d1 d2 d3 : logged log1 d1 d2 -> logged log2 d2 d3 -> logged (log1 ++ log2) d1 d3.
Proof.
  intros (R1 & N1 & F1 & M1) (R2 & N2 & F2 & M2). split_and!.
  - by eapply effect_app.
  - rewrite bind_app. apply NoDup_app. split_and!; [done| |done]. intros id H1%F1 H2%F2. tauto.
  - intros id. rewrite bind_app, elem_of_app. intros [H%F1 | H%F2]; split; try tauto; [apply M2; tauto|]. intros Hm%M1. tauto.
  - auto.
Qed.

Lemma exhaustive_app log1 log2 d1 d2 d3 : exhaustive log1 d1 d2 -> exhaustive log2 d2 d3 -> exhaustive (log1 ++ log2) d1 d3.
Proof.
  intros X1 X2 id. rewrite bind_app, elem_of_app. intros [[H | H]%X1 | H]%X2; tauto.
Qed.

(** What holds of each step holds of every run. *)
Lemma logged_exhaustive_run (step : D -> D -> Prop) d d' :
  (forall d d', step d d' -> exists log, logged log d d' /\ exhaustive log d d') ->
  rtc step d d' -> exists log, logged log d d' /\ exhaustive log d d'.
Proof.
  intros Hs. induction 1 as [d|d1 d2 d3 H12 _ (log2 & L2 & X2)].
  - exists []. split; [by apply logged_nil|by left].
  - destruct (Hs _ _ H12) as (log1 & L1 & X1). exists (log1 ++ log2).
    split; [by eapply logged_app|by eapply exhaustive_app].
Qed.
End log.

(** An empty log, for tables that stay. *)
Ltac no_entry := apply logged_nil; [apply _|..].

(** A table that the writes only add to holds the sum of what they add. *)
Lemma replay_counters {E T K} `{Countable K} {L} (write : E -> T -> result T string)
    (table : T -> gmap K (L * list Z)) (rows : E -> list (K * (L * list Z))) k :
  (forall e t t', write e t = Ok t' -> counters (table t') k = vadd (counters (table t) k) (contribution (rows e) k)) ->
  forall log t t', replay write log t = Ok t' ->
  counters (table t') k = vadd (counters (table t) k) (vsum (map (fun e => contribution (rows e) k) log)).
Proof.
  intros Hw. induction log as [|e log IH]; intros t t'; simpl; [intros [= <-]; by rewrite vadd_nil_r|].
  destruct (write e t) as [t1|?] eqn:E1; simpl; [|done]. intros R. rewrite (IH _ _ R), (Hw _ _ _ E1).
  change (vsum (?x :: ?l)) with (vadd x (vsum l)). by rewrite <- vadd_assoc.
Qed.

Section projection.
Context {W : Type} `{RankedServices W}.

Abbreviation X := (RankedDb * W)%type.

(** ** Steps *)

Definition ranked_mark (d : RankedDb) (id : Z) : Prop := has_stage_in "ranked_stats" (rk_ledger d) id = true.
Definition performance_claim (d : RankedDb) (id : Z) : Prop := id ∈ rk_performance_claims d.
Definition stats_claim (d : RankedDb) (id : Z) : Prop := id ∈ rk_stats_claims d.

(** What the rest of the backend does: facts come in and the ledger moves,
    with the marks of the ranked stage where they are. *)
Record outside (d d' : RankedDb) : Prop := {
  outside_tables : rk_tables d' = rk_tables d;
  outside_performance : rk_performance d' = rk_performance d /\ rk_performance_claims d' = rk_performance_claims d;
  outside_scalable : rk_scalable d' = rk_scalable d /\ rk_stats_claims d' = rk_stats_claims d;
  outside_marks id : ranked_mark d' id <-> ranked_mark d id;
}.

(** The transactions; the row's lock and the keys of the registries keep two
    of them apart. *)
Inductive ranked_step : RankedDb -> RankedDb -> Prop :=
  | step_ranked now id work d d' : apply_ranked_stage now id d = Ok (work, d') -> ranked_step d d'
  | step_performance now ids d d' :
      project_performance_many ids d = Ok d' -> ranked_step d (append_stage now "performance_projections" ids d')
  | step_scalable now ids d d' :
      project_scalable_many ids d = Ok d' -> ranked_step d (append_stage now "scalable_stats" ids d')
  | step_close now p d : ranked_step d (update_ledger p (close_ranked now) d)
  | step_outside d d' : outside d d' -> ranked_step d d'.

(** *** The ledger under updates *)

Lemma update_ledger_lookup p f d id :
  rk_ledger (update_ledger p f d) !! id = (fun r => if p id r then f r else r) <$> rk_ledger d !! id.
Proof. unfold update_ledger. simpl. rewrite map_lookup_imap. by destruct (rk_ledger d !! id). Qed.

Lemma stages_update p f d id :
  stages_of (rk_ledger (update_ledger p f d)) id =
  match rk_ledger d !! id with Some r => row_completed_stages (if p id r then f r else r) | None => [] end.
Proof. unfold stages_of. rewrite update_ledger_lookup. by destruct (rk_ledger d !! id). Qed.

(** Closing rows and appending another stage keep the marks. *)
Lemma close_keeps_marks p now d id : ranked_mark (update_ledger p (close_ranked now) d) id <-> ranked_mark d id.
Proof.
  unfold ranked_mark, has_stage_in. rewrite stages_update. unfold stages_of.
  destruct (rk_ledger d !! id) as [r|]; [|done]. by destruct (p id r).
Qed.

Lemma append_keeps_marks now stage ids d id :
  stage <> "ranked_stats"%string -> ranked_mark (append_stage now stage ids d) id <-> ranked_mark d id.
Proof.
  intros Hne. unfold ranked_mark, has_stage_in, append_stage. rewrite !bool_decide_eq_true, stages_update. unfold stages_of.
  destruct (rk_ledger d !! id) as [r|]; [|done]. destruct (_ && _); [|done]. simpl.
  rewrite elem_of_app, list_elem_of_singleton. intuition congruence.
Qed.

Lemma elem_of_add_sorted s stage stages : s ∈ add_sorted stage stages <-> s ∈ stages \/ s = stage.
Proof. unfold add_sorted. rewrite (sort_by_perm le_bytes), elem_of_remove_dups, elem_of_app, list_elem_of_singleton. done. Qed.

(** *** The registries *)

Lemma newly_claimed_spec wanted ids claims :
  NoDup (newly_claimed wanted ids claims) /\
  forall id, id ∈ newly_claimed wanted ids claims <-> id ∈ ids /\ wanted id = true /\ id ∉ claims.
Proof.
  split; [apply NoDup_remove_dups|]. intros id. unfold newly_claimed.
  rewrite elem_of_remove_dups, list_elem_of_In, filter_In, <- list_elem_of_In, andb_true_iff, negb_true_iff,
    bool_decide_eq_false. tauto.
Qed.

(** What a batch of either later stage does: the matches it registers are
    those it writes. *)
Lemma performance_batch_spec ids d d' :
  project_performance_many ids d = Ok d' ->
  exists claimed,
    claimed = newly_claimed (unlimited_match d) ids (rk_performance_claims d) /\
    rk_performance_claims d' = list_to_set claimed ∪ rk_performance_claims d /\
    (rk_performance d' = rk_performance d /\ claimed = [] \/
     write_performance (rk_facts d) claimed (rk_performance d) = Ok (rk_performance d')) /\
    rk_ledger d' = rk_ledger d /\ rk_facts d' = rk_facts d /\ rk_tables d' = rk_tables d /\
    rk_stats_claims d' = rk_stats_claims d /\ rk_scalable d' = rk_scalable d.
Proof.
  unfold project_performance_many. destruct (newly_claimed _ _ _) as [|c cs] eqn:E.
  - intros [= <-]. exists []. split_and!; try done; [set_solver|by left].
  - unfold query_error. destruct (write_performance _ _ _) as [t|e] eqn:Ew; simpl; [|done]. intros [= <-].
    exists (c :: cs). split_and!; try done. by right.
Qed.

Lemma scalable_batch_spec ids d d' :
  project_scalable_many ids d = Ok d' ->
  exists claimed,
    claimed = newly_claimed (ranked_unlimited d) ids (rk_stats_claims d) /\
    rk_stats_claims d' = list_to_set claimed ∪ rk_stats_claims d /\
    (rk_scalable d' = rk_scalable d /\ claimed = [] \/
     write_scalable (rk_facts d) (rt_lobby (rk_tables d)) claimed (rk_scalable d) = Ok (rk_scalable d')) /\
    rk_ledger d' = rk_ledger d /\ rk_facts d' = rk_facts d /\ rk_tables d' = rk_tables d /\
    rk_performance_claims d' = rk_performance_claims d /\ rk_performance d' = rk_performance d.
Proof.
  unfold project_scalable_many. destruct (newly_claimed _ _ _) as [|c cs] eqn:E.
  - intros [= <-]. exists []. split_and!; try done; [set_solver|by left].
  - unfold query_error. destruct (write_scalable _ _ _ _) as [t|e] eqn:Ew; simpl; [|done]. intros [= <-].
    exists (c :: cs). split_and!; try done. by right.
Qed.

(** *** Logs of each step *)

Definition write_stage (e : RankedFacts * Z) : RankedTables -> result RankedTables string := ranked_stage (fst e) (snd e).
Definition write_batch (e : RankedFacts * list Z) : PerformanceTables -> result PerformanceTables string :=
  write_performance (fst e) (snd e).
Definition write_scaled (e : (RankedFacts * LobbyTiers) * list Z) : ScalableTables -> result ScalableTables string :=
  write_scalable (fst (fst e)) (snd (fst e)) (snd e).

Definition stage_log := logged (fun e : RankedFacts * Z => [snd e]) (replays write_stage) rk_tables ranked_mark.
Definition performance_log := logged (fun e : RankedFacts * list Z => snd e) (replays write_batch) rk_performance performance_claim.
Definition scalable_log := logged (fun e : (RankedFacts * LobbyTiers) * list Z => snd e) (replays write_scaled) rk_scalable stats_claim.

Definition all_staged := exhaustive (fun e : RankedFacts * Z => [snd e]) ranked_mark.
Definition all_batched := exhaustive (fun e : RankedFacts * list Z => snd e) performance_claim.
Definition all_scaled := exhaustive (fun e : (RankedFacts * LobbyTiers) * list Z => snd e) stats_claim.

Lemma ranked_stage_step now id work d d' :
  apply_ranked_stage now id d = Ok (work, d') ->
  (d' = d /\ ranked_mark d id) \/
  (~ ranked_mark d id /\ work = StageDone /\ ranked_stage (rk_facts d) id (rk_tables d) = Ok (rk_tables d') /\
   (forall i, ranked_mark d' i <-> ranked_mark d i \/ i = id) /\
   rk_performance_claims d' = rk_performance_claims d /\ rk_performance d' = rk_performance d /\
   rk_stats_claims d' = rk_stats_claims d /\ rk_scalable d' = rk_scalable d).
Proof.
  unfold apply_ranked_stage. destruct (rk_ledger d !! id) as [r|] eqn:El; [|done].
  destruct (negb (String.eqb _ _)); [done|]. unfold row_has at 1. simpl. rewrite andb_true_r.
  case_bool_decide as Hs.
  - intros [= <- <-]. left. split; [done|]. unfold ranked_mark, has_stage_in, stages_of. rewrite El. by apply bool_decide_eq_true.
  - destruct (negb (eligible_match _ _)); [done|]. unfold query_error.
    destruct (ranked_stage _ _ _) as [t|e] eqn:Es; simpl; [|done]. intros [= <- <-]. right.
    split_and!; try done.
    + unfold ranked_mark, has_stage_in, stages_of. rewrite El. by rewrite bool_decide_eq_true.
    + intros i. unfold ranked_mark, has_stage_in, stages_of. rewrite !bool_decide_eq_true. simpl.
      destruct (decide (i = id)) as [-> | Hi].
      * rewrite lookup_insert_eq, El. simpl. rewrite elem_of_add_sorted. tauto.
      * rewrite lookup_insert_ne by done. tauto.
Qed.

(** No entry of the log, where the step leaves the stage alone. *)
Lemma no_stage d d' :
  rk_tables d' = rk_tables d -> (forall id, ranked_mark d' id <-> ranked_mark d id) ->
  exists log, stage_log log d d' /\ all_staged log d d'.
Proof. intros Ht Hm. exists []. split; [no_entry; [done|apply Hm]|]. intros id Hid. left. by apply Hm. Qed.

Lemma performance_entry ids d d' :
  project_performance_many ids d = Ok d' -> exists log, performance_log log d d' /\ all_batched log d d'.
Proof.
  intros Hp. destruct (performance_batch_spec _ _ _ Hp) as (cl & -> & Hc & Hw & _).
  destruct (newly_claimed_spec (unlimited_match d) ids (rk_performance_claims d)) as [Hnd Hin].
  set (cl := newly_claimed _ _ _) in *. unfold performance_log, all_batched, exhaustive, performance_claim.
  destruct Hw as [[Hw Hcl] | Hw].
  - rewrite Hcl in Hc. exists []. rewrite Hc. split; [no_entry; [done|]|]; set_solver.
  - exists [(rk_facts d, cl)]. split; [|simpl; rewrite Hc, app_nil_r; set_solver].
    split_and!; simpl; rewrite ?app_nil_r.
    + unfold replays, write_batch. simpl. by rewrite Hw.
    + done.
    + intros id Hid. rewrite Hc. split; [by apply Hin|set_solver].
    + rewrite Hc. set_solver.
Qed.

Lemma scalable_entry ids d d' : project_scalable_many ids d = Ok d' -> exists log, scalable_log log d d' /\ all_scaled log d d'.
Proof.
  intros Hp. destruct (scalable_batch_spec _ _ _ Hp) as (cl & -> & Hc & Hw & _).
  destruct (newly_claimed_spec (ranked_unlimited d) ids (rk_stats_claims d)) as [Hnd Hin].
  set (cl := newly_claimed _ _ _) in *. unfold scalable_log, all_scaled, exhaustive, stats_claim.
  destruct Hw as [[Hw Hcl] | Hw].
  - rewrite Hcl in Hc. exists []. rewrite Hc. split; [no_entry; [done|]|]; set_solver.
  - exists [((rk_facts d, rt_lobby (rk_tables d)), cl)]. split; [|simpl; rewrite Hc, app_nil_r; set_solver].
    split_and!; simpl; rewrite ?app_nil_r.
    + unfold replays, write_scaled. simpl. by rewrite Hw.
    + done.
    + intros id Hid. rewrite Hc. split; [by apply Hin|set_solver].
    + rewrite Hc. set_solver.
Qed.

Lemma step_stage_log d d' : ranked_step d d' -> exists log, stage_log log d d' /\ all_staged log d d'.
Proof.
  intros [now id work d0 d1 Hr|now ids d0 d1 Hp|now ids d0 d1 Hp|now p d0|d0 d1 Ho].
  - destruct (ranked_stage_step _ _ _ _ _ Hr) as [[-> _] | (Hn & _ & Hs & Hm & _)]; [by apply no_stage|].
    exists [(rk_facts d0, id)]. split.
    + split_and!; simpl.
      * unfold replays, write_stage. simpl. by rewrite Hs.
      * apply NoDup_singleton.
      * intros i ->%list_elem_of_singleton. split; [done|]. apply Hm. by right.
      * intros i Hi. apply Hm. by left.
    + intros i Hi%Hm. simpl. rewrite list_elem_of_singleton. done.
  - destruct (performance_batch_spec _ _ _ Hp) as (? & _ & _ & _ & El & _ & Et & _). apply no_stage; [done|].
    intros id. rewrite append_keeps_marks by done. unfold ranked_mark. by rewrite El.
  - destruct (scalable_batch_spec _ _ _ Hp) as (? & _ & _ & _ & El & _ & Et & _). apply no_stage; [done|].
    intros id. rewrite append_keeps_marks by done. unfold ranked_mark. by rewrite El.
  - apply no_stage; [done|]. intros id. apply close_keeps_marks.
  - destruct Ho. by apply no_stage.
Qed.

Lemma step_performance_log d d' : ranked_step d d' -> exists log, performance_log log d d' /\ all_batched log d d'.
Proof.
  assert (forall d d' : RankedDb, rk_performance d' = rk_performance d -> rk_performance_claims d' = rk_performance_claims d ->
    exists log, performance_log log d d' /\ all_batched log d d') as Hsame.
  { intros d1 d2 Ht Hc. exists []. split; [no_entry; [done|]|]; unfold all_batched, exhaustive, performance_claim;
      rewrite Hc; [done|by left]. }
  intros [now id work d0 d1 Hr|now ids d0 d1 Hp|now ids d0 d1 Hp|now p d0|d0 d1 Ho].
  - destruct (ranked_stage_step _ _ _ _ _ Hr) as [[-> _] | (_ & _ & _ & _ & ? & ? & _)]; by apply Hsame.
  - exact (performance_entry _ _ _ Hp).
  - destruct (scalable_batch_spec _ _ _ Hp) as (? & _ & _ & _ & _ & _ & _ & ? & ?). by apply Hsame.
  - by apply Hsame.
  - destruct Ho as [_ [? ?] _ _]. by apply Hsame.
Qed.

Lemma step_scalable_log d d' : ranked_step d d' -> exists log, scalable_log log d d' /\ all_scaled log d d'.
Proof.
  assert (forall d d' : RankedDb, rk_scalable d' = rk_scalable d -> rk_stats_claims d' = rk_stats_claims d ->
    exists log, scalable_log log d d' /\ all_scaled log d d') as Hsame.
  { intros d1 d2 Ht Hc. exists []. split; [no_entry; [done|]|]; unfold all_scaled, exhaustive, stats_claim;
      rewrite Hc; [done|by left]. }
  intros [now id work d0 d1 Hr|now ids d0 d1 Hp|now ids d0 d1 Hp|now p d0|d0 d1 Ho].
  - destruct (ranked_stage_step _ _ _ _ _ Hr) as [[-> _] | (_ & _ & _ & _ & _ & _ & ? & ?)]; by apply Hsame.
  - destruct (performance_batch_spec _ _ _ Hp) as (? & _ & _ & _ & _ & _ & _ & ? & ?). by apply Hsame.
  - exact (scalable_entry _ _ _ Hp).
  - by apply Hsame.
  - destruct Ho as [_ _ [? ?] _]. by apply Hsame.
Qed.

(** ** Operations are runs of steps *)

Definition steps {A} (f : ST X A) : Prop := forall s, rtc ranked_step (fst s) (fst (snd (f s))).

Lemma steps_ret {A} (a : A) : steps (mret a).
Proof. intros s. apply rtc_refl. Qed.

Lemma steps_try {A B E} (c : ST X (result A E)) (k : A -> ST X (result B E)) :
  steps c -> (forall a, steps (k a)) -> steps (try_bind c k).
Proof.
  intros Hc Hk s. specialize (Hc s). unfold try_bind. destruct (c s) as [[a|e] s1]; [|done].
  etrans; [done|]. apply Hk.
Qed.

Lemma steps_bind {A B} (c : ST X A) (k : A -> ST X B) : steps c -> (forall a, steps (k a)) -> steps (c ≫= k).
Proof.
  intros Hc Hk s. specialize (Hc s). unfold mbind, ST_bind. destruct (c s) as [a s1]. etrans; [done|]. apply Hk.
Qed.

Lemma steps_transaction {A} (body : Z -> RankedDb -> result (A * RankedDb) RankedProjectionError) :
  (forall now d a d', body now d = Ok (a, d') -> rtc ranked_step d d') -> steps (transaction body).
Proof.
  intros Hb [d w]. unfold transaction. simpl. destruct (ranked_begin w) as [[now|e] w1]; [|apply rtc_refl].
  destruct (body now d) as [[a d']|e] eqn:Eb; [|apply rtc_refl].
  destruct (ranked_commit w1) as [o w2]. simpl. destruct (applied o); [by eapply Hb|apply rtc_refl].
Qed.

Lemma steps_statement {A} (f : Z -> RankedDb -> A * RankedDb) :
  (forall now d, rtc ranked_step d (snd (f now d))) -> steps (ranked_statement f).
Proof.
  intros Hf [d w]. unfold ranked_statement. simpl. destruct (ranked_query w) as [[now o] w1]. specialize (Hf now d).
  destruct (f now d) as [a d']. simpl in *. destruct (applied o); [done|apply rtc_refl].
Qed.

Create HintDb ranked.
Hint Resolve steps_ret steps_try steps_bind : ranked.

(** A statement that only reads. *)
Lemma steps_read {A} (f : RankedDb -> A) : steps (ranked_statement (fun _ d => (f d, d))).
Proof. apply steps_statement. intros now d. apply rtc_refl. Qed.

Lemma steps_performance ids : steps (project_performance_batch ids).
Proof.
  unfold project_performance_batch, project_cumulative_batch. destruct ids as [|i ids]; [apply steps_ret|].
  apply steps_transaction. intros now d [] d'. destruct (project_performance_many _ d) as [d1|e] eqn:E; simpl; [|done].
  intros [= <-]. eapply rtc_once, step_performance, E.
Qed.

Lemma steps_scalable ids : steps (project_scalable_batch ids).
Proof.
  unfold project_scalable_batch, project_cumulative_batch. destruct ids as [|i ids]; [apply steps_ret|].
  apply steps_transaction. intros now d [] d'. destruct (project_scalable_many _ d) as [d1|e] eqn:E; simpl; [|done].
  intros [= <-]. eapply rtc_once, step_scalable, E.
Qed.

Lemma steps_chunks f cs : (forall c, steps (f c)) -> steps (each_chunk f cs).
Proof. intros Hf. induction cs as [|c cs IH]; simpl; [apply steps_ret|]. apply steps_try; auto. Qed.
Hint Resolve steps_read steps_performance steps_scalable steps_chunks : ranked.

Lemma steps_finish id p s : steps (finish_cumulative_stages id p s).
Proof.
  unfold finish_cumulative_stages. apply steps_try; [destruct p; auto with ranked|intros _].
  apply steps_try; [destruct s; auto with ranked|intros _]. apply steps_try; [|auto with ranked].
  apply steps_statement. intros now d. apply rtc_once, step_close.
Qed.
Hint Resolve steps_finish : ranked.

Lemma steps_complete ids : steps (complete_cumulative_stages_for_matches ids).
Proof.
  unfold complete_cumulative_stages_for_matches. destruct ids as [|i ids]; [apply steps_ret|].
  repeat (apply steps_try; [unfold cumulative_stage_candidates; auto with ranked|intros ?]).
  apply steps_statement. intros now d. apply rtc_once, step_close.
Qed.

(** The page of a repair is empty, whatever gaps there are. *)
Lemma gap_page_empty size d : gap_page size d = [].
Proof. unfold gap_page, gap_rows. by induction (take _ _) as [|m ms IH]. Qed.

Lemma repair_run size s :
  repair_ranked_projection_gaps size s
  = (map_err ProjectionDatabase (_ <-! reported (snd (fst (ranked_query (snd s)))); Ok 0), (fst s, snd (ranked_query (snd s)))).
Proof.
  destruct s as [d w]. unfold repair_ranked_projection_gaps, try_bind, ranked_statement. simpl.
  destruct (ranked_query w) as [[now o] w1]. simpl. rewrite gap_page_empty. by destruct o.
Qed.

Lemma steps_repair size : steps (repair_ranked_projection_gaps size).
Proof. intros s. rewrite repair_run. apply rtc_refl. Qed.

Section rating.
Context (apply_rating : Z -> ST X (result RatingApplicationResult string)).

(** The rating leaves the ranked tables alone. *)
Definition rating_outside : Prop := forall id s, outside (fst s) (fst (snd (apply_rating id s))).

Lemma steps_project id : rating_outside -> steps (project_match apply_rating id).
Proof.
  intros Hr. unfold project_match. apply steps_try; [auto with ranked|]. intros ranked.
  destruct ranked; cbn [negb]; [|apply steps_ret]. apply steps_bind; [intros s; apply rtc_once, step_outside, Hr|].
  intros [[| | |]|e]; try apply steps_ret.
  all: apply steps_try;
    [apply steps_transaction; intros now d a d' Ha; eapply rtc_once, step_ranked, Ha|intros [|p s]; auto with ranked].
Qed.

(** Every operation, however it ends, is a run of the transactions of
    [ranked_step]. *)
Theorem ranked_operations_step :
  rating_outside ->
  forall s,
  (forall id, rtc ranked_step (fst s) (fst (snd (project_match apply_rating id s)))) /\
  (forall ids, rtc ranked_step (fst s) (fst (snd (project_performance_batch ids s)))) /\
  (forall ids, rtc ranked_step (fst s) (fst (snd (project_scalable_batch ids s)))) /\
  (forall ids, rtc ranked_step (fst s) (fst (snd (complete_cumulative_stages_for_matches ids s)))) /\
  (forall size, rtc ranked_step (fst s) (fst (snd (repair_ranked_projection_gaps size s)))).
Proof.
  intros Hr s. split_and!; intros; [by apply steps_project|apply steps_performance|apply steps_scalable
    |apply steps_complete|apply steps_repair].
Qed.
End rating.

(** ** What the runs add up to *)

Ltac stage_ok :=
  repeat match goal with
  | H : rbind ?r _ = Ok _ |- _ => let E := fresh "E" in destruct r eqn:E; cbn [rbind] in H; [|done]
  end.

Lemma checked_ok {A} ok (rows rows' : list A) : checked ok rows = Ok rows' -> rows' = rows.
Proof. unfold checked. destruct (forallb ok rows); [by intros [= ->]|done]. Qed.

Definition rows_or_none {A} (r : result (list A) string) : list A := match r with Ok rows => rows | Err _ => [] end.

(** The table [d'] has of [d] and of the rows of each entry. *)
Definition adds {K L} `{Countable K} (rows : RankedFacts -> Z -> list (K * (L * list Z))) (log : list (RankedFacts * Z))
    (t t' : gmap K (L * list Z)) : Prop :=
  forall k, counters t' k = vadd (counters t k) (vsum (map (fun e => contribution (rows (fst e) (snd e)) k) log)).

(** The tables whose rows depend on the facts of the match alone: those that
    only the stage writes, and those that a rebuild would write too. *)
Definition kept_add (log : list (RankedFacts * Z)) (t t' : RankedTables) : Prop :=
  adds talent_card_rows log (rt_talent_cards t) (rt_talent_cards t') /\
  adds skin_rows log (rt_skins t) (rt_skins t') /\
  adds champion_rows log (rt_champions t) (rt_champions t') /\
  adds (fun f id => rows_or_none (relationship_rows f id)) log (rt_relationships t) (rt_relationships t') /\
  adds (fun f id => rows_or_none (opponent_rows f id)) log (rt_opponents t) (rt_opponents t').

Definition rebuilt_add (log : list (RankedFacts * Z)) (t t' : RankedTables) : Prop :=
  adds item_rows log (rt_items t) (rt_items t') /\ adds talent_rows log (rt_talents t) (rt_talents t') /\
  adds card_rows log (rt_cards t) (rt_cards t') /\ adds ban_rows log (rt_bans t) (rt_bans t').

Definition tables_add (log : list (RankedFacts * Z)) (t t' : RankedTables) : Prop :=
  kept_add log t t' /\ rebuilt_add log t t'.

Lemma stage_adds e t t' : write_stage e t = Ok t' -> tables_add [e] t t'.
Proof.
  unfold write_stage, ranked_stage. intros Hs. stage_ok. injection Hs as <-.
  repeat match goal with
  | H : checked _ _ = Ok _ |- _ => apply checked_ok in H; subst
  | H : relationship_rows _ _ = Ok _ |- _ => revert H
  | H : opponent_rows _ _ = Ok _ |- _ => revert H
  end.
  intros Ho Hr. unfold tables_add, kept_add, rebuilt_add, adds. simpl. rewrite Hr, Ho.
  split_and!; intros k; rewrite vadd_nil_r; eapply upsert_counters; eassumption.
Qed.

Lemma adds_app {K L} `{Countable K} (rows : RankedFacts -> Z -> list (K * (L * list Z))) log1 log2 (t t1 t2 : gmap K (L * list Z)) :
  adds rows log1 t t1 -> adds rows log2 t1 t2 -> adds rows (log1 ++ log2) t t2.
Proof.
  intros H1 H2 k. by rewrite H2, H1, map_app, vsum_app, vadd_assoc.
Qed.

#[local] Instance kept_additive : Additive kept_add.
Proof.
  split; [intros t; split_and!; intros k; by rewrite vadd_nil_r|].
  intros log1 log2 t1 t2 t3. unfold kept_add. intros. destruct_and!. split_and!; eapply adds_app; eassumption.
Qed.

#[local] Instance tables_additive : Additive tables_add.
Proof.
  split; [intros t; unfold tables_add, kept_add, rebuilt_add; split_and!; intros k; by rewrite vadd_nil_r|].
  intros log1 log2 t1 t2 t3. unfold tables_add, kept_add, rebuilt_add. intros. destruct_and!.
  split_and!; eapply adds_app; eassumption.
Qed.

Lemma replay_adds log t t' : replay write_stage log t = Ok t' -> tables_add log t t'.
Proof.
  revert t. induction log as [|e log IH]; intros t; simpl.
  - intros [= <-]. apply effect_nil.
  - intros Hr. stage_ok. eapply (effect_app [e] log); [by apply stage_adds|by apply IH].
Qed.

(** *** Rebuilds

    The rebuild of maintenance.rs writes these tables anew from the stored
    matches.  Its statement for the compositions does not parse, so that its
    transaction is always rolled back; what is said of a run with rebuilds
    does not depend on it. *)
Record rebuilt (d d' : RankedDb) : Prop := {
  rebuilt_tables : rk_tables d' =
    {| rt_lobby := rt_lobby (rk_tables d); rt_items := rt_items (rk_tables d'); rt_map_claims := rt_map_claims (rk_tables d);
       rt_map_items := rt_map_items (rk_tables d); rt_talents := rt_talents (rk_tables d'); rt_cards := rt_cards (rk_tables d');
       rt_talent_cards := rt_talent_cards (rk_tables d); rt_skins := rt_skins (rk_tables d); rt_bans := rt_bans (rk_tables d');
       rt_champions := rt_champions (rk_tables d); rt_compositions := rt_compositions (rk_tables d');
       rt_relationships := rt_relationships (rk_tables d); rt_opponents := rt_opponents (rk_tables d) |};
  rebuilt_rest :
    d' = {| rk_ledger := rk_ledger d; rk_facts := rk_facts d; rk_tables := rk_tables d';
            rk_performance_claims := rk_performance_claims d; rk_performance := rk_performance d;
            rk_stats_claims := rk_stats_claims d; rk_scalable := rk_scalable d |};
}.

(** The steps of the whole backend, with rebuilds that commit or without. *)
Inductive backend_ranked (rebuilds : bool) : RankedDb -> RankedDb -> Prop :=
  | backend_ranked_step d d' : ranked_step d d' -> backend_ranked rebuilds d d'
  | backend_rebuild d d' : rebuilds = true -> rebuilt d d' -> backend_ranked rebuilds d d'.

Definition kept_log := logged (fun e : RankedFacts * Z => [snd e]) kept_add rk_tables ranked_mark.

Lemma step_kept_log rebuilds d d' :
  backend_ranked rebuilds d d' -> exists log, kept_log log d d' /\ all_staged log d d'.
Proof.
  intros [d0 d1 Hs|d0 d1 _ [Ht Hd]].
  - destruct (step_stage_log _ _ Hs) as (log & (Hr & Hl) & Hall). exists log.
    split; [split; [by apply replay_adds|done]|done].
  - assert (forall id, ranked_mark d1 id <-> ranked_mark d0 id) as Hm by (intros id; unfold ranked_mark; by rewrite Hd).
    exists []. split; [|intros id Hid; left; by apply Hm].
    split_and!; [|constructor|by intros ? ?%elem_of_nil|apply Hm].
    rewrite Ht. split_and!; intros k; by rewrite vadd_nil_r.
Qed.

Lemma no_rebuilds d d' : rtc (backend_ranked false) d d' -> rtc ranked_step d d'.
Proof. induction 1 as [|? ? ? [? ? Hs|]]; [done|by eapply rtc_l|done]. Qed.

Lemma mbind_snd (log : list (RankedFacts * Z)) : mbind (fun e : RankedFacts * Z => [snd e]) log = map snd log.
Proof. by induction log as [|e log IH]; csimpl; [|f_equal]. Qed.

(** C8. A match is counted once in the ranked statistics: over any interleaving
    of runs, the matches that gain the mark of the stage are counted, each
    once and as its facts were, and no other.  The tables of champions, talent
    cards, skins, relationships and opponents add up to them even across
    rebuilds; all the tables, as long as no rebuild commits. *)
Theorem ranked_counted_once rebuilds d d' :
  rtc (backend_ranked rebuilds) d d' ->
  exists log, NoDup (map snd log) /\
    (forall id, id ∈ map snd log <-> ranked_mark d' id /\ ~ ranked_mark d id) /\
    kept_add log (rk_tables d) (rk_tables d') /\
    (rebuilds = false ->
     replay write_stage log (rk_tables d) = Ok (rk_tables d') /\ rebuilt_add log (rk_tables d) (rk_tables d')).
Proof.
  intros Hrun.
  assert (forall log, (forall id, id ∈ map snd log -> ~ ranked_mark d id /\ ranked_mark d' id) -> all_staged log d d' ->
    forall id, id ∈ map snd log <-> ranked_mark d' id /\ ~ ranked_mark d id) as Hiff.
  { intros log Hin Hall id. unfold all_staged, exhaustive in Hall. rewrite mbind_snd in Hall.
    split; [intros Hid; destruct (Hin _ Hid); tauto|]. intros [H' Hn]. by destruct (Hall _ H'). }
  destruct rebuilds.
  - destruct (logged_exhaustive_run _ _ _ _ _ d d' (step_kept_log true) Hrun) as (log & (Hr & Hnd & Hin & _) & Hall).
    rewrite mbind_snd in *. exists log. split_and!; [done|by apply Hiff|done|done].
  - destruct (logged_exhaustive_run _ _ _ _ ranked_step d d' step_stage_log (no_rebuilds _ _ Hrun)) as (log & (Hr & Hnd & Hin & _) & Hall).
    rewrite mbind_snd in *. destruct (replay_adds _ _ _ Hr). exists log. split_and!; [done|by apply Hiff|done|done].
Qed.

(** The later stages hold each match registered for them, once. *)
Theorem batches_counted_once d d' :
  rtc ranked_step d d' ->
  (exists log, NoDup (mbind snd log) /\ replay write_batch log (rk_performance d) = Ok (rk_performance d') /\
    forall id, id ∈ mbind snd log <-> performance_claim d' id /\ ~ performance_claim d id) /\
  (exists log, NoDup (mbind snd log) /\ replay write_scaled log (rk_scalable d) = Ok (rk_scalable d') /\
    forall id, id ∈ mbind snd log <-> stats_claim d' id /\ ~ stats_claim d id).
Proof.
  intros Hrun. split.
  - destruct (logged_exhaustive_run _ _ _ _ ranked_step d d' step_performance_log Hrun) as (log & (Hr & Hnd & Hin & Hm) & Hall).
    exists log. split_and!; [done|done|]. intros id.
    split; [intros Hid; destruct (Hin _ Hid); tauto|]. intros [H' Hn]. by destruct (Hall _ H').
  - destruct (logged_exhaustive_run _ _ _ _ ranked_step d d' step_scalable_log Hrun) as (log & (Hr & Hnd & Hin & Hm) & Hall).
    exists log. split_and!; [done|done|]. intros id.
    split; [intros Hid; destruct (Hin _ Hid); tauto|]. intros [H' Hn]. by destruct (Hall _ H').
Qed.

(** C9. The repair of gaps repairs nothing: whatever complete matches lack their
    scalable statistics, it answers zero, or the error of its query, and
    leaves the database as it is, since it reads the ids of its page as
    numbers where they are given as texts. *)
Theorem repair_repairs_nothing size s :
  fst (snd (repair_ranked_projection_gaps size s)) = fst s /\
  (fst (repair_ranked_projection_gaps size s) = Ok 0 \/
   exists m, fst (repair_ranked_projection_gaps size s) = Err (ProjectionDatabase m)).
Proof. rewrite repair_run. split; [done|]. destruct (reported _) as [[]|m]; [by left|right; by exists m]. Qed.

(** ** What one projection promises *)

Lemma transaction_ok {A} (body : Z -> RankedDb -> result (A * RankedDb) RankedProjectionError) s a s' :
  transaction body s = (Ok a, s') -> exists now, body now (fst s) = Ok (a, fst s').
Proof.
  unfold transaction. destruct (ranked_begin (snd s)) as [[now|e] w]; [|done].
  destruct (body now (fst s)) as [[a' d]|e] eqn:Eb; [|done]. destruct (ranked_commit w) as [[|e|e] w']; simpl; [|done..].
  intros [= <- <-]. by exists now.
Qed.

Lemma ranked_statement_ok {A} (f : Z -> RankedDb -> A * RankedDb) s a s' :
  ranked_statement f s = (Ok a, s') -> exists now, f now (fst s) = (a, fst s').
Proof.
  unfold ranked_statement. destruct (ranked_query (snd s)) as [[now o] w]. destruct (f now (fst s)) as [a' d] eqn:Ef.
  destruct o; simpl; [|done..]. intros [= <- <-]. by exists now.
Qed.

(** The row of a match has the stages. *)
Definition has_stages (stages : list string) (id : Z) (d : RankedDb) : Prop :=
  exists r, rk_ledger d !! id = Some r /\ row_has stages r = true.

Lemma row_has_spec stages r : row_has stages r = true <-> stages ⊆ row_completed_stages r.
Proof.
  unfold row_has. rewrite forallb_forall. setoid_rewrite bool_decide_eq_true. setoid_rewrite <- list_elem_of_In. done.
Qed.

Lemma append_has_stage now stage stages id d :
  has_stages stages id d -> has_stages (stage :: stages) id (append_stage now stage [id] d).
Proof.
  intros (r & El & Hr). unfold has_stages, append_stage. rewrite update_ledger_lookup, El.
  eexists. split; [reflexivity|]. rewrite (bool_decide_true (id ∈ [id])) by by left.
  destruct (row_has [stage] r) eqn:Eh; cbn [andb negb]; rewrite row_has_spec in *; simpl; set_solver.
Qed.

Lemma batch_has_stage many stage id stages s s' :
  (forall d d', many [id] d = Ok d' -> rk_ledger d' = rk_ledger d) ->
  project_cumulative_batch many stage [id] s = (Ok tt, s') ->
  has_stages stages id (fst s) -> has_stages (stage :: stages) id (fst s').
Proof.
  intros Hm Hrun Hs. apply transaction_ok in Hrun as (now & Hrun). destruct (many _ _) as [d|e] eqn:E; simpl in Hrun; [|done].
  injection Hrun as <-. apply append_has_stage. unfold has_stages. by rewrite (Hm _ _ E).
Qed.

Lemma has_stages_sub a b id d : a ⊆ b -> has_stages b id d -> has_stages a id d.
Proof. intros Hab (r & El & Hr). exists r. split; [done|]. rewrite row_has_spec in *. set_solver. Qed.

Definition finished (id : Z) (d : RankedDb) : Prop :=
  exists r, rk_ledger d !! id = Some r /\ row_has all_ranked_stages r = true /\ row_status r = "complete"%string /\
    row_acquisition_state r = "complete"%string /\ lease_owner r = None /\ lease_until r = None /\ is_Some (completed_at r).

Lemma ranked_finish_ok id performance scalable s b s' :
  finish_cumulative_stages id performance scalable s = (Ok b, s') ->
  has_stages ("ranked_stats" :: (if performance then [] else ["performance_projections"])
              ++ (if scalable then [] else ["scalable_stats"]))%string id (fst s) ->
  finished id (fst s').
Proof.
  intros Hrun Hs. apply try_ok in Hrun as ([] & s1 & H1 & Hrun). apply try_ok in Hrun as ([] & s2 & H2 & Hrun).
  apply try_ok in Hrun as ([] & s3 & H3 & Hrun). injection Hrun as _ <-.
  assert (has_stages ("performance_projections" :: "ranked_stats" :: (if scalable then [] else ["scalable_stats"]))%string
    id (fst s1)) as Hs1.
  { destruct performance.
    - eapply batch_has_stage; [|exact H1|exact Hs]. intros d d' (? & _ & _ & _ & ? & _)%performance_batch_spec. done.
    - injection H1 as <-. eapply has_stages_sub, Hs. set_solver. }
  assert (has_stages all_ranked_stages id (fst s2)) as (r & El & Hr).
  { destruct scalable.
    - eapply has_stages_sub, batch_has_stage; [|intros d d' (? & _ & _ & _ & ? & _)%scalable_batch_spec; done|exact H2|exact Hs1].
      set_solver.
    - injection H2 as <-. eapply has_stages_sub, Hs1. set_solver. }
  apply ranked_statement_ok in H3 as (now & Hd). apply (f_equal snd) in Hd. cbn [snd] in Hd. unfold finished. rewrite <- Hd, update_ledger_lookup, El.
  eexists. split; [reflexivity|]. rewrite Z.eqb_refl, Hr. cbn [andb]. split_and!; try done.
  simpl. unfold coalesce. by destruct (completed_at r).
Qed.

(** What the locked transaction leaves to do is what the row lacks. *)
Lemma stage_work_left now id work d d' :
  apply_ranked_stage now id d = Ok (work, d') ->
  let '(performance, scalable) := match work with StageDone => (true, true) | StageLeft p s => (p, s) end in
  has_stages ("ranked_stats" :: (if performance then [] else ["performance_projections"])
              ++ (if scalable then [] else ["scalable_stats"]))%string id d'.
Proof.
  unfold apply_ranked_stage. destruct (rk_ledger d !! id) as [r|] eqn:El; [|done].
  destruct (negb (String.eqb _ _)); [done|]. destruct (row_has ["ranked_stats"] r) eqn:Eh.
  - intros Hd. injection Hd as <- <-. exists r. split; [done|].
    assert (forall s, (if negb (row_has [s] r) then [] else [s]) ⊆ row_completed_stages r) as Hsub.
    { intros s. destruct (row_has [s] r) eqn:Es; [by apply row_has_spec|]. by intros ? ?%elem_of_nil. }
    rewrite row_has_spec in Eh |- *. intros s. rewrite elem_of_cons, elem_of_app.
    intros [-> | [Hs | Hs]]; [apply Eh; by left|by apply (Hsub _ _ Hs)..].
  - destruct (negb (eligible_match _ _)); [done|]. unfold query_error.
    destruct (ranked_stage _ _ _) as [t|e]; simpl; [|done]. intros [= <- <-].
    unfold has_stages. cbn [rk_ledger]. rewrite lookup_insert_eq. eexists. split; [reflexivity|]. rewrite row_has_spec. simpl.
    intros s ->%list_elem_of_singleton. apply elem_of_add_sorted. by right.
Qed.

(** A projection that succeeds leaves its match complete, with its three
    stages and no lease. *)
Theorem project_match_finishes apply_rating id s r s' :
  project_match apply_rating id s = (Ok r, s') -> finished id (fst s').
Proof.
  intros Hrun. apply try_ok in Hrun as (ranked & s1 & _ & Hrun). destruct ranked; cbn [negb] in Hrun; [|done].
  unfold mbind, ST_bind in Hrun. destruct (apply_rating id s1) as [[[| | |]|e] s2]; try done.
  all: apply try_ok in Hrun as (work & s3 & Hwork & Hrun); apply transaction_ok in Hwork as (now & Hwork).
  all: pose proof (stage_work_left _ _ _ _ _ Hwork) as Hs.
  all: destruct work as [|performance scalable]; apply try_ok in Hrun as (b & s4 & Hfin & Hrun); injection Hrun as _ <-.
  all: eapply ranked_finish_ok; [exact Hfin|exact Hs].
Qed.

(** *** Counters at the end of their range *)

(** A counter of a champion of the match would leave its column. *)
Definition overflowing (d : RankedDb) (id : Z) : Prop :=
  exists row, row ∈ champion_rows (rk_facts d) id /\
    in_int4 (vadd (counters (rt_champions (rk_tables d)) (fst row)) (snd (snd row))) = false.

Lemma overflowing_stage now id d a d' :
  overflowing d id -> ~ ranked_mark d id -> apply_ranked_stage now id d <> Ok (a, d').
Proof.
  intros Hover Hn Hs. destruct (ranked_stage_step _ _ _ _ _ Hs) as [[_ Hm] | (_ & _ & Hst & _)]; [done|].
  unfold ranked_stage in Hst. stage_ok.
  repeat match goal with H : checked _ _ = Ok _ |- _ => apply checked_ok in H; subst end.
  pose proof (upsert_overflow excluded _ _ Hover) as Hno.
  match goal with H : upsert _ (champion_rows _ _) _ = Ok _ |- _ => rewrite H in Hno end. done.
Qed.

(** Nothing of a match enters the ranked statistics while a counter of one
    of its champions has no room for it: every attempt fails. *)
Theorem overflow_blocks_match apply_rating id s r s' :
  rating_outside apply_rating -> (forall i s, rk_facts (fst (snd (apply_rating i s))) = rk_facts (fst s)) ->
  overflowing (fst s) id -> ~ ranked_mark (fst s) id -> project_match apply_rating id s = (r, s') ->
  is_ok r = false /\ rk_tables (fst s') = rk_tables (fst s) /\ ~ ranked_mark (fst s') id.
Proof.
  intros Hout Hfacts Hover Hn. unfold project_match, try_bind at 1, ranked_statement at 1.
  destruct (ranked_query (snd s)) as [[now o] w] eqn:Eq. assert ((if applied o then fst s else fst s) = fst s) as -> by (by destruct (applied o)).
  destruct (reported o); cbn [rbind map_err fst snd]; [|by intros [= <- <-]].
  destruct (ranked_in_ledger (fst s) id); cbn [negb]; [|by intros [= <- <-]]. unfold mbind, ST_bind.
  destruct (Hout id (fst s, w)) as [Ht _ _ Hm]. specialize (Hfacts id (fst s, w)).
  destruct (apply_rating id (fst s, w)) as [rated [d1 w1]]. simpl in *.
  assert (~ ranked_mark d1 id) as Hn1 by (by rewrite Hm).
  assert (overflowing d1 id) as Hover1 by (unfold overflowing; by rewrite Hfacts, Ht).
  assert (forall r0, transaction (fun now d => apply_ranked_stage now id d) (d1, w1) = r0 ->
    is_ok (fst r0) = false /\ fst (snd r0) = d1) as Htr.
  { intros r0 <-. unfold transaction. simpl. destruct (ranked_begin w1) as [[now1|e] w2]; [|done].
    destruct (apply_ranked_stage now1 id d1) as [[wk d2]|?] eqn:Es; [|done]. by apply overflowing_stage in Es. }
  destruct rated as [[| | |]|e]; try (by intros [= <- <-]).
  all: unfold try_bind; destruct (transaction _ _) as [[wk|?] s2] eqn:Etr; destruct (Htr _ eq_refl) as [He Hd]; [done|];
    intros [= <- <-]; simpl in *; by rewrite Hd.
Qed.
End projection.

(** * Ranked projections to evaluate

    Later stages that record the matches they are given, a rating that always
    succeeds, and the theorems of RankedProjectionSpec at work on one match. *)

#[local] Instance ranked_double : RankedServices unit := {|
  PerformanceTables := list Z;
  ScalableTables := list Z;
  write_performance := fun _ ids t => Ok (t ++ ids);
  write_scalable := fun _ _ ids t => Ok (t ++ ids);
  ranked_begin := fun w => (Ok 1000, w);
  ranked_commit := fun w => (Committed, w);
  ranked_query := fun w => ((1000, Committed), w);
|}.

#[local] Abbreviation X := (RankedDb * unit)%type.

Definition rated (_ : Z) : ST X (result RatingApplicationResult string) := mret (Ok Applied).

(** Ten players, five of each team, player [n] with champion [n]. *)
Definition player (n : Z) : PlayerFact :=
  {| pf_match := 77; pf_player := n; pf_entry := 1; pf_champion := Some n; pf_skin := None; pf_skin_name := None;
     pf_kills := Some 3; pf_deaths := Some 2; pf_assists := Some 1; pf_damage := Some 100000; pf_gold := Some 9000;
     pf_healing := None; pf_mitigated := None; pf_win_status := Some (if n <=? 5 then "Winner" else "Loser");
     pf_task_force := Some (if n <=? 5 then 1 else 2); pf_league_tier := Some 12; pf_party := 0; pf_is_ranked := Some true |}.

Definition lobby : list Z := [1; 2; 3; 4; 5; 6; 7; 8; 9; 10].

Definition facts : RankedFacts :=
  {| rf_matches := [{| mm_match := 77; mm_entry := 1; mm_queue := Some 486; mm_map := Some "Jaguar Falls"%string; mm_limited := false |}];
     rf_players := map player lobby;
     rf_items := [{| if_match := 77; if_player := 1; if_slot := 1; if_item := 900; if_level := Some 3 |};
                  {| if_match := 77; if_player := 2; if_slot := 1; if_item := 900; if_level := Some 3 |}];
     rf_talents := [{| tf_match := 77; tf_player := 1; tf_talent := 40 |}];
     rf_cards := [{| cf_match := 77; cf_player := 1; cf_card := 60; cf_level := Some 5 |}];
     rf_bans := [{| bf_match := 77; bf_slot := 1; bf_champion := Some 11 |}];
     rf_champions := list_to_map (map (fun n => (n, (pretty n, Some "Damage"%string))) (lobby ++ [11]));
     rf_item_names := ∅; rf_talent_names := ∅; rf_card_names := ∅ |}.

Definition ledger_row (status : string) (stages : list string) : IngestRow :=
  {| row_status := status; row_completed_stages := stages; row_source := None; row_attempts := 1;
     row_error_message := None; row_queue_id := Some 486; row_population := "ranked"; row_acquisition_state := "facts";
     detail_attempted_at := None; roster_resolved_at := None; demo_resolved_at := None; row_direct_player_count := 10;
     row_roster_player_count := 10; row_unresolved_player_ids := []; lease_owner := Some "worker"%string;
     lease_until := Some 2000; started_at := 0; updated_at := 0; completed_at := None |}.

Definition no_tables : RankedTables :=
  {| rt_lobby := ∅; rt_items := ∅; rt_map_claims := ∅; rt_map_items := ∅; rt_talents := ∅; rt_cards := ∅;
     rt_talent_cards := ∅; rt_skins := ∅; rt_bans := ∅; rt_champions := ∅; rt_compositions := ∅;
     rt_relationships := ∅; rt_opponents := ∅ |}.

Definition ranked_db (row : IngestRow) (t : RankedTables) : RankedDb :=
  {| rk_ledger := {[77 := row]}; rk_facts := facts; rk_tables := t; rk_performance_claims := ∅; rk_performance := [];
     rk_stats_claims := ∅; rk_scalable := [] |}.

Definition awaiting : RankedDb := ranked_db (ledger_row "processing" ["player_facts"; "match_bans"]) no_tables.

(** The match is complete, and unknown to the registry of the scalable
    statistics. *)
Definition forgotten : RankedDb :=
  ranked_db (ledger_row "complete" ["player_facts"; "match_bans"; "ranked_stats"; "performance_projections"]) no_tables.

(** Champion 1 has nearly as much damage as its column holds. *)
Definition nearly_full : RankedDb :=
  ranked_db (ledger_row "processing" ["player_facts"; "match_bans"])
    {| rt_lobby := ∅; rt_items := ∅; rt_map_claims := ∅; rt_map_items := ∅; rt_talents := ∅; rt_cards := ∅;
       rt_talent_cards := ∅; rt_skins := ∅; rt_bans := ∅;
       rt_champions := {[1 := ("1"%string, [21474; 21474; 0; 0; 0; 0; 2147400000])]}; rt_compositions := ∅;
       rt_relationships := ∅; rt_opponents := ∅ |}.

Lemma rated_outside : rating_outside rated.
Proof. by intros id s. Qed.

(** The match, projected twice. *)
Definition project77 (d : RankedDb) : RankedDb := fst (snd (project_match rated 77 (d, tt))).
Definition repaired (d : RankedDb) : RankedDb := fst (snd (repair_ranked_projection_gaps 50 (d, tt))).
Definition once : RankedDb := project77 awaiting.
Definition twice : RankedDb := project77 once.

Lemma project77_run d : rtc ranked_step d (project77 d).
Proof. exact (steps_project rated 77 rated_outside (d, tt)). Qed.

Lemma projected_twice : rtc ranked_step awaiting twice.
Proof. etransitivity; [exact (project77_run awaiting)|exact (project77_run once)]. Qed.

Example projected_once :
  fst (project_match rated 77 (awaiting, tt)) = Ok Projected /\ fst (project_match rated 77 (once, tt)) = Ok AlreadyProjected /\
  rt_champions (rk_tables twice) !! 1 = Some ("1"%string, [1; 1; 0; 3; 2; 1; 100000; 9000; 0; 0; 12; 1]) /\
  rt_compositions (rk_tables twice) !! ("0-5-0-0"%string, 12) = Some ((0, 5, 0, 0), [2; 1; 1]) /\ rk_scalable twice = [77].
Proof. vm_compute. done. Qed.

Lemma ranked_operations_step_witness :
  rating_outside rated /\ rtc ranked_step awaiting once /\ rtc ranked_step forgotten (repaired forgotten).
Proof.
  split; [exact rated_outside|].
  assert (forall d, rtc ranked_step d (project77 d) /\ rtc ranked_step d (repaired d)) as H.
  { intros d. destruct (ranked_operations_step rated rated_outside (d, tt)) as (Hp & _ & _ & _ & Hr).
    split; [exact (Hp 77)|exact (Hr 50)]. }
  split; [exact (proj1 (H awaiting))|exact (proj2 (H forgotten))].
Defined.

Lemma only_77 id : ranked_mark twice id -> id = 77.
Proof.
  assert (dom (rk_ledger twice) = {[77]}) as E by (vm_compute; reflexivity). revert E.
  unfold ranked_mark, has_stage_in, stages_of. generalize (rk_ledger twice). intros l E. destruct (l !! id) as [r|] eqn:El.
  - intros _. apply elem_of_dom_2 in El. rewrite E in El. clear E. set_solver.
  - by intros ?%bool_decide_eq_true%elem_of_nil.
Qed.

(** A rebuild that finds nothing in the stored matches. *)
Definition emptied (d : RankedDb) : RankedDb :=
  {| rk_ledger := rk_ledger d; rk_facts := rk_facts d;
     rk_tables := {| rt_lobby := rt_lobby (rk_tables d); rt_items := ∅; rt_map_claims := rt_map_claims (rk_tables d);
       rt_map_items := rt_map_items (rk_tables d); rt_talents := ∅; rt_cards := ∅;
       rt_talent_cards := rt_talent_cards (rk_tables d); rt_skins := rt_skins (rk_tables d); rt_bans := ∅;
       rt_champions := rt_champions (rk_tables d); rt_compositions := ∅;
       rt_relationships := rt_relationships (rk_tables d); rt_opponents := rt_opponents (rk_tables d) |};
     rk_performance_claims := rk_performance_claims d; rk_performance := rk_performance d;
     rk_stats_claims := rk_stats_claims d; rk_scalable := rk_scalable d |}.

Lemma run_of_steps rebuilds d d' : rtc ranked_step d d' -> rtc (backend_ranked rebuilds) d d'.
Proof. induction 1 as [|? ? ? Hs]; [done|]. eapply rtc_l; [by apply backend_ranked_step|done]. Qed.

Lemma emptied_rebuilt d : rebuilt d (emptied d).
Proof. by split. Qed.

Lemma emptied_ledger d : rk_ledger (emptied d) = rk_ledger d.
Proof. done. Qed.

Lemma rebuilt_run : rtc (backend_ranked true) awaiting (emptied twice).
Proof.
  eapply rtc_r; [exact (run_of_steps true _ _ projected_twice)|]. exact (backend_rebuild true _ _ eq_refl (emptied_rebuilt twice)).
Qed.

Lemma log_of_77 (log : list (RankedFacts * Z)) d :
  rk_ledger d = rk_ledger twice -> NoDup (map snd log) ->
  (forall id, id ∈ map snd log <-> ranked_mark d id /\ ~ ranked_mark awaiting id) -> map snd log = [77].
Proof.
  intros Hl Hnd Hin.
  assert (forall id, id ∈ map snd log -> id = 77) as H77.
  { intros id (Hm & _)%Hin. apply only_77. unfold ranked_mark in *. by rewrite <- Hl. }
  assert (77 ∈ map snd log) as Hi.
  { apply Hin. split; [unfold ranked_mark; rewrite Hl; vm_compute; reflexivity|by vm_compute]. }
  clear Hl Hin. destruct (map snd log) as [|i [|j l]]; [by apply elem_of_nil in Hi| |].
  - f_equal. apply H77. by left.
  - exfalso. apply NoDup_cons in Hnd as [Hnd _]. apply Hnd. rewrite (H77 i) by by left. rewrite (H77 j) by (right; by left). by left.
Qed.

Lemma ranked_counted_once_witness :
  (exists log, map snd log = [77] /\ replay write_stage log (rk_tables awaiting) = Ok (rk_tables twice)
    /\ rebuilt_add log (rk_tables awaiting) (rk_tables twice))
  /\ (exists log, map snd log = [77] /\ kept_add log (rk_tables awaiting) (rk_tables (emptied twice)))
  /\ rt_items (rk_tables (emptied twice)) <> rt_items (rk_tables twice).
Proof.
  split_and!.
  - destruct (ranked_counted_once false awaiting twice (run_of_steps false _ _ projected_twice)) as (log & Hnd & Hin & _ & Ha).
    exists log. split; [exact (log_of_77 log twice eq_refl Hnd Hin)|exact (Ha eq_refl)].
  - destruct (ranked_counted_once true awaiting (emptied twice) rebuilt_run) as (log & Hnd & Hin & Ha & _).
    exists log. split; [exact (log_of_77 log (emptied twice) (emptied_ledger twice) Hnd Hin)|exact Ha].
  - vm_compute. discriminate.
Defined.

Lemma batches_counted_once_witness :
  performance_claim twice 77 /\ exists log, replay write_batch log (rk_performance awaiting) = Ok (rk_performance twice) /\
  77 ∈ mbind snd log.
Proof.
  assert (performance_claim twice 77) as H by (exact (bool_decide_unpack (77 ∈ rk_performance_claims twice) ltac:(vm_compute; exact I))).
  split; [exact H|]. destruct (batches_counted_once awaiting twice projected_twice) as [(log & _ & Hr & Hin) _].
  exists log. split; [exact Hr|]. apply Hin. split; [exact H|by vm_compute].
Defined.

(** Match 77 is a gap, and its row is found; the repair answers zero. *)
Example gap_not_repaired :
  gap_rows 50 forgotten = [Object [("match_id", Str "77")]] /\
  repair_ranked_projection_gaps 50 (forgotten, tt) = (Ok 0, (forgotten, tt)).
Proof. vm_compute. done. Qed.

Lemma project_match_finishes_witness :
  exists s', project_match rated 77 (awaiting, tt) = (Ok Projected, s') /\ finished 77 (fst s').
Proof.
  exists (snd (project_match rated 77 (awaiting, tt))).
  assert (project_match rated 77 (awaiting, tt) = (Ok Projected, snd (project_match rated 77 (awaiting, tt)))) as E
    by (vm_compute; reflexivity).
  split; [exact E|]. exact (project_match_finishes rated 77 (awaiting, tt) Projected _ E).
Defined.

Lemma overflow_blocks_match_witness :
  overflowing nearly_full 77 /\ is_ok (fst (project_match rated 77 (nearly_full, tt))) = false.
Proof.
  assert (overflowing nearly_full 77) as Hover.
  { exists (1, ("1"%string, [1; 1; 0; 3; 2; 1; 100000; 9000; 0; 0; 12; 1])).
    split; [vm_compute; left|vm_compute; reflexivity]. }
  split; [exact Hover|].
  destruct (project_match rated 77 (nearly_full, tt)) as [r s'] eqn:E.
  exact (proj1 (overflow_blocks_match rated 77 (nearly_full, tt) r s' rated_outside (fun _ _ => eq_refl) Hover
    ltac:(by vm_compute) E)).
Defined.
