(* ===== verification/F64.v ===== *)
(** * The 64-bit floats of the relay

    An [f64] is a binary64 of the Standard Library's [SpecFloat], whose
    operations round as IEEE 754 asks; here are the conversions, the rounding
    to integers, the parser and the printer of Rust's [core]. *)

From Stdlib Require Import SpecFloat.
From S2P Require Import Prelude.

Definition f64 : Set := spec_float.

Definition f64_prec : Z := 53.
Definition f64_emax : Z := 1024.

(** [z as f64]. *)
Definition f64_of_Z (z : Z) : f64 := binary_normalize f64_prec f64_emax z 0 false.

Definition fadd : f64 -> f64 -> f64 := SFadd f64_prec f64_emax.
Definition fsub : f64 -> f64 -> f64 := SFsub f64_prec f64_emax.
Definition fmul : f64 -> f64 -> f64 := SFmul f64_prec f64_emax.
Definition fdiv : f64 -> f64 -> f64 := SFdiv f64_prec f64_emax.

(** Comparisons: false as soon as one side is not a number. *)
Definition flt : f64 -> f64 -> bool := SFltb.
Definition fle : f64 -> f64 -> bool := SFleb.
Definition feq : f64 -> f64 -> bool := SFeqb.

Definition fzero : f64 := S754_zero false.

Definition is_finite (x : f64) : bool :=
  match x with S754_zero _ | S754_finite _ _ _ => true | _ => false end.
Definition is_nan (x : f64) : bool := match x with S754_nan => true | _ => false end.

(** ** Integers *)

(** The sign, and the magnitude as a quotient. *)
Definition ratio (m : positive) (e : Z) : Z * Z :=
  if 0 <=? e then (Z.pos m * 2 ^ e, 1) else (Z.pos m, 2 ^ (- e)).

Definition with_sign (neg : bool) (z : Z) : Z := if neg then - z else z.

(** Towards zero, down, up, and to the nearest, halves away from zero; zero
    where the float is not finite. *)
Definition trunc_Z (x : f64) : Z :=
  match x with S754_finite s m e => let '(n, d) := ratio m e in with_sign s (n / d) | _ => 0 end.
Definition floor_Z (x : f64) : Z :=
  match x with S754_finite s m e => let '(n, d) := ratio m e in with_sign s n / d | _ => 0 end.
Definition ceil_Z (x : f64) : Z :=
  match x with S754_finite s m e => let '(n, d) := ratio m e in - (with_sign (negb s) n / d) | _ => 0 end.
Definition round_Z (x : f64) : Z :=
  match x with S754_finite s m e => let '(n, d) := ratio m e in with_sign s ((2 * n + d) / (2 * d)) | _ => 0 end.

(** A rounded float keeps its sign, a zero's included. *)
Definition integral (f : f64 -> Z) (x : f64) : f64 :=
  match x with
  | S754_finite s _ _ => if f x =? 0 then S754_zero s else f64_of_Z (f x)
  | _ => x
  end.

Definition ftrunc : f64 -> f64 := integral trunc_Z.
Definition ffloor : f64 -> f64 := integral floor_Z.
Definition fceil : f64 -> f64 := integral ceil_Z.
Definition fround : f64 -> f64 := integral round_Z.

Definition fract (x : f64) : f64 := fsub x (ftrunc x).

(** [x as i64] and the like: saturating, zero for what is not a number. *)
Definition as_int (lo hi : Z) (x : f64) : Z :=
  match x with
  | S754_nan => 0
  | S754_infinity s => if s then lo else hi
  | _ => Z.max lo (Z.min hi (trunc_Z x))
  end.

Definition f64_i64 : f64 -> Z := as_int i64_min i64_max.
Definition f64_u64 : f64 -> Z := as_int 0 u64_max.
Definition f64_i32 : f64 -> Z := as_int i32_min i32_max.

Definition fclamp (lo hi x : f64) : f64 := if flt x lo then lo else if flt hi x then hi else x.

(** ** [str::parse::<f64>] *)

(** The float nearest to [m * 10 ^ e]; the two first cases are beyond its
    range on either side. *)
Definition of_decimal (neg : bool) (m e : Z) : f64 :=
  match m with
  | Z.pos p =>
      if 310 <? e then S754_infinity neg
      else if e <? - (400 + Z.log2 m) then S754_zero neg
      else if 0 <=? e then binary_normalize f64_prec f64_emax (with_sign neg (m * 10 ^ e)) 0 neg
      else match 10 ^ (- e) with
           | Z.pos d => fdiv (S754_finite neg p 0) (S754_finite false d 0)
           | _ => S754_nan
           end
  | _ => S754_zero neg
  end.

(** The digits a text starts with: their value, their number, the rest. *)
Fixpoint take_digits (acc n : Z) (s : string) : Z * Z * string :=
  match s with
  | String c r => if is_digit c then take_digits (10 * acc + digit_value c) (n + 1) r else (acc, n, s)
  | EmptyString => (acc, n, s)
  end.

Definition split_sign (s : string) : bool * string :=
  match s with
  | String c r => if Ascii.eqb c "-" then (true, r) else if Ascii.eqb c "+" then (false, r) else (false, s)
  | EmptyString => (false, s)
  end.

(** [e], a sign, digits; nothing is the exponent zero. *)
Definition parse_exponent (s : string) : option Z :=
  match s with
  | EmptyString => Some 0
  | String c r =>
      if Ascii.eqb (ascii_lower c) "e" then
        let '(neg, r) := split_sign r in
        let '(e, n, rest) := take_digits 0 0 r in
        if (0 <? n) && is_empty rest then Some (with_sign neg e) else None
      else None
  end.

Definition parse_decimal (neg : bool) (s : string) : option f64 :=
  let '(m, n, r) := take_digits 0 0 s in
  let '(m, k, r) := match r with
                    | String c r' => if Ascii.eqb c "." then take_digits m 0 r' else (m, 0, r)
                    | EmptyString => (m, 0, r)
                    end in
  if 0 <? n + k then e ← parse_exponent r; Some (of_decimal neg m (e - k)) else None.

Definition parse_f64 (s : string) : option f64 :=
  let '(neg, r) := split_sign s in
  let word := to_ascii_lowercase r in
  if String.eqb word "inf" || String.eqb word "infinity" then Some (S754_infinity neg)
  else if String.eqb word "nan" then Some S754_nan
  else parse_decimal neg r.

(** ** [f64::to_string]: the shortest digits that read back *)

(** [floor (log10 (n / d))], corrected from an estimate by its logarithms. *)
Definition log10_ratio (n d : Z) : Z :=
  let fits p := if 0 <=? p then d * 10 ^ p <=? n else d <=? n * 10 ^ (- p) in
  let p := (Z.log2 n - Z.log2 d) * 30103 / 100000 in
  if fits (p + 1) then p + 1 else if fits p then p else if fits (p - 1) then p - 1 else p - 2.

(** [n / d / 10 ^ k] as a ratio. *)
Definition scaled (n d k : Z) : Z * Z := if 0 <=? k then (n, d * 10 ^ k) else (n * 10 ^ (- k), d).

Definition reads_as (x : f64) (m k : Z) : bool := feq (of_decimal false m k) x.

(** The digits and their exponent, with [i] more digits to try: of the two
    neighbours that read back, the nearer one, the even one of equals. *)
Fixpoint shortest (i : nat) (x : f64) (n d p digits : Z) : Z * Z :=
  let k := p - digits + 1 in
  let '(num, den) := scaled n d k in
  let lo := num / den in
  let twice := 2 * (num mod den) in
  let up := (den <? twice) || ((den =? twice) && Z.odd lo) in
  let lo_reads := reads_as x lo k in
  let hi_reads := reads_as x (lo + 1) k in
  match i with
  | O => (lo, k)
  | S i =>
      if lo_reads && (negb hi_reads || negb up) then (lo, k)
      else if hi_reads then (lo + 1, k)
      else shortest i x n d p (digits + 1)
  end.

Fixpoint zeros (n : nat) : string := match n with O => EmptyString | S n => String "0" (zeros n) end.

(** Positional, without an exponent. *)
Definition positional (m k : Z) : string :=
  let ds := pretty m in
  if 0 <=? k then ds +:+ zeros (Z.to_nat k)
  else
    let n := Z.of_nat (String.length ds) in
    if n + k <=? 0 then "0." +:+ zeros (Z.to_nat (- (n + k))) +:+ ds
    else String.substring 0 (Z.to_nat (n + k)) ds +:+ "." +:+ String.substring (Z.to_nat (n + k)) (Z.to_nat (- k)) ds.

(** Without the zeros its digits end in. *)
Fixpoint strip_zeros (fuel : nat) (m k : Z) : Z * Z :=
  match fuel with
  | S fuel => if (m mod 10 =? 0) && (0 <? m) then strip_zeros fuel (m / 10) (k + 1) else (m, k)
  | O => (m, k)
  end.

Definition f64_display (x : f64) : string :=
  match x with
  | S754_nan => "NaN"
  | S754_infinity s => if s then "-inf" else "inf"
  | S754_zero s => if s then "-0" else "0"
  | S754_finite s m e =>
      let '(n, d) := ratio m e in
      let '(m, k) := shortest 17 (S754_finite false m e) n d (log10_ratio n d) 1 in
      let '(m, k) := strip_zeros 20 m k in
      (if s then "-" else "") +:+ positional m k
  end.

(** [format!("{x:.0}")] of an integral float. *)
Definition f64_display_integral (x : f64) : string :=
  match x with
  | S754_zero s => if s then "-0" else "0"
  | _ => pretty (trunc_Z x)
  end.

(** ** At work *)

Example parse_tenth : parse_f64 "0.1" = Some (S754_finite false 7205759403792794 (-56)).
Proof. vm_compute. reflexivity. Qed.
Example print_sum : f64_display <$> (x ← parse_f64 "0.1"; y ← parse_f64 "0.2"; Some (fadd x y)) = Some "0.30000000000000004"%string.
Proof. vm_compute. reflexivity. Qed.
Example print_some :
  map (fun s => f64_display <$> parse_f64 s) ["1e23"; "-1.5E-7"; "9007199254740993"; "5e-324"; "1.7976931348623157e308"; ".5"; "1."; "1e400"; "nAn"]%string
  = [Some "100000000000000000000000"; Some "-0.00000015"; Some "9007199254740992"; Some ("0." +:+ zeros 323 +:+ "5");
     Some ("17976931348623157" +:+ zeros 292); Some "0.5"; Some "1"; Some "inf"; Some "NaN"]%string.
Proof. vm_compute. reflexivity. Qed.
Example parse_none : map parse_f64 [""; "+"; "."; "e5"; "1e"; "1x"; "0x10"; " 1"]%string = replicate 8 None.
Proof. vm_compute. reflexivity. Qed.
