(* ===== verification/JsValue.v ===== *)
(** * JSON values read as JavaScript reads them
      (src/hirez-relay-rust/src: normalizer.rs, operations.rs, contract.rs,
      real_dispatch.rs)

    The provider's rows mix numbers, numeric texts, empty texts and nulls;
    these are the coercions the relay applies to them. *)

From Stdlib Require Import SpecFloat.
From S2P Require Import Prelude Json F64.

(** The text [serde_json] gives a float. *)
Class FloatText := f64_text : f64 -> string.

(** [Number::as_f64]. *)
Definition number_f64 (n : number) : option f64 :=
  match n with NInt z => Some (f64_of_Z z) | NFloat repr => parse_f64 repr end.

Definition js_truthy (v : value) : bool :=
  match v with
  | Null => false
  | Bool b => b
  | Number n => match number_f64 n with Some x => negb (feq x fzero) && negb (is_nan x) | None => false end
  | Str s => negb (is_empty s)
  | Array _ | Object _ => true
  end.

(** The normalizer's: a text that is not a number is none. *)
Definition js_number (v : value) : option f64 :=
  match v with
  | Number n => number_f64 n
  | Str s => parse_f64 (trim s)
  | Bool b => Some (f64_of_Z (if b then 1 else 0))
  | Null => Some fzero
  | _ => None
  end.

(** The contract's: an empty text is zero, an array of one its element, and
    what is not finite is none. *)
Fixpoint js_coerced (v : value) : option f64 :=
  let finite x := if is_finite x then Some x else None in
  match v with
  | Null => Some fzero
  | Bool b => Some (f64_of_Z (if b then 1 else 0))
  | Number n => number_f64 n ≫= finite
  | Str s => if is_empty (trim s) then Some fzero else parse_f64 (trim s) ≫= finite
  | Array [] => Some fzero
  | Array [x] => js_coerced x
  | _ => None
  end.

Definition js_number_arg (v : option value) : option f64 := v ≫= js_coerced.

Definition join (sep : string) (l : list string) : string := String.concat sep l.

Fixpoint js_string (v : value) : string :=
  match v with
  | Null => "null"
  | Bool b => if b then "true" else "false"
  | Number n => number_to_string n
  | Str s => s
  | Array l => join "," (map js_string l)
  | Object _ => "[object Object]"
  end.

(** Back to a JSON number: an integer where it is one. *)
Definition number_value `{FloatText} (x : f64) : value :=
  if feq (fract x) fzero && fle (f64_of_Z i64_min) x && fle x (f64_of_Z i64_max) then Number (NInt (f64_i64 x))
  else if is_finite x then Number (NFloat (f64_text x)) else Null.

(** ** The first of several keys *)

Definition first_truthy (raw : value) (keys : list string) : option value :=
  find_first js_truthy (omap (fun k => get k raw) keys).

Definition first_f64 (raw : value) (keys : list string) : option f64 := first_truthy raw keys ≫= js_number.

Definition first_number `{FloatText} (raw : value) (keys : list string) : option value :=
  number_value <$> first_f64 raw keys.

Definition first_u64 (raw : value) (keys : list string) : option Z :=
  x ← first_f64 raw keys; if is_finite x && fle fzero x then Some (f64_u64 x) else None.

Definition first_number_i64 (raw : value) (keys : list string) : option Z :=
  x ← first_f64 raw keys; if is_finite x then Some (f64_i64 x) else None.

Definition first_number_i32 (raw : value) (keys : list string) : option Z :=
  first_number_i64 raw keys ≫= in_range i32_min i32_max.

(** Present, null or not, and then a number. *)
Definition number_from_present (raw : value) (keys : list string) : option f64 :=
  v ← find_map (fun k => get k raw) keys; if is_null v then None else js_number v.

(** ** What the JSON columns accept *)

Definition nul : ascii := ascii_of_nat 0.

Definition sanitize_text (s : string) : string := replace_all "\u0000" "" (replace_all (String nul "") "" s).

(** The keys are left as they are. *)
Fixpoint sanitize_json (v : value) : value :=
  match v with
  | Str s => Str (sanitize_text s)
  | Array l => Array (map sanitize_json l)
  | Object m => Object (map (fun e => (fst e, sanitize_json (snd e))) m)
  | _ => v
  end.

(** PostgreSQL takes no NUL in a JSON document, keys included. *)
Fixpoint free_of_nul (s : string) : bool :=
  match s with String c r => negb (Ascii.eqb c nul) && free_of_nul r | EmptyString => true end.

Fixpoint json_storable (v : value) : bool :=
  match v with
  | Str s => free_of_nul s
  | Array l => forallb json_storable l
  | Object m => forallb (fun e => free_of_nul (fst e) && json_storable (snd e)) m
  | _ => true
  end.

(** The names of the members, at every depth. *)
Fixpoint keys_free (v : value) : bool :=
  match v with
  | Array l => forallb keys_free l
  | Object m => forallb (fun e => free_of_nul (fst e) && keys_free (snd e)) m
  | _ => true
  end.

(** ** Finite coercions *)

Lemma js_coerced_finite v x : js_coerced v = Some x -> is_finite x = true.
Proof.
  revert v x. fix IH 1. intros [| b | n | s | [|y [|z l]] | m] x; simpl; try done.
  - by intros [= <-].
  - destruct b; by intros [= <-].
  - intros (y & _ & H)%bind_Some. destruct (is_finite y) eqn:E; congruence.
  - destruct (is_empty (trim s)); [by intros [= <-]|]. intros (y & _ & H)%bind_Some. destruct (is_finite y) eqn:E; congruence.
  - by intros [= <-].
  - apply IH.
Qed.

(** ** What is left of a text is storable *)

Lemma replace_keeps_free needle skip s : free_of_nul s = true -> free_of_nul (replace_from skip needle "" s) = true.
Proof.
  revert skip. induction s as [|c s IH]; intros skip Hs; [done|]. apply andb_true_iff in Hs as [Hc Hs]. cbn [replace_from].
  destruct skip as [|skip]; [|by apply IH]. case_match; [by apply IH|]. cbn [free_of_nul]. by rewrite Hc, IH.
Qed.

Lemma remove_nul_free s : free_of_nul (replace_all (String nul "") "" s) = true.
Proof.
  unfold replace_all. induction s as [|c s IH]; [done|]. cbn [replace_from String.prefix].
  destruct (ascii_dec nul c) as [<-|Hc]; [by destruct s|].
  cbn [free_of_nul]. rewrite IH, andb_true_r. apply negb_true_iff, Ascii.eqb_neq. congruence.
Qed.

Lemma sanitize_text_free s : free_of_nul (sanitize_text s) = true.
Proof. apply replace_keeps_free, remove_nul_free. Qed.

(** The values are cleaned, the names are not. *)
Lemma sanitize_json_storable v : json_storable (sanitize_json v) = keys_free v.
Proof.
  revert v. fix IH 1. intros [| | |s|l|m]; try reflexivity.
  - apply sanitize_text_free.
  - simpl. induction l as [|x l IHl]; simpl; [done|]. by rewrite IH, IHl.
  - simpl. induction m as [|[k x] m IHm]; simpl; [done|]. by rewrite IH, IHm.
Qed.
