(* ===== verification/Normalizer.v ===== *)
(** * From the provider's rows to the relay's
      (src/hirez-relay-rust/src/normalizer.rs)

    Match details, histories and profiles, whose keys and types vary with the
    endpoint, are brought into one shape.  The timestamps of the profiles are
    read by a library, as is the text of a float written. *)

From Stdlib Require Import SpecFloat.
From S2P Require Import Prelude Json F64 JsValue Model.

Definition normalize_region (raw : string) : string :=
  if bool_decide (raw ∈ ["NA"; "EU"; "BR"; "OCE"; "SEA"; "JPN"; "RUS"; "SA"]) then raw
  else default "Unknown" (snd <$> find_first (fun e => String.eqb (fst e) raw)
         [("North America", "NA"); ("Europe", "EU"); ("Brazil", "BR"); ("Australia", "OCE");
          ("Southeast Asia", "SEA"); ("Japan", "JPN"); ("Russia", "RUS")])%string.

Definition zero : value := Number (NInt 0).
Definition empty_string : value := Str EmptyString.
Definition blank_text (v : value) : bool := match as_str v with Some s => is_empty s | None => false end.

Section normalizer.
Context `{FloatText}.

(** ** Columns *)

Definition raw_field (raw : value) (name : string) (keys : list string) (d : value) : string * value :=
  (name, default d (first_truthy raw keys)).
Definition number_field (raw : value) (name : string) (keys : list string) : string * value :=
  (name, default zero (first_number raw keys)).

Definition columns (l : list (string * value)) : value :=
  Object (foldl (fun m e => insert_field (fst e) (snd e) m) [] l).

(** The first key that holds something, as a nullable number. *)
Fixpoint nullable_number (raw : value) (keys : list string) : value :=
  match keys with
  | [] => Null
  | k :: keys =>
      match get k raw with
      | Some v =>
          if is_null v || blank_text v then nullable_number raw keys
          else match js_number v with
               | Some x => if is_finite x then number_value x else nullable_number raw keys
               | None => nullable_number raw keys
               end
      | None => nullable_number raw keys
      end
  end.

Fixpoint row_nullable_number (raw : value) (keys : list string) : value :=
  match keys with
  | [] => Null
  | k :: keys =>
      match get k raw with
      | Some v => if is_null v || blank_text v then row_nullable_number raw keys
                  else match js_number v with Some x => number_value x | None => Null end
      | None => row_nullable_number raw keys
      end
  end.

(** A null ends the search. *)
Fixpoint match_number (raw : value) (keys : list string) : option Z :=
  match keys with
  | [] => None
  | k :: keys =>
      match get k raw with
      | Some v =>
          if is_null v then None
          else if blank_text v then match_number raw keys
          else x ← js_number v; if is_finite x then Some (f64_i32 x) else None
      | None => match_number raw keys
      end
  end.

Definition round_to_2 (x : f64) : f64 :=
  if negb (is_finite x) || feq x fzero then fzero
  else
    let hundred := f64_of_Z 100 in
    let scaled := fmul x hundred in
    fdiv (if flt x (f64_of_Z 1) then fceil scaled else fround scaled) hundred.

Definition js_round (x : f64) : Z := f64_i64 (ffloor (fadd x (fdiv (f64_of_Z 1) (f64_of_Z 2)))).

Definition indices (n : nat) : list Z := map Z.of_nat (seq 1 n).

Definition normalize_direct_merged_players (raw : option value) : value :=
  match raw ≫= as_array with
  | None => Null
  | Some values => Array (map (fun v => Object [
      ("player_id", Number (NInt (default 0 (first_u64 v ["playerId"]))));
      ("portal_id", match first_u64 v ["portalId"] with
                    | Some p => if (0 <? p)%Z then Number (NInt p) else Null
                    | None => Null
                    end);
      ("merge_datetime", Str (default EmptyString (js_string <$> first_truthy v ["merge_datetime"])))]%string) values)
  end.

(** ** A row of the match details *)

Definition direct_source (raw : value) : string :=
  match first_truthy raw ["source"] with
  | Some v =>
      let s := to_ascii_lowercase (js_string v) in
      if bool_decide (s ∈ ["direct"; "recovered"; "minimal"]%string) then s else "direct"
  | None => "direct"
  end.

Definition gold_per_minute (raw : value) : value :=
  let time_in_match := default fzero (first_f64 raw ["Time_In_Match_Seconds"; "Time_In_Match"; "time_in_match"]) in
  let gold := default fzero (first_f64 raw ["Gold_Earned"; "gold_earned"]) in
  number_value (if flt fzero time_in_match
                then round_to_2 (fdiv gold (fdiv time_in_match (f64_of_Z 60))) else fzero).

Definition row_region (raw : value) : value :=
  Str (normalize_region (default EmptyString (js_string <$> first_truthy raw ["Region"; "region"]))).

Definition has_ret_msg (raw : value) : bool :=
  match get "ret_msg" raw with
  | Some v => negb (is_null v) && negb (is_empty (trim (js_string v)))
  | None => false
  end.

Definition active_columns (raw : value) (i : Z) : list (string * value) :=
  let id := "active_id_" +:+ pretty i in
  let level := "active_level_" +:+ pretty i in
  let name := "item_active_" +:+ pretty i in
  [raw_field raw id ["ActiveId" +:+ pretty i; id] zero; raw_field raw level ["ActiveLevel" +:+ pretty i; level] zero;
   raw_field raw name ["Item_Active_" +:+ pretty i; name] empty_string].

Definition item_columns (raw : value) (i : Z) : list (string * value) :=
  map (fun e : string * string * value =>
    let '(prefix, direct_prefix, d) := e in
    raw_field raw (prefix +:+ pretty i) [direct_prefix +:+ pretty i; prefix +:+ pretty i] d)
    [("item_id_", "ItemId", zero); ("item_level_", "ItemLevel", zero); ("item_purch_", "Item_Purch_", empty_string)]%string.

Definition ban_column (raw : value) (i : Z) : string * value :=
  let normalized := "ban_id_" +:+ pretty i in number_field raw normalized ["BanId" +:+ pretty i; normalized].

Definition direct_columns (raw : value) : list (string * value) :=
  let f := raw_field raw in
  let n := number_field raw in
  [n "player_id" ["playerId"; "PlayerId"; "player_id"];
   f "player_name" ["playerName"; "Player_Name"; "player_name"] (Str "PRIVATEACCOUNT");
   f "match_id" ["Match"; "match_id"] zero;
   f "entry_datetime" ["Entry_Datetime"; "entry_datetime"] empty_string;
   f "queue_id" ["match_queue_id"; "Match_Queue_Id"] zero;
   ("region", row_region raw);
   f "champion_id" ["ChampionId"; "champion_id"] zero;
   f "champion_name" ["Champion"; "ChampionName"; "champion_name"] empty_string;
   f "skin_id" ["SkinId"; "skin_id"] zero;
   f "skin_name" ["Skin"; "skin_name"] empty_string;
   f "kills" ["Kills_Player"; "kills"] zero;
   f "deaths" ["Deaths"; "deaths"] zero;
   f "assists" ["Assists"; "assists"] zero;
   f "damage_done_in_hand" ["Damage_Done_In_Hand"; "damage_done_in_hand"] zero;
   f "damage_done_physical" ["Damage_Player"; "damage_done_physical"; "Damage_Done_Physical"] zero;
   f "damage_done_magical" ["Damage_Done_Magical"; "damage_done_magical"] zero;
   f "damage_taken" ["Damage_Taken"; "damage_taken"] zero;
   f "damage_mitigated" ["Damage_Mitigated"; "damage_mitigated"] zero;
   f "healing" ["Healing"; "healing"] zero;
   f "healing_self" ["Healing_Player_Self"; "healing_self"] zero;
   f "gold_earned" ["Gold_Earned"; "gold_earned"] zero;
   ("gold_per_minute", gold_per_minute raw);
   f "objective_assists" ["Objective_Assists"; "objective_assists"] zero;
   f "killing_spree" ["Killing_Spree"; "killing_spree"] zero;
   f "multi_kill_max" ["Multi_kill_Max"; "multi_kill_max"] zero;
   f "win_status" ["Win_Status"; "win_status"] empty_string;
   f "task_force" ["TaskForce"; "task_force"] zero;
   n "league_tier" ["League_Tier"; "league_tier"];
   n "league_points" ["League_Points"; "league_points"];
   n "account_level" ["Account_Level"; "account_level"];
   n "mastery_level" ["Mastery_Level"; "mastery_level"];
   n "party_id" ["PartyId"; "party_id"];
   f "time_in_match" ["Time_In_Match_Seconds"; "time_in_match"] zero;
   f "distance_traveled" ["Distance_Traveled"; "distance_traveled"] zero;
   f "structure_damage" ["Structure_Damage"; "structure_damage"] zero;
   f "camps_cleared" ["Camps_Cleared"; "camps_cleared"] zero;
   ("source", Str (direct_source raw));
   n "portal_id" ["playerPortalId"];
   f "portal_user_id" ["playerPortalUserId"] empty_string;
   f "kills_player" ["Kills_Player"; "kills_player"] zero;
   f "healing_player_self" ["Healing_Player_Self"; "healing_player_self"] zero;
   f "damage_taken_physical" ["Damage_Taken_Physical"; "damage_taken_physical"] zero;
   f "damage_taken_magical" ["Damage_Taken_Magical"; "damage_taken_magical"] zero;
   n "kills_fire_giant" ["Kills_Fire_Giant"; "kills_fire_giant"];
   n "kills_gold_fury" ["Kills_Gold_Fury"; "kills_gold_fury"];
   n "kills_phoenix" ["Kills_Phoenix"; "kills_phoenix"];
   n "kills_siege_jugg" ["Kills_Siege_Juggernaut"; "kills_siege_jugg"];
   n "kills_wild_jugg" ["Kills_Wild_Juggernaut"; "kills_wild_jugg"];
   n "kills_bot" ["Kills_Bot"; "kills_bot"];
   n "kills_single" ["Kills_Single"; "kills_single"];
   n "kills_double" ["Kills_Double"; "kills_double"];
   n "kills_triple" ["Kills_Triple"; "kills_triple"];
   n "kills_quadra" ["Kills_Quadra"; "kills_quadra"];
   n "kills_penta" ["Kills_Penta"; "kills_penta"];
   n "kills_first_blood" ["Kills_First_Blood"; "kills_first_blood"];
   n "towers_destroyed" ["Towers_Destroyed"; "towers_destroyed"];
   n "league_wins" ["League_Wins"; "league_wins"];
   n "league_losses" ["League_Losses"; "league_losses"];
   f "wards_placed" ["Wards_Placed"; "wards_placed"] zero;
   f "healing_bot" ["Healing_Bot"; "healing_bot"] zero;
   f "damage_bot" ["Damage_Bot"; "damage_bot"] zero;
   f "platform" ["Platform"; "platform"] empty_string;
   f "surrendered" ["Surrendered"; "surrendered"] zero;
   n "team_id" ["TeamId"; "team_id"];
   f "team_name" ["Team_Name"; "team_name"] empty_string;
   n "rank_stat_league" ["Rank_Stat_League"; "rank_stat_league"];
   n "final_match_level" ["Final_Match_Level"; "final_match_level"];
   n "match_duration" ["Match_Duration"; "match_duration"]]%string
  ++ mbind (active_columns raw) (indices 4) ++ mbind (item_columns raw) (indices 6) ++ map (ban_column raw) (indices 8)
  ++ [("merged_players", normalize_direct_merged_players (get "MergedPlayers" raw));
      ("has_ret_msg", Bool (has_ret_msg raw))]%string.

Definition normalize_match_player (raw : value) : value := columns (direct_columns raw).

(** ** A row of a player's history *)

Definition history_region (raw : value) : value :=
  Str (normalize_region (default EmptyString (first_truthy raw ["Region"; "region"] ≫= as_str))).

Definition history_win_status (raw : value) : value :=
  Str (match first_truthy raw ["Win_Status"] ≫= as_str with
       | Some s => if String.eqb s "Win" then "Winner" else if String.eqb s "Loss" then "Loser" else s
       | None => EmptyString
       end).

Definition history_active_columns (raw : value) (i : Z) : list (string * value) :=
  let level := fdiv (default fzero (first_f64 raw ["ActiveLevel" +:+ pretty i])) (f64_of_Z 4) in
  [raw_field raw ("active_id_" +:+ pretty i) ["ActiveId" +:+ pretty i] zero;
   ("active_level_" +:+ pretty i, Number (NInt (js_round level)));
   raw_field raw ("item_active_" +:+ pretty i) ["Active_" +:+ pretty i] empty_string].

Definition history_item_columns (raw : value) (i : Z) : list (string * value) :=
  [raw_field raw ("item_id_" +:+ pretty i) ["ItemId" +:+ pretty i] zero;
   raw_field raw ("item_level_" +:+ pretty i) ["ItemLevel" +:+ pretty i] zero;
   raw_field raw ("item_purch_" +:+ pretty i) ["Item_" +:+ pretty i] empty_string].

Definition history_columns (raw : value) : list (string * value) :=
  let f := raw_field raw in
  let n := number_field raw in
  [n "player_id" ["playerId"; "player_id"];
   f "player_name" ["playerName"; "player_name"] (Str "PRIVATEACCOUNT");
   f "match_id" ["Match"; "match_id"] zero;
   f "entry_datetime" ["Match_Time"; "entry_datetime"] empty_string;
   f "queue_id" ["Match_Queue_Id"; "match_queue_id"] zero;
   ("region", history_region raw);
   f "champion_id" ["ChampionId"] zero;
   f "champion_name" ["Champion"; "ChampionName"; "champion_name"] empty_string;
   f "skin_id" ["SkinId"] zero;
   f "skin_name" ["Skin"] empty_string;
   f "kills" ["Kills"] zero;
   f "deaths" ["Deaths"] zero;
   f "assists" ["Assists"] zero;
   f "damage_done_in_hand" ["Damage_Done_In_Hand"] zero;
   f "damage_done_physical" ["Damage"; "damage_done_physical"; "Damage_Player"; "Damage_Done_Physical"] zero;
   f "damage_done_magical" ["Damage_Done_Magical"] zero;
   f "damage_taken" ["Damage_Taken"] zero;
   f "damage_mitigated" ["Damage_Mitigated"] zero;
   f "healing" ["Healing"] zero;
   f "healing_self" ["Healing_Player_Self"] zero;
   f "gold_earned" ["Gold"] zero;
   ("gold_per_minute", zero);
   f "objective_assists" ["Objective_Assists"] zero;
   f "killing_spree" ["Killing_Spree"] zero;
   f "multi_kill_max" ["Multi_kill_Max"] zero;
   ("win_status", history_win_status raw);
   f "task_force" ["TaskForce"] zero;
   ("history_team1_score", nullable_number raw ["history_team1_score"; "Team1Score"; "Team1_Score"]);
   ("history_team2_score", nullable_number raw ["history_team2_score"; "Team2Score"; "Team2_Score"]);
   ("history_winning_task_force",
    nullable_number raw ["history_winning_task_force"; "Winning_TaskForce"; "Winning_Task_Force"]);
   n "league_tier" ["League_Tier"; "league_tier"];
   n "league_points" ["League_Points"; "league_points"];
   n "account_level" ["Account_Level"; "account_level"];
   n "mastery_level" ["Mastery_Level"; "mastery_level"];
   n "party_id" ["PartyId"; "party_id"];
   f "time_in_match" ["Time_In_Match_Seconds"] zero;
   f "distance_traveled" ["Distance_Traveled"] zero;
   f "structure_damage" ["Damage_Structure"; "Structure_Damage"] zero;
   f "camps_cleared" ["Creeps"] zero;
   ("source", Str "match_history");
   n "portal_id" ["playerPortalId"; "portal_id"];
   f "portal_user_id" ["playerPortalUserId"; "portal_user_id"] empty_string;
   f "kills_player" ["Kills"] zero;
   f "healing_player_self" ["Healing_Player_Self"] zero;
   f "damage_taken_physical" ["Damage_Taken_Physical"] zero;
   f "damage_taken_magical" ["Damage_Taken_Magical"] zero;
   n "kills_fire_giant" ["Kills_Fire_Giant"; "kills_fire_giant"];
   n "kills_gold_fury" ["Kills_Gold_Fury"; "kills_gold_fury"];
   n "kills_phoenix" ["Kills_Phoenix"; "kills_phoenix"];
   n "kills_siege_jugg" ["Kills_Siege_Juggernaut"; "kills_siege_jugg"];
   n "kills_wild_jugg" ["Kills_Wild_Juggernaut"; "kills_wild_jugg"];
   n "kills_bot" ["Kills_Bot"; "kills_bot"];
   n "kills_single" ["Kills_Single"; "kills_single"];
   n "kills_double" ["Kills_Double"; "kills_double"];
   n "kills_triple" ["Kills_Triple"; "kills_triple"];
   n "kills_quadra" ["Kills_Quadra"; "kills_quadra"];
   n "kills_penta" ["Kills_Penta"; "kills_penta"];
   n "kills_first_blood" ["Kills_First_Blood"; "kills_first_blood"];
   f "wards_placed" ["Wards_Placed"] zero;
   n "towers_destroyed" ["Towers_Destroyed"; "towers_destroyed"];
   n "league_wins" ["League_Wins"; "league_wins"];
   n "league_losses" ["League_Losses"; "league_losses"];
   f "healing_bot" ["Healing_Bot"] zero;
   f "damage_bot" ["Damage_Bot"] zero;
   f "platform" ["Platform"; "platform"] empty_string;
   f "surrendered" ["Surrendered"] zero;
   n "team_id" ["TeamId"; "team_id"];
   f "team_name" ["Team_Name"; "team_name"] empty_string;
   n "rank_stat_league" ["Rank_Stat_League"; "rank_stat_league"];
   n "final_match_level" ["Final_Match_Level"; "final_match_level"];
   n "match_duration" ["Match_Duration"; "match_duration"]]%string
  ++ mbind (history_active_columns raw) (indices 4) ++ mbind (history_item_columns raw) (indices 6)
  ++ map (ban_column raw) (indices 8)
  ++ [("merged_players", Null); ("has_ret_msg", Bool false)]%string.

Definition normalize_match_history_player (raw : value) : value := columns (history_columns raw).

(** ** The matches of a batch *)

Definition score_observation (row : value) : value :=
  Object [("team1", row_nullable_number row ["Team1Score"; "Team1_Score"; "team1_score"]);
          ("team2", row_nullable_number row ["Team2Score"; "Team2_Score"; "team2_score"]);
          ("winner", row_nullable_number row ["Winning_TaskForce"; "Winning_Task_Force"; "winning_task_force"])]%string.

Definition first_u32 (raw : value) (keys : list string) : Z :=
  default 0 (first_u64 raw keys ≫= in_range 0 u32_max).

Definition first_text (raw : value) (keys : list string) : string :=
  default EmptyString (js_string <$> first_truthy raw keys).

Definition nonempty_region (row : value) : option string :=
  r ← first_truthy row ["Region"; "region"]; if is_empty (js_string r) then None else Some (js_string r).

Definition normalize_match_details (rows : list value) : option MatchDetails :=
  match rows with
  | [] => None
  | first :: _ => Some {|
      match_id := default 0 (first_u64 first ["Match"; "match_id"]);
      entry_datetime := first_text first ["Entry_Datetime"; "entry_datetime"; "Match_Time"; "match_time"];
      map_name := first_text first ["Map_Game"; "map"];
      queue_id := first_u32 first ["match_queue_id"; "Match_Queue_Id"; "queue_id"; "Queue"];
      duration_seconds := first_u32 first ["Match_Duration"; "duration_seconds"];
      minutes := first_u32 first ["Minutes"; "minutes"];
      region := normalize_region (default EmptyString (find_map nonempty_region rows));
      team1_score := match_number first ["Team1Score"; "Team1_Score"; "team1_score"];
      team2_score := match_number first ["Team2Score"; "Team2_Score"; "team2_score"];
      winning_task_force := match_number first ["Winning_TaskForce"; "Winning_Task_Force"; "winning_task_force"];
      direct_score_observations := Some (map score_observation rows);
      has_replay := Some (match first_truthy first ["hasReplay"; "Has_Replay"] with
                          | Some v => eq_ignore_ascii_case (js_string v) "y"
                          | None => false
                          end);
      recovery_source := None; recovery_api_calls := None; recovery_attempted := None; recovery_terminal := None;
      recovery_pending := None; limited := None;
      players := map normalize_match_player rows;
      extra := ∅ |}
  end%string.

(** The key a row is grouped by; the empty one drops it. *)
Definition row_key (row : value) : string :=
  default EmptyString (js_string <$> or_else (get "match_id" row) (get "Match" row)).

(** The groups in the order their first row came in. *)
Fixpoint group_into (key : string) (row : value) (groups : list (string * list value)) : list (string * list value) :=
  match groups with
  | [] => [(key, [row])]
  | (k, rows) :: groups =>
      if String.eqb k key then (k, rows ++ [row]) :: groups else (k, rows) :: group_into key row groups
  end.

Definition group_rows (data : list value) : list (string * list value) :=
  foldl (fun groups row => if is_empty (row_key row) then groups else group_into (row_key row) row groups) [] data.

Definition normalize_flat_match_detail_rows (data : list value) : list MatchDetails :=
  omap (fun g => normalize_match_details (snd g)) (group_rows data).
End normalizer.
