(* ===== verification/Profile.v ===== *)
(** * Player profiles
      (src/hirez-relay-rust/src/normalizer.rs and the records of
      profile_store.rs)

    A profile's display name, level and ranked queues from the provider's
    row.  Its timestamps are read by a library. *)

From Stdlib Require Import SpecFloat.
From S2P Require Import Prelude Json F64 JsValue Normalizer.

Record RankedQueue := {
  rq_name : string; rq_rank : Z; rq_tier : Z; rq_points : Z; rq_wins : Z; rq_losses : Z; rq_leaves : Z; rq_trend : Z;
  rq_prev_rank : Z; rq_season : Z; rq_ret_msg : option string; rq_player_id : option Z;
}.

Record MergedPlayer := { mp_player_id : Z; mp_portal_id : option Z; mp_merge_datetime : option Z }.

Record PlayerProfile := {
  pp_player_id : Z; pp_active_player_id : Z; pp_player_name : string; pp_platform_name : option string;
  pp_level : Z; pp_api_level : Z; pp_wins : Z; pp_losses : Z; pp_leaves : Z; pp_mastery_level : Z;
  pp_region : string; pp_platform : option string; pp_hours_played : Z; pp_minutes_played : Z; pp_total_xp : Z;
  pp_total_worshippers : Z; pp_total_achievements : Z; pp_title : string; pp_avatar_id : Z; pp_avatar_url : option string;
  pp_team_id : Z; pp_team_name : string; pp_hz_gamer_tag : option string; pp_hz_player_name : option string;
  pp_name_source : string; pp_name_anomaly : bool; pp_name_anomaly_reason : option string; pp_ret_msg : option string;
  pp_privacy_flag : bool; pp_created_at : option Z; pp_last_login : option Z; pp_loading_frame : string;
  pp_personal_status_message : string; pp_ranked_kbm : RankedQueue; pp_ranked_controller : RankedQueue;
  pp_ranked_conquest : RankedQueue; pp_tier_ranked_kbm : Z; pp_tier_ranked_controller : Z; pp_tier_conquest : Z;
  pp_merged_players : list MergedPlayer;
}.

(** The two formats of the library, to microseconds. *)
Class VendorTimes := { vendor_rfc3339 : string -> option Z; vendor_datetime : string -> option Z }.

(** ** Texts *)

Definition nullable_text (v : option value) : option string :=
  s ← v ≫= as_str; if is_empty (trim s) then None else Some (trim s).

Definition text_or_default (v : option value) : string := default EmptyString (nullable_text v).

Definition parse_hirez_timestamp `{VendorTimes} (s : string) : option Z :=
  let s := trim s in if is_empty s then None else or_else (vendor_rfc3339 s) (vendor_datetime s).

Definition all_bytes (p : ascii -> bool) (s : string) : bool := forallb p (String.list_ascii_of_string s).

Definition is_hex_digit (c : ascii) : bool :=
  is_digit c || (let b := byte_of (ascii_lower c) in (97 <=? b) && (b <=? 102)).

Definition drop_string (n : nat) (s : string) : string := String.substring n (String.length s - n) s.

Definition split_case_insensitive (v needle : string) : option (string * string) :=
  i ← String.index 0 (to_ascii_lowercase needle) (to_ascii_lowercase v);
  Some (String.substring 0 i v, drop_string (i + String.length needle) v).

Definition is_epic_synthetic (v : string) : bool :=
  match split_case_insensitive v "User-" with
  | Some (prefix, suffix) =>
      (20 <=? String.length prefix)%nat && (6 <=? String.length suffix)%nat
      && all_bytes is_hex_digit prefix && all_bytes is_hex_digit suffix
  | None => false
  end.

Definition is_dummy_synthetic (v : string) : bool :=
  eq_ignore_ascii_case (String.substring 0 11 v) "DummyPlayer" && (11 <? String.length v)%nat
  && all_bytes is_digit (drop_string 11 v).

Definition synthetic_reason (v : option string) (field_name : string) : option string :=
  s ← v;
  if is_epic_synthetic s then Some ("profile " +:+ field_name +:+ " is an obfuscated Epic platform identifier")
  else if is_dummy_synthetic s then Some ("profile " +:+ field_name +:+ " is a HirezRelay dummy-mode synthetic name")
  else None.

(** ** Levels *)

Definition positive_floor_i32 (x : f64) : Z :=
  if is_finite x && flt fzero x then f64_i32 (fclamp fzero (f64_of_Z i32_max) (ffloor x)) else 0.

(** The loop over the levels from [level], with [n] left. *)
Fixpoint level_loop (n : nat) (level threshold experience : Z) : Z :=
  match n with
  | O => 50
  | S n =>
      let threshold := threshold + level * 20000 in
      if experience <? threshold then level - 1 else level_loop n (level + 1) threshold experience
  end.

Definition calculate_player_level (total_xp : f64) : option Z :=
  if negb (is_finite total_xp) || flt total_xp fzero then None
  else
    let experience := f64_i64 (ffloor total_xp) in
    if 25480000 <=? experience then in_range i32_min i32_max (Z.quot (experience - 25480000) 1000000 + 50)
    else Some (level_loop 49 2 0 experience).

Definition resolve_player_level (total_xp : option f64) (api_level : f64) : Z :=
  default (positive_floor_i32 api_level) (total_xp ≫= calculate_player_level).

(** ** The profile *)

Definition no_queue : RankedQueue :=
  {| rq_name := EmptyString; rq_rank := 0; rq_tier := 0; rq_points := 0; rq_wins := 0; rq_losses := 0; rq_leaves := 0;
     rq_trend := 0; rq_prev_rank := 0; rq_season := 0; rq_ret_msg := None; rq_player_id := None |}.

Definition int32 (raw : value) (key : string) : Z := default 0 (first_number_i32 raw [key]).

Definition nonzero (z : option Z) : option Z := n ← z; if n =? 0 then None else Some n.

Definition normalize_ranked_queue (raw : option value) : RankedQueue :=
  match raw with
  | None | Some Null => no_queue
  | Some raw =>
      {| rq_name := text_or_default (get "Name" raw); rq_rank := int32 raw "Rank"; rq_tier := int32 raw "Tier";
         rq_points := int32 raw "Points"; rq_wins := int32 raw "Wins"; rq_losses := int32 raw "Losses";
         rq_leaves := int32 raw "Leaves"; rq_trend := int32 raw "Trend"; rq_prev_rank := int32 raw "PrevRank";
         rq_season := int32 raw "Season"; rq_ret_msg := nullable_text (get "ret_msg" raw);
         rq_player_id := nonzero (first_number_i64 raw ["player_id"%string]) |}
  end.

Definition vendor_time `{VendorTimes} (v : option value) : option Z := s ← v ≫= as_str; parse_hirez_timestamp s.

Definition normalize_merged_players `{VendorTimes} (raw : option value) : list MergedPlayer :=
  match raw ≫= as_array with
  | Some values => map (fun v =>
      {| mp_player_id := default 0 (first_number_i64 v ["playerId"%string]);
         mp_portal_id := nonzero (first_number_i32 v ["portalId"%string]);
         mp_merge_datetime := vendor_time (get "merge_datetime" v) |}) values
  | None => []
  end.

(** The display name, where it is from, and what is odd about it. *)
Definition display_name (platform_name hz_player_name hz_gamer_tag : option string) :
    string * string * option string * option string :=
  let platform_reason := synthetic_reason platform_name "Name" in
  let player_reason := synthetic_reason hz_player_name "hz_player_name" in
  let gamer_reason := synthetic_reason hz_gamer_tag "hz_gamer_tag" in
  let reasons := join "; " (omap id [platform_reason; player_reason; gamer_reason]) in
  let anomaly := if is_empty reasons then None else Some reasons in
  match hz_player_name, player_reason with
  | Some name, None => (name, "hz_player_name", anomaly, anomaly)
  | _, _ =>
      match hz_gamer_tag, gamer_reason with
      | Some name, None => (name, "hz_gamer_tag", anomaly, anomaly)
      | _, _ =>
          match platform_name, platform_reason with
          | Some name, None => (name, "name", anomaly, anomaly)
          | _, _ => (EmptyString, "none",
              Some (match anomaly with
                    | None => "profile payload did not contain a usable display name"
                    | Some reason => reason +:+ "; no usable display fallback was present"
                    end), anomaly)
          end
      end
  end%string.

Definition normalize_player_profile `{VendorTimes} (raw : value) : PlayerProfile :=
  let platform_name := nullable_text (get "Name" raw) in
  let hz_player_name := nullable_text (get "hz_player_name" raw) in
  let hz_gamer_tag := nullable_text (get "hz_gamer_tag" raw) in
  let '(player_name, name_source, name_anomaly_reason, anomaly_reason) :=
    display_name platform_name hz_player_name hz_gamer_tag in
  let api_level := default fzero (number_from_present raw ["Level"; "level"]%string) in
  let total_xp :=
    x ← or_else (get "Total_XP" raw) (get "total_xp" raw) ≫= js_number; if is_finite x && fle fzero x then Some x else None in
  let region := default EmptyString (first_truthy raw ["Region"%string] ≫= as_str) in
  {| pp_player_id := default 0 (first_number_i64 raw ["Id"; "ActivePlayerId"]%string);
     pp_active_player_id := default 0 (first_number_i64 raw ["ActivePlayerId"; "Id"]%string);
     pp_player_name := player_name; pp_platform_name := platform_name;
     pp_level := resolve_player_level total_xp api_level; pp_api_level := positive_floor_i32 api_level;
     pp_wins := int32 raw "Wins"; pp_losses := int32 raw "Losses"; pp_leaves := int32 raw "Leaves";
     pp_mastery_level := int32 raw "MasteryLevel"; pp_region := normalize_region region;
     pp_platform := nullable_text (first_truthy raw ["Platform"%string]);
     pp_hours_played := int32 raw "HoursPlayed"; pp_minutes_played := int32 raw "MinutesPlayed";
     pp_total_xp := match total_xp with Some x => f64_i64 (ffloor x) | None => 0 end;
     pp_total_worshippers := default 0 (first_number_i64 raw ["Total_Worshippers"%string]);
     pp_total_achievements := int32 raw "Total_Achievements"; pp_title := text_or_default (get "Title" raw);
     pp_avatar_id := int32 raw "AvatarId"; pp_avatar_url := nullable_text (get "AvatarURL" raw);
     pp_team_id := int32 raw "TeamId"; pp_team_name := text_or_default (get "Team_Name" raw);
     pp_hz_gamer_tag := hz_gamer_tag; pp_hz_player_name := hz_player_name; pp_name_source := name_source;
     pp_name_anomaly := match anomaly_reason with Some _ => true | None => false end;
     pp_name_anomaly_reason := name_anomaly_reason; pp_ret_msg := nullable_text (get "ret_msg" raw);
     pp_privacy_flag := match get "privacy_flag" raw ≫= as_str with Some s => eq_ignore_ascii_case s "y" | None => false end;
     pp_created_at := vendor_time (get "Created_Datetime" raw); pp_last_login := vendor_time (get "Last_Login_Datetime" raw);
     pp_loading_frame := text_or_default (get "LoadingFrame" raw);
     pp_personal_status_message := text_or_default (get "Personal_Status_Message" raw);
     pp_ranked_kbm := normalize_ranked_queue (get "RankedKBM" raw);
     pp_ranked_controller := normalize_ranked_queue (get "RankedController" raw);
     pp_ranked_conquest := normalize_ranked_queue (get "RankedConquest" raw);
     pp_tier_ranked_kbm := int32 raw "Tier_RankedKBM"; pp_tier_ranked_controller := int32 raw "Tier_RankedController";
     pp_tier_conquest := int32 raw "Tier_Conquest"; pp_merged_players := normalize_merged_players (get "MergedPlayers" raw) |}.
