(* ===== verification/Contract.v ===== *)
(** * The operations the relay offers
      (src/hirez-relay-rust/src/contract.rs and contracts/hirez-relay-operation-contract.json)

    The manifest lists the operations, the modes they exist in and the rules
    their arguments keep; [validate_operation] is the gate in front of the
    dispatch. *)

From Stdlib Require Import SpecFloat.
From S2P Require Import Prelude Json F64 JsValue Model.

Inductive RelayValidationRuleKind :=
  | KBoolean | KCompletedMatchRequests | KEnum | KFiniteNumber | KFiniteNumberArray | KNonEmptyString
  | KNonEmptyStringArray | KPositiveInteger | KRawPayloadArray.

Record RelayValidationRule := {
  rule_index : nat; rule_kind : RelayValidationRuleKind; rule_label : string; rule_optional : bool;
  rule_min_items : option Z; rule_max_items : option Z; rule_values_from : option string;
  rule_error_template : option string;
}.

Record RelayOperationValidation := {
  max_args : option Z; max_args_error : option string; rules : list RelayValidationRule;
}.

Record RelayOperationDefinition := {
  op_name : string; op_modes : list string; op_validation : RelayOperationValidation; op_valid_args : list value;
}.

Record RelayOperationManifest := {
  schema_version : Z; dummy_match_scenarios : list string; operations : list RelayOperationDefinition;
}.

(** ** The manifest *)

Definition rule (index : nat) (kind : RelayValidationRuleKind) (label : string) : RelayValidationRule :=
  {| rule_index := index; rule_kind := kind; rule_label := label; rule_optional := false; rule_min_items := None;
     rule_max_items := None; rule_values_from := None; rule_error_template := None |}.

Definition optional_rule (index : nat) (kind : RelayValidationRuleKind) (label : string) : RelayValidationRule :=
  {| rule_index := index; rule_kind := kind; rule_label := label; rule_optional := true; rule_min_items := None;
     rule_max_items := None; rule_values_from := None; rule_error_template := None |}.

Definition requests_rule (index : nat) (label : string) (min_items max_items : Z) : RelayValidationRule :=
  {| rule_index := index; rule_kind := KCompletedMatchRequests; rule_label := label; rule_optional := false;
     rule_min_items := Some min_items; rule_max_items := Some max_items; rule_values_from := None;
     rule_error_template := None |}.

Definition enum_rule (index : nat) (label values_from error_template : string) : RelayValidationRule :=
  {| rule_index := index; rule_kind := KEnum; rule_label := label; rule_optional := false; rule_min_items := None;
     rule_max_items := None; rule_values_from := Some values_from; rule_error_template := Some error_template |}.

Definition operation (name : string) (modes : list string) (rules : list RelayValidationRule) (valid_args : list value) :
    RelayOperationDefinition :=
  {| op_name := name; op_modes := modes;
     op_validation := {| max_args := None; max_args_error := None; rules := rules |}; op_valid_args := valid_args |}.

Definition no_args (name : string) (modes : list string) : RelayOperationDefinition :=
  {| op_name := name; op_modes := modes;
     op_validation := {| max_args := Some 0; max_args_error := Some (name +:+ " takes no args"); rules := [] |};
     op_valid_args := [] |}.

Definition both : list string := ["dummy"; "real"]%string.

Definition manifest : RelayOperationManifest :=
  {| schema_version := 1;
     dummy_match_scenarios :=
       ["complete"; "broken_skin"; "omit_from_multi"; "roster_failure"; "history_missing"; "no_player_anchors"; "pve_single_human"; "vendor_failure"]%string;
     operations := [
   operation "getMatchDetailsBatch" both
     [requests_rule 0 "requests" 1 10]
     [Array [Object [("matchId", Number (NInt 1280977354)); ("queueId", Number (NInt 486))]]];
   operation "resumeMatchRecovery" both
     [requests_rule 0 "requests" 1 1]
     [Array [Object [("matchId", Number (NInt 1280977354)); ("queueId", Number (NInt 486))]]];
   operation "getDataUsed" both [rule 0 KNonEmptyString "devId"] [Str "2116"];
   operation "syncApiKeyUsage" both [rule 0 KNonEmptyString "devId"] [Str "2116"];
   operation "getMatchIdsByQueue" both
     [rule 0 KFiniteNumber "queueId"; rule 1 KNonEmptyString "date"; rule 2 KFiniteNumber "hour"]
     [Number (NInt 486); Str "20260728"; Number (NInt 12)];
   operation "getMatchIdsByQueueDetails" both
     [rule 0 KFiniteNumber "queueId"; rule 1 KNonEmptyString "date"; rule 2 KFiniteNumber "hour"]
     [Number (NInt 486); Str "20260728"; Number (NInt 12)];
   operation "getMatchDetailsBatchRaw" both [rule 0 KFiniteNumberArray "matchIds"] [Array [Number (NInt 1280977354)]];
   operation "getMatchDetailsRaw" both [rule 0 KFiniteNumber "matchId"] [Number (NInt 1280977354)];
   operation "getPlayerChampions" both [rule 0 KFiniteNumber "playerId"] [Number (NInt 716515038)];
   operation "getChampionRanks" both [rule 0 KFiniteNumber "playerId"] [Number (NInt 716515038)];
   no_args "getChampions" both;
   no_args "getItems" both;
   no_args "getEsportsProLeagueDetails" both;
   operation "getPlayerLoadouts" both [rule 0 KFiniteNumber "playerId"] [Number (NInt 716515038)];
   operation "getPlayerStatus" both [rule 0 KFiniteNumber "playerId"] [Number (NInt 716515038)];
   operation "getMatchPlayerDetails" both [rule 0 KFiniteNumber "matchId"] [Number (NInt 1280977354)];
   operation "getLeagueLeaderboard" both
     [rule 0 KFiniteNumber "queueId"; rule 1 KFiniteNumber "tier"; rule 2 KFiniteNumber "season"]
     [Number (NInt 486); Number (NInt 26); Number (NInt 12)];
   operation "getLeagueSeasons" both [rule 0 KFiniteNumber "queueId"] [Number (NInt 486)];
   operation "getPlayerBatchFromMatch" both [rule 0 KFiniteNumber "matchId"] [Number (NInt 1280977354)];
   operation "getDemoDetails" both [rule 0 KFiniteNumber "matchId"] [Number (NInt 1280977354)];
   operation "getPlayerBatch" both [rule 0 KFiniteNumberArray "playerIds"] [Array [Number (NInt 716515038)]];
   operation "getPlayerBatchLookup" both [rule 0 KFiniteNumberArray "playerIds"] [Array [Number (NInt 716515038)]];
   operation "getMatchHistory" both
     [rule 0 KFiniteNumber "playerId"; optional_rule 1 KFiniteNumber "limit"; optional_rule 2 KBoolean "forceRefresh"]
     [Number (NInt 716515038); Number (NInt 50); Bool false];
   operation "getPlayers" both [rule 0 KNonEmptyStringArray "names"] [Array [Str "NabiCook"]];
   operation "getPlayerIdByName" both [rule 0 KNonEmptyString "playerName"] [Str "NabiCook"];
   operation "searchPlayers" both [rule 0 KNonEmptyString "searchPlayer"] [Str "Nabi"];
   operation "getPlayerIdsByGamerTag" both
     [rule 0 KFiniteNumber "portalId"; rule 1 KNonEmptyString "gamerTag"]
     [Number (NInt 1); Str "NabiCook"];
   operation "getPlayerIdByPortalUserId" both
     [rule 0 KFiniteNumber "portalId"; rule 1 KNonEmptyString "portalUserId"]
     [Number (NInt 1); Str "76561198000000000"];
   operation "getMatchLeaderboard" both
     [rule 0 KFiniteNumber "tier"; rule 1 KFiniteNumber "season"]
     [Number (NInt 26); Number (NInt 12)];
   operation "dumpRawPayloads" both
     [rule 0 KRawPayloadArray "payloads"]
     [Array [Object [("endpoint", Str "getmatchdetailsbatch"); ("entity_type", Str "match"); 
        ("entity_id", Number (NInt 1280977354)); ("raw_data", Array [])]]];
   no_args "resetDummyApiCallCounts" both;
   no_args "getDummyApiCallCounts" both;
   operation "setDummyMatchScenario" ["dummy"]
     [rule 0 KFiniteNumber "matchId"; rule 0 KPositiveInteger "matchId";
      enum_rule 1 "scenario" "dummyMatchScenarios" "scenario must be one of: {values}"]
     [Number (NInt 1280977354); Str "broken_skin"];
   no_args "resetDummyMatchScenarios" ["dummy"];
   no_args "reloadApiKeyPool" both;
   no_args "getApiKeyStatus" both;
   no_args "cleanupFetchedPlayersCache" both;
   no_args "clearMatchHistoryCache" both;
   operation "callRawEndpoint" ["real"]
     [rule 0 KNonEmptyString "method"; optional_rule 1 KNonEmptyStringArray "params"]
     [Str "GetMatchHistory"; Array [Str "16706730"]]]%string |}.

(** The index by name, of which the last entry stays. *)
Definition operation_definition (name : string) : option RelayOperationDefinition :=
  find_first (fun d => String.eqb (op_name d) name) (rev (operations manifest)).

(** ** The rules *)

Definition positive_integer (v : option value) : option Z :=
  x ← js_number_arg v;
  if flt fzero x && feq (fract x) fzero && fle x (f64_of_Z u64_max) then Some (f64_u64 x) else None.

Definition usize_max : Z := u64_max.

Definition check (b : bool) (m : string) : result unit RelayError := if b then Ok () else Err (RelayValidation m).

Definition nonblank (v : value) : bool := match as_str v with Some s => negb (is_empty (trim s)) | None => false end.

(** [value.is_some_and(..)]. *)
Definition is_some_and {A} (p : A -> bool) (v : option A) : bool := match v with Some x => p x | None => false end.

Definition indexed (label : string) (index : Z) : string := label +:+ "[" +:+ pretty index +:+ "]".

Fixpoint validate_requests (label : string) (index : Z) (seen : list Z) (requests : list value) : result unit RelayError :=
  match requests with
  | [] => Ok ()
  | request :: requests =>
      match request with
      | Object m =>
          match positive_integer (lookup_field "matchId" m) with
          | None => Err (RelayValidation (indexed label index +:+ ".matchId must be a positive integer"))
          | Some match_id =>
              if bool_decide (match_id ∈ seen)
              then Err (RelayValidation (label +:+ " contains duplicate matchId " +:+ pretty match_id))
              else if bool_decide (is_Some (lookup_field "queueId" m))
                      && negb (bool_decide (is_Some (positive_integer (lookup_field "queueId" m))))
              then Err (RelayValidation (indexed label index +:+ ".queueId must be a positive integer"))
              else validate_requests label (index + 1) (match_id :: seen) requests
          end
      | _ => Err (RelayValidation (indexed label index +:+ " must be an object"))
      end
  end.

Definition validate_completed_match_requests (v : option value) (r : RelayValidationRule) : result unit RelayError :=
  let min_items := default 0 (rule_min_items r) in
  let size_error := rule_label r +:+ " must contain between " +:+ pretty min_items +:+ " and "
                    +:+ default "unbounded"%string (pretty <$> rule_max_items r) +:+ " matches" in
  match v ≫= as_array with
  | None => Err (RelayValidation size_error)
  | Some requests =>
      let n := Z.of_nat (length requests) in
      if (n <? min_items) || (default usize_max (rule_max_items r) <? n) then Err (RelayValidation size_error)
      else validate_requests (rule_label r) 0 [] requests
  end.

Fixpoint validate_payloads (label : string) (index : Z) (payloads : list value) : result unit RelayError :=
  match payloads with
  | [] => Ok ()
  | payload :: payloads =>
      match payload with
      | Object m =>
          let field_check (field : string) :=
            check (is_some_and nonblank (lookup_field field m))
              (indexed label index +:+ "." +:+ field +:+ " must be a non-empty string") in
          _ <-! field_check "endpoint"%string;
          _ <-! field_check "entity_type"%string;
          _ <-! check (bool_decide (is_Some (lookup_field "raw_data" m ≫= as_array)))
                  (indexed label index +:+ ".raw_data must be an array");
          validate_payloads label (index + 1) payloads
      | _ => Err (RelayValidation (indexed label index +:+ " must be an object"))
      end
  end.

Definition validate_raw_payload_array (v : option value) (label : string) : result unit RelayError :=
  match v ≫= as_array with
  | None => Err (RelayValidation (label +:+ " must be an array"))
  | Some payloads => validate_payloads label 0 payloads
  end.

Definition is_finite_number (v : value) : bool := bool_decide (is_Some (js_coerced v)).

Definition validate_rule (args : list value) (r : RelayValidationRule) : result unit RelayError :=
  let v := args !! rule_index r in
  let must (b : bool) (what : string) := check b (rule_label r +:+ " must be " +:+ what) in
  if rule_optional r && negb (bool_decide (is_Some v)) then Ok ()
  else match rule_kind r with
       | KBoolean => must (bool_decide (is_Some (v ≫= as_bool))) "a boolean"
       | KCompletedMatchRequests => validate_completed_match_requests v r
       | KEnum =>
           let values := if bool_decide (rule_values_from r = Some "dummyMatchScenarios")
                         then dummy_match_scenarios manifest else [] in
           check (bool_decide (default EmptyString (v ≫= as_str) ∈ values))
             (replace_all "{values}" (join ", " values)
                (replace_all "{}" (rule_label r) (default "{} must be one of: {values}" (rule_error_template r))))
       | KFiniteNumber => must (is_some_and is_finite_number v) "a finite number"
       | KFiniteNumberArray =>
           must (is_some_and (forallb is_finite_number) (v ≫= as_array)) "an array of finite numbers"
       | KNonEmptyString => must (is_some_and nonblank v) "a non-empty string"
       | KNonEmptyStringArray =>
           must (is_some_and (forallb nonblank) (v ≫= as_array)) "an array of non-empty strings"
       | KPositiveInteger => must (bool_decide (is_Some (positive_integer v))) "a positive integer"
       | KRawPayloadArray => validate_raw_payload_array v (rule_label r)
       end%string.

Fixpoint validate_rules (args : list value) (rules : list RelayValidationRule) : result unit RelayError :=
  match rules with
  | [] => Ok ()
  | r :: rules => _ <-! validate_rule args r; validate_rules args rules
  end.

Definition validate_operation (name : string) (args : list value) (mode : string) :
    result RelayOperationDefinition RelayError :=
  let unsupported := RelayValidation ("Unsupported HirezRelay operation: " +:+ name) in
  match operation_definition name with
  | None => Err unsupported
  | Some d =>
      if negb (bool_decide (mode ∈ op_modes d)) then Err unsupported
      else
        let v := op_validation d in
        if is_some_and (fun m => m <? Z.of_nat (length args)) (max_args v)
        then Err (RelayValidation (default (name +:+ " accepts at most " +:+ pretty (default 0 (max_args v)) +:+ " args")
                                     (max_args_error v)))
        else _ <-! validate_rules args (rules v); Ok d
  end.

(** ** The manifest checks itself at the start *)

Fixpoint verify_modes (d : RelayOperationDefinition) (modes : list string) : result unit RelayError :=
  match modes with
  | [] => Ok ()
  | mode :: modes => _ <-! validate_operation (op_name d) (op_valid_args d) mode; verify_modes d modes
  end.

Fixpoint verify_operations (names : list string) (l : list RelayOperationDefinition) : result unit RelayError :=
  match l with
  | [] => Ok ()
  | d :: l =>
      if bool_decide (op_name d ∈ names)
      then Err (RelayValidation ("duplicate relay operation contract entry: " +:+ op_name d))
      else _ <-! verify_modes d (op_modes d); verify_operations (op_name d :: names) l
  end.

Definition verify_manifest : result unit RelayError :=
  if negb (schema_version manifest =? 1)
  then Err (RelayValidation ("unsupported relay operation contract schema " +:+ pretty (schema_version manifest)))
  else verify_operations [] (operations manifest).

(** ** The requests *)

Definition parse_completed_match_request (request : value) : result CompletedMatchRequest RelayError :=
  let invalid := RelayValidation "invalid requests" in
  match request with
  | Object m =>
      match positive_integer (lookup_field "matchId" m) with
      | None => Err invalid
      | Some match_id =>
          match lookup_field "queueId" m with
          | None => Ok {| req_match_id := match_id; req_queue_id := None |}
          | Some q =>
              match positive_integer (Some q) ≫= in_range 0 u32_max with
              | Some q => Ok {| req_match_id := match_id; req_queue_id := Some q |}
              | None => Err invalid
              end
          end
      end
  | _ => Err invalid
  end.

Definition parse_completed_match_requests (v : value) : result (list CompletedMatchRequest) RelayError :=
  match as_array v with
  | None => Err (RelayValidation "requests are required")
  | Some requests => try_map parse_completed_match_request requests
  end.

(** ** At work *)

Example manifest_verifies : verify_manifest = Ok ().
Proof. vm_compute. reflexivity. Qed.

Example boundary_errors :
  map (fun e : string * list value => match validate_operation (fst e) (snd e) "real" with Ok _ => None | Err e => Some (relay_error_to_string e) end)
    [("getMatchDetailsBatch", [Array []]);
     ("getMatchDetailsBatch", [Array [Object [("matchId", Number (NInt 12))]; Object [("matchId", Str "12")]]]);
     ("getChampions", [Null]); ("setDummyMatchScenario", [Number (NInt 1); Str "broken_skin"]); ("getItems", [])]
  = [Some "requests must contain between 1 and 10 matches"; Some "requests contains duplicate matchId 12";
     Some "getChampions takes no args"; Some "Unsupported HirezRelay operation: setDummyMatchScenario"; None]%string.
Proof. vm_compute. reflexivity. Qed.
