(* ===== verification/Operations.v ===== *)
(** * The provider's endpoints (src/hirez-relay-rust/src/operations.rs)

    One method per endpoint: the parameters it sends, whether it may be tried
    again, and what it makes of an answer of another shape. *)

From Stdlib Require Import SpecFloat.
From S2P Require Import Prelude Json Upstream Session HirezClient Model F64 JsValue.

Definition MATCH_BATCH_SIZE : nat := 10.
Definition PLAYER_BATCH_SIZE : nat := 20.

Record MatchIdObservation := {
  ob_match_id : Z; ob_entry_datetime : option string; ob_region : string; ob_active_flag : bool;
}.

Class ApiCaller (W : Type) := {
  api_call : string -> list string -> ApiRequestOptions -> string -> ST W (result value RelayError);
}.

Section caller.
Context {W : Type} `{Formats} `{ApiKeyState W} `{HttpTransport W} `{SessionAudit W} `{Clock W} `{Stopwatch W} `{RetrySleeper W}.
Variables (base_url_arg : string) (ttl_ms : Z).

(** The client as the caller of the running relay. *)
Definition hirez_caller : ApiCaller (SessionState * W) := {|
  api_call method params options consumer :=
    answer ← api_request base_url_arg ttl_ms method params options consumer;
    mret (map_err (fun e => RelayUpstream (upstream_error_to_string e)) answer);
|}.
End caller.

Definition default_options : ApiRequestOptions := {| opt_timeout := None; opt_max_retries := None |}.
Definition single_attempt : ApiRequestOptions := {| opt_timeout := None; opt_max_retries := Some 0%nat |}.

(** ** Readers *)

Definition js_number_string (x : f64) : string :=
  if feq (fract x) fzero then f64_display_integral x else f64_display x.

Definition positive_u64 (v : value) : option Z :=
  n ← number_of v; if 0 <? n then Some n else None.

Definition value_array (v : value) : list value := default [] (as_array v).

(** Unlike the normalizer's, of a float that is not a number. *)
Definition op_truthy (v : value) : bool :=
  match v with
  | Number n => match number_f64 n with Some x => negb (feq x fzero) | None => false end
  | _ => js_truthy v
  end.

Definition bare_observation (id : Z) : MatchIdObservation :=
  {| ob_match_id := id; ob_entry_datetime := None; ob_region := "Unknown"; ob_active_flag := false |}.

Definition first_present (v : value) (keys : list string) : option value := find_map (fun k => get k v) keys.

Definition nonempty_text (v : option value) : option string :=
  s ← v ≫= as_str; if is_empty (trim s) then None else Some (trim s).

Definition queue_observation (v : value) : option MatchIdObservation :=
  match v with
  | Object _ =>
      id ← first_present v ["Match"; "match_id"] ≫= positive_u64;
      let active := first_present v ["Active_Flag"; "active_flag"] in
      Some {| ob_match_id := id;
              ob_entry_datetime := nonempty_text (first_present v ["Entry_Datetime"; "entry_datetime"]);
              ob_region := default "Unknown" (nonempty_text (first_present v ["Region"; "region"]));
              ob_active_flag := match active with
                                | Some a => default false (as_bool a)
                                            || match as_str a with Some s => eq_ignore_ascii_case s "y" | None => false end
                                | None => false
                                end |}
  | _ => bare_observation <$> positive_u64 v
  end%string.

Definition queue_observations (data : value) : list MatchIdObservation :=
  match as_array data with
  | Some values => omap queue_observation values
  | None => map bare_observation (omap positive_u64 (default [] (get "match_ids" data ≫= as_array)))
  end.

Section operations.
Context {W : Type} `{ApiCaller W}.

Definition raw_or_empty (method : string) (params : list string) (options : ApiRequestOptions) (consumer : string) :
    ST W (result value RelayError) :=
  data <-? api_call method params options consumer;
  mret (Ok (if op_truthy data then data else Array [])).

Definition array_call (method : string) (params : list string) (options : ApiRequestOptions) (consumer : string) :
    ST W (result (list value) RelayError) :=
  data <-? api_call method params options consumer; mret (Ok (value_array data)).

Definition array_or_wrapped_call (method : string) (params : list string) (consumer : string) :
    ST W (result (list value) RelayError) :=
  data <-? api_call method params single_attempt consumer;
  mret (Ok (match data with Array values => values | _ => if op_truthy data then [data] else [] end)).

(** One call after the other, of which the arrays are kept. *)
Fixpoint chunked_calls (method : string) (options : ApiRequestOptions) (consumer : string) (chunks : list (list string)) :
    ST W (result (list value) RelayError) :=
  match chunks with
  | [] => mret (Ok [])
  | c :: chunks =>
      data <-? api_call method [join "," c] options consumer;
      rest <-? chunked_calls method options consumer chunks;
      mret (Ok (match data with Array values => values | _ => [] end ++ rest))
  end.

Definition get_match_ids_by_queue_details (queue_id : f64) (date : string) (hour : f64) (consumer : string) :
    ST W (result (list MatchIdObservation) RelayError) :=
  data <-? api_call "getmatchidsbyqueue" [js_number_string queue_id; date; js_number_string hour] single_attempt consumer;
  mret (Ok (queue_observations data)).

Definition get_match_ids_by_queue (queue_id : f64) (date : string) (hour : f64) (consumer : string) :
    ST W (result (list Z) RelayError) :=
  observations <-? get_match_ids_by_queue_details queue_id date hour consumer;
  mret (Ok (map ob_match_id observations)).

Definition get_match_details_batch (match_ids : list f64) (consumer : string) (options : ApiRequestOptions) :
    ST W (result (list value) RelayError) :=
  chunked_calls "getmatchdetailsbatch" options consumer (chunks MATCH_BATCH_SIZE (map js_number_string match_ids)).

Definition get_match_details_batch_raw (match_ids : list f64) (consumer : string) :=
  get_match_details_batch match_ids consumer default_options.

Definition get_match_details_batch_once (match_ids : list f64) (consumer : string) :=
  get_match_details_batch match_ids consumer single_attempt.

Definition get_match_details_raw (match_id : f64) (consumer : string) :=
  array_call "getmatchdetails" [js_number_string match_id] default_options consumer.

Definition get_player_batch_from_match (match_id : f64) (consumer : string) :=
  array_call "getplayerbatchfrommatch" [js_number_string match_id] single_attempt consumer.

Definition get_demo_details_with_options (match_id : f64) (consumer : string) (options : ApiRequestOptions) :
    ST W (result value RelayError) :=
  data <-? api_call "getdemodetails" [js_number_string match_id] options consumer;
  mret (Ok (match data with Object _ | Array _ => data | _ => Object [] end)).

Definition get_demo_details (match_id : f64) (consumer : string) :=
  get_demo_details_with_options match_id consumer default_options.

Definition get_demo_details_once (match_id : f64) (consumer : string) :=
  get_demo_details_with_options match_id consumer single_attempt.

Definition get_player_champions (player_id : f64) (consumer : string) :=
  raw_or_empty "getplayerchampions" [js_number_string player_id] default_options consumer.

Definition get_champion_ranks (player_id : f64) (consumer : string) :=
  raw_or_empty "getchampionranks" [js_number_string player_id] default_options consumer.

Definition get_champions (consumer : string) := array_call "getchampions" ["1"%string] default_options consumer.
Definition get_items (consumer : string) := array_call "getitems" ["1"%string] default_options consumer.
Definition get_esports_pro_league_details (consumer : string) :=
  array_call "getesportsproleaguedetails" [] default_options consumer.

Definition get_player_loadouts (player_id : f64) (consumer : string) :=
  raw_or_empty "getplayerloadouts" [js_number_string player_id; "1"%string] default_options consumer.

Definition get_player_status (player_id : f64) (consumer : string) :=
  array_call "getplayerstatus" [js_number_string player_id] single_attempt consumer.

Definition get_match_player_details (match_id : f64) (consumer : string) :=
  array_call "getmatchplayerdetails" [js_number_string match_id] single_attempt consumer.

Definition get_league_leaderboard (queue_id tier season : f64) (consumer : string) :=
  raw_or_empty "getleagueleaderboard" (map js_number_string [queue_id; tier; season]) default_options consumer.

Definition get_league_seasons (queue_id : f64) (consumer : string) :=
  raw_or_empty "getleagueseasons" [js_number_string queue_id] default_options consumer.

Definition get_player_batch (player_ids : list f64) (single_attempt_only : bool) (consumer : string) :
    ST W (result (list value) RelayError) :=
  chunked_calls "getplayerbatch" (if single_attempt_only then single_attempt else default_options) consumer
    (chunks PLAYER_BATCH_SIZE (map js_number_string player_ids)).

Definition get_players (names : list string) (consumer : string) : ST W (result (list value) RelayError) :=
  chunked_calls "getplayers" default_options consumer (chunks MATCH_BATCH_SIZE names).

Definition get_player_id_by_name (player_name : string) (consumer : string) :=
  array_or_wrapped_call "getplayeridbyname" [player_name] consumer.

Definition search_players (search_player : string) (consumer : string) :=
  array_or_wrapped_call "searchplayers" [search_player] consumer.

Definition get_player_ids_by_gamer_tag (portal_id : f64) (gamer_tag : string) (consumer : string) :=
  array_or_wrapped_call "getplayeridsbygamertag" [js_number_string portal_id; gamer_tag] consumer.

Definition get_player_id_by_portal_user_id (portal_id : f64) (portal_user_id : string) (consumer : string) :=
  array_or_wrapped_call "getplayeridbyportaluserid" [js_number_string portal_id; portal_user_id] consumer.

Definition get_match_leaderboard (tier season : f64) (consumer : string) :=
  array_call "getmatchleaderboard" (map js_number_string [tier; season]) default_options consumer.
End operations.

(** * Players of a lookup that the provider left out
      (src/hirez-relay-rust/src/player_lookup.rs)

    A player missing from the batch whose name is known is asked for by name,
    and answered as private when the provider says so. *)

(** The names the database has. *)
Class PlayerNameLookup (W : Type) := stored_name : Z -> ST W (result (option string) RelayError).

(** Unlike [find_map] of the keys and then a test, the first key with a
    positive number. *)
Definition parsed_player_id (v : value) (keys : list string) : option Z :=
  find_map (fun key => field ← get key v; positive_u64 field) keys.

Definition private_player (id : Z) (name : string) : value :=
  Object [("Id", Number (NInt id)); ("ActivePlayerId", Number (NInt id)); ("Name", Str name);
          ("ret_msg", Str "Player Privacy Flag set"); ("privacy_flag", Str "y")]%string.

Definition flagged_private (id : Z) (v : value) : bool :=
  bool_decide (parsed_player_id v ["player_id"; "Id"]%string = Some id)
  && match get "privacy_flag" v ≫= as_str with Some flag => eq_ignore_ascii_case flag "y" | None => false end.

Section lookup.
Context {W : Type} `{ApiCaller W} `{PlayerNameLookup W}.

(** The loop over the ids that were not found. *)
Fixpoint look_up_missing (consumer : string) (ids : list Z) : ST W (result (list value) RelayError) :=
  match ids with
  | [] => mret (Ok [])
  | id :: ids =>
      if negb (id <=? i64_max)%Z then look_up_missing consumer ids else
      name <-? stored_name id;
      match name with
      | None => look_up_missing consumer ids
      | Some name =>
          answer ← get_player_id_by_name name consumer;
          let found := match answer with
                       | Ok rows => if existsb (flagged_private id) rows then [private_player id name] else []
                       | Err _ => []
                       end in
          rest <-? look_up_missing consumer ids;
          mret (Ok (found ++ rest))
      end
  end.

Definition get_player_batch_lookup (player_ids : list Z) (consumer : string) : ST W (result (list value) RelayError) :=
  results <-? get_player_batch (map f64_of_Z player_ids) true consumer;
  let found := omap (fun v => parsed_player_id v ["Id"; "player_id"]%string) results in
  missing <-? look_up_missing consumer (List.filter (fun id => negb (bool_decide (id ∈ found))) player_ids);
  mret (Ok (results ++ missing)).
End lookup.
