(* ===== verification/NormalizerSpec.v ===== *)
(** * Properties of the normalizer

    The rows of a batch become one match per key, every row in its match; a
    normalized row has the same columns whatever the provider sent; and the
    name and the level of a profile are what they should be. *)

From Stdlib Require Import SpecFloat.
From S2P Require Import Prelude Json F64 JsValue Model Normalizer Profile.

(** ** The columns of a row *)

Lemma insert_field_new k v m : k ∉ map fst m -> insert_field k v m = m ++ [(k, v)].
Proof.
  induction m as [|[j x] m IH]; cbn [insert_field map app fst]; [done|]. rewrite not_elem_of_cons. intros [Hj Hm].
  destruct (String.eqb_spec j k); [congruence|]. by rewrite IH.
Qed.

Lemma columns_nodup l : NoDup (map fst l) -> columns l = Object l.
Proof.
  intros Hl. unfold columns. f_equal.
  assert (forall acc, NoDup (map fst (acc ++ l)) -> foldl (fun m e => insert_field e.1 e.2 m) acc l = acc ++ l) as H.
  2: by apply (H []).
  clear Hl. induction l as [|[k v] l IH]; intros acc Hn; cbn [foldl]; [by rewrite app_nil_r|].
  rewrite map_app in Hn. apply NoDup_app in Hn as Hd. destruct Hd as (_ & Hd & _).
  rewrite insert_field_new.
  - rewrite IH, <- app_assoc; [done|]. by rewrite <- app_assoc, map_app.
  - intros Hk. apply (Hd k Hk). cbn. by left.
Qed.

Section columns.
Context `{FloatText}.

Lemma direct_names raw : map fst (direct_columns raw) = map fst (direct_columns Null).
Proof. reflexivity. Qed.

Lemma history_names raw : map fst (history_columns raw) = map fst (history_columns Null).
Proof. reflexivity. Qed.

Lemma direct_names_nodup : NoDup (map fst (direct_columns Null)).
Proof. apply (bool_decide_unpack _). vm_compute. exact I. Qed.

Lemma history_names_nodup : NoDup (map fst (history_columns Null)).
Proof. apply (bool_decide_unpack _). vm_compute. exact I. Qed.

Definition score_columns : list string := ["history_team1_score"; "history_team2_score"; "history_winning_task_force"]%string.

(** A normalized row has the same columns whatever the provider sent,
    each once: a hundred and eight for a player of a match; and a row of a
    history has the very same, with three for the score of its match. *)
Theorem normalized_columns raw raw' :
  exists l l', normalize_match_player raw = Object l /\ normalize_match_history_player raw' = Object l' /\
    NoDup (map fst l) /\ NoDup (map fst l') /\ length l = 108%nat /\
    map fst l = map fst (direct_columns Null) /\ map fst l' ≡ₚ map fst l ++ score_columns.
Proof.
  exists (direct_columns raw), (history_columns raw'). unfold normalize_match_player, normalize_match_history_player.
  rewrite !columns_nodup, direct_names, history_names.
  - split_and!; try done; [apply direct_names_nodup|apply history_names_nodup|].
    apply NoDup_Permutation; [apply history_names_nodup|apply (bool_decide_unpack _); vm_compute; exact I|].
    intros x. assert (forall l1 l2 : list string, forallb (fun y => bool_decide (y ∈ l2)) l1 = true -> x ∈ l1 -> x ∈ l2) as Hin.
    { intros l1 l2 Hall Hx. rewrite forallb_forall in Hall. apply list_elem_of_In, Hall in Hx. by apply bool_decide_eq_true in Hx. }
    split; apply Hin; vm_compute; reflexivity.
  - rewrite history_names. apply history_names_nodup.
  - rewrite direct_names. apply direct_names_nodup.
Qed.

(** ** The matches of a batch *)

Definition of_match (key : string) (data : list value) : list value :=
  List.filter (fun row => String.eqb (row_key row) key) data.

(** The keys in the order they first appear, the empty one left out. *)
Definition add_key (keys : list string) (row : value) : list string :=
  if is_empty (row_key row) || bool_decide (row_key row ∈ keys) then keys else keys ++ [row_key row].

Definition match_keys (data : list value) : list string := foldl add_key [] data.

Lemma group_into_map key row ks (F : string -> list value) :
  NoDup ks ->
  group_into key row (map (fun k => (k, F k)) ks)
  = map (fun k => (k, if String.eqb k key then F k ++ [row] else F k)) ks
    ++ (if bool_decide (key ∈ ks) then [] else [(key, [row])]).
Proof.
  induction ks as [|k ks IH]; intros Hn; cbn [map group_into app]; [done|]. apply NoDup_cons in Hn as [Hk Hn].
  destruct (String.eqb_spec k key) as [->|Hne].
  - rewrite bool_decide_true by (by left). rewrite app_nil_r. f_equal. apply map_ext_in. intros j Hj.
    destruct (String.eqb_spec j key) as [->|]; [|done]. by apply list_elem_of_In in Hj.
  - rewrite IH by done. cbn [app]. do 2 f_equal.
    destruct (decide (key ∈ ks)) as [Hin|Hout]; [by rewrite !bool_decide_true by (done || by right)|].
    rewrite !bool_decide_false; [done|by rewrite not_elem_of_cons|done].
Qed.

Lemma of_match_snoc key data row :
  of_match key (data ++ [row]) = if String.eqb (row_key row) key then of_match key data ++ [row] else of_match key data.
Proof. unfold of_match. rewrite List.filter_app. cbn. by case_match; rewrite ?app_nil_r. Qed.

Lemma match_keys_spec data :
  NoDup (match_keys data) /\ forall key, key ∈ match_keys data <-> key <> EmptyString /\ of_match key data <> [].
Proof.
  induction data as [|row data [Hn Hin]] using rev_ind.
  { split; [constructor|]. intros key. split; [by intros ?%elem_of_nil|by intros [_ ?]]. }
  unfold match_keys. rewrite foldl_app. cbn [foldl]. fold (match_keys data). unfold add_key.
  destruct (is_empty (row_key row)) eqn:He; cbn [orb].
  { split; [done|]. intros key. rewrite Hin, of_match_snoc. destruct (String.eqb_spec (row_key row) key) as [<-|]; [|done].
    destruct (row_key row); [naive_solver|done]. }
  case_bool_decide as Hrow.
  - split; [done|]. intros key. rewrite Hin, of_match_snoc. destruct (String.eqb_spec (row_key row) key) as [<-|]; [|done].
    apply Hin in Hrow as [? ?]. split; intros [? ?]; split; try done. by destruct (of_match _ data).
  - split; [apply NoDup_app; split_and!; [done|by intros x Hx ->%list_elem_of_singleton|apply NoDup_singleton]|].
    intros key. rewrite elem_of_app, list_elem_of_singleton, Hin, of_match_snoc.
    destruct (String.eqb_spec (row_key row) key) as [<-|Hne].
    + split; [intros _|by right]. split; [by destruct (row_key row)|by destruct (of_match _ data)].
    + split; [intros [?|Hk]; [done|by rewrite Hk in Hne]|by left].
Qed.

Lemma match_keys_snoc data row : match_keys (data ++ [row]) = add_key (match_keys data) row.
Proof. unfold match_keys. by rewrite foldl_app. Qed.

Lemma group_rows_snoc data row :
  group_rows (data ++ [row])
  = if is_empty (row_key row) then group_rows data else group_into (row_key row) row (group_rows data).
Proof. unfold group_rows. by rewrite foldl_app. Qed.

Lemma group_rows_keys data : group_rows data = map (fun k => (k, of_match k data)) (match_keys data).
Proof.
  induction data as [|row data IH] using rev_ind; [done|]. rewrite group_rows_snoc, match_keys_snoc, IH. unfold add_key.
  destruct (match_keys_spec data) as [Hn Hin]. destruct (is_empty (row_key row)) eqn:He; cbn [orb].
  - apply map_ext_in. intros k Hk%list_elem_of_In. rewrite of_match_snoc. destruct (String.eqb_spec (row_key row) k) as [<-|]; [|done].
    apply Hin in Hk as [Hk _]. by destruct (row_key row).
  - rewrite group_into_map by done. case_bool_decide as Hrow.
    + rewrite app_nil_r. apply map_ext. intros k. rewrite of_match_snoc, String.eqb_sym. by case_match.
    + rewrite map_app. cbn [map]. f_equal.
      * apply map_ext. intros k. rewrite of_match_snoc, String.eqb_sym. by case_match.
      * rewrite of_match_snoc, String.eqb_refl. destruct (decide (of_match (row_key row) data = [])) as [-> | Hne]; [done|].
        exfalso. apply Hrow, Hin. split; [by destruct (row_key row)|done].
Qed.

(** The details of one match, from its rows. *)
Definition details_of (data : list value) (key : string) : option MatchDetails :=
  normalize_match_details (of_match key data).

(** The rows of a batch, flat and in any order, become one match for each
    key they have, in the order the keys first come in: it is made of the rows
    of its key, all of them and in their order, so that no row with a key is
    left out and none is in two matches. *)
Theorem flat_rows_grouped data :
  map Some (normalize_flat_match_detail_rows data) = map (details_of data) (match_keys data) /\
  map players (normalize_flat_match_detail_rows data)
    = map (fun key => map normalize_match_player (of_match key data)) (match_keys data) /\
  NoDup (match_keys data) /\
  forall row, row ∈ data -> row_key row <> EmptyString -> row_key row ∈ match_keys data.
Proof.
  unfold normalize_flat_match_detail_rows. rewrite group_rows_keys. destruct (match_keys_spec data) as [Hn Hin].
  assert (forall ks, (forall k, k ∈ ks -> of_match k data <> []) ->
    map Some (omap (fun g => normalize_match_details (snd g)) (map (fun k => (k, of_match k data)) ks)) = map (details_of data) ks /\
    map players (omap (fun g => normalize_match_details (snd g)) (map (fun k => (k, of_match k data)) ks))
      = map (fun key => map normalize_match_player (of_match key data)) ks) as Hks.
  { induction ks as [|k ks IH]; intros Hks; [done|]. cbn. unfold details_of.
    destruct IH as [IH1 IH2]; [intros j Hj; apply Hks; by right|].
    destruct (of_match k data) as [|row rows] eqn:E; [by destruct (Hks k (list_elem_of_here _ _))|].
    cbn in *. by rewrite IH1, IH2. }
  destruct (Hks (match_keys data)) as [H1 H2]; [by intros k [_ ?]%Hin|]. split_and!; try done.
  intros row Hrow Hk. apply Hin. split; [done|]. unfold of_match. intros Hnil.
  assert (row ∈ List.filter (fun r => String.eqb (row_key r) (row_key row)) data) as Hf
    by (apply list_elem_of_In, filter_In; split; [by apply list_elem_of_In|apply String.eqb_refl]).
  rewrite Hnil in Hf. by apply elem_of_nil in Hf.
Qed.
End columns.

(** ** The level *)

(** The experience of a level. *)
Definition level_experience (level : Z) : Z := 10000 * (level * level + level - 2).

Lemma level_loop_spec n level experience :
  level + Z.of_nat n = 51 -> 2 <= level -> level_experience (level - 1) <= experience \/ level = 2 ->
  experience < 25480000 ->
  let l := level_loop n level (level_experience (level - 1)) experience in
  level - 1 <= l <= 49 /\ experience < level_experience (l + 1) /\ (level_experience l <= experience \/ l = 1).
Proof.
  revert level. induction n as [|n IH]; intros level Hn Hl Hlo Hhi; cbn [level_loop]; cbn zeta.
  { assert (level = 51) as -> by lia. unfold level_experience in *. lia. }
  replace (level_experience (level - 1) + level * 20000) with (level_experience level) by (unfold level_experience; lia).
  destruct (Z.ltb_spec experience (level_experience level)) as [Hlt|Hge].
  - replace (level - 1 + 1) with level by lia. assert (level <= 50) by lia. split_and!; try lia.
  - assert (level <> 50) as H50 by (intros ->; unfold level_experience in Hge; lia).
    specialize (IH (level + 1)). replace (level + 1 - 1) with level in IH by lia. cbn zeta in IH.
    destruct IH as (H1 & H2 & H3); [lia|lia|by left|done|]. split_and!; try done; lia.
Qed.

(** The level of an experience, as the code computes it below its last
    threshold. *)
Lemma level_below e : e < 25480000 ->
  let l := level_loop 49 2 0 e in 1 <= l <= 49 /\ e < level_experience (l + 1) /\ (level_experience l <= e \/ l = 1).
Proof. intros He. exact (level_loop_spec 49 2 e eq_refl ltac:(lia) (or_intror eq_refl) He). Qed.

Lemma level_experience_mono a b : 0 <= a <= b -> level_experience a <= level_experience b.
Proof. unfold level_experience. nia. Qed.

(** The level of a player is the one the experience reaches: below
    25,480,000 the level [l] of 1 to 49 for which ten thousand times [l * l + l
    - 2] is reached and that of [l + 1] is not, from there one level more for
    each further million, none where it exceeds 32 bits; and more experience
    never is a lower level. *)
Theorem player_level_thresholds x y :
  let experience x := f64_i64 (ffloor x) in
  is_finite x = true -> flt x fzero = false ->
  (experience x < 25480000 -> exists l, calculate_player_level x = Some l /\ 1 <= l <= 49 /\
     experience x < level_experience (l + 1) /\ (level_experience l <= experience x \/ l = 1)) /\
  (25480000 <= experience x ->
     calculate_player_level x = in_range i32_min i32_max (50 + (experience x - 25480000) / 1000000)) /\
  (forall l l', experience x <= experience y -> calculate_player_level x = Some l -> calculate_player_level y = Some l' -> l <= l').
Proof.
  intros experience Hf Hx. unfold calculate_player_level at 1 2 3. rewrite Hf, Hx. cbn [negb orb].
  fold (experience x). split_and!.
  - intros He. rewrite (proj2 (Z.leb_gt _ _) He). eexists. split; [reflexivity|]. by apply level_below.
  - intros He. rewrite (proj2 (Z.leb_le _ _) He). rewrite Z.quot_div_nonneg by lia. by rewrite Z.add_comm.
  - intros l l' Hle. unfold calculate_player_level. destruct (negb (is_finite y) || flt y fzero); [done|]. fold (experience y).
    destruct (Z.leb_spec 25480000 (experience x)) as [Hex|Hex], (Z.leb_spec 25480000 (experience y)) as [Hey|Hey]; try lia.
    + intros [-> _]%in_range_Some [-> _]%in_range_Some. rewrite !Z.quot_div_nonneg by lia.
      apply Z.add_le_mono_r, Z.div_le_mono; lia.
    + intros <-%(inj Some) [-> _]%in_range_Some. destruct (level_below _ Hex) as (Hl & _). rewrite Z.quot_div_nonneg by lia.
      assert (0 <= (experience y - 25480000) / 1000000) by (apply Z.div_pos; lia). lia.
    + intros <-%(inj Some) <-%(inj Some). destruct (level_below _ Hex) as (Hl & _ & Hlx), (level_below _ Hey) as (Hl' & Hly & _).
      destruct (Z.le_gt_cases (level_loop 49 2 0 (experience x)) (level_loop 49 2 0 (experience y))) as [|Hgt]; [done|].
      exfalso. destruct Hlx as [Hlx|Hlx]; [|lia].
      pose proof (level_experience_mono (level_loop 49 2 0 (experience y) + 1) (level_loop 49 2 0 (experience x)) ltac:(lia)). lia.
Qed.

(** ** The display name *)

Definition usable_name (v : option string) : bool :=
  match v with Some s => negb (is_epic_synthetic s) && negb (is_dummy_synthetic s) | None => false end.

Definition synthetic_name (v : option string) : bool :=
  match v with Some s => is_epic_synthetic s || is_dummy_synthetic s | None => false end.

Lemma synthetic_reason_spec v f :
  match synthetic_reason v f with
  | Some m => synthetic_name v = true /\ usable_name v = false /\ is_empty m = false
  | None => synthetic_name v = false /\ usable_name v = bool_decide (is_Some v)
  end.
Proof.
  destruct v as [s|]; [|done]. unfold synthetic_reason, synthetic_name, usable_name. cbn.
  by destruct (is_epic_synthetic s); [|destruct (is_dummy_synthetic s)].
Qed.

Lemma join_nonempty sep m l : is_empty m = false -> is_empty (join sep (m :: l)) = false.
Proof. destruct m; [done|]. by destruct l. Qed.

(** The name a profile shows is the first of the player name, the gamer tag
    and the platform's name that is there and not made up; without one there
    is no name, and a reason; and a made-up name among the three is always
    reported. *)
Theorem display_name_first_usable platform_name player_name gamer_tag :
  let '(name, source, why, anomaly) := display_name platform_name player_name gamer_tag in
  match find_first (fun e => usable_name (fst e))
          [(player_name, "hz_player_name"); (gamer_tag, "hz_gamer_tag"); (platform_name, "name")]%string with
  | Some (v, s) => v = Some name /\ source = s /\ why = anomaly
  | None => name = EmptyString /\ source = "none"%string /\ is_Some why
  end /\
  (is_Some anomaly <-> existsb synthetic_name [platform_name; player_name; gamer_tag] = true).
Proof.
  unfold display_name. cbn [find_first existsb fst].
  pose proof (synthetic_reason_spec player_name "hz_player_name") as Hh.
  pose proof (synthetic_reason_spec gamer_tag "hz_gamer_tag") as Hg.
  pose proof (synthetic_reason_spec platform_name "Name") as Hp.
  destruct (synthetic_reason player_name _) as [mh|], (synthetic_reason gamer_tag _) as [mg|],
    (synthetic_reason platform_name _) as [mp|]; cbn [omap list_omap id];
    repeat match goal with H : _ /\ _ |- _ => destruct H end;
    rewrite ?join_nonempty by done; cbn [join String.concat is_empty];
    repeat match goal with H : usable_name ?v = _ |- _ => rewrite H; clear H end;
    repeat match goal with H : synthetic_name ?v = _ |- _ => rewrite H; clear H end;
    destruct player_name, gamer_tag, platform_name; cbn; split_and!; try done; split; by eauto.
Qed.
