(* ===== verification/HistoryStore.v ===== *)
(** * Stored match histories
      (src/hirez-relay-rust/src: history_store.rs, history_operation.rs)

    The cache of the histories the provider answered, with one row a player,
    and the entries of the players' matches taken out of them; and the service
    that answers a history from the cache or from the provider. *)

From Stdlib Require Import SpecFloat.
From S2P Require Import Prelude Json HirezClient Model F64 JsValue Normalizer Profile Operations.

Definition PLAYER_HISTORY_CACHE_SOURCE : string := "getmatchhistory-v2".

Record HistoryEntry := {
  he_match_id : Z; he_player_id : Z; he_fetched_player_id : Z; he_entry_datetime : option Z; he_queue_id : option Z;
  he_region : option string; he_map : option string; he_champion_id : option Z; he_champion_name : option string;
  he_skin_id : option Z; he_skin_name : option string; he_win_status : option string; he_kills : Z; he_deaths : Z;
  he_assists : Z; he_damage : Z; he_healing : Z; he_gold_earned : Z; he_time_in_match : Z; he_task_force : Z;
  he_league_tier : Z; he_source : string; he_raw_data : value; he_normalized_data : value;
}.

(** ** The columns *)

(** [VARCHAR(n)], nullable; PostgreSQL also takes a longer text whose excess is
    blanks, which the cleaned texts of the relay do not have. *)
Definition varchar (n : Z) (s : option string) : bool :=
  match s with Some s => (text_length s <=? n) && free_of_nul s | None => true end.

(** ** Readers *)

Definition history_values (data : value) : list value :=
  match data with
  | Array values => values
  | Object _ => default [] (get "matches" data ≫= as_array)
  | _ => []
  end.

Definition history_match_id (v : value) : option Z :=
  id ← (field ← first_present v ["Match"; "match_id"; "MatchId"]%string;
        match field with Number n => number_i64 n | Str s => parse_i64 s | _ => None end);
  if 0 <? id then Some id else None.

Definition integer (v : value) (key : string) : option Z :=
  field ← get key v;
  or_else (as_i64 field)
    (or_else (n ← as_u64 field; in_range i64_min i64_max n)
       (or_else (match field with
                 | Number n => x ← number_f64 n; if is_finite x then Some (f64_i64 x) else None
                 | _ => None
                 end)
          (s ← as_str field; parse_i64 s))).

Definition text_of (v : value) (key : string) : option string :=
  s ← get key v ≫= as_str; if is_empty s then None else Some s.

Definition int32_of (v : value) (key : string) : option Z := integer v key ≫= in_range i32_min i32_max.

(** The two formats, as the profiles' but of the text as it is. *)
Definition parse_timestamp `{VendorTimes} (s : string) : option Z := or_else (vendor_rfc3339 s) (vendor_datetime s).

Definition set_field (k : string) (x v : value) : value :=
  match v with Object m => Object (insert_field k x m) | _ => v end.

Definition history_entry `{VendorTimes} (fetched_player_id : Z) (raw normalized : value) (source : string) :
    option HistoryEntry :=
  match_id ← or_else (integer normalized "match_id") (integer raw "Match");
  let player_id := match integer normalized "player_id" with
                   | Some p => if (0 <? p)%Z then p else fetched_player_id
                   | None => fetched_player_id
                   end in
  if (match_id <=? 0)%Z || (player_id <=? 0)%Z then None
  else
    let map_ := default EmptyString (or_else (text_of normalized "map") (or_else (text_of raw "Map_Game") (text_of raw "Map"))) in
    let i32 key := int32_of normalized key in
    let n key := default 0%Z (i32 key) in
    Some {| he_match_id := match_id; he_player_id := player_id; he_fetched_player_id := fetched_player_id;
            he_entry_datetime :=
              s ← or_else (text_of normalized "entry_datetime") (text_of raw "Match_Time"); parse_timestamp s;
            he_queue_id := i32 "queue_id"; he_region := text_of normalized "region";
            he_map := if is_empty map_ then None else Some map_; he_champion_id := i32 "champion_id";
            he_champion_name := text_of normalized "champion_name"; he_skin_id := i32 "skin_id";
            he_skin_name := text_of normalized "skin_name"; he_win_status := text_of normalized "win_status";
            he_kills := n "kills"; he_deaths := n "deaths"; he_assists := n "assists"; he_damage := n "damage_done_physical";
            he_healing := n "healing"; he_gold_earned := n "gold_earned";
            he_time_in_match := default 0%Z
              (or_else (integer normalized "time_in_match") (integer normalized "match_duration") ≫= in_range i32_min i32_max);
            he_task_force := default 0%Z (integer normalized "task_force" ≫= in_range (-32768) 32767);
            he_league_tier := n "league_tier"; he_source := source; he_raw_data := raw;
            he_normalized_data := set_field "map" (Str map_) normalized |}%string.

(** ** The tables *)

Record CacheRow := { ch_raw_data : value; ch_match_ids : list Z; ch_fetched_at : Z; ch_expires_at : Z; ch_source : string }.

Record EntryRow := { er_entry : HistoryEntry; er_observed_at : Z; er_expires_at : option Z }.

Record HistoryDb := { hs_cache : gmap Z CacheRow; hs_entries : gmap (Z * Z) EntryRow }.

Definition minutes_of (n : Z) : Z := n * 60000000.
Definition hours_of (n : Z) : Z := n * 3600000000.

(** [HistoryStore::new] and the parameter of [read_fresh_public_cache]. *)
Definition at_least_one (n : Z) : Z := default i32_max (in_range i32_min i32_max (Z.max n 1)).

Definition read_recovery_cache (now player_id target : Z) (d : HistoryDb) : option (list value) :=
  row ← hs_cache d !! player_id;
  if (now <? ch_expires_at row) && bool_decide (target ∈ ch_match_ids row)
  then Some (history_values (ch_raw_data row)) else None.

Definition read_fresh_public_cache (now player_id ttl_minutes : Z) (d : HistoryDb) : option (list value) :=
  row ← hs_cache d !! player_id;
  if (now - minutes_of (at_least_one ttl_minutes) <=? ch_fetched_at row) && (now <? ch_expires_at row) then
    let matches := history_values (ch_raw_data row) in
    match matches with
    | [] => if String.eqb (ch_source row) PLAYER_HISTORY_CACHE_SOURCE then Some matches else None
    | _ => Some matches
    end
  else None.

(** A new entry over the one of the same match and player. *)
Definition non_empty (s : option string) : option string := t ← s; if is_empty t then None else Some t.

Definition merge_entry (old new : HistoryEntry) : HistoryEntry :=
  {| he_match_id := he_match_id old; he_player_id := he_player_id old; he_fetched_player_id := he_fetched_player_id new;
     he_entry_datetime := or_else (he_entry_datetime new) (he_entry_datetime old);
     he_queue_id := or_else (he_queue_id new) (he_queue_id old); he_region := or_else (he_region new) (he_region old);
     he_map := or_else (non_empty (he_map new)) (he_map old);
     he_champion_id := or_else (he_champion_id new) (he_champion_id old);
     he_champion_name := or_else (non_empty (he_champion_name new)) (he_champion_name old);
     he_skin_id := or_else (he_skin_id new) (he_skin_id old);
     he_skin_name := or_else (non_empty (he_skin_name new)) (he_skin_name old);
     he_win_status := or_else (non_empty (he_win_status new)) (he_win_status old);
     he_kills := he_kills new; he_deaths := he_deaths new; he_assists := he_assists new; he_damage := he_damage new;
     he_healing := he_healing new; he_gold_earned := he_gold_earned new; he_time_in_match := he_time_in_match new;
     he_task_force := he_task_force new; he_league_tier := he_league_tier new; he_source := he_source new;
     he_raw_data := he_raw_data new; he_normalized_data := he_normalized_data new |}.

Definition sanitized_entry (e : HistoryEntry) : HistoryEntry :=
  {| he_match_id := he_match_id e; he_player_id := he_player_id e; he_fetched_player_id := he_fetched_player_id e;
     he_entry_datetime := he_entry_datetime e; he_queue_id := he_queue_id e; he_region := sanitize_text <$> he_region e;
     he_map := sanitize_text <$> he_map e; he_champion_id := he_champion_id e;
     he_champion_name := sanitize_text <$> he_champion_name e; he_skin_id := he_skin_id e;
     he_skin_name := sanitize_text <$> he_skin_name e; he_win_status := sanitize_text <$> he_win_status e;
     he_kills := he_kills e; he_deaths := he_deaths e; he_assists := he_assists e; he_damage := he_damage e;
     he_healing := he_healing e; he_gold_earned := he_gold_earned e; he_time_in_match := he_time_in_match e;
     he_task_force := he_task_force e; he_league_tier := he_league_tier e; he_source := he_source e;
     he_raw_data := sanitize_json (he_raw_data e); he_normalized_data := sanitize_json (he_normalized_data e) |}.

(** The widths of the columns. *)
Definition entry_fits (e : HistoryEntry) : bool :=
  varchar 50 (he_region e) && varchar 200 (he_map e) && varchar 100 (he_champion_name e) && varchar 100 (he_skin_name e)
  && varchar 20 (he_win_status e) && varchar 30 (Some (he_source e))
  && json_storable (he_raw_data e) && json_storable (he_normalized_data e).

Definition cache_statement (now ttl_hours player_id : Z) (matches : list value) (d : HistoryDb) : result HistoryDb string :=
  let raw := sanitize_json (Array matches) in
  if json_storable raw then
    Ok {| hs_cache := <[player_id := {| ch_raw_data := raw;
            (* The first of equals: a HashSet lets an id through once. *)
            ch_match_ids := rev (remove_dups (rev (omap history_match_id matches)));
            ch_fetched_at := now; ch_expires_at := now + hours_of ttl_hours;
            ch_source := PLAYER_HISTORY_CACHE_SOURCE |}]> (hs_cache d);
          hs_entries := hs_entries d |}
  else Err "unsupported Unicode escape sequence".

Definition entry_statement (now ttl_hours : Z) (e : HistoryEntry) (d : HistoryDb) : result HistoryDb string :=
  let e := sanitized_entry e in
  let key := (he_match_id e, he_player_id e) in
  if entry_fits e then
    Ok {| hs_cache := hs_cache d;
          hs_entries := <[key := {| er_entry := match hs_entries d !! key with
                                                | Some old => merge_entry (er_entry old) e
                                                | None => e
                                                end;
                                    er_observed_at := now; er_expires_at := Some (now + hours_of ttl_hours) |}]> (hs_entries d) |}
  else Err "value does not fit its column".

Fixpoint entry_statements (now ttl_hours : Z) (entries : list HistoryEntry) (d : HistoryDb) : result HistoryDb string :=
  match entries with
  | [] => Ok d
  | e :: entries => d <-! entry_statement now ttl_hours e d; entry_statements now ttl_hours entries d
  end.

Definition write_history_statements (now ttl_hours player_id : Z) (matches : list value) (entries : list HistoryEntry)
    (d : HistoryDb) : result HistoryDb string :=
  d <-! cache_statement now ttl_hours player_id matches d; entry_statements now ttl_hours entries d.

(** The latest observed first, of those that have not expired. *)
Definition le_observed (a b : EntryRow) : bool := er_observed_at b <=? er_observed_at a.

Definition read_match_entries (now match_id : Z) (player_ids : list Z) (d : HistoryDb) : list HistoryEntry :=
  map er_entry (sort_by le_observed (map snd (List.filter
    (fun e => (fst (fst e) =? match_id) && match player_ids with [] => true | _ => bool_decide (snd (fst e) ∈ player_ids) end
              && match er_expires_at (snd e) with Some expiry => now <? expiry | None => true end)
    (map_to_list (hs_entries d))))).

(** ** The store *)

(** Connections and transactions of PostgreSQL. *)
Class HistorySql (W : Type) := {
  history_begin : ST W (result Z string);
  history_commit : ST W commit_outcome;
  (** A query of its own, at its instant. *)
  history_query : ST W (result Z string);
}.

Section service.
Context {W : Type} `{HistorySql W} `{ApiCaller W} `{FloatText} `{VendorTimes}.

Abbreviation X := (HistoryDb * W)%type.

(** The settings of the process. *)
Variables (ttl_hours public_ttl_minutes : Z).

Definition on_world {A} (f : ST W A) : ST X A := fun s => let '(a, w) := f (snd s) in (a, (fst s, w)).

Definition history_error (e : string) : RelayError := RelayUpstream ("PostgreSQL history operation failed: " +:+ e).

Definition write_history (player_id : Z) (matches : list value) (entries : list HistoryEntry) :
    ST X (result unit RelayError) := fun s =>
  match history_begin (snd s) with
  | (Err e, w) => (Err (history_error e), (fst s, w))
  | (Ok now, w) =>
      match write_history_statements now (at_least_one ttl_hours) player_id matches entries (fst s) with
      | Err e => (Err (history_error e), (fst s, w))
      | Ok d =>
          let '(o, w) := history_commit w in
          (map_err history_error (reported o), (if applied o then d else fst s, w))
      end
  end.

Definition history_read {A} (f : Z -> HistoryDb -> A) : ST X (result A RelayError) := fun s =>
  let '(r, w) := history_query (snd s) in
  (map_err history_error (now <-! r; Ok (f now (fst s))), (fst s, w)).

Definition cache_read_fresh (player_id : Z) : ST X (result (option (list value)) RelayError) :=
  history_read (fun now => read_fresh_public_cache now player_id public_ttl_minutes).

Definition cache_write (player_id : Z) (matches normalized : list value) (source : string) : ST X (result unit RelayError) :=
  write_history player_id matches
    (omap (fun e => history_entry player_id (fst e) (snd e) source) (zip matches normalized)).

(** ** The service *)

Definition normalize_limit (limit : f64) : nat :=
  let v := if feq limit fzero then f64_of_Z 50 else limit in
  Z.to_nat (as_int 0 u64_max (fclamp (f64_of_Z 1) (f64_of_Z 50) (ffloor v))).

Definition is_terminal_empty (message : string) : bool :=
  existsb (fun needle => contains needle message)
    ["HTTP 404"; "HIREZ_NO_MATCH_HISTORY"; "HIREZ_PRIVACY_FLAG"; "HIREZ_NOT_FOUND_OR_INVALID"]%string.

Definition stored_history (player_id : Z) (limit : nat) (matches : list value) (source : string) :
    ST X (result (list value) RelayError) :=
  let normalized := map normalize_match_history_player matches in
  _ <-? cache_write player_id matches normalized source;
  mret (Ok (take limit normalized)).

Definition fetch_history (player_id : Z) (limit : nat) (consumer : string) : ST X (result (list value) RelayError) :=
  answer ← on_world (api_call "getmatchhistory" [pretty player_id] default_options consumer);
  match answer with
  | Ok data => stored_history player_id limit (history_values data) "getmatchhistory"
  | Err e =>
      if is_terminal_empty (relay_error_to_string e) then
        _ <-? cache_write player_id [] [] "getmatchhistory";
        mret (Ok [])
      else mret (Err e)
  end.

Definition get_match_history (player_id limit : f64) (force_refresh : bool) (consumer : string) :
    ST X (result (list value) RelayError) :=
  let player_id := f64_i64 player_id in
  let limit := normalize_limit limit in
  if force_refresh then fetch_history player_id limit consumer
  else
    cached <-? cache_read_fresh player_id;
    match cached with
    | Some matches => stored_history player_id limit matches "cache_backfill"
    | None => fetch_history player_id limit consumer
    end.
End service.

(** * Properties of the stored histories

    What is written is read back until it expires; and a history that is asked
    for often enough is never fetched again. *)

(** ** Statements *)

Lemma elem_of_rev {A} (x : A) l : x ∈ rev l <-> x ∈ l.
Proof. by rewrite !list_elem_of_In, <- in_rev. Qed.

Lemma cache_statement_ok now ttl p matches d d' :
  cache_statement now ttl p matches d = Ok d' ->
  hs_entries d' = hs_entries d /\ (forall q, q <> p -> hs_cache d' !! q = hs_cache d !! q) /\
  exists row, hs_cache d' !! p = Some row /\ ch_raw_data row = Array (map sanitize_json matches) /\
    (forall id, id ∈ ch_match_ids row <-> id ∈ omap history_match_id matches) /\
    ch_fetched_at row = now /\ ch_expires_at row = now + hours_of ttl /\ ch_source row = PLAYER_HISTORY_CACHE_SOURCE.
Proof.
  unfold cache_statement. case_match; [|done]. intros [= <-]. cbn [hs_entries hs_cache]. split_and!; [done| |].
  - intros q Hq. by rewrite lookup_insert_ne.
  - eexists. rewrite lookup_insert_eq. split_and!; try done. intros id. cbn.
    by rewrite elem_of_rev, elem_of_remove_dups, elem_of_rev.
Qed.

Definition entry_key (e : HistoryEntry) : Z * Z := (he_match_id e, he_player_id e).

(** A row of the match and the player, of the instant it was written at. *)
Definition written (now ttl : Z) (k : Z * Z) (d : HistoryDb) : Prop :=
  exists r, hs_entries d !! k = Some r /\ entry_key (er_entry r) = k /\ er_observed_at r = now /\
            er_expires_at r = Some (now + hours_of ttl).

(** Rows are filed under their keys. *)
Definition filed (d : HistoryDb) : Prop := map_Forall (fun k r => entry_key (er_entry r) = k) (hs_entries d).

Lemma entry_statement_ok now ttl e d d' :
  entry_statement now ttl e d = Ok d' -> filed d ->
  hs_cache d' = hs_cache d /\ filed d' /\ written now ttl (entry_key e) d' /\
  forall k, written now ttl k d -> written now ttl k d'.
Proof.
  unfold entry_statement. case_match; [|done]. intros [= <-] Hf. cbn [hs_cache].
  change (he_match_id (sanitized_entry e), he_player_id (sanitized_entry e)) with (entry_key e).
  set (r := {| er_entry := _ |}). assert (entry_key (er_entry r) = entry_key e) as Hk.
  { unfold r. cbn [er_entry]. fold (entry_key e). destruct (hs_entries d !! entry_key e) as [old|] eqn:E; [|done]. exact (Hf _ _ E). }
  split_and!; [done| | |].
  - fold (entry_key e). by apply map_Forall_insert_2.
  - exists r. fold (entry_key e). cbn [hs_entries]. by rewrite lookup_insert_eq.
  - intros k (r0 & Hr0 & Hw). unfold written. fold (entry_key e). cbn [hs_entries].
    destruct (decide (k = entry_key e)) as [-> | Hne]; [exists r; by rewrite lookup_insert_eq|].
    exists r0. by rewrite lookup_insert_ne.
Qed.

Lemma entry_statements_ok now ttl entries d d' :
  entry_statements now ttl entries d = Ok d' -> filed d ->
  hs_cache d' = hs_cache d /\ filed d' /\ (forall e, e ∈ entries -> written now ttl (entry_key e) d') /\
  forall k, written now ttl k d -> written now ttl k d'.
Proof.
  revert d. induction entries as [|e es IH]; intros d; cbn [entry_statements].
  { intros [= <-] Hf. split_and!; try done. by intros e ?%elem_of_nil. }
  intros (d1 & H1 & H2)%rbind_Ok Hf. apply entry_statement_ok in H1 as (Hc1 & Hf1 & Hw1 & Hk1); [|done].
  destruct (IH _ H2 Hf1) as (Hc & Hf2 & Hw & Hk). split_and!; [congruence|done| |eauto].
  intros x [-> | Hx]%elem_of_cons; eauto.
Qed.

Lemma read_match_entries_elem now m ps d e :
  e ∈ read_match_entries now m ps d <->
  exists k r, hs_entries d !! k = Some r /\ er_entry r = e /\ fst k = m /\ (ps = [] \/ snd k ∈ ps) /\
              (forall x, er_expires_at r = Some x -> now < x).
Proof.
  unfold read_match_entries. rewrite list_elem_of_fmap. setoid_rewrite sort_by_perm.
  setoid_rewrite list_elem_of_fmap. setoid_rewrite list_elem_of_In. setoid_rewrite filter_In.
  setoid_rewrite <- list_elem_of_In. split.
  - intros (r & -> & [k r'] & -> & Hr%elem_of_map_to_list & Hp). exists k, r'. cbn [fst snd] in *.
    apply andb_true_iff in Hp as [[Hk%Z.eqb_eq Hps]%andb_true_iff Hx]. split_and!; try done.
    + destruct ps as [|p ps]; [by left|right]. by apply bool_decide_eq_true in Hps.
    + intros x Ex. rewrite Ex in Hx. by apply Z.ltb_lt.
  - intros (k & r & Hr & <- & <- & Hp & Hx). exists r. split; [done|]. exists (k, r). split; [done|].
    split; [by apply elem_of_map_to_list|]. cbn [fst snd]. rewrite Z.eqb_refl. cbn [andb].
    apply andb_true_iff. split.
    + destruct Hp as [-> | Hp]; [done|]. destruct ps; [done|]. by apply bool_decide_eq_true.
    + destruct (er_expires_at r) as [x|]; [|done]. by apply Z.ltb_lt, Hx.
Qed.

Lemma history_values_array l : history_values (Array l) = l.
Proof. done. Qed.

(** C30. A history written is read back: the public readers get its matches,
    cleaned, an empty history included, for as long as neither limit has
    passed, and nothing after that; the recovery gets them when it looks for a
    match of the history; and each entry is found under its match and player. *)
Theorem history_reads_back now ttl p matches entries d d' :
  filed d -> write_history_statements now ttl p matches entries d = Ok d' ->
  (forall at_ public, read_fresh_public_cache at_ p public d'
     = if (at_ - minutes_of (at_least_one public) <=? now) && (at_ <? now + hours_of ttl)
       then Some (map sanitize_json matches) else None) /\
  (forall at_ target, read_recovery_cache at_ p target d'
     = if (at_ <? now + hours_of ttl) && bool_decide (target ∈ omap history_match_id matches)
       then Some (map sanitize_json matches) else None) /\
  (forall at_ e, e ∈ entries -> at_ < now + hours_of ttl ->
     exists e', e' ∈ read_match_entries at_ (he_match_id e) [he_player_id e] d' /\ entry_key e' = entry_key e) /\
  filed d'.
Proof.
  intros Hf (d1 & Hc & He)%rbind_Ok. apply cache_statement_ok in Hc as (Hent & _ & row & Hrow & Hraw & Hids & Hfa & Hex & Hsrc).
  apply entry_statements_ok in He as (Hcache & Hf' & Hw & _); [|unfold filed; by rewrite Hent]. split_and!.
  - intros at_ public. unfold read_fresh_public_cache. rewrite Hcache, Hrow. cbn [mbind option_bind].
    rewrite Hraw, Hfa, Hex, Hsrc, history_values_array. case_match; [|done]. by destruct (map sanitize_json matches).
  - intros at_ target. unfold read_recovery_cache. rewrite Hcache, Hrow. cbn [mbind option_bind].
    rewrite Hraw, Hex, history_values_array. by rewrite (bool_decide_ext _ _ (Hids target)).
  - intros at_ e Hin Hat. destruct (Hw e Hin) as (r & Hr & Hk & _ & Hx). exists (er_entry r). split; [|done].
    apply read_match_entries_elem. exists (entry_key e), r. split_and!; try done; [right; by apply list_elem_of_singleton|].
    intros x. rewrite Hx. by intros [= <-].
  - done.
Qed.

(** ** A history that is polled *)

Section polls.
Context {W : Type} `{HistorySql W} `{ApiCaller W} `{FloatText} `{VendorTimes}.
Abbreviation X := (HistoryDb * W)%type.
Variables (ttl_hours public_ttl_minutes : Z).

(** A database that answers, each time at most [gap] after the last, beside the
    provider, whose calls [cost] counts. *)
Record steady (clock cost : W -> Z) (gap : Z) : Prop := {
  steady_query w : exists now w', history_query w = (Ok now, w') /\ clock w <= now <= clock w + gap /\
                                  clock w' = now /\ cost w' = cost w;
  steady_begin w : exists now w', history_begin w = (Ok now, w') /\ clock w <= now <= clock w + gap /\
                                  clock w' = now /\ cost w' = cost w;
  steady_commit w : exists w', history_commit w = (Committed, w') /\ clock w' = clock w /\ cost w' = cost w;
}.

Definition entries_of (player_id : Z) (matches : list value) (source : string) : list HistoryEntry :=
  omap (fun e => history_entry player_id (fst e) (snd e) source) (zip matches (map normalize_match_history_player matches)).

(** Matches the store takes as they are. *)
Record settled (player_id : Z) (matches : list value) : Prop := {
  settled_some : matches <> [];
  settled_clean : map sanitize_json matches = matches;
  settled_storable : json_storable (Array matches) = true;
  settled_fits : Forall (fun e => entry_fits (sanitized_entry e) = true) (entries_of player_id matches "cache_backfill");
}.

Lemma entry_statements_fit now ttl entries d :
  Forall (fun e => entry_fits (sanitized_entry e) = true) entries -> exists d', entry_statements now ttl entries d = Ok d' /\ hs_cache d' = hs_cache d.
Proof.
  revert d. induction entries as [|e es IH]; intros d Hf; [by exists d|]. apply Forall_cons in Hf as [He Hes].
  cbn [entry_statements]. unfold entry_statement. rewrite He. cbn [rbind]. edestruct IH as (d' & -> & Hc); [done|]. by exists d'.
Qed.

Variables (clock cost : W -> Z) (gap : Z).
Hypothesis Hsteady : steady clock cost gap.
Hypothesis gap_public : gap <= minutes_of (at_least_one public_ttl_minutes).
Hypothesis gap_stored : gap < hours_of (at_least_one ttl_hours).

(** The matches are in the cache, of the last instant. *)
Definition held (player_id : Z) (matches : list value) (s : X) : Prop := exists row,
  hs_cache (fst s) !! player_id = Some row /\ ch_raw_data row = Array matches /\
  ch_fetched_at row = clock (snd s) /\ ch_expires_at row = clock (snd s) + hours_of (at_least_one ttl_hours).

Lemma held_history_read player_id matches s :
  held player_id matches s -> matches <> [] -> exists w,
    cache_read_fresh public_ttl_minutes player_id s = (Ok (Some matches), (fst s, w)) /\ cost w = cost (snd s).
Proof.
  intros (row & Hrow & Hraw & Hfa & Hex) Hne. unfold cache_read_fresh, history_read.
  destruct (steady_query _ _ _ Hsteady (snd s)) as (now & w & -> & Hnow & Hc & Hcost). exists w. split; [|done]. cbn [rbind map_err].
  do 2 f_equal. unfold read_fresh_public_cache. rewrite Hrow. cbn [mbind option_bind]. rewrite Hraw, Hfa, Hex, history_values_array.
  rewrite (proj2 (Z.leb_le _ _)), (proj2 (Z.ltb_lt _ _)) by lia. by destruct matches.
Qed.

Lemma held_history_write player_id matches s :
  settled player_id matches -> exists s',
    cache_write ttl_hours player_id matches (map normalize_match_history_player matches) "cache_backfill" s = (Ok (), s') /\
    held player_id matches s' /\ cost (snd s') = cost (snd s).
Proof.
  intros Hm. unfold cache_write, write_history. destruct (steady_begin _ _ _ Hsteady (snd s)) as (now & w & -> & _ & Hc & Hcost).
  fold (entries_of player_id matches "cache_backfill"). unfold write_history_statements.
  unfold cache_statement. cbn [sanitize_json]. rewrite (settled_clean _ _ Hm), (settled_storable _ _ Hm). cbn [rbind].
  match goal with |- context [entry_statements _ _ _ ?d] =>
    destruct (entry_statements_fit now (at_least_one ttl_hours) _ d (settled_fits _ _ Hm)) as (d' & -> & Hd) end.
  destruct (steady_commit _ _ _ Hsteady w) as (w' & -> & Hc' & Hcost'). eexists. split; [reflexivity|].
  cbn [applied fst snd] in *. split; [|congruence]. eexists. cbn [fst snd]. rewrite Hd. cbn [hs_cache]. rewrite lookup_insert_eq.
  split_and!; [reflexivity|reflexivity|cbn; congruence|cbn; congruence].
Qed.

(** The polls of one player, by limit and caller. *)
Fixpoint poll_all (player_id : f64) (polls : list (f64 * string)) : ST X (list (result (list value) RelayError)) :=
  match polls with
  | [] => mret []
  | (limit, consumer) :: polls =>
      answer ← get_match_history ttl_hours public_ttl_minutes player_id limit false consumer;
      answers ← poll_all player_id polls;
      mret (answer :: answers)
  end.

(** A history in the cache that is asked for again and again, each time
    before it is as old as the limit of the public reader, is never fetched
    again, however long that goes on: the answer from the cache is written back
    as if it had just been fetched.  No call is made, and every answer is the
    first history. *)
Theorem polled_history_never_fetched player_id matches polls s :
  settled (f64_i64 player_id) matches -> held (f64_i64 player_id) matches s ->
  let '(answers, s') := poll_all player_id polls s in
  answers = map (fun p => Ok (take (normalize_limit (fst p)) (map normalize_match_history_player matches))) polls /\
  cost (snd s') = cost (snd s) /\ held (f64_i64 player_id) matches s'.
Proof.
  intros Hm. revert s. induction polls as [|[limit consumer] polls IH]; intros s Hs; [done|].
  cbn [poll_all]. unfold get_match_history, mbind, ST_bind, try_bind, stored_history.
  destruct (held_history_read _ _ _ Hs (settled_some _ _ Hm)) as (w & -> & Hw). cbn beta iota.
  unfold try_bind. destruct (held_history_write _ _ (fst s, w) Hm) as (s1 & -> & Hs1 & Hc1). cbn beta iota. cbn [mret ST_ret].
  specialize (IH s1 Hs1). destruct (poll_all player_id polls s1) as [answers s2]. destruct IH as (-> & Hc2 & Hs2).
  split_and!; [done|cbn in *; congruence|done].
Qed.
End polls.
