(* ===== verification/RawDump.v ===== *)
(** * Raw payloads into the buffer (src/hirez-relay-rust/src/raw_buffer_store.rs)

    The relay's side of the raw ingest buffer: payloads a caller hands in become
    pending rows, but for those whose entity waits already or whose match is
    stored.  The table is that of RawBuffer. *)

From S2P Require Import Prelude Json Lifecycle RawBuffer RawBufferWorker RawBufferSpec JsValue.

Definition DEDUPE_ENTITY_TYPES : list string := ["match"; "match_history"; "prefetch_match"]%string.

Record RawPayload := {
  pl_endpoint : string; pl_entity_type : string; pl_entity_id : option string; pl_raw_data : value;
}.

(** The buffer and its sequence, the matches with a row, and how many players
    each match has stored. *)
Record DumpDb := { dd_buffer : BufferDb; dd_next_id : Z; dd_matches : gset Z; dd_players : gmap Z Z }.

Definition is_deduped_type (entity_type : string) : bool := bool_decide (entity_type ∈ DEDUPE_ENTITY_TYPES).

Definition dedupe_key (entity_type entity_id : string) : string := entity_type +:+ "|" +:+ entity_id.

(** The key a payload is deduplicated by, if it is. *)
Definition payload_key (p : RawPayload) : option string :=
  id ← pl_entity_id p;
  if is_empty id || negb (is_deduped_type (pl_entity_type p)) then None else Some (dedupe_key (pl_entity_type p) id).

Definition keyed (payloads : list RawPayload) : list RawPayload :=
  List.filter (fun p => bool_decide (is_Some (payload_key p))) payloads.

(** ** What is known already *)

Definition waiting (r : BufferRow) : bool := is_status "pending" r || is_status "processing" r.

(** EXISTING_BUFFER_SQL: any of the types with any of the ids. *)
Definition existing_buffer (ps : list RawPayload) (d : DumpDb) : list string :=
  omap (fun e : Z * BufferRow =>
    id ← rb_entity_id (snd e);
    if waiting (snd e) && bool_decide (rb_entity_type (snd e) ∈ map pl_entity_type ps)
       && bool_decide (id ∈ omap pl_entity_id ps)
    then Some (dedupe_key (rb_entity_type (snd e)) id) else None) (map_to_list (buffer (dd_buffer d))).

Definition payload_match_ids (ps : list RawPayload) : list Z :=
  omap (fun p => if String.eqb (pl_entity_type p) "match"
                 then id ← pl_entity_id p ≫= parse_i64; if 0 <? id then Some id else None
                 else None) ps.

(** A match without a row of the ledger is one of before the ledger. *)
Definition done_status (d : DumpDb) (id : Z) : bool :=
  match buffer_ledger (dd_buffer d) !! id with
  | Some r => bool_decide (row_status r ∈ ["complete"; "limited"]%string)
  | None => true
  end.

Definition stored_match (d : DumpDb) (id : Z) : bool :=
  bool_decide (id ∈ dd_matches d) || (10 <=? default 0 (dd_players d !! id)).

(** STATUS_SQL, and LEGACY_SQL for a database without the ledger. *)
Definition status_sql (ids : list Z) (d : DumpDb) : list Z :=
  List.filter (fun id => stored_match d id && done_status d id) ids.
Definition legacy_sql (ids : list Z) (d : DumpDb) : list Z := List.filter (stored_match d) ids.

(** ** What goes in *)

Fixpoint fresh_payloads (seen : list string) (payloads : list RawPayload) : list RawPayload :=
  match payloads with
  | [] => []
  | p :: payloads =>
      match payload_key p with
      | None => p :: fresh_payloads seen payloads
      | Some key => if bool_decide (key ∈ seen) then fresh_payloads seen payloads
                    else p :: fresh_payloads (key :: seen) payloads
      end
  end.

Definition sanitize_json_value : value -> value := sanitize_json.

(** INSERT_SQL; the columns it does not name take their defaults. *)
Definition pending_row (now : Z) (p : RawPayload) : BufferRow :=
  {| rb_raw_data := sanitize_json_value (pl_raw_data p); rb_endpoint := pl_endpoint p;
     rb_entity_type := pl_entity_type p; rb_entity_id := Some (default EmptyString (pl_entity_id p));
     rb_status := "pending"; rb_retry_count := 0; rb_error_message := None; rb_created_at := now;
     rb_processed_at := None; rb_available_at := now |}.

Definition row_storable (r : BufferRow) : bool :=
  json_storable (rb_raw_data r) && free_of_nul (rb_endpoint r) && free_of_nul (rb_entity_type r)
  && free_of_nul (default EmptyString (rb_entity_id r)).

Definition with_rows (b : gmap Z BufferRow) (next : Z) (d : DumpDb) : DumpDb :=
  {| dd_buffer := with_buffer b (dd_buffer d); dd_next_id := next; dd_matches := dd_matches d; dd_players := dd_players d |}.

(** One INSERT: its number is taken even when it fails. *)
Definition insert_payload (now : Z) (p : RawPayload) (d : DumpDb) : result unit string * DumpDb :=
  let r := pending_row now p in
  let b := <[dd_next_id d := r]> (buffer (dd_buffer d)) in
  let taken := with_rows (buffer (dd_buffer d)) (dd_next_id d + 1) d in
  if negb (row_storable r) then (Err "unsupported Unicode escape sequence"%string, taken)
  else if negb (unique_active b) then (Err "duplicate key value violates unique constraint"%string, taken)
  else (Ok (), with_rows b (dd_next_id d + 1) d).

Fixpoint insert_payloads (now : Z) (ps : list RawPayload) (d : DumpDb) : result unit string * DumpDb :=
  match ps with
  | [] => (Ok (), d)
  | p :: ps => match insert_payload now p d with
               | (Ok _, d) => insert_payloads now ps d
               | (Err e, d) => (Err e, d)
               end
  end.

(** A sequence is not rolled back. *)
Definition rolled_back (before after : DumpDb) : DumpDb :=
  with_rows (buffer (dd_buffer before)) (dd_next_id after) before.

(** The pool, the queries and the transaction; while the process waits, others
    work on the database. *)
Class DumpSql (W : Type) := {
  dump_connection : ST (DumpDb * W) (result unit string);
  dump_query : ST (DumpDb * W) (result unit string);
  dump_begin : ST (DumpDb * W) (result Z string);
  dump_commit : ST W commit_outcome;
}.

Section dump.
Context {W : Type} `{DumpSql W}.

Abbreviation X := (DumpDb * W)%type.

Definition reading {A} (f : DumpDb -> A) : ST X (result A string) := fun s =>
  let '(r, s) := dump_query s in ((_ <-! r; Ok (f (fst s))), s).

Definition existing_completed_or_limited_matches (ids : list Z) : ST X (result (list Z) string) :=
  status ← reading (status_sql ids);
  match status with
  | Ok found => mret (Ok found)
  | Err _ => reading (legacy_sql ids)
  end.

Definition existing_keys (payloads : list RawPayload) : ST X (result (list string) string) :=
  match keyed payloads with
  | [] => mret (Ok [])
  | ps =>
      waiting_keys <-? reading (existing_buffer ps);
      match payload_match_ids ps with
      | [] => mret (Ok waiting_keys)
      | ids => found <-? existing_completed_or_limited_matches ids;
               mret (Ok (map (fun id => dedupe_key "match" (pretty id)) found ++ waiting_keys))
      end
  end.

Definition insert_transaction (ps : list RawPayload) : ST X (result unit string) := fun s =>
  let '(began, (d, w)) := dump_begin s in
  match began with
  | Err e => (Err e, (d, w))
  | Ok now =>
      match insert_payloads now ps d with
      | (Err e, d') => (Err e, (rolled_back d d', w))
      | (Ok _, d') => let '(o, w) := dump_commit w in
                      (reported o, (if applied o then d' else rolled_back d d', w))
      end
  end.

Definition dump_raw_payloads (payloads : list RawPayload) : ST X (result Z string) :=
  match payloads with
  | [] => mret (Ok 0)
  | _ =>
      _ <-? dump_connection;
      existing <-? existing_keys payloads;
      match fresh_payloads existing payloads with
      | [] => mret (Ok 0)
      | ps =>
          _ <-? dump_connection;
          _ <-? insert_transaction ps;
          mret (Ok (Z.of_nat (length ps)))
      end
  end.
End dump.

(** * Properties of the dump of raw payloads

    A dump is a run of the buffer's steps, all of it or nothing; what it leaves
    out waits already, is stored, or comes twice. *)

(** ** What is left out *)





(** ** The rows of a transaction *)

(** No row has a number the sequence is still to give. *)
Definition fresh_ids (d : DumpDb) : Prop := forall id, dd_next_id d <= id -> buffer (dd_buffer d) !! id = None.

Definition reach (d d' : DumpDb) : Prop := rtc buffer_step (dd_buffer d) (dd_buffer d').


#[export] Instance reach_preorder : PreOrder reach.
Proof. split; [by intros d; constructor|]. intros a b c. unfold reach. apply PreOrder_Transitive. Qed.

Lemma insert_payload_ok now p d d' :
  insert_payload now p d = (Ok (), d') ->
  d' = with_rows (<[dd_next_id d := pending_row now p]> (buffer (dd_buffer d))) (dd_next_id d + 1) d /\
  unique_active (buffer (dd_buffer d')) = true.
Proof.
  unfold insert_payload. destruct (negb (row_storable _)); [done|]. destruct (unique_active _) eqn:Hu; [|done].
  cbn [negb]. intros [= <-]. by split.
Qed.

Lemma insert_payload_fails now p d e d' :
  insert_payload now p d = (Err e, d') -> d' = with_rows (buffer (dd_buffer d)) (dd_next_id d + 1) d.
Proof. unfold insert_payload. repeat (case_match; [by intros [= _ <-]|]). done. Qed.


Lemma insert_payloads_unique now ps d d' :
  insert_payloads now ps d = (Ok (), d') -> unique_active (buffer (dd_buffer d)) = true ->
  unique_active (buffer (dd_buffer d')) = true.
Proof.
  revert d. induction ps as [|p ps IH]; intros d; cbn [insert_payloads]; [by intros [= <-]|].
  destruct (insert_payload now p d) as [[[]|e] d1] eqn:E; [|done]. apply insert_payload_ok in E as [_ Hu].
  intros Hd _. by eapply IH.
Qed.

Lemma with_buffer_self d : with_buffer (buffer d) d = d.
Proof. by destruct d. Qed.

Lemma insert_payloads_reach now ps d r d' :
  insert_payloads now ps d = (r, d') -> fresh_ids d -> reach d d' /\ fresh_ids d' /\ dd_next_id d <= dd_next_id d'.
Proof.
  revert d. induction ps as [|p ps IH]; intros d; cbn [insert_payloads]; [intros [= _ <-] Hf; split_and!; [reflexivity|done|done]|].
  destruct (insert_payload now p d) as [[[]|e] d1] eqn:E.
  - apply insert_payload_ok in E as [-> _]. intros Hd Hf.
    destruct (IH _ Hd) as (Hr & Hf' & Hn); [|split_and!; [|done|cbn in Hn; lia]].
    + intros id Hid. cbn in Hid |- *. rewrite lookup_insert_ne by lia. apply Hf. lia.
    + eapply rtc_l; [|exact Hr]. cbn. apply step_arrive; [by apply Hf|done].
  - intros [= _ <-] Hf. apply insert_payload_fails in E as ->. split_and!.
    + unfold reach. cbn. by rewrite with_buffer_self.
    + intros id Hid. apply Hf. cbn in Hid. lia.
    + cbn. lia.
Qed.

Lemma rolled_back_reach d d' : fresh_ids d -> dd_next_id d <= dd_next_id d' -> reach d (rolled_back d d') /\ fresh_ids (rolled_back d d').
Proof.
  intros Hf Hn. split; [unfold reach; cbn; by rewrite with_buffer_self|]. intros id Hid. cbn in Hid |- *. apply Hf. lia.
Qed.

(** ** The dump *)

Section dump.
Context {W : Type} `{DumpSql W}.
Abbreviation X := (DumpDb * W)%type.

(** While the process waits, the buffer moves by its own steps, and rows take
    the numbers of the sequence. *)
Definition moves {A} (f : ST X A) : Prop := forall s,
  fresh_ids (fst s) -> reach (fst s) (fst (snd (f s))) /\ fresh_ids (fst (snd (f s))).

Record others_move : Prop := {
  move_connection : moves dump_connection;
  move_query : moves dump_query;
  move_begin : moves dump_begin;
}.

Context (Hm : others_move).

Lemma moves_reading {A} (f : DumpDb -> A) : moves (reading f).
Proof. intros s Hs. unfold reading. pose proof (move_query Hm s Hs) as Hq. by destruct (dump_query s) as [r s']. Qed.

Lemma moves_ret {A} (a : A) : moves (mret a).
Proof. intros s Hs. split; [reflexivity|done]. Qed.

Lemma moves_bind {A B} (f : ST X A) (k : A -> ST X B) : moves f -> (forall a, moves (k a)) -> moves (a ← f; k a).
Proof.
  intros Hf Hk s Hs. unfold mbind, ST_bind. destruct (Hf s Hs) as [H1 H2]. destruct (f s) as [a s1].
  destruct (Hk a s1 H2) as [H3 H4]. split; [by etransitivity|done].
Qed.

Lemma moves_try {A B E} (f : ST X (result A E)) (k : A -> ST X (result B E)) :
  moves f -> (forall a, moves (k a)) -> moves (a <-? f; k a).
Proof.
  intros Hf Hk s Hs. unfold try_bind. destruct (Hf s Hs) as [H1 H2]. destruct (f s) as [[a|e] s1]; [|done].
  destruct (Hk a s1 H2) as [H3 H4]. split; [by etransitivity|done].
Qed.

Lemma moves_existing ids : moves (existing_completed_or_limited_matches ids).
Proof.
  apply moves_bind; [apply moves_reading|]. intros [|]; [apply moves_ret|apply moves_reading].
Qed.

Lemma moves_keys payloads : moves (existing_keys payloads).
Proof.
  unfold existing_keys. case_match; [apply moves_ret|]. apply moves_try; [apply moves_reading|]. intros keys.
  case_match; [apply moves_ret|]. apply moves_try; [apply moves_existing|]. intros found. apply moves_ret.
Qed.

Lemma moves_insert ps : moves (insert_transaction ps).
Proof.
  intros s Hs. unfold insert_transaction. destruct (move_begin Hm s Hs) as [H1 H2].
  destruct (dump_begin s) as [[now|e] [d w]]; [|done]. cbn in H1, H2.
  destruct (insert_payloads now ps d) as [r d'] eqn:E. pose proof E as (Hr & Hf & Hn)%insert_payloads_reach; [|done].
  destruct (rolled_back_reach d d' H2 Hn) as [H3 H4].
  destruct r as [[]|e]; [|cbn; split; [by etransitivity|done]].
  destruct (dump_commit w) as [o w']. cbn. destruct (applied o); split; try done; by etransitivity.
Qed.

(** Whatever becomes of it, and whoever works on the buffer meanwhile, a
    dump is a run of the steps of the buffer: the claims stay exclusive. *)
Theorem dump_is_a_run payloads s :
  fresh_ids (fst s) -> let d' := fst (snd (dump_raw_payloads payloads s)) in reach (fst s) d' /\ fresh_ids d'.
Proof.
  intros Hs. cbv zeta. revert s Hs. change (moves (dump_raw_payloads payloads)). unfold dump_raw_payloads.
  case_match; [apply moves_ret|]. apply moves_try; [apply (move_connection Hm)|intros _]. apply moves_try; [apply moves_keys|intros known].
  case_match; [apply moves_ret|]. apply moves_try; [apply (move_connection Hm)|intros _].
  apply moves_try; [apply moves_insert|]. intros _. apply moves_ret.
Qed.

End dump.

(** *** What a dump leaves out *)

Section loss.
Context {W : Type} `{DumpSql W}.
Abbreviation X := (DumpDb * W)%type.











End loss.
