(* ===== verification/LiveProvider.v ===== *)
(** * The provider of the resolver, in the running relay
      (src/hirez-relay-rust/src/live_provider.rs)

    What the resolver asks for is looked for in the database first: recovered
    players, entries of histories, cached histories; what is not there costs a
    call. *)

From Stdlib Require Import SpecFloat.
From S2P Require Import Prelude Json Upstream Session SessionSpec HirezClient HirezClientSpec Model Resolver.
From S2P Require Import ResolverSpec ResolverBatch Lifecycle RawBuffer F64 JsValue Normalizer Profile Operations.
From S2P Require Import HistoryStore RawDump.

(** A row of match_players: its columns as [to_jsonb] shows them. *)
Record PlayerRow := { pr_source : string; pr_entry_datetime : Z; pr_json : value }.

(** The database as the relay uses it. *)
Record RelayDb := { rd_history : HistoryDb; rd_dump : DumpDb; rd_players : gmap (Z * Z) PlayerRow }.

Definition with_history (h : HistoryDb) (d : RelayDb) : RelayDb :=
  {| rd_history := h; rd_dump := rd_dump d; rd_players := rd_players d |}.

(** ** Readers *)

Definition normalize_history_for_recovery `{FloatText} (raw : value) : value :=
  let map_ := or_else (get "Map_Game" raw) (or_else (get "Map" raw) (get "map" raw)) ≫= as_str in
  set_field "map" (Str (default EmptyString map_)) (normalize_match_history_player raw).

Definition mark_recovered (v : value) : value := set_field "has_ret_msg" (Bool false) (set_field "source" (Str "recovered") v).

Definition buffer_values (data : value) : list value := match data with Array values => values | _ => [data] end.

Definition normalized_sources : list string :=
  ["prefetch"; "recovered"; "match_history"; "history_observation"; "legacy_prefetch"].

Definition already_normalized (raw : value) : bool :=
  bool_decide (is_Some (get "match_id" raw))
  && bool_decide (to_ascii_lowercase (default EmptyString (get "source" raw ≫= as_str)) ∈ normalized_sources).

Definition number_u (n : Z) : value := Number (NInt n).

(** The player a row tells of, if it is of this match. *)
Definition recovery_player `{FloatText} (raw : value) (match_id : Z) (fallback : option Z) : option (Z * value) :=
  let raw_match_id := player_number raw ["Match"; "match_id"; "MatchId"] in
  if negb (raw_match_id =? 0) && negb (raw_match_id =? match_id) then None
  else
    let player := if already_normalized raw then raw else normalize_match_history_player raw in
    let normalized_id := player_number player ["player_id"; "playerId"; "ActivePlayerId"; "Id"] in
    let id := if 0 <? normalized_id then normalized_id else default 0 fallback in
    if id =? 0 then None
    else Some (id, mark_recovered (set_field "player_id" (number_u id) (set_field "match_id" (number_u match_id) player))).

(** The first row of a player stays. *)
Definition insert_recovery_player `{FloatText} (players : gmap Z value) (raw : value) (match_id : Z) (fallback : option Z) :
    gmap Z value :=
  match recovery_player raw match_id fallback with
  | Some (id, player) => match players !! id with Some _ => players | None => <[id := player]> players end
  | None => players
  end.

(** ** The queries *)

Definition local_recovered_row (player_id match_id : Z) (d : RelayDb) : option value :=
  r ← rd_players d !! (match_id, player_id);
  if String.eqb (pr_source r) "recovered" then Some (pr_json r) else None.

(** The newest first. *)
Definition recovered_rows (match_id : Z) (d : RelayDb) : list value :=
  map (fun e => pr_json (snd e))
    (sort_by (fun a b => pr_entry_datetime (snd b) <=? pr_entry_datetime (snd a))
       (List.filter (fun e => (fst (fst e) =? match_id) && (0 <? snd (fst e)) && String.eqb (pr_source (snd e)) "recovered")
          (map_to_list (rd_players d)))).

(** The oldest first. *)
Definition buffered_rows (match_id : Z) (d : RelayDb) : list BufferRow :=
  map snd (sort_by (fun a b => rb_created_at (snd a) <=? rb_created_at (snd b))
    (List.filter (fun e =>
       let r := snd e in
       waiting r && bool_decide (rb_endpoint r ∈ history_endpoints)
       && bool_decide (rb_entity_type r ∈ ["match_history"; "prefetch_match"; "match"]%string)
       && match rb_entity_id r with
          | Some id => String.eqb id (pretty match_id) || String.prefix (pretty match_id +:+ ":") id
          | None => false
          end) (map_to_list (buffer (dd_buffer (rd_dump d)))))).

(** What follows the first colon of the entity, as a player. *)
Fixpoint after_colon (s : string) : option string :=
  match s with
  | String c r => if Ascii.eqb c ":" then Some r else after_colon r
  | EmptyString => None
  end.

Definition fallback_player (r : BufferRow) : option Z :=
  id ← rb_entity_id r; s ← after_colon id; parse_u64 s.

Definition gather_recovery_players `{FloatText} (match_id : Z) (recovered : list value) (entries : list HistoryEntry)
    (buffered : list BufferRow) : gmap Z value :=
  let players := foldl (fun m v => insert_recovery_player m v match_id None) ∅ recovered in
  let players := foldl (fun m e => insert_recovery_player m (he_normalized_data e) match_id (Some (he_player_id e))) players entries in
  foldl (fun m r => foldl (fun m v => insert_recovery_player m v match_id (fallback_player r)) m
                      (buffer_values (rb_raw_data r))) players buffered.

(** ** The provider *)

(** [ProfileStore::upsert]. *)
Class ProfileWrites (W : Type) := upsert_profile : PlayerProfile -> ST W (result unit string).

Section provider.
Context {W : Type} `{HistorySql W} `{ApiCaller W} `{ProfileWrites W} `{FloatText} `{VendorTimes}.

Abbreviation X := (RelayDb * W)%type.

Variables (ttl_hours : Z) (consumer_name : option string).

Definition consumer (fallback : string) : string := default fallback consumer_name.

Definition on_vendor {A} (f : ST W A) : ST X A := fun s => let '(a, w) := f (snd s) in (a, (fst s, w)).

Definition on_history {A} (f : ST (HistoryDb * W) A) : ST X A := fun s =>
  let '(a, (h, w)) := f (rd_history (fst s), snd s) in (a, (with_history h (fst s), w)).

(** A query of its own; its answer is of the instant it is asked at. *)
Definition live_query {A} (f : Z -> RelayDb -> A) : ST X (result A RelayError) := fun s =>
  let '(r, w) := history_query (snd s) in (map_err RelayUpstream (now <-! r; Ok (f now (fst s))), (fst s, w)).

(** A query of the history store and its errors. *)
Definition history_lookup {A} (f : Z -> HistoryDb -> A) : ST X (result A RelayError) := on_history (history_read f).

Definition local_recovered_player (player_id match_id : Z) : ST X (result (option value) RelayError) :=
  row <-? live_query (fun _ => local_recovered_row player_id match_id);
  mret (Ok (mark_recovered <$> row)).

Definition local_history_entry (player_id match_id : Z) : ST X (result (option value) RelayError) :=
  entries <-? history_lookup (fun now => read_match_entries now match_id [player_id]);
  mret (Ok ((fun e => mark_recovered (he_normalized_data e))
              <$> find_first (fun e => he_player_id e =? player_id) entries)).

Fixpoint persist_profiles (roster : list value) : ST X unit :=
  match roster with
  | [] => mret tt
  | raw :: roster =>
      _ ← (if match get "ret_msg" raw ≫= as_str with Some s => negb (is_empty (trim s)) | None => false end then mret (Ok tt)
           else let profile := normalize_player_profile raw in
                if (0 <? pp_player_id profile)%Z then on_vendor (upsert_profile profile) else mret (Ok tt));
      persist_profiles roster
  end.

Definition fetch_and_store_history (player_id : Z) : ST X (result (list value) RelayError) :=
  data <-? on_vendor (api_call "getmatchhistory" [pretty player_id] single_attempt (consumer "match_recovery"));
  let matches := history_values data in
  let normalized := map normalize_history_for_recovery matches in
  let entries := omap (fun e => history_entry player_id (fst e) (snd e) "getmatchhistory") (zip matches normalized) in
  _ <-? on_history (write_history ttl_hours player_id matches entries);
  mret (Ok normalized).

Definition lookup_match_history (player_id match_id : Z) : ST X (result (list value * Z) RelayError) :=
  if negb (player_id <=? i64_max)%Z then mret (Err (RelayValidation "player ID exceeds BIGINT"))
  else if negb (match_id <=? i64_max)%Z then mret (Err (RelayValidation "match ID exceeds BIGINT"))
  else
    recovered <-? local_recovered_player player_id match_id;
    match recovered with
    | Some player => mret (Ok ([player], 0))
    | None =>
        entry <-? local_history_entry player_id match_id;
        match entry with
        | Some player => mret (Ok ([player], 0))
        | None =>
            cached <-? history_lookup (fun now => read_recovery_cache now player_id match_id);
            match cached with
            | Some matches => mret (Ok (map (fun m => mark_recovered (normalize_history_for_recovery m)) matches, 0))
            | None =>
                rows <-? fetch_and_store_history player_id;
                mret (Ok (map mark_recovered rows, 1))
            end
        end
    end.

Definition live_details_batch (match_ids : list Z) : ST X (result (list MatchDetails) RelayError) :=
  raw <-? on_vendor (get_match_details_batch_once (map f64_of_Z match_ids) (consumer "match_ingestion"));
  mret (Ok (normalize_flat_match_detail_rows raw)).

Definition live_player_batch (match_id : Z) : ST X (result (list value) RelayError) :=
  roster <-? on_vendor (get_player_batch_from_match (f64_of_Z match_id) (consumer "match_recovery"));
  _ ← persist_profiles roster;
  mret (Ok roster).

Definition live_demo (match_id : Z) : ST X (result value RelayError) :=
  on_vendor (get_demo_details_once (f64_of_Z match_id) (consumer "match_recovery")).

(** The values of a hash map, in no order of note. *)
Definition get_local_recovery_players (match_id : Z) : ST X (result (list value) RelayError) :=
  if negb (match_id <=? i64_max)%Z then mret (Err (RelayValidation "match ID exceeds BIGINT"))
  else
    recovered <-? live_query (fun _ => recovered_rows match_id);
    entries <-? history_lookup (fun now => read_match_entries now match_id []);
    buffered <-? live_query (fun _ => buffered_rows match_id);
    mret (Ok (map snd (map_to_list (gather_recovery_players match_id recovered entries buffered)))).

Definition live_match_provider : CompletedMatchProvider X := {|
  provider_details_batch := live_details_batch;
  provider_player_batch := live_player_batch;
  provider_history := lookup_match_history;
  provider_demo := live_demo;
  provider_local_players := get_local_recovery_players;
|}.
End provider.

(** * What the running provider costs

    The calls a recovery reports are never fewer than those it made, and a
    batch of details costs a known number of requests. *)

(** ** Calls *)

(** One call costs one; the database and the profiles cost none. *)
Record vendor_meter {W} `{ApiCaller W} `{HistorySql W} `{ProfileWrites W} (cost : W -> Z) : Prop := {
  vm_call : forall method params options consumer w, cost (snd (api_call method params options consumer w)) = cost w + 1;
  vm_query : forall w, cost (snd (history_query w)) = cost w;
  vm_begin : forall w, cost (snd (history_begin w)) = cost w;
  vm_commit : forall w, cost (snd (history_commit w)) = cost w;
  vm_profile : forall p w, cost (snd (upsert_profile p w)) = cost w;
}.

Section calls.
Context {W : Type} `{HistorySql W} `{ApiCaller W} `{ProfileWrites W} `{FloatText} `{VendorTimes}.
Variables (ttl_hours : Z) (consumer_name : option string) (cost : W -> Z).
Hypothesis meter : vendor_meter cost.
Abbreviation X := (RelayDb * W)%type.

(** [f] makes [n] calls. *)
Definition makes {A} (n : Z) (f : ST X A) : Prop := forall s, cost (snd (snd (f s))) = cost (snd s) + n.

Lemma makes_ret {A} (a : A) : makes 0 (mret a).
Proof. intros s. cbn. lia. Qed.

Lemma makes_bind {A B} n m (f : ST X A) (k : A -> ST X B) :
  makes n f -> (forall a, makes m (k a)) -> makes (n + m) (a ← f; k a).
Proof.
  intros Hf Hk s. unfold mbind, ST_bind. specialize (Hf s). destruct (f s) as [a s1]. cbn in Hf. specialize (Hk a s1). lia.
Qed.

Lemma makes_try0 {A B E} (f : ST X (result A E)) (k : A -> ST X (result B E)) :
  makes 0 f -> (forall a, makes 0 (k a)) -> makes 0 (a <-? f; k a).
Proof.
  intros Hf Hk s. unfold try_bind. specialize (Hf s). destruct (f s) as [[a|e] s1]; cbn in *; [|lia].
  specialize (Hk a s1). lia.
Qed.

Lemma makes_try_ret {A B E} n (f : ST X (result A E)) (g : A -> result B E) : makes n f -> makes n (a <-? f; mret (g a)).
Proof. intros Hf s. unfold try_bind. specialize (Hf s). destruct (f s) as [[a|e] s1]; cbn in *; lia. Qed.

Lemma makes_live_query {A} (f : Z -> RelayDb -> A) : makes 0 (live_query f).
Proof. intros s. unfold live_query. pose proof (vm_query _ meter (snd s)) as Hq. destruct (history_query _). cbn in *. lia. Qed.

Lemma makes_history_lookup {A} (f : Z -> HistoryDb -> A) : makes 0 (history_lookup f).
Proof.
  intros [d w]. unfold history_lookup, on_history, history_read. cbn [fst snd]. pose proof (vm_query _ meter w) as Hq.
  destruct (history_query w). cbn in *. lia.
Qed.

Lemma makes_write p matches entries : makes 0 (on_history (write_history ttl_hours p matches entries)).
Proof.
  intros [d w]. unfold on_history, write_history. cbn [fst snd]. pose proof (vm_begin _ meter w) as Hb.
  destruct (history_begin w) as [[now|e] w1]; cbn in *; [|lia].
  destruct (write_history_statements _ _ _ _ _ _); cbn; [|lia].
  pose proof (vm_commit _ meter w1) as Hc. destruct (history_commit w1). cbn in *. lia.
Qed.

Lemma makes_call method params options c : makes 1 (on_vendor (api_call method params options c)).
Proof.
  intros [d w]. unfold on_vendor. cbn [fst snd]. pose proof (vm_call _ meter method params options c w). destruct (api_call _ _ _ _ _). done.
Qed.

Lemma makes_persist roster : makes 0 (persist_profiles roster).
Proof.
  induction roster as [|raw roster IH]; [apply makes_ret|]. cbn [persist_profiles]. apply (makes_bind 0 0); [|intros _; exact IH].
  repeat case_match; try apply makes_ret. all: intros [d w]; unfold on_vendor; cbn [fst snd];
    pose proof (vm_profile _ meter (normalize_player_profile raw) w); destruct (upsert_profile _ w); cbn in *; lia.
Qed.

Lemma makes_roster id : makes 1 (live_player_batch consumer_name id).
Proof.
  intros s. unfold live_player_batch, get_player_batch_from_match, array_call, try_bind, on_vendor.
  pose proof (makes_call "getplayerbatchfrommatch" [js_number_string (f64_of_Z id)] single_attempt
    (consumer consumer_name "match_recovery") s) as Hc.
  unfold on_vendor in Hc. destruct (api_call _ _ _ _ (snd s)) as [[data|e] w]; cbn in *; [|lia].
  unfold mbind, ST_bind. pose proof (makes_persist (value_array data) (fst s, w)) as Hp.
  destruct (persist_profiles _ _) as [[] s1]. cbn in *. lia.
Qed.

Lemma makes_demo id : makes 1 (live_demo consumer_name id).
Proof.
  intros s. unfold live_demo, on_vendor, get_demo_details_once, get_demo_details_with_options, try_bind.
  pose proof (makes_call "getdemodetails" [js_number_string (f64_of_Z id)] single_attempt
    (consumer consumer_name "match_recovery") s) as Hc.
  unfold on_vendor in Hc. by destruct (api_call _ _ _ _ (snd s)) as [[data|e] w].
Qed.

Lemma makes_local id : makes 0 (get_local_recovery_players id).
Proof.
  unfold get_local_recovery_players. case_match; [apply makes_ret|].
  apply makes_try0; [apply makes_live_query|intros recovered]. apply makes_try0; [apply makes_history_lookup|intros entries].
  apply makes_try0; [apply makes_live_query|intros buffered]. apply makes_ret.
Qed.

Lemma makes_fetch id : makes 1 (fetch_and_store_history ttl_hours consumer_name id).
Proof.
  intros s. unfold fetch_and_store_history, try_bind.
  pose proof (makes_call "getmatchhistory" [pretty id] single_attempt (consumer consumer_name "match_recovery") s) as Hc.
  destruct (on_vendor _ s) as [[data|e] s1]; cbn in *; [|lia].
  match goal with |- context [on_history (write_history ?a ?b ?c ?e) ?x] => pose proof (makes_write b c e x) as Hw end.
  destruct (on_history _ s1) as [[[]|e] s2]; cbn in *; lia.
Qed.

(** What is found in the database costs nothing, what is not costs a call; an
    error may come before the call or after it. *)
Lemma lookup_costs id target s :
  let '(r, s') := lookup_match_history ttl_hours consumer_name id target s in
  match r with
  | Ok (_, n) => 0 <= n <= 1 /\ cost (snd s') = cost (snd s) + n
  | Err _ => cost (snd s) <= cost (snd s') <= cost (snd s) + 1
  end.
Proof.
  unfold lookup_match_history. destruct (negb (id <=? i64_max)); [cbn; lia|]. destruct (negb (target <=? i64_max)); [cbn; lia|].
  unfold try_bind.
  assert (makes 0 (local_recovered_player id target)) as Hq1 by (apply makes_try_ret, makes_live_query).
  specialize (Hq1 s). destruct (local_recovered_player id target s) as [[[p|]|e] s1]; cbn in *; try lia.
  assert (makes 0 (local_history_entry id target)) as Hq2 by (apply makes_try_ret, makes_history_lookup).
  specialize (Hq2 s1). destruct (local_history_entry id target s1) as [[[p|]|e] s2]; cbn in *; try lia.
  pose proof (makes_history_lookup (fun now => read_recovery_cache now id target) s2) as Hq3.
  destruct (history_lookup _ s2) as [[[m|]|e] s3]; cbn in *; try lia.
  pose proof (makes_fetch id s3) as Hq4. destruct (fetch_and_store_history _ _ id s3) as [[rows|e] s4]; cbn in *; lia.
Qed.

Lemma live_metered :
  @metered_by X (live_match_provider ttl_hours consumer_name) at_most (fun s => cost (snd s)).
Proof.
  split.
  - intros id s. exact (makes_roster id s).
  - intros id s. exact (makes_demo id s).
  - intros id s. unfold exec. cbn. rewrite (makes_local id s). lia.
  - intros id target s rows n. unfold run, exec. cbn. pose proof (lookup_costs id target s) as Hl.
    destruct (lookup_match_history _ _ id target s) as [[[rows' n']|e] s']; [|done]. cbn in *. intros [= <- <-]. lia.
  - intros id target s e n c. unfold run, exec. cbn. pose proof (lookup_costs id target s) as Hl.
    destruct (lookup_match_history _ _ id target s) as [[[rows' n']|e'] s']; [done|]. cbn in *. intros _ Hc.
    unfold at_most, sat_add_u32, sat_add in *. lia.
Qed.

(** The running relay never hides a call: whatever the database answers or
    fails to answer, the number of calls a recovered, pending or limited ranked
    match reports is at least the number made for it, up to the width of the
    counter. *)
Theorem live_recovery_reports_calls request direct s r m :
  let provider := live_match_provider ttl_hours consumer_name in
  run (@recover_ranked X provider request direct) s = Ok r -> res_match r = Some m ->
  exists c, recovery_api_calls m = Some c /\
    Z.min u32_max (cost (snd (exec (@recover_ranked X provider request direct) s)) - cost (snd s)) <= c.
Proof.
  intros provider Hr Hm.
  exact (@recover_ranked_reports X provider at_most (fun s => cost (snd s)) counting_at_most live_metered request direct s r Hr m Hm).
Qed.
End calls.

(** ** Requests *)

Lemma chunks_length {A} n (l : list A) : (0 < n)%nat -> (n * length (chunks n l) < length l + n)%nat.
Proof.
  intros Hn. unfold chunks. assert (forall fuel, n * length (chunks_fuel fuel n l) < length l + n)%nat as H; [|apply H].
  intros fuel. revert l. induction fuel as [|fuel IH]; intros l; [simpl; lia|]. destruct l as [|x l]; [simpl; lia|].
  change (n * S (length (chunks_fuel fuel n (drop n (x :: l)))) < length (x :: l) + n)%nat. specialize (IH (drop n (x :: l))).
  rewrite length_drop in IH. cbn [length] in *. destruct (decide (n <= S (length l))%nat); [nia|].
  assert (drop n (x :: l) = []) as -> by (apply drop_ge; cbn; lia). destruct fuel; cbn; lia.
Qed.

Section requests.
Context {W : Type} `{Hformats : Formats} `{Hkeys : ApiKeyState W} `{Htransport : HttpTransport W}
  `{Haudit : SessionAudit W} `{Hclock : Clock W} `{Hwatch : Stopwatch W}
  `{Hsleeper : RetrySleeper W} `{Hmeter : !Metered W}.
Variables (base_url_arg : string) (ttl_ms : Z).
Abbreviation Client := (SessionState * W)%type.

(** At most [gets] requests, each charged to a key, and no sleep. *)
Definition wakeful {A} (gets : Z) (f : ST Client A) : Prop := forall s,
  let a := meter (snd s) in
  let b := meter (snd (snd (f s))) in
  0 <= m_gets b - m_gets a <= gets /\ m_charges b - m_charges a = m_gets b - m_gets a /\ m_sleeps b = m_sleeps a.

#[local] Instance the_caller : ApiCaller Client := hirez_caller base_url_arg ttl_ms.

Lemma wakeful_call method params consumer : wakeful (2 + selection_gets + sync_gets) (api_call method params single_attempt consumer).
Proof.
  intros [st w]. cbn zeta. cbn [api_call the_caller hirez_caller snd]. unfold mbind, ST_bind.
  pose proof (api_request_costs base_url_arg ttl_ms method params single_attempt consumer st w) as Hb. unfold exec in Hb.
  destruct (api_request _ _ _ _ _ _ (st, w)) as [r s']. cbn in *. lia.
Qed.

Lemma wakeful_chunks method consumer cs :
  wakeful ((2 + selection_gets + sync_gets) * Z.of_nat (length cs)) (chunked_calls method single_attempt consumer cs).
Proof.
  induction cs as [|c cs IH]; intros s; cbn [chunked_calls length]; [cbn; lia|]. unfold try_bind.
  pose proof (wakeful_call method [join "," c] consumer s) as Hc. cbn zeta in Hc.
  destruct (gets_nonneg (snd s)) as [? ?]. set (per := 2 + selection_gets + sync_gets) in *. rewrite Nat2Z.inj_succ.
  assert (0 <= per) by lia.
  destruct (api_call method [join "," c] single_attempt consumer s) as [[data|e] s1]; cbn [snd] in *; [|nia].
  specialize (IH s1). cbn zeta in IH. fold per in IH.
  destruct (chunked_calls method single_attempt consumer cs s1) as [[rest|e] s2]; cbn [snd mret ST_ret] in *; lia.
Qed.

(** A batch of details costs per ten matches begun at most two requests, one of
    them for a session, and those of the key state's probes, every one charged
    to a key, and never waits: its calls are not tried again. *)
Theorem details_batch_bounded match_ids consumer s :
  let a := meter (snd s) in
  let b := meter (snd (snd (get_match_details_batch_once match_ids consumer s))) in
  0 <= m_gets b - m_gets a <= (2 + selection_gets + sync_gets) * ((Z.of_nat (length match_ids) + 9) / 10) /\
  m_charges b - m_charges a = m_gets b - m_gets a /\ m_sleeps b = m_sleeps a.
Proof.
  cbn zeta. unfold get_match_details_batch_once, get_match_details_batch.
  set (cs := chunks MATCH_BATCH_SIZE (map js_number_string match_ids)).
  pose proof (wakeful_chunks "getmatchdetailsbatch" consumer cs s) as Hw. cbn zeta in Hw.
  pose proof (chunks_length MATCH_BATCH_SIZE (map js_number_string match_ids) ltac:(unfold MATCH_BATCH_SIZE; lia)) as Hl.
  fold cs in Hl. rewrite length_map in Hl. unfold MATCH_BATCH_SIZE in Hl.
  assert (Z.of_nat (length cs) <= (Z.of_nat (length match_ids) + 9) / 10) as Hd by (apply Z.div_le_lower_bound; lia).
  destruct (gets_nonneg (snd s)) as [? ?]. set (per := 2 + selection_gets + sync_gets) in *. assert (0 <= per) by lia. nia.
Qed.
End requests.
