(* ===== verification/RealDispatch.v ===== *)
(** * The dispatch of the relay (src/hirez-relay-rust/src/real_dispatch.rs)

    One arm per operation of the contract: it reads its arguments, runs the
    component that answers, and cleans what it answers.  The components are
    interfaces here. *)

From Stdlib Require Import SpecFloat.
From S2P Require Import Prelude Json HirezClient Model Resolver F64 JsValue Contract Operations.
From S2P Require Import HistoryStore RawDump.

(** ** Arguments *)

Definition argument_error (index : nat) (what : string) : RelayError :=
  RelayValidation ("argument " +:+ pretty (Z.of_nat index) +:+ " must " +:+ what).

Definition required {A} (index : nat) (what : string) (v : option A) : result A RelayError :=
  match v with Some x => Ok x | None => Err (argument_error index what) end.

Definition number_arg (args : list value) (index : nat) : result f64 RelayError :=
  required index "be a finite number" (js_number_arg (args !! index)).

Definition optional_number_arg (args : list value) (index : nat) : option f64 := js_number_arg (args !! index).

Definition optional_bool_arg (args : list value) (index : nat) : option bool := args !! index ≫= as_bool.

Definition text_arg (args : list value) (index : nat) : result string RelayError :=
  required index "be a string" (args !! index ≫= as_str).

Definition array_at (args : list value) (index : nat) : option (list value) := args !! index ≫= as_array.

(** What is not a number is passed over; so is what is not a text. *)
Definition numbers_of (l : list value) : list f64 := omap js_coerced l.
Definition texts_of (l : list value) : list string := omap as_str l.

Definition number_array_arg (args : list value) (index : nat) : result (list f64) RelayError :=
  required index "be an array" (numbers_of <$> array_at args index).

Definition positive_of (index : nat) (x : f64) : result Z RelayError :=
  required index "contain positive integers"
    (if flt fzero x && feq (fract x) fzero && fle x (f64_of_Z u64_max) then Some (f64_u64 x) else None).

Definition positive_integer_array_arg (args : list value) (index : nat) : result (list Z) RelayError :=
  numbers <-! number_array_arg args index; try_map (positive_of index) numbers.

Definition text_array_arg (args : list value) (index : nat) : result (list string) RelayError :=
  required index "be an array" (texts_of <$> array_at args index).

(** The text JavaScript makes of what it takes for true. *)
Fixpoint js_entity_id (v : value) : option string :=
  match v with
  | Null | Bool false => None
  | Bool true => Some "true"
  | Number n => if match number_f64 n with Some x => feq x fzero | None => false end
                then None else Some (number_to_string n)
  | Str s => if is_empty s then None else Some s
  | Array [] => None
  | Array values => Some (join "," (map (fun x => default EmptyString (js_entity_id x)) values))
  | Object _ => Some "[object Object]"
  end%string.

Definition raw_payload (payload : value) : result RawPayload RelayError :=
  match payload with
  | Object m =>
      let text k := default EmptyString (lookup_field k m ≫= as_str) in
      Ok {| pl_endpoint := text "endpoint"; pl_entity_type := text "entity_type";
            pl_entity_id := lookup_field "entity_id" m ≫= js_entity_id;
            pl_raw_data := default (Object []) (lookup_field "raw_data" m) |}%string
  | _ => Err (RelayValidation "raw payload must be an object")
  end.

Definition raw_payloads_arg (args : list value) (index : nat) : result (list RawPayload) RelayError :=
  payloads <-! required index "be an array" (array_at args index); try_map raw_payload payloads.

(** ** Answers *)

(** The names of the members are cleaned too: two may become one. *)
Fixpoint sanitize_json_strings (v : value) : value :=
  match v with
  | Str s => Str (sanitize_text s)
  | Array l => Array (map sanitize_json_strings l)
  | Object m => Object (foldl (fun m e => insert_field (fst e) (snd e) m) []
                          (map (fun e => (sanitize_text (fst e), sanitize_json_strings (snd e))) m))
  | _ => v
  end.

Inductive RelayDispatchResult :=
  | Json (v : value)
  | CompletedMatches (l : list CompletedMatchResolution).

Definition numbers_value (l : list Z) : value := Array (map (fun n => Number (NInt n)) l).

Definition observation_value (o : MatchIdObservation) : value := Object [
  ("matchId", Number (NInt (ob_match_id o)));
  ("entryDatetime", match ob_entry_datetime o with Some s => Str s | None => Null end);
  ("region", Str (ob_region o)); ("activeFlag", Bool (ob_active_flag o))]%string.

(** ** The components *)

Class HistoryService (W : Type) := match_history : f64 -> f64 -> bool -> string -> ST W (result (list value) RelayError).

(** [LiveMatchProvider::attributed]. *)
Class Attributed (W : Type) := attributed : string -> CompletedMatchProvider W.

(** The key pool with its probe, the raw buffer and the counters of the
    provider that is not used. *)
Class RelayParts (W : Type) := {
  get_data_used : string -> ST W (option (result value string));
  sync_api_key_usage : string -> ST W unit;
  reload_key_pool : ST W (result unit string);
  api_key_status : ST W value;
  dump_payloads : list RawPayload -> ST W (result Z string);
  reset_dummy_counts : ST W unit;
  dummy_counts : ST W value;
}.

Section dispatch.
Context {W : Type} `{ApiCaller W} `{PlayerNameLookup W} `{HistoryService W} `{Attributed W} `{RelayParts W}.

(** What an arm does once it has its arguments. *)
Abbreviation Arm := (ST W (result RelayDispatchResult RelayError)).

Definition json (f : ST W (result value RelayError)) : Arm :=
  v <-? f; mret (Ok (Json (sanitize_json_strings v))).

Definition json_array (f : ST W (result (list value) RelayError)) : Arm := json (l <-? f; mret (Ok (Array l))).

Definition plain (f : ST W value) : Arm := json (v ← f; mret (Ok v)).

Definition first_argument (args : list value) : result value RelayError :=
  match args !! O with Some v => Ok v | None => Err (RelayValidation "requests are required") end.

Definition details_batch_arm (args : list value) (consumer : string) : result Arm RelayError :=
  v <-! first_argument args;
  requests <-! parse_completed_match_requests v;
  Ok (resolved <-? @Resolver.get_match_details_batch W (attributed consumer) requests; mret (Ok (CompletedMatches resolved))).

Definition resume_arm (args : list value) (consumer : string) : result Arm RelayError :=
  v <-! first_argument args;
  requests <-! parse_completed_match_requests v;
  match requests with
  | [] => Err (RelayValidation "exactly one recovery request is required")
  | request :: _ =>
      Ok (resolved <-? @Resolver.resume_match_recovery W (attributed consumer) request; mret (Ok (CompletedMatches [resolved])))
  end.

Definition number_call (call : f64 -> string -> ST W (result value RelayError)) (args : list value) (consumer : string) :
    result Arm RelayError :=
  n <-! number_arg args 0; Ok (json (call n consumer)).

Definition number_array_call (call : f64 -> string -> ST W (result (list value) RelayError)) (args : list value)
    (consumer : string) : result Arm RelayError :=
  n <-! number_arg args 0; Ok (json_array (call n consumer)).

Definition text_call (call : string -> string -> ST W (result (list value) RelayError)) (args : list value)
    (consumer : string) : result Arm RelayError :=
  s <-! text_arg args 0; Ok (json_array (call s consumer)).

Definition number_text_call (call : f64 -> string -> string -> ST W (result (list value) RelayError)) (args : list value)
    (consumer : string) : result Arm RelayError :=
  n <-! number_arg args 0; s <-! text_arg args 1; Ok (json_array (call n s consumer)).

Definition queue_call (call : f64 -> string -> f64 -> string -> ST W (result value RelayError)) (args : list value)
    (consumer : string) : result Arm RelayError :=
  queue <-! number_arg args 0; date <-! text_arg args 1; hour <-! number_arg args 2;
  Ok (json (call queue date hour consumer)).

Definition acknowledged : Arm := mret (Ok (Json (Bool true))).

Definition arm (name : string) (f : list value -> string -> result Arm RelayError) :
    string * (list value -> string -> result Arm RelayError) := (name, f).

(** The match over the names, as the list of its arms: the name, and what the
    arm makes of the arguments and the consumer. *)
Definition arms : list (string * (list value -> string -> result Arm RelayError)) := [
  arm "getMatchDetailsBatch" details_batch_arm;
  arm "resumeMatchRecovery" resume_arm;
  arm "getDataUsed" (fun args _ =>
      dev_id <-! text_arg args 0;
      Ok (plain (used ← get_data_used dev_id;
                 mret (match used with Some (Ok v) => v | _ => Object [] end))));
  arm "syncApiKeyUsage" (fun args _ =>
      dev_id <-! text_arg args 0; Ok (plain (_ ← sync_api_key_usage dev_id; mret (Bool true))));
  arm "getMatchIdsByQueue" (queue_call (fun queue date hour consumer =>
      ids <-? get_match_ids_by_queue queue date hour consumer; mret (Ok (numbers_value ids))));
  arm "getMatchIdsByQueueDetails" (queue_call (fun queue date hour consumer =>
      rows <-? get_match_ids_by_queue_details queue date hour consumer;
      mret (Ok (Array (map observation_value rows)))));
  arm "getMatchDetailsBatchRaw" (fun args consumer =>
      ids <-! number_array_arg args 0; Ok (json_array (get_match_details_batch_raw ids consumer)));
  arm "getMatchDetailsRaw" (number_array_call get_match_details_raw);
  arm "getPlayerChampions" (number_call get_player_champions);
  arm "getChampionRanks" (number_call get_champion_ranks);
  arm "getChampions" (fun _ consumer => Ok (json_array (get_champions consumer)));
  arm "getItems" (fun _ consumer => Ok (json_array (get_items consumer)));
  arm "getEsportsProLeagueDetails" (fun _ consumer => Ok (json_array (get_esports_pro_league_details consumer)));
  arm "getPlayerLoadouts" (number_call get_player_loadouts);
  arm "getPlayerStatus" (number_array_call get_player_status);
  arm "getMatchPlayerDetails" (number_array_call get_match_player_details);
  arm "getLeagueLeaderboard" (fun args consumer =>
      queue <-! number_arg args 0; tier <-! number_arg args 1; season <-! number_arg args 2;
      Ok (json (get_league_leaderboard queue tier season consumer)));
  arm "getLeagueSeasons" (number_call get_league_seasons);
  arm "getPlayerBatchFromMatch" (number_array_call get_player_batch_from_match);
  arm "getDemoDetails" (number_call get_demo_details);
  arm "getPlayerBatch" (fun args consumer =>
      ids <-! number_array_arg args 0; Ok (json_array (get_player_batch ids false consumer)));
  arm "getPlayerBatchLookup" (fun args consumer =>
      ids <-! positive_integer_array_arg args 0; Ok (json_array (get_player_batch_lookup ids consumer)));
  arm "getMatchHistory" (fun args consumer =>
      player <-! number_arg args 0;
      Ok (json_array (match_history player (default (f64_of_Z 50) (optional_number_arg args 1))
                        (default false (optional_bool_arg args 2)) consumer)));
  arm "getPlayers" (fun args consumer => names <-! text_array_arg args 0; Ok (json_array (get_players names consumer)));
  arm "getPlayerIdByName" (text_call get_player_id_by_name);
  arm "searchPlayers" (text_call search_players);
  arm "getPlayerIdsByGamerTag" (number_text_call get_player_ids_by_gamer_tag);
  arm "getPlayerIdByPortalUserId" (number_text_call get_player_id_by_portal_user_id);
  arm "getMatchLeaderboard" (fun args consumer =>
      tier <-! number_arg args 0; season <-! number_arg args 1; Ok (json_array (get_match_leaderboard tier season consumer)));
  arm "dumpRawPayloads" (fun args _ =>
      payloads <-! raw_payloads_arg args 0;
      Ok (json (n ← dump_payloads payloads; mret (map_err RelayUpstream (n <-! n; Ok (Number (NInt n)))))));
  arm "resetDummyApiCallCounts" (fun _ _ => Ok (plain (_ ← reset_dummy_counts; dummy_counts)));
  arm "getDummyApiCallCounts" (fun _ _ => Ok (plain dummy_counts));
  arm "reloadApiKeyPool" (fun _ _ =>
      Ok (json (r ← reload_key_pool; mret (map_err RelayUpstream (_ <-! r; Ok (Bool true))))));
  arm "callRawEndpoint" (fun args consumer =>
      method <-! text_arg args 0;
      let params := default [] (texts_of <$> array_at args 1) in
      Ok (json (api_call method params default_options consumer)));
  arm "getApiKeyStatus" (fun _ _ => Ok (plain api_key_status));
  arm "cleanupFetchedPlayersCache" (fun _ _ => Ok acknowledged);
  arm "clearMatchHistoryCache" (fun _ _ => Ok acknowledged)]%string.

Definition operation_arm (operation : string) (args : list value) (consumer : string) : option (result Arm RelayError) :=
  found ← find_first (fun a => String.eqb (fst a) operation) arms; Some (snd found args consumer).

Definition dispatch (operation : string) (args : list value) (consumer : string) : Arm :=
  match validate_operation operation args "real" with
  | Err e => mret (Err e)
  | Ok _ =>
      match operation_arm operation args consumer with
      | Some (Ok arm) => arm
      | Some (Err e) => mret (Err e)
      | None => mret (Err (RelayUnsupported ("Unsupported HirezRelay operation: " +:+ operation)))
      end
  end.
End dispatch.

(** * The gate and the arms of the relay

    What the contract accepts, every arm can read but for two rules narrower
    than the contract's; what is refused touches nothing; every answer is
    storable. *)

(** ** What a rule promises *)

Lemma try_map_is_ok {A B E} (f : A -> result B E) l : is_ok (try_map f l) = forallb (fun x => is_ok (f x)) l.
Proof. induction l as [|x l IH]; simpl; [done|]. rewrite <- IH. destruct (f x); simpl; [|done]. by destruct (try_map f l). Qed.

Lemma check_Ok b m : check b m = Ok () <-> b = true.
Proof. by destruct b. Qed.

Lemma is_some_and_Some {A} (p : A -> bool) v : is_some_and p v = true <-> exists x, v = Some x /\ p x = true.
Proof. destruct v; simpl; split; [eauto|by intros (? & [= ->] & ?)|done|by intros (? & ? & _)]. Qed.

Lemma required_ok {A} i w (v : option A) : is_ok (required i w v) = bool_decide (is_Some v).
Proof. by destruct v. Qed.

(** The requests as the arms read them, but for their queues. *)
Definition request_readable (request : value) : bool :=
  match request with Object m => bool_decide (is_Some (positive_integer (lookup_field "matchId" m))) | _ => false end.

(** What the arms read of an argument, by the kind of its rule. *)
Definition readable (args : list value) (r : RelayValidationRule) : Prop :=
  let i := rule_index r in
  match rule_kind r with
  | KFiniteNumber => is_ok (number_arg args i) = true
  | KNonEmptyString => is_ok (text_arg args i) = true
  | KFiniteNumberArray => is_ok (number_array_arg args i) = true
  | KNonEmptyStringArray => is_ok (text_array_arg args i) = true
  | KRawPayloadArray => is_ok (raw_payloads_arg args i) = true
  | KCompletedMatchRequests =>
      exists l, args !! i = Some (Array l) /\ forallb request_readable l = true /\
                default 0 (rule_min_items r) <= Z.of_nat (length l)
  | _ => True
  end.

Lemma validate_payloads_readable label i l :
  validate_payloads label i l = Ok () -> forallb (fun x => is_ok (raw_payload x)) l = true.
Proof.
  revert i. induction l as [|x l IH]; intros i; simpl; [done|]. destruct x; try done.
  intros (? & _ & (? & _ & (? & _ & H)%rbind_Ok)%rbind_Ok)%rbind_Ok. simpl. by eapply IH.
Qed.

Lemma validate_requests_readable label i seen l :
  validate_requests label i seen l = Ok () -> forallb request_readable l = true.
Proof.
  revert i seen. induction l as [|x l IH]; intros i seen; simpl; [done|]. destruct x; try done. simpl.
  destruct (positive_integer (lookup_field "matchId" fields)) eqn:E; [|done]. do 2 (case_match; [done|]).
  intros Hr. simpl. by eapply IH.
Qed.

Lemma as_array_Some v l : as_array v = Some l -> v = Array l.
Proof. destruct v; naive_solver. Qed.

Lemma rule_readable args r : validate_rule args r = Ok () -> rule_optional r = false -> readable args r.
Proof.
  intros Hr Ho. unfold validate_rule in Hr. rewrite Ho in Hr. cbn [andb] in Hr. unfold readable.
  destruct (rule_kind r); try done.
  - unfold validate_completed_match_requests in Hr. destruct (args !! rule_index r) as [v|] eqn:Ev; [|done]. simpl in Hr.
    destruct (as_array v) as [l|] eqn:El; [|done]. apply as_array_Some in El as ->. case_match eqn:E; [done|].
    exists l. split_and!; [done|by eapply validate_requests_readable|]. bool_props. lia.
  - apply check_Ok, is_some_and_Some in Hr as (v & Hv & Hf). unfold number_arg, js_number_arg. rewrite required_ok, Hv. exact Hf.
  - apply check_Ok, is_some_and_Some in Hr as (l & Hl & _). unfold number_array_arg, array_at. by rewrite Hl.
  - apply check_Ok, is_some_and_Some in Hr as (v & Hv & Hf). unfold text_arg. rewrite Hv. unfold nonblank in Hf. simpl.
    by destruct (as_str v).
  - apply check_Ok, is_some_and_Some in Hr as (l & Hl & _). unfold text_array_arg, array_at. by rewrite Hl.
  - unfold validate_raw_payload_array in Hr. unfold raw_payloads_arg, array_at. destruct (_ ≫= _) as [l|]; [|done]. simpl.
    rewrite try_map_is_ok. by eapply validate_payloads_readable.
Qed.

Lemma validate_rules_Forall args l : validate_rules args l = Ok () <-> Forall (fun r => validate_rule args r = Ok ()) l.
Proof.
  induction l as [|r l IH]; simpl; [by split|]. rewrite rbind_Ok, Forall_cons, <- IH.
  split; [by intros ([] & ? & ?)|]. intros [? ?]. by exists ().
Qed.

Lemma validated_definition name args mode d :
  validate_operation name args mode = Ok d ->
  d ∈ operations manifest /\ op_name d = name /\ mode ∈ op_modes d /\
  Forall (fun r => rule_optional r = false -> readable args r) (rules (op_validation d)).
Proof.
  unfold validate_operation. destruct (operation_definition name) as [d'|] eqn:E; [|done].
  apply find_first_Some in E as [Hin Hn%String.eqb_eq]. case_match eqn:Em; [done|]. case_match; [done|].
  intros ([] & Hr & [= <-])%rbind_Ok. split_and!; [|done| |].
  - apply list_elem_of_In, in_rev, list_elem_of_In, Hin.
  - apply negb_false_iff, bool_decide_eq_true in Em. done.
  - apply validate_rules_Forall in Hr. eapply Forall_impl; [exact Hr|]. intros r H1 H2. by apply rule_readable.
Qed.

(** ** What the arms ask beyond the contract *)

(** A queue that fits the 32 bits of a request. *)
Definition queue_fits (request : value) : bool :=
  match get "queueId" request with
  | None => true
  | Some q => bool_decide (is_Some (positive_integer (Some q) ≫= in_range 0 u32_max))
  end.

Definition whole_and_positive (x : f64) : bool := is_ok (positive_of 0 x).

Definition arms_accept (operation : string) (args : list value) : bool :=
  if bool_decide (operation ∈ ["getMatchDetailsBatch"; "resumeMatchRecovery"]%string)
  then is_some_and (forallb queue_fits) (array_at args 0)
  else if String.eqb operation "getPlayerBatchLookup"
  then is_some_and (fun l => forallb whole_and_positive (numbers_of l)) (array_at args 0)
  else true.

Lemma parse_request_ok x : request_readable x = true -> is_ok (parse_completed_match_request x) = queue_fits x.
Proof.
  destruct x; try done. cbn [request_readable parse_completed_match_request queue_fits get].
  intros [id E]%bool_decide_eq_true. rewrite E. unfold queue_fits. cbn [get]. destruct (lookup_field "queueId" fields); [|done].
  by destruct (_ ≫= _).
Qed.

Lemma parse_requests_ok l :
  forallb request_readable l = true -> is_ok (parse_completed_match_requests (Array l)) = forallb queue_fits l.
Proof.
  intros Hl. cbn [parse_completed_match_requests as_array]. rewrite try_map_is_ok.
  induction l as [|x l IH]; [done|]. apply andb_true_iff in Hl as [Hx Hl]. cbn [forallb]. by rewrite parse_request_ok, IH.
Qed.

Section arms.
Context {W : Type} `{ApiCaller W} `{PlayerNameLookup W} `{HistoryService W} `{Attributed W} `{RelayParts W}.

Abbreviation Arm := (ST W (result RelayDispatchResult RelayError)).

(** An error of the argument readers is the caller's. *)
Definition callers {A} (r : result A RelayError) : Prop := forall e, r = Err e -> exists m, e = RelayValidation m.

Lemma callers_bind {A B} (r : result A RelayError) (k : A -> result B RelayError) :
  callers r -> (forall x, callers (k x)) -> callers (rbind r k).
Proof. intros Hr Hk e. destruct r; simpl; [apply Hk|]. intros [= <-]. by apply Hr. Qed.

Lemma callers_required {A} i w (v : option A) : callers (required i w v).
Proof. intros e. destruct v; [done|]. intros [= <-]. eauto. Qed.

Lemma callers_try_map {A B} (f : A -> result B RelayError) l : (forall x, callers (f x)) -> callers (try_map f l).
Proof. intros Hf. induction l as [|x l IH]; [done|]. repeat (apply callers_bind; [done|intros ?]). done. Qed.

Lemma callers_request x : callers (parse_completed_match_request x).
Proof. intros e. unfold parse_completed_match_request. repeat case_match; intros [= <-]; eauto. Qed.

Lemma callers_requests v : callers (parse_completed_match_requests v).
Proof.
  unfold parse_completed_match_requests. case_match; [apply callers_try_map, callers_request|]. intros e [= <-]. eauto.
Qed.

Lemma batch_arm_ok args consumer l :
  args !! O = Some (Array l) -> forallb request_readable l = true ->
  is_ok (details_batch_arm args consumer) = is_some_and (forallb queue_fits) (array_at args 0).
Proof.
  intros Ha Hl. unfold details_batch_arm, first_argument, array_at. rewrite Ha. cbn [rbind mbind option_bind as_array is_some_and].
  rewrite <- parse_requests_ok by done. by destruct (parse_completed_match_requests _).
Qed.

Lemma resume_arm_ok args consumer l :
  args !! O = Some (Array l) -> forallb request_readable l = true -> 1 <= Z.of_nat (length l) ->
  is_ok (resume_arm args consumer) = is_some_and (forallb queue_fits) (array_at args 0).
Proof.
  intros Ha Hl Hn. unfold resume_arm, first_argument, array_at. rewrite Ha. cbn [rbind mbind option_bind as_array is_some_and].
  rewrite <- parse_requests_ok by done. destruct (parse_completed_match_requests _) as [[|r rs]|] eqn:E; [|done..]. exfalso.
  cbn [parse_completed_match_requests as_array] in E. apply try_map_Ok, Forall2_length in E. simpl in E. lia.
Qed.

Lemma lookup_arm_ok args consumer :
  is_ok (number_array_arg args 0) = true ->
  is_ok (ids <-! positive_integer_array_arg args 0; Ok (json_array (get_player_batch_lookup ids consumer)))
  = is_some_and (fun l => forallb whole_and_positive (numbers_of l)) (array_at args 0).
Proof.
  unfold positive_integer_array_arg, number_array_arg. destruct (array_at args 0) as [l|]; [|done]. intros _.
  cbn [fmap option_fmap option_map required rbind is_some_and]. unfold whole_and_positive. rewrite <- try_map_is_ok.
  by destruct (try_map _ _).
Qed.

Ltac callers_ := repeat first
  [apply callers_bind; [|intros ?] | apply callers_required | apply callers_requests | apply callers_try_map; intros ?].

Lemma callers_raw_payload x : callers (raw_payload x).
Proof. intros e. destruct x; intros [= <-]; eauto. Qed.

Lemma callers_first args : callers (first_argument args).
Proof. intros e. unfold first_argument. destruct (args !! O); [done|]. intros [= <-]. eauto. Qed.

Lemma callers_resume args consumer : callers (resume_arm args consumer).
Proof.
  unfold resume_arm. apply callers_bind; [apply callers_first|intros v]. apply callers_bind; [apply callers_requests|].
  intros [|r rs] e; [|done]. intros [= <-]. eauto.
Qed.

Lemma arms_callers : Forall (fun a => forall args consumer, callers (snd a args consumer)) arms.
Proof.
  unfold arms, arm. repeat constructor; intros args consumer; cbn [snd];
    try apply callers_resume; unfold details_batch_arm, number_call, number_array_call, text_call, number_text_call, queue_call;
    unfold positive_integer_array_arg, raw_payloads_arg; callers_;
    try (apply callers_first || apply callers_raw_payload); intros e; try done; apply callers_required.
Qed.

(** Every arm the contract lists, on arguments its rules take. *)
Ltac read_arm Hr :=
  cbn [operation no_args op_name op_validation rules rule optional_rule requests_rule] in Hr |- *;
  unfold operation_arm, arms_accept;
  repeat match type of Hr with
  | Forall _ (_ :: _) =>
      let H := fresh "Hread" in apply Forall_cons in Hr as [H Hr]; cbn in H;
      first [specialize (H eq_refl) | clear H]
  end; clear Hr;
  eexists; split; [reflexivity|]; cbn [snd arm];
  unfold number_call, number_array_call, text_call, number_text_call, queue_call.

Ltac dummy_only Hm := exfalso; cbn in Hm; apply elem_of_cons in Hm as [Hm|Hm]; [discriminate|by apply elem_of_nil in Hm].

Lemma arms_read d args consumer :
  d ∈ operations manifest -> "real"%string ∈ op_modes d ->
  Forall (fun r => rule_optional r = false -> readable args r) (rules (op_validation d)) ->
  exists r, operation_arm (op_name d) args consumer = Some r /\ is_ok r = arms_accept (op_name d) args.
Proof.
  intros Hd Hm Hr. cbn [manifest operations] in Hd.
  repeat (apply elem_of_cons in Hd as [-> | Hd]; [first [dummy_only Hm | read_arm Hr]|]); [..|by apply elem_of_nil in Hd].
  all: try match goal with |- is_ok (details_batch_arm _ _) = _ =>
    destruct Hread as (l & Ha & Hl & _); by erewrite batch_arm_ok end.
  all: try match goal with |- is_ok (resume_arm _ _) = _ =>
    destruct Hread as (l & Ha & Hl & Hn); by erewrite resume_arm_ok end.
  all: try match goal with |- is_ok (rbind (positive_integer_array_arg _ _) _) = _ => by apply lookup_arm_ok end.
  all: repeat match goal with H : is_ok ?r = true |- _ => destruct r; [clear H|discriminate H] end; reflexivity.
Qed.

(** ** Answers are storable *)

Lemma insert_field_storable k v m :
  free_of_nul k = true -> json_storable v = true -> json_storable (Object m) = true ->
  json_storable (Object (insert_field k v m)) = true.
Proof.
  intros Hk Hv. cbn [json_storable]. induction m as [|[k' v'] m IH]; cbn [insert_field forallb fst snd]; intros Hm.
  - by rewrite Hk, Hv.
  - apply andb_true_iff in Hm as [Hm1 Hm2]. apply andb_true_iff in Hm1 as [Hk' Hv'].
    case_match; cbn [forallb fst snd]; rewrite ?Hk', ?Hv, ?Hv'; [done|]. by apply IH.
Qed.

Lemma fields_storable l m :
  Forall (fun e => free_of_nul (fst e) = true /\ json_storable (snd e) = true) l -> json_storable (Object m) = true ->
  json_storable (Object (foldl (fun m e => insert_field (fst e) (snd e) m) m l)) = true.
Proof.
  revert m. induction l as [|[k v] l IH]; intros m Hl Hm; [done|]. apply Forall_cons in Hl as [[Hk Hv] Hl].
  apply IH; [done|]. by apply insert_field_storable.
Qed.

Lemma sanitized_strings_storable v : json_storable (sanitize_json_strings v) = true.
Proof.
  revert v. fix IH 1. intros [| | |s|l|m]; try reflexivity.
  - apply sanitize_text_free.
  - cbn [sanitize_json_strings json_storable]. induction l as [|x l IHl]; cbn [map forallb]; [reflexivity|]. by rewrite IH, IHl.
  - cbn [sanitize_json_strings]. apply fields_storable; [|reflexivity].
    induction m as [|[k x] m IHm]; cbn [map]; constructor; [|exact IHm]. split; [apply sanitize_text_free|apply IH].
Qed.

Definition clean_arm (arm : Arm) : Prop := forall w v w', arm w = (Ok (Json v), w') -> json_storable v = true.

Lemma clean_json (f : ST W (result value RelayError)) : clean_arm (json f).
Proof.
  intros w v w'. unfold json, try_bind. destruct (f w) as [[x|e] w1]; [|done]. intros [= <- _]. apply sanitized_strings_storable.
Qed.

Lemma clean_matches {A} (f : ST W (result A RelayError)) (g : A -> list CompletedMatchResolution) :
  clean_arm (x <-? f; mret (Ok (CompletedMatches (g x)))).
Proof. intros w v w'. unfold try_bind. by destruct (f w) as [[x|e] w1]. Qed.

Definition clean_reader (r : result Arm RelayError) : Prop := forall arm, r = Ok arm -> clean_arm arm.

Lemma clean_bind {A} (r : result A RelayError) (k : A -> result Arm RelayError) :
  (forall x, clean_reader (k x)) -> clean_reader (rbind r k).
Proof. intros Hk a0 Ha. apply rbind_Ok in Ha as (x & _ & Ha). by eapply Hk. Qed.

Lemma clean_ok arm : clean_arm arm -> clean_reader (Ok arm).
Proof. by intros Ha a [= <-]. Qed.

Lemma arms_clean : Forall (fun a => forall args consumer, clean_reader (snd a args consumer)) arms.
Proof.
  unfold arms, arm. repeat constructor; intros args consumer; cbn [snd];
    unfold details_batch_arm, resume_arm, number_call, number_array_call, text_call, number_text_call, queue_call;
    repeat (apply clean_bind; intros ?); try (apply clean_ok; apply clean_json || by intros w v w' [= <- _]).
  - apply clean_ok. exact (clean_matches _ (fun l => l)).
  - case_match; [done|]. apply clean_ok. exact (clean_matches _ (fun m => [m])).
Qed.

Lemma operation_arm_in operation args consumer r :
  operation_arm operation args consumer = Some r -> exists a, a ∈ arms /\ r = snd a args consumer.
Proof. unfold operation_arm. intros (a & [Ha _]%find_first_Some & [= <-])%bind_Some. by exists a. Qed.

(** Every JSON the dispatch answers fits a JSON column of the database: no
    text in it holds a NUL, the names of its members included. *)
Theorem dispatch_answers_storable operation args consumer w v w' :
  dispatch operation args consumer w = (Ok (Json v), w') -> json_storable v = true.
Proof.
  unfold dispatch. destruct (validate_operation _ _ _) as [d|]; [|done]. destruct (operation_arm _ _ _) as [r|] eqn:E; [|done].
  apply operation_arm_in in E as (a & Ha & ->). pose proof (arms_clean) as Hc. rewrite Forall_forall in Hc.
  specialize (Hc a Ha args consumer). destruct (snd a args consumer) as [arm|e]; [|done]. by apply Hc.
Qed.

(** ** The gate *)

Lemma callers_check b m : callers (check b m).
Proof. intros e. destruct b; [done|]. intros [= <-]. eauto. Qed.

Lemma callers_validate_requests label i seen l : callers (validate_requests label i seen l).
Proof.
  revert i seen. induction l as [|x l IH]; intros i seen; [done|]. cbn [validate_requests]. repeat case_match; try apply IH;
    intros e [= <-]; eauto.
Qed.

Lemma callers_validate_payloads label i l : callers (validate_payloads label i l).
Proof.
  revert i. induction l as [|x l IH]; intros i; [done|]. cbn [validate_payloads].
  destruct x; try (intros e [= <-]; by eauto). repeat (apply callers_bind; [apply callers_check|intros _]). apply IH.
Qed.

Lemma callers_rule args r : callers (validate_rule args r).
Proof.
  unfold validate_rule. case_match; [done|]. destruct (rule_kind r); try apply callers_check.
  - unfold validate_completed_match_requests. repeat case_match; try apply callers_validate_requests; intros e [= <-]; eauto.
  - unfold validate_raw_payload_array. case_match; [apply callers_validate_payloads|]. intros e [= <-]. eauto.
Qed.

Lemma callers_rules args l : callers (validate_rules args l).
Proof. induction l as [|r l IH]; [done|]. apply callers_bind; [apply callers_rule|]. intros _. exact IH. Qed.

Lemma callers_validate operation args mode : callers (validate_operation operation args mode).
Proof.
  unfold validate_operation. repeat case_match; try (intros e [= <-]; by eauto).
  apply callers_bind; [apply callers_rules|done].
Qed.

(** C29. What the gate refuses, and what an arm cannot read, is the caller's
    error and touches nothing; and an arm reads everything the contract takes
    but the queues beyond 32 bits of a match request and the players of a
    lookup that are not positive whole numbers. *)
Theorem dispatch_gate operation args consumer w :
  match validate_operation operation args "real" with
  | Err e => dispatch operation args consumer w = (Err e, w) /\ status_code e = 400
  | Ok _ =>
      if arms_accept operation args
      then exists arm, operation_arm operation args consumer = Some (Ok arm) /\ dispatch operation args consumer w = arm w
      else exists e, dispatch operation args consumer w = (Err e, w) /\ status_code e = 400
  end.
Proof.
  pose proof (callers_validate operation args "real") as Hv. unfold dispatch.
  destruct (validate_operation operation args "real") as [d|e] eqn:E; [|by destruct (Hv e eq_refl) as [m ->]].
  apply validated_definition in E as (Hd & <- & Hm & Hr).
  destruct (arms_read d args consumer Hd Hm Hr) as (r & Er & Hok). rewrite Er, <- Hok.
  destruct r as [arm|e]; cbn [is_ok]; [by eexists|]. apply operation_arm_in in Er as (a & Ha & Ea).
  pose proof arms_callers as Hc. rewrite Forall_forall in Hc. destruct (Hc a Ha args consumer e (eq_sym Ea)) as [m ->]. by eexists.
Qed.
End arms.
