(* ===== verification/RelayDouble.v ===== *)
(** * A relay in memory

    A provider that answers with one history, a clock of a minute a statement
    and a database that answers, with the witnesses run on them. *)

From Stdlib Require Import SpecFloat.
From S2P Require Import Prelude Json F64 JsValue Upstream Session SessionSpec HirezClient HirezClientSpec Model Resolver ResolverBatch Normalizer NormalizerSpec Profile.
From S2P Require Import Contract Operations HistoryStore Lifecycle RawBuffer RawBufferSpec RawDump LiveProvider RealDispatch.

Record relay_world := { rw_clock : Z; rw_calls : Z; rw_answer : value }.

Definition ticked (w : relay_world) : relay_world :=
  {| rw_clock := rw_clock w + 60000000; rw_calls := rw_calls w; rw_answer := rw_answer w |}.

#[export] Instance double_floats : FloatText := f64_display.
#[export] Instance double_times : VendorTimes := {| vendor_rfc3339 := fun _ => None; vendor_datetime := fun _ => None |}.

#[export] Instance double_caller : ApiCaller relay_world := {|
  api_call := fun _ _ _ _ w =>
    (Ok (rw_answer w), {| rw_clock := rw_clock w; rw_calls := rw_calls w + 1; rw_answer := rw_answer w |});
|}.

#[export] Instance double_history : HistorySql relay_world := {|
  history_begin := fun w => (Ok (rw_clock (ticked w)), ticked w);
  history_commit := fun w => (Committed, w);
  history_query := fun w => (Ok (rw_clock (ticked w)), ticked w);
|}.

#[export] Instance double_profiles : ProfileWrites relay_world := fun _ w => (Ok (), w).
#[export] Instance double_names : PlayerNameLookup relay_world := fun _ w => (Ok None, w).

#[export] Instance double_service : HistoryService relay_world := fun _ _ _ _ w => (Ok [], w).

#[export] Instance double_attributed : Attributed relay_world := fun _ => {|
  provider_details_batch := fun _ w => (Ok [], w);
  provider_player_batch := fun _ w => (Ok [], w);
  provider_history := fun _ _ w => (Ok ([], 0), w);
  provider_demo := fun _ w => (Ok Null, w);
  provider_local_players := fun _ w => (Ok [], w);
|}.

#[export] Instance double_parts : RelayParts relay_world := {|
  get_data_used := fun _ w => (None, w);
  sync_api_key_usage := fun _ w => (tt, w);
  reload_key_pool := fun w => (Ok (), w);
  api_key_status := fun w => (Array [], w);
  dump_payloads := fun l w => (Ok (Z.of_nat (length l)), w);
  reset_dummy_counts := fun w => (tt, w);
  dummy_counts := fun w => (Object [], w);
|}.

Definition world (answer : value) : relay_world := {| rw_clock := 0; rw_calls := 0; rw_answer := answer |}.

(** ** The dispatch *)

Definition nul_text (a b : string) : string := a +:+ String nul b.

Definition dirty : value := Array [Object [(nul_text "na" "me", Str (nul_text "x" "y")); ("name", Null)]%string].

Example dispatched_clean :
  fst (dispatch "getItems" [] "web" (world dirty)) = Ok (Json (Array [Object [("name", Null)]%string])).
Proof. vm_compute. reflexivity. Qed.

Lemma dispatch_answers_storable_witness :
  exists v w', dispatch "getItems" [] "web" (world dirty) = (Ok (Json v), w') /\ json_storable v = true.
Proof.
  destruct (dispatch "getItems" [] "web" (world dirty)) as [[[v|l]|e] w'] eqn:E.
  - exists v, w'. split; [reflexivity|]. exact (dispatch_answers_storable _ _ _ _ _ _ E).
  - vm_compute in E. discriminate E.
  - vm_compute in E. discriminate E.
Defined.

(** The gate at work: a lookup of players that are not whole numbers, and a
    queue that is too large. *)
Example gate_at_work :
  map (fun e : string * list value => match fst (dispatch (fst e) (snd e) "web" (world Null)) with
                 | Ok _ => "ok"%string | Err e => relay_error_to_string e end)
    [("getPlayerBatchLookup", [Array [Str "1.5"]]);
     ("getMatchDetailsBatch", [Array [Object [("matchId", Number (NInt 7)); ("queueId", Number (NInt 4294967296))]]]);
     ("getPlayerBatch", [Array [Str "1.5"]]); ("setDummyMatchScenario", []); ("getChampions", [])]
  = ["argument 0 must contain positive integers"; "invalid requests"; "ok";
     "Unsupported HirezRelay operation: setDummyMatchScenario"; "ok"]%string.
Proof. vm_compute. reflexivity. Qed.

(** ** Histories *)

Definition no_history : HistoryDb := {| hs_cache := ∅; hs_entries := ∅ |}.

Definition played (id player : Z) : value :=
  Object [("Match", Number (NInt id)); ("playerId", Number (NInt player)); ("Kills", Number (NInt 9))]%string.

Definition one_history : list value := [played 501 7; played 502 7].

Lemma history_reads_back_witness :
  exists d', write_history_statements 1000 24 7 one_history (entries_of 7 one_history "getmatchhistory") no_history = Ok d' /\
    read_fresh_public_cache 2000 7 1440 d' = Some one_history /\ read_recovery_cache 2000 7 502 d' = Some one_history /\
    read_recovery_cache 2000 7 503 d' = None /\
    exists e, e ∈ read_match_entries 2000 501 [7] d' /\ entry_key e = (501, 7).
Proof.
  destruct (write_history_statements 1000 24 7 one_history (entries_of 7 one_history "getmatchhistory") no_history) as [d'|e] eqn:E.
  2: { vm_compute in E. discriminate E. }
  exists d'. destruct (history_reads_back 1000 24 7 one_history _ no_history d' (map_Forall_empty _) E) as (H1 & H2 & H3 & _).
  split; [reflexivity|]. split; [rewrite H1; vm_compute; reflexivity|].
  split; [rewrite H2; vm_compute; reflexivity|]. split; [rewrite H2; vm_compute; reflexivity|].
  destruct (entries_of 7 one_history "getmatchhistory") as [|e es] eqn:Ee; [vm_compute in Ee; discriminate Ee|].
  assert (entry_key e = (501, 7)) as Hk by (vm_compute in Ee; injection Ee as <- _; reflexivity).
  injection Hk as Hm Hp. destruct (H3 2000 e (list_elem_of_here _ _)) as (e' & He' & Hk'); [vm_compute; reflexivity|].
  exists e'. rewrite Hm, Hp in He'. split; [exact He'|]. rewrite Hk'. unfold entry_key. by rewrite Hm, Hp.
Defined.

Definition stored_one : HistoryDb :=
  {| hs_cache := {[7 := {| ch_raw_data := Array one_history; ch_match_ids := [501; 502]; ch_fetched_at := 0;
                           ch_expires_at := hours_of 24; ch_source := PLAYER_HISTORY_CACHE_SOURCE |}]};
     hs_entries := ∅ |}.

Lemma double_steady : steady rw_clock rw_calls 60000000.
Proof.
  split.
  - intros w. exists (rw_clock (ticked w)), (ticked w). cbn. split_and!; try done; lia.
  - intros w. exists (rw_clock (ticked w)), (ticked w). cbn. split_and!; try done; lia.
  - intros w. by exists w.
Qed.

Lemma one_history_settled : settled 7 one_history.
Proof.
  split; [done|vm_compute; reflexivity|vm_compute; reflexivity|].
  apply Forall_forall. intros e He.
  assert (forallb (fun e => entry_fits (sanitized_entry e)) (entries_of 7 one_history "cache_backfill") = true) as Hall
    by (vm_compute; reflexivity).
  rewrite forallb_forall in Hall. by apply Hall, list_elem_of_In.
Qed.

(** A thousand polls a minute apart, of a history that is good for a day. *)
Lemma polled_history_never_fetched_witness :
  let polls := replicate 1000 (f64_of_Z 1, "web"%string) in
  let '(answers, (_, w)) := poll_all 24 1440 (f64_of_Z 7) polls (stored_one, world (Array [])) in
  answers = map (fun p => Ok (take (normalize_limit (fst p)) (map normalize_match_history_player one_history))) polls /\
  rw_calls w = 0.
Proof.
  intros polls.
  pose proof (polled_history_never_fetched 24 1440 rw_clock rw_calls 60000000 double_steady
    ltac:(vm_compute; discriminate) ltac:(vm_compute; reflexivity) (f64_of_Z 7) one_history polls
    (stored_one, world (Array [])) one_history_settled) as H.
  destruct (poll_all 24 1440 (f64_of_Z 7) polls (stored_one, world (Array []))) as [answers [d w]].
  destruct H as (Ha & Hc & _); [|split; [exact Ha|exact Hc]].
  eexists. split; [apply lookup_insert_eq|]. split; [reflexivity|]. split; reflexivity.
Defined.

(** ** The level *)

Lemma player_level_thresholds_witness :
  calculate_player_level (f64_of_Z 39999) = Some 1 /\ calculate_player_level (f64_of_Z 40000) = Some 2 /\
  calculate_player_level (f64_of_Z 27480000) = Some 52 /\
  exists l, calculate_player_level (f64_of_Z 39999) = Some l /\ 1 <= l <= 49.
Proof.
  split; [vm_compute; reflexivity|]. split; [vm_compute; reflexivity|].
  split.
  - destruct (player_level_thresholds (f64_of_Z 27480000) (f64_of_Z 0) ltac:(vm_compute; reflexivity) ltac:(vm_compute; reflexivity))
      as (_ & H & _). rewrite H by (vm_compute; discriminate). vm_compute. reflexivity.
  - destruct (player_level_thresholds (f64_of_Z 39999) (f64_of_Z 0) ltac:(vm_compute; reflexivity) ltac:(vm_compute; reflexivity))
      as (H & _). destruct H as (l & E & Hl & _); [vm_compute; reflexivity|]. exists l. split; [exact E|exact Hl].
Defined.

(** ** Requests *)

Lemma details_batch_bounded_witness :
  let ids := map f64_of_Z (map Z.of_nat (seq 1 11)) in
  let s := fresh_script [ok_response "approved"; ok_response "match"] in
  let b := meter (snd (snd (@get_match_details_batch_once _ (hirez_caller "https://example.invalid/" 840000) ids "x" s))) in
  m_gets b - m_gets (meter (snd s)) <= 4 /\ m_sleeps b = 0.
Proof.
  intros ids s b.
  destruct (details_batch_bounded "https://example.invalid/" 840000 ids "x" s) as [[_ H1] [_ H2]].
  split; [exact H1|exact H2].
Defined.

(** ** A recovery *)

Definition no_dump : DumpDb :=
  {| dd_buffer := {| buffer := ∅; buffer_ledger := ∅; ranked_matches := ∅ |}; dd_next_id := 1; dd_matches := {[20]};
     dd_players := ∅ |}.

Definition empty_db : RelayDb := {| rd_history := no_history; rd_dump := no_dump; rd_players := ∅ |}.

Definition roster_row (id : Z) : value :=
  Object [("Match", Number (NInt 777)); ("playerId", Number (NInt id)); ("TaskForce", Number (NInt (1 + id / 6)))]%string.

Definition roster_world : relay_world := world (Array (map roster_row (nine ++ [10]))).

Lemma double_meter : vendor_meter rw_calls.
Proof. by split. Qed.

Lemma live_recovery_reports_calls_witness :
  exists r m c, run (@recover_ranked _ (live_match_provider 24 None) (ask (Some 486)) (Some (sample_match 486 nine)))
                  (empty_db, roster_world) = Ok r /\
    res_match r = Some m /\ recovery_api_calls m = Some c /\ 2 <= c.
Proof.
  destruct (run (@recover_ranked _ (live_match_provider 24 None) (ask (Some 486)) (Some (sample_match 486 nine)))
              (empty_db, roster_world)) as [r|e] eqn:E; [|vm_compute in E; discriminate E].
  destruct (res_match r) as [m|] eqn:Em.
  - destruct (live_recovery_reports_calls 24 None rw_calls double_meter (ask (Some 486)) (Some (sample_match 486 nine))
      (empty_db, roster_world) r m E Em) as (c & Hc & Hle).
    exists r, m, c. split; [reflexivity|]. split; [exact Em|]. split; [exact Hc|].
    etransitivity; [|exact Hle]. vm_compute. discriminate.
  - vm_compute in E. injection E as <-. discriminate Em.
Defined.

(** ** A dump *)

#[export] Instance double_dump : DumpSql relay_world := {|
  dump_connection := fun s => (Ok (), s);
  dump_query := fun s => (Ok (), s);
  dump_begin := fun s => (Ok 5000, s);
  dump_commit := fun w => (Committed, w);
|}.

Lemma double_others : others_move.
Proof. split; intros s Hs; (split; [reflexivity|exact Hs]). Qed.

Definition payload (entity_type : string) (id : option string) : RawPayload :=
  {| pl_endpoint := "getmatchdetailsbatch"; pl_entity_type := entity_type; pl_entity_id := id; pl_raw_data := Array [] |}.

Definition payloads : list RawPayload :=
  [payload "match" (Some "10"); payload "match" (Some "20"); payload "match" (Some "10");
   payload "player" (Some "7"); payload "player" (Some "7")]%string.

Lemma no_dump_fresh : fresh_ids no_dump.
Proof. intros id _. apply lookup_empty. Qed.

Lemma dump_is_a_run_witness :
  reach no_dump (fst (snd (dump_raw_payloads payloads (no_dump, world Null)))).
Proof. exact (proj1 (dump_is_a_run double_others payloads (no_dump, world Null) no_dump_fresh)). Defined.

