(* ===== verification/IdentityScore.v ===== *)
(** * Evidence for a private identity
      (src/backend-rust/src/workers/private_identity.rs)

    Two observations of private players are compared field by field; what
    speaks for one person adds points, what cannot be one person is a hard
    conflict.  A candidate identity is scored by its observations, and the
    best candidate is taken when it is good enough and far enough ahead. *)

From Stdlib Require Import SpecFloat.
From S2P Require Import Prelude F64.

Definition PRIVATE_IDENTITY_VERSION : Z := 3.
Definition PRIVATE_IDENTITY_LINK_THRESHOLD : Z := 68.
Definition PRIVATE_IDENTITY_MARGIN : Z := 12.

(** Instants are microseconds, as the database gives them. *)
Record PrivateObservation := {
  ob_match_id : Z; ob_private_slot : Z; ob_entry_datetime : Z; ob_party_id : Z; ob_account_level : Z;
  ob_mastery_level : Z; ob_league_tier : Z; ob_league_points : Z; ob_champion_id : Z; ob_task_force : Z;
  ob_win_status : string; ob_portal_id : Z; ob_portal_user_id : string; ob_platform : string; ob_source : string;
  ob_party_member_ids : list Z; ob_queue_id : option Z; ob_stats_scope : string; ob_map : string;
  ob_match_end_datetime : option Z; ob_observation_quality : string;
}.

Record IdentityScore := { is_score : Z; is_reasons : list string; is_hard_conflict : bool }.

Definition has_private_identity_evidence (o : PrivateObservation) : bool :=
  (0 <? ob_account_level o) || (0 <? ob_mastery_level o) || (0 <? ob_league_tier o) || (0 <? ob_league_points o)
  || (0 <? ob_party_id o) || (0 <? ob_champion_id o) || (0 <? ob_portal_id o) || negb (is_empty (ob_portal_user_id o))
  || match ob_party_member_ids o with [] => false | _ => true end.

Definition normalized_outcome (v : string) : option string :=
  let v := to_ascii_lowercase (trim v) in
  if String.eqb v "winner" || String.eqb v "win" then Some "win"%string
  else if String.eqb v "loser" || String.eqb v "loss" then Some "loss"%string
  else None.

(** ** The comparison

    What one test adds: points, reasons, a conflict. *)
Definition nothing : IdentityScore := {| is_score := 0; is_reasons := []; is_hard_conflict := false |}.
Definition points (n : Z) (reason : string) : IdentityScore :=
  {| is_score := n; is_reasons := [reason]; is_hard_conflict := false |}.
Definition conflict (reason : string) : IdentityScore :=
  {| is_score := 0; is_reasons := [reason]; is_hard_conflict := true |}.
Definition and_then (a b : IdentityScore) : IdentityScore :=
  {| is_score := is_score a + is_score b; is_reasons := is_reasons a ++ is_reasons b;
     is_hard_conflict := is_hard_conflict a || is_hard_conflict b |}.

Definition same_positive (a b : Z) : bool := (0 <? a) && (a =? b).

Section comparison.
Variables incoming existing : PrivateObservation.

(** Of two at one instant the stored one is the earlier. *)
Definition earlier : PrivateObservation :=
  if ob_entry_datetime existing <=? ob_entry_datetime incoming then existing else incoming.
Definition later : PrivateObservation :=
  if ob_entry_datetime existing <=? ob_entry_datetime incoming then incoming else existing.

(** Whole seconds, in hours. *)
Definition hours : f64 :=
  fdiv (f64_of_Z (Z.abs (Z.quot (ob_entry_datetime incoming - ob_entry_datetime existing) 1000000))) (f64_of_Z 3600).
Definition within (limit : Z) : bool := fle hours (f64_of_Z limit).

Definition portal_user_evidence : IdentityScore :=
  if negb (is_empty (ob_portal_user_id incoming)) && negb (is_empty (ob_portal_user_id existing)) then
    if negb (String.eqb (ob_portal_user_id incoming) (ob_portal_user_id existing)) then conflict "portal_user_conflict"
    else if (ob_portal_id incoming =? 0) || (ob_portal_id existing =? 0) || (ob_portal_id incoming =? ob_portal_id existing)
    then points 100 "portal_user_exact"
    else nothing
  else nothing.

Definition portal_evidence : IdentityScore :=
  if (0 <? ob_portal_id incoming) && (0 <? ob_portal_id existing) && negb (ob_portal_id incoming =? ob_portal_id existing)
  then conflict "portal_conflict" else nothing.

Definition account_evidence : IdentityScore :=
  if (0 <? ob_account_level earlier) && (0 <? ob_account_level later) then
    if 1 <? ob_account_level earlier - ob_account_level later then conflict "account_level_regression"
    else if ob_account_level incoming =? ob_account_level existing then
      if 999 <=? ob_account_level incoming then points 8 "account_level_cap_exact" else points 18 "account_level_exact"
    else if (ob_account_level earlier <=? ob_account_level later) && (ob_account_level later - ob_account_level earlier <=? 2)
    then points 12 "account_level_progression"
    else nothing
  else nothing.

Definition same_champion : bool := same_positive (ob_champion_id incoming) (ob_champion_id existing).

Definition mastery_evidence : IdentityScore :=
  if (0 <? ob_mastery_level earlier) && (0 <? ob_mastery_level later) then
    if 2 <? ob_mastery_level earlier - ob_mastery_level later then conflict "mastery_regression"
    else if ob_mastery_level incoming =? ob_mastery_level existing then points 14 "mastery_exact"
    else if (ob_mastery_level earlier <=? ob_mastery_level later) && (ob_mastery_level later - ob_mastery_level earlier <=? 2)
    then points 8 "mastery_progression"
    else nothing
  else nothing.

Definition champion_evidence : IdentityScore :=
  if same_champion then and_then (points 3 "champion_exact") mastery_evidence else nothing.

Definition same_tier : bool := same_positive (ob_league_tier incoming) (ob_league_tier existing).

Definition tier_evidence : IdentityScore := if same_tier then points 10 "league_tier_exact" else nothing.

(** The points after a match against its outcome; the flag says whether they
    fit. *)
Definition tp_evidence : IdentityScore * bool :=
  if same_tier && (0 <=? ob_league_points incoming) && (0 <=? ob_league_points existing) then
    let point_difference := Z.abs (ob_league_points incoming - ob_league_points existing) in
    let point_delta := ob_league_points later - ob_league_points earlier in
    let earlier_outcome := normalized_outcome (ob_win_status earlier) in
    let word := default EmptyString earlier_outcome in
    let direction_matches :=
      match earlier_outcome with
      | Some outcome => if String.eqb outcome "win" then 0 <=? point_delta else point_delta <=? 0
      | None => false
      end in
    if point_difference =? 0 then (points 5 "tp_stable", true)
    else if direction_matches && (point_difference <=? 25) then (points 10 ("tp_" +:+ word +:+ "_progression"), true)
    else if direction_matches && (point_difference <=? 50) then (points 7 ("tp_" +:+ word +:+ "_extended_progression"), true)
    else if direction_matches then (points 4 ("tp_" +:+ word +:+ "_large_progression"), true)
    else if match earlier_outcome with None => point_difference <=? 25 | Some _ => false end
    then (points 3 "tp_near_without_outcome", true)
    else (points 0 "tp_progression_uncertain", false)
  else (nothing, false).

Definition same_platform : bool :=
  negb (is_empty (ob_platform incoming)) && String.eqb (ob_platform incoming) (ob_platform existing).

Definition platform_evidence : IdentityScore := if same_platform then points 4 "platform_exact" else nothing.

Definition companions : Z :=
  Z.of_nat (length (List.filter (fun id => bool_decide (id ∈ ob_party_member_ids existing)) (ob_party_member_ids incoming))).

Definition companion_evidence : IdentityScore :=
  if 0 <? companions
  then points (50 + Z.min 12 (default 32767 (in_range (-32768) 32767 ((companions - 1) * 6))))
              ("party_companion_overlap:" +:+ pretty companions)
  else nothing.

Definition same_party : bool := same_positive (ob_party_id incoming) (ob_party_id existing).
Definition same_account_level : bool := same_positive (ob_account_level incoming) (ob_account_level existing).

Definition party_evidence : IdentityScore :=
  if same_party then
    if within 12 then
      and_then (points 20 "party_session_exact")
        (if snd tp_evidence && same_account_level && same_tier then points 8 "ranked_session_progression" else nothing)
    else points 3 "party_id_context_only"
  else nothing.

Definition time_evidence : IdentityScore :=
  if within 12 then points 5 "time_within_12h" else if within 168 then points 2 "time_within_7d" else nothing.

Definition casual_bundle : bool :=
  within 12 && (0 <? ob_account_level incoming) && (ob_account_level incoming <? 999)
  && (ob_account_level incoming =? ob_account_level existing) && same_champion
  && same_positive (ob_mastery_level incoming) (ob_mastery_level existing) && same_platform
  && negb (String.eqb (ob_stats_scope incoming) "ranked") && negb (String.eqb (ob_stats_scope existing) "ranked").

Definition bundle_evidence : IdentityScore :=
  if casual_bundle then points 25 "casual_progression_bundle" else nothing.

(** All tests, before the score is cut. *)
Definition evidence : IdentityScore :=
  foldr and_then nothing
    [portal_user_evidence; portal_evidence; account_evidence; champion_evidence; tier_evidence; fst tp_evidence;
     platform_evidence; companion_evidence; party_evidence; time_evidence; bundle_evidence].

Definition score_private_identity : IdentityScore :=
  if ob_match_id incoming =? ob_match_id existing then conflict "same_match_conflict"
  else {| is_score := if is_hard_conflict evidence then 0 else Z.min 100 (is_score evidence);
          is_reasons := is_reasons evidence; is_hard_conflict := is_hard_conflict evidence |}.
End comparison.

(** ** A candidate

    Its observations come in the order of their instants. *)
Definition not_after (o : PrivateObservation) (c : PrivateObservation) : bool :=
  ob_entry_datetime c <=? ob_entry_datetime o.

Definition before (o : PrivateObservation) (observations : list PrivateObservation) : option PrivateObservation :=
  find_first (not_after o) (rev observations).
Definition after (o : PrivateObservation) (observations : list PrivateObservation) : option PrivateObservation :=
  find_first (fun c => negb (not_after o c)) observations.

(** The last of the best. *)
Definition better_score (best : option IdentityScore) (s : IdentityScore) : option IdentityScore :=
  match best with
  | Some b => if is_score s <? is_score b then Some b else Some s
  | None => Some s
  end.
Definition best_score (scores : list IdentityScore) : option IdentityScore := foldl better_score None scores.

Definition compatible (s : IdentityScore) : bool := negb (is_hard_conflict s).

Definition score_candidate (incoming : PrivateObservation) (observations : list PrivateObservation) : IdentityScore :=
  let neighbours := omap id [before incoming observations; after incoming observations] in
  match find_first is_hard_conflict (map (score_private_identity incoming) neighbours) with
  | Some incompatible => incompatible
  | None =>
      default nothing (best_score (List.filter compatible (map (score_private_identity incoming) observations)))
  end.

(** ** The choice among candidates *)

Definition Candidate : Type := Z * IdentityScore.

(** Best first, the lower id first among equals. *)
Definition le_candidate (a b : Candidate) : bool :=
  (is_score (snd b) <? is_score (snd a)) || ((is_score (snd a) =? is_score (snd b)) && (fst a <=? fst b)).

Definition rank_candidates (incoming : PrivateObservation) (grouped : list (Z * list PrivateObservation)) : list Candidate :=
  sort_by le_candidate
    (List.filter (fun c => compatible (snd c)) (map (fun g => (fst g, score_candidate incoming (snd g))) grouped)).

Definition has_threshold (ranked : list Candidate) : bool :=
  match ranked with best :: _ => PRIVATE_IDENTITY_LINK_THRESHOLD <=? is_score (snd best) | [] => false end.
Definition has_margin (ranked : list Candidate) : bool :=
  match ranked with
  | best :: runner :: _ => PRIVATE_IDENTITY_MARGIN <=? is_score (snd best) - is_score (snd runner)
  | [_] => true
  | [] => false
  end.

(** ** Properties *)

(** The signs that can carry a link: the portal's user, a companion of the
    party, the party itself within twelve hours, the bundle of a casual day. *)
Definition same_portal_user (incoming existing : PrivateObservation) : bool :=
  negb (is_empty (ob_portal_user_id incoming)) && String.eqb (ob_portal_user_id incoming) (ob_portal_user_id existing).
Definition strong_sign (incoming existing : PrivateObservation) : bool :=
  same_portal_user incoming existing || (0 <? companions incoming existing)
  || (same_party incoming existing && within incoming existing 12) || casual_bundle incoming existing.

Section bounds.
Variables incoming existing : PrivateObservation.

Lemma score_and_then a b : is_score (and_then a b) = is_score a + is_score b.
Proof. done. Qed.

Lemma portal_user_points :
  let e := portal_user_evidence incoming existing in
  0 <= is_score e <= 100 /\ (same_portal_user incoming existing = false -> is_score e = 0).
Proof.
  unfold portal_user_evidence, same_portal_user.
  destruct (is_empty (ob_portal_user_id incoming)); cbn; [split; [lia|done]|].
  destruct (String.eqb (ob_portal_user_id incoming) (ob_portal_user_id existing)) eqn:E; cbn; repeat case_match; cbn; split; try lia; done.
Qed.

Lemma portal_points : is_score (portal_evidence incoming existing) = 0.
Proof. unfold portal_evidence. by case_match. Qed.

Lemma account_points : 0 <= is_score (account_evidence incoming existing) <= 18.
Proof. unfold account_evidence. repeat case_match; cbn; lia. Qed.

Lemma champion_points : 0 <= is_score (champion_evidence incoming existing) <= 17.
Proof. unfold champion_evidence, mastery_evidence. repeat case_match; cbn; lia. Qed.

Lemma tier_points : 0 <= is_score (tier_evidence incoming existing) <= 10.
Proof. unfold tier_evidence. case_match; cbn; lia. Qed.

Lemma tp_points : 0 <= is_score (fst (tp_evidence incoming existing)) <= 10.
Proof. unfold tp_evidence. destruct (_ && _ && _); [|cbn; lia]. cbv zeta. repeat (case_match; try (cbn; lia)). Qed.

Lemma platform_points : 0 <= is_score (platform_evidence incoming existing) <= 4.
Proof. unfold platform_evidence. case_match; cbn; lia. Qed.

Lemma companion_points :
  let e := companion_evidence incoming existing in
  0 <= is_score e <= 62 /\ ((0 <? companions incoming existing) = false -> is_score e = 0).
Proof.
  unfold companion_evidence. destruct (Z.ltb_spec 0 (companions incoming existing)) as [Hc|Hc]; cbn [is_score points nothing]; [|split; [lia|done]].
  split; [|done]. destruct (in_range _ _ _) as [z|] eqn:E; cbn; [|lia].
  apply in_range_Some in E as [-> ?]. lia.
Qed.

Lemma party_points :
  let e := party_evidence incoming existing in
  0 <= is_score e <= 28 /\ (same_party incoming existing && within incoming existing 12 = false -> is_score e <= 3).
Proof.
  unfold party_evidence. destruct (same_party _ _); cbn; [|lia]. destruct (within _ _ 12); cbn; [|lia]. split; [|done].
  case_match; cbn; lia.
Qed.

Lemma time_points : 0 <= is_score (time_evidence incoming existing) <= 5.
Proof. unfold time_evidence. repeat case_match; cbn; lia. Qed.

Lemma bundle_points :
  let e := bundle_evidence incoming existing in
  0 <= is_score e <= 25 /\ (casual_bundle incoming existing = false -> is_score e = 0).
Proof. unfold bundle_evidence. case_match; cbn; split; try lia; done. Qed.

Lemma evidence_points :
  0 <= is_score (evidence incoming existing) <= 279 /\
  (strong_sign incoming existing = false -> is_score (evidence incoming existing) <= 67).
Proof.
  pose proof portal_user_points as [? Hu]. pose proof portal_points. pose proof account_points. pose proof champion_points.
  pose proof tier_points. pose proof tp_points. pose proof platform_points. pose proof companion_points as [? Hc].
  pose proof party_points as [? Hp]. pose proof time_points. pose proof bundle_points as [? Hb].
  unfold evidence. cbn [foldr]. rewrite !score_and_then. cbn [is_score nothing]. split; [lia|].
  unfold strong_sign. intros Hs. apply orb_false_iff in Hs as [Hs E4]. apply orb_false_iff in Hs as [Hs E3].
  apply orb_false_iff in Hs as [E1 E2]. specialize (Hu E1). specialize (Hc E2). specialize (Hp E3). specialize (Hb E4). lia.
Qed.

Lemma strong_at_threshold :
  let s := score_private_identity incoming existing in
  PRIVATE_IDENTITY_LINK_THRESHOLD <= is_score s -> ob_match_id incoming <> ob_match_id existing /\ strong_sign incoming existing = true.
Proof.
  pose proof evidence_points as [He Hw]. unfold score_private_identity, PRIVATE_IDENTITY_LINK_THRESHOLD.
  destruct (Z.eqb_spec (ob_match_id incoming) (ob_match_id existing)) as [|Hm]; cbn [is_score is_hard_conflict conflict]; [lia|].
  destruct (is_hard_conflict (evidence incoming existing)); [lia|]. intros Ht. split; [done|].
  destruct (strong_sign incoming existing); [done|]. specialize (Hw eq_refl). lia.
Qed.

(** C39. The weak signs together never carry a link: a score at the threshold
    has a strong one (without them the points come to 67 at most, one short of
    it).  Scores are from 0 to 100, 0 on a conflict, and the sum before the cut
    stays far within its sixteen bits. *)
Theorem link_needs_strong_sign :
  let s := score_private_identity incoming existing in
  0 <= is_score s <= 100 /\ (is_hard_conflict s = true -> is_score s = 0) /\
  0 <= is_score (evidence incoming existing) <= 32767 /\
  (PRIVATE_IDENTITY_LINK_THRESHOLD <= is_score s ->
     ob_match_id incoming <> ob_match_id existing /\ strong_sign incoming existing = true).
Proof.
  pose proof evidence_points as [He _]. cbv zeta. split; [|split; [|split; [lia|apply strong_at_threshold]]];
    unfold score_private_identity; destruct (_ =? _); cbn [is_score is_hard_conflict conflict]; try lia;
    destruct (is_hard_conflict (evidence incoming existing)); try done; lia.
Qed.
End bounds.

(** *** Symmetry *)

Lemma Zabs_minus_comm x y : Z.abs (x - y) = Z.abs (y - x).
Proof. rewrite <- Z.abs_opp. f_equal. lia. Qed.

Lemma same_positive_comm a b : same_positive a b = same_positive b a.
Proof. unfold same_positive. destruct (Z.eqb_spec a b), (Z.eqb_spec b a); try congruence; by rewrite !andb_false_r. Qed.

Lemma filter_length_comm (l1 l2 : list Z) :
  NoDup l1 -> NoDup l2 ->
  length (List.filter (fun x => bool_decide (x ∈ l2)) l1) = length (List.filter (fun x => bool_decide (x ∈ l1)) l2).
Proof.
  intros H1 H2. apply Permutation_length. apply NoDup_Permutation.
  - apply NoDup_ListNoDup, List.NoDup_filter, NoDup_ListNoDup, H1.
  - apply NoDup_ListNoDup, List.NoDup_filter, NoDup_ListNoDup, H2.
  - intros x. rewrite !list_elem_of_In, !List.filter_In, <- !list_elem_of_In, !bool_decide_eq_true. tauto.
Qed.

Section symmetry.
Variables a b : PrivateObservation.
Hypothesis instants_differ : ob_entry_datetime a <> ob_entry_datetime b.
Hypothesis members_a : NoDup (ob_party_member_ids a).
Hypothesis members_b : NoDup (ob_party_member_ids b).

Lemma earlier_comm : earlier b a = earlier a b.
Proof. unfold earlier. destruct (Z.leb_spec (ob_entry_datetime a) (ob_entry_datetime b)), (Z.leb_spec (ob_entry_datetime b) (ob_entry_datetime a)); try done; lia. Qed.

Lemma later_comm : later b a = later a b.
Proof. unfold later. destruct (Z.leb_spec (ob_entry_datetime a) (ob_entry_datetime b)), (Z.leb_spec (ob_entry_datetime b) (ob_entry_datetime a)); try done; lia. Qed.

Lemma within_comm limit : within b a limit = within a b limit.
Proof.
  unfold within, hours. do 3 f_equal.
  replace (ob_entry_datetime b - ob_entry_datetime a) with (- (ob_entry_datetime a - ob_entry_datetime b)) by lia.
  rewrite Z.quot_opp_l by lia. apply Z.abs_opp.
Qed.

Lemma portal_user_comm : portal_user_evidence b a = portal_user_evidence a b.
Proof.
  unfold portal_user_evidence. rewrite (andb_comm (negb _)), (String.eqb_sym (ob_portal_user_id b)), (Z.eqb_sym (ob_portal_id b)).
  by rewrite (orb_comm (ob_portal_id a =? 0)), Z.eqb_sym, (Z.eqb_sym (ob_portal_id a) (ob_portal_id b)).
Qed.

Lemma portal_comm : portal_evidence b a = portal_evidence a b.
Proof. unfold portal_evidence. by rewrite (andb_comm (0 <? ob_portal_id b)), Z.eqb_sym. Qed.

Lemma account_comm : account_evidence b a = account_evidence a b.
Proof.
  unfold account_evidence. rewrite earlier_comm, later_comm, (Z.eqb_sym (ob_account_level b)).
  destruct (Z.eqb_spec (ob_account_level a) (ob_account_level b)) as [->|]; done.
Qed.

Lemma same_champion_comm : same_champion b a = same_champion a b.
Proof. apply same_positive_comm. Qed.

Lemma champion_comm : champion_evidence b a = champion_evidence a b.
Proof.
  unfold champion_evidence, mastery_evidence. by rewrite same_champion_comm, earlier_comm, later_comm, (Z.eqb_sym (ob_mastery_level b)).
Qed.

Lemma same_tier_comm : same_tier b a = same_tier a b.
Proof. apply same_positive_comm. Qed.

Lemma tp_comm : tp_evidence b a = tp_evidence a b.
Proof.
  unfold tp_evidence. rewrite same_tier_comm, earlier_comm, later_comm.
  rewrite <- !andb_assoc, (andb_comm (0 <=? ob_league_points b)), (Zabs_minus_comm (ob_league_points b)). done.
Qed.

Lemma same_platform_comm : same_platform b a = same_platform a b.
Proof.
  unfold same_platform. rewrite String.eqb_sym. destruct (String.eqb_spec (ob_platform a) (ob_platform b)) as [->|]; [done|].
  by rewrite !andb_false_r.
Qed.

Lemma companions_comm : companions b a = companions a b.
Proof. unfold companions. f_equal. by apply filter_length_comm. Qed.

Lemma party_comm : party_evidence b a = party_evidence a b.
Proof.
  unfold party_evidence. rewrite within_comm, tp_comm, same_tier_comm. unfold same_party, same_account_level.
  by rewrite (same_positive_comm (ob_party_id b)), (same_positive_comm (ob_account_level b)).
Qed.

Lemma bundle_comm : casual_bundle b a = casual_bundle a b.
Proof.
  unfold casual_bundle. rewrite within_comm, same_champion_comm, same_platform_comm, (same_positive_comm (ob_mastery_level b)).
  rewrite (Z.eqb_sym (ob_account_level b)), <- !andb_assoc.
  destruct (Z.eqb_spec (ob_account_level a) (ob_account_level b)) as [->|]; [|by rewrite !andb_false_l, !andb_false_r].
  by rewrite (andb_comm (negb (String.eqb (ob_stats_scope b) _))).
Qed.

Lemma score_comm : score_private_identity b a = score_private_identity a b.
Proof.
  unfold score_private_identity, evidence, tier_evidence, platform_evidence, companion_evidence, time_evidence, bundle_evidence.
  rewrite Z.eqb_sym, portal_user_comm, portal_comm, account_comm, champion_comm, same_tier_comm, tp_comm, same_platform_comm.
  by rewrite companions_comm, party_comm, !within_comm, bundle_comm.
Qed.
End symmetry.

(** What two observations say of each other does not depend on which of
    them is new: points, reasons and conflicts are the same both ways, the
    chronology included, unless both are of one instant. *)
Theorem score_symmetric a b :
  ob_entry_datetime a <> ob_entry_datetime b -> NoDup (ob_party_member_ids a) -> NoDup (ob_party_member_ids b) ->
  score_private_identity a b = score_private_identity b a.
Proof. intros Ht Ha Hb. symmetry. by apply score_comm. Qed.

(** *** The choice *)

Lemma le_candidate_spec a b :
  le_candidate a b = true <-> is_score (snd b) < is_score (snd a) \/ (is_score (snd a) = is_score (snd b) /\ fst a <= fst b).
Proof. unfold le_candidate. rewrite orb_true_iff, andb_true_iff, Z.ltb_lt, Z.eqb_eq, Z.leb_le. done. Qed.

Lemma le_candidate_total a b : le_candidate a b = false -> le_candidate b a = true.
Proof. rewrite <- not_true_iff_false, !le_candidate_spec. lia. Qed.

#[export] Instance le_candidate_trans : Transitive (fun a b => le_candidate a b = true).
Proof. intros a b c. rewrite !le_candidate_spec. lia. Qed.

Lemma better_score_spec l s : foldl better_score s l = match best_score l, s with
  | Some b, Some a => if is_score b <? is_score a then Some a else Some b
  | Some b, None => Some b
  | None, s => s end.
Proof.
  unfold best_score. revert s. induction l as [|x l IH]; intros s; [by destruct s|]. cbn [foldl].
  rewrite IH, (IH (better_score None x)). destruct (foldl better_score None l) as [b|], s as [a|]; cbn; try done.
  all: repeat case_match; simplify_eq; bool_props; try done; lia.
Qed.

Lemma best_score_in l s : best_score l = Some s -> s ∈ l.
Proof.
  revert s. induction l as [|x l IH]; intros s; [done|]. unfold best_score. cbn [foldl]. rewrite better_score_spec.
  destruct (best_score l) as [b|]; cbn.
  - destruct (is_score b <? is_score x); intros [= <-]; [by left|right; by apply IH].
  - intros [= <-]. by left.
Qed.

Lemma score_candidate_source incoming observations :
  let s := score_candidate incoming observations in
  compatible s = true -> 0 < is_score s ->
  (exists o, o ∈ observations /\ s = score_private_identity incoming o) /\
  forall o, before incoming observations = Some o \/ after incoming observations = Some o ->
            is_hard_conflict (score_private_identity incoming o) = false.
Proof.
  cbv zeta. unfold score_candidate. destruct (find_first _ _) as [bad|] eqn:E.
  { apply find_first_Some in E as [_ Hb]. unfold compatible. by rewrite Hb. }
  intros Hc Hs. split.
  - destruct (best_score _) as [s|] eqn:Es; [|cbn in Hs; lia]. cbn in *. apply best_score_in in Es.
    apply list_elem_of_In, List.filter_In in Es as [Es _]. apply List.in_map_iff in Es as (o & <- & Ho). exists o.
    by rewrite list_elem_of_In.
  - intros o Ho. rewrite find_first_None, List.Forall_forall in E. apply E, List.in_map_iff. exists o. split; [done|].
    apply list_elem_of_In, list_elem_of_omap. exists (Some o). split; [destruct Ho as [<- | <-]; set_solver|done].
Qed.

Definition groups_apart (grouped : list (Z * list PrivateObservation)) : Prop := NoDup (map fst grouped).

Lemma ranked_sorted incoming grouped :
  StronglySorted (fun a b => le_candidate a b = true) (rank_candidates incoming grouped).
Proof.
  apply Sorted_StronglySorted; [exact le_candidate_trans|]. apply Sorted_LocallySorted_iff, sort_by_sorted, le_candidate_total.
Qed.

Lemma ranked_in incoming grouped c :
  c ∈ rank_candidates incoming grouped <->
  exists observations, (fst c, observations) ∈ grouped /\ snd c = score_candidate incoming observations /\ compatible (snd c) = true.
Proof.
  unfold rank_candidates. rewrite sort_by_perm, list_elem_of_In, List.filter_In, List.in_map_iff. split.
  - intros [([id obs] & <- & Hg) Hc]. exists obs. by rewrite list_elem_of_In.
  - intros (obs & Hg & Hs & Hc). split; [|done]. exists (fst c, obs). rewrite <- list_elem_of_In. split; [|done].
    cbn. rewrite <- Hs. by destruct c.
Qed.

(** A candidate taken for the observation on evidence: one of its observations
    has the score and a strong sign, neither neighbour in time contradicts it,
    and every other candidate is contradicted or the margin behind. *)
Definition justified_by (incoming : PrivateObservation) (grouped : list (Z * list PrivateObservation)) (best : Candidate) : Prop :=
  PRIVATE_IDENTITY_LINK_THRESHOLD <= is_score (snd best) /\
  exists observations, (fst best, observations) ∈ grouped /\
    (exists o, o ∈ observations /\ snd best = score_private_identity incoming o /\
       ob_match_id incoming <> ob_match_id o /\ strong_sign incoming o = true) /\
    (forall o, before incoming observations = Some o \/ after incoming observations = Some o ->
       is_hard_conflict (score_private_identity incoming o) = false) /\
    forall id rivals, (id, rivals) ∈ grouped -> id <> fst best ->
      is_hard_conflict (score_candidate incoming rivals) = true \/
      is_score (score_candidate incoming rivals) + PRIVATE_IDENTITY_MARGIN <= is_score (snd best).

Lemma link_is_justified incoming grouped best others :
  groups_apart grouped -> rank_candidates incoming grouped = best :: others ->
  has_threshold (best :: others) = true -> has_margin (best :: others) = true ->
  justified_by incoming grouped best.
Proof.
  intros Hd Hr Ht Hm. cbn in Ht. apply Z.leb_le in Ht. split; [done|].
  assert (best ∈ rank_candidates incoming grouped) as Hb by (rewrite Hr; by left).
  apply ranked_in in Hb as (obs & Hg & Hs & Hc). exists obs. rewrite Hs in Hc.
  destruct (score_candidate_source incoming obs Hc) as [(o & Ho & Eo) Hn].
  { rewrite <- Hs. unfold PRIVATE_IDENTITY_LINK_THRESHOLD in Ht. lia. }
  split; [done|]. split; [|split; [exact Hn|]].
  - exists o. split; [done|]. rewrite Hs, Eo. split; [done|]. apply (strong_at_threshold incoming o). by rewrite <- Eo, <- Hs.
  - intros id rivals Hin Hne. destruct (is_hard_conflict (score_candidate incoming rivals)) eqn:Eh; [by left|right].
    assert ((id, score_candidate incoming rivals) ∈ best :: others) as Hc'.
    { rewrite <- Hr. apply ranked_in. exists rivals. unfold compatible. cbn [fst snd]. by rewrite Eh. }
    apply elem_of_cons in Hc' as [<- |Hc']; [done|]. destruct others as [|runner rest]; [set_solver|].
    cbn in Hm. apply Z.leb_le in Hm. pose proof (ranked_sorted incoming grouped) as Hsorted. rewrite Hr in Hsorted.
    apply StronglySorted_inv in Hsorted as [Hsorted _]. apply StronglySorted_inv in Hsorted as [_ Hall].
    apply elem_of_cons in Hc' as [<- |Hc']; [cbn in *; lia|]. rewrite List.Forall_forall in Hall.
    specialize (Hall _ (proj1 (list_elem_of_In _ _) Hc')). apply le_candidate_spec in Hall. cbn in *. lia.
Qed.
