(* ===== verification/IdentityTracking.v ===== *)
(** * The tracking of private identities, abstractly

    What the resolver of private identities promises: observations are linked
    to identities, for good, and an identity may have been merged into another
    by an earlier program, as in a union-find structure; none is merged now.  A
    step is one change, and the invariant is what every run of steps keeps.
    PrivateIdentitySpec shows that the statements of the program are runs of
    these steps. *)

From S2P Require Import Prelude.

Record Summary := { sm_merged_into : option Z; sm_active : bool; sm_count : Z; sm_suspicions : Z }.

(** The link of each observation, by match and slot; the identities; the next
    one; the votes, by identity, user and kind. *)
Record Tracking := {
  tk_links : gmap (Z * Z) (option Z);
  tk_ids : gmap Z Summary;
  tk_next : Z;
  tk_votes : gset (Z * Z * string);
}.

Definition owned (id : Z) (links : gmap (Z * Z) (option Z)) : gmap (Z * Z) (option Z) :=
  base.filter (fun kv => snd kv = Some id) links.
Definition owned_count (id : Z) (links : gmap (Z * Z) (option Z)) : Z := Z.of_nat (size (owned id links)).

Definition suspicions (id : Z) (votes : gset (Z * Z * string)) : Z :=
  Z.of_nat (size (base.filter (fun k => fst (fst k) = id /\ snd k = "suspicious"%string) votes : gset (Z * Z * string))).

Definition deactivate (s : Summary) : Summary :=
  {| sm_merged_into := sm_merged_into s; sm_active := false; sm_count := sm_count s; sm_suspicions := sm_suspicions s |}.

Definition root (active : bool) (n suspicions : Z) : Summary :=
  {| sm_merged_into := None; sm_active := active; sm_count := n; sm_suspicions := suspicions |}.

Definition with_links (l : gmap (Z * Z) (option Z)) (t : Tracking) : Tracking :=
  {| tk_links := l; tk_ids := tk_ids t; tk_next := tk_next t; tk_votes := tk_votes t |}.
Definition with_ids (i : gmap Z Summary) (t : Tracking) : Tracking :=
  {| tk_links := tk_links t; tk_ids := i; tk_next := tk_next t; tk_votes := tk_votes t |}.
Definition with_next (n : Z) (t : Tracking) : Tracking :=
  {| tk_links := tk_links t; tk_ids := tk_ids t; tk_next := n; tk_votes := tk_votes t |}.
Definition with_ballots (v : gset (Z * Z * string)) (t : Tracking) : Tracking :=
  {| tk_links := tk_links t; tk_ids := tk_ids t; tk_next := tk_next t; tk_votes := v |}.

Inductive tracking_step : Tracking -> Tracking -> Prop :=
| track_seen k t :
    tk_links t !! k = None -> tracking_step t (with_links (<[k := None]> (tk_links t)) t)
| track_created t :
    tracking_step t (with_next (tk_next t + 1) (with_ids (<[tk_next t := root true 0 0]> (tk_ids t)) t))
| track_linked k id a n v t :
    tk_links t !! k = Some None -> tk_ids t !! id = Some (root a n v) ->
    (forall k', tk_links t !! k' = Some (Some id) -> fst k' <> fst k) ->
    let links := <[k := Some id]> (tk_links t) in
    tracking_step t (with_ids (<[id := root a (owned_count id links) v]> (tk_ids t)) (with_links links t))
| track_retired (p : Z -> bool) t :
    tracking_step t (with_ids (map_imap (fun id s => Some (if p id then deactivate s else s)) (tk_ids t)) t)
| track_skipped n t : tk_next t <= n -> tracking_step t (with_next n t)
| track_suspected id user s t :
    tk_ids t !! id = Some s -> (id, user, "suspicious"%string) ∉ tk_votes t ->
    tracking_step t
      (with_ids (<[id := {| sm_merged_into := sm_merged_into s; sm_active := sm_active s; sm_count := sm_count s;
                            sm_suspicions := sm_suspicions s + 1 |}]> (tk_ids t))
         (with_ballots ({[(id, user, "suspicious"%string)]} ∪ tk_votes t) t))
| track_accused id user s t :
    tk_ids t !! id = Some s -> tracking_step t (with_ballots ({[(id, user, "cheater"%string)]} ∪ tk_votes t) t).

(** The identity another was merged into, at the end. *)
Inductive root_of (t : Tracking) : Z -> Z -> Prop :=
| root_here id s : tk_ids t !! id = Some s -> sm_merged_into s = None -> root_of t id id
| root_merged id s next r :
    tk_ids t !! id = Some s -> sm_merged_into s = Some next -> root_of t next r -> root_of t id r.

(** ** The invariant *)

Record tracking_inv (t : Tracking) : Prop := {
  (** An identity is in a match once. *)
  ti_once : forall k k' id, tk_links t !! k = Some (Some id) -> tk_links t !! k' = Some (Some id) -> fst k = fst k' -> k = k';
  (** A link is to an identity that was not merged. *)
  ti_link : forall k id, tk_links t !! k = Some (Some id) -> exists s, tk_ids t !! id = Some s /\ sm_merged_into s = None;
  ti_next : forall id s, tk_ids t !! id = Some s -> id < tk_next t;
  (** Merging has no cycles. *)
  ti_root : forall id s, tk_ids t !! id = Some s -> exists r, root_of t id r;
  ti_active : forall id s, tk_ids t !! id = Some s -> sm_active s = true -> sm_merged_into s = None;
  (** The counts of an identity are those of its rows; one without
      observations may be older than the observations. *)
  ti_count : forall k id s, tk_links t !! k = Some (Some id) -> tk_ids t !! id = Some s -> sm_count s = owned_count id (tk_links t);
  ti_suspicions : forall id s, tk_ids t !! id = Some s -> sm_merged_into s = None -> sm_suspicions s = suspicions id (tk_votes t);
  (** Votes are on identities. *)
  ti_votes : forall k, k ∈ tk_votes t -> is_Some (tk_ids t !! fst (fst k));
}.

Lemma root_functional t id r r' : root_of t id r -> root_of t id r' -> r = r'.
Proof. intros H. revert r'. induction H; intros r'; inversion 1; simplify_eq; eauto; congruence. Qed.

Lemma root_root t id r : root_of t id r -> exists s, tk_ids t !! r = Some s /\ sm_merged_into s = None.
Proof. induction 1; eauto. Qed.

(** Where nothing is merged, the roots stay. *)
Definition same_merges (t t' : Tracking) : Prop :=
  forall id s, tk_ids t !! id = Some s -> exists s', tk_ids t' !! id = Some s' /\ sm_merged_into s' = sm_merged_into s.

Lemma same_merges_root t t' id r : same_merges t t' -> root_of t id r -> root_of t' id r.
Proof.
  intros Hs. induction 1 as [id s Hi Hm|id s next r Hi Hm _ IH]; destruct (Hs id s Hi) as (s' & Hi' & Hm').
  - apply (root_here t' id s'); [done|congruence].
  - apply (root_merged t' id s' next r); [done|congruence|done].
Qed.

(** ** Counting *)

Lemma owned_ext id links links' :
  (forall k, links !! k = Some (Some id) <-> links' !! k = Some (Some id)) -> owned_count id links = owned_count id links'.
Proof.
  intros H. unfold owned_count, owned. do 2 f_equal. apply map_eq. intros k. apply option_eq. intros x.
  rewrite !map_lookup_filter_Some. cbn [snd]. split; intros [Hk ->]; (split; [by apply H|done]).
Qed.

Lemma suspicions_ext id votes votes' :
  (forall user, (id, user, "suspicious"%string) ∈ votes <-> (id, user, "suspicious"%string) ∈ votes') ->
  suspicions id votes = suspicions id votes'.
Proof.
  intros H. unfold suspicions. f_equal. apply set_size_proper. intros [[i u] kind]. rewrite !elem_of_filter. cbn [fst snd].
  split; intros [[-> ->] Hv]; (split; [done|by apply H]).
Qed.

Lemma suspicions_insert id user votes :
  (id, user, "suspicious"%string) ∉ votes ->
  suspicions id ({[(id, user, "suspicious"%string)]} ∪ votes) = suspicions id votes + 1.
Proof.
  intros Hv. unfold suspicions.
  rewrite (set_size_proper (C := gset (Z * Z * string)) (base.filter _ ({[(id, user, "suspicious"%string)]} ∪ votes))
    ({[(id, user, "suspicious"%string)]} ∪ base.filter (fun k => fst (fst k) = id /\ snd k = "suspicious"%string) votes)).
  - rewrite size_union, size_singleton by set_solver. lia.
  - intros k. rewrite elem_of_union, !elem_of_filter, elem_of_union, elem_of_singleton. split; [naive_solver|].
    intros [-> |[? ?]]; auto.
Qed.

(** ** Every step keeps the invariant *)

Lemma inserted_id (ids : gmap Z Summary) id s s' x y :
  ids !! id = Some s -> <[id := s']> ids !! x = Some y -> (x = id /\ y = s') \/ (x <> id /\ ids !! x = Some y).
Proof. intros _. rewrite lookup_insert_Some. naive_solver. Qed.

(** A change of the identities that keeps their merges and activity. *)
Lemma same_merges_insert t t' id s s' :
  tk_ids t !! id = Some s -> sm_merged_into s' = sm_merged_into s -> tk_ids t' = <[id := s']> (tk_ids t) -> same_merges t t'.
Proof.
  intros Hi Hm He x y Hx. rewrite He. destruct (decide (x = id)) as [-> |Hne].
  - rewrite lookup_insert_eq. naive_solver.
  - rewrite lookup_insert_ne by done. eauto.
Qed.

Lemma inv_seen k t : tk_links t !! k = None -> tracking_inv t -> tracking_inv (with_links (<[k := None]> (tk_links t)) t).
Proof.
  intros Hk I. assert (forall k' id, <[k := None]> (tk_links t) !! k' = Some (Some id) <-> tk_links t !! k' = Some (Some id)) as Hl.
  { intros k' id. destruct (decide (k' = k)) as [-> |]; [rewrite lookup_insert_eq; naive_solver|by rewrite lookup_insert_ne]. }
  split; cbn [with_links tk_links tk_ids tk_next tk_votes].
  - intros k1 k2 id H1 H2. apply Hl in H1, H2. by apply (ti_once _ I k1 k2 id).
  - intros k1 id H1. apply Hl in H1. by apply (ti_link _ I k1).
  - apply (ti_next _ I).
  - intros id s Hi. destruct (ti_root _ I id s Hi) as [r Hr]. exists r. eapply same_merges_root; [|exact Hr]. intros x y; eauto.
  - apply (ti_active _ I).
  - intros k1 id s H1 Hi. apply Hl in H1. rewrite (ti_count _ I k1 id s H1 Hi). apply owned_ext. intros k'. by rewrite Hl.
  - apply (ti_suspicions _ I).
  - apply (ti_votes _ I).
Qed.

Lemma inv_created t :
  tracking_inv t -> tracking_inv (with_next (tk_next t + 1) (with_ids (<[tk_next t := root true 0 0]> (tk_ids t)) t)).
Proof.
  intros I. assert (tk_ids t !! tk_next t = None) as Hn.
  { destruct (tk_ids t !! tk_next t) as [s|] eqn:E; [|done]. apply (ti_next _ I) in E. lia. }
  set (t' := with_next _ _). assert (same_merges t t') as Hs.
  { intros x y Hx. exists y. cbn. rewrite lookup_insert_ne by congruence. done. }
  split; cbn [t' with_next with_ids tk_links tk_ids tk_next tk_votes].
  - apply (ti_once _ I).
  - intros k id Hk. destruct (ti_link _ I k id Hk) as (s & Hi & Hm). destruct (Hs id s Hi) as (s' & ? & ?). exists s'. split; [done|congruence].
  - intros id s Hi. apply lookup_insert_Some in Hi as [[<- _]|[_ Hi]]; [lia|]. apply (ti_next _ I) in Hi. lia.
  - intros id s Hi. apply lookup_insert_Some in Hi as [[<- <-]|[Hne Hi]].
    + exists (tk_next t). eapply root_here; [apply lookup_insert_eq|done].
    + destruct (ti_root _ I id s Hi) as [r Hr]. exists r. by eapply same_merges_root.
  - intros id s Hi Ha. apply lookup_insert_Some in Hi as [[<- <-]|[_ Hi]]; [done|]. by apply (ti_active _ I id).
  - intros k id s Hk Hi. apply lookup_insert_Some in Hi as [[<- <-]|[_ Hi]]; [|by apply (ti_count _ I k)].
    destruct (ti_link _ I k _ Hk) as (s & Hi & _). congruence.
  - intros id s Hi Hm. apply lookup_insert_Some in Hi as [[<- <-]|[_ Hi]]; [|by apply (ti_suspicions _ I)]. cbn.
    symmetry. rewrite (suspicions_ext _ _ ∅); [done|]. intros user. split; [|set_solver]. intros Hv.
    apply (ti_votes _ I) in Hv as [s Hi]. cbn in Hi. congruence.
  - intros k Hk. apply lookup_insert_is_Some. destruct (decide (tk_next t = fst (fst k))); [by left|right]. split; [done|]. by apply (ti_votes _ I).
Qed.

Lemma inv_linked k id a n v t :
  tk_links t !! k = Some None -> tk_ids t !! id = Some (root a n v) ->
  (forall k', tk_links t !! k' = Some (Some id) -> fst k' <> fst k) -> tracking_inv t ->
  let links := <[k := Some id]> (tk_links t) in
  tracking_inv (with_ids (<[id := root a (owned_count id links) v]> (tk_ids t)) (with_links links t)).
Proof.
  intros Hk Hid Hapart I links. set (t' := with_ids _ _).
  assert (same_merges t t') as Hs by exact (same_merges_insert t t' id _ (root a (owned_count id links) v) Hid eq_refl eq_refl).
  assert (forall k' x, links !! k' = Some (Some x) <-> (k' = k /\ x = id) \/ (k' <> k /\ tk_links t !! k' = Some (Some x))) as Hl.
  { intros k' x. unfold links. rewrite lookup_insert_Some. naive_solver. }
  split; cbn [t' with_ids with_links tk_links tk_ids tk_next tk_votes].
  - intros k1 k2 x. rewrite !Hl. intros [[-> ->]|[? H1]] [[-> Hx]|[? H2]] He; subst; try done.
    + exfalso. by apply (Hapart k2).
    + exfalso. by apply (Hapart k1).
    + by apply (ti_once _ I k1 k2 x).
  - intros k' x. rewrite Hl. intros [[-> ->]|[_ Hk']].
    + eexists. split; [apply lookup_insert_eq|done].
    + destruct (ti_link _ I k' x Hk') as (s & Hi & Hm). destruct (Hs x s Hi) as (s' & ? & ?). exists s'. split; [done|congruence].
  - intros x s Hi. apply lookup_insert_Some in Hi as [[<- _]|[_ Hi]]; by eapply (ti_next _ I).
  - intros x s Hi. assert (is_Some (tk_ids t !! x)) as [y Hy] by (apply lookup_insert_Some in Hi as [[<- _]|[_ Hi]]; eauto).
    destruct (ti_root _ I x y Hy) as [r Hr]. exists r. by eapply same_merges_root.
  - intros x s Hi Ha. apply lookup_insert_Some in Hi as [[<- <-]|[_ Hi]]; [done|]. by apply (ti_active _ I x).
  - intros k1 x s H1 Hi. apply lookup_insert_Some in Hi as [[<- <-]|[Hne Hi]]; [done|].
    apply Hl in H1 as [[_ ->]|[_ H1]]; [done|]. rewrite (ti_count _ I k1 x s H1 Hi).
    apply owned_ext. intros k'. rewrite Hl. split; [|naive_solver]. intros Hx. right. split; [|done]. intros ->. congruence.
  - intros x s Hi Hm. apply lookup_insert_Some in Hi as [[<- <-]|[_ Hi]]; [|by apply (ti_suspicions _ I)].
    exact (ti_suspicions _ I id _ Hid eq_refl).
  - intros x Hx. apply lookup_insert_is_Some. destruct (decide (id = fst (fst x))); [by left|right]. split; [done|]. by apply (ti_votes _ I).
Qed.

Lemma inv_retired p t :
  tracking_inv t -> tracking_inv (with_ids (map_imap (fun id s => Some (if (p : Z -> bool) id then deactivate s else s)) (tk_ids t)) t).
Proof.
  intros I. set (t' := with_ids _ _).
  assert (forall id s, tk_ids t' !! id = Some s -> exists s0, tk_ids t !! id = Some s0 /\ sm_merged_into s = sm_merged_into s0
            /\ (sm_active s = true -> sm_active s0 = true) /\ sm_count s = sm_count s0 /\ sm_suspicions s = sm_suspicions s0) as Hb.
  { intros id s. cbn. rewrite map_lookup_imap. destruct (tk_ids t !! id) as [s0|]; [|done]. cbn. intros [= <-]. exists s0. by destruct (p id). }
  assert (same_merges t t') as Hs.
  { intros id s Hi. cbn. rewrite map_lookup_imap, Hi. eexists. split; [done|]. by destruct (p id). }
  split; cbn [t' with_ids tk_links tk_ids tk_next tk_votes].
  - apply (ti_once _ I).
  - intros k id Hk. destruct (ti_link _ I k id Hk) as (s & Hi & Hm). destruct (Hs id s Hi) as (s' & ? & ?). exists s'. split; [done|congruence].
  - intros id s Hi. destruct (Hb id s Hi) as (s0 & H0 & _). by eapply (ti_next _ I).
  - intros id s Hi. destruct (Hb id s Hi) as (s0 & H0 & _). destruct (ti_root _ I id s0 H0) as [r Hr]. exists r. by eapply same_merges_root.
  - intros id s Hi Ha. destruct (Hb id s Hi) as (s0 & H0 & Hm & Hact & _). rewrite Hm. apply (ti_active _ I id s0 H0). by apply Hact.
  - intros k id s Hk Hi. destruct (Hb id s Hi) as (s0 & H0 & Hm0 & _ & -> & _). by apply (ti_count _ I k id s0).
  - intros id s Hi Hm. destruct (Hb id s Hi) as (s0 & H0 & Hm0 & _ & _ & ->). apply (ti_suspicions _ I id s0 H0). congruence.
  - intros k Hk. destruct (ti_votes _ I k Hk) as [s Hi]. destruct (Hs _ s Hi) as (s' & ? & _). eauto.
Qed.

Lemma inv_skipped n t : tk_next t <= n -> tracking_inv t -> tracking_inv (with_next n t).
Proof.
  intros Hn I. split; try apply I.
  - cbn. intros id s Hi. apply (ti_next _ I) in Hi. lia.
  - intros id s Hi. destruct (ti_root _ I id s Hi) as [r Hr]. exists r. eapply same_merges_root; [|exact Hr]. intros x y; eauto.
Qed.

(** Votes of a kind other than suspicion. *)
Lemma inv_accused id user s t :
  tk_ids t !! id = Some s -> tracking_inv t -> tracking_inv (with_ballots ({[(id, user, "cheater"%string)]} ∪ tk_votes t) t).
Proof.
  intros Hid I. split; try apply I.
  - intros x y Hi. destruct (ti_root _ I x y Hi) as [r Hr]. exists r. eapply same_merges_root; [|exact Hr]. intros z w; eauto.
  - intros x y Hi Hm. rewrite (ti_suspicions _ I x y Hi Hm). apply suspicions_ext. intros u. cbn. set_solver.
  - cbn. intros k [->%elem_of_singleton|Hk]%elem_of_union; [by exists s|by apply (ti_votes _ I)].
Qed.

Lemma inv_suspected id user s t :
  tk_ids t !! id = Some s -> (id, user, "suspicious"%string) ∉ tk_votes t -> tracking_inv t ->
  tracking_inv
    (with_ids (<[id := {| sm_merged_into := sm_merged_into s; sm_active := sm_active s; sm_count := sm_count s;
                          sm_suspicions := sm_suspicions s + 1 |}]> (tk_ids t))
       (with_ballots ({[(id, user, "suspicious"%string)]} ∪ tk_votes t) t)).
Proof.
  intros Hid Hv I. set (s1 := {| sm_merged_into := sm_merged_into s |}). set (t' := with_ids _ _).
  assert (same_merges t t') as Hs by exact (same_merges_insert t t' id s s1 Hid eq_refl eq_refl).
  split; cbn [t' with_ids with_ballots tk_links tk_ids tk_next tk_votes].
  - apply (ti_once _ I).
  - intros k x Hk. destruct (ti_link _ I k x Hk) as (y & Hi & Hm). destruct (Hs x y Hi) as (s' & ? & ?). exists s'. split; [done|congruence].
  - intros x y Hi. apply lookup_insert_Some in Hi as [[<- _]|[_ Hi]]; by eapply (ti_next _ I).
  - intros x y Hi. assert (is_Some (tk_ids t !! x)) as [z Hz] by (apply lookup_insert_Some in Hi as [[<- _]|[_ Hi]]; eauto).
    destruct (ti_root _ I x z Hz) as [r Hr]. exists r. by eapply same_merges_root.
  - intros x y Hi Ha. apply lookup_insert_Some in Hi as [[<- <-]|[_ Hi]]; [by apply (ti_active _ I id s)|by apply (ti_active _ I x)].
  - intros k x y Hk Hi. apply lookup_insert_Some in Hi as [[<- <-]|[_ Hi]]; [by apply (ti_count _ I k id s)|by apply (ti_count _ I k x)].
  - intros x y Hi Hm. apply lookup_insert_Some in Hi as [[<- <-]|[Hne Hi]].
    + cbn. rewrite suspicions_insert by done. by rewrite (ti_suspicions _ I id s Hid Hm).
    + rewrite (ti_suspicions _ I x y Hi Hm). apply suspicions_ext. intros u. set_solver.
  - intros k [->%elem_of_singleton|Hk]%elem_of_union; apply lookup_insert_is_Some; [by left|].
    destruct (decide (id = fst (fst k))); [by left|right]. split; [done|]. by apply (ti_votes _ I).
Qed.

Lemma tracking_step_inv t t' : tracking_step t t' -> tracking_inv t -> tracking_inv t'.
Proof.
  intros [k t0 H|t0|k id a n v t0 H1 H2 H3|p t0|n t0 H|id user s t0 H1 H2|id user s t0 H] I.
  - by apply inv_seen. - by apply inv_created. - by eapply inv_linked. - by apply inv_retired.
  - by apply inv_skipped. - by apply inv_suspected. - by eapply inv_accused.
Qed.

(** ** What stays *)

(** Identities stay, with what they were merged into, and links stay. *)
Definition kept (t t' : Tracking) : Prop :=
  same_merges t t' /\ forall k id, tk_links t !! k = Some (Some id) -> tk_links t' !! k = Some (Some id).

#[export] Instance kept_preorder : PreOrder kept.
Proof.
  split; [intros t; split; [intros id s; eauto|done]|]. intros t1 t2 t3 [S1 L1] [S2 L2]. split; [|auto].
  intros id s Hi. destruct (S1 id s Hi) as (s' & Hi' & Hm). destruct (S2 id s' Hi') as (s2 & Hi2 & Hm2). exists s2. split; [done|congruence].
Qed.

Lemma tracking_step_kept t t' : tracking_step t t' -> tracking_inv t -> kept t t'.
Proof.
  intros [k t0 H|t0|k id a n v t0 H1 H2 H3|p t0|n t0 H|id user s t0 H1 H2|id user s t0 H] I.
  - split; [intros x y; eauto|]. cbn. intros k' id Hk. rewrite lookup_insert_ne; [done|congruence].
  - split; [|done]. intros x y Hx. exists y. cbn. split; [|done]. rewrite lookup_insert_ne; [done|].
    apply (ti_next _ I) in Hx. lia.
  - split; [by apply (same_merges_insert t0 _ id _ (root a (owned_count id (<[k:=Some id]> (tk_links t0))) v) H2 eq_refl)|].
    intros k' x Hk. cbn. unfold links. rewrite lookup_insert_ne; [done|congruence].
  - split; [|done]. intros id s Hi. cbn. rewrite map_lookup_imap, Hi. eexists. split; [done|]. by destruct (p id).
  - split; [intros x y; eauto|done].
  - split; [|done].
    by apply (same_merges_insert t0 _ id s {| sm_merged_into := sm_merged_into s; sm_active := sm_active s;
      sm_count := sm_count s; sm_suspicions := sm_suspicions s + 1 |} H1 eq_refl).
  - split; [intros x y; eauto|done].
Qed.

(** A run keeps the invariant, the merges and the links. *)
Lemma tracking_run t t' : rtc tracking_step t t' -> tracking_inv t -> tracking_inv t' /\ kept t t'.
Proof.
  induction 1 as [t|t1 t2 t3 H12 _ IH]; intros I; [split; [done|reflexivity]|].
  destruct (IH (tracking_step_inv _ _ H12 I)) as [I3 L3]. split; [done|].
  transitivity t2; [by apply tracking_step_kept|done].
Qed.

Lemma tracking_empty : tracking_inv {| tk_links := ∅; tk_ids := ∅; tk_next := 1; tk_votes := ∅ |}.
Proof. split; cbn; try (intros; set_solver). all: intros *; rewrite lookup_empty; done. Qed.
