(* ===== verification/PrivateIdentity.v ===== *)
(** * Private identities
      (src/backend-rust/src/workers/private_identity.rs)

    The tables behind the inferred identities of private players, and the
    statements and transactions on them: the observations of a match, their
    resolution to identities, the merging of split identities, whose second
    statement always fails, and the backfill.
    A transaction holds the lock of the resolver, so that no two of them
    interleave. *)

From S2P Require Import Prelude Json IdentityScore.

(** ** The tables *)

(** What the provider's row of a private player shows. *)
Record Sighting := {
  sg_entry_datetime : Z; sg_party_id : Z; sg_account_level : Z; sg_mastery_level : Z; sg_league_tier : Z;
  sg_league_points : Z; sg_champion_id : option Z; sg_task_force : option Z; sg_win_status : option string;
  sg_portal_id : option Z; sg_portal_user_id : option string; sg_platform : option string; sg_source : string;
}.

(** What its match says. *)
Record MatchContext := {
  cx_queue_id : option Z; cx_stats_scope : option string; cx_map : option string; cx_match_end : option Z;
  cx_quality : string;
}.

Record Resolution := {
  rs_private_player_id : option Z; rs_status : string; rs_confidence : Z; rs_reasons : list string;
  rs_resolved_at : option Z;
}.

(** A row of [private_account_observations], by match and slot. *)
Record ObservationRow := {
  ow_seen : Sighting; ow_priority : Z; ow_members : list Z; ow_resolution : Resolution; ow_context : MatchContext;
  ow_updated_at : Z;
}.

Record IdentityState := {
  st_party_id : Z; st_account_level : Z; st_mastery_level : Z; st_league_tier : Z; st_league_points : Z;
}.

Record KnownState := {
  kn_level : option Z; kn_mastery : option Z; kn_league_tier : option Z; kn_league_points : option Z;
}.

Record Verification := {
  vf_name : option string; vf_at : option Z; vf_by : option string; vf_evidence : option string;
}.

Record Moderation := {
  md_cheater : bool; md_reason : option string; md_marked_at : option Z; md_sus_count : Z;
}.

(** A row of [players_private]; its [created_at] and [notes] are never read
    nor written here. *)
Record Identity := {
  pi_state : IdentityState; pi_known : KnownState; pi_first_seen : Z; pi_last_seen : Z; pi_state_observed_at : option Z;
  pi_match_count : Z; pi_tracking_version : Z; pi_status : string; pi_confidence : Z; pi_active : bool;
  pi_merged_into : option Z; pi_verification : Verification; pi_moderation : Moderation; pi_alias : option string;
  pi_updated_at : Z;
}.

(** The columns the resolver uses of [match_players], [casual_match_players]
    and [special_match_players]; the first has no [participant_kind], the
    others no name it reads. *)
Record FactPlayer := {
  fp_match_id : Z; fp_player_id : Z; fp_private_slot : Z; fp_entry_datetime : Z; fp_player_name : option string;
  fp_kind : string; fp_party_id : option Z; fp_account_level : option Z; fp_mastery_level : option Z;
  fp_league_tier : option Z; fp_league_points : option Z; fp_champion_id : option Z; fp_task_force : option Z;
  fp_win_status : option string; fp_portal_id : option Z; fp_portal_user_id : option string; fp_platform : option string;
  fp_source : option string; fp_private_player_id : option Z;
}.

(** The columns of [matches] the backfill reads, by match and instant. *)
Record FactMatch := { fm_queue_id : option Z; fm_map : option string; fm_duration_seconds : option Z; fm_limited : option bool }.

(** A row of [players_private_history] with its match. *)
Record HistoryRow := {
  hr_player : Z; hr_state : IdentityState; hr_recorded_at : Z; hr_confidence : option Z; hr_reasons : list string;
}.

Record PresenceRow := {
  pr_first_observed_at : Z; pr_last_observed_at : Z; pr_last_match_id : Z; pr_last_queue_id : Z;
  pr_last_stats_scope : string; pr_identity_confidence : Z; pr_updated_at : Z;
}.

Record UnresolvedRow := {
  ur_observed_at : Z; ur_queue_id : Z; ur_stats_scope : string; ur_reason : string; ur_updated_at : Z;
}.

Record VoteRow := { vt_reason : string; vt_created_at : Z }.

Record VerificationRow := {
  vr_player : Z; vr_name : string; vr_evidence_ref : string; vr_evidence_sha256 : option string; vr_notes : option string;
  vr_verified_by : string; vr_active : bool; vr_revoked_at : option Z; vr_created_at : Z;
}.

Record PrivateDb := {
  pd_observations : gmap (Z * Z) ObservationRow;
  pd_identities : gmap Z Identity;
  (** The next values of the sequences of [players_private] and of the
      verifications. *)
  pd_next_identity : Z;
  pd_history : gmap (Z * Z) HistoryRow;
  pd_presence : gmap Z PresenceRow;
  pd_unresolved : gmap (Z * Z) UnresolvedRow;
  pd_votes : gmap (Z * Z * string) VoteRow;
  pd_verifications : gmap Z VerificationRow;
  pd_next_verification : Z;
  pd_match_players : list FactPlayer;
  pd_casual_players : list FactPlayer;
  pd_special_players : list FactPlayer;
  pd_matches : gmap (Z * Z) FactMatch;
  (** [queue_types.stats_scope]. *)
  pd_scopes : gmap Z string;
}.

Definition with_observations (o : gmap (Z * Z) ObservationRow) (d : PrivateDb) : PrivateDb :=
  {| pd_observations := o; pd_identities := pd_identities d; pd_next_identity := pd_next_identity d;
     pd_history := pd_history d; pd_presence := pd_presence d; pd_unresolved := pd_unresolved d; pd_votes := pd_votes d;
     pd_verifications := pd_verifications d; pd_next_verification := pd_next_verification d; pd_match_players := pd_match_players d;
     pd_casual_players := pd_casual_players d; pd_special_players := pd_special_players d; pd_matches := pd_matches d;
     pd_scopes := pd_scopes d |}.
Definition with_identities (i : gmap Z Identity) (next : Z) (d : PrivateDb) : PrivateDb :=
  {| pd_observations := pd_observations d; pd_identities := i; pd_next_identity := next;
     pd_history := pd_history d; pd_presence := pd_presence d; pd_unresolved := pd_unresolved d; pd_votes := pd_votes d;
     pd_verifications := pd_verifications d; pd_next_verification := pd_next_verification d; pd_match_players := pd_match_players d;
     pd_casual_players := pd_casual_players d; pd_special_players := pd_special_players d; pd_matches := pd_matches d;
     pd_scopes := pd_scopes d |}.
Definition with_history (h : gmap (Z * Z) HistoryRow) (d : PrivateDb) : PrivateDb :=
  {| pd_observations := pd_observations d; pd_identities := pd_identities d; pd_next_identity := pd_next_identity d;
     pd_history := h; pd_presence := pd_presence d; pd_unresolved := pd_unresolved d; pd_votes := pd_votes d;
     pd_verifications := pd_verifications d; pd_next_verification := pd_next_verification d; pd_match_players := pd_match_players d;
     pd_casual_players := pd_casual_players d; pd_special_players := pd_special_players d; pd_matches := pd_matches d;
     pd_scopes := pd_scopes d |}.
Definition with_presence (p : gmap Z PresenceRow) (u : gmap (Z * Z) UnresolvedRow) (d : PrivateDb) : PrivateDb :=
  {| pd_observations := pd_observations d; pd_identities := pd_identities d; pd_next_identity := pd_next_identity d;
     pd_history := pd_history d; pd_presence := p; pd_unresolved := u; pd_votes := pd_votes d;
     pd_verifications := pd_verifications d; pd_next_verification := pd_next_verification d; pd_match_players := pd_match_players d;
     pd_casual_players := pd_casual_players d; pd_special_players := pd_special_players d; pd_matches := pd_matches d;
     pd_scopes := pd_scopes d |}.
Definition with_votes (v : gmap (Z * Z * string) VoteRow) (d : PrivateDb) : PrivateDb :=
  {| pd_observations := pd_observations d; pd_identities := pd_identities d; pd_next_identity := pd_next_identity d;
     pd_history := pd_history d; pd_presence := pd_presence d; pd_unresolved := pd_unresolved d; pd_votes := v;
     pd_verifications := pd_verifications d; pd_next_verification := pd_next_verification d; pd_match_players := pd_match_players d;
     pd_casual_players := pd_casual_players d; pd_special_players := pd_special_players d; pd_matches := pd_matches d;
     pd_scopes := pd_scopes d |}.
Definition with_verifications (v : gmap Z VerificationRow) (next : Z) (d : PrivateDb) : PrivateDb :=
  {| pd_observations := pd_observations d; pd_identities := pd_identities d; pd_next_identity := pd_next_identity d;
     pd_history := pd_history d; pd_presence := pd_presence d; pd_unresolved := pd_unresolved d; pd_votes := pd_votes d;
     pd_verifications := v; pd_next_verification := next; pd_match_players := pd_match_players d;
     pd_casual_players := pd_casual_players d; pd_special_players := pd_special_players d; pd_matches := pd_matches d;
     pd_scopes := pd_scopes d |}.
Definition with_fact_players (m c s : list FactPlayer) (d : PrivateDb) : PrivateDb :=
  {| pd_observations := pd_observations d; pd_identities := pd_identities d; pd_next_identity := pd_next_identity d;
     pd_history := pd_history d; pd_presence := pd_presence d; pd_unresolved := pd_unresolved d; pd_votes := pd_votes d;
     pd_verifications := pd_verifications d; pd_next_verification := pd_next_verification d; pd_match_players := m; pd_casual_players := c; pd_special_players := s;
     pd_matches := pd_matches d; pd_scopes := pd_scopes d |}.

Definition update_identities (f : gmap Z Identity -> gmap Z Identity) (d : PrivateDb) : PrivateDb :=
  with_identities (f (pd_identities d)) (pd_next_identity d) d.

(** [UPDATE private_account_observations SET ... WHERE p]. *)
Definition update_observations (p : Z * Z -> ObservationRow -> bool) (f : Z * Z -> ObservationRow -> ObservationRow)
    (d : PrivateDb) : PrivateDb :=
  with_observations (map_imap (fun k o => Some (if p k o then f k o else o)) (pd_observations d)) d.

Definition set_resolution (now : Z) (r : Resolution) (o : ObservationRow) : ObservationRow :=
  {| ow_seen := ow_seen o; ow_priority := ow_priority o; ow_members := ow_members o; ow_resolution := r;
     ow_context := ow_context o; ow_updated_at := now |}.
Definition set_members (now : Z) (members : list Z) (o : ObservationRow) : ObservationRow :=
  {| ow_seen := ow_seen o; ow_priority := ow_priority o; ow_members := members; ow_resolution := ow_resolution o;
     ow_context := ow_context o; ow_updated_at := now |}.

Definition set_link (id : option Z) (p : FactPlayer) : FactPlayer :=
  {| fp_match_id := fp_match_id p; fp_player_id := fp_player_id p; fp_private_slot := fp_private_slot p;
     fp_entry_datetime := fp_entry_datetime p; fp_player_name := fp_player_name p; fp_kind := fp_kind p;
     fp_party_id := fp_party_id p; fp_account_level := fp_account_level p; fp_mastery_level := fp_mastery_level p;
     fp_league_tier := fp_league_tier p; fp_league_points := fp_league_points p; fp_champion_id := fp_champion_id p;
     fp_task_force := fp_task_force p; fp_win_status := fp_win_status p; fp_portal_id := fp_portal_id p;
     fp_portal_user_id := fp_portal_user_id p; fp_platform := fp_platform p; fp_source := fp_source p;
     fp_private_player_id := id |}.
Definition set_slot_and_link (slot : Z) (id : option Z) (p : FactPlayer) : FactPlayer :=
  {| fp_match_id := fp_match_id p; fp_player_id := fp_player_id p; fp_private_slot := slot;
     fp_entry_datetime := fp_entry_datetime p; fp_player_name := fp_player_name p; fp_kind := fp_kind p;
     fp_party_id := fp_party_id p; fp_account_level := fp_account_level p; fp_mastery_level := fp_mastery_level p;
     fp_league_tier := fp_league_tier p; fp_league_points := fp_league_points p; fp_champion_id := fp_champion_id p;
     fp_task_force := fp_task_force p; fp_win_status := fp_win_status p; fp_portal_id := fp_portal_id p;
     fp_portal_user_id := fp_portal_user_id p; fp_platform := fp_platform p; fp_source := fp_source p;
     fp_private_player_id := id |}.

Definition linked_id (o : ObservationRow) : option Z := rs_private_player_id (ow_resolution o).
Definition linked_to (id : Z) (o : ObservationRow) : bool := bool_decide (linked_id o = Some id).

(** [observation_row]. *)
Definition observation_row (k : Z * Z) (o : ObservationRow) : PrivateObservation :=
  let s := ow_seen o in
  let c := ow_context o in
  {| ob_match_id := fst k; ob_private_slot := snd k; ob_entry_datetime := sg_entry_datetime s; ob_party_id := sg_party_id s;
     ob_account_level := sg_account_level s; ob_mastery_level := sg_mastery_level s; ob_league_tier := sg_league_tier s;
     ob_league_points := sg_league_points s; ob_champion_id := default 0 (sg_champion_id s);
     ob_task_force := default 0 (sg_task_force s); ob_win_status := default EmptyString (sg_win_status s);
     ob_portal_id := default 0 (sg_portal_id s); ob_portal_user_id := default EmptyString (sg_portal_user_id s);
     ob_platform := default EmptyString (sg_platform s); ob_source := sg_source s; ob_party_member_ids := ow_members o;
     ob_queue_id := cx_queue_id c; ob_stats_scope := default EmptyString (cx_stats_scope c);
     ob_map := default EmptyString (cx_map c); ob_match_end_datetime := cx_match_end c; ob_observation_quality := cx_quality c |}.

Definition observation_key (o : PrivateObservation) : Z * Z := (ob_match_id o, ob_private_slot o).

Definition state_of (o : PrivateObservation) : IdentityState :=
  {| st_party_id := ob_party_id o; st_account_level := ob_account_level o; st_mastery_level := ob_mastery_level o;
     st_league_tier := ob_league_tier o; st_league_points := ob_league_points o |}.

Definition known_of (s : IdentityState) : KnownState :=
  {| kn_level := Some (st_account_level s); kn_mastery := Some (st_mastery_level s);
     kn_league_tier := Some (st_league_tier s); kn_league_points := Some (st_league_points s) |}.

(** ** Single statements *)

(** The observations of an identity. *)
Definition rows_of (id : Z) (d : PrivateDb) : list (Z * Z * ObservationRow) :=
  List.filter (fun e => linked_to id (snd e)) (map_to_list (pd_observations d)).

(** Newest first: instant, match, slot. *)
Definition le_latest (a b : Z * Z * ObservationRow) : bool :=
  let '(m, s, o) := a in
  let '(m', s', o') := b in
  let t := sg_entry_datetime (ow_seen o) in
  let t' := sg_entry_datetime (ow_seen o') in
  (t' <? t) || ((t =? t') && ((m' <? m) || ((m =? m') && (s' <=? s)))).

Definition least (z : Z) (l : list Z) : Z := foldr Z.min z l.
Definition greatest (z : Z) (l : list Z) : Z := foldr Z.max z l.

Definition row_confidence (o : ObservationRow) : Z :=
  if String.eqb (rs_status (ow_resolution o)) "new_identity" then 100 else rs_confidence (ow_resolution o).

Definition verified_status (v : Verification) : string :=
  match vf_name v with Some _ => "verified" | None => "inferred" end.

(** The identity as its observations [newest :: others] say. *)
Definition refreshed (now : Z) (newest : Z * Z * ObservationRow) (others : list (Z * Z * ObservationRow)) (i : Identity) :
    Identity :=
  let rows := newest :: others in
  let state := state_of (observation_row (fst newest) (snd newest)) in
  let seen := sg_entry_datetime (ow_seen (snd newest)) in
  let instants := map (fun e => sg_entry_datetime (ow_seen (snd e))) rows in
  let match_count := Z.of_nat (length rows) in
  {| pi_state := state; pi_known := known_of state; pi_first_seen := least seen instants;
     pi_last_seen := greatest seen instants; pi_state_observed_at := Some seen; pi_match_count := match_count;
     pi_tracking_version := pi_tracking_version i; pi_status := verified_status (pi_verification i);
     pi_confidence := if match_count <=? 1 then 0
                      else least (row_confidence (snd newest)) (map (fun e => row_confidence (snd e)) rows);
     pi_active := pi_active i; pi_merged_into := pi_merged_into i; pi_verification := pi_verification i;
     pi_moderation := pi_moderation i; pi_alias := pi_alias i; pi_updated_at := now |}.

(** [refresh_identity]: without an observation nothing is updated. *)
Definition refresh_identity (now id : Z) (d : PrivateDb) : PrivateDb :=
  match sort_by le_latest (rows_of id d) with
  | [] => d
  | newest :: others => update_identities (alter (refreshed now newest others) id) d
  end.

Definition is_private_of (match_id slot : Z) (p : FactPlayer) : bool :=
  (fp_match_id p =? match_id) && String.eqb (fp_kind p) "private" && (fp_private_slot p =? slot).

Definition link_match_player (match_id slot id : Z) (d : PrivateDb) : PrivateDb :=
  let nonranked p := if is_private_of match_id slot p then set_link (Some id) p else p in
  with_fact_players
    (map (fun p => if (fp_match_id p =? match_id) && (fp_player_id p =? 0) && (fp_private_slot p =? slot)
                   then set_link (Some id) p else p) (pd_match_players d))
    (map nonranked (pd_casual_players d)) (map nonranked (pd_special_players d)) d.

Definition resolve_row (now : Z) (k : Z * Z) (r : Resolution) : PrivateDb -> PrivateDb :=
  update_observations (fun k' _ => bool_decide (k' = k)) (fun _ => set_resolution now r).

Definition history_row (o : PrivateObservation) (id confidence : Z) (reasons : list string) : HistoryRow :=
  {| hr_player := id; hr_state := state_of o; hr_recorded_at := ob_entry_datetime o; hr_confidence := Some confidence;
     hr_reasons := reasons |}.

(** [EXCLUDED] on a row that is there. *)
Definition merge_presence (now : Z) (new old : PresenceRow) : PresenceRow :=
  let newer := pr_last_observed_at old <=? pr_last_observed_at new in
  {| pr_first_observed_at := Z.min (pr_first_observed_at old) (pr_first_observed_at new);
     pr_last_observed_at := Z.max (pr_last_observed_at old) (pr_last_observed_at new);
     pr_last_match_id := if newer then pr_last_match_id new else pr_last_match_id old;
     pr_last_queue_id := if newer then pr_last_queue_id new else pr_last_queue_id old;
     pr_last_stats_scope := if newer then pr_last_stats_scope new else pr_last_stats_scope old;
     pr_identity_confidence := Z.max (pr_identity_confidence old) (pr_identity_confidence new); pr_updated_at := now |}.

(** The queue and the scope of an observation that has both. *)
Definition queue_scope (o : PrivateObservation) : option (Z * string) :=
  queue_id ← ob_queue_id o; if is_empty (ob_stats_scope o) then None else Some (queue_id, ob_stats_scope o).

Definition upsert_private_presence (now : Z) (o : PrivateObservation) (id confidence : Z) (d : PrivateDb) : PrivateDb :=
  match queue_scope o with
  | Some (queue_id, scope) =>
      let new := {| pr_first_observed_at := ob_entry_datetime o; pr_last_observed_at := ob_entry_datetime o;
                    pr_last_match_id := ob_match_id o; pr_last_queue_id := queue_id; pr_last_stats_scope := scope;
                    pr_identity_confidence := confidence; pr_updated_at := now |} in
      with_presence (<[id := match pd_presence d !! id with Some old => merge_presence now new old | None => new end]>
                       (pd_presence d))
                    (delete (observation_key o) (pd_unresolved d)) d
  | None => d
  end.

Definition upsert_unresolved_presence (now : Z) (o : PrivateObservation) (reason : string) (d : PrivateDb) : PrivateDb :=
  match queue_scope o with
  | Some (queue_id, scope) =>
      with_presence (pd_presence d)
        (<[observation_key o := {| ur_observed_at := ob_entry_datetime o; ur_queue_id := queue_id;
             ur_stats_scope := scope; ur_reason := reason; ur_updated_at := now |}]> (pd_unresolved d)) d
  | None => d
  end.

Definition link_observation (now : Z) (o : PrivateObservation) (id : Z) (status : string) (confidence : Z)
    (reasons : list string) (d : PrivateDb) : PrivateDb :=
  let d := resolve_row now (observation_key o)
             {| rs_private_player_id := Some id; rs_status := status; rs_confidence := confidence; rs_reasons := reasons;
                rs_resolved_at := Some now |} d in
  let d := link_match_player (ob_match_id o) (ob_private_slot o) id d in
  let d := with_history (<[observation_key o := history_row o id confidence reasons]> (pd_history d)) d in
  let d := refresh_identity now id d in
  upsert_private_presence now o id confidence d.

(** [lpad(text, 6, '0')], which also cuts a longer text. *)
Definition lpad6 (s : string) : string :=
  String.substring 0 6 (String.substring 0 (6 - String.length s) "000000" +:+ s).

Definition private_alias (id : Z) : string := "P-" +:+ lpad6 (pretty id).

(** The identity a first observation makes. *)
Definition new_identity (now : Z) (o : PrivateObservation) (id : Z) : Identity :=
  let state := state_of o in
  {| pi_state := state; pi_known := known_of state; pi_first_seen := ob_entry_datetime o;
     pi_last_seen := ob_entry_datetime o; pi_state_observed_at := Some (ob_entry_datetime o); pi_match_count := 0;
     pi_tracking_version := PRIVATE_IDENTITY_VERSION; pi_status := "inferred"; pi_confidence := 0; pi_active := true;
     pi_merged_into := None;
     pi_verification := {| vf_name := None; vf_at := None; vf_by := None; vf_evidence := None |};
     pi_moderation := {| md_cheater := false; md_reason := None; md_marked_at := None; md_sus_count := 0 |};
     pi_alias := Some (private_alias id); pi_updated_at := now |}.

(** The sequence ends with the 32-bit integers. *)
Definition create_identity (now : Z) (o : PrivateObservation) : ST PrivateDb (result Z string) := fun d =>
  let id := pd_next_identity d in
  if i32_max <? id then (Err "nextval: reached maximum value of sequence", d)
  else (Ok id, with_identities (<[id := new_identity now o id]> (pd_identities d)) (id + 1) d).

(** ** Candidates *)

Definition identity_tracked (d : PrivateDb) (id : Z) : bool :=
  match pd_identities d !! id with
  | Some i => (pi_tracking_version i =? PRIVATE_IDENTITY_VERSION) && pi_active i
  | None => false
  end.

Definition used_in_match (d : PrivateDb) (match_id id : Z) : bool :=
  existsb (fun e => (fst (fst e) =? match_id) && linked_to id (snd e)) (map_to_list (pd_observations d)).

Definition near (x y : Z) : bool := (0 <? x) && (Z.max 1 (x - 2) <=? y) && (y <=? x + 2).

(** The signs by which a stored observation [c] is looked at. *)
Definition candidate_sign (o c : PrivateObservation) : bool :=
  (negb (is_empty (ob_portal_user_id o)) && String.eqb (ob_portal_user_id c) (ob_portal_user_id o))
  || existsb (fun id => bool_decide (id ∈ ob_party_member_ids o)) (ob_party_member_ids c)
  || (negb (ob_party_id o =? 0) && (ob_party_id c =? ob_party_id o)
      && (Z.abs (ob_entry_datetime c - ob_entry_datetime o) <=? 43200 * 1000000))
  || (near (ob_account_level o) (ob_account_level c) && (0 <? ob_champion_id o) && (ob_champion_id c =? ob_champion_id o)
      && near (ob_mastery_level o) (ob_mastery_level c)).

Definition is_candidate (d : PrivateDb) (o : PrivateObservation) (e : Z * Z * ObservationRow) : bool :=
  match linked_id (snd e) with
  | Some id => identity_tracked d id && negb (fst (fst e) =? ob_match_id o) && negb (used_in_match d (ob_match_id o) id)
               && candidate_sign o (observation_row (fst e) (snd e))
  | None => false
  end.

Definition le_entry (a b : PrivateObservation) : bool := ob_entry_datetime a <=? ob_entry_datetime b.

(** By identity, each by instant; the order of equals is the database's. *)
Definition grouped_candidates (d : PrivateDb) (o : PrivateObservation) : list (Z * list PrivateObservation) :=
  let rows := List.filter (is_candidate d o) (map_to_list (pd_observations d)) in
  map (fun id => (id, sort_by le_entry
                        (map (fun e => observation_row (fst e) (snd e)) (List.filter (fun e => linked_to id (snd e)) rows))))
      (sort_by Z.leb (remove_dups (omap (fun e => linked_id (snd e)) rows))).

(** The levels of the statement, two up and down, are 32-bit integers. *)
Definition levels_in_range (o : PrivateObservation) : bool :=
  forallb (fun z => match in_range i32_min i32_max z with Some _ => true | None => false end)
    [ob_account_level o - 2; ob_account_level o + 2; ob_mastery_level o - 2; ob_mastery_level o + 2].

Definition candidate_observations (o : PrivateObservation) : ST PrivateDb (result (list (Z * list PrivateObservation)) string) :=
  fun d => (if levels_in_range o then Ok (grouped_candidates d o) else Err "integer out of range", d).

(** ** The resolution of an observation *)

Inductive ResolutionOutcome := Linked | Created | Ambiguous | Minimal.
#[export] Instance ResolutionOutcome_eq : EqDecision ResolutionOutcome.
Proof. solve_decision. Defined.

Definition on_db (f : PrivateDb -> PrivateDb) : ST PrivateDb (result unit string) := fun d => (Ok tt, f d).

Definition candidate_reasons (best : Candidate) : list string :=
  [if PRIVATE_IDENTITY_LINK_THRESHOLD <=? is_score (snd best) then "ambiguous_candidate_margin"%string
   else "candidate_below_threshold"%string;
   "best_candidate:" +:+ pretty (fst best) +:+ ":" +:+ pretty (is_score (snd best))].

Definition resolve_observation (now : Z) (o : PrivateObservation) (private_player_id : option Z) :
    ST PrivateDb (result ResolutionOutcome string) :=
  let k := observation_key o in
  if negb (has_private_identity_evidence o) then
    _ <-? on_db (update_observations (fun k' _ => bool_decide (k' = k)) (fun _ r =>
            set_resolution now {| rs_private_player_id := linked_id r; rs_status := "minimal"; rs_confidence := 0;
              rs_reasons := ["no_identity_evidence"%string]; rs_resolved_at := rs_resolved_at (ow_resolution r) |} r));
    _ <-? on_db (upsert_unresolved_presence now o "no_identity_evidence");
    mret (Ok Minimal)
  else
    match private_player_id with
    | Some id =>
        _ <-? on_db (link_match_player (ob_match_id o) (ob_private_slot o) id);
        _ <-? on_db (refresh_identity now id);
        mret (Ok Linked)
    | None =>
        grouped <-? candidate_observations o;
        let ranked := rank_candidates o grouped in
        let created :=
          id <-? create_identity now o;
          _ <-? on_db (link_observation now o id "new_identity" 100
                 match ranked with best :: _ => candidate_reasons best | [] => ["no_candidate"%string] end);
          mret (Ok Created) in
        match ranked with
        | [] => created
        | best :: _ =>
            if has_threshold ranked && has_margin ranked then
              _ <-? on_db (link_observation now o (fst best) "linked" (is_score (snd best)) (is_reasons (snd best)));
              mret (Ok Linked)
            else if negb (is_empty (ob_stats_scope o)) && negb (String.eqb (ob_stats_scope o) "ranked") then
              _ <-? on_db (update_observations (fun k' _ => bool_decide (k' = k)) (fun _ r =>
                      set_resolution now {| rs_private_player_id := linked_id r; rs_status := "ambiguous";
                        rs_confidence := is_score (snd best); rs_reasons := candidate_reasons best;
                        rs_resolved_at := None |} r));
              _ <-? on_db (upsert_unresolved_presence now o "ambiguous_identity");
              mret (Ok Ambiguous)
            else created
        end
    end.

(** ** The observations of a match *)

Definition fact_players (d : PrivateDb) : list FactPlayer :=
  pd_match_players d ++ pd_casual_players d ++ pd_special_players d.

(** The public players of a party in a match, each once, by id. *)
Definition party_members (d : PrivateDb) (match_id party_id : Z) : list Z :=
  if 0 <? party_id then
    sort_by Z.leb (remove_dups (map fp_player_id (List.filter (fun p =>
      (fp_match_id p =? match_id) && (0 <? fp_player_id p) && bool_decide (fp_party_id p = Some party_id)) (fact_players d))))
  else [].

Definition update_party_members (now match_id : Z) (d : PrivateDb) : PrivateDb :=
  update_observations (fun k _ => fst k =? match_id)
    (fun _ o => set_members now (party_members d match_id (sg_party_id (ow_seen o))) o) d.

Definition le_slot (a b : Z * Z * ObservationRow) : bool := snd (fst a) <=? snd (fst b).

Definition rows_of_match (match_id : Z) (d : PrivateDb) : list (Z * Z * ObservationRow) :=
  sort_by le_slot (List.filter (fun e => fst (fst e) =? match_id) (map_to_list (pd_observations d))).

(** The rows are read once; each is resolved on what the ones before left. *)
Fixpoint resolve_rows (now : Z) (rows : list (Z * Z * ObservationRow)) : ST PrivateDb (result (list ResolutionOutcome) string) :=
  match rows with
  | [] => mret (Ok [])
  | (k, o) :: rows =>
      outcome <-? resolve_observation now (observation_row k o) (linked_id o);
      outcomes <-? resolve_rows now rows;
      mret (Ok (outcome :: outcomes))
  end.

Definition resolve_match_rows (now match_id : Z) : ST PrivateDb (result (list ResolutionOutcome) string) :=
  _ <-? on_db (update_party_members now match_id);
  fun d => resolve_rows now (rows_of_match match_id d) d.

(** *** Their upsert *)

(** What the source's statements take from the database: how it reads and
    shows texts. *)
Class SqlText := {
  sql_lower : string -> string;
  sql_upper : string -> string;
  sql_integer : string -> option Z;
  sql_timestamptz : string -> option Z;
  (** [->>] of a value that is no text and no integer. *)
  json_text : value -> string;
}.

Definition varchar_fits (n : Z) (s : option string) : bool := match s with Some s => text_length s <=? n | None => true end.

Section persist.
Context `{SqlText}.

(** [p->>'name']. *)
Definition json_field (name : string) (p : value) : option string :=
  match get name p with
  | None | Some Null => None
  | Some (Str s) => Some s
  | Some (Number (NInt z)) => Some (pretty z)
  | Some (Bool b) => Some (if b then "true" else "false")
  | Some v => Some (json_text v)
  end.

(** [NULLIF(text, '')]. *)
Definition nullif_empty (s : option string) : option string := t ← s; if is_empty t then None else Some t.

Definition sql_cast (lo hi : Z) (s : option string) : result (option Z) string :=
  match s with
  | None => Ok None
  | Some t =>
      match sql_integer t with
      | None => Err "invalid input syntax for type integer"
      | Some z => match in_range lo hi z with Some z => Ok (Some z) | None => Err "value out of range" end
      end
  end.

Definition int_field (name : string) (p : value) : result Z string :=
  z <-! sql_cast i32_min i32_max (nullif_empty (json_field name p)); Ok (default 0 z).
Definition smallint_field (name : string) (p : value) : result (option Z) string :=
  sql_cast (-32768) 32767 (nullif_empty (json_field name p)).

(** [NULLIF(z, 0)]. *)
Definition nullif_zero (z : option Z) : option Z := n ← z; if n =? 0 then None else Some n.

Definition source_priority (source : string) : Z :=
  if String.eqb source "direct" then 30 else if String.eqb source "recovered" then 20 else 10.

(** The row of a player, as the statement selects it. *)
Record Incoming := { in_slot : Z; in_seen : Sighting; in_priority : Z; in_status : string }.

Definition incoming_row (entry : Z) (p : value) : result (option Incoming) string :=
  player_id <-! sql_cast i64_min i64_max (nullif_empty (json_field "player_id" p));
  if negb (default 0 player_id =? 0) then Ok None
  else if negb (String.eqb (sql_upper (default EmptyString (json_field "player_name" p))) "PRIVATEACCOUNT") then Ok None
  else
    slot <-! smallint_field "_private_slot" p;
    if default 0 slot <=? 0 then Ok None
    else
      party_id <-! int_field "party_id" p;
      account_level <-! int_field "account_level" p;
      mastery_level <-! int_field "mastery_level" p;
      league_tier <-! int_field "league_tier" p;
      league_points <-! int_field "league_points" p;
      champion_id <-! int_field "champion_id" p;
      task_force <-! smallint_field "task_force" p;
      portal_id <-! smallint_field "portal_id" p;
      let portal_user_id := nullif_empty (json_field "portal_user_id" p) in
      let source := sql_lower (default "direct"%string (nullif_empty (json_field "source" p))) in
      let seen := {| sg_entry_datetime := entry; sg_party_id := party_id; sg_account_level := account_level;
             sg_mastery_level := mastery_level; sg_league_tier := league_tier; sg_league_points := league_points;
             sg_champion_id := nullif_zero (Some champion_id); sg_task_force := nullif_zero task_force;
             sg_win_status := nullif_empty (Some (sql_lower (default EmptyString (json_field "win_status" p))));
             sg_portal_id := nullif_zero portal_id; sg_portal_user_id := portal_user_id;
             sg_platform := nullif_empty (Some (sql_lower (default EmptyString (json_field "platform" p))));
             sg_source := source |} in
      if varchar_fits 20 (sg_win_status seen) && varchar_fits 20 (sg_platform seen) && varchar_fits 20 (Some source) then
        Ok (Some {| in_slot := default 0 slot; in_seen := seen; in_priority := source_priority source;
              in_status := if (0 <? party_id) || (0 <? account_level) || (0 <? mastery_level) || (0 <? league_tier)
                              || (0 <? league_points) || (0 <? champion_id) || (0 <? default 0 portal_id)
                              || match portal_user_id with Some _ => true | None => false end
                           then "unresolved" else "minimal" |})
      else Err "value too long for type character varying(20)".

Fixpoint incoming_rows (entry : Z) (players : list value) : result (list Incoming) string :=
  match players with
  | [] => Ok []
  | p :: players =>
      row <-! incoming_row entry p;
      rows <-! incoming_rows entry players;
      Ok (match row with Some r => r :: rows | None => rows end)
  end.

Definition unresolved_row (now : Z) (context : MatchContext) (r : Incoming) : ObservationRow :=
  {| ow_seen := in_seen r; ow_priority := in_priority r; ow_members := [];
     ow_resolution := {| rs_private_player_id := None; rs_status := in_status r; rs_confidence := 0; rs_reasons := [];
                         rs_resolved_at := None |};
     ow_context := context; ow_updated_at := now |}.

Definition merge_context (new old : MatchContext) : MatchContext :=
  let or_old {A} (new old : option A) := match new with Some _ => new | None => old end in
  {| cx_queue_id := or_old (cx_queue_id new) (cx_queue_id old);
     cx_stats_scope := or_old (nullif_empty (cx_stats_scope new)) (cx_stats_scope old);
     cx_map := or_old (nullif_empty (cx_map new)) (cx_map old);
     cx_match_end := or_old (cx_match_end new) (cx_match_end old); cx_quality := cx_quality new |}.

(** [ON CONFLICT]: the better source wins, the later among equals; a link is
    kept with its status. *)
Definition merge_observation (now : Z) (keep_status : bool) (new old : ObservationRow) : ObservationRow :=
  {| ow_seen := if ow_priority old <=? ow_priority new then ow_seen new else ow_seen old;
     ow_priority := Z.max (ow_priority new) (ow_priority old); ow_members := ow_members old;
     ow_resolution :=
       let r := ow_resolution old in
       {| rs_private_player_id := rs_private_player_id r;
          rs_status := if keep_status || match rs_private_player_id r with Some _ => true | None => false end
                       then rs_status r else rs_status (ow_resolution new);
          rs_confidence := rs_confidence r; rs_reasons := rs_reasons r; rs_resolved_at := rs_resolved_at r |};
     ow_context := merge_context (ow_context new) (ow_context old); ow_updated_at := now |}.

Definition upsert_observation (now : Z) (keep_status : bool) (k : Z * Z) (new : ObservationRow)
    (rows : gmap (Z * Z) ObservationRow) : gmap (Z * Z) ObservationRow :=
  <[k := match rows !! k with Some old => merge_observation now keep_status new old | None => new end]> rows.

Record IdentityPayload := {
  ip_match_id : Z; ip_entry_datetime : string; ip_queue_id : Z; ip_map : string; ip_duration_seconds : Z;
}.

Definition payload_context (scope : string) (p : IdentityPayload) (entry : Z) (limited : bool) : MatchContext :=
  {| cx_queue_id := Some (ip_queue_id p); cx_stats_scope := Some scope; cx_map := Some (ip_map p);
     cx_match_end := Some (entry + ip_duration_seconds p * 1000000);
     cx_quality := if limited then "limited" else "complete" |}.

(** A statement cannot write a row twice. *)
Definition upsert_match_observations (now : Z) (p : IdentityPayload) (scope : string) (limited : bool) (players : list value) :
    ST PrivateDb (result unit string) := fun d =>
  let r :=
    rows <-! incoming_rows (default 0 (sql_timestamptz (ip_entry_datetime p))) players;
    match rows, sql_timestamptz (ip_entry_datetime p) with
    | [], _ => Ok d
    | _, None => Err "invalid input syntax for type timestamp with time zone"
    | _, Some entry =>
        if negb (bool_decide (NoDup (map in_slot rows))) then
          Err "ON CONFLICT DO UPDATE command cannot affect row a second time"
        else if negb (varchar_fits 200 (Some (ip_map p))) then Err "value too long for type character varying(200)"
        else Ok (with_observations
               (foldl (fun m r => upsert_observation now false (ip_match_id p, in_slot r)
                                    (unresolved_row now (payload_context scope p entry limited) r) m)
                      (pd_observations d) rows) d)
    end in
  match r with Ok d' => (Ok tt, d') | Err e => (Err e, d) end.

Record PrivateIdentityResolution := {
  pir_observations : Z; pir_linked : Z; pir_created : Z; pir_ambiguous : Z; pir_minimal : Z;
}.

Definition count_outcome (x : ResolutionOutcome) (l : list ResolutionOutcome) : Z :=
  Z.of_nat (length (List.filter (fun y => bool_decide (x = y)) l)).

(** The body of the transaction that stores the facts of a match. *)
Definition persist_and_resolve_private_identities (now : Z) (p : IdentityPayload) (players : list value) (limited : bool) :
    ST PrivateDb (result PrivateIdentityResolution string) :=
  scope <-? (fun d => match pd_scopes d !! ip_queue_id p with
                      | Some scope => (Ok scope, d)
                      | None => (Err "query returned an unexpected number of rows", d)
                      end);
  _ <-? upsert_match_observations now p scope limited players;
  fun d =>
    let observation_count := Z.of_nat (length (rows_of_match (ip_match_id p) d)) in
    if (observation_count =? 0) || limited then
      (Ok {| pir_observations := observation_count; pir_linked := 0; pir_created := 0; pir_ambiguous := 0;
             pir_minimal := 0 |}, d)
    else
      (outcomes <-? resolve_match_rows now (ip_match_id p);
       mret (Ok {| pir_observations := Z.of_nat (length outcomes); pir_linked := count_outcome Linked outcomes;
                   pir_created := count_outcome Created outcomes; pir_ambiguous := count_outcome Ambiguous outcomes;
                   pir_minimal := count_outcome Minimal outcomes |})) d.
End persist.

(** ** Merging split identities *)

Definition unverified (i : Identity) : bool := match vf_name (pi_verification i) with None => true | Some _ => false end.

(** An identity that may be merged into another. *)
Definition mergeable (i : Identity) : bool :=
  (pi_tracking_version i =? PRIVATE_IDENTITY_VERSION) && pi_active i && unverified i.

Definition le_first_seen (a b : Z * Identity) : bool :=
  (pi_first_seen (snd a) <? pi_first_seen (snd b))
  || ((pi_first_seen (snd a) =? pi_first_seen (snd b)) && (fst a <=? fst b)).

Definition merge_sources (d : PrivateDb) : list Z :=
  map fst (sort_by le_first_seen (List.filter (fun e => mergeable (snd e)) (map_to_list (pd_identities d)))).

Definition le_oldest (a b : Z * Z * ObservationRow) : bool :=
  let '(m, s, o) := a in
  let '(m', s', o') := b in
  let t := sg_entry_datetime (ow_seen o) in
  let t' := sg_entry_datetime (ow_seen o') in
  (t <? t') || ((t =? t') && ((m <? m') || ((m =? m') && (s <=? s')))).

Definition set_merged (now target : Z) (i : Identity) : Identity :=
  {| pi_state := pi_state i; pi_known := pi_known i; pi_first_seen := pi_first_seen i; pi_last_seen := pi_last_seen i;
     pi_state_observed_at := pi_state_observed_at i; pi_match_count := pi_match_count i;
     pi_tracking_version := pi_tracking_version i; pi_status := "merged"; pi_confidence := pi_confidence i;
     pi_active := false; pi_merged_into := Some target; pi_verification := pi_verification i;
     pi_moderation := pi_moderation i; pi_alias := pi_alias i; pi_updated_at := now |}.

Definition set_moderation (now : Z) (m : Moderation) (i : Identity) : Identity :=
  {| pi_state := pi_state i; pi_known := pi_known i; pi_first_seen := pi_first_seen i; pi_last_seen := pi_last_seen i;
     pi_state_observed_at := pi_state_observed_at i; pi_match_count := pi_match_count i;
     pi_tracking_version := pi_tracking_version i; pi_status := pi_status i; pi_confidence := pi_confidence i;
     pi_active := pi_active i; pi_merged_into := pi_merged_into i; pi_verification := pi_verification i;
     pi_moderation := m; pi_alias := pi_alias i; pi_updated_at := now |}.

Definition vote_of (id : Z) (kind : string) (k : Z * Z * string) : bool :=
  (fst (fst k) =? id) && String.eqb (snd k) kind.

Definition count_votes (id : Z) (kind : string) (d : PrivateDb) : Z :=
  Z.of_nat (length (List.filter (fun e => vote_of id kind (fst e)) (map_to_list (pd_votes d)))).

(** The votes of the source go to the target, where the user has none of the
    kind. *)
Definition move_votes (source target : Z) (d : PrivateDb) : PrivateDb :=
  let moved := list_to_map (omap (fun e => let '((id, user, kind), v) := e in
                 if id =? source then Some ((target, user, kind), v) else None) (map_to_list (pd_votes d))) in
  with_votes (base.filter (fun e => fst (fst (fst e)) <> source) (pd_votes d ∪ moved)) d.

Definition move_moderation (now source target : Z) (d : PrivateDb) : PrivateDb :=
  match pd_identities d !! source with
  | Some s =>
      update_identities (alter (fun t =>
        let taken := md_cheater (pi_moderation s) && negb (md_cheater (pi_moderation t)) in
        set_moderation now
          {| md_cheater := md_cheater (pi_moderation t) || md_cheater (pi_moderation s);
             md_reason := md_reason (pi_moderation (if taken then s else t));
             md_marked_at := md_marked_at (pi_moderation (if taken then s else t));
             md_sus_count := count_votes target "suspicious" d |} t) target) d
  | None => d
  end.

Definition move_links (source target : Z) (d : PrivateDb) : PrivateDb :=
  let moved p := (fp_player_id p =? 0)
    && (bool_decide (fp_private_player_id p = Some source)
        || match pd_observations d !! (fp_match_id p, fp_private_slot p) with Some o => linked_to source o | None => false end) in
  let move := map (fun p => if moved p then set_link (Some target) p else p) in
  with_fact_players (move (pd_match_players d)) (move (pd_casual_players d)) (move (pd_special_players d)) d.

Definition move_history (source target score : Z) (reasons : list string) (d : PrivateDb) : PrivateDb :=
  with_history ((fun h => if hr_player h =? source
      then {| hr_player := target; hr_state := hr_state h; hr_recorded_at := hr_recorded_at h;
              hr_confidence := Some (Z.max (default 0 (hr_confidence h)) score); hr_reasons := reasons |}
      else h) <$> pd_history d) d.

Definition move_observations (now source target score : Z) (reasons : list string) : PrivateDb -> PrivateDb :=
  update_observations (fun _ o => linked_to source o) (fun _ o =>
    set_resolution now {| rs_private_player_id := Some target; rs_status := "linked";
      rs_confidence := Z.max (rs_confidence (ow_resolution o)) score; rs_reasons := reasons; rs_resolved_at := Some now |} o).

(** The type the database gives a parameter is that of what it is compared
    with; [COALESCE] and [GREATEST] of integers are as wide as the widest, and a
    literal is of 32 bits. *)
Inductive SqlInteger := Int2 | Int4.
Definition sql_widest (a b : SqlInteger) : SqlInteger := match a with Int2 => b | Int4 => Int4 end.

(** The score of the program has 16 bits, which the driver only sends as such. *)
Definition bind_score (parameter : SqlInteger) : ST PrivateDb (result unit string) := fun d =>
  (match parameter with Int2 => Ok tt | Int4 => Err "error serializing parameter 2" end, d).

Definition history_parameter : SqlInteger := sql_widest (* resolution_confidence *) Int2 (* 0 *) Int4.
Definition observation_parameter : SqlInteger := (* resolution_confidence *) Int2.

(** The statements of a merge, in their order. *)
Definition merge_identity (now source target : Z) (best : IdentityScore) : ST PrivateDb (result unit string) :=
  let reasons := is_reasons best ++ ["merged_identity:" +:+ pretty source] in
  _ <-? on_db (move_links source target);
  _ <-? bind_score history_parameter;
  _ <-? on_db (move_history source target (is_score best) reasons);
  _ <-? bind_score observation_parameter;
  _ <-? on_db (move_observations now source target (is_score best) reasons);
  _ <-? on_db (move_votes source target);
  _ <-? on_db (move_moderation now source target);
  _ <-? on_db (update_identities (alter (set_merged now target) source));
  on_db (refresh_identity now target).

Definition collides (source target : Z) (d : PrivateDb) : bool :=
  existsb (fun e => existsb (fun e' => fst (fst e) =? fst (fst e')) (rows_of target d)) (rows_of source d).

(** What the source is merged into, with the score. *)
Definition merge_target (source : Z) (rows : list (Z * Z * ObservationRow)) (incoming : PrivateObservation)
    (grouped : list (Z * list PrivateObservation)) (d : PrivateDb) : option Candidate :=
  let earlier_groups := List.filter (fun g => negb (fst g =? source) && existsb (not_after incoming) (snd g)) grouped in
  let ranked := rank_candidates incoming earlier_groups in
  match ranked with
  | [] => None
  | best :: _ =>
      if negb (has_threshold ranked) || negb (has_margin ranked) then None
      else
        let target_observations := default [] (snd <$> find_first (fun g => fst g =? fst best) grouped) in
        if existsb (fun e => is_hard_conflict (score_candidate (observation_row (fst e) (snd e)) target_observations)) rows
        then None
        else if collides source (fst best) d then None
        else Some best
  end.

(** One source; whether it was merged. *)
Definition merge_source (now source : Z) : ST PrivateDb (result bool string) := fun d =>
  match pd_identities d !! source with
  | Some i =>
      if negb (mergeable i) then (Ok false, d)
      else
        match sort_by le_oldest (rows_of source d) with
        | [] => (Ok false, d)
        | first :: rest =>
            let incoming := observation_row (fst first) (snd first) in
            if levels_in_range incoming then
              match merge_target source (first :: rest) incoming (grouped_candidates d incoming) d with
              | Some best => (_ <-? merge_identity now source (fst best) (snd best); mret (Ok true)) d
              | None => (Ok false, d)
              end
            else (Err "integer out of range", d)
        end
  | None => (Ok false, d)
  end.

Fixpoint merge_each (now : Z) (sources : list Z) (merged : Z) : ST PrivateDb (result Z string) :=
  match sources with
  | [] => mret (Ok merged)
  | source :: sources =>
      m <-? merge_source now source;
      merge_each now sources (if (m : bool) then Z.min i32_max (merged + 1) else merged)
  end.

Definition reconcile_body (now : Z) : ST PrivateDb (result Z string) := fun d => merge_each now (merge_sources d) 0 d.

(** ** Repairs *)

Definition is_private_account `{SqlText} (p : FactPlayer) : bool :=
  (fp_player_id p =? 0) && String.eqb (sql_upper (default EmptyString (fp_player_name p))) "PRIVATEACCOUNT".

(** Rows from before the slots take the first. *)
Definition repair_slots `{SqlText} (d : PrivateDb) : PrivateDb :=
  let taken p := existsb (fun q => (fp_match_id q =? fp_match_id p) && (fp_player_id q =? 0) && (fp_private_slot q =? 1)
                                   && (fp_entry_datetime q =? fp_entry_datetime p)) (pd_match_players d) in
  with_fact_players (map (fun p =>
      match pd_observations d !! (fp_match_id p, 1) with
      | Some o => if is_private_account p && (fp_private_slot p =? 0) && negb (taken p)
                  then set_slot_and_link 1 (linked_id o) p else p
      | None => p
      end) (pd_match_players d)) (pd_casual_players d) (pd_special_players d) d.

(** A link of an observation, where the players of its slot show another. *)
Definition repaired_link (d : PrivateDb) (p : FactPlayer) : FactPlayer :=
  match (o ← pd_observations d !! (fp_match_id p, fp_private_slot p); linked_id o) with
  | Some id => if (fp_player_id p =? 0) && negb (bool_decide (fp_private_player_id p = Some id))
               then set_link (Some id) p else p
  | None => p
  end.

Definition repair_links (d : PrivateDb) : PrivateDb :=
  with_fact_players (map (repaired_link d) (pd_match_players d)) (pd_casual_players d) (pd_special_players d) d.

(** ** The backfill *)

Definition set_version (now version : Z) (i : Identity) : Identity :=
  {| pi_state := pi_state i; pi_known := pi_known i; pi_first_seen := pi_first_seen i; pi_last_seen := pi_last_seen i;
     pi_state_observed_at := pi_state_observed_at i; pi_match_count := pi_match_count i; pi_tracking_version := version;
     pi_status := pi_status i; pi_confidence := pi_confidence i; pi_active := pi_active i;
     pi_merged_into := pi_merged_into i; pi_verification := pi_verification i; pi_moderation := pi_moderation i;
     pi_alias := pi_alias i; pi_updated_at := now |}.

Definition set_legacy (now : Z) (i : Identity) : Identity :=
  {| pi_state := pi_state i; pi_known := pi_known i; pi_first_seen := pi_first_seen i; pi_last_seen := pi_last_seen i;
     pi_state_observed_at := pi_state_observed_at i; pi_match_count := pi_match_count i;
     pi_tracking_version := pi_tracking_version i; pi_status := "legacy"; pi_confidence := pi_confidence i;
     pi_active := false; pi_merged_into := pi_merged_into i; pi_verification := pi_verification i;
     pi_moderation := pi_moderation i; pi_alias := pi_alias i; pi_updated_at := now |}.

Definition update_where (p : Identity -> bool) (f : Identity -> Identity) : PrivateDb -> PrivateDb :=
  update_identities (fmap (fun i => if p i then f i else i)).

Definition adopt_version (now : Z) : PrivateDb -> PrivateDb :=
  update_where (fun i => (pi_tracking_version i =? 2) && pi_active i) (set_version now PRIVATE_IDENTITY_VERSION).

Definition retire_legacy (now : Z) : PrivateDb -> PrivateDb :=
  update_where (fun i => (pi_tracking_version i =? 1) && pi_active i && unverified i) (set_legacy now).

Section backfill.
Context `{SqlText}.

(** The observation of a player row; one without a slot takes the first. *)
Definition backfill_row (now : Z) (d : PrivateDb) (p : FactPlayer) : option (Z * Z * ObservationRow) :=
  if is_private_account p then
    m ← pd_matches d !! (fp_match_id p, fp_entry_datetime p);
    let source := default "direct"%string (fp_source p) in
    Some ((fp_match_id p, if 0 <? fp_private_slot p then fp_private_slot p else 1),
      {| ow_seen :=
           {| sg_entry_datetime := fp_entry_datetime p; sg_party_id := default 0 (fp_party_id p);
              sg_account_level := default 0 (fp_account_level p); sg_mastery_level := default 0 (fp_mastery_level p);
              sg_league_tier := default 0 (fp_league_tier p); sg_league_points := default 0 (fp_league_points p);
              sg_champion_id := fp_champion_id p; sg_task_force := fp_task_force p; sg_win_status := fp_win_status p;
              sg_portal_id := fp_portal_id p; sg_portal_user_id := nullif_empty (fp_portal_user_id p);
              sg_platform := nullif_empty (fp_platform p); sg_source := source |};
         ow_priority := source_priority source; ow_members := [];
         ow_resolution := {| rs_private_player_id := None; rs_status := "unresolved"; rs_confidence := 0; rs_reasons := [];
                             rs_resolved_at := None |};
         ow_context := {| cx_queue_id := fm_queue_id m; cx_stats_scope := q ← fm_queue_id m; pd_scopes d !! q;
                          cx_map := fm_map m;
                          cx_match_end := (fun s => fp_entry_datetime p + s * 1000000) <$> fm_duration_seconds m;
                          cx_quality := if default false (fm_limited m) then "limited" else "complete" |};
         ow_updated_at := now |})
  else None.

Definition backfill_observations (now : Z) (d : PrivateDb) : result PrivateDb string :=
  let rows := omap (backfill_row now d) (pd_match_players d) in
  if bool_decide (NoDup (map fst rows)) then
    Ok (with_observations
          (foldl (fun m r => upsert_observation now true (fst r) (snd r) m) (pd_observations d) rows) d)
  else Err "ON CONFLICT DO UPDATE command cannot affect row a second time".

Definition unresolved_status (o : ObservationRow) : bool :=
  match linked_id o with
  | Some _ => false
  | None => let s := rs_status (ow_resolution o) in String.eqb s "unresolved" || String.eqb s "ambiguous"
  end.

(** Oldest match first: its first instant, its id. *)
Definition unresolved_matches (d : PrivateDb) : list Z :=
  let rows := List.filter (fun e => unresolved_status (snd e)) (map_to_list (pd_observations d)) in
  let ids := remove_dups (map (fun e => fst (fst e)) rows) in
  let first_instant id :=
    match map (fun e => sg_entry_datetime (ow_seen (snd e))) (List.filter (fun e => fst (fst e) =? id) rows) with
    | t :: l => least t l
    | [] => 0
    end in
  sort_by (fun a b => (first_instant a <? first_instant b) || ((first_instant a =? first_instant b) && (a <=? b))) ids.

(** *** The transactions *)

Class PrivateSql (W : Type) := {
  (** A statement of its own: its instant and what became of it. *)
  private_statement : ST W (Z * commit_outcome);
  (** A transaction begins at its instant, with the lock of the resolver, or
      fails; then its commit. *)
  private_begin : ST W (result Z string);
  private_commit : ST W commit_outcome;
}.

Context {W : Type} `{PrivateSql W}.
Abbreviation X := (PrivateDb * W)%type.

(** Only the sequences remember what is rolled back. *)
Definition rolled_back (d d' : PrivateDb) : PrivateDb :=
  with_verifications (pd_verifications d) (pd_next_verification d') (with_identities (pd_identities d) (pd_next_identity d') d).

Definition private_transaction {A} (body : Z -> ST PrivateDb (result A string)) : ST X (result A string) := fun s =>
  match private_begin (snd s) with
  | (Err e, w) => (Err e, (fst s, w))
  | (Ok now, w) =>
      match body now (fst s) with
      | (Err e, d) => (Err e, (rolled_back (fst s) d, w))
      | (Ok a, d) =>
          let '(o, w) := private_commit w in
          (_ <-! reported o; Ok a, (if applied o then d else rolled_back (fst s) d, w))
      end
  end.

Definition private_query {A} (f : Z -> PrivateDb -> result (A * PrivateDb) string) : ST X (result A string) := fun s =>
  let '((now, o), w) := private_statement (snd s) in
  match f now (fst s) with
  | Err e => (Err e, (fst s, w))
  | Ok (a, d) => (_ <-! reported o; Ok a, (if applied o then d else fst s, w))
  end.

Definition private_update (f : Z -> PrivateDb -> PrivateDb) : ST X (result unit string) :=
  private_query (fun now d => Ok (tt, f now d)).

Definition resolve_existing_private_match (match_id : Z) : ST X (result unit string) :=
  private_transaction (fun now => _ <-? resolve_match_rows now match_id; mret (Ok tt)).

Definition reconcile_split_private_identities : ST X (result Z string) := private_transaction reconcile_body.

Definition repair_private_match_links : ST X (result unit string) :=
  _ <-? private_update (fun _ => repair_slots);
  private_update (fun _ => repair_links).

Fixpoint resolve_matches (ids : list Z) : ST X (result unit string) :=
  match ids with
  | [] => mret (Ok tt)
  | id :: ids => _ <-? resolve_existing_private_match id; resolve_matches ids
  end.

Record PrivateBackfillReport := {
  br_apply : bool; br_source_rows : Z; br_observation_rows : Z; br_detailed_unresolved : Z; br_minimal_rows : Z;
  br_current_identities : Z; br_linked_match_rows : Z; br_legacy_active : Z; br_outdated_active : Z;
  br_unlinked_match_rows : Z; br_merged_during_run : Z; br_processed_matches : Z;
}.

Definition count {A} (p : A -> bool) (l : list A) : Z := Z.of_nat (length (List.filter p l)).
Definition count_identities (p : Identity -> bool) (d : PrivateDb) : Z :=
  count (fun e => p (snd e)) (map_to_list (pd_identities d)).

(** The rows of an observation's slot, once for each, or once for none. *)
Definition unlinked_rows (d : PrivateDb) (e : Z * Z * ObservationRow) : Z :=
  match linked_id (snd e) with
  | None => 0
  | Some id =>
      match List.filter (fun p => (fp_match_id p =? fst (fst e)) && (fp_player_id p =? 0)
                                  && (fp_private_slot p =? snd (fst e))) (pd_match_players d) with
      | [] => 1
      | players => count (fun p => negb (bool_decide (fp_private_player_id p = Some id))) players
      end
  end.

Definition report_counts (apply : bool) (processed merged : Z) (d : PrivateDb) : PrivateBackfillReport :=
  let rows := map_to_list (pd_observations d) in
  {| br_apply := apply; br_source_rows := count is_private_account (pd_match_players d);
     br_observation_rows := count (fun _ => true) rows;
     br_detailed_unresolved := count (fun e => unresolved_status (snd e)) rows;
     br_minimal_rows := count (fun e => String.eqb (rs_status (ow_resolution (snd e))) "minimal") rows;
     br_current_identities :=
       count_identities (fun i => (pi_tracking_version i =? PRIVATE_IDENTITY_VERSION) && pi_active i) d;
     br_linked_match_rows := count (fun p => (fp_player_id p =? 0) &&
        match (id ← fp_private_player_id p; pd_identities d !! id) with
        | Some i => pi_tracking_version i =? PRIVATE_IDENTITY_VERSION | None => false end) (pd_match_players d);
     br_legacy_active := count_identities (fun i => (pi_tracking_version i =? 1) && pi_active i && unverified i) d;
     br_outdated_active := count_identities (fun i => (1 <? pi_tracking_version i)
        && (pi_tracking_version i <? PRIVATE_IDENTITY_VERSION) && pi_active i) d;
     br_unlinked_match_rows := foldr Z.add 0 (map (unlinked_rows d) rows);
     br_merged_during_run := merged; br_processed_matches := processed |}.

Definition private_backfill_report (apply : bool) (processed merged : Z) : ST X (result PrivateBackfillReport string) :=
  private_query (fun _ d => Ok (report_counts apply processed merged d, d)).

Definition backfill_private_account_identities (apply : bool) : ST X (result PrivateBackfillReport string) :=
  if negb apply then private_backfill_report false 0 0
  else
    _ <-? private_update adopt_version;
    _ <-? private_update (fun _ d => with_fact_players (map (repaired_link d) (pd_match_players d))
                                       (pd_casual_players d) (pd_special_players d) d);
    _ <-? private_update (fun _ d => with_fact_players (pd_match_players d)
                                       (map (repaired_link d) (pd_casual_players d)) (pd_special_players d) d);
    _ <-? private_update (fun _ d => with_fact_players (pd_match_players d) (pd_casual_players d)
                                       (map (repaired_link d) (pd_special_players d)) d);
    _ <-? private_query (fun now d => d <-! backfill_observations now d; Ok (tt, d));
    _ <-? repair_private_match_links;
    matches <-? private_query (fun _ d => Ok (unresolved_matches d, d));
    _ <-? resolve_matches matches;
    merged_during_run <-? reconcile_split_private_identities;
    _ <-? repair_private_match_links;
    unresolved <-? private_query (fun _ d => Ok (count (fun e => unresolved_status (snd e)) (map_to_list (pd_observations d)), d));
    _ <-? (if unresolved =? 0 then private_update retire_legacy else mret (Ok tt));
    private_backfill_report true (Z.min i32_max (Z.of_nat (length matches))) merged_during_run.
End backfill.
