(* ===== verification/PrivateAccounts.v ===== *)
(** * Moderation of private accounts
      (src/backend-rust/src/routes/admin/private_accounts.rs and the report of
      a private account in routes/player_ext.rs)

    An administrator verifies the name of an identity or marks it as a
    cheater; users report one.  Both follow a merged identity to the one it
    was merged into.  Authentication and the reading of the body come first;
    here they are arguments. *)

From S2P Require Import Prelude Json F64 JsValue IdentityScore PrivateIdentity.

(** A refused request: status, code and message. *)
Inductive Refusal := Refused (status : Z) (code message : string).

Definition validation {A} (message : string) : result A Refusal := Err (Refused 400 "VALIDATION" message).

Definition require (ok : bool) (message : string) : result unit Refusal := if ok then Ok tt else validation message.

(** ** Texts *)

(** UTF-16 units: two for a character of four bytes. *)
Fixpoint utf16_length (s : string) : Z :=
  match s with
  | String c r => (if (128 <=? byte_of c) && (byte_of c <? 192) then 0 else if 240 <=? byte_of c then 2 else 1) + utf16_length r
  | EmptyString => 0
  end.

(** The first [n] characters. *)
Fixpoint take_chars (n : nat) (s : string) : string :=
  match s with
  | EmptyString => EmptyString
  | String c r =>
      if (128 <=? byte_of c) && (byte_of c <? 192) then String c (take_chars n r)
      else match n with O => EmptyString | S n => String c (take_chars n r) end
  end.

(** [char::is_control]: the C0 and C1 ranges and DEL. *)
Fixpoint has_control (s : string) : bool :=
  match s with
  | EmptyString => false
  | String c r =>
      (byte_of c <? 32) || (byte_of c =? 127)
      || match r with String c' _ => (byte_of c =? 194) && (128 <=? byte_of c') && (byte_of c' <? 160) | EmptyString => false end
      || has_control r
  end.

Definition is_lower_hex (c : ascii) : bool := is_digit c || ((97 <=? byte_of c) && (byte_of c <=? 102)).

(** [^[0-9a-f]{64}$]. *)
Definition is_sha256 (s : string) : bool := (String.length s =? 64)%nat && forallb is_lower_hex (String.list_ascii_of_string s).

Definition body_text (name : string) (body : value) : string := trim (default EmptyString (get name body ≫= as_str)).
Definition optional_text (s : string) : option string := if is_empty s then None else Some s.

Definition positive_id (s : string) : option Z := id ← parse_i32 s; if 0 <? id then Some id else None.

(** ** Merged identities *)

(** An identity and those it was merged into, [n] more at most. *)
Fixpoint identity_chain (n : nat) (id : Z) (d : PrivateDb) : list (Z * bool) :=
  match pd_identities d !! id with
  | None => []
  | Some i =>
      (id, pi_active i) ::
      match n, pi_merged_into i with S n, Some next => identity_chain n next d | _, _ => [] end
  end.

(** The deepest active one within sixteen merges. *)
Definition canonical_identity (id : Z) (d : PrivateDb) : option Z :=
  fst <$> find_first snd (rev (identity_chain 16 id d)).

Section accounts.
Context `{SqlText} {W : Type} `{PrivateSql W}.
Abbreviation X := (PrivateDb * W)%type.

Definition database_refusal (message : string) : Refusal := Refused 500 "DATABASE" message.

(** ** The name of an identity *)

Record NameBody := {
  nb_name : string; nb_evidence_ref : string; nb_evidence_sha256 : option string; nb_notes : option string;
  nb_verified_by : string;
}.

Definition name_body (body : value) : NameBody :=
  {| nb_name := body_text "name" body; nb_evidence_ref := body_text "evidenceRef" body;
     nb_evidence_sha256 := optional_text (to_ascii_lowercase (body_text "evidenceSha256" body));
     nb_notes := optional_text (body_text "notes" body);
     nb_verified_by := take_chars 100 (trim (default "admin-api"%string (get "verifiedBy" body ≫= as_str))) |}.

Definition validate_name (b : NameBody) : result unit Refusal :=
  _ <-! require (negb (is_empty (nb_name b)) && (text_length (nb_name b) <=? 100) && negb (has_control (nb_name b)))
          "Name must contain 1-100 printable characters";
  _ <-! require (negb (is_empty (nb_evidence_ref b)) && (text_length (nb_evidence_ref b) <=? 2000))
          "evidenceRef is required and must be at most 2000 characters";
  _ <-! require (match nb_evidence_sha256 b with Some s => is_sha256 s | None => true end)
          "evidenceSha256 must be a lowercase SHA-256 hex digest";
  require (match nb_notes b with Some s => text_length s <=? 5000 | None => true end) "notes must be at most 5000 characters".

Definition revoke (now : Z) (r : VerificationRow) : VerificationRow :=
  {| vr_player := vr_player r; vr_name := vr_name r; vr_evidence_ref := vr_evidence_ref r;
     vr_evidence_sha256 := vr_evidence_sha256 r; vr_notes := vr_notes r; vr_verified_by := vr_verified_by r;
     vr_active := false; vr_revoked_at := Some now; vr_created_at := vr_created_at r |}.

Definition set_verified (now : Z) (b : NameBody) (i : Identity) : Identity :=
  {| pi_state := pi_state i; pi_known := pi_known i; pi_first_seen := pi_first_seen i; pi_last_seen := pi_last_seen i;
     pi_state_observed_at := pi_state_observed_at i; pi_match_count := pi_match_count i;
     pi_tracking_version := pi_tracking_version i; pi_status := "verified"; pi_confidence := pi_confidence i;
     pi_active := pi_active i; pi_merged_into := pi_merged_into i;
     pi_verification := {| vf_name := Some (nb_name b); vf_at := Some now; vf_by := Some (nb_verified_by b);
                           vf_evidence := Some (nb_evidence_ref b) |};
     pi_moderation := pi_moderation i; pi_alias := pi_alias i; pi_updated_at := now |}.

(** Other active identities of the name. *)
Definition possible_duplicates (id : Z) (name : string) (d : PrivateDb) : list Z :=
  sort_by Z.leb (map fst (List.filter (fun e => negb (fst e =? id) && pi_active (snd e)
    && match vf_name (pi_verification (snd e)) with Some n => String.eqb (sql_lower n) (sql_lower name) | None => false end)
    (map_to_list (pd_identities d)))).

Record NameVerified := { nv_private_id : Z; nv_name : string; nv_verification_id : Z; nv_verified_at : Z; nv_duplicates : list Z }.

Definition storable_body (b : NameBody) : bool :=
  free_of_nul (nb_name b) && free_of_nul (nb_evidence_ref b) && free_of_nul (nb_verified_by b)
  && match nb_notes b with Some s => free_of_nul s | None => true end.

(** The statements after the identity was found. *)
Definition verify_identity (now id : Z) (b : NameBody) : ST PrivateDb (result NameVerified string) := fun d =>
  if storable_body b then
    let verification := pd_next_verification d in
    let row := {| vr_player := id; vr_name := nb_name b; vr_evidence_ref := nb_evidence_ref b;
                  vr_evidence_sha256 := nb_evidence_sha256 b; vr_notes := nb_notes b; vr_verified_by := nb_verified_by b;
                  vr_active := true; vr_revoked_at := None; vr_created_at := now |} in
    let revoked := (fun r => if (vr_player r =? id) && vr_active r then revoke now r else r) <$> pd_verifications d in
    let d := with_verifications (<[verification := row]> revoked) (verification + 1) d in
    let d := update_identities (alter (set_verified now b) id) d in
    (Ok {| nv_private_id := id; nv_name := nb_name b; nv_verification_id := verification; nv_verified_at := now;
           nv_duplicates := possible_duplicates id (nb_name b) d |}, d)
  else (Err "invalid byte sequence for encoding", d).

(** A failed body is rolled back; so is one that finds no identity. *)
Definition verify_name (private_id : string) (body : value) : ST X (result NameVerified Refusal) := fun s =>
  match positive_id private_id, validate_name (name_body body) with
  | None, _ => (validation "Invalid private account ID", s)
  | Some _, Err e => (Err e, s)
  | Some id, Ok _ =>
      let '(r, s') := private_transaction (fun now d =>
          if identity_tracked d id then verify_identity now id (name_body body) d else (Err EmptyString, d)) s in
      (match r with
       | Ok v => Ok v
       | Err e => Err (if is_empty e then Refused 404 "NOT_FOUND" "Active private identity not found" else database_refusal e)
       end, s')
  end.

(** ** Moderation *)

Definition confirmed (now : Z) (cheater : bool) (reason : option string) (m : Moderation) : Moderation :=
  {| md_cheater := cheater; md_reason := if cheater then reason else None;
     md_marked_at := if cheater then Some now else None; md_sus_count := md_sus_count m |}.

Definition moderate (now id : Z) (cheater : bool) (reason : option string) (d : PrivateDb) : option (Z * Identity) * PrivateDb :=
  match canonical_identity id d with
  | Some canonical =>
      let d := update_identities (alter (fun i => set_moderation now (confirmed now cheater reason (pi_moderation i)) i) canonical) d in
      ((fun i => (canonical, i)) <$> pd_identities d !! canonical, d)
  | None => (None, d)
  end.

Definition moderation (private_id : string) (body : value) : ST X (result (Z * Identity) Refusal) :=
  match positive_id private_id, get "cheater" body ≫= as_bool with
  | None, _ => mret (validation "Invalid private account ID")
  | _, None => mret (validation "cheater must be a boolean")
  | Some id, Some cheater =>
      let reason := body_text "reason" body in
      if cheater && is_empty reason then mret (validation "A reason is required when confirming a cheater")
      else if negb (text_length reason <=? 2000) then mret (validation "reason must be at most 2000 characters")
      else
        updated ← private_query (fun now d => if free_of_nul reason then Ok (moderate now id cheater (optional_text reason) d)
                                              else Err "invalid byte sequence for encoding");
        mret (match updated with
              | Ok (Some account) => Ok account
              | Ok None => Err (Refused 404 "NOT_FOUND" "Private account not found")
              | Err e => Err (database_refusal e)
              end)
  end.

(** ** Reports of users *)

Record UserSession := { us_id : Z; us_admin : bool; us_approved : bool }.

(** What the report changed: whether the vote is new, and the count. *)
Inductive Reported := Suspicious (created : bool) (id sus_count : Z) | Cheater (created : bool) (id : Z).

Definition vote_suspicious (now id user : Z) (reason : string) (d : PrivateDb) :
    result ((bool * option Z) * PrivateDb) string :=
  let k := (id, user, "suspicious"%string) in
  match pd_votes d !! k with
  | Some _ => Ok (false, None, d)
  | None =>
      let d' := with_votes (<[k := {| vt_reason := reason; vt_created_at := now |}]> (pd_votes d)) d in
      match pd_identities d !! id with
      | Some i =>
          let m := pi_moderation i in
          if i32_max <=? md_sus_count m then Err "integer out of range"
          else
            let m' := {| md_cheater := md_cheater m; md_reason := md_reason m; md_marked_at := md_marked_at m;
                         md_sus_count := md_sus_count m + 1 |} in
            Ok (true, Some (md_sus_count m + 1), update_identities (alter (set_moderation now m') id) d')
      | None => Err "insert or update violates foreign key constraint"
      end
  end.

Definition vote_cheater (now id user : Z) (reason : string) (d : PrivateDb) : result (bool * PrivateDb) string :=
  let k := (id, user, "cheater"%string) in
  match pd_identities d !! id with
  | Some i =>
      let m := pi_moderation i in
      let m' := {| md_cheater := true; md_reason := Some reason;
                   md_marked_at := match md_marked_at m with Some t => Some t | None => Some now end;
                   md_sus_count := md_sus_count m |} in
      let d' := update_identities (alter (set_moderation now m') id) d in
      Ok (match pd_votes d !! k with
          | Some _ => (false, d')
          | None => (true, with_votes (<[k := {| vt_reason := reason; vt_created_at := now |}]> (pd_votes d)) d')
          end)
  | None => Err "insert or update violates foreign key constraint"
  end.

Definition database_answer {A} (r : result A string) : result A Refusal := map_err database_refusal r.

Definition report_private_account (private_id : string) (session : option UserSession) (report_type reason : option string) :
    ST X (result Reported Refusal) :=
  match positive_id (trim private_id), session with
  | None, _ => mret (validation "Invalid private account ID")
  | _, None => mret (Err (Refused 401 "AUTH" "Authentication required"))
  | Some requested, Some user =>
      let kind := default EmptyString report_type in
      let reason := trim (default EmptyString reason) in
      if negb (String.eqb kind "suspicious" || String.eqb kind "cheater") then
        mret (validation "Private accounts support suspicious and cheater reports")
      else if is_empty reason then mret (validation "A reason is required")
      else if negb (utf16_length reason <=? 2000) then mret (validation "reason must be at most 2000 characters")
      else if String.eqb kind "cheater" && negb (us_admin user) && negb (us_approved user) then
        mret (Err (Refused 403 "PERMISSION" "Action requires admin or approved status"))
      else
        found ← private_query (fun _ d => Ok (canonical_identity requested d, d));
        match found with
        | Err e => mret (Err (database_refusal e))
        | Ok None => mret (Err (Refused 404 "NOT_FOUND" "Private account not found"))
        | Ok (Some id) =>
            let stored {A} (f : result A string) : result A string :=
              if free_of_nul reason then f else Err "invalid byte sequence for encoding" in
            if String.eqb kind "suspicious" then
              voted ← private_query (fun now d => stored (vote_suspicious now id (us_id user) reason d));
              match voted with
              | Err e => mret (Err (database_refusal e))
              | Ok (created, Some n) => mret (Ok (Suspicious created id n))
              | Ok (created, None) =>
                  count ← private_query (fun _ d => Ok (default 0 ((fun i => md_sus_count (pi_moderation i)) <$> pd_identities d !! id), d));
                  mret (database_answer (n <-! count; Ok (Suspicious created id n)))
              end
            else
              voted ← private_query (fun now d => stored (vote_cheater now id (us_id user) reason d));
              mret (database_answer (created <-! voted; Ok (Cheater created id)))
        end
  end.
End accounts.
