(* ===== verification/PrivateIdentitySpec.v ===== *)
(** * Properties of private identities

    The statements and transactions of PrivateIdentity and PrivateAccounts are
    runs of the steps of IdentityTracking, so that what those promise holds of
    the tables whatever is done in whatever order; the contract of a
    resolution; what better sources and repeated rows do. *)

From S2P Require Import Prelude Json F64 JsValue IdentityScore IdentityTracking PrivateIdentity PrivateAccounts.

(** ** The view of the tables *)

Definition summary (i : Identity) : Summary :=
  {| sm_merged_into := pi_merged_into i; sm_active := pi_active i; sm_count := pi_match_count i;
     sm_suspicions := md_sus_count (pi_moderation i) |}.

Definition view (d : PrivateDb) : Tracking :=
  {| tk_links := linked_id <$> pd_observations d; tk_ids := summary <$> pd_identities d; tk_next := pd_next_identity d;
     tk_votes := dom (pd_votes d) |}.

Definition set_count (n : Z) (s : Summary) : Summary :=
  {| sm_merged_into := sm_merged_into s; sm_active := sm_active s; sm_count := n; sm_suspicions := sm_suspicions s |}.

Lemma view_link d k l : tk_links (view d) !! k = Some l <-> exists o, pd_observations d !! k = Some o /\ linked_id o = l.
Proof. cbn. rewrite lookup_fmap_Some. naive_solver. Qed.

Lemma view_id d id s : tk_ids (view d) !! id = Some s <-> exists i, pd_identities d !! id = Some i /\ summary i = s.
Proof. cbn. rewrite lookup_fmap_Some. naive_solver. Qed.

Lemma tracking_eq (t t' : Tracking) :
  tk_links t = tk_links t' -> tk_ids t = tk_ids t' -> tk_next t = tk_next t' -> tk_votes t = tk_votes t' -> t = t'.
Proof. destruct t, t'. cbn. by intros -> -> -> ->. Qed.

(** ** Counting rows *)

Lemma length_filter_size {K} `{Countable K} {A} (p : K * A -> bool) (m : gmap K A) :
  length (List.filter p (map_to_list m)) = size (base.filter (fun e => p e = true) m).
Proof.
  rewrite <- length_map_to_list. apply Permutation_length. apply NoDup_Permutation.
  - apply NoDup_ListNoDup, List.NoDup_filter, NoDup_ListNoDup, NoDup_map_to_list.
  - apply NoDup_map_to_list.
  - intros [k x]. rewrite list_elem_of_In, List.filter_In, <- list_elem_of_In, !elem_of_map_to_list, map_lookup_filter_Some. done.
Qed.

Lemma rows_count d id : Z.of_nat (length (rows_of id d)) = owned_count id (tk_links (view d)).
Proof.
  unfold rows_of, owned_count, owned. f_equal. rewrite length_filter_size. cbn. rewrite map_filter_fmap, map_size_fmap.
  f_equal. apply map_eq. intros k. apply option_eq. intros o. rewrite !map_lookup_filter_Some. cbn. unfold linked_to.
  by rewrite bool_decide_eq_true.
Qed.

Lemma votes_count d id : count_votes id "suspicious" d = suspicions id (dom (pd_votes d)).
Proof.
  unfold count_votes, suspicions. f_equal. rewrite length_filter_size, <- (size_dom (D := gset (Z * Z * string))). apply set_size_proper.
  intros k. rewrite elem_of_dom, elem_of_filter, elem_of_dom. unfold is_Some.
  assert (vote_of id "suspicious" k = true <-> fst (fst k) = id /\ snd k = "suspicious"%string) as <-.
  { unfold vote_of. by rewrite andb_true_iff, Z.eqb_eq, String.eqb_eq. }
  setoid_rewrite map_lookup_filter_Some. cbn. naive_solver.
Qed.

Lemma rows_of_in d id k o : (k, o) ∈ rows_of id d <-> pd_observations d !! k = Some o /\ linked_id o = Some id.
Proof.
  unfold rows_of, linked_to. rewrite list_elem_of_In, List.filter_In, <- list_elem_of_In, elem_of_map_to_list. cbn.
  by rewrite bool_decide_eq_true.
Qed.

(** ** Statements and their views *)

Lemma imap_lookup {A} (p : Z * Z -> A -> bool) (f : Z * Z -> A -> A) (m : gmap (Z * Z) A) k :
  map_imap (fun k o => Some (if p k o then f k o else o)) m !! k = (fun o => if p k o then f k o else o) <$> m !! k.
Proof. rewrite map_lookup_imap. by destruct (m !! k). Qed.

(** An update of observations that keeps their links. *)
Lemma view_update p f d :
  (forall k o, pd_observations d !! k = Some o -> p k o = true -> linked_id (f k o) = linked_id o) ->
  view (update_observations p f d) = view d.
Proof.
  intros H. apply tracking_eq; try done. cbn. apply map_eq. intros k. rewrite !lookup_fmap, imap_lookup.
  destruct (pd_observations d !! k) as [o|] eqn:E; [|done]. cbn. destruct (p k o) eqn:Ep; [|done]. by rewrite (H k o E Ep).
Qed.

Lemma view_resolve_row now k r d :
  is_Some (pd_observations d !! k) -> view (resolve_row now k r d) = with_links (<[k := rs_private_player_id r]> (tk_links (view d))) (view d).
Proof.
  intros [o Ho]. apply tracking_eq; try done. cbn. apply map_eq. intros k'. rewrite lookup_fmap, imap_lookup.
  destruct (decide (k' = k)) as [-> |Hne].
  - rewrite lookup_insert_eq, Ho. cbn. by rewrite bool_decide_true.
  - rewrite lookup_insert_ne, lookup_fmap by done. destruct (pd_observations d !! k'); [|done]. cbn. by rewrite bool_decide_false.
Qed.

Lemma view_identities f d : view (update_identities f d) = with_ids (summary <$> f (pd_identities d)) (view d).
Proof. done. Qed.

Lemma view_link_player m s id d : view (link_match_player m s id d) = view d.
Proof. done. Qed.

Lemma view_presence now o id c d : view (upsert_private_presence now o id c d) = view d.
Proof. unfold upsert_private_presence. by destruct (queue_scope o) as [[q sc]|]. Qed.

Lemma view_unresolved now o r d : view (upsert_unresolved_presence now o r d) = view d.
Proof. unfold upsert_unresolved_presence. by destruct (queue_scope o) as [[q sc]|]. Qed.

Lemma summary_refreshed now x l i : summary (refreshed now x l i) = set_count (Z.of_nat (length (x :: l))) (summary i).
Proof. done. Qed.

Lemma view_refresh now id d :
  rows_of id d <> [] ->
  view (refresh_identity now id d) = with_ids (alter (set_count (owned_count id (tk_links (view d)))) id (tk_ids (view d))) (view d).
Proof.
  intros Hr. unfold refresh_identity. pose proof (sort_by_perm le_latest (rows_of id d)) as Hp.
  destruct (sort_by le_latest (rows_of id d)) as [|x l]; [by apply Permutation_nil_l in Hp|].
  rewrite view_identities, <- (rows_count d id), <- (Permutation_length Hp). f_equal. cbn [tk_ids view]. apply map_eq. intros k.
  rewrite lookup_fmap.
  destruct (decide (k = id)) as [-> |Hne].
  - rewrite !lookup_alter_eq, lookup_fmap. destruct (pd_identities d !! id); [|done]. cbn [fmap option_fmap option_map]. by rewrite summary_refreshed.
  - by rewrite !lookup_alter_ne, lookup_fmap by done.
Qed.

Lemma view_refresh_same now id d :
  tracking_inv (view d) -> view (refresh_identity now id d) = view d.
Proof.
  intros I. destruct (rows_of id d) as [|[k o] l] eqn:E.
  { unfold refresh_identity. by rewrite E. }
  rewrite view_refresh by (by rewrite E). apply tracking_eq; try done. cbn [with_ids tk_ids].
  apply map_eq. intros x. destruct (decide (x = id)) as [-> |Hne]; [|by rewrite lookup_alter_ne].
  rewrite lookup_alter_eq. destruct (tk_ids (view d) !! id) as [s|] eqn:Es; [|done]. cbn. f_equal.
  assert (tk_links (view d) !! k = Some (Some id)) as Hk.
  { apply view_link. assert ((k, o) ∈ rows_of id d) as Hin by (rewrite E; by left). apply rows_of_in in Hin. exists o. naive_solver. }
  destruct (ti_link _ I k id Hk) as (s' & Hs' & Hm). rewrite Es in Hs'. injection Hs' as <-.
  pose proof (ti_count _ I k id s Hk Es) as Hc. cbn in Hc. unfold set_count. rewrite <- Hc. by destruct s.
Qed.

(** Linking an observation is a step. *)
Lemma link_observation_tracks now o id status confidence reasons d i :
  tk_links (view d) !! observation_key o = Some None -> pd_identities d !! id = Some i -> pi_merged_into i = None ->
  (forall k', tk_links (view d) !! k' = Some (Some id) -> fst k' <> ob_match_id o) ->
  let d' := link_observation now o id status confidence reasons d in
  tracking_step (view d) (view d') /\ tk_links (view d') = <[observation_key o := Some id]> (tk_links (view d)).
Proof.
  intros Hk Hi Hm Hap. cbv zeta. unfold link_observation. rewrite view_presence.
  set (d1 := resolve_row _ _ _ _). set (d2 := with_history _ _).
  assert (view d2 = with_links (<[observation_key o := Some id]> (tk_links (view d))) (view d)) as Hv.
  { unfold d2. change (view (with_history _ (link_match_player (ob_match_id o) (ob_private_slot o) id d1))) with (view d1).
    unfold d1. rewrite view_resolve_row; [done|]. apply view_link in Hk as (r & Hr & _). eauto. }
  assert (rows_of id d2 <> []) as Hrows.
  { assert (tk_links (view d2) !! observation_key o = Some (Some id)) as Hl by (rewrite Hv; apply lookup_insert_eq).
    apply view_link in Hl as (r & Hr & Hlr). intros Hnil. assert ((observation_key o, r) ∈ rows_of id d2) as Hin by (by apply rows_of_in).
    rewrite Hnil in Hin. set_solver. }
  rewrite view_refresh, Hv by done. cbn [with_links tk_links tk_ids]. split; [|done].
  assert (tk_ids (view d) !! id = Some (root (pi_active i) (pi_match_count i) (md_sus_count (pi_moderation i)))) as Hid.
  { apply view_id. exists i. split; [done|]. unfold summary, root. by rewrite Hm. }
  rewrite (alter_alt_Some _ _ _ _ Hid). by eapply track_linked.
Qed.

(** ** The resolution of an observation *)

Lemma observation_row_key k o : observation_key (observation_row k o) = k.
Proof. by destruct k. Qed.

Lemma not_used d m id k : used_in_match d m id = false -> tk_links (view d) !! k = Some (Some id) -> fst k <> m.
Proof.
  intros Hu Hk Hm. apply view_link in Hk as (o & Ho & Hl). unfold used_in_match in Hu. apply not_true_iff_false in Hu. apply Hu.
  apply existsb_exists. exists (k, o). rewrite <- list_elem_of_In, elem_of_map_to_list. split; [done|].
  apply andb_true_iff. split; [by apply Z.eqb_eq|]. by apply bool_decide_eq_true.
Qed.

Lemma grouped_candidate d o id obs :
  (id, obs) ∈ grouped_candidates d o ->
  identity_tracked d id = true /\ used_in_match d (ob_match_id o) id = false /\
  forall c, c ∈ obs -> exists k r, pd_observations d !! k = Some r /\ linked_id r = Some id /\ c = observation_row k r.
Proof.
  unfold grouped_candidates. rewrite list_elem_of_In, List.in_map_iff. intros (id' & [= -> <-] & Hid).
  rewrite <- list_elem_of_In, sort_by_perm, elem_of_remove_dups, list_elem_of_omap in Hid. destruct Hid as ([k r] & Hr & Hl).
  cbn in Hl. apply list_elem_of_In, List.filter_In in Hr as [Hr Hc]. unfold is_candidate in Hc. cbn in Hc. rewrite Hl in Hc.
  bool_props. split_and!; try done. intros c. rewrite sort_by_perm, list_elem_of_In, List.in_map_iff.
  intros ([k' r'] & <- & Hin). apply List.filter_In in Hin as [Hin Hlr]. apply List.filter_In in Hin as [Hin _].
  apply list_elem_of_In, elem_of_map_to_list in Hin. apply bool_decide_eq_true in Hlr. exists k', r'. done.
Qed.

Lemma tracked_root d id : tracking_inv (view d) -> identity_tracked d id = true ->
  exists i, pd_identities d !! id = Some i /\ pi_active i = true /\ pi_merged_into i = None.
Proof.
  intros I. unfold identity_tracked. destruct (pd_identities d !! id) as [i|] eqn:E; [|done]. intros [_ Ha]%andb_true_iff.
  exists i. split_and!; try done. apply (ti_active _ I id (summary i)); [|done]. apply view_id. eauto.
Qed.

(** A program that runs steps, from tables in order. *)
Definition tracks {A} (f : ST PrivateDb A) : Prop :=
  forall d, tracking_inv (view d) -> rtc tracking_step (view d) (view (snd (f d))).

Definition keeps_links (k : Z * Z) (d d' : PrivateDb) : Prop :=
  forall k', k' <> k -> tk_links (view d') !! k' = tk_links (view d) !! k'.

Lemma view_same_tracks k d d' : view d' = view d -> rtc tracking_step (view d) (view d') /\ keeps_links k d d'.
Proof. intros E. unfold keeps_links. rewrite E. split; [apply rtc_refl|done]. Qed.

Lemma create_and_link_tracks now o reasons d r d' :
  tracking_inv (view d) -> tk_links (view d) !! observation_key o = Some None ->
  (id <-? create_identity now o;
   _ <-? on_db (link_observation now o id "new_identity" 100 reasons);
   mret (M := ST PrivateDb) (Ok Created)) d = (r, d') ->
  rtc tracking_step (view d) (view d') /\ keeps_links (observation_key o) d d'.
Proof.
  intros I Hk. unfold try_bind, create_identity. destruct (i32_max <? pd_next_identity d); [intros [= _ <-]; by apply view_same_tracks|].
  cbn [on_db mret ST_ret]. set (id := pd_next_identity d). set (d1 := with_identities _ _ d). intros [= _ <-].
  assert (view d1 = with_next (id + 1) (with_ids (<[id := root true 0 0]> (tk_ids (view d))) (view d))) as Hv.
  { apply tracking_eq; try done. cbn. by rewrite fmap_insert. }
  assert (tracking_step (view d) (view d1)) as Hs by (rewrite Hv; apply track_created).
  pose proof (tracking_step_inv _ _ Hs I) as I1.
  destruct (link_observation_tracks now o id "new_identity" 100 reasons d1 (new_identity now o id)) as [Hl Hlinks].
  - by rewrite Hv.
  - cbn. by rewrite lookup_insert_eq.
  - done.
  - intros k' Hk'. rewrite Hv in Hk'. cbn [with_next with_ids tk_links] in Hk'. destruct (ti_link _ I k' id Hk') as (s & Hi & _).
    apply (ti_next _ I) in Hi. cbn in Hi. unfold id in Hi. lia.
  - split; [eapply rtc_l; [exact Hs|]; by apply rtc_once|]. intros k' Hne. rewrite Hlinks, lookup_insert_ne by done. by rewrite Hv.
Qed.

Lemma resolve_observation_tracks now k o d r d' :
  tracking_inv (view d) -> tk_links (view d) !! k = Some (linked_id o) ->
  resolve_observation now (observation_row k o) (linked_id o) d = (r, d') ->
  rtc tracking_step (view d) (view d') /\ keeps_links k d d'.
Proof.
  intros I Hk. pose proof (observation_row_key k o) as Ek. unfold resolve_observation. rewrite Ek.
  destruct (negb _).
  { unfold try_bind. cbn [on_db mret ST_ret]. intros [= _ <-]. apply view_same_tracks. rewrite view_unresolved. by apply view_update. }
  destruct (linked_id o) as [id|] eqn:El.
  { unfold try_bind. cbn [on_db mret ST_ret]. intros [= _ <-]. apply view_same_tracks.
    rewrite view_refresh_same by (by rewrite view_link_player). done. }
  unfold try_bind at 1. unfold candidate_observations. destruct (levels_in_range _); [|intros [= _ <-]; by apply view_same_tracks].
  pose proof (fun reasons => create_and_link_tracks now (observation_row k o) reasons d r d' I) as Hnew. rewrite Ek in Hnew.
  specialize (fun reasons => Hnew reasons Hk).
  destruct (rank_candidates _ _) as [|best others] eqn:Er; [apply Hnew|]. destruct (has_threshold _ && has_margin _).
  - unfold try_bind. cbn [on_db mret ST_ret]. intros [= _ <-].
    assert (best ∈ rank_candidates (observation_row k o) (grouped_candidates d (observation_row k o))) as Hb
      by (rewrite Er; by left).
    apply ranked_in in Hb as (obs & Hg & _). apply grouped_candidate in Hg as (Ht & Hu & _).
    destruct (tracked_root d (fst best) I Ht) as (i & Hi & _ & Hm).
    destruct (link_observation_tracks now (observation_row k o) (fst best) "linked" (is_score (snd best)) (is_reasons (snd best)) d i)
      as [Hs Hlinks]; [by rewrite Ek|done|done|by intros k' Hk'; eapply not_used|].
    split; [by apply rtc_once|]. intros k' Hne. by rewrite Hlinks, Ek, lookup_insert_ne.
  - destruct (_ && _); [|apply Hnew]. unfold try_bind. cbn [on_db mret ST_ret]. intros [= _ <-]. apply view_same_tracks.
    rewrite view_unresolved. by apply view_update.
Qed.

Lemma resolve_rows_tracks now rows d :
  tracking_inv (view d) -> NoDup (map fst rows) ->
  (forall k o, (k, o) ∈ rows -> tk_links (view d) !! k = Some (linked_id o)) ->
  rtc tracking_step (view d) (view (snd (resolve_rows now rows d))).
Proof.
  revert d. induction rows as [|[k o] rows IH]; intros d I Hn Hl; [apply rtc_refl|]. cbn [resolve_rows]. cbn in Hn.
  apply NoDup_cons in Hn as [Hk Hn]. unfold try_bind.
  destruct (resolve_observation now (observation_row k o) (linked_id o) d) as [y d1] eqn:E.
  destruct (resolve_observation_tracks now k o d y d1 I) as [Hr Hkeep]; [apply Hl; by left|done|].
  destruct y as [x|e]; [|done].
  assert (rtc tracking_step (view d1) (view (snd (resolve_rows now rows d1)))) as Hr2.
  { apply IH; [by eapply tracking_run|done|]. intros k' o' Hin. rewrite Hkeep; [apply Hl; by right|].
    intros ->. apply Hk. apply list_elem_of_In, List.in_map_iff. exists (k, o'). by rewrite <- list_elem_of_In. }
  etrans; [exact Hr|]. by destruct (resolve_rows now rows d1) as [[y|e] d2].
Qed.

Lemma rows_of_match_spec m d :
  NoDup (map fst (rows_of_match m d)) /\
  forall k o, (k, o) ∈ rows_of_match m d -> pd_observations d !! k = Some o /\ fst k = m.
Proof.
  unfold rows_of_match. split.
  - rewrite sort_by_perm. pose proof (NoDup_fst_map_to_list (pd_observations d)) as Hn. revert Hn.
    generalize (map_to_list (pd_observations d)). intros l. induction l as [|[k o] l IH]; cbn; [done|]. intros [Hk Hn]%NoDup_cons.
    destruct (fst k =? m); cbn; [|by apply IH]. apply NoDup_cons. split; [|by apply IH]. intros Hin. apply Hk.
    apply list_elem_of_In, List.in_map_iff in Hin as (e & He & Hin). apply List.filter_In in Hin as [Hin _].
    apply list_elem_of_In, List.in_map_iff. by exists e.
  - intros k o. rewrite sort_by_perm, list_elem_of_In, List.filter_In, <- list_elem_of_In, elem_of_map_to_list, Z.eqb_eq. done.
Qed.

Lemma resolve_match_rows_tracks now m : tracks (resolve_match_rows now m).
Proof.
  intros d I. unfold resolve_match_rows, try_bind. cbn [on_db]. set (d1 := update_party_members now m d).
  assert (view d1 = view d) as Hv by (by apply view_update). rewrite <- Hv. destruct (rows_of_match_spec m d1) as [Hn Hin].
  apply resolve_rows_tracks; [by rewrite Hv|done|]. intros k o Hk. apply Hin in Hk as [Hk _]. apply view_link. eauto.
Qed.

(** ** Merges *)

Definition set_suspicions (n : Z) (s : Summary) : Summary :=
  {| sm_merged_into := sm_merged_into s; sm_active := sm_active s; sm_count := sm_count s; sm_suspicions := n |}.

(** An update of one identity, seen from its summary. *)
Lemma view_alter (f : Identity -> Identity) (g : Summary -> Summary) id d :
  (forall i, pd_identities d !! id = Some i -> summary (f i) = g (summary i)) ->
  view (update_identities (alter f id) d) = with_ids (alter g id (tk_ids (view d))) (view d).
Proof.
  intros H. rewrite view_identities. f_equal. cbn. apply map_eq. intros k. rewrite lookup_fmap.
  destruct (decide (k = id)) as [-> |Hne]; [|by rewrite !lookup_alter_ne, lookup_fmap by done].
  rewrite !lookup_alter_eq, lookup_fmap. destruct (pd_identities d !! id) as [i|] eqn:E; [|done]. cbn. by rewrite H.
Qed.

(** One that changes nothing of it. *)
Lemma view_alter_same (f : Identity -> Identity) id d :
  (forall i, pd_identities d !! id = Some i -> summary (f i) = summary i) -> view (update_identities (alter f id) d) = view d.
Proof.
  intros H. rewrite (view_alter f (fun s => s)) by done. apply tracking_eq; try done. cbn [with_ids tk_ids]. apply map_eq. intros k.
  destruct (decide (k = id)) as [-> |Hne]; [|by rewrite lookup_alter_ne]. rewrite lookup_alter_eq. by destruct (tk_ids (view d) !! id).
Qed.

(** A merge fails at its second statement, after the links of the players. *)
Lemma merge_identity_fails now source target best d :
  merge_identity now source target best d = (Err "error serializing parameter 2", move_links source target d).
Proof. reflexivity. Qed.

Lemma merge_source_view now source d : view (snd (merge_source now source d)) = view d.
Proof.
  unfold merge_source. destruct (pd_identities d !! source) as [s|]; [|done]. destruct (negb _); [done|].
  destruct (sort_by le_oldest _) as [|first rest]; [done|]. destruct (levels_in_range _); [|done].
  destruct (merge_target _ _ _ _ d) as [best|]; [|done]. unfold try_bind. by rewrite merge_identity_fails.
Qed.

(** ** Programs that track *)

Lemma tracks_ret {A} (a : A) : tracks (mret (M := ST PrivateDb) a).
Proof. intros d _. apply rtc_refl. Qed.

Lemma tracks_quiet {A} (f : ST PrivateDb A) : (forall d, view (snd (f d)) = view d) -> tracks f.
Proof. intros H d _. rewrite H. apply rtc_refl. Qed.

Lemma tracks_bind {A B} (f : ST PrivateDb (result A string)) (g : A -> ST PrivateDb (result B string)) :
  tracks f -> (forall a, tracks (g a)) -> tracks (try_bind f g).
Proof.
  intros Hf Hg d I. pose proof (Hf d I) as H1. unfold try_bind. destruct (f d) as [[a|e] d1]; [|done].
  etrans; [exact H1|]. apply Hg. by eapply tracking_run.
Qed.

Lemma merge_each_tracks now sources merged : tracks (merge_each now sources merged).
Proof.
  revert merged. induction sources as [|source sources IH]; intros merged; [apply tracks_ret|].
  cbn [merge_each]. apply tracks_bind; [apply tracks_quiet, merge_source_view|]. intros m. apply IH.
Qed.

Lemma reconcile_body_tracks now : tracks (reconcile_body now).
Proof. intros d I. by apply merge_each_tracks. Qed.

(** An observation is seen first without a link, and keeps the link it gets. *)
Lemma upsert_tracks now keep k new rows d :
  linked_id new = None ->
  rtc tracking_step (view (with_observations rows d)) (view (with_observations (upsert_observation now keep k new rows) d)).
Proof.
  intros Hn. unfold upsert_observation. destruct (rows !! k) as [old|] eqn:E.
  - assert (view (with_observations (<[k := merge_observation now keep new old]> rows) d) = view (with_observations rows d)) as ->;
      [|apply rtc_refl]. apply tracking_eq; try done. cbn. rewrite fmap_insert. apply insert_id. by rewrite lookup_fmap, E.
  - apply rtc_once. assert (view (with_observations (<[k := new]> rows) d)
      = with_links (<[k := None]> (tk_links (view (with_observations rows d)))) (view (with_observations rows d))) as ->.
    { apply tracking_eq; try done. cbn. by rewrite fmap_insert, Hn. }
    apply track_seen. cbn. by rewrite lookup_fmap, E.
Qed.

Lemma upserts_track {R} now keep (key : R -> Z * Z) (row : R -> ObservationRow) l rows d :
  (forall r, r ∈ l -> linked_id (row r) = None) ->
  rtc tracking_step (view (with_observations rows d))
    (view (with_observations (foldl (fun m r => upsert_observation now keep (key r) (row r) m) rows l) d)).
Proof.
  revert rows. induction l as [|r l IH]; intros rows H; [apply rtc_refl|]. cbn [foldl].
  etrans; [|apply IH; intros x Hx; apply H; by right]. apply upsert_tracks. apply H. by left.
Qed.

Lemma with_own_observations d : view (with_observations (pd_observations d) d) = view d.
Proof. done. Qed.

Section programs.
Context `{SqlText}.

Lemma upsert_match_observations_tracks now p scope limited players :
  tracks (upsert_match_observations now p scope limited players).
Proof.
  intros d _. unfold upsert_match_observations. destruct (incoming_rows _ _) as [rows|]; [|apply rtc_refl]. cbn.
  destruct rows as [|r rows]; [apply rtc_refl|]. destruct (sql_timestamptz _); [|apply rtc_refl].
  destruct (negb _); [apply rtc_refl|]. destruct (negb _); [apply rtc_refl|]. rewrite <- with_own_observations at 1.
  by apply (upserts_track now false (fun r => (ip_match_id p, in_slot r))).
Qed.

Lemma persist_tracks now p players limited : tracks (persist_and_resolve_private_identities now p players limited).
Proof.
  apply tracks_bind; [apply tracks_quiet; intros d; by destruct (pd_scopes d !! _)|]. intros scope.
  apply tracks_bind; [apply upsert_match_observations_tracks|]. intros []. intros d I. cbv beta zeta.
  match goal with |- context [if ?b then _ else _] => destruct b end; [apply rtc_refl|].
  revert d I. apply tracks_bind; [apply resolve_match_rows_tracks|]. intros outcomes. apply tracks_ret.
Qed.

Lemma adopt_version_view now d : view (adopt_version now d) = view d.
Proof.
  unfold adopt_version, update_where. rewrite view_identities. apply tracking_eq; try done. cbn. apply map_eq. intros k.
  rewrite !lookup_fmap. destruct (pd_identities d !! k) as [i|]; [|done]. cbn. by destruct (_ && _).
Qed.

Lemma retire_legacy_step now d : tracking_step (view d) (view (retire_legacy now d)).
Proof.
  set (legacy := fun i => (pi_tracking_version i =? 1) && pi_active i && unverified i).
  assert (view (retire_legacy now d) = with_ids (map_imap (fun id s => Some (if match pd_identities d !! id with
    | Some i => legacy i | None => false end then deactivate s else s)) (tk_ids (view d))) (view d)) as ->; [|apply track_retired].
  apply tracking_eq; try done. cbn. apply map_eq. intros k. rewrite map_lookup_imap, !lookup_fmap.
  destruct (pd_identities d !! k) as [i|]; [|done]. cbn. fold (legacy i). by destruct (legacy i).
Qed.

Lemma backfill_row_unlinked now d p r : backfill_row now d p = Some r -> linked_id (snd r) = None.
Proof. unfold backfill_row. destruct (is_private_account p); [|done]. by destruct (pd_matches d !! _); [intros [= <-]|]. Qed.

Lemma backfill_observations_tracks now d d' :
  backfill_observations now d = Ok d' -> rtc tracking_step (view d) (view d').
Proof.
  unfold backfill_observations. case_bool_decide; [|done]. intros [= <-]. rewrite <- with_own_observations at 1.
  apply (upserts_track now true fst snd). intros r Hr. apply list_elem_of_omap in Hr as (p & _ & Hp). by eapply backfill_row_unlinked.
Qed.

(** *** Transactions *)

Context {W : Type} `{PrivateSql W}.

Definition tracked {A} (f : ST (PrivateDb * W) A) : Prop :=
  forall s, tracking_inv (view (fst s)) -> rtc tracking_step (view (fst s)) (view (fst (snd (f s)))).

Lemma next_run t t' : rtc tracking_step t t' -> tk_next t <= tk_next t'.
Proof. induction 1 as [|t t1 t2 Hs _ IH]; [done|]. etrans; [|exact IH]. destruct Hs; cbn; lia. Qed.

Lemma rolled_back_tracks d d' :
  rtc tracking_step (view d) (view d') -> rtc tracking_step (view d) (view (rolled_back d d')).
Proof. intros Hr. apply rtc_once. apply (track_skipped (pd_next_identity d')). by apply (next_run _ _ Hr). Qed.

Lemma transaction_tracked {A} (body : Z -> ST PrivateDb (result A string)) :
  (forall now, tracks (body now)) -> tracked (private_transaction body).
Proof.
  intros Hb [d w] I. unfold private_transaction. cbn [fst snd]. destruct (private_begin w) as [[now|e] w1]; [|apply rtc_refl].
  pose proof (Hb now d I) as Ht. destruct (body now d) as [[a|e] d1]; cbn [snd] in Ht.
  - destruct (private_commit w1) as [o w2]. cbn [fst snd]. destruct (applied o); [done|by apply rolled_back_tracks].
  - cbn [fst snd]. by apply rolled_back_tracks.
Qed.

Lemma query_tracked {A} (f : Z -> PrivateDb -> result (A * PrivateDb) string) :
  (forall now d a d', tracking_inv (view d) -> f now d = Ok (a, d') -> rtc tracking_step (view d) (view d')) ->
  tracked (private_query f).
Proof.
  intros Hf [d w] I. unfold private_query. cbn [fst snd]. destruct (private_statement w) as [[now o] w1].
  destruct (f now d) as [[a d1]|e] eqn:E; [|apply rtc_refl]. cbn [fst snd]. destruct (applied o); [by eapply Hf|apply rtc_refl].
Qed.

Lemma reading_tracked {A} (f : Z -> PrivateDb -> A) : tracked (private_query (fun now d => Ok (f now d, d))).
Proof. apply query_tracked. intros now d a d' _ [= _ <-]. apply rtc_refl. Qed.

Lemma update_tracked f :
  (forall now d, tracking_inv (view d) -> rtc tracking_step (view d) (view (f now d))) -> tracked (private_update f).
Proof. intros Hf. apply query_tracked. intros now d a d' I [= _ <-]. by apply Hf. Qed.

Lemma quiet_tracked f : (forall now d, view (f now d) = view d) -> tracked (private_update f).
Proof. intros Hf. apply update_tracked. intros now d _. rewrite Hf. apply rtc_refl. Qed.

Lemma tracked_ret {A} (a : A) : tracked (mret (M := ST (PrivateDb * W)) a).
Proof. intros s _. apply rtc_refl. Qed.

Lemma tracked_bind {A B} (f : ST (PrivateDb * W) A) (g : A -> ST (PrivateDb * W) B) :
  tracked f -> (forall a, tracked (g a)) -> tracked (mbind g f).
Proof.
  intros Hf Hg s I. pose proof (Hf s I) as H1. unfold mbind, ST_bind. destruct (f s) as [a s1]. etrans; [exact H1|].
  apply Hg. by eapply tracking_run.
Qed.

Lemma tracked_try {A B} (f : ST (PrivateDb * W) (result A string)) (g : A -> ST (PrivateDb * W) (result B string)) :
  tracked f -> (forall a, tracked (g a)) -> tracked (try_bind f g).
Proof.
  intros Hf Hg s I. pose proof (Hf s I) as H1. unfold try_bind. destruct (f s) as [[a|e] s1]; [|done].
  etrans; [exact H1|]. apply Hg. by eapply tracking_run.
Qed.

Lemma repair_tracked : tracked repair_private_match_links.
Proof. apply tracked_try; [by apply quiet_tracked|]. intros _. by apply quiet_tracked. Qed.

Lemma resolve_existing_tracked m : tracked (resolve_existing_private_match m).
Proof. apply transaction_tracked. intros now. apply tracks_bind; [apply resolve_match_rows_tracks|]. intros r. apply tracks_ret. Qed.

Lemma resolve_matches_tracked ids : tracked (resolve_matches ids).
Proof. induction ids as [|id ids IH]; [apply tracked_ret|]. apply tracked_try; [apply resolve_existing_tracked|done]. Qed.

Lemma reconcile_tracked : tracked reconcile_split_private_identities.
Proof. apply transaction_tracked. apply reconcile_body_tracks. Qed.

Lemma report_tracked apply processed merged : tracked (private_backfill_report apply processed merged).
Proof. apply reading_tracked. Qed.

Lemma backfill_tracked apply : tracked (backfill_private_account_identities apply).
Proof.
  unfold backfill_private_account_identities. destruct apply; [|apply report_tracked]. cbn [negb].
  repeat (apply tracked_try; [|intros ?]); try (by apply quiet_tracked); try apply repair_tracked; try apply reading_tracked.
  - apply quiet_tracked. intros now d. apply adopt_version_view.
  - apply query_tracked. intros now d [] d' _. destruct (backfill_observations now d) as [d1|] eqn:E; [|done]. intros [= <-].
    by eapply backfill_observations_tracks.
  - apply resolve_matches_tracked.
  - apply reconcile_tracked.
  - destruct (_ =? 0); [|apply tracked_ret]. apply update_tracked. intros now d _. apply rtc_once, retire_legacy_step.
Qed.

(** *** Moderation *)

Lemma verify_identity_tracks now id b : tracks (verify_identity now id b).
Proof.
  apply tracks_quiet. intros d. unfold verify_identity. destruct (storable_body b); [|done]. cbn [snd]. by rewrite view_alter_same.
Qed.

Lemma moderate_view now id cheater reason d : view (snd (moderate now id cheater reason d)) = view d.
Proof. unfold moderate. destruct (canonical_identity id d); [|done]. cbn [snd]. by apply view_alter_same. Qed.

Lemma vote_suspicious_tracks now id user reason d a d' :
  vote_suspicious now id user reason d = Ok (a, d') -> rtc tracking_step (view d) (view d').
Proof.
  unfold vote_suspicious. destruct (pd_votes d !! _) as [v|] eqn:Ev; [by intros [= _ <-]|].
  destruct (pd_identities d !! id) as [i|] eqn:Ei; [|done]. destruct (_ <=? _); [done|]. intros [= _ <-]. apply rtc_once.
  set (d1 := with_votes _ d). rewrite (view_alter _ (set_suspicions (md_sus_count (pi_moderation i) + 1)))
    by (intros i' Hi'; cbn in Hi'; rewrite Ei in Hi'; by injection Hi' as <-).
  assert (tk_ids (view d) !! id = Some (summary i)) as Hid by (apply view_id; eauto).
  eapply (eq_rect _ (tracking_step (view d))); [apply (track_suspected id user (summary i)); [done|]|].
  - cbn. by rewrite not_elem_of_dom.
  - apply tracking_eq; try done.
    + cbn [with_ids tk_ids]. symmetry. exact (alter_alt_Some _ _ _ _ Hid).
    + cbn [with_ids with_ballots tk_votes]. unfold d1. cbn. by rewrite dom_insert_L.
Qed.

Lemma vote_cheater_tracks now id user reason d a d' :
  vote_cheater now id user reason d = Ok (a, d') -> rtc tracking_step (view d) (view d').
Proof.
  unfold vote_cheater. destruct (pd_identities d !! id) as [i|] eqn:Ei; [|done]. set (d1 := update_identities _ d).
  assert (view d1 = view d) as Hv.
  { apply view_alter_same. intros i' Hi'. rewrite Ei in Hi'. by injection Hi' as <-. }
  destruct (pd_votes d !! _) as [v|] eqn:Ev; intros [= _ <-]; [by rewrite Hv|]. apply rtc_once.
  assert (tk_ids (view d) !! id = Some (summary i)) as Hid by (apply view_id; eauto).
  eapply (eq_rect _ (tracking_step (view d))); [by apply (track_accused id user (summary i))|]. rewrite <- Hv.
  apply tracking_eq; try done. cbn. by rewrite dom_insert_L.
Qed.

Lemma verify_name_tracked private_id body : tracked (verify_name private_id body).
Proof.
  intros s I. unfold verify_name. destruct (positive_id private_id) as [id|]; [|apply rtc_refl].
  destruct (validate_name _); [|apply rtc_refl].
  match goal with |- context [private_transaction ?b s] => assert (tracked (private_transaction b)) as Hb end.
  { apply transaction_tracked. intros now d Id. destruct (identity_tracked d id); [|apply rtc_refl]. by apply verify_identity_tracks. }
  specialize (Hb s I). destruct (private_transaction _ s) as [r s']. done.
Qed.

Lemma moderation_tracked private_id body : tracked (moderation private_id body).
Proof.
  unfold moderation. destruct (positive_id private_id) as [id|]; [|apply tracked_ret].
  destruct (get "cheater" body ≫= as_bool) as [cheater|]; [|apply tracked_ret]. cbv zeta.
  destruct (_ && _); [apply tracked_ret|]. destruct (negb _); [apply tracked_ret|].
  apply tracked_bind; [|intros r; apply tracked_ret]. apply query_tracked. intros now d a d' _.
  destruct (free_of_nul _); [|done]. intros [= E]. pose proof (moderate_view now id cheater (optional_text (body_text "reason" body)) d) as Hv.
  rewrite E in Hv. cbn in Hv. by rewrite Hv.
Qed.

Lemma report_private_tracked private_id session report_type reason :
  tracked (report_private_account private_id session report_type reason).
Proof.
  unfold report_private_account. destruct (positive_id _) as [requested|]; [|apply tracked_ret].
  destruct session as [user|]; [|apply tracked_ret]. cbv zeta. repeat (case_match; [apply tracked_ret|]).
  apply tracked_bind; [apply reading_tracked|]. intros [[id|]|e]; [|apply tracked_ret|apply tracked_ret].
  case_match.
  - apply tracked_bind.
    + apply query_tracked. intros now d a d' _. destruct (free_of_nul _); [|done]. apply vote_suspicious_tracks.
    + intros [[created [n|]]|e]; [apply tracked_ret| |apply tracked_ret].
      apply tracked_bind; [apply reading_tracked|intros r; apply tracked_ret].
  - apply tracked_bind; [|intros r; apply tracked_ret].
    apply query_tracked. intros now d a d' _. destruct (free_of_nul _); [|done]. apply vote_cheater_tracks.
Qed.

(** ** Every operation *)

Inductive Operation :=
| StoreMatch (p : IdentityPayload) (players : list value) (limited : bool)
| ResolveMatch (match_id : Z)
| Reconcile
| RepairLinks
| Backfill (apply : bool)
| VerifyName (private_id : string) (body : value)
| Moderate (private_id : string) (body : value)
| Report (private_id : string) (session : option UserSession) (report_type reason : option string).

Definition operate (op : Operation) (s : PrivateDb * W) : PrivateDb * W :=
  match op with
  | StoreMatch p players limited =>
      snd (private_transaction (fun now => persist_and_resolve_private_identities now p players limited) s)
  | ResolveMatch match_id => snd (resolve_existing_private_match match_id s)
  | Reconcile => snd (reconcile_split_private_identities s)
  | RepairLinks => snd (repair_private_match_links s)
  | Backfill apply => snd (backfill_private_account_identities apply s)
  | VerifyName private_id body => snd (verify_name private_id body s)
  | Moderate private_id body => snd (moderation private_id body s)
  | Report private_id session report_type reason => snd (report_private_account private_id session report_type reason s)
  end.

Definition operate_all (ops : list Operation) (s : PrivateDb * W) : PrivateDb * W := foldl (fun s op => operate op s) s ops.

Lemma operate_tracked op s :
  tracking_inv (view (fst s)) -> rtc tracking_step (view (fst s)) (view (fst (operate op s))).
Proof.
  destruct op; cbn [operate]; revert s.
  - apply transaction_tracked. intros now. apply persist_tracks.
  - apply resolve_existing_tracked.
  - apply reconcile_tracked.
  - apply repair_tracked.
  - apply backfill_tracked.
  - apply verify_name_tracked.
  - apply moderation_tracked.
  - apply report_private_tracked.
Qed.

Lemma operate_all_tracked ops s :
  tracking_inv (view (fst s)) -> rtc tracking_step (view (fst s)) (view (fst (operate_all ops s))).
Proof.
  revert s. induction ops as [|op ops IH]; intros s I; [apply rtc_refl|]. cbn.
  etrans; [by apply (operate_tracked op)|]. apply IH. eapply tracking_run; [|exact I]. by apply operate_tracked.
Qed.
End programs.

(** ** The tables in order *)

(** [n] merges lead from an identity to one that was not merged. *)
Inductive merged_path (d : PrivateDb) : nat -> Z -> Z -> Prop :=
| path_end id i : pd_identities d !! id = Some i -> pi_merged_into i = None -> merged_path d 0 id id
| path_merged n id i next r :
    pd_identities d !! id = Some i -> pi_merged_into i = Some next -> merged_path d n next r -> merged_path d (S n) id r.

Lemma path_root d id r : root_of (view d) id r <-> exists n, merged_path d n id r.
Proof.
  split.
  - induction 1 as [id s Hi Hm|id s next r Hi Hm _ [n IH]]; apply view_id in Hi as (i & Hi & <-).
    + exists O. by eapply path_end.
    + exists (S n). by eapply path_merged.
  - intros [n Hp]. induction Hp as [id i Hi Hm|n id i next r Hi Hm _ IH].
    + apply (root_here _ _ (summary i)); [by apply view_id; eauto|done].
    + apply (root_merged _ _ (summary i) next); [by apply view_id; eauto|done|done].
Qed.

Record tables_in_order (d : PrivateDb) : Prop := {
  (** An identity is in a match once. *)
  to_once : forall k k' o o' id, pd_observations d !! k = Some o -> pd_observations d !! k' = Some o' ->
    linked_id o = Some id -> linked_id o' = Some id -> fst k = fst k' -> k = k';
  (** The observations are of identities that were not merged, and each counts
      its own. *)
  to_link : forall k o id, pd_observations d !! k = Some o -> linked_id o = Some id ->
    exists i, pd_identities d !! id = Some i /\ pi_merged_into i = None /\ pi_match_count i = Z.of_nat (length (rows_of id d));
  (** Every merge ends at an identity that was not merged; the active were not. *)
  to_path : forall id i, pd_identities d !! id = Some i -> exists n r, merged_path d n id r;
  to_active : forall id i, pd_identities d !! id = Some i -> pi_active i = true -> pi_merged_into i = None;
  to_next : forall id i, pd_identities d !! id = Some i -> id < pd_next_identity d;
  (** The suspicions are the votes. *)
  to_votes : forall id i, pd_identities d !! id = Some i -> pi_merged_into i = None ->
    md_sus_count (pi_moderation i) = count_votes id "suspicious" d;
  to_voted : forall k v, pd_votes d !! k = Some v -> is_Some (pd_identities d !! fst (fst k));
}.

Lemma in_order d : tables_in_order d <-> tracking_inv (view d).
Proof.
  split; intros I; split.
  - intros k k' id (o & Ho & Hl)%view_link (o' & Ho' & Hl')%view_link. by apply (to_once _ I k k' o o' id).
  - intros k id (o & Ho & Hl)%view_link. destruct (to_link _ I k o id Ho Hl) as (i & Hi & Hm & _).
    exists (summary i). split; [by apply view_id; eauto|done].
  - intros id s (i & Hi & <-)%view_id. by apply (to_next _ I id i).
  - intros id s (i & Hi & <-)%view_id. destruct (to_path _ I id i Hi) as (n & r & Hp). exists r. apply path_root. eauto.
  - intros id s (i & Hi & <-)%view_id. by apply (to_active _ I id i).
  - intros k id s (o & Ho & Hl)%view_link (i & Hi & <-)%view_id. destruct (to_link _ I k o id Ho Hl) as (i' & Hi' & _ & Hc).
    rewrite <- rows_count. simplify_eq. exact Hc.
  - intros id s (i & Hi & <-)%view_id Hm. cbn. rewrite <- votes_count. by apply (to_votes _ I).
  - intros k Hk. cbn in Hk. apply elem_of_dom in Hk as [v Hv]. destruct (to_voted _ I k v Hv) as [i Hi]. exists (summary i).
    apply view_id. eauto.
  - intros k k' o o' id Ho Ho' Hl Hl'. apply (ti_once _ I k k' id); apply view_link; eauto.
  - intros k o id Ho Hl. assert (tk_links (view d) !! k = Some (Some id)) as Hk by (apply view_link; eauto).
    destruct (ti_link _ I k id Hk) as (s & Hs & Hm). pose proof (ti_count _ I k id s Hk Hs) as Hc.
    apply view_id in Hs as (i & Hi & <-). exists i. split_and!; try done. by rewrite rows_count.
  - intros id i Hi. destruct (ti_root _ I id (summary i)) as [r [n Hr]%path_root]; [apply view_id|]; eauto.
  - intros id i Hi. apply (ti_active _ I id (summary i)). apply view_id. eauto.
  - intros id i Hi. apply (ti_next _ I id (summary i)). apply view_id. eauto.
  - intros id i Hi Hm. rewrite votes_count. apply (ti_suspicions _ I id (summary i)); [apply view_id; eauto|done].
  - intros k v Hv. destruct (ti_votes _ I k) as [s Hs]; [by apply elem_of_dom; eauto|]. apply view_id in Hs as (i & Hi & _). eauto.
Qed.

Lemma chain_of_path d m n id r i :
  tables_in_order d -> merged_path d n id r -> pd_identities d !! r = Some i ->
  exists l, Forall (fun e => snd e = false) l /\
    identity_chain m id d = l ++ (if (n <=? m)%nat then [(r, pi_active i)] else []).
Proof.
  intros I Hp Hr. revert m. induction Hp as [id j Hi Hm|n id j next r Hi Hm _ IH]; intros m.
  - exists []. split; [done|]. simplify_eq. destruct m; cbn; rewrite Hi; [done|by rewrite Hm].
  - assert (pi_active j = false) as Ha.
    { destruct (pi_active j) eqn:E; [|done]. rewrite (to_active _ I id j Hi E) in Hm. done. }
    destruct m as [|m].
    + exists [(id, false)]. split; [by repeat constructor|]. cbn. by rewrite Hi, Ha.
    + destruct (IH Hr m) as (l & Hl & E). exists ((id, false) :: l). split; [by constructor|]. cbn. by rewrite Hi, Hm, Ha, E.
Qed.

Lemma canonical_path d n id r i :
  tables_in_order d -> merged_path d n id r -> pd_identities d !! r = Some i ->
  canonical_identity id d = if (n <=? 16)%nat && pi_active i then Some r else None.
Proof.
  intros I Hp Hi. destruct (chain_of_path _ 16 n id r i I Hp Hi) as (l & Hf%Forall_rev & E). unfold canonical_identity.
  apply find_first_None in Hf. rewrite E, rev_app_distr. by destruct (n <=? 16)%nat; cbn; [destruct (pi_active i)|]; rewrite ?Hf.
Qed.

(** C35. Tables in order stay so through any operations: an identity is in a
    match once, its count is the number of its observations, observations are
    never of merged identities, the merges there are have no cycles, the
    suspicions of an identity are its votes. *)
Theorem identities_stay_in_order `{SqlText} {W} `{PrivateSql W} (ops : list Operation) (s : PrivateDb * W) :
  tables_in_order (fst s) -> tables_in_order (fst (operate_all ops s)).
Proof. rewrite !in_order. intros I. eapply tracking_run; [|exact I]. by apply operate_all_tracked. Qed.

(** C36. No observation is lost, taken from its identity or moved to another:
    after any operations, reconciliations and backfills among them, it is of the
    same identity, which was not merged and counts its observations. *)
Theorem links_are_final `{SqlText} {W} `{PrivateSql W} (ops : list Operation) (s : PrivateDb * W) k o id :
  tables_in_order (fst s) -> pd_observations (fst s) !! k = Some o -> linked_id o = Some id ->
  let d := fst (operate_all ops s) in
  exists o' i, pd_observations d !! k = Some o' /\ linked_id o' = Some id /\
    pd_identities d !! id = Some i /\ pi_merged_into i = None /\ pi_match_count i = Z.of_nat (length (rows_of id d)).
Proof.
  intros I Ho Hl. cbv zeta. pose proof (operate_all_tracked ops s) as Hr. rewrite in_order in I. specialize (Hr I).
  destruct (tracking_run _ _ Hr I) as [I' [_ Hkeep]].
  destruct (proj1 (view_link _ _ _) (Hkeep k id (proj2 (view_link _ _ _) (ex_intro _ o (conj Ho Hl))))) as (o' & Ho' & Hl').
  apply in_order in I'. destruct (to_link _ I' k o' id Ho' Hl') as (i & Hi & Hm & Hc). exists o', i. by split_and!.
Qed.

(** ** Reconciliations *)

(** What a reconciliation would merge an identity into. *)
Definition merge_wanted (d : PrivateDb) (source : Z) : result (option Candidate) string :=
  match sort_by le_oldest (rows_of source d) with
  | [] => Ok None
  | first :: rest =>
      let incoming := observation_row (fst first) (snd first) in
      if levels_in_range incoming
      then Ok (merge_target source (first :: rest) incoming (grouped_candidates d incoming) d)
      else Err "integer out of range"
  end.

Lemma merge_source_wanted now source d i :
  pd_identities d !! source = Some i -> mergeable i = true ->
  merge_source now source d =
    match merge_wanted d source with
    | Ok (Some best) => (Err "error serializing parameter 2", move_links source (fst best) d)
    | Ok None => (Ok false, d)
    | Err e => (Err e, d)
    end.
Proof.
  intros Hi Hm. unfold merge_source, merge_wanted. rewrite Hi, Hm. cbn [negb].
  destruct (sort_by le_oldest _) as [|first rest]; [done|]. destruct (levels_in_range _); [|done].
  destruct (merge_target _ _ _ _ d) as [best|]; [|done]. unfold try_bind. by rewrite merge_identity_fails.
Qed.

Lemma merge_each_fails now d sources merged :
  (forall source, source ∈ sources -> exists i, pd_identities d !! source = Some i /\ mergeable i = true) ->
  match merge_each now sources merged d with
  | (Ok n, d') => d' = d /\ n = merged /\ forall source, source ∈ sources -> merge_wanted d source = Ok None
  | (Err _, d') => rolled_back d d' = d /\ exists source, source ∈ sources /\ merge_wanted d source <> Ok None
  end.
Proof.
  induction sources as [|source sources IH]; intros Hs; [split_and!; [done|done|set_solver]|].
  cbn [merge_each]. unfold try_bind. destruct (Hs source) as (i & Hi & Hm); [by left|].
  rewrite (merge_source_wanted now source d i Hi Hm). destruct (merge_wanted d source) as [[best|]|e] eqn:E.
  - split; [by destruct d|]. exists source. split; [by left|]. by rewrite E.
  - specialize (IH (fun x Hx => Hs x (list_elem_of_further _ _ _ Hx))).
    destruct (merge_each now sources merged d) as [[n|e] d'].
    + destruct IH as (-> & -> & Hw). split_and!; [done|done|]. intros x [-> |Hx]%elem_of_cons; [done|by apply Hw].
    + destruct IH as [Hd (x & Hx & Hw)]. split; [done|]. exists x. split; [by right|done].
  - split; [by destruct d|]. exists source. split; [by left|]. by rewrite E.
Qed.

Lemma merge_sources_mergeable d source :
  source ∈ merge_sources d -> exists i, pd_identities d !! source = Some i /\ mergeable i = true.
Proof.
  unfold merge_sources. rewrite list_elem_of_In, List.in_map_iff. intros ([id i] & <- & Hin%list_elem_of_In).
  rewrite sort_by_perm in Hin. apply list_elem_of_In, List.filter_In in Hin as [Hin Hm].
  apply list_elem_of_In, elem_of_map_to_list in Hin. by exists i.
Qed.

(** C38. A reconciliation never merges: it leaves the tables, answers zero where
    it answers a number, and fails whenever one identity is to be merged into
    another, since the database gives the score in its second statement another
    width than the program. *)
Theorem reconciliation_never_merges {W} `{PrivateSql W} (s : PrivateDb * W) :
  let '(r, s') := reconcile_split_private_identities s in
  fst s' = fst s /\
  (forall n, r = Ok n -> n = 0 /\ forall source, source ∈ merge_sources (fst s) -> merge_wanted (fst s) source = Ok None) /\
  ((exists source best, source ∈ merge_sources (fst s) /\ merge_wanted (fst s) source = Ok (Some best)) -> exists e, r = Err e).
Proof.
  destruct s as [d w]. unfold reconcile_split_private_identities, private_transaction, reconcile_body. cbn [fst snd].
  destruct (private_begin w) as [[now|e] w1]; cbn [fst]; [|by split_and!; [|done|eauto]].
  pose proof (merge_each_fails now d (merge_sources d) 0 (merge_sources_mergeable d)) as Hm.
  destruct (merge_each now (merge_sources d) 0 d) as [[n|e] d1].
  - destruct Hm as (-> & -> & Hw). destruct (private_commit w1) as [o w2]. cbn [fst]. split_and!.
    + destruct (applied o); [done|]. by destruct d.
    + intros n Hn. destruct (reported o); [|done]. injection Hn as <-. done.
    + intros (source & best & Hin & Hb). rewrite (Hw source Hin) in Hb. done.
  - destruct Hm as [Hd _]. cbn [fst]. split_and!; [done|done|eauto].
Qed.

(** Moderation and reports of an identity are for the one it was merged
    into where at most sixteen merges lead there and it is active, and find none
    otherwise. *)
Theorem moderation_reaches_root d n id r i :
  tables_in_order d -> merged_path d n id r -> pd_identities d !! r = Some i ->
  canonical_identity id d = if (n <=? 16)%nat && pi_active i then Some r else None.
Proof. apply canonical_path. Qed.

(** ** What a resolution does *)

Lemma presence_rows now o id c d : pd_observations (upsert_private_presence now o id c d) = pd_observations d.
Proof. unfold upsert_private_presence. by destruct (queue_scope o) as [[q sc]|]. Qed.

Lemma unresolved_rows now o r d : pd_observations (upsert_unresolved_presence now o r d) = pd_observations d.
Proof. unfold upsert_unresolved_presence. by destruct (queue_scope o) as [[q sc]|]. Qed.

Lemma refresh_rows now id d : pd_observations (refresh_identity now id d) = pd_observations d.
Proof. unfold refresh_identity. by destruct (sort_by _ _). Qed.

(** The row of [k] is rewritten to [r], and no other. *)
Definition only_resolved (now : Z) (k : Z * Z) (r : Resolution) (w : ObservationRow) (d d' : PrivateDb) : Prop :=
  pd_observations d' = <[k := set_resolution now r w]> (pd_observations d).

Lemma resolved_rows now k f w d :
  pd_observations d !! k = Some w ->
  pd_observations (update_observations (fun k' _ => bool_decide (k' = k)) (fun _ o => set_resolution now (f o) o) d)
    = <[k := set_resolution now (f w) w]> (pd_observations d).
Proof.
  intros Hw. apply map_eq. intros k'. cbn. rewrite imap_lookup. destruct (decide (k' = k)) as [-> |Hne].
  - rewrite lookup_insert_eq, Hw. cbn. by rewrite bool_decide_true.
  - rewrite lookup_insert_ne by done. destruct (pd_observations d !! k'); [|done]. cbn. by rewrite bool_decide_false.
Qed.

Lemma link_observation_rows now o id status confidence reasons w d :
  pd_observations d !! observation_key o = Some w ->
  only_resolved now (observation_key o)
    {| rs_private_player_id := Some id; rs_status := status; rs_confidence := confidence; rs_reasons := reasons;
       rs_resolved_at := Some now |} w d (link_observation now o id status confidence reasons d).
Proof.
  intros Hw. unfold link_observation, only_resolved. rewrite presence_rows, refresh_rows.
  cbn [pd_observations with_history link_match_player with_fact_players]. unfold resolve_row.
  by rewrite (resolved_rows _ _ (fun _ => _) w).
Qed.

Lemma create_and_link now o reasons w d :
  tables_in_order d -> pd_observations d !! observation_key o = Some w ->
  let '(r, d') :=
    (id <-? create_identity now o;
     _ <-? on_db (link_observation now o id "new_identity" 100 reasons);
     mret (M := ST PrivateDb) (Ok Created)) d in
  match r with
  | Err _ => d' = d /\ i32_max < pd_next_identity d
  | Ok outcome =>
      outcome = Created /\ pd_identities d !! pd_next_identity d = None /\
      exists res, only_resolved now (observation_key o) res w d d' /\ rs_private_player_id res = Some (pd_next_identity d)
  end.
Proof.
  intros I Hw. unfold try_bind, create_identity. destruct (Z.ltb_spec i32_max (pd_next_identity d)) as [Hn|Hn]; [done|].
  cbn [on_db mret ST_ret]. split_and!; [done| |].
  - destruct (pd_identities d !! pd_next_identity d) as [i|] eqn:E; [|done]. apply (to_next _ I) in E. lia.
  - eexists. split; [|shelve]. unfold only_resolved. by rewrite (link_observation_rows _ _ _ _ _ _ w).
    Unshelve. done.
Qed.

Lemma candidates_apart d o : groups_apart (grouped_candidates d o).
Proof.
  unfold groups_apart, grouped_candidates. rewrite List.map_map. cbn [fst]. rewrite List.map_id, sort_by_perm. apply NoDup_remove_dups.
Qed.

(** C37. A resolution touches one observation, and as its evidence says: one
    without any stays minimal; one with a candidate at the threshold and the
    margin goes to it, an active identity that is not in the match yet and that
    a strong sign supports, no neighbour contradicts and no other comes near;
    without one it gets an identity of its own, or, in a queue that is not
    ranked and where there are candidates, stays ambiguous.  It fails only on
    levels the query cannot hold and at the end of the identities. *)
Theorem resolution_contract now k w d :
  tables_in_order d -> pd_observations d !! k = Some w -> linked_id w = None ->
  let o := observation_row k w in
  let ranked := rank_candidates o (grouped_candidates d o) in
  let justified := has_threshold ranked && has_margin ranked in
  let '(r, d') := resolve_observation now o None d in
  match r with
  | Err _ => d' = d /\ has_private_identity_evidence o = true
             /\ (levels_in_range o = false \/ (i32_max < pd_next_identity d /\ justified = false))
  | Ok outcome =>
      exists res, only_resolved now k res w d d' /\
      match outcome with
      | Minimal => has_private_identity_evidence o = false /\ rs_private_player_id res = None /\ rs_status res = "minimal"%string
      | Linked => has_private_identity_evidence o = true /\ justified = true /\
          exists best, rs_private_player_id res = Some (fst best) /\ rs_confidence res = is_score (snd best) /\
            justified_by o (grouped_candidates d o) best /\ identity_tracked d (fst best) = true /\
            forall k' w', pd_observations d !! k' = Some w' -> linked_id w' = Some (fst best) -> fst k' <> fst k
      | Created => has_private_identity_evidence o = true /\ justified = false /\
          pd_identities d !! pd_next_identity d = None /\ rs_private_player_id res = Some (pd_next_identity d) /\
          (ranked = [] \/ ob_stats_scope o = EmptyString \/ ob_stats_scope o = "ranked"%string)
      | Ambiguous => has_private_identity_evidence o = true /\ justified = false /\ ranked <> [] /\
          rs_private_player_id res = None /\ rs_status res = "ambiguous"%string /\ ob_stats_scope o <> "ranked"%string
      end
  end.
Proof.
  intros I Hw Hl. cbv zeta. set (o := observation_row k w). assert (observation_key o = k) as Ek by apply observation_row_key.
  unfold resolve_observation. destruct (has_private_identity_evidence o) eqn:Ee; cbn [negb].
  2: { unfold try_bind. cbn [on_db mret ST_ret]. eexists. split; [|split_and!; [done| |]].
       - unfold only_resolved. rewrite unresolved_rows, Ek.
         exact (resolved_rows now k (fun r => {| rs_private_player_id := linked_id r; rs_status := "minimal"; rs_confidence := 0;
           rs_reasons := ["no_identity_evidence"%string]; rs_resolved_at := rs_resolved_at (ow_resolution r) |}) w d Hw).
       - done. - done. }
  unfold try_bind at 1, candidate_observations. destruct (levels_in_range o) eqn:Er; [|by auto].
  pose proof (fun reasons => create_and_link now o reasons w d I) as Hnew. rewrite Ek in Hnew. specialize (fun reasons => Hnew reasons Hw).
  destruct (rank_candidates o (grouped_candidates d o)) as [|best others] eqn:Eb.
  { specialize (Hnew ["no_candidate"%string]). cbv zeta.
    match type of Hnew with let '(_, _) := ?t in _ => destruct t as [[outcome|e] d'] end; [|naive_solver].
    destruct Hnew as (-> & Hn & res & Hres & Hid). exists res. auto 10. }
  destruct (has_threshold (best :: others) && has_margin (best :: others)) eqn:Ej.
  { unfold try_bind. cbn [on_db mret ST_ret]. eexists. split.
    { rewrite <- Ek. apply link_observation_rows. by rewrite Ek. }
    split_and!; [done|done|]. exists best. apply andb_true_iff in Ej as [Et Em].
    pose proof (link_is_justified o _ best others (candidates_apart d o) Eb Et Em) as Hj.
    assert (best ∈ rank_candidates o (grouped_candidates d o)) as Hb by (rewrite Eb; by left).
    apply ranked_in in Hb as (obs & Hg & _). apply grouped_candidate in Hg as (Ht & Hu & _). split_and!; try done.
    intros k' w' Hk' Hl'. replace (fst k) with (ob_match_id o) by (by rewrite <- Ek). eapply not_used; [done|]. apply view_link. eauto. }
  destruct (negb (is_empty (ob_stats_scope o)) && negb (String.eqb (ob_stats_scope o) "ranked")) eqn:Es.
  - unfold try_bind. cbn [on_db mret ST_ret]. eexists. split.
    { unfold only_resolved. rewrite unresolved_rows, Ek.
      exact (resolved_rows now k (fun r => {| rs_private_player_id := linked_id r; rs_status := "ambiguous";
        rs_confidence := is_score (snd best); rs_reasons := candidate_reasons best; rs_resolved_at := None |}) w d Hw). }
    bool_props. by split_and!.
  - specialize (Hnew (candidate_reasons best)).
    match type of Hnew with let '(_, _) := ?t in _ => destruct t as [[outcome|e] d'] end; [|naive_solver].
    destruct Hnew as (-> & Hn & res & Hres & Hid). exists res. split_and!; try done. right.
    apply andb_false_iff in Es as [Es|Es]; apply negb_false_iff in Es; [left|right].
    + by destruct (ob_stats_scope o).
    + by apply String.eqb_eq.
Qed.

(** ** Observations and their sources *)

Section observations.
Context (now : Z) (keep : bool) (k : Z * Z).

(** The incoming rows of [k], one after another. *)
Definition upsert_all (incoming : list ObservationRow) (rows : gmap (Z * Z) ObservationRow) : gmap (Z * Z) ObservationRow :=
  foldl (fun m new => upsert_observation now keep k new m) rows incoming.

Lemma upsert_all_lookup incoming rows old :
  rows !! k = Some old ->
  exists w, upsert_all incoming rows !! k = Some w /\
    linked_id w = linked_id old /\ (linked_id old <> None -> ow_resolution w = ow_resolution old) /\ ow_members w = ow_members old /\
    exists l1 x l2, old :: incoming = l1 ++ x :: l2 /\ ow_seen w = ow_seen x /\ ow_priority w = ow_priority x /\
      Forall (fun y => ow_priority y <= ow_priority x) l1 /\ Forall (fun y => ow_priority y < ow_priority x) l2.
Proof.
  revert rows old. induction incoming as [|new incoming IH] using rev_ind; intros rows old Hold.
  - exists old. split_and!; try done. exists [], old, []. split_and!; try done; constructor.
  - unfold upsert_all. rewrite foldl_app. cbn [foldl]. fold (upsert_all incoming rows).
    destruct (IH rows old Hold) as (w & Hw & Hl & Hr & Hm & l1 & x & l2 & E & Hs & Hp & H1 & H2).
    unfold upsert_observation. rewrite lookup_insert_eq, Hw. eexists. split; [done|]. cbn. split_and!; [done| |done|].
    + intros Hne. specialize (Hr Hne). rewrite <- Hl in Hne. unfold linked_id in Hne.
      destruct (rs_private_player_id (ow_resolution w)) as [id|] eqn:Eid; [|done]. rewrite orb_true_r, <- Hr, <- Eid.
      by destruct (ow_resolution w).
    + rewrite app_comm_cons, E. destruct (Z.leb_spec (ow_priority w) (ow_priority new)) as [Hle|Hlt].
      * exists (l1 ++ x :: l2), new, []. split_and!; [done|done|lia| |constructor]. rewrite Hp in Hle.
        apply Forall_app. split; [|constructor; [done|]]; (eapply Forall_impl; [eassumption|]); cbn; lia.
      * exists l1, x, (l2 ++ [new]). rewrite <- app_assoc. split_and!; [done|done|lia|done|].
        apply Forall_app. split; [done|]. constructor; [lia|constructor].
Qed.
End observations.

(** Whatever sources report a private player of a match, and how often, the
    observation shows the last report of the best source; the link it has, with
    its status, confidence and reasons, is not touched by reports. *)
Theorem best_source_wins now keep k new incoming rows :
  exists w, upsert_all now keep k (new :: incoming) rows !! k = Some w /\
    (match rows !! k with
     | Some old => linked_id w = linked_id old /\ (linked_id old <> None -> ow_resolution w = ow_resolution old)
     | None => linked_id w = linked_id new
     end) /\
    exists l1 x l2, match rows !! k with Some old => [old] | None => [] end ++ new :: incoming = l1 ++ x :: l2 /\
      ow_seen w = ow_seen x /\ ow_priority w = ow_priority x /\
      Forall (fun y => ow_priority y <= ow_priority x) l1 /\ Forall (fun y => ow_priority y < ow_priority x) l2.
Proof.
  destruct (rows !! k) as [old|] eqn:E.
  - destruct (upsert_all_lookup now keep k (new :: incoming) rows old E) as (w & Hw & Hl & Hr & _ & Hs). exists w. auto.
  - destruct (upsert_all_lookup now keep k incoming (<[k := new]> rows) new) as (w & Hw & Hl & Hr & _ & Hs);
      [apply lookup_insert_eq|]. exists w. split; [|auto]. rewrite <- Hw. unfold upsert_all. cbn [foldl].
    unfold upsert_observation at 2. by rewrite E.
Qed.

(** ** Rows without a slot *)

Section slots.
Context `{SqlText} {W : Type} `{PrivateSql W}.

(** What the backfill reads of a player row. *)
Definition row_place (p : FactPlayer) : Z * Z * Z * Z * option string :=
  (fp_match_id p, fp_player_id p, fp_private_slot p, fp_entry_datetime p, fp_player_name p).

Definition same_rows (d d' : PrivateDb) : Prop :=
  map row_place (pd_match_players d') = map row_place (pd_match_players d) /\ pd_matches d' = pd_matches d.

Lemma repaired_link_place d p : row_place (repaired_link d p) = row_place p.
Proof. unfold repaired_link. destruct (_ ≫= linked_id) as [id|]; [|done]. by destruct (_ && _). Qed.

Lemma same_rows_trans d1 d2 d3 : same_rows d1 d2 -> same_rows d2 d3 -> same_rows d1 d3.
Proof. intros [H1 H2] [H3 H4]. split; congruence. Qed.

Lemma repaired_rows d l : map row_place (map (repaired_link d) l) = map row_place l.
Proof. rewrite List.map_map. apply List.map_ext. apply repaired_link_place. Qed.

(** Two rows that would be one observation. *)
Definition clashing (d : PrivateDb) : Prop :=
  exists p p', p ∈ pd_match_players d /\ p' ∈ pd_match_players d /\ fp_private_slot p <= 0 /\ fp_private_slot p' = 1 /\
    fp_match_id p = fp_match_id p' /\ is_private_account p = true /\ is_private_account p' = true /\
    is_Some (pd_matches d !! (fp_match_id p, fp_entry_datetime p)) /\ is_Some (pd_matches d !! (fp_match_id p', fp_entry_datetime p')).

Lemma clashing_same d d' : same_rows d d' -> clashing d -> clashing d'.
Proof.
  intros [Hr Hm] (p & p' & Hp & Hp' & Hs & Hs' & He & Hpr & Hpr' & Hi & Hi'). unfold clashing. rewrite Hm.
  assert (forall q, q ∈ pd_match_players d -> exists q', q' ∈ pd_match_players d' /\ row_place q' = row_place q) as Hq.
  { intros q Hq. assert (row_place q ∈ map row_place (pd_match_players d)) as Hin by (apply list_elem_of_In, List.in_map; by apply list_elem_of_In).
    rewrite <- Hr in Hin. apply list_elem_of_In, List.in_map_iff in Hin as (q' & ? & ?%list_elem_of_In). eauto. }
  destruct (Hq p Hp) as (q & Hq1 & [= E1 E2 E3 E4 E5]). destruct (Hq p' Hp') as (q' & Hq1' & [= E1' E2' E3' E4' E5']).
  exists q, q'. unfold is_private_account in *. rewrite E1, E2, E3, E4, E5, E1', E2', E3', E4', E5'. by split_and!.
Qed.

Lemma clashing_stops now d : clashing d -> backfill_observations now d = Err "ON CONFLICT DO UPDATE command cannot affect row a second time".
Proof.
  intros (p & p' & Hp & Hp' & Hs & Hs' & He & Hpr & Hpr' & [m Hm] & [m' Hm']). unfold backfill_observations.
  rewrite bool_decide_false; [done|]. intros Hn.
  assert (exists r, backfill_row now d p = Some r /\ fst r = (fp_match_id p, 1)) as (r & Hr & Hk).
  { unfold backfill_row. rewrite Hpr, Hm. cbn. eexists. split; [done|]. cbn. destruct (Z.ltb_spec 0 (fp_private_slot p)); [lia|done]. }
  assert (exists r, backfill_row now d p' = Some r /\ fst r = (fp_match_id p, 1)) as (r' & Hr' & Hk').
  { unfold backfill_row. rewrite Hpr', Hm'. cbn. eexists. split; [done|]. cbn. by rewrite Hs', He. }
  revert Hn. apply list_elem_of_lookup in Hp as [i Hi], Hp' as [j Hj]. assert (i <> j) as Hij.
  { intros ->. rewrite Hi in Hj. injection Hj as ->. lia. }
  clear -Hi Hj Hr Hr' Hk Hk' Hij. revert i j Hi Hj Hij. induction (pd_match_players d) as [|q l IH]; intros i j Hi Hj Hij Hn; [done|].
  assert (forall x rx n, (q :: l) !! S n = Some x -> backfill_row now d x = Some rx -> fst rx ∈ map fst (omap (backfill_row now d) l)) as Hin.
  { intros x rx n Hx Hrx. apply list_elem_of_In, List.in_map, list_elem_of_In, list_elem_of_omap. exists x. split; [|done].
    cbn in Hx. by eapply list_elem_of_lookup_2. }
  destruct i as [|i], j as [|j]; [done| | |].
  - cbn in Hi. injection Hi as ->. cbn [omap list_omap] in Hn. rewrite Hr in Hn. cbn in Hn. apply NoDup_cons in Hn as [Hn _].
    apply Hn. rewrite Hk, <- Hk'. by eapply Hin.
  - cbn in Hj. injection Hj as ->. cbn [omap list_omap] in Hn. rewrite Hr' in Hn. cbn in Hn. apply NoDup_cons in Hn as [Hn _].
    apply Hn. rewrite Hk', <- Hk. by eapply Hin.
  - apply (IH i j); [done|done|congruence|]. cbn [omap list_omap] in Hn. destruct (backfill_row now d q); [|done]. by apply NoDup_cons in Hn as [_ Hn].
Qed.

(** A program that fails on such rows and leaves them. *)
Definition stops {A} (f : ST (PrivateDb * W) (result A string)) : Prop :=
  forall s, clashing (fst s) -> exists e s', f s = (Err e, s') /\ same_rows (fst s) (fst s').

Lemma update_stops {A} f (g : unit -> ST (PrivateDb * W) (result A string)) :
  (forall now d, same_rows d (f now d)) -> stops (g tt) -> stops (try_bind (private_update f) g).
Proof.
  intros Hf Hg [d w] Hc. unfold try_bind, private_update, private_query. cbn [fst snd]. destruct (private_statement w) as [[now o] w1].
  set (d1 := if applied o then f now d else d). assert (same_rows d d1) as Hs by (unfold d1; by destruct (applied o)).
  destruct (reported o) as [[]|e]; cbn [rbind]; [|by exists e, (d1, w1)].
  destruct (Hg (d1, w1)) as (e & s' & E & Hs'); [by eapply clashing_same|]. exists e, s'. split; [exact E|].
  by eapply same_rows_trans.
Qed.

Lemma backfill_stops : stops (backfill_private_account_identities true).
Proof.
  unfold backfill_private_account_identities. cbn [negb].
  apply update_stops; [done|]. apply update_stops; [intros now d; split; [apply repaired_rows|done]|].
  apply update_stops; [done|]. apply update_stops; [done|].
  intros [d w] Hc. unfold try_bind, private_query. cbn [fst snd]. destruct (private_statement w) as [[now o] w1].
  rewrite clashing_stops by done. eexists _, _. done.
Qed.
End slots.

(** C40. A player row from before the slots beside one of the first slot of the
    same match: both would be the observation of that slot, so the statement
    that reads them fails, and with it every backfill, before the repair that
    gives such rows their slot. *)
Theorem slotless_row_stops_backfill `{SqlText} {W} `{PrivateSql W} (d : PrivateDb) (w : W) :
  clashing d ->
  (forall now, backfill_observations now d = Err "ON CONFLICT DO UPDATE command cannot affect row a second time") /\
  exists e s', backfill_private_account_identities true (d, w) = (Err e, s') /\
    map row_place (pd_match_players (fst s')) = map row_place (pd_match_players d) /\ clashing (fst s').
Proof.
  intros Hc. split; [intros now; by apply clashing_stops|]. destruct (backfill_stops (d, w) Hc) as (e & s' & E & Hs).
  exists e, s'. split; [done|]. split; [by apply Hs|]. by eapply clashing_same.
Qed.

(** * Three matches of a private player

    A database in memory whose clock ticks with every statement, on which the
    properties apply: two matches with the little a recovered row shows, then
    the second directly, with the portal user of the first. *)

#[local] Instance ascii_text : SqlText := {|
  sql_lower := to_ascii_lowercase;
  sql_upper := map_string (fun c => if (97 <=? byte_of c) && (byte_of c <=? 122) then ascii_of_N (Z.to_N (byte_of c - 32)) else c);
  sql_integer := parse_i64;
  sql_timestamptz := fun s => seconds ← parse_i64 s; Some (seconds * 1000000);
  json_text := fun _ => EmptyString;
|}.

#[local] Instance ticking : PrivateSql Z := {|
  private_statement := fun w => ((w, Committed), w + 1);
  private_begin := fun w => (Ok w, w + 1);
  private_commit := fun w => (Committed, w + 1);
|}.

Definition seen_player (source : string) (level : Z) (portal_user : string) : value :=
  Object [("player_id", Number (NInt 0)); ("player_name", Str "PrivateAccount"); ("_private_slot", Number (NInt 1));
          ("account_level", Number (NInt level)); ("portal_user_id", Str portal_user); ("source", Str source)].

Definition stored (match_id : Z) (source : string) (level : Z) (portal_user : string) (limited : bool) : Operation :=
  StoreMatch {| ip_match_id := match_id; ip_entry_datetime := pretty (match_id * 1000); ip_queue_id := 486;
                ip_map := "Stone Keep"; ip_duration_seconds := 900 |} [seen_player source level portal_user] limited.

Definition no_rows : PrivateDb :=
  {| pd_observations := ∅; pd_identities := ∅; pd_next_identity := 1; pd_history := ∅; pd_presence := ∅; pd_unresolved := ∅;
     pd_votes := ∅; pd_verifications := ∅; pd_next_verification := 1; pd_match_players := []; pd_casual_players := [];
     pd_special_players := []; pd_matches := ∅; pd_scopes := {[486 := "ranked"%string]} |}.

Lemma no_rows_in_order : tables_in_order no_rows.
Proof. apply in_order. exact tracking_empty. Qed.

(** The second match is taken for another player's at first. *)
Definition sightings : list Operation :=
  [stored 100 "direct" 50 "u7" false; stored 200 "recovered" 20 "" false; stored 200 "direct" 50 "u7" false].
Definition split_rows : PrivateDb * Z := operate_all sightings (no_rows, 1).

Lemma split_in_order : tables_in_order (fst split_rows).
Proof.
  apply in_order. eapply tracking_run; [apply operate_all_tracked|]; apply in_order, no_rows_in_order.
Qed.

(** The two identities are one player's, and stay two. *)
Example split_stays :
  (fun c => (fst c, is_score (snd c))) <$> default None (match merge_wanted (fst split_rows) 2 with Ok c => Some c | Err _ => None end)
    = Some (1, 100) /\
  fst (reconcile_split_private_identities split_rows) = Err "error serializing parameter 2" /\
  map (fun e => (fst e, linked_id (snd e))) (map_to_list (pd_observations (fst (operate Reconcile split_rows))))
    = [((100, 1), Some 1); ((200, 1), Some 2)].
Proof. split_and!; vm_compute; reflexivity. Qed.

Definition unseen : ObservationRow :=
  unresolved_row 0 {| cx_queue_id := None; cx_stats_scope := None; cx_map := None; cx_match_end := None; cx_quality := "" |}
    {| in_slot := 1; in_priority := 0; in_status := "";
       in_seen := {| sg_entry_datetime := 0; sg_party_id := 0; sg_account_level := 0; sg_mastery_level := 0; sg_league_tier := 0;
                     sg_league_points := 0; sg_champion_id := None; sg_task_force := None; sg_win_status := None;
                     sg_portal_id := None; sg_portal_user_id := None; sg_platform := None; sg_source := "" |} |}.
Definition row_at (k : Z * Z) (d : PrivateDb) : ObservationRow := default unseen (pd_observations d !! k).

Lemma identities_stay_in_order_witness :
  tables_in_order no_rows /\ tables_in_order (fst (operate_all (sightings ++ [Reconcile]) (no_rows, 1))).
Proof.
  split; [apply no_rows_in_order|]. apply (identities_stay_in_order (sightings ++ [Reconcile]) (no_rows, 1)). apply no_rows_in_order.
Defined.

Lemma links_are_final_witness :
  let o := row_at (200, 1) (fst split_rows) in
  let d := fst (operate_all [Reconcile; Backfill true] split_rows) in
  linked_id o = Some 2 /\
  exists o' i, pd_observations d !! (200, 1) = Some o' /\ linked_id o' = Some 2 /\
    pd_identities d !! 2 = Some i /\ pi_merged_into i = None /\ pi_match_count i = Z.of_nat (length (rows_of 2 d)).
Proof.
  split; [vm_compute; reflexivity|].
  apply (links_are_final [Reconcile; Backfill true] split_rows (200, 1) (row_at (200, 1) (fst split_rows)) 2).
  - apply split_in_order.
  - vm_compute. reflexivity.
  - vm_compute. reflexivity.
Defined.

(** An identity an earlier program merged. *)
Definition merged_identities : PrivateDb :=
  let i := new_identity 0 (observation_row (0, 0) unseen) in
  with_identities (<[1 := i 1]> (<[2 := set_merged 5 1 (i 2)]> ∅)) 3 no_rows.

Lemma merged_in_order : tables_in_order merged_identities.
Proof.
  assert (forall id i, pd_identities merged_identities !! id = Some i ->
            id < 3 /\ (exists n r, merged_path merged_identities n id r) /\
            (pi_active i = true -> pi_merged_into i = None) /\ md_sus_count (pi_moderation i) = 0) as H.
  { assert (merged_path merged_identities 0 1 1) as H1 by (eapply path_end; reflexivity).
    assert (merged_path merged_identities 1 2 1) as H2 by (eapply path_merged; [reflexivity|reflexivity|exact H1]).
    intros id i. cbn. rewrite !lookup_insert_Some, lookup_empty. intros [[<- <-]|[_ [[<- <-]|[_ [=]]]]]; split_and!; eauto; done. }
  split; try (cbn; intros *; by rewrite lookup_empty); intros id i Hi; try apply (H id i Hi).
  intros _. destruct (H id i Hi) as (_ & _ & _ & ->). done.
Qed.

Lemma second_path : merged_path merged_identities 1 2 1.
Proof. eapply path_merged; [reflexivity|reflexivity|]. eapply path_end; reflexivity. Qed.

Lemma moderation_reaches_root_witness :
  merged_path merged_identities 1 2 1 /\ canonical_identity 2 merged_identities = Some 1.
Proof.
  split; [apply second_path|].
  rewrite (moderation_reaches_root merged_identities 1 2 1 (new_identity 0 (observation_row (0, 0) unseen) 1)).
  - vm_compute. reflexivity.
  - apply merged_in_order.
  - apply second_path.
  - vm_compute. reflexivity.
Defined.

(** A match of too few players leaves its observations for later. *)
Definition late_rows : PrivateDb := fst (operate_all [stored 100 "direct" 50 "u7" false; stored 300 "direct" 51 "u7" true] (no_rows, 1)).

Lemma late_in_order : tables_in_order late_rows.
Proof.
  apply in_order. eapply tracking_run; [apply operate_all_tracked|]; apply in_order, no_rows_in_order.
Qed.

Lemma resolution_contract_witness :
  let w := row_at (300, 1) late_rows in
  let o := observation_row (300, 1) w in
  fst (resolve_observation 9 o None late_rows) = Ok Linked /\
  exists res, only_resolved 9 (300, 1) res w late_rows (snd (resolve_observation 9 o None late_rows)) /\
    has_private_identity_evidence o = true /\
    has_threshold (rank_candidates o (grouped_candidates late_rows o)) && has_margin (rank_candidates o (grouped_candidates late_rows o)) = true /\
    exists best, rs_private_player_id res = Some (fst best) /\ rs_confidence res = is_score (snd best) /\
      justified_by o (grouped_candidates late_rows o) best /\ identity_tracked late_rows (fst best) = true /\
      forall k' w', pd_observations late_rows !! k' = Some w' -> linked_id w' = Some (fst best) -> fst k' <> 300.
Proof.
  intros w o. assert (fst (resolve_observation 9 o None late_rows) = Ok Linked) as E by (vm_compute; reflexivity). split; [exact E|].
  assert (pd_observations late_rows !! (300, 1) = Some w) as Hw by (vm_compute; reflexivity).
  assert (linked_id w = None) as Hl by (vm_compute; reflexivity).
  pose proof (resolution_contract 9 (300, 1) w late_rows late_in_order Hw Hl) as Hc. cbv zeta in Hc. fold o in Hc.
  destruct (resolve_observation 9 o None late_rows) as [r d']. cbn [fst] in E. rewrite E in Hc. exact Hc.
Defined.

(** A row from before the slots, and the same match stored again. *)
Definition fact_player (slot : Z) : FactPlayer :=
  {| fp_match_id := 100; fp_player_id := 0; fp_private_slot := slot; fp_entry_datetime := 5; fp_player_name := Some "PrivateAccount"%string;
     fp_kind := "private"; fp_party_id := None; fp_account_level := Some 50; fp_mastery_level := None; fp_league_tier := None;
     fp_league_points := None; fp_champion_id := None; fp_task_force := None; fp_win_status := None; fp_portal_id := None;
     fp_portal_user_id := None; fp_platform := None; fp_source := None; fp_private_player_id := None |}.
Definition clashing_rows : PrivateDb :=
  {| pd_observations := ∅; pd_identities := ∅; pd_next_identity := 1; pd_history := ∅; pd_presence := ∅; pd_unresolved := ∅;
     pd_votes := ∅; pd_verifications := ∅; pd_next_verification := 1; pd_match_players := [fact_player 0; fact_player 1];
     pd_casual_players := []; pd_special_players := [];
     pd_matches := {[(100, 5) := {| fm_queue_id := Some 486; fm_map := None; fm_duration_seconds := None; fm_limited := None |}]};
     pd_scopes := ∅ |}.

Lemma clash : clashing clashing_rows.
Proof.
  exists (fact_player 0), (fact_player 1). split_and!; [by left|by right; left|done|done|done|vm_compute; reflexivity|vm_compute; reflexivity| |].
  all: by eexists.
Qed.

Lemma slotless_row_stops_backfill_witness :
  (forall now, backfill_observations now clashing_rows = Err "ON CONFLICT DO UPDATE command cannot affect row a second time") /\
  exists e s', backfill_private_account_identities true (clashing_rows, 1) = (Err e, s') /\
    map row_place (pd_match_players (fst s')) = map row_place (pd_match_players clashing_rows) /\ clashing (fst s').
Proof. apply (slotless_row_stops_backfill clashing_rows 1). apply clash. Defined.

Lemma score_symmetric_witness :
  let a := observation_row (100, 1) (row_at (100, 1) (fst split_rows)) in
  let b := observation_row (200, 1) (row_at (200, 1) (fst split_rows)) in
  is_score (score_private_identity a b) = 100 /\ score_private_identity a b = score_private_identity b a.
Proof.
  intros a b. split; [vm_compute; reflexivity|]. apply (score_symmetric a b).
  - vm_compute. discriminate.
  - vm_compute. constructor.
  - vm_compute. constructor.
Defined.

(** The aliases of identities past six digits are those of earlier ones. *)
Example alias_repeats : private_alias 1000000 = private_alias 100000 /\ private_alias 7 = "P-000007"%string.
Proof. split; vm_compute; reflexivity. Qed.
