(* ===== verification/Accounts.v ===== *)
(** * User accounts and sessions
      (src/backend-rust/src/routes/auth.rs, routes/identity.rs and the roles of
      routes/admin/roles.rs)

    The tables of users, their sessions, their OIDC identities and what they
    have read, and the handlers on them.  A handler is a sequence of
    statements; before each of them other requests may have changed the
    tables. *)

From S2P Require Import Prelude Cache Json F64 JsValue WebCompat Security.

(** ** The tables *)

(** The columns of a user that grant something. *)
Record Rights := { rt_is_active : bool; rt_is_admin : bool; rt_role : string; rt_is_approved : bool }.

Record PublicProfile := { pp_avatar_url : option string; pp_bio : option string; pp_time_zone : option string }.

Record Secret := { sc_password_hash : string; sc_salt : string }.

Record User := {
  us_username : string; us_email : string; us_secret : Secret; us_profile : PublicProfile; us_rights : Rights;
  us_created_at : Z; us_last_login : option Z; us_updated_at : Z; us_linked_player_id : option Z;
}.

(** [user_identities], by issuer and subject. *)
Record IdentityLink := { li_user_id : Z; li_migration_state : string; li_last_login_at : option Z }.

Record SessionRow := { se_user_id : Z; se_token : string; se_expires_at : Z; se_created_at : Z }.

(** [player_link_verifications], by user. *)
Record LinkVerification := {
  lv_player_id : Z; lv_code : string; lv_expires_at : Z; lv_created_at : Z; lv_attempt_count : Z;
  lv_last_attempt_at : option Z; lv_next_attempt_at : option Z; lv_locked_until : option Z;
}.

Record UserNotification := { un_user_id : Z; un_read_at : option Z }.

Record AuthDb := {
  ad_users : gmap Z User;
  ad_next_user : Z;
  ad_identities : gmap (string * string) IdentityLink;
  ad_sessions : gmap Z SessionRow;
  ad_next_session : Z;
  ad_verifications : gmap Z LinkVerification;
  ad_user_notifications : gmap Z UserNotification;
  (** [notifications], and who has read them when. *)
  ad_notifications : gset Z;
  ad_site_reads : gmap (Z * Z) Z;
  (** The names of [players]. *)
  ad_players : gmap Z string;
}.

Definition with_users (u : gmap Z User) (next : Z) (d : AuthDb) : AuthDb :=
  {| ad_users := u; ad_next_user := next; ad_identities := ad_identities d; ad_sessions := ad_sessions d;
     ad_next_session := ad_next_session d; ad_verifications := ad_verifications d;
     ad_user_notifications := ad_user_notifications d; ad_notifications := ad_notifications d;
     ad_site_reads := ad_site_reads d; ad_players := ad_players d |}.
Definition with_user_identities (i : gmap (string * string) IdentityLink) (d : AuthDb) : AuthDb :=
  {| ad_users := ad_users d; ad_next_user := ad_next_user d; ad_identities := i; ad_sessions := ad_sessions d;
     ad_next_session := ad_next_session d; ad_verifications := ad_verifications d;
     ad_user_notifications := ad_user_notifications d; ad_notifications := ad_notifications d;
     ad_site_reads := ad_site_reads d; ad_players := ad_players d |}.
Definition with_sessions (s : gmap Z SessionRow) (next : Z) (d : AuthDb) : AuthDb :=
  {| ad_users := ad_users d; ad_next_user := ad_next_user d; ad_identities := ad_identities d; ad_sessions := s;
     ad_next_session := next; ad_verifications := ad_verifications d;
     ad_user_notifications := ad_user_notifications d; ad_notifications := ad_notifications d;
     ad_site_reads := ad_site_reads d; ad_players := ad_players d |}.
Definition with_verification_rows (v : gmap Z LinkVerification) (d : AuthDb) : AuthDb :=
  {| ad_users := ad_users d; ad_next_user := ad_next_user d; ad_identities := ad_identities d; ad_sessions := ad_sessions d;
     ad_next_session := ad_next_session d; ad_verifications := v;
     ad_user_notifications := ad_user_notifications d; ad_notifications := ad_notifications d;
     ad_site_reads := ad_site_reads d; ad_players := ad_players d |}.
Definition with_reads (n : gmap Z UserNotification) (r : gmap (Z * Z) Z) (d : AuthDb) : AuthDb :=
  {| ad_users := ad_users d; ad_next_user := ad_next_user d; ad_identities := ad_identities d; ad_sessions := ad_sessions d;
     ad_next_session := ad_next_session d; ad_verifications := ad_verifications d;
     ad_user_notifications := n; ad_notifications := ad_notifications d; ad_site_reads := r; ad_players := ad_players d |}.

Definition update_user (f : User -> User) (id : Z) (d : AuthDb) : AuthDb :=
  with_users (alter f id (ad_users d)) (ad_next_user d) d.

Definition set_last_login (now instant : Z) (u : User) : User :=
  {| us_username := us_username u; us_email := us_email u; us_secret := us_secret u; us_profile := us_profile u;
     us_rights := us_rights u; us_created_at := us_created_at u; us_last_login := Some instant; us_updated_at := now;
     us_linked_player_id := us_linked_player_id u |}.
Definition set_profile (now : Z) (p : PublicProfile) (u : User) : User :=
  {| us_username := us_username u; us_email := us_email u; us_secret := us_secret u; us_profile := p;
     us_rights := us_rights u; us_created_at := us_created_at u; us_last_login := us_last_login u; us_updated_at := now;
     us_linked_player_id := us_linked_player_id u |}.
Definition set_secret (now : Z) (s : Secret) (u : User) : User :=
  {| us_username := us_username u; us_email := us_email u; us_secret := s; us_profile := us_profile u;
     us_rights := us_rights u; us_created_at := us_created_at u; us_last_login := us_last_login u; us_updated_at := now;
     us_linked_player_id := us_linked_player_id u |}.
Definition set_rights (now : Z) (r : Rights) (u : User) : User :=
  {| us_username := us_username u; us_email := us_email u; us_secret := us_secret u; us_profile := us_profile u;
     us_rights := r; us_created_at := us_created_at u; us_last_login := us_last_login u; us_updated_at := now;
     us_linked_player_id := us_linked_player_id u |}.
Definition set_linked_player (now : Z) (player : option Z) (u : User) : User :=
  {| us_username := us_username u; us_email := us_email u; us_secret := us_secret u; us_profile := us_profile u;
     us_rights := us_rights u; us_created_at := us_created_at u; us_last_login := us_last_login u; us_updated_at := now;
     us_linked_player_id := player |}.

(** ** Answers *)

Record HttpAnswer := { an_status : Z; an_body : value }.

Inductive ApiError :=
| ApiDatabase (message : string)
| ApiInternal
| ApiCoded (status : Z) (code message : string).

Definition json_response (status : Z) (body : value) : HttpAnswer := {| an_status := status; an_body := body |}.
Definition simple_error (status : Z) (message : string) : HttpAnswer := json_response status (Object [("error"%string, Str message)]).

Definition int (z : Z) : value := Number (NInt z).
Definition or_null (v : option value) : value := default Null v.
Definition text_or_null (s : option string) : value := or_null (Str <$> s).

(** *** The session of a request *)

(** [__Host-pc_session] of the cookies. *)
Definition session_cookie (part : string) : option string := v ← strip_prefix "__Host-pc_session=" (trim part); non_empty v.

Definition session_token (headers : HeaderMap) : option string :=
  or_else (v ← header_text headers "authorization"; t ← strip_prefix "Bearer " v; non_empty t)
    (v ← header_text headers "cookie"; head (omap session_cookie (split_on ";" v))).

(** [identity::as_i64]. *)
Definition as_i64_field (v : option value) : option Z :=
  match v with
  | Some (Number (NInt z)) => in_range i64_min i64_max z
  | Some (Str s) => parse_i64 s
  | _ => None
  end.

Definition parse_id (s : string) : option Z := id ← parse_js_integer s; if 0 <? id then Some id else None.

Definition body_field (name : string) (body : value) : option string := get name body ≫= as_str.
(** [text]. *)
Definition text (body : value) (name : string) : string := trim (default EmptyString (body_field name body)).

(** ** The world of a handler *)

(** Texts as PostgreSQL and the libraries read and show them. *)
Class AccountText := {
  lower : string -> string;
  (** An instant in JSON and as RFC 3339, which years beyond 9999 have not. *)
  instant_text : Z -> string;
  format_rfc3339 : Z -> option string;
  parse_rfc3339 : string -> option Z;
  timestamptz : string -> option Z;
  known_time_zone : string -> bool;
}.

(** The claims of a verified access token. *)
Record AccessIdentity := {
  ai_issuer : string; ai_subject : string; ai_email_verified : bool; ai_email : option string;
  ai_preferred_username : option string;
}.

(** What a request has seen, for its proofs: the tables that a statement met at
    its instant and those it left, the answers of the services it relies on.
    Nothing reads it. *)
Inductive Sight :=
| Ran (now : Z) (before after : AuthDb)
| Validated (token : string) (identity : option AccessIdentity)
| Fetched (user_id : Z) (v : LinkVerification) (loadouts : option value).

Class AccountServices (W : Type) := {
  (** What other requests have done to the tables since the last statement. *)
  others : AuthDb -> ST W AuthDb;
  (** A statement of its own: its instant and what became of it. *)
  account_statement : ST W (Z * commit_outcome);
  (** A transaction with its locks, and its end. *)
  account_begin : ST W (result Z string);
  account_commit : ST W commit_outcome;
  (** [OsRng] and the clock of the process. *)
  random_bytes : nat -> ST W (list Z);
  now_utc : ST W Z;
  (** [OidcVerifier::validate]. *)
  validate_token : string -> ST W (option AccessIdentity);
  (** The relay's answer to [getPlayerLoadouts], and the audit of it. *)
  fetch_loadouts : Z -> ST W (option value);
  record_raw_hirez_response : Z -> value -> ST W (result unit string);
}.

Record Config := {
  cf_oidc_enabled : bool; cf_oidc_bff_service_token : option string; cf_relay : bool; cf_legacy_password_login_enabled : bool;
}.

Section accounts.
Context `{Digests} `{AccountText} `{JsonText} {R : Type} `{Redis R} {W : Type} `{AccountServices W}.
Implicit Types (headers : HeaderMap) (body : value) (d : AuthDb).

(** The sights come latest first. *)
Record World := { w_db : AuthDb; w_redis : RedisCache R; w_rest : W; w_seen : list Sight }.

Definition world (d : AuthDb) (w : W) (s : World) : World :=
  {| w_db := d; w_redis := w_redis s; w_rest := w; w_seen := w_seen s |}.
Definition sighted (e : Sight) (s : World) : World :=
  {| w_db := w_db s; w_redis := w_redis s; w_rest := w_rest s; w_seen := e :: w_seen s |}.
Definition ran (now : Z) (before after : AuthDb) (w : W) (s : World) : World := sighted (Ran now before after) (world after w s).

Abbreviation Handler A := (ST World (result A ApiError)).

Definition on_rest {A} (f : ST W A) : ST World A := fun s =>
  let '(a, w) := f (w_rest s) in (a, world (w_db s) w s).
Definition on_redis {A} (f : ST (RedisCache R) A) : ST World A := fun s =>
  let '(a, r) := f (w_redis s) in (a, {| w_db := w_db s; w_redis := r; w_rest := w_rest s; w_seen := w_seen s |}).
Definition seeing {A} (e : A -> Sight) (f : ST W A) : ST World A := fun s =>
  let '(a, s) := on_rest f s in (a, sighted (e a) s).

Definition in_database {A} (r : result A string) : result A ApiError := map_err ApiDatabase r.

Definition account_query {A} (f : Z -> AuthDb -> result (A * AuthDb) string) : Handler A := fun s =>
  let '(d, w) := others (w_db s) (w_rest s) in
  let '((now, o), w) := account_statement w in
  match f now d with
  | Err e => (Err (ApiDatabase e), ran now d d w s)
  | Ok (a, d') => (in_database (_ <-! reported o; Ok a), ran now d (if applied o then d' else d) w s)
  end.

Definition reading {A} (f : Z -> AuthDb -> A) : Handler A := account_query (fun now d => Ok (f now d, d)).
Definition writing (f : Z -> AuthDb -> AuthDb) : Handler unit := account_query (fun now d => Ok (tt, f now d)).

(** The rows a transaction reads are locked; it is one step for the others. *)
Definition account_transaction {A} (f : Z -> AuthDb -> ST W (result (A * AuthDb) string)) : Handler A := fun s =>
  let '(d, w) := others (w_db s) (w_rest s) in
  match account_begin w with
  | (Err e, w) => (Err (ApiDatabase e), world d w s)
  | (Ok now, w) =>
      match f now d w with
      | (Err e, w) => (Err (ApiDatabase e), ran now d d w s)
      | (Ok (a, d'), w) =>
          let '(o, w) := account_commit w in
          (in_database (_ <-! reported o; Ok a), ran now d (if applied o then d' else d) w s)
      end
  end.

Definition answer (a : HttpAnswer) : Handler HttpAnswer := mret (Ok a).

(** ** Sessions *)

Definition SESSION_TTL_HOURS : Z := 72.
Definition nanos_per_hour : Z := 3600 * 1000000000.

Definition sha256_hex (s : string) : string := encode_hex (sha256 s).
Definition password_hash (password salt : string) : string := sha256_hex (password +:+ salt).
Definition random_hex (n : nat) : ST World string := bytes ← on_rest (random_bytes n); mret (encode_hex bytes).

Definition in_id_order {A} (m : gmap Z A) : list (Z * A) := sort_by (fun a b => fst a <=? fst b) (map_to_list m).

(** A session that has not expired, with its user; of two equal tokens the
    first. *)
Definition session_at (now : Z) (hash : string) d : option (SessionRow * User) :=
  head (omap (fun e => let s := snd e in
          if String.eqb (se_token s) hash && (now <? se_expires_at s) then u ← ad_users d !! se_user_id s; Some (s, u) else None)
        (in_id_order (ad_sessions d))).

Definition session_row headers : Handler (option (SessionRow * User)) :=
  match session_token headers with
  | None => mret (Ok None)
  | Some token => reading (fun now d => session_at now (sha256_hex token) d)
  end.

Definition require_user_id headers (missing : string) : Handler (result Z HttpAnswer) :=
  match session_token headers with
  | None => mret (Ok (Err (simple_error 401 missing)))
  | Some _ =>
      row <-? session_row headers;
      mret (Ok match row with Some (s, _) => Ok (se_user_id s) | None => Err (simple_error 401 "Not authenticated") end)
  end.

(** A handler that begins by asking for a session. *)
Definition authenticated headers (missing : string) (k : Z -> Handler HttpAnswer) : Handler HttpAnswer :=
  user <-? require_user_id headers missing;
  match (user : result Z HttpAnswer) with Ok id => k id | Err refused => answer refused end.

Definition insert_session (now user_id : Z) (hash expires_text : string) d : result (unit * AuthDb) string :=
  match timestamptz expires_text, ad_users d !! user_id with
  | None, _ => Err "invalid input syntax for type timestamp with time zone"
  | _, None => Err "insert or update violates foreign key constraint"
  | Some expires, Some _ =>
      if i32_max <? ad_next_session d then Err "nextval: reached maximum value of sequence"
      else Ok (tt, with_sessions (<[ad_next_session d := {| se_user_id := user_id; se_token := hash; se_expires_at := expires;
                                                            se_created_at := now |}]> (ad_sessions d))
                     (ad_next_session d + 1) d)
  end.

Definition create_session (user_id : Z) : Handler (string * string) :=
  token ← random_hex 32;
  now ← on_rest now_utc;
  match format_rfc3339 (now + SESSION_TTL_HOURS * nanos_per_hour) with
  | None => mret (Err ApiInternal)
  | Some expires_text =>
      _ <-? account_query (fun now d => insert_session now user_id (sha256_hex token) expires_text d);
      mret (Ok (token, expires_text))
  end.

Definition logout headers : Handler HttpAnswer :=
  _ <-? match session_token headers with
        | Some token => writing (fun _ d => with_sessions
            (base.filter (fun e => se_token (snd e) <> sha256_hex token) (ad_sessions d)) (ad_next_session d) d)
        | None => mret (Ok tt)
        end;
  answer (json_response 200 (Object [("message"%string, Str "Logged out")])).

(** ** Users as JSON *)

Definition linked_name d (u : User) : option string := p ← us_linked_player_id u; ad_players d !! p.

Definition is_project_developer (u : User) : bool :=
  String.eqb (rt_role (us_rights u)) "developer" || String.eqb (rt_role (us_rights u)) "admin".

Definition auth_user (id : Z) (u : User) (last_login name : option string) : value :=
  Object [
    ("id", int id); ("username", Str (us_username u)); ("email", Str (us_email u));
    ("avatar_url", text_or_null (pp_avatar_url (us_profile u))); ("bio", text_or_null (pp_bio (us_profile u)));
    ("time_zone", text_or_null (pp_time_zone (us_profile u))); ("is_admin", Bool (rt_is_admin (us_rights u)));
    ("is_project_developer", Bool (is_project_developer u)); ("is_approved", Bool (rt_is_approved (us_rights u)));
    ("created_at", Str (instant_text (us_created_at u))); ("last_login", text_or_null last_login);
    ("linked_player_id", or_null (int <$> us_linked_player_id u)); ("linked_player_name", text_or_null name)]%string.

Definition session_answer (token expires_text : string) (user : value) : HttpAnswer :=
  json_response 200 (Object [("token", Str token); ("expires_at", Str expires_text); ("user", user)]%string).

Definition me headers : Handler HttpAnswer :=
  match session_token headers with
  | None => answer (simple_error 401 "No token")
  | Some token =>
      row <-? reading (fun now d => (fun su => (su, linked_name d (snd su))) <$> session_at now (sha256_hex token) d);
      answer match row with
      | None => simple_error 401 "Invalid session"
      | Some (s, u, name) =>
          json_response 200 (Object [
            ("user_id", int (se_user_id s)); ("expires_at", Str (instant_text (se_expires_at s)));
            ("username", Str (us_username u)); ("email", Str (us_email u));
            ("avatar_url", text_or_null (pp_avatar_url (us_profile u))); ("bio", text_or_null (pp_bio (us_profile u)));
            ("time_zone", text_or_null (pp_time_zone (us_profile u))); ("is_admin", Bool (rt_is_admin (us_rights u)));
            ("role", Str (rt_role (us_rights u))); ("is_approved", Bool (rt_is_approved (us_rights u)));
            ("linked_player_id", or_null (int <$> us_linked_player_id u)); ("linked_player_name", text_or_null name)]%string)
      end
  end.

(** ** Passwords *)

Definition found_by (identifier : string) (u : User) : bool :=
  String.eqb (lower (us_username u)) (lower identifier) || String.eqb (lower (us_email u)) (lower identifier).

(** The user of a name or address, the first where both belong to different
    ones. *)
Definition user_named (identifier : string) d : option (Z * User) :=
  find_first (fun e => found_by identifier (snd e)) (in_id_order (ad_users d)).

(** A text parameter holds no NUL. *)
Definition with_text {A} (s : string) (f : result A string) : result A string :=
  if free_of_nul s then f else Err "invalid byte sequence for encoding".

Definition password_matches (password : string) (user : option (Z * User)) : bool :=
  let secret := us_secret ∘ snd <$> user in
  let salt := from_option sc_salt "dummy_salt"%string secret in
  let stored := from_option sc_password_hash (password_hash "dummy_password" "dummy_salt") secret in
  bool_decide (sha256 (password_hash password salt) = sha256 stored).

Definition login body : Handler HttpAnswer :=
  let identifier := text body "username" in
  let password := default EmptyString (body_field "password" body) in
  if is_empty identifier || is_empty password then answer (simple_error 400 "Missing required fields: username, password")
  else
    found <-? account_query (fun _ d => with_text identifier
                (Ok ((fun e => (e, linked_name d (snd e))) <$> user_named identifier d, d)));
    match found with
    | None => answer (simple_error 401 "Invalid credentials")
    | Some (id, u, name) =>
        if negb (password_matches password (Some (id, u))) then answer (simple_error 401 "Invalid credentials")
        else
          session <-? create_session id;
          now ← on_rest now_utc;
          match format_rfc3339 now with
          | None => mret (Err ApiInternal)
          | Some last_login =>
              _ <-? account_query (fun now d =>
                match timestamptz last_login with
                | Some instant => Ok (tt, update_user (set_last_login now instant) id d)
                | None => Err "invalid input syntax for type timestamp with time zone"
                end);
              answer (session_answer (fst session) (snd session) (auth_user id u (Some last_login) name))
          end
    end.

Definition change_password headers body : Handler HttpAnswer :=
  authenticated headers "Not authenticated" (fun user_id =>
    let current := default EmptyString (body_field "currentPassword" body) in
    let new := default EmptyString (body_field "newPassword" body) in
    if is_empty current || is_empty new then answer (simple_error 400 "Both current and new password required")
    else if text_length new <? 6 then answer (simple_error 400 "Password must be at least 6 characters")
    else
      user <-? reading (fun _ d => us_secret <$> ad_users d !! user_id);
      match user with
      | Some s =>
          if String.eqb (password_hash current (sc_salt s)) (sc_password_hash s) then
            salt ← random_hex 16;
            _ <-? writing (fun now => update_user (set_secret now {| sc_password_hash := password_hash new salt; sc_salt := salt |}) user_id);
            answer (json_response 200 (Object [("message"%string, Str "Password changed successfully")]))
          else answer (simple_error 403 "Current password is incorrect")
      | None => answer (simple_error 403 "Current password is incorrect")
      end).

(** ** The profile of a user *)

(** A given field that is no text becomes null. *)
Definition chosen (name : string) body (old : option string) : option string :=
  match get name body with Some v => as_str v | None => old end.

Definition storable (s : option string) : bool := match s with Some s => free_of_nul s | None => true end.

Definition profile headers body : Handler HttpAnswer :=
  authenticated headers "Not authenticated" (fun user_id =>
    let time_zone := (fun v => trim (default EmptyString (as_str v))) <$> get "time_zone" body in
    if negb (from_option known_time_zone true time_zone) then answer (simple_error 400 "Invalid time zone")
    else
        _ <-? account_query (fun now d =>
          let write := fun u =>
            let p := us_profile u in
            set_profile now {| pp_avatar_url := chosen "avatar_url" body (pp_avatar_url p); pp_bio := chosen "bio" body (pp_bio p);
                               pp_time_zone := match time_zone with Some z => Some z | None => pp_time_zone p end |} u in
          if storable (body_field "avatar_url" body) && storable (body_field "bio" body)
          then Ok (tt, update_user write user_id d) else Err "invalid byte sequence for encoding");
        answer (json_response 200 (Object [("message"%string, Str "Profile updated")]))).

Definition player_link headers body : Handler HttpAnswer :=
  authenticated headers "Not authenticated" (fun user_id =>
    match body_field "action" body with
    | Some action =>
        if String.eqb action "unlink" then
          _ <-? writing (fun now => update_user (set_linked_player now None) user_id);
          answer (json_response 200 (Object [("message"%string, Str "Player link removed")]))
        else answer (simple_error 400 "Use loadout verification to link a player.")
    | None => answer (simple_error 400 "Use loadout verification to link a player.")
    end).

(** ** What a user has read *)

Definition mark_read (now : Z) (n : UserNotification) : UserNotification :=
  {| un_user_id := un_user_id n; un_read_at := Some (default now (un_read_at n)) |}.

Definition read_answer (id : Z) (read_at : option Z) : HttpAnswer :=
  json_response 200 (Object [("id", int id); ("read_at", text_or_null (instant_text <$> read_at))]%string).

(** The notification of a user, marked; the instant it was read. *)
Definition read_own (id user_id : Z) : Handler (option (option Z)) :=
  account_query (fun now d =>
    match ad_user_notifications d !! id with
    | Some n => if un_user_id n =? user_id
                then Ok (Some (un_read_at (mark_read now n)),
                         with_reads (<[id := mark_read now n]> (ad_user_notifications d)) (ad_site_reads d) d)
                else Ok (None, d)
    | None => Ok (None, d)
    end).

Definition read_account_notification headers (id : string) : Handler HttpAnswer :=
  match parse_id id with
  | None => answer (simple_error 400 "Invalid notification id")
  | Some id =>
      authenticated headers "No token" (fun user_id =>
        updated <-? read_own id user_id;
        answer match updated with Some read_at => read_answer id read_at | None => simple_error 404 "Notification not found" end)
  end.

(** Negative ids are those of the user's own notifications. *)
Definition read_site_notification headers (id : string) : Handler HttpAnswer :=
  match (id ← parse_js_integer id; if id =? 0 then None else Some id) with
  | None => answer (simple_error 400 "Invalid notification id")
  | Some id =>
      authenticated headers "No token" (fun user_id =>
        if id <? 0 then
          read <-? read_own (- id) user_id;
          answer match read with Some read_at => read_answer id read_at | None => simple_error 404 "Notification not found" end
        else
          found <-? reading (fun _ d => bool_decide (id ∈ ad_notifications d));
          if negb found then answer (simple_error 404 "Notification not found")
          else
            (* The id is sent as a BIGINT for a column of INT, which the client refuses. *)
            read <-? account_query (A := Z) (fun _ _ => Err "error serializing parameter 1");
            answer (read_answer id (Some read)))
  end.

Definition read_all_site_notifications headers : Handler HttpAnswer :=
  authenticated headers "No token" (fun user_id =>
    _ <-? writing (fun now d => with_reads (ad_user_notifications d)
            (ad_site_reads d ∪ set_to_map (fun id => ((user_id, id), now)) (ad_notifications d)) d);
    _ <-? writing (fun now d => with_reads
            ((fun n => if un_user_id n =? user_id then mark_read now n else n) <$> ad_user_notifications d) (ad_site_reads d) d);
    answer (json_response 200 (Object [("read"%string, Bool true)]))).

(** ** Roles *)

Definition coded_error (status : Z) (code message : string) : HttpAnswer :=
  json_response status (Object [("error"%string, Object [("code", Str code); ("message", Str message)]%string)]).

(** [require_admin]: an error of the database refuses as well. *)
Definition require_admin headers : ST World (result unit HttpAnswer) :=
  row ← session_row headers;
  mret match row with
       | Ok (Some (_, u)) => if rt_is_admin (us_rights u) then Ok tt else Err (coded_error 401 "UNAUTHORIZED" "Admin access required")
       | _ => Err (coded_error 401 "UNAUTHORIZED" "Admin access required")
       end.

Definition ROLES : list string := ["user"; "moderator"; "developer"; "admin"]%string.

Definition update_role headers (id : string) body : Handler HttpAnswer :=
  admitted ← require_admin headers;
  match (admitted : result unit HttpAnswer) with
  | Err refused => answer refused
  | Ok _ =>
      match id ← parse_id id; in_range i32_min i32_max id with
      | None => answer (simple_error 400 "Invalid account")
      | Some id =>
          match r ← to_ascii_lowercase <$> body_field "role" body; if bool_decide (r ∈ ROLES) then Some r else None with
          | None => answer (simple_error 400 "Invalid role")
          | Some role =>
              updated <-? account_query (fun now d =>
                let write := fun u => set_rights now {| rt_is_active := rt_is_active (us_rights u);
                  rt_is_admin := String.eqb role "admin"; rt_role := role; rt_is_approved := rt_is_approved (us_rights u) |} u in
                let d := update_user write id d in Ok (ad_users d !! id, d));
              answer match updated with
                     | Some u => json_response 200 (Object [("id", int id); ("username", Str (us_username u));
                         ("email", Str (us_email u)); ("role", Str (rt_role (us_rights u)));
                         ("is_admin", Bool (rt_is_admin (us_rights u)))]%string)
                     | None => simple_error 404 "Account not found"
                     end
          end
      end
  end.
End accounts.
