(* ===== verification/Oidc.v ===== *)
(** * Accounts of OIDC identities
      (src/backend-rust/src/routes/auth.rs)

    The exchange of an access token for a session, with the admission of its
    identity, and the transactions of the login kept in the cache.  Their
    caller proves itself with a token of its own. *)

From S2P Require Import Prelude Cache Json F64 JsValue WebCompat Security Accounts.

(** ** Claims *)

(** Whether a character of the text is white space. *)
Fixpoint has_whitespace (s : string) : bool :=
  match s with EmptyString => false | String _ r => negb (String.eqb (trim_start s) s) || has_whitespace r end.

Definition within (lo hi z : Z) : bool := (lo <=? z) && (z <=? hi).

Definition name_char (c : ascii) : bool := is_alphanumeric c || Ascii.eqb c "-" || Ascii.eqb c "_".

(** [^[A-Za-z0-9_-]{3,32}$]. *)
Definition valid_username (s : string) : bool := within 3 32 (Z.of_nat (String.length s)) && all_chars name_char s.

(** The texts before and after each dot. *)
Fixpoint dot_splits (s : string) : list (string * string) :=
  match s with
  | EmptyString => []
  | String c r => (if Ascii.eqb c "." then [(EmptyString, r)] else []) ++ map (fun e => (String c (fst e), snd e)) (dot_splits r)
  end.

(** [^[^\s@]{1,64}@[^\s@]{1,189}\.[^\s@]{1,63}$]. *)
Definition valid_email (s : string) : bool :=
  match split_on "@" s with
  | [local; domain] =>
      negb (has_whitespace s) && within 1 64 (text_length local)
      && existsb (fun e => within 1 189 (text_length (fst e)) && within 1 63 (text_length (snd e))) (dot_splits domain)
  | _ => false
  end.

Inductive OidcAdmission := User_ (id : Z) | Unlinked | ClaimsRequired | Collision.

Section oidc.
Context `{Digests} `{AccountText} `{JsonText} {R : Type} `{Redis R} {W : Type} `{AccountServices W}.
Implicit Types (headers : HeaderMap) (body : value) (d : AuthDb).
Abbreviation World := (World (R := R) (W := W)).
Abbreviation Handler A := (ST World (result A ApiError)).

(** An address that is not verified is replaced by one of the identity. *)
Definition oidc_registration_claims (i : AccessIdentity) : option (string * string) :=
  username ← ai_preferred_username i;
  if valid_username username then
    let internal := "oidc-" +:+ sha256_hex (ai_issuer i +:+ String "000" (ai_subject i)) +:+ "@id.paladinscat.invalid" in
    Some (username,
      match ai_email_verified i, ai_email i with
      | true, Some email => if (Z.of_nat (String.length email) <=? 254) && valid_email email then to_ascii_lowercase email else internal
      | _, _ => internal
      end)
  else None.

(** ** Admission *)

Definition ADMITTED_STATES : list string := ["legacy"; "linked"; "reset_required"]%string.

Definition admitted_link (l : IdentityLink) d : bool :=
  bool_decide (li_migration_state l ∈ ADMITTED_STATES)
  && match ad_users d !! li_user_id l with Some u => rt_is_active (us_rights u) | None => false end.

Definition claimed (username email : string) d : bool :=
  existsb (fun e => String.eqb (lower (us_username (snd e))) (lower username)
                    || String.eqb (lower (us_email (snd e))) (lower email)) (map_to_list (ad_users d)).

Definition new_user (now : Z) (username email : string) (secret : Secret) : User :=
  {| us_username := username; us_email := email; us_secret := secret;
     us_profile := {| pp_avatar_url := None; pp_bio := None; pp_time_zone := None |};
     us_rights := {| rt_is_active := true; rt_is_admin := false; rt_role := "user"; rt_is_approved := false |};
     us_created_at := now; us_last_login := None; us_updated_at := now; us_linked_player_id := None |}.

Definition insert_user (now : Z) (i : AccessIdentity) (username email : string) (secret : Secret) d :
    result (OidcAdmission * AuthDb) string :=
  let id := ad_next_user d in
  if i32_max <? id then Err "nextval: reached maximum value of sequence"
  else
    let d := with_users (<[id := new_user now username email secret]> (ad_users d)) (id + 1) d in
    Ok (User_ id, with_user_identities (<[(ai_issuer i, ai_subject i) :=
          {| li_user_id := id; li_migration_state := "linked"; li_last_login_at := Some now |}]> (ad_identities d)) d).

(** With the locks of the identity, of its claims and of the users. *)
Definition promote_body (i : AccessIdentity) (now : Z) d : ST W (result (OidcAdmission * AuthDb) string) :=
  let k := (ai_issuer i, ai_subject i) in
  if negb (free_of_nul (ai_issuer i) && free_of_nul (ai_subject i)) then mret (Err "invalid byte sequence for encoding")
  else
    match ad_identities d !! k with
    | Some l =>
        mret (Ok (if admitted_link l d
                  then (User_ (li_user_id l),
                        with_user_identities (<[k := {| li_user_id := li_user_id l; li_migration_state := "linked";
                                                        li_last_login_at := Some now |}]> (ad_identities d)) d)
                  else (Unlinked, d)))
    | None =>
        match oidc_registration_claims i with
        | None => mret (Ok (ClaimsRequired, d))
        | Some (username, email) =>
            if negb (free_of_nul email) then mret (Err "invalid byte sequence for encoding")
            else if claimed username email d then mret (Ok (Collision, d))
            else
              salt ← random_bytes 16;
              password ← random_bytes 32;
              let salt := encode_hex salt in
              mret (insert_user now i username email
                      {| sc_password_hash := password_hash (encode_hex password) salt; sc_salt := salt |} d)
        end
    end.

Definition promote_oidc_identity (i : AccessIdentity) : Handler OidcAdmission := account_transaction (promote_body i).

Definition service_bearer headers : option string :=
  v ← header_text headers "authorization"; t ← strip_prefix "Bearer " v; non_empty t.

Definition oidc_bff_token_matches (expected candidate : option string) : bool :=
  match expected, candidate with
  | Some expected, Some candidate => constant_time_equal candidate expected
  | _, _ => false
  end.

Definition oidc_bff_authorized (c : Config) headers : bool :=
  oidc_bff_token_matches (cf_oidc_bff_service_token c) (service_bearer headers).

Definition oidc_exchange (c : Config) headers body : Handler HttpAnswer :=
  if negb (oidc_bff_authorized c headers) then answer (simple_error 401 "OIDC BFF authorization required")
  else if negb (cf_oidc_enabled c) then answer (simple_error 404 "OIDC is not enabled")
  else
    match t ← body_field "access_token" body; if Z.of_nat (String.length t) <=? 16384 then Some t else None with
    | None => answer (simple_error 400 "Missing access token")
    | Some token =>
        identity ← seeing (Validated token) (validate_token token);
        match identity with
        | None => answer (simple_error 401 "Invalid OIDC access token")
        | Some identity =>
            admission <-? promote_oidc_identity identity;
            match admission with
            | Unlinked => answer (simple_error 403 "OIDC identity is not linked")
            | ClaimsRequired => answer (simple_error 403
                "A verified email, valid username, and account recovery are required before creating an account.")
            | Collision => answer (simple_error 409
                "This OIDC account matches an existing PaladinsCat account. Use account migration or recovery; it was not linked automatically.")
            | User_ user_id =>
                row <-? reading (fun _ d => (fun u => (u, linked_name d u)) <$> ad_users d !! user_id);
                match row with
                | None => mret (Err ApiInternal)
                | Some (u, name) =>
                    session <-? create_session user_id;
                    answer (session_answer (fst session) (snd session)
                              (auth_user user_id u (instant_text <$> us_last_login u) name))
                end
            end
        end
    end.

(** ** The transactions of the login *)

Definition oidc_state body : option string :=
  s ← body_field "state" body;
  if within 32 128 (Z.of_nat (String.length s)) && all_chars name_char s then Some s else None.

Definition byte_length (name : string) body : Z := from_option (fun s => Z.of_nat (String.length s)) 0 (body_field name body).

Definition transaction_key (state : string) : string := "oidc:transaction:" +:+ state.

Definition oidc_transaction_create (c : Config) headers body : Handler HttpAnswer :=
  if negb (oidc_bff_authorized c headers) then answer (simple_error 401 "OIDC BFF authorization required")
  else
    match oidc_state body with
    | None => answer (simple_error 400 "Invalid OIDC state")
    | Some state =>
        if negb ((32 <=? byte_length "nonce" body) && within 43 128 (byte_length "verifier" body))
        then answer (simple_error 400 "Invalid OIDC transaction")
        else
          stored ← on_redis (set_if_absent_required (transaction_key state) body 600);
          answer match stored with
                 | Some true => json_response 201 (Object [("state", Str state); ("expires_in", int 600)]%string)
                 | Some false => simple_error 409 "OIDC state already exists"
                 | None => simple_error 503 "OIDC transaction store unavailable"
                 end
    end.

Definition oidc_transaction_consume (c : Config) headers body : Handler HttpAnswer :=
  if negb (oidc_bff_authorized c headers) then answer (simple_error 401 "OIDC BFF authorization required")
  else
    match oidc_state body with
    | None => answer (simple_error 400 "Invalid OIDC state")
    | Some state =>
        let key := transaction_key state in
        let lease := key +:+ ":consume" in
        token ← random_hex 16;
        acquired ← on_redis (acquire_lease lease token 10000);
        if negb (bool_decide (acquired = Some true)) then answer (simple_error 409 "OIDC state already consumed")
        else
          transaction ← on_redis (Cache.get (T := value) key);
          _ ← on_redis (del key);
          _ ← on_redis (release_lease lease token);
          answer match transaction with
                 | Some v => json_response 200 v
                 | None => simple_error 401 "OIDC state expired or consumed"
                 end
    end.
End oidc.
