(* ===== verification/PlayerLink.v ===== *)
(** * The link of an account to a player
      (src/backend-rust/src/routes/auth.rs and the guard of
      src/backend-rust/src/routes/live.rs)

    A user proves that a player of the game is theirs by naming a loadout with
    a code.  Checks are counted, spaced and locked in the database, and
    limited in the cache before the relay is asked. *)

From S2P Require Import Prelude Cache Json F64 JsValue WebCompat Security Accounts.

Definition LINK_COOLDOWN_SECONDS : Z := 30.
Definition LINK_MAX_ATTEMPTS : Z := 5.
Definition LINK_LOCKOUT_MINUTES : Z := 10.

Definition seconds (n : Z) : Z := n * 1000000.
Definition minutes (n : Z) : Z := seconds (60 * n).

Section player_link.
Context `{Digests} `{AccountText} `{JsonText} {R : Type} `{Redis R} {W : Type} `{AccountServices W}.
Implicit Types (headers : HeaderMap) (body : value) (d : AuthDb).
Abbreviation World := (World (R := R) (W := W)).
Abbreviation Handler A := (ST World (result A ApiError)).

(** ** The guard of the provider (routes/live.rs) *)

Definition request_identity headers : string :=
  let address := v ← or_else (header_get headers "cf-connecting-ip") (header_get headers "x-forwarded-for");
                 if all_chars visible v then trim <$> last (split_on "," v) else None in
  client_rate_limit_identity (default "unknown"%string address).

Definition clock_ms : ST World Z := now ← on_rest now_utc; mret (now / 1000000).

Definition check_rate_limit (key : string) (limit window_ms : Z) : ST World RateLimitResult :=
  now ← clock_ms; on_redis (check_rate_limit_at key limit window_ms false now).

Definition retry_after_seconds (reset_at_ms now_ms : Z) : Z := Z.max 1 ((sat_sub reset_at_ms now_ms + 999) / 1000).

Definition request_security (status : Z) (code message : string) (retry_after : Z) : HttpAnswer :=
  json_response status (Object [("error"%string, Object [("code", Str code); ("message", Str message);
    ("details", Object [("retry_after_seconds"%string, int retry_after)])]%string)]).

(** The next limit, where the last one lets the request pass. *)
Definition limited (r : RateLimitResult) (code message : string) (next : ST World (result unit HttpAnswer)) :
    ST World (result unit HttpAnswer) :=
  if negb (backend_available r) then
    now ← clock_ms;
    mret (Err (request_security 503 "PROTECTION_UNAVAILABLE"
      "Live-data protection is temporarily unavailable. Cached database data remains available."
      (retry_after_seconds (reset_at_ms r) now)))
  else if negb (allowed r) then
    now ← clock_ms; mret (Err (request_security 429 code message (retry_after_seconds (reset_at_ms r) now)))
  else next.

Definition vendor_guard (identity scope entity : string) (entity_window_ms client_limit : Z) : ST World (result unit HttpAnswer) :=
  client ← check_rate_limit ("vendor-fallback:" +:+ scope +:+ ":" +:+ identity +:+ ":public") client_limit 60000;
  limited client "VENDOR_RATE_LIMITED" "Too many live-data fallbacks. Please wait for the database buffer to refresh." (
    global ← check_rate_limit "vendor-fallback:global" 180 60000;
    limited global "VENDOR_GLOBAL_RATE_LIMITED" "The live-data fallback is busy. Cached database data remains available." (
      let digest := sha256_hex (scope +:+ ":" +:+ entity) in
      entity ← check_rate_limit ("vendor-fallback:entity:" +:+ String.substring 0 32 digest) 1 entity_window_ms;
      limited entity "VENDOR_ENTITY_COOLDOWN"
        "A live-data attempt for this record already ran recently. Cached database data remains available."
        (mret (Ok tt)))).

(** ** The verification of a user *)

Definition drop_expired (now : Z) d : AuthDb :=
  with_verification_rows (base.filter (fun e => now < lv_expires_at (snd e)) (ad_verifications d)) d.

Definition drop_verification (user_id : Z) d : AuthDb := with_verification_rows (delete user_id (ad_verifications d)) d.

Definition player_json (id : Z) (name : string) : value := Object [("id", int id); ("name", Str name)]%string.

Definition link_verification headers : Handler HttpAnswer :=
  authenticated headers "No token" (fun user_id =>
    _ <-? writing drop_expired;
    row <-? reading (fun _ d => v ← ad_verifications d !! user_id; name ← ad_players d !! lv_player_id v; Some (v, name));
    answer (json_response 200 (Object [("verification"%string,
      match row with
      | Some (v, name) => Object [("player", player_json (lv_player_id v) name); ("code", Str (lv_code v));
                                  ("expiresAt", Str (instant_text (lv_expires_at v)))]%string
      | None => Null
      end)]))).

Definition random_pin : ST World string :=
  bytes ← on_rest (random_bytes 4);
  mret (pretty (100000 + foldr (fun b n => b + 256 * n) 0 bytes mod 900000)).

Definition locked_until (now user_id : Z) d : option Z :=
  v ← ad_verifications d !! user_id; t ← lv_locked_until v; if now <? t then Some t else None.

(** Another user who has the player. *)
Definition linked_elsewhere (user_id player_id : Z) d : bool :=
  existsb (fun e => negb (fst e =? user_id) && bool_decide (us_linked_player_id (snd e) = Some player_id)) (map_to_list (ad_users d)).

(** A new code, in place of any other; codes are unique. *)
Definition upsert_verification (now user_id player_id : Z) (code : string) d : result (LinkVerification * AuthDb) string :=
  if existsb (fun e => negb (fst e =? user_id) && String.eqb (lv_code (snd e)) code) (map_to_list (ad_verifications d))
  then Err "duplicate key value violates unique constraint"
  else
    match ad_users d !! user_id with
    | None => Err "insert or update violates foreign key constraint"
    | Some _ =>
        let v := {| lv_player_id := player_id; lv_code := code; lv_expires_at := now + minutes 10; lv_created_at := now;
                    lv_attempt_count := 0; lv_last_attempt_at := None; lv_next_attempt_at := None; lv_locked_until := None |} in
        Ok (v, with_verification_rows (<[user_id := v]> (ad_verifications d)) d)
    end.

Definition too_many_requests (message : string) (retry_at : value) : HttpAnswer :=
  json_response 429 (Object [("error", Str message); ("retry_at", retry_at)]%string).

Definition create_link_verification headers body : Handler HttpAnswer :=
  authenticated headers "No token" (fun user_id =>
    locked <-? reading (fun now => locked_until now user_id);
    match locked with
    | Some t => answer (too_many_requests ("Too many verification attempts. Try again after " +:+ instant_text t +:+ ".")
                          (Str (instant_text t)))
    | None =>
        match id ← as_i64_field (get "playerId" body); if 0 <? id then Some id else None with
        | None => answer (simple_error 400 "Valid player ID required")
        | Some player_id =>
            player <-? reading (fun _ d => ad_players d !! player_id);
            match player with
            | None => answer (simple_error 404 "Player not found. Search for the player name first.")
            | Some name =>
                taken <-? reading (fun _ => linked_elsewhere user_id player_id);
                if (taken : bool) then answer (simple_error 409 "This player is already linked to another account.")
                else
                  code ← random_pin;
                  v <-? account_query (fun now d => upsert_verification now user_id player_id code d);
                  answer (json_response 200 (Object [("verification"%string,
                    Object [("player", player_json player_id name); ("code", Str (lv_code v));
                            ("expiresAt", Str (instant_text (lv_expires_at v)))]%string)]))
            end
        end
    end).

Definition cancel_link_verification headers : Handler HttpAnswer :=
  authenticated headers "No token" (fun user_id =>
    _ <-? writing (fun _ => drop_verification user_id);
    answer (json_response 200 (Object [("message"%string, Str "Verification cancelled")]))).

(** ** A check *)

Definition after_instant (t : option Z) (now : Z) : bool := match t with Some t => t <=? now | None => true end.

(** Whether a check may run now. *)
Definition may_check (now : Z) (v : LinkVerification) : bool :=
  (now <? lv_expires_at v) && (lv_attempt_count v <? LINK_MAX_ATTEMPTS)
  && after_instant (lv_next_attempt_at v) now && after_instant (lv_locked_until v) now.

Definition attempted (now : Z) (v : LinkVerification) : LinkVerification :=
  {| lv_player_id := lv_player_id v; lv_code := lv_code v; lv_expires_at := lv_expires_at v; lv_created_at := lv_created_at v;
     lv_attempt_count := lv_attempt_count v + 1; lv_last_attempt_at := Some now;
     lv_next_attempt_at := Some (now + seconds LINK_COOLDOWN_SECONDS); lv_locked_until := lv_locked_until v |}.

(** The verification with one more attempt, and the name of its player. *)
Definition begin_attempt (now user_id : Z) d : option (LinkVerification * string) * AuthDb :=
  match v ← ad_verifications d !! user_id; name ← ad_players d !! lv_player_id v;
        if may_check now v then Some (attempted now v, name) else None with
  | Some (v, name) => (Some (v, name), with_verification_rows (<[user_id := v]> (ad_verifications d)) d)
  | None => (None, d)
  end.

Definition locked (now : Z) (v : LinkVerification) : LinkVerification :=
  let until := now + minutes LINK_LOCKOUT_MINUTES in
  {| lv_player_id := lv_player_id v; lv_code := lv_code v; lv_expires_at := Z.max (lv_expires_at v) until;
     lv_created_at := lv_created_at v; lv_attempt_count := lv_attempt_count v; lv_last_attempt_at := lv_last_attempt_at v;
     lv_next_attempt_at := lv_next_attempt_at v; lv_locked_until := Some until |}.

Definition lock_verification (user_id : Z) : Handler (option Z) :=
  account_query (fun now d =>
    let d := with_verification_rows (alter (locked now) user_id (ad_verifications d)) d in
    Ok (v ← ad_verifications d !! user_id; lv_locked_until v, d)).

Definition attempt_limit_reached (user_id : Z) : Handler HttpAnswer :=
  t <-? lock_verification user_id;
  answer (too_many_requests "The verification attempt limit was reached." (text_or_null (instant_text <$> t))).

(** Why no check may run, by the clock of the process. *)
Definition check_refused (user_id : Z) : Handler HttpAnswer :=
  row <-? reading (fun _ d => ad_verifications d !! user_id);
  match row with
  | None => answer (simple_error 404 "No active player-link verification.")
  | Some v =>
      now ← on_rest now_utc;
      let shown t := parse_rfc3339 (instant_text t) in
      if match shown (lv_expires_at v) with Some t => t <=? now | None => false end then
        _ <-? writing (fun _ => drop_verification user_id);
        answer (simple_error 410 "Verification code expired. Generate a new one.")
      else
        let later t := match t ≫= shown with Some t => now <? t | None => false end in
        answer (too_many_requests "Please wait before checking again."
          (text_or_null (instant_text <$> (if later (lv_locked_until v) then lv_locked_until v
                                           else if later (lv_next_attempt_at v) then lv_next_attempt_at v else None))))
  end.

(** A loadout whose name is the code. *)
Definition names_code (code : string) (row : value) : bool :=
  match or_else (get "DeckName" row) (get "deck_name" row) ≫= as_str with
  | Some name => eq_ignore_ascii_case (trim name) code
  | None => false
  end.

Definition shows_code (code : string) (loadouts : value) : bool :=
  match loadouts with Array rows => existsb (names_code code) rows | _ => false end.

Definition plural (n : Z) : string := if n =? 1 then "" else "s".

Definition link_player (now user_id player_id : Z) d : AuthDb :=
  drop_verification user_id (update_user (set_linked_player now (Some player_id)) user_id d).

(** The end of a check that found the code. *)
Definition link_verified (user_id : Z) (v : LinkVerification) (name : string) : Handler HttpAnswer :=
  let player_id := lv_player_id v in
  taken <-? reading (fun _ => linked_elsewhere user_id player_id);
  if (taken : bool) then answer (simple_error 409 "This player is already linked to another account.")
  else
    _ <-? account_transaction (fun now d => mret (Ok (tt, link_player now user_id player_id d)));
    answer (json_response 200 (Object [("message", Str "Player linked"); ("player", player_json player_id name)]%string)).

(** What the relay's answer decides. *)
Definition check_verdict (user_id : Z) (v : LinkVerification) (name : string) (loadouts : option value) : Handler HttpAnswer :=
  match loadouts with
  | None =>
      if LINK_MAX_ATTEMPTS <=? lv_attempt_count v then attempt_limit_reached user_id
      else answer (simple_error 502
        "Hi-Rez could not refresh this player's loadouts. Please wait for the cooldown and try again.")
  | Some loadouts =>
      recorded ← on_rest (record_raw_hirez_response (lv_player_id v) loadouts);
      _ <-? mret (in_database recorded);
      if shows_code (lv_code v) loadouts then link_verified user_id v name
      else if LINK_MAX_ATTEMPTS <=? lv_attempt_count v then attempt_limit_reached user_id
      else
        let remaining := LINK_MAX_ATTEMPTS - lv_attempt_count v in
        answer (simple_error 409
          ("Code not found in this player's freshly refreshed loadouts. Save the renamed loadout, wait 30 seconds, then try again. "
           +:+ pretty remaining +:+ " attempt" +:+ plural remaining +:+ " remaining."))
  end.

Definition check_attempt (c : Config) headers (user_id : Z) (v : LinkVerification) (name : string) : Handler HttpAnswer :=
  let player_id := lv_player_id v in
  guard ← vendor_guard (request_identity headers) "player-link-verification" (pretty player_id) (LINK_COOLDOWN_SECONDS * 1000) 8;
  match (guard : result unit HttpAnswer) with
  | Err refused => answer refused
  | Ok _ =>
      if negb (cf_relay c) then mret (Err ApiInternal)
      else
        loadouts ← seeing (Fetched user_id v) (fetch_loadouts player_id);
        check_verdict user_id v name loadouts
  end.

Definition check_link_verification (c : Config) headers : Handler HttpAnswer :=
  authenticated headers "No token" (fun user_id =>
    attempt <-? account_query (fun now d => Ok (begin_attempt now user_id d));
    match attempt with
    | None => check_refused user_id
    | Some (v, name) => check_attempt c headers user_id v name
    end).
End player_link.
