(* ===== verification/AccountsSpec.v ===== *)
(** * What holds of accounts, sessions and links

    The routes of routes/auth.rs with the roles of the administrators as one
    function, and its theorems.  A theorem holds against whatever the other
    requests do between two statements, as long as they keep its invariant as
    well. *)

From S2P Require Import Prelude Cache Json F64 JsValue WebCompat Security Accounts Oidc PlayerLink.

(** ** The routes *)

Inductive AccountRoute :=
| OidcExchange (body : value) | OidcTransactions (body : value) | OidcTransactionsConsume (body : value)
| Logout | Me | ProfileOf (body : value)
| ReadNotification (id : string) | ReadSiteNotification (id : string) | ReadAllSiteNotifications
| PlayerLinkOf (body : value)
| Verification | CreateVerification (body : value) | CancelVerification | CheckVerification
| Login (body : value) | Password (body : value)
| RoleOf (id : string) (body : value).

Section router.
Context `{Digests} `{AccountText} `{JsonText} {R : Type} `{Redis R} {W : Type} `{AccountServices W}.
Implicit Types (headers : HeaderMap) (body : value) (d : AuthDb).
Abbreviation World := (World (R := R) (W := W)).
Abbreviation Handler A := (ST World (result A ApiError)).

(** [router]: the password routes may not exist. *)
Definition auth_router (c : Config) headers (r : AccountRoute) : Handler HttpAnswer :=
  match r with
  | OidcExchange body => oidc_exchange c headers body
  | OidcTransactions body => oidc_transaction_create c headers body
  | OidcTransactionsConsume body => oidc_transaction_consume c headers body
  | Logout => logout headers
  | Me => me headers
  | ProfileOf body => profile headers body
  | ReadNotification id => read_account_notification headers id
  | ReadSiteNotification id => read_site_notification headers id
  | ReadAllSiteNotifications => read_all_site_notifications headers
  | PlayerLinkOf body => player_link headers body
  | Verification => link_verification headers
  | CreateVerification body => create_link_verification headers body
  | CancelVerification => cancel_link_verification headers
  | CheckVerification => check_link_verification c headers
  | Login body => if cf_legacy_password_login_enabled c then login body else answer (json_response 404 Null)
  | Password body =>
      if cf_legacy_password_login_enabled c then change_password headers body else answer (json_response 404 Null)
  | RoleOf id body => update_role headers id body
  end.

(** ** What a request sees *)

Definition grows {A} (f : ST World A) : Prop := forall s, w_seen s ⊆ w_seen (exec f s).

Lemma sights_grow_ret {A} (a : A) : grows (mret a).
Proof. by intros s. Qed.

Lemma sights_grow_bind {A B} (f : ST World A) (k : A -> ST World B) : grows f -> (forall a, grows (k a)) -> grows (f ≫= k).
Proof.
  intros Hf Hk s. specialize (Hf s). unfold exec, mbind, ST_bind in *. destruct (f s) as [a s']. etrans; [exact Hf|apply Hk].
Qed.

Lemma sights_grow_try {A B} (f : Handler A) (k : A -> Handler B) : grows f -> (forall a, grows (k a)) -> grows (try_bind f k).
Proof.
  intros Hf Hk s. specialize (Hf s). unfold exec, try_bind in *. destruct (f s) as [[a|e] s']; [|exact Hf].
  etrans; [exact Hf|apply Hk].
Qed.

Lemma grows_rest {A} (f : ST W A) : grows (on_rest f).
Proof. intros s. unfold exec, on_rest. by destruct (f (w_rest s)). Qed.
Lemma grows_redis {A} (f : ST (RedisCache R) A) : grows (on_redis f).
Proof. intros s. unfold exec, on_redis. by destruct (f (w_redis s)). Qed.
Lemma grows_seeing {A} e (f : ST W A) : grows (seeing e f).
Proof. intros s. unfold exec, seeing, on_rest. destruct (f (w_rest s)) as [a w]. apply list_subseteq_cons. done. Qed.

Lemma grows_query {A} (f : Z -> AuthDb -> result (A * AuthDb) string) : grows (account_query f).
Proof.
  intros s. unfold exec, account_query. destruct (others (w_db s) (w_rest s)) as [d w].
  destruct (account_statement w) as [[now o] w']. by destruct (f now d) as [[a d']|e]; apply list_subseteq_cons.
Qed.

Lemma grows_transaction {A} (f : Z -> AuthDb -> ST W (result (A * AuthDb) string)) : grows (account_transaction f).
Proof.
  intros s. unfold exec, account_transaction. destruct (others (w_db s) (w_rest s)) as [d w].
  destruct (account_begin w) as [[now|e] w1]; [|done].
  destruct (f now d w1) as [[[a d']|e] w2]; [destruct (account_commit w2)|]; by apply list_subseteq_cons.
Qed.

End router.

Ltac grow := repeat first
  [ apply sights_grow_ret | apply grows_query | apply grows_transaction | apply grows_rest | apply grows_redis
  | apply grows_seeing | apply sights_grow_try; [|intros ?] | apply sights_grow_bind; [|intros ?] | progress cbv zeta
  | progress unfold limited, link_verified, login, session_row, require_user_id, oidc_exchange, read_account_notification,
      read_site_notification, me, oidc_transaction_create, oidc_transaction_consume, check_attempt,
      check_verdict | case_match ].

Section accounts.
Context `{Digests} `{AccountText} `{JsonText} {R : Type} `{Redis R} {W : Type} `{AccountServices W}.
Implicit Types (headers : HeaderMap) (body : value) (d : AuthDb).
Abbreviation World := (World (R := R) (W := W)).
Abbreviation Handler A := (ST World (result A ApiError)).

(** ** Invariants of the tables *)

(** The other requests keep it. *)
Definition others_keep (I : AuthDb -> Prop) : Prop := forall d w, I d -> I (fst (others d w)).

Section invariants.
(** All that a request sees, and what holds of its sights so far and the
    tables. *)
Context (T : list Sight) (I : list Sight -> AuthDb -> Prop).

Record stable : Prop := {
  stable_others t d w : I t d -> I t (fst (others d w));
  stable_read now t d : I t d -> I (Ran now d d :: t) d;
  stable_validated token i t d : I t d -> I (Validated token i :: t) d;
}.

Definition holds (s : World) : Prop := I (w_seen s) (w_db s).

Definition keeps {A} (f : ST World A) : Prop := forall s, holds s -> w_seen (exec f s) ⊆ T -> holds (exec f s).

(** What a handler may answer where the invariant holds. *)
Definition answers {A} (f : ST World A) (a : A) : Prop := exists s, holds s /\ w_seen (exec f s) ⊆ T /\ run f s = a.

(** The tables that a statement of the request met. *)
Definition met (now : Z) d : Prop := (exists t, I t d) /\ exists after, Ran now d after ∈ T.

Lemma keeps_mret {A} (a : A) : keeps (mret a).
Proof. by intros s. Qed.

Lemma handler_keeps_bind {A B} (f : ST World A) (k : A -> ST World B) :
  keeps f -> (forall a, answers f a -> keeps (k a)) -> (forall a, grows (k a)) -> keeps (f ≫= k).
Proof.
  intros Hf Hk Hg s Hs. specialize (Hf s Hs). unfold exec, mbind, ST_bind in *.
  destruct (f s) as [a s'] eqn:E. intros HT.
  assert (w_seen s' ⊆ T) as HT' by (etrans; [apply (Hg a)|exact HT]).
  apply (Hk a); [|by apply Hf|done]. exists s. unfold exec, run. by rewrite E.
Qed.

Lemma handler_keeps_try {A B} (f : Handler A) (k : A -> Handler B) :
  keeps f -> (forall a, answers f (Ok a) -> keeps (k a)) -> (forall a, grows (k a)) -> keeps (try_bind f k).
Proof.
  intros Hf Hk Hg s Hs. specialize (Hf s Hs). unfold exec, try_bind in *.
  destruct (f s) as [[a|e] s'] eqn:E; [|exact Hf]. intros HT.
  assert (w_seen s' ⊆ T) as HT' by (etrans; [apply (Hg a)|exact HT]).
  apply (Hk a); [|by apply Hf|done]. exists s. unfold exec, run. by rewrite E.
Qed.

Lemma keeps_on_rest {A} (f : ST W A) : keeps (on_rest f).
Proof. intros s Hs. unfold exec, on_rest. by destruct (f (w_rest s)). Qed.
Lemma keeps_on_redis {A} (f : ST (RedisCache R) A) : keeps (on_redis f).
Proof. intros s Hs. unfold exec, on_redis. by destruct (f (w_redis s)). Qed.
Lemma keeps_seeing {A} e (f : ST W A) : (forall a t d, I t d -> I (e a :: t) d) -> keeps (seeing e f).
Proof. intros He s Hs. unfold exec, seeing, on_rest. destruct (f (w_rest s)) as [a w]. intros _. by apply He. Qed.

Lemma answers_ret {A} (a b : A) : answers (mret a) b -> b = a.
Proof. by intros (s & _ & _ & <-). Qed.

Lemma answers_bind {A B} (f : ST World A) (k : A -> ST World B) b :
  keeps f -> (forall a, grows (k a)) -> answers (f ≫= k) b -> exists a, answers f a /\ answers (k a) b.
Proof.
  intros Hf Hg (s & Hs & HT & E). unfold run, exec, mbind, ST_bind in *. specialize (Hf s Hs). unfold exec in Hf.
  destruct (f s) as [a s'] eqn:Ef. assert (w_seen s' ⊆ T) as HT' by (etrans; [apply (Hg a)|exact HT]).
  exists a. split; [exists s; unfold run, exec; by rewrite Ef|]. exists s'. split; [by apply Hf|done].
Qed.

Lemma answers_try {A B} (f : Handler A) (k : A -> Handler B) b :
  keeps f -> (forall a, grows (k a)) -> answers (try_bind f k) (Ok b) ->
  exists a, answers f (Ok a) /\ answers (k a) (Ok b).
Proof.
  intros Hf Hg (s & Hs & HT & E). unfold run, exec, try_bind in *. specialize (Hf s Hs). unfold exec in Hf.
  destruct (f s) as [[a|e] s'] eqn:Ef; [|done]. assert (w_seen s' ⊆ T) as HT' by (etrans; [apply (Hg a)|exact HT]).
  exists a. split; [exists s; unfold run, exec; by rewrite Ef|]. exists s'. split; [by apply Hf|done].
Qed.

Lemma answers_seeing {A} (e : A -> Sight) (f : ST W A) a : answers (seeing e f) a -> e a ∈ T.
Proof.
  intros (s & _ & HT & E). unfold run, exec, seeing, on_rest in *. destruct (f (w_rest s)) as [a' w]. cbn in *. subst a'.
  apply HT. by left.
Qed.

Context (Hst : stable).

Lemma keeps_query {A} (f : Z -> AuthDb -> result (A * AuthDb) string) :
  (forall now t d a d', f now d = Ok (a, d') -> I t d -> I (Ran now d d' :: t) d') -> keeps (account_query f).
Proof.
  intros Hf s Hs _. unfold exec, account_query, holds. pose proof (stable_others Hst _ _ (w_rest s) Hs) as Hd.
  destruct (others (w_db s) (w_rest s)) as [d w]. destruct (account_statement w) as [[now o] w'].
  destruct (f now d) as [[a d']|e] eqn:E; [|by apply (stable_read Hst)].
  cbn. destruct (applied o); [by eapply Hf|by apply (stable_read Hst)].
Qed.

Lemma answers_query {A} (f : Z -> AuthDb -> result (A * AuthDb) string) a :
  answers (account_query f) (Ok a) -> exists now d d', met now d /\ f now d = Ok (a, d').
Proof.
  intros (s & Hs & HT & E). unfold run, exec, account_query in *. pose proof (stable_others Hst _ _ (w_rest s) Hs) as Hd.
  destruct (others (w_db s) (w_rest s)) as [d w]. destruct (account_statement w) as [[now o] w'].
  destruct (f now d) as [[a' d']|e] eqn:Ef; [|done]. exists now, d, d'. split; cycle 1.
  { cbn in E. by destruct (reported o); simplify_eq/=. }
  split; [by eexists|]. eexists. apply HT. by left.
Qed.

Lemma keeps_reading {A} (f : Z -> AuthDb -> A) : keeps (reading f).
Proof. apply keeps_query. intros now t d a d' [= _ ->]. by apply (stable_read Hst). Qed.
Lemma answers_reading {A} (f : Z -> AuthDb -> A) a :
  answers (reading f) (Ok a) -> exists now d, met now d /\ f now d = a.
Proof. intros (now & d & d' & Hd & [= <- _])%answers_query. eauto. Qed.
Lemma keeps_writing (f : Z -> AuthDb -> AuthDb) :
  (forall now t d, I t d -> I (Ran now d (f now d) :: t) (f now d)) -> keeps (writing f).
Proof. intros Hf. apply keeps_query. intros now t d [] d' [= <-]. apply Hf. Qed.

Lemma keeps_transaction {A} (f : Z -> AuthDb -> ST W (result (A * AuthDb) string)) :
  (forall now t d w a d' w', f now d w = (Ok (a, d'), w') -> I t d -> I (Ran now d d' :: t) d') ->
  keeps (account_transaction f).
Proof.
  intros Hf s Hs _. unfold exec, account_transaction, holds. pose proof (stable_others Hst _ _ (w_rest s) Hs) as Hd.
  destruct (others (w_db s) (w_rest s)) as [d w]. destruct (account_begin w) as [[now|e] w1]; [|done].
  destruct (f now d w1) as [[[a d']|e] w2] eqn:E; [|by apply (stable_read Hst)]. destruct (account_commit w2) as [o w3].
  cbn. destruct (applied o); [by eapply Hf|by apply (stable_read Hst)].
Qed.

Lemma answers_transaction {A} (f : Z -> AuthDb -> ST W (result (A * AuthDb) string)) a :
  answers (account_transaction f) (Ok a) ->
  exists now d w d' w', met now d /\ f now d w = (Ok (a, d'), w').
Proof.
  intros (s & Hs & HT & E). unfold run, exec, account_transaction in *. pose proof (stable_others Hst _ _ (w_rest s) Hs) as Hd.
  destruct (others (w_db s) (w_rest s)) as [d w]. destruct (account_begin w) as [[now|e] w1]; [|done].
  destruct (f now d w1) as [[[a' d']|e] w2] eqn:Ef; [|done]. destruct (account_commit w2) as [o w3].
  exists now, d, w1, d', w2. split; cycle 1.
  { cbn in E. by destruct (reported o); simplify_eq/=. }
  split; [by eexists|]. eexists. apply HT. by left.
Qed.

(** A step and what its continuation sees. *)
Ltac bound := apply handler_keeps_bind; [| |intros; by grow].
Ltac early := apply handler_keeps_try; [| |intros; by grow].

(** *** The session of a request *)

Lemma keeps_session_row headers : keeps (session_row headers).
Proof. unfold session_row. destruct (session_token headers); [apply keeps_reading|apply keeps_mret]. Qed.

Lemma answers_session_row headers su :
  answers (session_row headers) (Ok (Some su)) ->
  exists token now d, session_token headers = Some token /\ met now d /\ session_at now (sha256_hex token) d = Some su.
Proof.
  unfold session_row. destruct (session_token headers) as [token|]; [|by intros [=]%answers_ret].
  intros (now & d & Hd & E)%answers_reading. eauto 6.
Qed.

Lemma keeps_require_user_id headers missing : keeps (require_user_id headers missing).
Proof.
  unfold require_user_id. destruct (session_token headers) as [token|]; [|apply keeps_mret].
  early; [apply keeps_session_row|]. intros [[]|] _; apply keeps_mret.
Qed.

Lemma answers_require_user_id headers missing id :
  answers (require_user_id headers missing) (Ok (Ok id)) ->
  exists token now d row u, session_token headers = Some token /\ met now d
    /\ session_at now (sha256_hex token) d = Some (row, u) /\ se_user_id row = id.
Proof.
  unfold require_user_id. destruct (session_token headers) as [token|] eqn:Et; [|by intros [=]%answers_ret].
  intros (row & Hrow & Hk)%answers_try; [|apply keeps_session_row|intros; by grow].
  destruct row as [[row u]|]; apply answers_ret in Hk; [|done]. injection Hk as ->.
  apply answers_session_row in Hrow as (token' & now & d & Et' & Hd & E). rewrite Et in Et'. eauto 10.
Qed.

Lemma keeps_authenticated headers missing k :
  (forall id token now d row u, session_token headers = Some token -> met now d ->
     session_at now (sha256_hex token) d = Some (row, u) -> se_user_id row = id -> keeps (k id)) ->
  (forall id, grows (k id)) -> keeps (authenticated headers missing k).
Proof.
  intros Hk Hg. apply handler_keeps_try; [apply keeps_require_user_id| |intros [id|refused]; [apply Hg|by grow]].
  intros [id|refused] Ha; [|apply keeps_mret].
  apply answers_require_user_id in Ha as (token & now & d & row & u & ? & ? & ? & ?). by eapply Hk.
Qed.

(** ** Steps

    What a route does to the tables is a run of these steps.  The evidence of
    a step is what the request has seen. *)

Definition asked headers (id : Z) : Prop :=
  exists token now d row u, session_token headers = Some token /\ met now d
    /\ session_at now (sha256_hex token) d = Some (row, u) /\ se_user_id row = id.

(** Who is given a session, and for what. *)
Inductive Granted (c : Config) headers : AccountRoute -> Z -> Prop :=
| granted_by_password body id u now d :
    cf_legacy_password_login_enabled c = true -> met now d -> user_named (text body "username") d = Some (id, u) ->
    password_matches (default EmptyString (body_field "password" body)) (Some (id, u)) = true ->
    Granted c headers (Login body) id
| granted_by_token body token i id now d w d' w' :
    oidc_bff_authorized c headers = true -> body_field "access_token" body = Some token ->
    Validated token (Some i) ∈ T -> met now d ->
    promote_body i now d w = (Ok (User_ id, d'), w') ->
    Granted c headers (OidcExchange body) id.

Definition administrator headers : Prop :=
  exists token now d row u, session_token headers = Some token /\ met now d
    /\ session_at now (sha256_hex token) d = Some (row, u) /\ rt_is_admin (us_rights u) = true.

(** A check that found the code among loadouts fetched after it began. *)
Definition shown (user_id player_id : Z) : Prop :=
  exists now d v name l, met now d /\ begin_attempt now user_id d =
      (Some (v, name), with_verification_rows (<[user_id := v]> (ad_verifications d)) d)
    /\ lv_player_id v = player_id /\ Fetched user_id v (Some l) ∈ T /\ shows_code (lv_code v) l = true.

Inductive AccountStep (c : Config) headers (r : AccountRoute) d : AuthDb -> Prop :=
| step_session now id hash expires_text d' :
    Granted c headers r id -> insert_session now id hash expires_text d = Ok (tt, d') -> AccountStep c headers r d d'
| step_logout token :
    r = Logout -> session_token headers = Some token ->
    AccountStep c headers r d (with_sessions (base.filter (fun e => se_token (snd e) <> sha256_hex token) (ad_sessions d))
                                 (ad_next_session d) d)
| step_promote i now w a d' w' :
    promote_body i now d w = (Ok (a, d'), w') -> AccountStep c headers r d d'
| step_last_login now instant id : AccountStep c headers r d (update_user (set_last_login now instant) id d)
| step_secret now secret id : asked headers id -> AccountStep c headers r d (update_user (set_secret now secret) id d)
| step_profile now p id :
    asked headers id -> AccountStep c headers r d (update_user (fun u => set_profile now (p u) u) id d)
| step_unlink now id :
    asked headers id -> AccountStep c headers r d (update_user (set_linked_player now None) id d)
| step_reads n reads : AccountStep c headers r d (with_reads n reads d)
| step_role now id role :
    administrator headers -> (exists id body, r = RoleOf id body) -> role ∈ ROLES ->
    AccountStep c headers r d
      (update_user (fun u => set_rights now {| rt_is_active := rt_is_active (us_rights u);
         rt_is_admin := String.eqb role "admin"; rt_role := role; rt_is_approved := rt_is_approved (us_rights u) |} u) id d)
| step_sweep now : AccountStep c headers r d (drop_expired now d)
| step_drop id : asked headers id -> AccountStep c headers r d (drop_verification id d)
| step_code now id player_id code v d' :
    asked headers id -> upsert_verification now id player_id code d = Ok (v, d') -> AccountStep c headers r d d'
| step_attempt now id : asked headers id -> AccountStep c headers r d (snd (begin_attempt now id d))
| step_lock now id v0 d0 now0 name :
    asked headers id ->
    begin_attempt now0 id d0 = (Some (v0, name), with_verification_rows (<[id := v0]> (ad_verifications d0)) d0) ->
    LINK_MAX_ATTEMPTS <= lv_attempt_count v0 ->
    AccountStep c headers r d (with_verification_rows (alter (locked now) id (ad_verifications d)) d)
| step_link now id player_id :
    asked headers id -> shown id player_id -> r = CheckVerification -> AccountStep c headers r d (link_player now id player_id d).

Lemma begin_attempt_some now id d v name d' :
  begin_attempt now id d = (Some (v, name), d') -> d' = with_verification_rows (<[id := v]> (ad_verifications d)) d.
Proof. unfold begin_attempt. case_match; [case_match|]; naive_solver. Qed.

(** A route that keeps an invariant on every step keeps it. *)
Section routes.
Context (c : Config) headers (r : AccountRoute).
Context (Hstep : forall now t d d', I t d -> AccountStep c headers r d d' -> I (Ran now d d' :: t) d').

Lemma keeps_answer a : keeps (answer a).
Proof. apply keeps_mret. Qed.

Lemma keeps_create_session id : Granted c headers r id -> keeps (create_session id).
Proof.
  intros Hg. bound; [bound; [apply keeps_on_rest|intros; apply keeps_mret]|intros token _].
  bound; [apply keeps_on_rest|intros now _]. case_match; [|apply keeps_mret].
  early; [|intros; apply keeps_mret]. apply keeps_query. intros now' t d [] d' E Hd.
  eapply Hstep; [done|]. by eapply step_session.
Qed.

Lemma keeps_login body : r = Login body -> cf_legacy_password_login_enabled c = true -> keeps (login body).
Proof.
  intros Hr Hc. unfold login. case_match; [apply keeps_answer|].
  early; [apply keeps_query|].
  { intros now t d a d'. unfold with_text. case_match; [|done]. intros [= _ ->]. by apply (stable_read Hst). }
  intros [[[id u] name]|] Ha; [|apply keeps_answer]. destruct (password_matches _ _) eqn:Hp; [|apply keeps_answer]. cbn.
  apply answers_query in Ha as (now & d & d' & Hd & E).
  assert (user_named (text body "username") d = Some (id, u)) as Hu.
  { unfold with_text in E. case_match; [|done]. destruct (user_named _ _) as [[]|]; by simplify_eq/=. }
  early; [apply keeps_create_session; rewrite Hr; by eapply granted_by_password|]. intros [token text] _.
  bound; [apply keeps_on_rest|intros now' _]. case_match; [|apply keeps_mret].
  early; [|intros; apply keeps_answer]. apply keeps_query.
  intros now'' t1 d1 a d1' E'. case_match; [|done]. injection E' as <- <-. intros Hd1. eapply Hstep, step_last_login. done.
Qed.

Lemma keeps_exchange body : r = OidcExchange body -> keeps (oidc_exchange c headers body).
Proof.
  intros Hr. unfold oidc_exchange. destruct (oidc_bff_authorized c headers) eqn:Hb; [|apply keeps_answer].
  destruct (cf_oidc_enabled c); [|apply keeps_answer]. cbn [negb].
  destruct (body_field "access_token" body) as [token|] eqn:Ht; cbn; [|apply keeps_answer].
  destruct (_ <=? 16384); [|apply keeps_answer]. bound; [apply keeps_seeing; intros ? ? ?; apply (stable_validated Hst)|].
  intros [i|] Hi%answers_seeing; [|apply keeps_answer].
  early.
  { apply keeps_transaction. intros now t d w a d' w' E Hd. eapply Hstep; [done|]. by eapply step_promote. }
  intros a Ha. apply answers_transaction in Ha as (now & d & w & d' & w' & Hd & E).
  destruct a; try apply keeps_answer. early; [apply keeps_reading|]. intros [[u name]|] _; [|apply keeps_mret].
  early; [apply keeps_create_session; rewrite Hr; by eapply granted_by_token|]. intros; apply keeps_answer.
Qed.

Lemma keeps_step (f : Z -> AuthDb -> AuthDb) :
  (forall now d, AccountStep c headers r d (f now d)) -> keeps (writing f).
Proof. intros Hf. apply keeps_writing. intros now t d Hd. by eapply Hstep. Qed.

Lemma keeps_asked missing k :
  (forall id, asked headers id -> keeps (k id)) -> (forall id, grows (k id)) -> keeps (authenticated headers missing k).
Proof.
  intros Hk Hg. apply keeps_authenticated; [|done]. intros id token now d row u Ht Hd Hs Hid. apply Hk.
  exists token, now, d, row, u. done.
Qed.

Ltac asked_first := apply keeps_asked; [|intros; by grow].

Lemma keeps_change_password body : keeps (change_password headers body).
Proof.
  asked_first. intros id Ha. cbv zeta. repeat (case_match; [apply keeps_answer|]).
  early; [apply keeps_reading|]. intros [secret|] _; [|apply keeps_answer].
  case_match; [|apply keeps_answer]. bound; [bound; [apply keeps_on_rest|intros; apply keeps_mret]|].
  intros salt _. early; [|intros; apply keeps_answer]. apply keeps_step. intros now d. by apply step_secret.
Qed.

Lemma keeps_profile body : keeps (profile headers body).
Proof.
  asked_first. intros id Ha. cbv zeta. case_match; [apply keeps_answer|].
  early; [|intros; apply keeps_answer]. apply keeps_query. intros now t d a d' E Hd.
  case_match; [|done]. injection E as <- <-. eapply Hstep; [done|]. by eapply step_profile.
Qed.

Lemma keeps_player_link body : keeps (player_link headers body).
Proof.
  asked_first. intros id Ha. cbv zeta. case_match; [|apply keeps_answer]. case_match; [|apply keeps_answer].
  early; [|intros; apply keeps_answer]. apply keeps_step. intros. by apply step_unlink.
Qed.

Lemma keeps_read_own id user : keeps (read_own id user).
Proof.
  apply keeps_query. intros now t d a d' E Hd. repeat (case_match; [|injection E as _ <-; by apply (stable_read Hst)]).
  injection E as _ <-. eapply Hstep; [done|]. apply step_reads.
Qed.

Lemma keeps_read_account_notification id : keeps (read_account_notification headers id).
Proof.
  unfold read_account_notification. case_match; [|apply keeps_answer]. asked_first. intros user _. cbv zeta.
  early; [apply keeps_read_own|intros; apply keeps_answer].
Qed.

Lemma keeps_read_site_notification id : keeps (read_site_notification headers id).
Proof.
  unfold read_site_notification. case_match; [|apply keeps_answer]. asked_first. intros user _. cbv zeta.
  case_match; [early; [apply keeps_read_own|intros; apply keeps_answer]|].
  early; [apply keeps_reading|]. intros found _. case_match; [apply keeps_answer|].
  early; [by apply keeps_query|intros; apply keeps_answer].
Qed.

Lemma keeps_read_all : keeps (read_all_site_notifications headers).
Proof.
  asked_first. intros user _. cbv zeta. early; [apply keeps_step; intros; apply step_reads|intros _ _].
  early; [apply keeps_step; intros; apply step_reads|intros; apply keeps_answer].
Qed.

Lemma keeps_logout : r = Logout -> keeps (logout headers).
Proof.
  intros Hr. early; [|intros; apply keeps_answer]. destruct (session_token headers) as [token|] eqn:Ht; [|apply keeps_mret].
  apply keeps_step. intros now d. by apply step_logout.
Qed.

Lemma keeps_me : keeps (me headers).
Proof.
  unfold me. case_match; [|apply keeps_answer]. early; [apply keeps_reading|]. intros; apply keeps_answer.
Qed.

Lemma keeps_update_role id body : r = RoleOf id body -> keeps (update_role headers id body).
Proof.
  intros Hr. assert (keeps (require_admin headers)) as Hk.
  { bound; [apply keeps_session_row|]. intros; apply keeps_mret. }
  bound; [done|]. intros [[]|refused] Ha; [|apply keeps_answer].
  apply answers_bind in Ha as (row & Hrow & Ha); [|apply keeps_session_row|intros; by grow].
  apply answers_ret in Ha. destruct row as [[[row u]|]|]; [|done..]. destruct (rt_is_admin (us_rights u)) eqn:Hadmin; [|done].
  apply answers_session_row in Hrow as (token & now & d & Ht & Hd & Hs).
  case_match; [|apply keeps_answer]. destruct (to_ascii_lowercase <$> body_field "role" body) as [role|]; cbn; [|apply keeps_answer].
  case_bool_decide; [|apply keeps_answer]. early; [|intros; apply keeps_answer].
  apply keeps_query. intros now' t1 d1 a d1' [= _ <-] Hd1. eapply Hstep; [done|].
  apply step_role; [|by eauto|done]. exists token, now, d, row, u. done.
Qed.

Lemma keeps_transaction_create body : keeps (oidc_transaction_create c headers body).
Proof.
  unfold oidc_transaction_create. case_match; [apply keeps_answer|]. case_match; [|apply keeps_answer].
  case_match; [apply keeps_answer|]. bound; [apply keeps_on_redis|]. intros; apply keeps_answer.
Qed.

Lemma keeps_transaction_consume body : keeps (oidc_transaction_consume c headers body).
Proof.
  unfold oidc_transaction_consume. case_match; [apply keeps_answer|]. case_match; [|apply keeps_answer]. cbv zeta.
  bound; [bound; [apply keeps_on_rest|intros; apply keeps_mret]|intros token _].
  bound; [apply keeps_on_redis|intros acquired _]. case_match; [apply keeps_answer|].
  repeat (bound; [apply keeps_on_redis|intros ? _]). apply keeps_answer.
Qed.

(** *** The link to a player *)

Lemma keeps_link_verification : keeps (link_verification headers).
Proof.
  asked_first. intros id Ha. early; [apply keeps_step; intros; apply step_sweep|intros _ _].
  early; [apply keeps_reading|]. intros; apply keeps_answer.
Qed.

Lemma keeps_create_link_verification body : keeps (create_link_verification headers body).
Proof.
  asked_first. intros id Ha. early; [apply keeps_reading|]. intros [t|] _; [apply keeps_answer|].
  case_match; [|apply keeps_answer]. early; [apply keeps_reading|]. intros [name|] _; [|apply keeps_answer].
  early; [apply keeps_reading|]. intros taken _. case_match; [apply keeps_answer|].
  bound; [bound; [apply keeps_on_rest|intros; apply keeps_mret]|intros code _].
  early; [|intros; apply keeps_answer]. apply keeps_query. intros now t d v d' E Hd.
  eapply Hstep; [done|]. by eapply step_code.
Qed.

Lemma keeps_cancel_link_verification : keeps (cancel_link_verification headers).
Proof.
  asked_first. intros id Ha. early; [|intros; apply keeps_answer].
  apply keeps_step. intros. by apply step_drop.
Qed.

Lemma keeps_check_refused id : asked headers id -> keeps (check_refused id).
Proof.
  intros Ha. early; [apply keeps_reading|]. intros [v|] _; [|apply keeps_answer].
  bound; [apply keeps_on_rest|intros now _]. cbv zeta.
  match goal with |- keeps (if ?b then _ else _) => destruct b; [|apply keeps_answer] end.
  early; [|intros; apply keeps_answer]. apply keeps_step. intros. by apply step_drop.
Qed.

Lemma keeps_limited res code message next : keeps next -> keeps (limited res code message next).
Proof.
  assert (keeps clock_ms) by (bound; [apply keeps_on_rest|intros; apply keeps_mret]).
  intros Hn. unfold limited. repeat (case_match; [bound; [done|intros; apply keeps_mret]|]). done.
Qed.

Lemma keeps_vendor_guard identity scope entity window limit : keeps (vendor_guard identity scope entity window limit).
Proof.
  assert (forall k l w, keeps (check_rate_limit k l w)) as Hc.
  { intros k l w. bound; [|intros; apply keeps_on_redis].
    bound; [apply keeps_on_rest|intros; apply keeps_mret]. }
  repeat (bound; [done|intros ? _; apply keeps_limited]). apply keeps_mret.
Qed.

Lemma keeps_attempt_limit_reached id v0 d0 now0 name :
  asked headers id ->
  begin_attempt now0 id d0 = (Some (v0, name), with_verification_rows (<[id := v0]> (ad_verifications d0)) d0) ->
  LINK_MAX_ATTEMPTS <= lv_attempt_count v0 -> keeps (attempt_limit_reached id).
Proof.
  intros Ha Hb Hm. early; [|intros; apply keeps_answer]. apply keeps_query. intros now t1 d t d' [= _ <-] Hd.
  eapply Hstep; [done|]. by eapply step_lock.
Qed.

Lemma keeps_link_verified id v name :
  r = CheckVerification -> asked headers id -> shown id (lv_player_id v) -> keeps (link_verified id v name).
Proof.
  intros Hr Ha Hs. early; [apply keeps_reading|]. intros taken _. case_match; [apply keeps_answer|].
  early; [|intros; apply keeps_answer]. apply keeps_transaction. intros now t d w [] d' w' [= <- <-] Hd.
  eapply Hstep; [done|]. by apply step_link.
Qed.

Lemma keeps_check_verdict id now d v name loadouts :
  r = CheckVerification -> asked headers id -> met now d ->
  begin_attempt now id d = (Some (v, name), with_verification_rows (<[id := v]> (ad_verifications d)) d) ->
  Fetched id v loadouts ∈ T -> keeps (check_verdict id v name loadouts).
Proof.
  intros Hr Ha Hd Hb Hl. unfold check_verdict. destruct loadouts as [l|].
  - bound; [apply keeps_on_rest|intros recorded _]. early; [apply keeps_mret|intros _ _].
    destruct (shows_code (lv_code v) l) eqn:Hs.
    + apply keeps_link_verified; [done..|]. exists now, d, v, name, l. done.
    + destruct (LINK_MAX_ATTEMPTS <=? lv_attempt_count v) eqn:Hm; [|apply keeps_answer].
      eapply keeps_attempt_limit_reached; [done..|]. by apply Z.leb_le.
  - destruct (LINK_MAX_ATTEMPTS <=? lv_attempt_count v) eqn:Hm; [|apply keeps_answer].
    eapply keeps_attempt_limit_reached; [done..|]. by apply Z.leb_le.
Qed.

Lemma keeps_check_link_verification :
  r = CheckVerification -> (forall id v a t d, I t d -> I (Fetched id v a :: t) d) ->
  keeps (check_link_verification c headers).
Proof.
  intros Hr Hfetched. asked_first. intros id Ha. early.
  { apply keeps_query. intros now t d a d' [= E] Hd. eapply Hstep; [done|].
    replace d' with (snd (begin_attempt now id d)) by by rewrite E. by apply step_attempt. }
  intros [[v name]|] Hb; [|by apply keeps_check_refused].
  apply answers_query in Hb as (now & d & d' & Hd & [= Hb]). pose proof (begin_attempt_some _ _ _ _ _ _ Hb) as ->.
  bound; [apply keeps_vendor_guard|]. intros [[]|refused] _; [|apply keeps_answer].
  case_match; [apply keeps_mret|]. bound; [apply keeps_seeing; intros; by apply Hfetched|].
  intros l Hl%answers_seeing. by eapply keeps_check_verdict.
Qed.

(** The other routes, and this one where fetching keeps the invariant. *)
Lemma keeps_route :
  (r = CheckVerification -> forall id v a t d, I t d -> I (Fetched id v a :: t) d) -> keeps (auth_router c headers r).
Proof.
  intros Hfetched.
  enough (forall r', r = r' -> keeps (auth_router c headers r')) as Hall by by apply Hall.
  intros [] Hr; cbn.
  - by apply keeps_exchange.
  - apply keeps_transaction_create.
  - apply keeps_transaction_consume.
  - by apply keeps_logout.
  - apply keeps_me.
  - apply keeps_profile.
  - apply keeps_read_account_notification.
  - apply keeps_read_site_notification.
  - apply keeps_read_all.
  - apply keeps_player_link.
  - apply keeps_link_verification.
  - apply keeps_create_link_verification.
  - apply keeps_cancel_link_verification.
  - apply keeps_check_link_verification; [done|by apply Hfetched].
  - case_match; [by apply keeps_login|apply keeps_answer].
  - case_match; [apply keeps_change_password|apply keeps_answer].
  - by apply keeps_update_role.
Qed.
End routes.

(** ** Sequences of requests *)

(** Each request sees for itself. *)
Definition forget (s : World) : World := {| w_db := w_db s; w_redis := w_redis s; w_rest := w_rest s; w_seen := [] |}.

Definition request (c : Config) (e : HeaderMap * AccountRoute) (s : World) : World :=
  exec (auth_router c (fst e) (snd e)) (forget s).

Definition served (c : Config) (l : list (HeaderMap * AccountRoute)) (s : World) : World := foldl (fun s e => request c e s) s l.

Lemma served_snoc c l e s : served c (l ++ [e]) s = request c e (served c l s).
Proof. unfold served. by rewrite foldl_app. Qed.

(** What the request after [pre] sees. *)
Definition sights (c : Config) (pre : list (HeaderMap * AccountRoute)) e (s : World) : list Sight :=
  w_seen (request c e (served c pre s)).

(** *** What a step does to each table *)

Lemma promote_body_ok i now d w a d' w' :
  promote_body i now d w = (Ok (a, d'), w') ->
  (ad_users d' = ad_users d /\ ad_next_user d' = ad_next_user d
   /\ (d' = d \/ exists l l', ad_identities d !! (ai_issuer i, ai_subject i) = Some l /\ li_user_id l' = li_user_id l
         /\ d' = with_user_identities (<[(ai_issuer i, ai_subject i) := l']> (ad_identities d)) d))
  \/ exists username email secret l, claimed username email d = false
      /\ li_user_id l = ad_next_user d /\ ad_identities d !! (ai_issuer i, ai_subject i) = None
      /\ d' = with_user_identities (<[(ai_issuer i, ai_subject i) := l]> (ad_identities d))
                (with_users (<[ad_next_user d := new_user now username email secret]> (ad_users d)) (ad_next_user d + 1) d).
Proof.
  unfold promote_body. case_match; [by intros [=]|].
  destruct (ad_identities d !! _) as [l|] eqn:El.
  - cbn. destruct (admitted_link l d); intros [=]; subst; left; [|by eauto].
    do 2 (split; [done|]). right. eexists l, _. split_and!; cycle 2; done.
  - destruct (oidc_registration_claims i) as [[username email]|]; [|intros [=]; subst; left; by eauto].
    case_match; [by intros [=]|]. destruct (claimed username email d) eqn:Ec; [intros [=]; subst; left; by eauto|].
    unfold mbind, ST_bind. destruct (random_bytes 16 w) as [salt w1]. destruct (random_bytes 32 w1) as [password w2].
    cbn. unfold insert_user. destruct (_ <? _); intros [=]; subst. right. eexists username, email, _, _.
    split_and!; cycle 3; done.
Qed.

Lemma insert_session_ok now id hash expires_text d d' :
  insert_session now id hash expires_text d = Ok (tt, d') ->
  exists e, timestamptz expires_text = Some e /\ is_Some (ad_users d !! id)
    /\ d' = with_sessions (<[ad_next_session d := {| se_user_id := id; se_token := hash; se_expires_at := e;
                                                      se_created_at := now |}]> (ad_sessions d)) (ad_next_session d + 1) d.
Proof.
  unfold insert_session. destruct (timestamptz expires_text) as [e|]; [|done]. destruct (ad_users d !! id); [|done].
  case_match; intros [=]. by exists e.
Qed.

Definition new_verification (now player_id : Z) (code : string) : LinkVerification :=
  {| lv_player_id := player_id; lv_code := code; lv_expires_at := now + minutes 10; lv_created_at := now;
     lv_attempt_count := 0; lv_last_attempt_at := None; lv_next_attempt_at := None; lv_locked_until := None |}.

Lemma upsert_verification_ok now id player_id code d v d' :
  upsert_verification now id player_id code d = Ok (v, d') ->
  is_Some (ad_users d !! id) /\ v = new_verification now player_id code
  /\ (forall j w, ad_verifications d !! j = Some w -> j <> id -> lv_code w <> code)
  /\ d' = with_verification_rows (<[id := v]> (ad_verifications d)) d.
Proof.
  unfold upsert_verification. destruct (existsb _ _) eqn:E; [done|]. destruct (ad_users d !! id); [|done].
  intros [= <- <-]. split_and!; [done..| |done]. intros j w Hw Hj Hc. apply Bool.not_true_iff_false in E. apply E, existsb_exists.
  exists (j, w). split; [by apply list_elem_of_In, elem_of_map_to_list|]. cbn.
  rewrite Hc, String.eqb_refl. rewrite (proj2 (Z.eqb_neq j id) Hj). done.
Qed.

(** An attempt, or nothing. *)
Lemma begin_attempt_step now id d :
  snd (begin_attempt now id d) = d
  \/ exists v, ad_verifications d !! id = Some v /\ may_check now v = true
      /\ snd (begin_attempt now id d) = with_verification_rows (<[id := attempted now v]> (ad_verifications d)) d.
Proof.
  unfold begin_attempt. destruct (ad_verifications d !! id) as [v|] eqn:Ev; cbn; [|by left].
  destruct (ad_players d !! lv_player_id v) as [name|]; cbn; [|by left].
  destruct (may_check now v) eqn:Em; [|by left]. right. by exists v.
Qed.

Definition same_names (u u' : User) : Prop := us_username u' = us_username u /\ us_email u' = us_email u.

(** The users: one of them is altered, or a new one inserted. *)
Inductive UsersStep (c : Config) headers (r : AccountRoute) d d' : Prop :=
| users_altered f id :
    ad_users d' = alter f id (ad_users d) -> ad_next_user d' = ad_next_user d ->
    (forall u, same_names u (f u)) ->
    (forall u, us_rights (f u) = us_rights u) \/ (exists id body, r = RoleOf id body) /\ administrator headers ->
    (forall u p, us_linked_player_id (f u) = Some p -> us_linked_player_id u = Some p
       \/ r = CheckVerification /\ asked headers id /\ shown id p) ->
    UsersStep c headers r d d'
| users_inserted now username email secret :
    ad_users d' = <[ad_next_user d := new_user now username email secret]> (ad_users d) ->
    ad_next_user d' = ad_next_user d + 1 -> claimed username email d = false -> UsersStep c headers r d d'.

Lemma users_same c headers r d d' :
  ad_users d' = ad_users d -> ad_next_user d' = ad_next_user d -> UsersStep c headers r d d'.
Proof.
  intros Hu Hn. apply users_altered with (f := id) (id := 0); [|done| |by left|].
  - rewrite Hu. symmetry. apply map_eq. intros k. destruct (decide (k = 0)) as [-> |].
    + rewrite lookup_alter_eq. by destruct (ad_users d !! 0).
    + by rewrite lookup_alter_ne.
  - by split.
  - by left.
Qed.

Lemma users_step c headers r d d' : AccountStep c headers r d d' -> UsersStep c headers r d d'.
Proof.
  destruct 1 as [now id hash text d' Hg E|token Hr Ht|i now w a d' w' E|now instant id|now secret id Ha|now p id Ha|now id Ha
    |n reads|now id role Ha Hr Hin|now|id Ha|now id player_id code v d' Ha E|now id Ha|now id v0 d0 now0 name Ha Hb Hm
    |now id player_id Ha Hs Hr]; try (by apply users_same); try (by eapply users_altered; [done..|by left|by left]).
  - by apply insert_session_ok in E as (e & _ & _ & ->); apply users_same.
  - apply promote_body_ok in E as [(Hu & Hn & _)|(username & email & secret & l & Hc & _ & _ & ->)];
      [by apply users_same|]. by eapply users_inserted.
  - eapply users_altered; [done..|by right|by left].
  - apply upsert_verification_ok in E as (_ & _ & _ & ->). by apply users_same.
  - apply users_same; unfold begin_attempt; repeat case_match; done.
  - eapply users_altered; [done..|by left|]. intros u p [= <-]. by right.
Qed.
End invariants.

(** *** Invariants of the tables alone *)

Definition on_tables (I : AuthDb -> Prop) : list Sight -> AuthDb -> Prop := fun _ d => I d.

Lemma stable_tables I : others_keep I -> stable (on_tables I).
Proof. intros Ho. split; [intros t d w; apply Ho|done|done]. Qed.

Lemma request_keeps (I : AuthDb -> Prop) c headers r (s : World) :
  others_keep I ->
  (forall d d', I d -> AccountStep (w_seen (request c (headers, r) s)) (on_tables I) c headers r d d' -> I d') ->
  I (w_db s) -> I (w_db (request c (headers, r) s)).
Proof.
  intros Ho Hstep Hs. unfold request.
  apply (keeps_route (w_seen (request c (headers, r) s)) (on_tables I) (stable_tables I Ho) c headers r);
    [intros ? ? ? ?; apply Hstep|done|done|done].
Qed.

(** What every step of every request keeps, the requests keep. *)
Lemma served_keeps (I : AuthDb -> Prop) c l (s : World) :
  others_keep I ->
  (forall pre headers r post d d', l = pre ++ (headers, r) :: post -> I d ->
     AccountStep (sights c pre (headers, r) s) (on_tables I) c headers r d d' -> I d') ->
  I (w_db s) -> I (w_db (served c l s)).
Proof.
  intros Ho. induction l as [|[headers r] l IH] using rev_ind; intros Hstep Hs; [done|]. rewrite served_snoc.
  apply request_keeps; [done| |].
  - intros d d'. by apply (Hstep l headers r []).
  - apply IH; [|done]. intros pre h r' post d d' ->. apply (Hstep pre h r' (post ++ [(headers, r)])). by rewrite <- app_assoc.
Qed.

(** *** Evidence seen before or after an exception *)

Lemma others_keep_or (I : AuthDb -> Prop) (E : Prop) : others_keep I -> others_keep (fun d => I d \/ E).
Proof. intros Ho d w [Hd|HE]; [left; by apply Ho|by right]. Qed.

Section exception.
Context (T : list Sight) (I : AuthDb -> Prop) (E : Prop).

Lemma met_or now d : met T (on_tables (fun d => I d \/ E)) now d -> met T (on_tables I) now d \/ E.
Proof. intros [[t [Hd|HE]] Hm]; [left; split; [by exists t|done]|by right]. Qed.

Lemma administrator_or headers :
  administrator T (on_tables (fun d => I d \/ E)) headers -> administrator T (on_tables I) headers \/ E.
Proof.
  intros (token & now & d & row & u & Ht & Hd & Hs). apply met_or in Hd as [Hd|HE]; [left|by right].
  by exists token, now, d, row, u.
Qed.

Lemma asked_or headers id : asked T (on_tables (fun d => I d \/ E)) headers id -> asked T (on_tables I) headers id \/ E.
Proof.
  intros (token & now & d & row & u & Ht & Hd & Hs). apply met_or in Hd as [Hd|HE]; [left|by right].
  by exists token, now, d, row, u.
Qed.

Lemma granted_or c headers r id :
  Granted T (on_tables (fun d => I d \/ E)) c headers r id -> Granted T (on_tables I) c headers r id \/ E.
Proof.
  intros [body id' u now d Hc Hm ? ?|body token i id' now d w d' w' Hb Ht Hv Hm Hp];
    apply met_or in Hm as [Hm|HE]; try (by right); left.
  - by eapply granted_by_password.
  - by eapply granted_by_token.
Qed.
End exception.

(** ** Rights *)

Definition plain_rights : Rights :=
  {| rt_is_active := true; rt_is_admin := false; rt_role := "user"; rt_is_approved := false |}.

Definition fresh_users d : Prop := forall id u, ad_users d !! id = Some u -> id < ad_next_user d.

(** Those who were there have the rights they had, the new ones none. *)
Record RightsKept d0 d : Prop := {
  rights_fresh : fresh_users d;
  rights_old id u : ad_users d0 !! id = Some u -> exists u', ad_users d !! id = Some u' /\ us_rights u' = us_rights u;
  rights_new id u : ad_users d !! id = Some u -> ad_users d0 !! id = None -> us_rights u = plain_rights;
}.

Lemma rights_kept_refl d : fresh_users d -> RightsKept d d.
Proof. intros Hf. split; [done|eauto|congruence]. Qed.

(** *** What a request has seen, in full *)

(** A session of its token, before it expired. *)
Definition session_seen (T : list Sight) headers (row : SessionRow) : Prop :=
  exists token now d after, session_token headers = Some token /\ Ran now d after ∈ T
    /\ fst <$> session_at now (sha256_hex token) d = Some row.

(** The administrator was one before. *)
Lemma administrator_before T d0 headers :
  administrator T (on_tables (RightsKept d0)) headers ->
  exists row u0, session_seen T headers row /\ ad_users d0 !! se_user_id row = Some u0 /\ rt_is_admin (us_rights u0) = true.
Proof.
  intros (token & now & d & row & u & Ht & [[t Hd] [after Hm]] & Hs & Ha).
  assert (ad_users d !! se_user_id row = Some u) as Hu.
  { unfold session_at in Hs. apply head_Some_elem_of, list_elem_of_omap in Hs as ([k s] & _ & Hs). cbn in Hs.
    case_match; [|done]. destruct (ad_users d !! se_user_id s) eqn:E; simplify_eq/=. done. }
  assert (session_seen T headers row) as Hseen by (exists token, now, d, after; by rewrite Hs).
  destruct Hd as [Hf Hold Hnew]. exists row. destruct (ad_users d0 !! se_user_id row) as [u0|] eqn:E0.
  - exists u0. destruct (Hold _ _ E0) as (u' & Hu' & Hr). simplify_eq. by rewrite <- Hr.
  - by rewrite (Hnew _ _ Hu E0) in Ha.
Qed.

Lemma rights_step T I c headers r d0 d d' :
  AccountStep T I c headers r d d' -> RightsKept d0 d ->
  RightsKept d0 d' \/ (exists id body, r = RoleOf id body) /\ administrator T I headers.
Proof.
  intros Hs [Hf Hold Hnew]. apply users_step in Hs as [f id Hu Hn _ [Hr|Hr] _|now username email secret Hu Hn _]; [|by right|]; left.
  - split.
    + intros k u E. rewrite Hn. rewrite Hu in E. destruct (decide (k = id)) as [-> |].
      * rewrite lookup_alter_eq in E. apply fmap_Some in E as (u0 & E & _). eauto.
      * rewrite lookup_alter_ne in E by done. eauto.
    + intros k u E. destruct (Hold k u E) as (u' & E' & Hr'). rewrite Hu. destruct (decide (k = id)) as [-> |].
      * rewrite lookup_alter_eq, E'. eexists; split; [done|]. by rewrite Hr.
      * rewrite lookup_alter_ne by done. eauto.
    + intros k u E E0. rewrite Hu in E. destruct (decide (k = id)) as [-> |].
      * rewrite lookup_alter_eq in E. apply fmap_Some in E as (u0 & E & ->). rewrite Hr. eauto.
      * rewrite lookup_alter_ne in E by done. eauto.
  - assert (ad_users d !! ad_next_user d = None) as Hnone.
    { destruct (ad_users d !! ad_next_user d) eqn:E; [|done]. specialize (Hf _ _ E). lia. }
    split.
    + intros k u E. rewrite Hn. rewrite Hu in E. apply lookup_insert_Some in E as [[<- _]|[_ E]]; [lia|].
      specialize (Hf _ _ E). lia.
    + intros k u E. destruct (Hold k u E) as (u' & E' & Hr'). exists u'. split; [|done].
      rewrite Hu, lookup_insert_ne; [done|congruence].
    + intros k u E E0. rewrite Hu in E. apply lookup_insert_Some in E as [[_ <-]|[_ E]]; [done|eauto].
Qed.

(** C17. Through any requests the users keep the rights they have and new ones
    get none, unless one of them sets a role, and that request has itself read
    an unexpired session of its own token, whose user was an administrator at
    the start. *)
Theorem rights_come_from_administrators c l s :
  fresh_users (w_db s) -> others_keep (RightsKept (w_db s)) ->
  RightsKept (w_db s) (w_db (served c l s))
  \/ exists pre headers id body post row u0, l = pre ++ (headers, RoleOf id body) :: post
        /\ session_seen (sights c pre (headers, RoleOf id body) s) headers row
        /\ ad_users (w_db s) !! se_user_id row = Some u0 /\ rt_is_admin (us_rights u0) = true.
Proof.
  intros Hf Ho. set (d0 := w_db s) in *. set (E := exists pre headers, _).
  apply (served_keeps (fun d => RightsKept d0 d \/ E)); [by apply others_keep_or| |by left; apply rights_kept_refl].
  intros pre headers r post d d' Hl [Hd|HE] Hs; [|by right].
  destruct (rights_step _ _ _ _ _ _ _ _ Hs Hd) as [|[(id & body & ->) Ha]]; [by left|right].
  apply administrator_or in Ha as [(row & u0 & Ha)%administrator_before|]; [|done].
  by exists pre, headers, id, body, post, row, u0.
Qed.

(** ** Links *)

Definition unlinked (id player_id : Z) d : Prop :=
  forall u, ad_users d !! id = Some u -> us_linked_player_id u <> Some player_id.

Lemma unlinked_step T I c headers r id p d d' :
  AccountStep T I c headers r d d' -> unlinked id p d ->
  unlinked id p d' \/ r = CheckVerification /\ asked T I headers id /\ shown T I id p.
Proof.
  intros Hs Hd. apply users_step in Hs as [f k Hu _ _ _ Hl|now username email secret Hu _ _]; cycle 1.
  { left. intros u. rewrite Hu. intros [[_ <-]|[_ E]]%lookup_insert_Some; [done|by apply Hd]. }
  destruct (decide (k = id)) as [-> |]; [|left; intros u; rewrite Hu, lookup_alter_ne by done; apply Hd].
  destruct (ad_users d !! id) as [u|] eqn:E; cycle 1.
  { left. intros u'. by rewrite Hu, lookup_alter_eq, E. }
  destruct (decide (us_linked_player_id (f u) = Some p)) as [Hp|Hp].
  - right. destruct (Hl u p Hp) as [Hp'|?]; [|done]. by destruct (Hd u E).
  - left. intros u'. rewrite Hu, lookup_alter_eq, E. by intros [= <-].
Qed.

(** A check that may run, and the code it looked for among the loadouts it
    fetched. *)
Definition code_seen (T : list Sight) (id player_id : Z) : Prop :=
  exists now d after v name loadouts, Ran now d after ∈ T /\ ad_verifications d !! id = Some v
    /\ lv_player_id v = player_id /\ ad_players d !! player_id = Some name
    /\ now < lv_expires_at v /\ lv_attempt_count v < LINK_MAX_ATTEMPTS
    /\ after_instant (lv_next_attempt_at v) now = true /\ after_instant (lv_locked_until v) now = true
    /\ Fetched id (attempted now v) (Some loadouts) ∈ T /\ shows_code (lv_code v) loadouts = true.

Lemma shown_code T I id p : shown T I id p -> code_seen T id p.
Proof.
  intros (now & d & v & name & lo & [_ [after Hm]] & Hb & Hp & Hf & Hc).
  unfold begin_attempt in Hb. destruct (ad_verifications d !! id) as [v0|] eqn:Ev; cbn in Hb; [|done].
  destruct (ad_players d !! lv_player_id v0) as [name0|] eqn:En; cbn in Hb; [|done].
  destruct (may_check now v0) eqn:Em; [|done]. injection Hb as <- <- _. cbn in *. subst p.
  unfold may_check in Em. bool_props. by exists now, d, after, v0, name0, lo.
Qed.

(** C18. Through any requests a user gains the link to a player only by a check
    that has itself read an unexpired session of this user, has begun while the
    code had not expired, with attempts left and no cooldown or lock, and has
    found the code as the name of a loadout among those it then fetched. *)
Theorem link_needs_proof c l s id p :
  unlinked id p (w_db s) -> others_keep (unlinked id p) ->
  unlinked id p (w_db (served c l s))
  \/ exists pre headers post row, l = pre ++ (headers, CheckVerification) :: post
        /\ session_seen (sights c pre (headers, CheckVerification) s) headers row /\ se_user_id row = id
        /\ code_seen (sights c pre (headers, CheckVerification) s) id p.
Proof.
  intros Hun Ho. set (E := exists pre headers, _).
  apply (served_keeps (fun d => unlinked id p d \/ E)); [by apply others_keep_or| |by left].
  intros pre headers r post d d' Hl [Hd|HE] Hs; [|by right].
  destruct (unlinked_step _ _ _ _ _ _ _ _ _ Hs Hd) as [|(-> & Ha & Hsh)]; [by left|right].
  apply asked_or in Ha as [(token & now & d1 & row & u & Ht & [_ [after Hm]] & Hat & Hid)|]; [|done].
  exists pre, headers, post, row. split_and!; [done| |done|by eapply shown_code].
  exists token, now, d1, after. by rewrite Hat.
Qed.
End accounts.
