(* ===== verification/AccountsOrder.v ===== *)
(** * What stays in order among the accounts

    The references between the tables of AccountsSpec, the sessions and what
    they were granted for, and the checks of a verification as an abstract
    run with a log. *)

From S2P Require Import Prelude Cache Json F64 JsValue WebCompat Security Accounts Oidc PlayerLink AccountsSpec.

Section accounts.
Context `{Digests} `{AccountText} `{JsonText} {R : Type} `{Redis R} {W : Type} `{AccountServices W}.
Implicit Types (headers : HeaderMap) (d : AuthDb).
Abbreviation World := (World (R := R) (W := W)).

(** ** Views of a step *)

(** The verifications. *)
Inductive VerificationsStep T I headers d d' : Prop :=
| verifications_less : ad_verifications d' ⊆ ad_verifications d -> VerificationsStep T I headers d d'
| verifications_checked now id v :
    asked T I headers id -> ad_verifications d !! id = Some v -> may_check now v = true ->
    ad_verifications d' = <[id := attempted now v]> (ad_verifications d) -> VerificationsStep T I headers d d'
| verifications_created now id player_id code :
    asked T I headers id -> is_Some (ad_users d !! id) ->
    (forall j w, ad_verifications d !! j = Some w -> j <> id -> lv_code w <> code) ->
    ad_verifications d' = <[id := new_verification now player_id code]> (ad_verifications d) ->
    VerificationsStep T I headers d d'
| verifications_locked now id :
    ad_verifications d' = alter (locked now) id (ad_verifications d) -> VerificationsStep T I headers d d'.

Lemma verifications_step T I c headers r d d' : AccountStep T I c headers r d d' -> VerificationsStep T I headers d d'.
Proof.
  destruct 1 as [now id hash text d' Hg E|token Hr Ht|i now w a d' w' E|now instant id|now secret id Ha|now p id Ha|now id Ha
    |n reads|now id role Ha Hr Hin|now|id Ha|now id player_id code v d' Ha E|now id Ha|now id v0 d0 now0 name Ha Hb Hm
    |now id player_id Ha Hs Hr]; try (by apply verifications_less).
  - apply insert_session_ok in E as (e & _ & _ & ->). by apply verifications_less.
  - apply promote_body_ok in E as [(_ & _ & [-> |(l & l' & _ & _ & ->)])|(username & email & secret & l & _ & _ & _ & ->)];
      by apply verifications_less.
  - apply verifications_less, map_filter_subseteq.
  - apply verifications_less, delete_subseteq.
  - apply upsert_verification_ok in E as (Hu & -> & Hc & ->). by eapply verifications_created.
  - destruct (begin_attempt_step now id d) as [-> |(v & Hv & Hm & ->)]; [by apply verifications_less|].
    by eapply verifications_checked.
  - by eapply verifications_locked.
  - apply verifications_less, delete_subseteq.
Qed.

(** The sessions. *)
Inductive SessionsStep T I c headers r d d' : Prop :=
| sessions_less :
    ad_sessions d' ⊆ ad_sessions d -> ad_next_session d' = ad_next_session d ->
    (forall k row, ad_sessions d !! k = Some row -> ad_sessions d' !! k = Some row
       \/ r = Logout /\ exists token, session_token headers = Some token /\ se_token row = sha256_hex token) ->
    SessionsStep T I c headers r d d'
| sessions_granted row :
    Granted T I c headers r (se_user_id row) -> is_Some (ad_users d !! se_user_id row) ->
    ad_sessions d' = <[ad_next_session d := row]> (ad_sessions d) -> ad_next_session d' = ad_next_session d + 1 ->
    SessionsStep T I c headers r d d'.

Lemma sessions_step T I c headers r d d' : AccountStep T I c headers r d d' -> SessionsStep T I c headers r d d'.
Proof.
  destruct 1 as [now id hash text d' Hg E|token Hr Ht|i now w a d' w' E|now instant id|now secret id Ha|now p id Ha|now id Ha
    |n reads|now id role Ha Hr Hin|now|id Ha|now id player_id code v d' Ha E|now id Ha|now id v0 d0 now0 name Ha Hb Hm
    |now id player_id Ha Hs Hr]; try (by apply sessions_less; [done|done|by left]).
  - apply insert_session_ok in E as (e & _ & Hu & ->). eapply sessions_granted; [| |done|done]; done.
  - apply sessions_less; [apply map_filter_subseteq|done|]. intros k row Hrow.
    destruct (decide (se_token row = sha256_hex token)) as [E|E]; [right; by eauto|left]. cbn. by apply map_lookup_filter_Some.
  - apply promote_body_ok in E as [(_ & _ & [-> |(l & l' & _ & _ & ->)])|(username & email & secret & l & _ & _ & _ & ->)];
      by apply sessions_less; [done|done|by left].
  - apply upsert_verification_ok in E as (_ & _ & _ & ->). by apply sessions_less; [done|done|by left].
  - destruct (begin_attempt_step now id d) as [-> |(v & Hv & Hm & ->)]; by apply sessions_less; [done|done|by left].
Qed.

(** The identities. *)
Inductive IdentitiesStep d d' : Prop :=
| identities_same : ad_identities d' = ad_identities d -> IdentitiesStep d d'
| identities_seen k l l' :
    ad_identities d !! k = Some l -> li_user_id l' = li_user_id l ->
    ad_identities d' = <[k := l']> (ad_identities d) -> IdentitiesStep d d'
| identities_new k l :
    ad_identities d !! k = None -> li_user_id l = ad_next_user d -> is_Some (ad_users d' !! li_user_id l) ->
    ad_identities d' = <[k := l]> (ad_identities d) -> IdentitiesStep d d'.

Lemma identities_step T I c headers r d d' : AccountStep T I c headers r d d' -> IdentitiesStep d d'.
Proof.
  destruct 1 as [now id hash text d' Hg E|token Hr Ht|i now w a d' w' E|now instant id|now secret id Ha|now p id Ha|now id Ha
    |n reads|now id role Ha Hr Hin|now|id Ha|now id player_id code v d' Ha E|now id Ha|now id v0 d0 now0 name Ha Hb Hm
    |now id player_id Ha Hs Hr]; try (by apply identities_same).
  - apply insert_session_ok in E as (e & _ & _ & ->). by apply identities_same.
  - apply promote_body_ok in E as [(_ & _ & [-> |(l & l' & Hl & Hid & ->)])|(username & email & secret & l & _ & Hid & Hn & ->)].
    + by apply identities_same.
    + by eapply identities_seen.
    + eapply identities_new; [done|done| |done]. rewrite Hid. cbn. by rewrite lookup_insert_eq.
  - apply upsert_verification_ok in E as (_ & _ & _ & ->). by apply identities_same.
  - destruct (begin_attempt_step now id d) as [-> |(v & Hv & Hm & ->)]; by apply identities_same.
Qed.

Lemma users_grow T I c headers r d d' id :
  AccountStep T I c headers r d d' -> is_Some (ad_users d !! id) -> is_Some (ad_users d' !! id).
Proof.
  intros Hs Hu. apply users_step in Hs as [f k E _ _ _ _|now username email secret E _ _]; rewrite E.
  - by rewrite lookup_alter_is_Some.
  - rewrite lookup_insert_is_Some. destruct (decide (ad_next_user d = id)); [by left|by right].
Qed.

(** ** The order of the accounts *)

Definition alike (u v : User) : Prop := lower (us_username u) = lower (us_username v) \/ lower (us_email u) = lower (us_email v).

Record InOrder d : Prop := {
  order_fresh : fresh_users d;
  (** No name and no address twice, whatever their case. *)
  order_names i j u v : ad_users d !! i = Some u -> ad_users d !! j = Some v -> alike u v -> i = j;
  order_sessions k row : ad_sessions d !! k = Some row -> k < ad_next_session d /\ is_Some (ad_users d !! se_user_id row);
  order_identities k l : ad_identities d !! k = Some l -> is_Some (ad_users d !! li_user_id l);
  order_verifications i v : ad_verifications d !! i = Some v -> is_Some (ad_users d !! i) /\ 0 <= lv_attempt_count v <= LINK_MAX_ATTEMPTS;
  order_codes i j v w : ad_verifications d !! i = Some v -> ad_verifications d !! j = Some w -> lv_code v = lv_code w -> i = j;
}.

Definition IdentitiesKept d0 d : Prop :=
  forall k l, ad_identities d0 !! k = Some l -> exists l', ad_identities d !! k = Some l' /\ li_user_id l' = li_user_id l.

Lemma claimed_false username email d :
  claimed username email d = false ->
  forall k u, ad_users d !! k = Some u -> lower (us_username u) <> lower username /\ lower (us_email u) <> lower email.
Proof.
  intros Hc k u Hu. split; intros E; apply Bool.not_true_iff_false in Hc; apply Hc, existsb_exists;
    (exists (k, u); split; [by apply list_elem_of_In, elem_of_map_to_list|]); cbn; rewrite E, String.eqb_refl; [done|apply orb_true_r].
Qed.

Lemma names_step T I c headers r d d' :
  AccountStep T I c headers r d d' -> InOrder d ->
  fresh_users d' /\ forall i j u v, ad_users d' !! i = Some u -> ad_users d' !! j = Some v -> alike u v -> i = j.
Proof.
  intros Hs Ho. apply users_step in Hs as [f id Hu Hn Hsame _ _|now username email secret Hu Hn Hc].
  - assert (forall i u, ad_users d' !! i = Some u -> exists u0, ad_users d !! i = Some u0 /\ same_names u0 u) as Hback.
    { intros i u. rewrite Hu. destruct (decide (i = id)) as [-> |].
      - rewrite lookup_alter_eq. intros (u0 & E & ->)%fmap_Some. eauto.
      - rewrite lookup_alter_ne by done. intros E. exists u. by split. }
    split.
    + intros i u Hi. destruct (Hback i u Hi) as (u0 & E & _). rewrite Hn. by eapply order_fresh.
    + intros i j u v Hi Hj Ha. destruct (Hback i u Hi) as (u0 & Ei & Eu & Em), (Hback j v Hj) as (v0 & Ej & Ev & Ew).
      apply (order_names d Ho i j u0 v0); [done..|]. unfold alike in *. by rewrite Eu, Em, Ev, Ew in Ha.
  - split.
    + intros i u. rewrite Hu, Hn. intros [[<- _]|[_ E]]%lookup_insert_Some; [lia|]. apply (order_fresh d Ho) in E. lia.
    + pose proof (claimed_false _ _ _ Hc) as Hother. unfold alike.
      intros i j u v. rewrite Hu. intros [[<- <-]|[_ Ei]]%lookup_insert_Some [[<- <-]|[_ Ej]]%lookup_insert_Some; cbn; [done| | |].
      * intros []; by destruct (Hother j v Ej).
      * intros []; by destruct (Hother i u Ei).
      * by eapply order_names.
Qed.

Lemma verifications_in_order T I c headers r d d' :
  AccountStep T I c headers r d d' -> InOrder d ->
  (forall i v, ad_verifications d' !! i = Some v -> is_Some (ad_users d' !! i) /\ 0 <= lv_attempt_count v <= LINK_MAX_ATTEMPTS)
  /\ forall i j v w, ad_verifications d' !! i = Some v -> ad_verifications d' !! j = Some w -> lv_code v = lv_code w -> i = j.
Proof.
  intros Hs Ho. pose proof (fun id => users_grow _ _ _ _ _ _ _ id Hs) as Hgrow.
  assert (forall i v, ad_verifications d !! i = Some v -> is_Some (ad_users d' !! i) /\ 0 <= lv_attempt_count v <= LINK_MAX_ATTEMPTS) as Hold.
  { intros i v Hv. destruct (order_verifications d Ho i v Hv). eauto. }
  pose proof (order_codes d Ho) as Hcodes.
  apply verifications_step in Hs as [Hsub|now id v0 Ha Hv0 Hm E|now id player_id code Ha Hu Hc E|now id E].
  - split; [intros i v Hv; by eapply Hold, lookup_weaken|]. intros i j v w Hi Hj. eapply Hcodes; by eapply lookup_weaken.
  - rewrite E. unfold may_check in Hm. bool_props. split.
    + intros i v [[<- <-]|[_ Hi]]%lookup_insert_Some; [|by apply Hold]. destruct (Hold id v0 Hv0) as [? ?]. cbn. split; [done|lia].
    + intros i j v w [[<- <-]|[? Hi]]%lookup_insert_Some [[<- <-]|[? Hj]]%lookup_insert_Some; [done|cbn; by eapply Hcodes..|by eapply Hcodes].
  - rewrite E. split.
    + intros i v [[<- <-]|[_ Hi]]%lookup_insert_Some; [split; [by apply Hgrow|by cbn]|by apply Hold].
    + intros i j v w [[<- <-]|[? Hi]]%lookup_insert_Some [[<- <-]|[? Hj]]%lookup_insert_Some; cbn; [done| | |by eapply Hcodes].
      * intros Ec. by destruct (Hc j w Hj).
      * intros Ec. by destruct (Hc i v Hi).
  - assert (forall i v, ad_verifications d' !! i = Some v -> exists v0, ad_verifications d !! i = Some v0
              /\ lv_code v = lv_code v0 /\ lv_attempt_count v = lv_attempt_count v0) as Hback.
    { intros i v. rewrite E. destruct (decide (i = id)) as [-> |].
      - rewrite lookup_alter_eq. intros (v0 & ? & ->)%fmap_Some. by exists v0.
      - rewrite lookup_alter_ne by done. by exists v. }
    split.
    + intros i v Hi. destruct (Hback i v Hi) as (v0 & Hv0 & _ & ->). by eapply Hold.
    + intros i j v w Hi Hj. destruct (Hback i v Hi) as (v0 & Hv0 & -> & _), (Hback j w Hj) as (w0 & Hw0 & -> & _). by eapply Hcodes.
Qed.

Lemma order_step T I c headers r d d' : AccountStep T I c headers r d d' -> InOrder d -> InOrder d'.
Proof.
  intros Hs Ho. pose proof (fun id => users_grow _ _ _ _ _ _ _ id Hs) as Hgrow.
  destruct (names_step _ _ _ _ _ _ _ Hs Ho) as [Hfresh Hnames].
  destruct (verifications_in_order _ _ _ _ _ _ _ Hs Ho) as [Hverifs Hcodes]. split; [done|done| | |done|done].
  - apply sessions_step in Hs as [Hsub Hn _|row Hg Hu E Hn]; rewrite ?E, Hn; intros k row'.
    + intros Hrow. eapply lookup_weaken in Hrow; [|done]. apply (order_sessions d Ho) in Hrow as [? ?]. eauto.
    + intros [[<- <-]|[_ Hrow]]%lookup_insert_Some; [split; [lia|by apply Hgrow]|].
      apply (order_sessions d Ho) in Hrow as [? ?]. split; [lia|eauto].
  - apply identities_step in Hs as [E|k l l' Hl Hid E|k l _ _ Hu E]; rewrite E; intros k' l0.
    + intros Hl0. apply (order_identities d Ho) in Hl0. eauto.
    + intros [[<- <-]|[_ Hl0]]%lookup_insert_Some; [rewrite Hid; apply (order_identities d Ho) in Hl; eauto|].
      apply (order_identities d Ho) in Hl0. eauto.
    + intros [[<- <-]|[_ Hl0]]%lookup_insert_Some; [done|]. apply (order_identities d Ho) in Hl0. eauto.
Qed.

Lemma identities_kept_step T I c headers r d0 d d' :
  AccountStep T I c headers r d d' -> IdentitiesKept d0 d -> IdentitiesKept d0 d'.
Proof.
  intros Hs Hk k l Hl. destruct (Hk k l Hl) as (l1 & Hl1 & Hid).
  apply identities_step in Hs as [E|k' l0 l' Hl0 Hid' E|k' l' Hnone _ _ E]; rewrite E.
  - eauto.
  - destruct (decide (k' = k)) as [-> |]; [rewrite lookup_insert_eq; exists l'; split; [done|congruence]|].
    rewrite lookup_insert_ne by done. eauto.
  - rewrite lookup_insert_ne by congruence. eauto.
Qed.

(** C20. Through any requests no two users share a name or an address in any
    case, every session, identity and verification is of a user, an identity
    stays with the user it was given, no two verifications share a code, and
    none has more than five attempts. *)
Theorem accounts_stay_in_order c l s :
  InOrder (w_db s) -> others_keep (fun d => InOrder d /\ IdentitiesKept (w_db s) d) ->
  InOrder (w_db (served c l s)) /\ IdentitiesKept (w_db s) (w_db (served c l s)).
Proof.
  intros Hs Ho. apply (served_keeps (fun d => InOrder d /\ IdentitiesKept (w_db s) d)); [done| |].
  - intros pre headers r post d d' _ [Hd Hk] Hstep. split; [by eapply order_step|by eapply identities_kept_step].
  - split; [done|]. intros k link Hk. by exists link.
Qed.

(** ** Sessions *)

(** No session of a user but those there were. *)
Definition no_new_session (id : Z) d0 d : Prop :=
  forall k row, ad_sessions d !! k = Some row -> se_user_id row = id -> ad_sessions d0 !! k = Some row.

(** What admits a user to a session: their password, checked against the row
    of the name or address that the request has read, where that route exists;
    or an access token that the verifier has accepted for a request of the login
    frontend, with its identity admitted as this user. *)
Inductive AdmissionSeen (T : list Sight) (c : Config) headers (id : Z) : AccountRoute -> Prop :=
| seen_password body now d after u :
    cf_legacy_password_login_enabled c = true -> Ran now d after ∈ T ->
    user_named (text body "username") d = Some (id, u) ->
    password_matches (default EmptyString (body_field "password" body)) (Some (id, u)) = true ->
    AdmissionSeen T c headers id (Login body)
| seen_token body token i now d after w d' w' :
    oidc_bff_authorized c headers = true -> body_field "access_token" body = Some token ->
    Validated token (Some i) ∈ T -> Ran now d after ∈ T -> promote_body i now d w = (Ok (User_ id, d'), w') ->
    AdmissionSeen T c headers id (OidcExchange body).

Lemma granted_seen T I c headers r id : Granted T I c headers r id -> AdmissionSeen T c headers id r.
Proof.
  intros [body id' u now d Hc [_ [after Hm]] ? ?|body token i id' now d w d' w' Hb Ht Hv [_ [after Hm]] Hp].
  - by eapply seen_password.
  - by eapply seen_token.
Qed.

(** C19. Through any requests a user gains a session only by one of them that has
    itself seen what admits this user: a login with the password of the one
    their name or address finds, where that route exists, or an exchange of the
    login frontend whose access token was validated and whose identity was
    admitted as this user. *)
Theorem session_needs_proof c l s id :
  others_keep (no_new_session id (w_db s)) ->
  no_new_session id (w_db s) (w_db (served c l s))
  \/ exists pre headers r post, l = pre ++ (headers, r) :: post
        /\ AdmissionSeen (sights c pre (headers, r) s) c headers id r.
Proof.
  intros Ho. set (J := no_new_session id (w_db s)) in *. set (E := exists pre headers, _).
  apply (served_keeps (fun d => J d \/ E)); [by apply others_keep_or| |left; by intros k row].
  intros pre headers r post d d' Hl [Hd|HE] Hs; [|by right].
  apply sessions_step in Hs as [Hsub _ _|row Hg _ Hs _].
  - left. intros k row Hrow. eapply Hd, lookup_weaken; done.
  - destruct (decide (se_user_id row = id)) as [<- |Hne].
    + right. exists pre, headers, r, post. split; [done|]. by eapply granted_seen.
    + left. intros k row'. rewrite Hs. intros [[<- <-]|[_ Hrow]]%lookup_insert_Some Hid; [done|by eapply Hd].
Qed.

(** ** Checks *)

(** All that the requests have seen, latest first. *)
Fixpoint trail (c : Config) (l : list (HeaderMap * AccountRoute)) (s : World) : list Sight :=
  match l with
  | [] => []
  | e :: l => trail c l (request c e s) ++ w_seen (request c e s)
  end.

Lemma trail_snoc c l e s : trail c (l ++ [e]) s = w_seen (request c e (served c l s)) ++ trail c l s.
Proof.
  revert s. induction l as [|e' l IH]; intros s; cbn; [by rewrite app_nil_r|]. by rewrite IH, <- app_assoc.
Qed.

Section checks.
(** A user and a code. *)
Variables (id : Z) (code : string).

Definition of_code d : option LinkVerification :=
  v ← ad_verifications d !! id; if String.eqb (lv_code v) code then Some v else None.

Definition fresh_code d : bool := match of_code d with Some v => lv_attempt_count v =? 0 | None => false end.

(** The instants of the fetches made for this user and this code, the latest
    first, since a statement last left the code without attempts. *)
Fixpoint checks_of (seen : list Sight) : list (option Z) :=
  match seen with
  | [] => []
  | Ran _ _ after :: seen => if fresh_code after then [] else checks_of seen
  | Validated _ _ :: seen => checks_of seen
  | Fetched j v _ :: seen =>
      if (j =? id) && String.eqb (lv_code v) code then lv_last_attempt_at v :: checks_of seen else checks_of seen
  end.

(** Each at least the cooldown after the one before. *)
Definition cooled (later earlier : option Z) : Prop :=
  match later, earlier with Some l, Some e => e + seconds LINK_COOLDOWN_SECONDS <= l | _, _ => False end.

Definition within_limits (checks : list (option Z)) : Prop :=
  Z.of_nat (length checks) <= LINK_MAX_ATTEMPTS /\ Sorted cooled checks.

Definition counted (checks : list (option Z)) (v : LinkVerification) : Prop :=
  Z.of_nat (length checks) <= lv_attempt_count v <= LINK_MAX_ATTEMPTS
  /\ forall t, head checks = Some t -> cooled (lv_next_attempt_at v) t.

(** The row counts the fetches of its code, which keep to the limits. *)
Definition checks_kept (t : list Sight) d : Prop :=
  within_limits (checks_of t) /\ forall v, of_code d = Some v -> counted (checks_of t) v.

Lemma of_code_Some d v : of_code d = Some v <-> ad_verifications d !! id = Some v /\ lv_code v = code.
Proof.
  unfold of_code. destruct (ad_verifications d !! id) as [w|]; cbn; [|naive_solver].
  destruct (String.eqb_spec (lv_code w) code); naive_solver.
Qed.

Lemma kept_ran now d0 t d : checks_kept t d -> checks_kept (Ran now d0 d :: t) d.
Proof.
  intros [Hw Hc]. split; cbn; destruct (fresh_code d); [by repeat constructor|done| |done].
  intros v Hv. destruct (Hc v Hv) as [[? ?] _]. split; [cbn; lia|done].
Qed.

Lemma kept_created now d0 t d v :
  of_code d = Some v -> lv_attempt_count v = 0 -> checks_kept (Ran now d0 d :: t) d.
Proof.
  intros Hv Hn. unfold checks_kept. cbn. unfold fresh_code. rewrite Hv, Hn. cbn. split; [by repeat constructor|].
  intros v' [= <-]. split; [|done]. rewrite Hn. by vm_compute.
Qed.

(** An attempt keeps the count ahead. *)
Lemma counted_attempt checks v now : may_check now v = true -> counted checks v -> counted checks (attempted now v).
Proof.
  unfold may_check, counted, cooled. intros Hm [[Hl Hmax] Hh]. bool_props. split; [cbn; lia|]. intros t Ht. specialize (Hh t Ht).
  cbn. destruct (lv_next_attempt_at v) as [n|], t as [t|]; cbn in *; bool_props; [|done..]. unfold seconds, LINK_COOLDOWN_SECONDS in *. lia.
Qed.

Lemma kept_step T I c headers r now t d d' :
  AccountStep T I c headers r d d' -> checks_kept t d -> checks_kept (Ran now d d' :: t) d'.
Proof.
  intros Hs [Hw Hc]. assert (forall d1, (forall v, of_code d1 = Some v -> counted (checks_of t) v) -> checks_kept (Ran now d d1 :: t) d1) as Hsame.
  { intros d1 Hd1. apply kept_ran. by split. }
  apply verifications_step in Hs as [Hsub|now' j v0 _ Hv0 Hm E|now' j player_id code' _ _ _ E|now' j E].
  - apply Hsame. intros v [Hv Hcode]%of_code_Some. apply Hc, of_code_Some. split; [by eapply lookup_weaken|done].
  - apply Hsame. intros v [Hv Hcode]%of_code_Some. rewrite E in Hv. apply lookup_insert_Some in Hv as [[-> <-]|[_ Hv]].
    + apply counted_attempt; [done|]. apply Hc, of_code_Some. by split.
    + apply Hc, of_code_Some. by split.
  - destruct (decide (j = id /\ code' = code)) as [[-> ->]|Hne].
    + apply (kept_created _ _ _ _ (new_verification now' player_id code)); [|done]. apply of_code_Some.
      by rewrite E, lookup_insert_eq.
    + apply Hsame. intros v [Hv Hcode]%of_code_Some. rewrite E in Hv. apply lookup_insert_Some in Hv as [[-> <-]|[_ Hv]].
      * by destruct Hne.
      * apply Hc, of_code_Some. by split.
  - apply Hsame. intros v [Hv Hcode]%of_code_Some. rewrite E in Hv. destruct (decide (j = id)) as [-> |].
    + rewrite lookup_alter_eq in Hv. apply fmap_Some in Hv as (v0 & Hv & ->). apply (Hc v0), of_code_Some. by split.
    + rewrite lookup_alter_ne in Hv by done. apply Hc, of_code_Some. by split.
Qed.

(** The fetch of an attempt is counted by it. *)
Lemma kept_fetch now j d v name d' a t :
  begin_attempt now j d = (Some (v, name), d') -> checks_kept t d ->
  checks_kept (Ran now d d' :: t) d' -> checks_kept (Fetched j v a :: Ran now d d' :: t) d'.
Proof.
  intros Hb [Hw Hc] Hran. unfold begin_attempt in Hb. destruct (ad_verifications d !! j) as [v0|] eqn:Ev; cbn in Hb; [|done].
  destruct (ad_players d !! lv_player_id v0); cbn in Hb; [|done]. destruct (may_check now v0) eqn:Em; [|done].
  injection Hb as <- _ <-. unfold checks_kept in *. cbn -[fresh_code] in *. destruct (Z.eqb_spec j id) as [-> |]; [|exact Hran].
  destruct (String.eqb_spec (lv_code v0) code) as [Hcode|]; [|exact Hran]. cbn -[fresh_code] in *.
  assert (of_code d = Some v0) as Hv0 by by apply of_code_Some.
  assert (of_code (with_verification_rows (<[id := attempted now v0]> (ad_verifications d)) d) = Some (attempted now v0)) as Hv1.
  { apply of_code_Some. cbn. by rewrite lookup_insert_eq. }
  destruct (Hc v0 Hv0) as [[Hl Hmax] Hh]. unfold may_check in Em. bool_props.
  unfold fresh_code in *. rewrite Hv1 in *. cbn in *. rewrite (proj2 (Z.eqb_neq (lv_attempt_count v0 + 1) 0)) by lia.
  destruct Hw as [Hlen Hsp]. split; [split; [cbn [length]; lia|]|].
  - constructor; [done|]. destruct (checks_of t) as [|t0 checks]; constructor. specialize (Hh t0 eq_refl).
    unfold cooled in *. destruct (lv_next_attempt_at v0) as [n|], t0 as [t0|]; cbn in *; bool_props; [|done..]. lia.
  - intros v [= <-]. split; [cbn [length lv_attempt_count]; cbn; lia|]. intros t1 [= <-]. cbn. lia.
Qed.

(** *** A check *)

Definition still {A} (f : ST World A) : Prop := forall s, w_db (exec f s) = w_db s /\ w_seen (exec f s) = w_seen s.

Lemma still_bind {A B} (f : ST World A) (k : A -> ST World B) : still f -> (forall a, still (k a)) -> still (f ≫= k).
Proof.
  intros Hf Hk s. specialize (Hf s). unfold exec, mbind, ST_bind in *. destruct (f s) as [a s'].
  destruct (Hk a s') as [E1 E2]. unfold exec in *. destruct Hf. by rewrite E1, E2.
Qed.

Lemma still_ret {A} (a : A) : still (mret a).
Proof. by intros s. Qed.
Lemma still_on_rest {A} (f : ST W A) : still (on_rest f).
Proof. intros s. unfold exec, on_rest. by destruct (f (w_rest s)). Qed.
Lemma still_on_redis {A} (f : ST (RedisCache R) A) : still (on_redis f).
Proof. intros s. unfold exec, on_redis. by destruct (f (w_redis s)). Qed.

Lemma still_clock : still clock_ms.
Proof. apply still_bind; [apply still_on_rest|intros; apply still_ret]. Qed.

Lemma still_guard identity scope entity window limit : still (vendor_guard identity scope entity window limit).
Proof.
  assert (forall k l w, still (check_rate_limit k l w)) as Hc.
  { intros k l w. apply still_bind; [apply still_clock|]. intros; apply still_on_redis. }
  assert (forall res code message next, still next -> still (limited res code message next)) as Hl.
  { intros res code' message next Hn. unfold limited.
    repeat (case_match; [apply still_bind; [apply still_clock|intros; apply still_ret]|]). done. }
  repeat (apply still_bind; [done|intros ?; apply Hl]). apply still_ret.
Qed.

Section check.
Context (T before : list Sight) (c : Config) (headers : HeaderMap).
Definition kept_after (t : list Sight) d : Prop := checks_kept (t ++ before) d.
Context (Ho : forall t, others_keep (checks_kept t)).

Lemma kept_stable : stable kept_after.
Proof. split; unfold kept_after; [intros t d w; apply Ho|intros; by apply kept_ran|done]. Qed.

Lemma kept_after_step now t d d' :
  kept_after t d -> AccountStep T kept_after c headers CheckVerification d d' -> kept_after (Ran now d d' :: t) d'.
Proof. intros Hk Hs. by eapply kept_step. Qed.

Lemma check_attempt_kept j now t d v name (s : World) d' :
  asked T kept_after headers j -> kept_after t d -> begin_attempt now j d = (Some (v, name), d') ->
  w_db s = d' -> w_seen s = Ran now d d' :: t -> kept_after (w_seen s) (w_db s) ->
  w_seen (exec (check_attempt c headers j v name) s) ⊆ T ->
  holds kept_after (exec (check_attempt c headers j v name) s).
Proof.
  intros Ha Hd Hb Hs Hseen Hk. unfold check_attempt, exec, mbind, ST_bind.
  pose proof (still_guard (request_identity headers) "player-link-verification" (pretty (lv_player_id v))
    (LINK_COOLDOWN_SECONDS * 1000) 8 s) as [E1 E2]. unfold exec in E1, E2.
  destruct (vendor_guard _ _ _ _ _ s) as [guard s1]. cbn [snd] in E1, E2.
  destruct guard as [[]|refused]; [|intros _; unfold holds; cbn; by rewrite E1, E2].
  destruct (negb (cf_relay c)); [intros _; unfold holds; cbn; by rewrite E1, E2|].
  unfold seeing, on_rest. destruct (fetch_loadouts _ _) as [a w1]. cbn [snd fst].
  set (s2 := sighted _ _). intros HT.
  assert (w_seen s2 ⊆ T) as HT2 by (etrans; [|exact HT]; unfold check_verdict; by grow).
  assert (w_seen s2 = Fetched j v a :: Ran now d d' :: t) as Eseen by (cbn; by rewrite E2, Hseen).
  rewrite Eseen in HT2.
  apply (keeps_check_verdict T kept_after kept_stable c headers CheckVerification kept_after_step j now d v name a);
    [done|done| | |apply HT2; by left| |exact HT].
  - split; [by exists t|]. exists d'. apply HT2. right. by left.
  - pose proof (begin_attempt_some _ _ _ _ _ _ Hb) as ->. done.
  - unfold holds. rewrite Eseen. cbn [w_db sighted world s2]. rewrite E1, Hs. unfold kept_after in *.
    apply (kept_fetch now j d v name d' a); [done|done|]. rewrite Hs, Hseen in Hk. exact Hk.
Qed.

Lemma check_kept : keeps T kept_after (check_link_verification c headers).
Proof.
  apply (keeps_asked T kept_after kept_stable); [|intros; by grow].
  intros j Ha s Hs. unfold exec, try_bind, account_query. pose proof (stable_others _ kept_stable _ _ (w_rest s) Hs) as Hd.
  destruct (others (w_db s) (w_rest s)) as [d w]. destruct (account_statement w) as [[now o] w'].
  destruct (begin_attempt now j d) as [attempt d'] eqn:Hb. cbn [fst snd].
  assert (kept_after (Ran now d d' :: w_seen s) d') as Hd'.
  { apply kept_after_step; [exact Hd|]. replace d' with (snd (begin_attempt now j d)) by by rewrite Hb. by apply step_attempt. }
  destruct o as [|m|m]; cbn [reported applied in_database map_err rbind].
  - destruct attempt as [[v name]|].
    + apply (check_attempt_kept j now (w_seen s) d v name _ d'); done.
    + apply (keeps_check_refused T kept_after kept_stable c headers CheckVerification kept_after_step); done.
  - intros _. unfold holds. by cbn.
  - intros _. unfold holds. cbn. by apply (stable_read _ kept_stable).
Qed.
End check.
End checks.

(** C26. However often a user asks, the loadouts are fetched for one code of
    theirs at most five times since a statement last left it without attempts,
    and each time at least thirty seconds after the time before: the fetches
    are those that the requests made, whatever the requests are. *)
Theorem checks_are_bounded c l s id code :
  (forall v, ad_verifications (w_db s) !! id = Some v -> 0 <= lv_attempt_count v <= LINK_MAX_ATTEMPTS) ->
  (forall t, others_keep (checks_kept id code t)) ->
  within_limits (checks_of id code (trail c l s)).
Proof.
  intros Hs Ho. enough (checks_kept id code (trail c l s) (w_db (served c l s))) as [? _] by done.
  induction l as [|[headers r] l IH] using rev_ind.
  - split; [by repeat constructor|]. intros v [Hv _]%of_code_Some. split; [cbn; by apply Hs|done].
  - rewrite trail_snoc, served_snoc. set (before := trail c l s) in *. set (s1 := served c l s) in *.
    set (T := w_seen (request c (headers, r) s1)).
    assert (forall now t d d', kept_after id code before t d -> AccountStep T (kept_after id code before) c headers r d d' ->
      kept_after id code before (Ran now d d' :: t) d') as Hstep by (intros; by eapply kept_step).
    assert (r = CheckVerification \/ r <> CheckVerification) as [-> | Hr] by (destruct r; (by left) || by right).
    + apply (check_kept id code T before c headers Ho); done.
    + apply (keeps_route T (kept_after id code before) (kept_stable id code before Ho) c headers r Hstep); done.
Qed.

(** ** The life of a session *)

Definition token_unused (hash : string) d : Prop :=
  forall k row, ad_sessions d !! k = Some row -> k < ad_next_session d /\ se_token row <> hash.

(** The session is the first of its token. *)
Record SessionHeld (k : Z) (row : SessionRow) d : Prop := {
  held_row : ad_sessions d !! k = Some row;
  held_id : k < ad_next_session d;
  held_first j other : ad_sessions d !! j = Some other -> se_token other = se_token row -> k <= j;
  held_user : is_Some (ad_users d !! se_user_id row);
}.

Lemma in_id_order_elem {A} (m : gmap Z A) k a : (k, a) ∈ in_id_order m <-> m !! k = Some a.
Proof. unfold in_id_order. by rewrite (sort_by_perm _ (map_to_list m)), elem_of_map_to_list. Qed.

(** The first hit of a list in the order of its ids. *)
Lemma head_omap_first {A B} (f : Z * A -> option B) (l : list (Z * A)) k a b :
  StronglySorted (fun x y => fst x <= fst y) l -> NoDup (fst <$> l) -> (k, a) ∈ l -> f (k, a) = Some b ->
  (forall j c, (j, c) ∈ l -> is_Some (f (j, c)) -> k <= j) -> head (omap f l) = Some b.
Proof.
  induction l as [|[j c] l IH]; cbn; [by intros _ _ ?%elem_of_nil|]. intros Hs Hn Hin Hf Hmin.
  inversion Hs as [|? ? Hs' Hall]; subst. inversion Hn as [|? ? Hnin Hn']; subst.
  apply elem_of_cons in Hin as [[= -> ->]|Hin]; [by rewrite Hf|].
  destruct (f (j, c)) as [b'|] eqn:Ej; cycle 1.
  { apply IH; [done..|]. intros j' c' Hin'. apply Hmin. by right. }
  rewrite Forall_forall in Hall. specialize (Hall _ Hin). cbn in Hall.
  assert (k <= j) by (apply (Hmin j c); [by left|by rewrite Ej]). assert (k = j) as -> by lia.
  destruct Hnin. apply list_elem_of_fmap. by exists (j, a).
Qed.

Lemma in_id_order_sorted {A} (m : gmap Z A) :
  StronglySorted (fun x y => fst x <= fst y) (in_id_order m) /\ NoDup (fst <$> in_id_order m).
Proof.
  split.
  - apply Sorted_StronglySorted; [intros x y z; lia|].
    assert (LocallySorted (fun a b : Z * A => (fst a <=? fst b) = true) (in_id_order m)) as Hl.
    { apply sort_by_sorted. intros x y E. bool_props. apply Z.leb_le. lia. }
    apply Sorted_LocallySorted_iff in Hl. induction Hl as [|x l Hl IH Hd]; constructor; [done|].
    destruct Hd; constructor. by apply Z.leb_le.
  - unfold in_id_order. rewrite (sort_by_perm _ (map_to_list m)). apply NoDup_fst_map_to_list.
Qed.

(** A session that is held admits its user until it expires. *)
Lemma held_admits k row d now :
  SessionHeld k row d -> now < se_expires_at row ->
  exists u, session_at now (se_token row) d = Some (row, u) /\ ad_users d !! se_user_id row = Some u.
Proof.
  intros [Hrow Hid Hfirst [u Hu]] Hnow. exists u. split; [|done]. unfold session_at.
  destruct (in_id_order_sorted (ad_sessions d)) as [Hs Hn].
  apply head_omap_first with (k := k) (a := row); [done|done|by apply in_id_order_elem| |].
  - cbn. rewrite String.eqb_refl, (proj2 (Z.ltb_lt _ _) Hnow). cbn. by rewrite Hu.
  - intros j c Hin%in_id_order_elem Hf. cbn in Hf. destruct (String.eqb _ _) eqn:E; [|by destruct Hf].
    bool_props. by eapply Hfirst.
Qed.

Lemma session_held_step T I c headers r k row d d' :
  (r = Logout -> forall token, session_token headers = Some token -> sha256_hex token <> se_token row) ->
  AccountStep T I c headers r d d' -> SessionHeld k row d -> SessionHeld k row d'.
Proof.
  intros Hout Hs [Hrow Hid Hfirst Hu]. pose proof (users_grow _ _ _ _ _ _ _ (se_user_id row) Hs Hu) as Hu'.
  apply sessions_step in Hs as [Hsub Hn Hkept|row' _ _ E Hn].
  - split; [|by rewrite Hn| |done].
    + destruct (Hkept k row Hrow) as [?|(-> & token & Ht & Etoken)]; [done|]. by destruct (Hout eq_refl token Ht).
    + intros j other Hj. eapply Hfirst, lookup_weaken; done.
  - split; rewrite ?E, ?Hn; [|lia| |done].
    + rewrite lookup_insert_ne by lia. done.
    + intros j other [[<- _]|[_ Hj]]%lookup_insert_Some; [lia|by apply Hfirst].
Qed.

Lemma created_session_held id (s s' : World) token text :
  create_session id s = (Ok (token, text), s') -> others_keep (token_unused (sha256_hex token)) ->
  token_unused (sha256_hex token) (w_db s) ->
  exists k row, SessionHeld k row (w_db s') /\ se_user_id row = id /\ se_token row = sha256_hex token
    /\ timestamptz text = Some (se_expires_at row).
Proof.
  unfold create_session, random_hex, on_rest, mbind, ST_bind. destruct (random_bytes 32 (w_rest s)) as [bytes w1].
  cbn. destruct (now_utc w1) as [now w2]. destruct (format_rfc3339 _) as [t|]; [|by intros [=]].
  unfold account_query, try_bind. cbn. intros Hc Ho Hs.
  assert (t = text /\ encode_hex bytes = token) as [-> Etoken] by (unfold mret, ST_ret in Hc; repeat case_match; simplify_eq/=; done).
  rewrite Etoken in Hc. specialize (Ho (w_db s) w2 Hs). destruct (others (w_db s) w2) as [d w3]. cbn in Ho.
  destruct (account_statement w3) as [[now' o] w4]. destruct (insert_session _ _ _ _ d) as [[[] d']|e] eqn:E; [|done].
  destruct o; cbn in Hc; [|done..]. injection Hc as <-. cbn.
  apply insert_session_ok in E as (e & He & Hu & ->). eexists (ad_next_session d), _.
  split; [split; cbn; [by rewrite lookup_insert_eq|lia| |done]|done].
  intros j other [[<- _]|[_ Hj]]%lookup_insert_Some Hother; [done|]. by destruct (Ho j other Hj).
Qed.

(** C27. A session that was created admits its user, through any requests but a
    logout of its own, until it expires; a logout of its own that succeeds
    ends every session of its token. *)
Theorem session_lasts_until_logout c id (s s1 : World) token text l :
  create_session id s = (Ok (token, text), s1) ->
  token_unused (sha256_hex token) (w_db s) -> others_keep (token_unused (sha256_hex token)) ->
  (forall k row, se_token row = sha256_hex token -> others_keep (SessionHeld k row)) ->
  (forall headers t, (headers, Logout) ∈ l -> session_token headers = Some t -> sha256_hex t <> sha256_hex token) ->
  (exists expires, timestamptz text = Some expires
     /\ forall now, now < expires -> exists row u, session_at now (sha256_hex token) (w_db (served c l s1)) = Some (row, u)
          /\ se_user_id row = id /\ ad_users (w_db (served c l s1)) !! id = Some u)
  /\ forall headers (s2 s3 : World) a, session_token headers = Some token -> logout headers s2 = (Ok a, s3) ->
       forall now, session_at now (sha256_hex token) (w_db s3) = None.
Proof.
  intros Hc Hs Ho Hheld Hout. split.
  - apply created_session_held in Hc as (k & row & Hrow & <- & Etoken & Ht); [|done..].
    exists (se_expires_at row). split; [done|]. intros now Hnow. rewrite <- Etoken.
    destruct (held_admits k row (w_db (served c l s1)) now) as (u & Hu & Hus); [|done|by eauto].
    apply (served_keeps (SessionHeld k row)); [by apply Hheld| |done].
    intros pre headers r post d d' Hl Hd Hstep. eapply session_held_step; [|done..]. intros -> t Ht'. rewrite Etoken.
    apply (Hout headers); [rewrite Hl; apply elem_of_app; right; by left|done].
  - clear. intros headers s2 s3 a Ht. unfold logout. rewrite Ht. unfold try_bind, writing, account_query.
    destruct (others _ _) as [d w]. destruct (account_statement w) as [[now0 o] w'].
    destruct o; cbn; intros [=]; subst. intros now. cbn. unfold session_at.
    destruct (head _) as [su|] eqn:E; [|done]. apply head_Some_elem_of, list_elem_of_omap in E as ([k row] & Hin & E).
    apply in_id_order_elem, map_lookup_filter_Some in Hin as [_ Hne]. cbn in E, Hne.
    apply String.eqb_neq in Hne. by rewrite Hne in E.
Qed.
End accounts.
