(* ===== verification/AccountsDouble.v ===== *)
(** * A small world of accounts
      (an environment of routes/auth.rs)

    A clock that moves with every statement, texts that are numbers, one
    player whose loadout has the first code there is, and the runs on it. *)

From S2P Require Import Prelude Cache Json F64 JsValue WebCompat Security CacheSpec Accounts Oidc PlayerLink AccountsSpec AccountsOrder.

#[export] Instance own_digest : Digests := fun s => map byte_of (String.list_ascii_of_string s).

(** Instants are microseconds in the tables, nanoseconds in the process. *)
#[export] Instance numbered_texts : AccountText := {|
  lower := to_ascii_lowercase;
  instant_text := pretty;
  format_rfc3339 t := Some (pretty t);
  parse_rfc3339 s := (fun z => z * 1000) <$> parse_i64 s;
  timestamptz s := (fun z => z / 1000) <$> parse_i64 s;
  known_time_zone _ := true;
|}.

Definition carol : AccessIdentity :=
  {| ai_issuer := "https://id"; ai_subject := "carol"; ai_email_verified := true; ai_email := Some "carol@example.org"%string;
     ai_preferred_username := Some "carol"%string |}.

(** The world is the clock; four random bytes are always the same. *)
#[export] Instance clocked_services : AccountServices Z := {|
  others d w := (d, w);
  account_statement w := ((w, Committed), w + 1);
  account_begin w := (Ok w, w + 1);
  account_commit w := (Committed, w + 1);
  random_bytes n w := (repeat (if (n =? 4)%nat then 1 else w mod 251) n, w + 1);
  now_utc w := (w * 1000, w);
  validate_token token w := (if String.eqb token "good" then Some carol else None, w);
  fetch_loadouts p w := (if p =? 7 then Some (Array [Object [("DeckName"%string, Str "743009")]]) else None, w);
  record_raw_hirez_response _ _ w := (Ok tt, w);
|}.

Definition town_config : Config :=
  {| cf_oidc_enabled := true; cf_oidc_bff_service_token := Some "frontend"%string; cf_relay := true;
     cf_legacy_password_login_enabled := true |}.

Definition resident (username email : string) (rights : Rights) : User :=
  {| us_username := username; us_email := email;
     us_secret := {| sc_password_hash := password_hash (username +:+ "-secret") "salt"; sc_salt := "salt" |};
     us_profile := {| pp_avatar_url := None; pp_bio := None; pp_time_zone := None |}; us_rights := rights;
     us_created_at := 0; us_last_login := None; us_updated_at := 0; us_linked_player_id := None |}.

Definition administrator_rights : Rights :=
  {| rt_is_active := true; rt_is_admin := true; rt_role := "admin"; rt_is_approved := true |}.

(** Ann administers; Bob plays as player 7. *)
Definition town : AuthDb :=
  {| ad_users := {[1 := resident "Ann" "ann@example.org" administrator_rights; 2 := resident "Bob" "bob@example.org" plain_rights]};
     ad_next_user := 3; ad_identities := ∅;
     ad_sessions := {[1 := {| se_user_id := 1; se_token := sha256_hex "ann-session"; se_expires_at := 10000000000; se_created_at := 0 |};
                      2 := {| se_user_id := 2; se_token := sha256_hex "bob-session"; se_expires_at := 10000000000; se_created_at := 0 |}]};
     ad_next_session := 3; ad_verifications := ∅; ad_user_notifications := ∅; ad_notifications := ∅; ad_site_reads := ∅;
     ad_players := {[7 := "BobPlays"; 8 := "Eve"]}%string |}.

Definition start : World (R := Memory) (W := Z) := {| w_db := town; w_redis := client (memory []); w_rest := 1000; w_seen := [] |}.

Definition bearer (token : string) : HeaderMap := [("authorization"%string, "Bearer " +:+ token)].

Definition as_ann : HeaderMap := bearer "ann-session".
Definition as_bob : HeaderMap := bearer "bob-session".

(** Statuses of the answers to a sequence of requests. *)
Fixpoint statuses (l : list (HeaderMap * AccountRoute)) (s : World (R := Memory) (W := Z)) : list Z :=
  match l with
  | [] => []
  | (h, r) :: l => let '(a, s') := auth_router town_config h r s in
                   (match a with Ok a => an_status a | Err _ => 500 end) :: statuses l s'
  end.

Definition bob_links : list (HeaderMap * AccountRoute) :=
  [(as_bob, CreateVerification (Object [("playerId"%string, Number (NInt 7))])); (as_bob, CheckVerification)].

Example bob_is_linked :
  statuses bob_links start = [200; 200]
  /\ us_linked_player_id <$> ad_users (w_db (served town_config bob_links start)) !! 2 = Some (Some 7).
Proof. split; vm_compute; reflexivity. Qed.

(** ** Runs *)

#[export] Instance alike_dec u v : Decision (alike u v).
Proof. unfold alike. apply _. Defined.

Lemma town_fresh : fresh_users town.
Proof. apply (bool_decide_unpack (map_Forall (fun id _ => id < ad_next_user town) (ad_users town))). by vm_compute. Qed.

Lemma town_in_order : InOrder town.
Proof.
  split; [apply town_fresh| | | | |].
  - assert (map_Forall (fun i u => map_Forall (fun j v => alike u v -> i = j) (ad_users town)) (ad_users town)) as Hn
      by (apply (bool_decide_unpack _); by vm_compute).
    intros i j u v Hi Hj. exact (Hn i u Hi j v Hj).
  - apply (bool_decide_unpack (map_Forall (fun k row => k < ad_next_session town /\ is_Some (ad_users town !! se_user_id row)) (ad_sessions town))).
    by vm_compute.
  - intros k l Hl. destruct (lookup_empty_Some k l Hl).
  - intros k l Hl. destruct (lookup_empty_Some k l Hl).
  - intros i j v w Hl. destruct (lookup_empty_Some i v Hl).
Qed.

(** Nobody else writes. *)
Lemma alone (I : AuthDb -> Prop) : others_keep I.
Proof. intros d w Hd. exact Hd. Qed.

(** Ann makes Bob a moderator; Bob tries the same for himself. *)
Definition roles_set : list (HeaderMap * AccountRoute) :=
  [(as_bob, RoleOf "2" (Object [("role"%string, Str "admin")])); (as_ann, RoleOf "2" (Object [("role"%string, Str "Moderator")]))].

(** Bob is a moderator now, so Ann's session was read for it. *)
Lemma rights_come_from_administrators_witness :
  statuses roles_set start = [401; 200]
  /\ exists pre headers id body post row u0, roles_set = pre ++ (headers, RoleOf id body) :: post
        /\ session_seen (sights town_config pre (headers, RoleOf id body) start) headers row
        /\ ad_users town !! se_user_id row = Some u0 /\ rt_is_admin (us_rights u0) = true.
Proof.
  split; [vm_compute; reflexivity|].
  destruct (rights_come_from_administrators town_config roles_set start town_fresh (alone _)) as [[_ Hold _]|He];
    [exfalso|exact He].
  destruct (Hold 2 (resident "Bob" "bob@example.org" plain_rights) ltac:(vm_compute; reflexivity)) as (u' & Hu & Hr).
  apply (f_equal (fun o => us_rights <$> o)) in Hu. cbn [fmap option_fmap option_map] in Hu. rewrite Hr in Hu.
  vm_compute in Hu. discriminate Hu.
Defined.

Lemma link_needs_proof_witness :
  unlinked 2 7 town
  /\ exists pre headers post row, bob_links = pre ++ (headers, CheckVerification) :: post
        /\ session_seen (sights town_config pre (headers, CheckVerification) start) headers row /\ se_user_id row = 2
        /\ code_seen (sights town_config pre (headers, CheckVerification) start) 2 7.
Proof.
  assert (unlinked 2 7 town) as Hu by (intros u; vm_compute; by intros [= <-]). split; [exact Hu|].
  destruct (link_needs_proof town_config bob_links start 2 7 Hu (alone _)) as [Hn|He]; [exfalso|exact He].
  assert (us_linked_player_id <$> ad_users (w_db (served town_config bob_links start)) !! 2 = Some (Some 7)) as El
    by (vm_compute; reflexivity).
  apply fmap_Some in El as (u & Hl & Hp). exact (Hn u Hl (eq_sym Hp)).
Defined.

(** A newcomer comes in, comes back, and another with the name of Bob does
    not; Bob logs in and links his player. *)
Definition frontend : HeaderMap := bearer "frontend".
Definition good_token : value := Object [("access_token"%string, Str "good")].
Definition bob_login : value := Object [("username", Str "BOB@example.org"); ("password", Str "Bob-secret")]%string.
Definition a_day : list (HeaderMap * AccountRoute) :=
  [(frontend, OidcExchange good_token); (frontend, OidcExchange good_token); (as_bob, OidcExchange good_token);
   ([], Login bob_login)] ++ bob_links ++ [(as_bob, Logout); (as_bob, Verification)].

Lemma accounts_stay_in_order_witness :
  statuses a_day start = [200; 200; 401; 200; 200; 200; 200; 401]
  /\ InOrder (w_db (served town_config a_day start)) /\ IdentitiesKept town (w_db (served town_config a_day start)).
Proof.
  split; [vm_compute; reflexivity|]. apply (accounts_stay_in_order town_config a_day start town_in_order).
  intros d w Hd. exact Hd.
Defined.

(** The fourth session is Bob's second. *)
Lemma session_needs_proof_witness :
  exists pre headers r post, a_day = pre ++ (headers, r) :: post
    /\ AdmissionSeen (sights town_config pre (headers, r) start) town_config headers 2 r.
Proof.
  destruct (session_needs_proof town_config a_day start 2 (alone _)) as [Hn|He]; [exfalso|exact He].
  assert (se_user_id <$> ad_sessions (w_db (served town_config a_day start)) !! 5 = Some 2) as E by (vm_compute; reflexivity).
  apply fmap_Some in E as (row & Hrow & Hid). specialize (Hn 5 row Hrow (eq_sym Hid)). clear -Hn. vm_compute in Hn. discriminate Hn.
Defined.

(** Bob's check fetches once, for his code. *)
Lemma checks_are_bounded_witness :
  checks_of 2 "743009" (trail town_config bob_links start) = [Some 1007]
  /\ within_limits (checks_of 2 "743009" (trail town_config bob_links start)).
Proof.
  split; [vm_compute; reflexivity|]. apply (checks_are_bounded town_config bob_links start 2 "743009").
  - intros v Hv. destruct (lookup_empty_Some 2 v Hv).
  - intros t d w Hd. exact Hd.
Defined.

(** ** The session of Bob *)

Definition bob_created := create_session 2 start.
Definition bob_token : string := match fst bob_created with Ok (token, _) => token | Err _ => EmptyString end.
Definition bob_expiry : string := match fst bob_created with Ok (_, text) => text | Err _ => EmptyString end.

(** Its token is not the one of the logout. *)
Lemma bob_logs_out :
  Forall (fun e => match snd e with Logout => session_token (fst e) = Some "bob-session"%string | _ => True end) a_day.
Proof. repeat constructor. Qed.

Lemma session_lasts_until_logout_witness :
  (exists expires, timestamptz bob_expiry = Some expires
     /\ forall now, now < expires -> exists row u,
          session_at now (sha256_hex bob_token) (w_db (served town_config a_day (snd bob_created))) = Some (row, u)
          /\ se_user_id row = 2 /\ ad_users (w_db (served town_config a_day (snd bob_created))) !! 2 = Some u)
  /\ forall headers (s2 s3 : World (R := Memory) (W := Z)) a, session_token headers = Some bob_token -> logout headers s2 = (Ok a, s3) ->
       forall now, session_at now (sha256_hex bob_token) (w_db s3) = None.
Proof.
  apply (session_lasts_until_logout town_config 2 start (snd bob_created) bob_token bob_expiry a_day).
  - vm_compute. reflexivity.
  - assert (map_Forall (fun k row => k < ad_next_session town /\ se_token row <> sha256_hex bob_token) (ad_sessions town)) as Hu
      by (apply (bool_decide_unpack _); by vm_compute). exact Hu.
  - intros d w Hd. exact Hd.
  - intros k row _ d w Hd. exact Hd.
  - intros headers t Hin Ht. pose proof (proj1 (Forall_forall _ _) bob_logs_out _ Hin) as Hbob. cbn [fst snd] in Hbob.
    rewrite Ht in Hbob. injection Hbob as ->. vm_compute. discriminate.
Defined.

(** ** A lockout that is lifted

    After five checks that find nothing neither a check nor a new code is
    granted; the user cancels the verification, which deletes the lock with it,
    creates another and checks again. *)

(** Forty seconds later, the counters of the cache gone. *)
Definition later (s : World (R := Memory) (W := Z)) : World (R := Memory) (W := Z) :=
  {| w_db := w_db s; w_redis := client (memory []); w_rest := w_rest s + seconds 40; w_seen := w_seen s |}.

Fixpoint statuses_later (l : list AccountRoute) (s : World (R := Memory) (W := Z)) : list Z :=
  match l with
  | [] => []
  | r :: l => statuses [(as_bob, r)] s ++ statuses_later l (later (served town_config [(as_bob, r)] s))
  end.

Example cancelling_lifts_lockout :
  let create := CreateVerification (Object [("playerId"%string, Number (NInt 8))]) in
  statuses_later ([create] ++ repeat CheckVerification 6 ++ [create; CancelVerification; create; CheckVerification]) start
  = [200; 502; 502; 502; 502; 429; 429; 429; 200; 200; 502].
Proof. vm_compute. reflexivity. Qed.
