(* ===== verification/KeyRepository.v ===== *)
(** * The key tables of the relay
      (hirez-relay-rust/src/postgres_repository.rs)

    The repository of the key pool over PostgreSQL: the keys, the calls of
    each key by hour and the log of endpoints.  A method is one statement or
    one transaction; other processes may change the tables before it. *)

From S2P Require Import Prelude Json F64 JsValue Upstream KeyPool.

(** ** The tables *)

Record KeyRow := {
  kr_auth_key : string; kr_source : option string; kr_status : option string; kr_total_24h : option Z;
  kr_daily_limit : option Z; kr_calls_total : option Z; kr_consecutive_failures : option Z;
  kr_last_used : option Z; kr_last_sync_at : option Z; kr_last_sync_error : option string;
}.

Record KeyTables := {
  kt_keys : gmap string KeyRow;
  (** [api_key_hourly_usage], by key and hour. *)
  kt_hourly : gmap (string * Z) Z;
  (** [api_log], by key, endpoint, consumer and hour: calls and milliseconds. *)
  kt_log : gmap (string * string * string * Z) (Z * Z);
}.

Definition with_keys (k : gmap string KeyRow) (t : KeyTables) : KeyTables :=
  {| kt_keys := k; kt_hourly := kt_hourly t; kt_log := kt_log t |}.
Definition with_hourly (h : gmap (string * Z) Z) (t : KeyTables) : KeyTables :=
  {| kt_keys := kt_keys t; kt_hourly := h; kt_log := kt_log t |}.
Definition with_log (l : gmap (string * string * string * Z) (Z * Z)) (t : KeyTables) : KeyTables :=
  {| kt_keys := kt_keys t; kt_hourly := kt_hourly t; kt_log := l |}.

(** ** Numbers of the columns *)

Definition hour_micros : Z := 3600 * 1000000.
(** [date_trunc('hour', ...)]. *)
Definition hour_of (now : Z) : Z := now / hour_micros * hour_micros.

(** A u64 or u32 for a column of INT. *)
Definition int_column (z : Z) : Z := if z <=? i32_max then z else i32_max.

(** An addition and a subtraction on INT; of nothing comes nothing. *)
Definition int4 (z : Z) : result Z string := if (i32_min <=? z) && (z <=? i32_max) then Ok z else Err "integer out of range".

Definition int4_op (f : Z -> Z) (x : option Z) : result (option Z) string :=
  match x with Some x => r <-! int4 (f x); Ok (Some r) | None => Ok None end.

(** [optional_numeric_u64]: a column as a u64. *)
Definition optional_numeric_u64 (x : option Z) : option Z := x ≫= in_range 0 i64_max.
Definition numeric_u64 (x : option Z) : Z := default 0 (optional_numeric_u64 x).

Definition status_text (s : KeyStatus) : string :=
  match s with Healthy => "healthy" | Limited => "limited" | Unhealthy => "unhealthy" end.

(** *** Texts *)

Definition continuation (c : ascii) : bool := (128 <=? byte_of c) && (byte_of c <? 192).

Definition is_char_boundary (s : string) (n : nat) : bool :=
  match String.get n s with Some c => negb (continuation c) | None => true end.

Fixpoint last_boundary (s : string) (n : nat) : nat :=
  if is_char_boundary s n then n else match n with O => O | S n => last_boundary s n end.

Definition truncate_utf8 (s : string) (max_bytes : nat) : string :=
  if (String.length s <=? max_bytes)%nat then s else String.substring 0 (last_boundary s max_bytes) s.

Definition sendable {A} (texts : list string) (r : result A string) : result A string :=
  if forallb free_of_nul texts then r else Err "invalid byte sequence for encoding".

(** ** The world of the repository *)

Class KeyDatabase (W : Type) := {
  (** What other processes have done to the tables. *)
  key_others : KeyTables -> ST W KeyTables;
  key_connection : ST W (result unit string);
  (** The instant of a statement and what became of it. *)
  key_statement : ST W (Z * commit_outcome);
}.

Section repository.
Context {W : Type} `{KeyDatabase W}.
Variable reserve : Z.

Abbreviation World := (KeyTables * W)%type.
Abbreviation Query A := (ST World (result A KeyPoolError)).

Definition repository {A} (f : Z -> KeyTables -> result (A * KeyTables) string) : Query A := fun '(t, w) =>
  match key_connection w with
  | (Err e, w) => (Err (ErrRepository e), (t, w))
  | (Ok _, w) =>
      let '(t, w) := key_others t w in
      let '((now, o), w) := key_statement w in
      match f now t with
      | Err e => (Err (ErrRepository e), (t, w))
      | Ok (a, t') => (map_err ErrRepository (_ <-! reported o; Ok a), (if applied o then t' else t, w))
      end
  end.

(** The columns exist. *)
Definition ensure_schema : Query unit := repository (fun _ t => Ok (tt, t)).

(** ** Keys *)

Definition encrypted_row (dev_id : string) (r : KeyRow) : EncryptedKeyRow :=
  {| row_dev_id := dev_id; row_encrypted_auth_key := kr_auth_key r; row_status := default "healthy"%string (kr_status r);
     row_total_24h := numeric_u64 (kr_total_24h r); row_daily_limit := optional_numeric_u64 (kr_daily_limit r);
     row_calls_total := numeric_u64 (kr_calls_total r);
     row_consecutive_failures := let n := numeric_u64 (kr_consecutive_failures r) in if n <=? u32_max then n else u32_max |}.

(** By [dev_id]; the pool sorts them again. *)
Definition all_keys (t : KeyTables) : list EncryptedKeyRow :=
  map (fun e => encrypted_row (fst e) (snd e)) (sort_by (fun a b => le_bytes (fst a) (fst b)) (map_to_list (kt_keys t))).

Definition load_keys : Query (list EncryptedKeyRow) := repository (fun _ t => Ok (all_keys t, t)).

Definition bootstrap_row (k : BootstrapKey) : KeyRow :=
  {| kr_auth_key := boot_encrypted_auth_key k; kr_source := Some "file-bootstrap"%string; kr_status := Some "healthy"%string;
     kr_total_24h := Some 0; kr_daily_limit := Some (int_column (boot_daily_limit k)); kr_calls_total := Some 0;
     kr_consecutive_failures := Some 0; kr_last_used := None; kr_last_sync_at := None; kr_last_sync_error := None |}.

Fixpoint bootstrap_all (keys : list BootstrapKey) (inserted : Z) (t : KeyTables) : result (Z * KeyTables) string :=
  match keys with
  | [] => Ok (inserted, t)
  | k :: keys =>
      sendable [boot_dev_id k; boot_encrypted_auth_key k]
        match kt_keys t !! boot_dev_id k with
        | Some _ => bootstrap_all keys inserted t
        | None => bootstrap_all keys (inserted + 1) (with_keys (<[boot_dev_id k := bootstrap_row k]> (kt_keys t)) t)
        end
  end.

Definition bootstrap_keys (keys : list BootstrapKey) : Query Z :=
  match keys with [] => mret (Ok 0) | _ => repository (fun _ => bootstrap_all keys 0) end.

Definition update_key_row (f : KeyRow -> KeyRow) (dev_id : string) (t : KeyTables) : KeyTables :=
  with_keys (alter f dev_id (kt_keys t)) t.

Definition row_status_set (s : KeyStatus) (failures : Z) (r : KeyRow) : KeyRow :=
  {| kr_auth_key := kr_auth_key r; kr_source := kr_source r; kr_status := Some (status_text s);
     kr_total_24h := kr_total_24h r; kr_daily_limit := kr_daily_limit r; kr_calls_total := kr_calls_total r;
     kr_consecutive_failures := Some (int_column failures); kr_last_used := kr_last_used r;
     kr_last_sync_at := kr_last_sync_at r; kr_last_sync_error := kr_last_sync_error r |}.

Definition update_status (dev_id : string) (s : KeyStatus) (failures : Z) : Query unit :=
  repository (fun _ t => sendable [dev_id] (Ok (tt, update_key_row (row_status_set s failures) dev_id t))).

Definition authoritative_row (now used limit : Z) (s : KeyStatus) (r : KeyRow) : KeyRow :=
  {| kr_auth_key := kr_auth_key r; kr_source := kr_source r; kr_status := Some (status_text s);
     kr_total_24h := Some (int_column used); kr_daily_limit := Some (int_column limit); kr_calls_total := kr_calls_total r;
     kr_consecutive_failures := if status_eqb s Healthy then Some 0 else kr_consecutive_failures r;
     kr_last_used := kr_last_used r; kr_last_sync_at := Some now; kr_last_sync_error := None |}.

Definition save_authoritative_usage (dev_id : string) (used limit : Z) (s : KeyStatus) : Query unit :=
  repository (fun now t => sendable [dev_id] (Ok (tt, update_key_row (authoritative_row now used limit s) dev_id t))).

Definition sync_error_row (now : Z) (error : string) (r : KeyRow) : KeyRow :=
  {| kr_auth_key := kr_auth_key r; kr_source := kr_source r; kr_status := kr_status r;
     kr_total_24h := kr_total_24h r; kr_daily_limit := kr_daily_limit r; kr_calls_total := kr_calls_total r;
     kr_consecutive_failures := kr_consecutive_failures r; kr_last_used := kr_last_used r;
     kr_last_sync_at := Some now; kr_last_sync_error := Some error |}.

Definition record_sync_error (dev_id error : string) : Query unit :=
  let error := truncate_utf8 error 2000 in
  repository (fun now t => sendable [error; dev_id] (Ok (tt, update_key_row (sync_error_row now error) dev_id t))).

(** ** Usage *)

Definition add_hourly (dev_id : string) (now calls : Z) (t : KeyTables) : result KeyTables string :=
  let k := (dev_id, hour_of now) in
  sum <-! int4 (default 0 (kt_hourly t !! k) + calls);
  Ok (with_hourly (<[k := sum]> (kt_hourly t)) t).

(** Whether the calls leave no more than the reserve of the limit. *)
Definition used_up (total limit : option Z) : result bool string :=
  match total, limit with
  | Some total, Some limit => rest <-! int4 (limit - total); Ok (rest <=? int_column reserve)
  | _, _ => Ok false
  end.

Definition flushed_row (now calls : Z) (r : KeyRow) : result KeyRow string :=
  total <-! int4_op (fun x => x + calls) (kr_total_24h r);
  calls_total <-! int4_op (fun x => x + calls) (kr_calls_total r);
  limited <-! used_up total (kr_daily_limit r);
  Ok {| kr_auth_key := kr_auth_key r; kr_source := kr_source r;
        kr_status := if limited then Some "limited"%string else kr_status r;
        kr_total_24h := total; kr_daily_limit := kr_daily_limit r; kr_calls_total := calls_total;
        kr_consecutive_failures := kr_consecutive_failures r; kr_last_used := Some now;
        kr_last_sync_at := kr_last_sync_at r; kr_last_sync_error := kr_last_sync_error r |}.

Definition flush_key (dev_id : string) (now calls : Z) (t : KeyTables) : result KeyTables string :=
  match kt_keys t !! dev_id with
  | Some r => r <-! flushed_row now calls r; Ok (with_keys (<[dev_id := r]> (kt_keys t)) t)
  | None => Ok t
  end.

Fixpoint flush_all (now : Z) (batches : list UsageBatch) (t : KeyTables) : result KeyTables string :=
  match batches with
  | [] => Ok t
  | b :: batches =>
      let calls := int_column (batch_calls b) in
      t <-! sendable [batch_dev_id b] (add_hourly (batch_dev_id b) now calls t);
      t <-! flush_key (batch_dev_id b) now calls t;
      flush_all now batches t
  end.

Definition flush_batches (batches : list UsageBatch) : Query unit :=
  match batches with
  | [] => mret (Ok tt)
  | _ => repository (fun now t => t <-! flush_all now batches t; Ok (tt, t))
  end.

(** The oldest hour of the last twenty-four. *)
Definition oldest_hour (now : Z) : Z := hour_of now - 23 * hour_micros.

Definition hourly_sum (dev_id : string) (from : Z) (t : KeyTables) : Z :=
  map_fold (fun k calls sum => if String.eqb (fst k) dev_id && (from <=? snd k) then sum + calls else sum) 0 (kt_hourly t).

Definition local_usage_estimate (dev_id : string) : Query Z :=
  repository (fun now t => sendable [dev_id]
    (Ok (default 0 (in_range 0 i64_max (hourly_sum dev_id (oldest_hour now) t)), t))).

Definition clean_hours (now : Z) (t : KeyTables) : KeyTables :=
  with_hourly (base.filter (fun e => oldest_hour now <= snd (fst e)) (kt_hourly t))
    (with_log (base.filter (fun e => oldest_hour now <= snd (fst e)) (kt_log t)) t).

(** The administration's deletion of a key's counts (routes/admin/operations.rs). *)
Definition reset_hours (dev_id : string) (t : KeyTables) : KeyTables :=
  with_hourly (base.filter (fun e => fst (fst e) <> dev_id) (kt_hourly t)) t.

Definition cleanup_rolling_usage : Query unit := repository (fun now t => Ok (tt, clean_hours now t)).

Definition logged (now : Z) (dev_id endpoint consumer : string) (ms : Z) (t : KeyTables) : result KeyTables string :=
  let k := (dev_id, endpoint, consumer, hour_of now) in
  if 80 <? text_length consumer then Err "value too long for type character varying(80)"
  else
    let '(calls, total) := default (0, 0) (kt_log t !! k) in
    calls <-! int4 (calls + 1);
    total <-! int4 (total + int_column ms);
    Ok (with_log (<[k := (calls, total)]> (kt_log t)) t).

Definition log_endpoint (dev_id endpoint : string) (ms : Z) (consumer : string) : Query unit :=
  repository (fun now t => sendable [dev_id; endpoint; consumer] (t <-! logged now dev_id endpoint consumer ms t; Ok (tt, t))).

(** What the pool is written against. *)
Definition postgres_repository : KeyPoolRepository World := {|
  repo_ensure_schema := ensure_schema;
  repo_load_keys := load_keys;
  repo_bootstrap_keys := bootstrap_keys;
  repo_flush_usage := flush_batches;
  repo_update_status := update_status;
  repo_log_endpoint := log_endpoint;
  repo_save_authoritative_usage := save_authoritative_usage;
  repo_local_usage_estimate := local_usage_estimate;
  repo_record_sync_error := record_sync_error;
  repo_cleanup_rolling_usage := cleanup_rolling_usage;
|}.
End repository.
