(* ===== verification/KeyRepositorySpec.v ===== *)
(** * What holds of the key tables

    The estimate of a key's usage against the flushes of the last day, and
    where the calls of a pool over the tables are. *)

From S2P Require Import Prelude Json F64 JsValue Upstream KeyPool KeyPoolSpec KeyPoolMethods KeyRepository.

(** ** The hourly counts *)

Definition sum_hours (dev_id : string) (from : Z) (m : gmap (string * Z) Z) : Z :=
  map_fold (fun k calls sum => if String.eqb (fst k) dev_id && (from <=? snd k) then sum + calls else sum) 0 m.

Definition counts_for (dev_id : string) (from : Z) (k : string * Z) : bool := String.eqb (fst k) dev_id && (from <=? snd k).

Lemma sum_hours_insert dev_id from k calls m :
  m !! k = None ->
  sum_hours dev_id from (<[k := calls]> m) = sum_hours dev_id from m + (if counts_for dev_id from k then calls else 0).
Proof.
  intros Hk. unfold sum_hours, counts_for. rewrite map_fold_insert_L; [case_match; lia| |done].
  intros. repeat case_match; lia.
Qed.

Lemma sum_hours_add dev_id from k calls m :
  sum_hours dev_id from (<[k := default 0 (m !! k) + calls]> m)
  = sum_hours dev_id from m + (if counts_for dev_id from k then calls else 0).
Proof.
  destruct (m !! k) as [old|] eqn:Hk; [|by rewrite sum_hours_insert].
  rewrite <- (insert_delete_id m k old Hk) at 2. rewrite <- insert_delete_eq.
  rewrite !sum_hours_insert by apply lookup_delete_eq. cbn. case_match; lia.
Qed.

Lemma sum_hours_filter dev_id from oldest m :
  oldest <= from ->
  sum_hours dev_id from (base.filter (fun e => oldest <= snd (fst e)) m) = sum_hours dev_id from m.
Proof.
  intros Hle. induction m as [|k calls m Hk IH] using map_ind; [done|].
  rewrite (sum_hours_insert _ _ k) by done. destruct (decide (oldest <= snd k)) as [Hin|Hout].
  - rewrite map_filter_insert_True by done. rewrite sum_hours_insert; [by rewrite IH|].
    by rewrite map_lookup_filter, Hk.
  - rewrite map_filter_insert_False, delete_id by done. rewrite IH. unfold counts_for.
    rewrite (proj2 (Z.leb_gt from (snd k))) by lia. rewrite andb_false_r. lia.
Qed.

Lemma sum_hours_reset dev_id other from m :
  sum_hours dev_id from (base.filter (fun e => fst (fst e) <> other) m)
  = if String.eqb dev_id other then 0 else sum_hours dev_id from m.
Proof.
  induction m as [|k calls m Hk IH] using map_ind.
  { change (sum_hours dev_id from (base.filter (fun e => fst (fst e) <> other) (∅ : gmap (string * Z) Z)) = if String.eqb dev_id other then 0 else 0).
    rewrite map_filter_empty. by case_match. }
  rewrite (sum_hours_insert _ _ k) by done. destruct (decide (fst k = other)) as [Heq|Hne].
  - rewrite map_filter_insert_False, delete_id by (done || naive_solver). rewrite IH. destruct (String.eqb_spec dev_id other); [done|].
    unfold counts_for. rewrite (proj2 (String.eqb_neq (fst k) dev_id)) by congruence. cbn. lia.
  - rewrite map_filter_insert_True by done. rewrite sum_hours_insert; [|by rewrite map_lookup_filter, Hk].
    rewrite IH. destruct (String.eqb_spec dev_id other) as [->|]; [|done].
    unfold counts_for. by rewrite (proj2 (String.eqb_neq (fst k) other)).
Qed.

(** ** A run of the tables, with the calls flushed *)

Record FlushedCalls := { fl_at : Z; fl_dev_id : string; fl_calls : Z }.

Definition flushed_at (now : Z) (b : UsageBatch) : FlushedCalls :=
  {| fl_at := now; fl_dev_id := batch_dev_id b; fl_calls := int_column (batch_calls b) |}.

(** The calls flushed for a key since an instant. *)
Fixpoint calls_since (dev_id : string) (from : Z) (h : list FlushedCalls) : Z :=
  match h with
  | [] => 0
  | f :: h => (if String.eqb (fl_dev_id f) dev_id && (from <=? fl_at f) then fl_calls f else 0) + calls_since dev_id from h
  end.

(** What a key's reset leaves of the calls. *)
Definition without_key (dev_id : string) (h : list FlushedCalls) : list FlushedCalls :=
  filter (fun f => fl_dev_id f <> dev_id) h.

Lemma calls_since_without dev_id other from h :
  calls_since dev_id from (without_key other h) = if String.eqb dev_id other then 0 else calls_since dev_id from h.
Proof.
  unfold without_key. induction h as [|f h IH]; [by case_match|]. rewrite filter_cons. cbn [calls_since].
  case_decide as Hf; cbn [calls_since]; rewrite IH; destruct (String.eqb_spec dev_id other) as [->|Hne]; try done.
  - by rewrite (proj2 (String.eqb_neq (fl_dev_id f) other)).
  - rewrite (proj2 (String.eqb_neq (fl_dev_id f) dev_id)); [cbn; lia|]. by intros <-.
Qed.

Inductive TableRun (reserve : Z) : Z -> KeyTables -> list FlushedCalls -> Prop :=
| table_start now t : kt_hourly t = ∅ -> TableRun reserve now t []
| table_flush last now t batches t' h :
    TableRun reserve last t h -> last <= now -> Forall (fun b => 0 <= batch_calls b) batches ->
    flush_all reserve now batches t = Ok t' -> TableRun reserve now t' (map (flushed_at now) batches ++ h)
| table_clean last now t h : TableRun reserve last t h -> last <= now -> TableRun reserve now (clean_hours now t) h
| table_reset last now dev_id t h :
    TableRun reserve last t h -> last <= now -> TableRun reserve now (reset_hours dev_id t) (without_key dev_id h)
| table_other last now t t' h :
    TableRun reserve last t h -> last <= now -> kt_hourly t' = kt_hourly t -> TableRun reserve now t' h.

Lemma hour_of_mono a b : a <= b -> hour_of a <= hour_of b.
Proof. intros Hab. unfold hour_of. apply Z.mul_le_mono_nonneg_r; [done|]. by apply Z.div_le_mono. Qed.

(** An hour starts no earlier than another exactly when its instants are. *)
Lemma hour_of_from k t : (k * hour_micros <=? hour_of t) = (k * hour_micros <=? t).
Proof.
  apply bool_iff_eq. rewrite !Z.leb_le. unfold hour_of, hour_micros. split; intros Hk.
  - pose proof (Z.mul_div_le t (3600 * 1000000) ltac:(lia)). lia.
  - apply Z.mul_le_mono_nonneg_r; [lia|]. apply Z.div_le_lower_bound; lia.
Qed.

Lemma oldest_hour_aligned now : exists k, oldest_hour now = k * hour_micros.
Proof. exists (now / hour_micros - 23). unfold oldest_hour, hour_of. lia. Qed.

Lemma int4_Ok z z' : int4 z = Ok z' -> z' = z.
Proof. unfold int4. case_match; congruence. Qed.

Lemma flush_all_hours reserve now batches t t' dev_id k :
  flush_all reserve now batches t = Ok t' ->
  sum_hours dev_id (k * hour_micros) (kt_hourly t')
  = calls_since dev_id (k * hour_micros) (map (flushed_at now) batches) + sum_hours dev_id (k * hour_micros) (kt_hourly t).
Proof.
  revert t. induction batches as [|b batches IH]; intros t; cbn; [by intros [= ->]|].
  rewrite rbind_Ok. setoid_rewrite rbind_Ok. intros (t1 & H1 & t2 & H2 & H3). rewrite (IH t2 H3).
  assert (kt_hourly t2 = kt_hourly t1) as -> by (unfold flush_key in H2; repeat case_match; [apply rbind_Ok in H2 as (? & _ & [= <-])|by injection H2 as ->]; done).
  unfold sendable in H1. case_match; [|done]. apply rbind_Ok in H1 as (sum & Hsum & [= <-]).
  apply int4_Ok in Hsum as ->. cbn. rewrite sum_hours_add. unfold counts_for. cbn.
  rewrite hour_of_from. lia.
Qed.

Lemma calls_since_app dev_id from h1 h2 : calls_since dev_id from (h1 ++ h2) = calls_since dev_id from h1 + calls_since dev_id from h2.
Proof. induction h1 as [|f h1 IH]; cbn; [done|]. rewrite IH. lia. Qed.

Lemma table_run_sums reserve last t h :
  TableRun reserve last t h ->
  forall dev_id k, oldest_hour last <= k * hour_micros ->
    sum_hours dev_id (k * hour_micros) (kt_hourly t) = calls_since dev_id (k * hour_micros) h.
Proof.
  assert (forall a b k, a <= b -> oldest_hour b <= k -> oldest_hour a <= k) as Hmono.
  { intros a b k Hab. pose proof (hour_of_mono a b Hab). unfold oldest_hour. lia. }
  induction 1 as [now t Ht|last now t batches t' h _ IH Hle _ Hf|last now t h _ IH Hle|last now key t h _ IH Hle|last now t t' h _ IH Hle Ht]; intros dev_id k Hk.
  - by rewrite Ht.
  - rewrite (flush_all_hours _ _ _ _ _ _ _ Hf), calls_since_app, IH; [done|]. by eapply Hmono.
  - cbn. rewrite sum_hours_filter by done. apply IH. by eapply Hmono.
  - cbn. rewrite sum_hours_reset, calls_since_without. case_match; [done|]. apply IH. by eapply Hmono.
  - rewrite Ht. apply IH. by eapply Hmono.
Qed.

Lemma calls_since_nonneg reserve last t h dev_id from : TableRun reserve last t h -> 0 <= calls_since dev_id from h.
Proof.
  induction 1 as [|last now t batches t' h _ IH _ Hb _| | |];
    [done| |done|rewrite calls_since_without; by case_match|done]. rewrite calls_since_app.
  enough (0 <= calls_since dev_id from (map (flushed_at now) batches)) by lia. clear -Hb.
  induction Hb as [|b batches Hb _ IH]; cbn; [done|]. unfold int_column. repeat case_match; bool_props; unfold i32_max in *; lia.
Qed.

(** ** The estimate *)

Section repository.
Context {W : Type} `{KeyDatabase W}.
Variable reserve : Z.
Abbreviation World := (KeyTables * W)%type.

(** The tables that a method of one statement reads, and when. *)
Definition tables_met (s : World) : KeyTables := fst (key_others (fst s) (snd (key_connection (snd s)))).
Definition statement_instant (s : World) : Z :=
  fst (fst (key_statement (snd (key_others (fst s) (snd (key_connection (snd s))))))).

(** What a method of one statement did. *)
Lemma repository_ok {A} (f : Z -> KeyTables -> result (A * KeyTables) string) s a s' :
  repository f s = (Ok a, s') -> exists t', f (statement_instant s) (tables_met s) = Ok (a, t').
Proof.
  destruct s as [t w]. unfold repository, statement_instant, tables_met. cbn.
  destruct (key_connection w) as [[[]|e] w0]; [|done]. cbn. destruct (key_others t w0) as [t1 w1]. cbn.
  destruct (key_statement w1) as [[now o] w2]. cbn. destruct (f now t1) as [[b t2]|e]; [|done].
  destruct o; cbn; intros E; simplify_eq; eauto.
Qed.

(** C15. The estimate of a key's usage is the number of its calls that were
    flushed since the start of the hour twenty-three hours before the statement
    and since the key's last reset, whatever flushes, clean-ups, resets and
    other statements, of this relay or of others, led to the tables that the
    statement meets.  No process writes the hourly counts otherwise. *)
Theorem estimate_counts_last_day last h s dev_id e s' :
  TableRun reserve last (tables_met s) h -> last <= statement_instant s ->
  calls_since dev_id (hour_of (statement_instant s) - 23 * hour_micros) h <= i64_max ->
  local_usage_estimate dev_id s = (Ok e, s') ->
  e = calls_since dev_id (hour_of (statement_instant s) - 23 * hour_micros) h.
Proof.
  intros Hrun Hle Hmax He. apply repository_ok in He as [t' He].
  unfold sendable in He. case_match; [|done]. injection He as <- _. unfold hourly_sum.
  generalize dependent (statement_instant s). intros now Hle Hmax.
  destruct (oldest_hour_aligned now) as [k Hk].
  change (default 0 (in_range 0 i64_max (sum_hours dev_id (oldest_hour now) (kt_hourly (tables_met s)))) = calls_since dev_id (oldest_hour now) h).
  change (calls_since dev_id (oldest_hour now) h <= i64_max) in Hmax.
  rewrite Hk in *. rewrite (table_run_sums reserve last (tables_met s) h Hrun).
  - pose proof (calls_since_nonneg reserve last (tables_met s) h dev_id (k * hour_micros) Hrun).
    generalize dependent (calls_since dev_id (k * hour_micros) h). intros sum ? ?. unfold in_range.
    destruct (_ && _) eqn:E; [done|]. apply andb_false_iff in E as [E|E]; bool_props; lia.
  - rewrite <- Hk. pose proof (hour_of_mono last now Hle). unfold oldest_hour. lia.
Qed.

(** ** Where the calls of a pool are *)

Lemma flush_all_total now batches t t' dev_id r c :
  Forall (fun b => batch_calls b <= i32_max) batches ->
  flush_all reserve now batches t = Ok t' -> kt_keys t !! dev_id = Some r -> kr_calls_total r = Some c ->
  exists r', kt_keys t' !! dev_id = Some r' /\ kr_calls_total r' = Some (c + batch_calls_of dev_id batches).
Proof.
  intros Hb. revert t r c. induction Hb as [|b batches Hb _ IH]; intros t r c; cbn.
  { intros [= <-] Hr Hc. exists r. split; [done|]. rewrite Hc. f_equal. lia. }
  rewrite rbind_Ok. setoid_rewrite rbind_Ok. intros (t1 & H1 & t2 & H2 & H3) Hr Hc.
  assert (kt_keys t1 = kt_keys t) as Ht1.
  { unfold sendable in H1. case_match; [|done]. by apply rbind_Ok in H1 as (sum & _ & [= <-]). }
  assert (int_column (batch_calls b) = batch_calls b) as Hcol by (unfold int_column; case_match; bool_props; lia).
  rewrite Hcol in *. unfold flush_key in H2. rewrite Ht1 in H2. destruct (String.eqb_spec (batch_dev_id b) dev_id) as [<- |Hne].
  - rewrite Hr in H2. apply rbind_Ok in H2 as (r2 & Hr2 & [= <-]). unfold flushed_row in Hr2.
    apply rbind_Ok in Hr2 as (total & _ & Hr2). apply rbind_Ok in Hr2 as (ct & Hct & Hr2). apply rbind_Ok in Hr2 as (l & _ & [= <-]).
    rewrite Hc in Hct. apply rbind_Ok in Hct as (z & Hz & [= <-]). apply int4_Ok in Hz as ->.
    eapply (IH _ _ (c + batch_calls b)) in H3 as (r' & Hr' & Hc'); [|cbn; by rewrite lookup_insert_eq|done].
    exists r'. split; [done|]. rewrite Hc'. apply (f_equal Some). lia.
  - assert (kt_keys t2 !! dev_id = Some r) as Hr2.
    { destruct (kt_keys t !! batch_dev_id b) eqn:Eb; [|injection H2 as <-; by rewrite Ht1]. apply rbind_Ok in H2 as (r2 & _ & [= <-]). cbn.
      by rewrite lookup_insert_ne. }
    eapply IH in H3 as (r' & Hr' & Hc'); [|done|done]. exists r'. split; [done|]. rewrite Hc'. apply (f_equal Some). lia.
Qed.

Lemma drained_bounds i :
  Forall (fun k => pending_increments k <= i32_max) (keys i) -> Forall (fun b => batch_calls b <= i32_max) (fst (drain_pending i)).
Proof.
  intros Hk. apply Forall_forall. intros b Hb. apply list_elem_of_omap in Hb as (k & Hin & Hb).
  case_match; [done|]. injection Hb as <-. by apply (proj1 (Forall_forall _ _) Hk).
Qed.

Definition calls_booked (dev_id : string) (t : KeyTables) : option Z := r ← kt_keys t !! dev_id; kr_calls_total r.

Lemma repository_flush now_batches t w r t' w' dev_id c :
  Forall (fun b => batch_calls b <= i32_max) now_batches ->
  (forall t w, calls_booked dev_id (fst (key_others t w)) = calls_booked dev_id t) ->
  calls_booked dev_id t = Some c ->
  repository (fun now t => t <-! flush_all reserve now now_batches t; Ok (tt, t)) (t, w) = (r, (t', w')) ->
  (calls_booked dev_id t' = Some (c + batch_calls_of dev_id now_batches)
     /\ (r = Ok tt \/ exists w1 now m, fst (key_statement w1) = (now, AnswerLost m) /\ is_ok r = false))
  \/ calls_booked dev_id t' = Some c /\ is_ok r = false.
Proof.
  intros Hb Ho Hc. unfold repository. destruct (key_connection w) as [[[]|e] w0]; [|by intros [= <- <- _]; right].
  specialize (Ho t w0). destruct (key_others t w0) as [t1 w1]. cbn in Ho. rewrite Hc in Ho.
  destruct (key_statement w1) as [[now o] w2] eqn:Es. destruct (flush_all reserve now now_batches t1) as [t2|e] eqn:Ef; cbn;
    [|by intros [= <- <- _]; right].
  assert (calls_booked dev_id t2 = Some (c + batch_calls_of dev_id now_batches)) as Ht2.
  { unfold calls_booked in Ho. destruct (kt_keys t1 !! dev_id) as [r1|] eqn:Hr1; [|done].
    destruct (flush_all_total now now_batches t1 t2 dev_id r1 c Hb Ef Hr1 Ho) as (r' & Hr' & Hc').
    unfold calls_booked. by rewrite Hr'. }
  destruct o as [|m|m]; cbn; intros [= <- <- _].
  - left. split; [done|by left].
  - left. split; [done|]. right. exists w1, now, m. by rewrite Es.
  - by right.
Qed.

Lemma find_key_committed dev_id i : find_key dev_id (set_keys (map committed_key (keys i)) i) = committed_key <$> find_key dev_id i.
Proof.
  unfold find_key. cbn. induction (keys i) as [|x ks IH]; cbn; [done|].
  assert (has_dev dev_id (committed_key x) = has_dev dev_id x) as Hsame by (unfold committed_key; by case_match).
  rewrite Hsame. by destruct (has_dev dev_id x).
Qed.

(** C14. A flush of a pool over the tables loses no call: what the table has
    booked for a key and what the pool has pending for it keep their sum, unless
    the answer of the commit is lost, after which the calls are both booked and
    pending; an error that is no lost answer changes neither. *)
Theorem pool_flush_accounting p t w dev_id k c r p' t' w' :
  pool_wf (inner p) -> Forall (fun k => pending_increments k <= i32_max) (keys (inner p)) ->
  find_key dev_id (inner p) = Some k -> calls_booked dev_id t = Some c ->
  (forall t w, calls_booked dev_id (fst (key_others t w)) = calls_booked dev_id t) ->
  @flush_usage World (postgres_repository reserve) (p, (t, w)) = (r, (p', (t', w'))) ->
  exists k' c', find_key dev_id (inner p') = Some k' /\ calls_booked dev_id t' = Some c'
    /\ match r with
       | Ok _ => pending_increments k' = 0 /\ c' = c + pending_increments k
       | Err _ => k' = k /\ (c' = c \/ c' = c + pending_increments k /\ exists w1 now m, fst (key_statement w1) = (now, AnswerLost m))
       end.
Proof.
  intros Hwf Hmax Hk Hc Ho. pose proof (drain_calls_of dev_id (inner p) k (wf_nodup _ Hwf) Hk) as Hcalls.
  pose proof (drained_bounds _ Hmax) as Hb.
  pose proof (@flush_usage_settles World (postgres_repository reserve) p (t, w) Hwf) as Hs. cbv zeta in Hs.
  destruct (fst (drain_pending (inner p))) as [|b bs] eqn:Ed.
  - rewrite Hs. intros [= <- <- <- _]. cbn in Hcalls. exists k, c. split_and!; [done..|lia].
  - set (l := b :: bs) in *. change (repo_flush_usage l (t, w)) with
      (repository (fun now t => t <-! flush_all reserve now l t; Ok (tt, t)) (t, w)) in Hs.
    destruct (repository _ (t, w)) as [r1 [t1 w1]] eqn:Er. apply (repository_flush l t w r1 t1 w1 dev_id c Hb Ho Hc) in Er.
    rewrite Hcalls in Er. destruct r1 as [[]|e]; rewrite Hs; intros [= <- <- <- _]; cbn [inner].
    + destruct Er as [[Hbooked _]|[_ [=]]]. exists (committed_key k), (c + pending_increments k).
      split_and!; [by rewrite find_key_committed, Hk|done| |done]. unfold committed_key. case_match; bool_props; done.
    + destruct Er as [[Hbooked [[=]|(w2 & now & m & Hlost & _)]]|[Hbooked _]].
      * exists k, (c + pending_increments k). split_and!; [done..|]. right. by eauto.
      * exists k, c. split_and!; [done..|]. by left.
Qed.
End repository.

(** ** The contract of the pool's interface *)

Lemma all_keys_ids t : map row_dev_id (all_keys t) = fst <$> sort_by (fun a b => le_bytes (fst a) (fst b)) (map_to_list (kt_keys t)).
Proof. unfold all_keys. by rewrite map_map. Qed.

Lemma numeric_range x : in_u64 (numeric_u64 x).
Proof.
  unfold numeric_u64, optional_numeric_u64. destruct (x ≫= in_range 0 i64_max) as [z|] eqn:E; cbn; [|done].
  apply bind_Some in E as (y & _ & [-> ?]%in_range_Some). unfold in_u64, u64_max, i64_max in *. lia.
Qed.

(** What the tables answer is what [KeyPoolSpec.methods_refine_sections] asks
    of a repository. *)
Lemma repository_keeps_types {W} `{KeyDatabase W} `{Hp : UsageProbe (KeyTables * W)} reserve :
  (forall w c r, run (probe_get_data_used c) w = Ok (Some r) ->
     in_u64 (report_used r) /\ forall l, report_reported_limit r = Some l -> in_u64 l) ->
  @in_types (KeyTables * W) (postgres_repository reserve) Hp.
Proof.
  intros Hprobe. split; [|done|].
  - intros [t w] rows. unfold run. change (@repo_load_keys _ (postgres_repository reserve)) with (load_keys (W := W)).
    destruct (load_keys (t, w)) as [r [t' w']] eqn:E. cbn. intros ->. destruct (repository_ok _ _ _ _ E) as (tt1 & [= <- _]).
    split.
    + rewrite all_keys_ids, (sort_by_perm _ (map_to_list _)). apply NoDup_fst_map_to_list.
    + unfold all_keys. apply Forall_map, Forall_forall. intros [d k] _. cbn. split_and!; [apply numeric_range..| |].
      * pose proof (numeric_range (kr_consecutive_failures k)) as Hn. unfold in_u32, in_u64 in *. case_match; bool_props; unfold u32_max in *; lia.
      * intros l Hl. unfold optional_numeric_u64 in Hl. apply bind_Some in Hl as (y & _ & [-> ?]%in_range_Some).
        unfold in_u64, u64_max, i64_max in *. lia.
  - intros [t w] d e. unfold run. change (@repo_local_usage_estimate _ (postgres_repository reserve) d) with (local_usage_estimate (W := W) d).
    destruct (local_usage_estimate d (t, w)) as [r [t' w']] eqn:E. cbn. intros ->.
    destruct (repository_ok _ _ _ _ E) as [tt1 E1]. clear E. rename E1 into E. unfold sendable in E. case_match; [|done]. injection E as <- _.
    destruct (in_range _ _ _) as [z|] eqn:Ez; cbn; [|done]. apply in_range_Some in Ez as [-> ?]. unfold in_u64, u64_max, i64_max in *. lia.
Qed.

(** ** A clock and a server that loses answers *)

#[export] Instance scripted_keys : KeyDatabase (Z * list commit_outcome) := {|
  key_others t w := (t, w);
  key_connection w := (Ok tt, w);
  key_statement w := ((fst w, default Committed (head (snd w))), (fst w + 1, tail (snd w)));
|}.

Definition fresh_row : KeyRow := bootstrap_row {| boot_dev_id := "1000"; boot_encrypted_auth_key := "cipher"; boot_daily_limit := 7500 |}.

Definition fresh_tables : KeyTables := {| kt_keys := {["1000"%string := fresh_row]}; kt_hourly := ∅; kt_log := ∅ |}.

Definition batch (calls : Z) : list UsageBatch := [{| batch_dev_id := "1000"; batch_calls := calls |}].

Definition flushed (now calls : Z) (t : KeyTables) : KeyTables := match flush_all 100 now (batch calls) t with Ok t => t | Err _ => t end.

(** Flushes in hours 0, 1 and 24, another key's reset and a clean-up in hour 24. *)
Definition used_tables : KeyTables :=
  clean_hours (24 * hour_micros + 9) (reset_hours "2000"
    (flushed (24 * hour_micros + 5) 9 (flushed (hour_micros + 7) 4 (flushed 3 5 fresh_tables)))).

Definition used_history : list FlushedCalls :=
  [{| fl_at := 24 * hour_micros + 5; fl_dev_id := "1000"; fl_calls := 9 |}; {| fl_at := hour_micros + 7; fl_dev_id := "1000"; fl_calls := 4 |};
   {| fl_at := 3; fl_dev_id := "1000"; fl_calls := 5 |}].

Lemma used_run : TableRun 100 (24 * hour_micros + 9) used_tables used_history.
Proof.
  assert (forall last now calls t h, TableRun 100 last t h -> last <= now -> 0 <= calls ->
    (exists t', flush_all 100 now (batch calls) t = Ok t') ->
    TableRun 100 now (flushed now calls t) (map (flushed_at now) (batch calls) ++ h)) as Hf.
  { intros last now calls t h Ht Hle Hc [t' E]. unfold flushed. rewrite E. eapply table_flush; [done|done| |done]. by repeat constructor. }
  apply (table_clean _ (24 * hour_micros + 7)); [|lia].
  apply (table_reset _ (24 * hour_micros + 5) (24 * hour_micros + 7) "2000" _ used_history); [|lia].
  apply (Hf (hour_micros + 7) (24 * hour_micros + 5) 9 _ _); [|by vm_compute|done|eexists; vm_compute; reflexivity].
  apply (Hf 3 (hour_micros + 7) 4 _ _); [|by vm_compute|done|eexists; vm_compute; reflexivity].
  apply (Hf 0 3 5 _ []); [by apply table_start|by vm_compute|done|eexists; vm_compute; reflexivity].
Qed.

(** Asked in hour 24, the first flush has left the window. *)
Definition hour_24 : KeyTables * (Z * list commit_outcome) := (used_tables, (24 * hour_micros + 20, [])).

Lemma estimate_counts_last_day_witness :
  statement_instant hour_24 = 24 * hour_micros + 20 /\ run (local_usage_estimate "1000") hour_24 = Ok 13
  /\ 13 = calls_since "1000" (hour_of (statement_instant hour_24) - 23 * hour_micros) used_history.
Proof.
  split; [reflexivity|]. split; [vm_compute; reflexivity|].
  apply (estimate_counts_last_day 100 (24 * hour_micros + 9) used_history hour_24 "1000" 13
    (used_tables, (24 * hour_micros + 21, []))); [exact used_run|by vm_compute|by vm_compute|vm_compute; reflexivity].
Defined.

(** Reset between the flushes, only the last one counts. *)
Example reset_estimate :
  let t := flushed (24 * hour_micros + 5) 9 (reset_hours "1000" (flushed (hour_micros + 7) 4 fresh_tables)) in
  run (local_usage_estimate "1000") (t, (24 * hour_micros + 20, [])) = Ok 9.
Proof. vm_compute. reflexivity. Qed.

(** A commit whose answer is lost, and the flush after it. *)
Definition lossy_pool : Pool := sample_pool [sample_key "1000" 7 7] None.
Definition lossy_start : KeyTables * (Z * list commit_outcome) := (fresh_tables, (0, [AnswerLost "gone"; Committed])).
Definition lossy_flush := @flush_usage _ (postgres_repository 100) (lossy_pool, lossy_start).

Lemma lossy_wf : pool_wf (inner lossy_pool).
Proof. apply sample_wf; u64_bounds. Qed.

Lemma pool_flush_accounting_witness :
  fst lossy_flush = Err (ErrRepository "gone")
  /\ exists k' c', find_key "1000" (inner (fst (snd lossy_flush))) = Some k' /\ calls_booked "1000" (fst (snd (snd lossy_flush))) = Some c'
       /\ k' = sample_key "1000" 7 7 /\ (c' = 0 \/ c' = 0 + 7
            /\ exists w1 now m, fst (key_statement (W := Z * list commit_outcome) w1) = (now, AnswerLost m)).
Proof.
  split; [vm_compute; reflexivity|].
  apply (pool_flush_accounting 100 lossy_pool fresh_tables (0, [AnswerLost "gone"; Committed]) "1000" (sample_key "1000" 7 7) 0
    (Err (ErrRepository "gone")) (fst (snd lossy_flush)) (fst (snd (snd lossy_flush))) (snd (snd (snd lossy_flush))));
    [exact lossy_wf|by repeat constructor|reflexivity|reflexivity|done|].
  vm_compute. reflexivity.
Defined.

(** The seven calls are booked twice once the next flush succeeds. *)
Example lost_answer_books_twice :
  calls_booked "1000" (fst (snd (exec (@flush_usage _ (postgres_repository 100)) (exec (@flush_usage _ (postgres_repository 100)) (lossy_pool, lossy_start)))))
  = Some 14.
Proof. vm_compute. reflexivity. Qed.
