(* ===== verification/UsageProbe.v ===== *)
(** * The usage probe
      (hirez-relay-rust/src/usage_probe.rs)

    Asks the provider how many calls of a key it has counted today.  The probe
    is what the key pool synchronizes with; it goes through the sessions and
    charges the key for its own calls. *)

From S2P Require Import Prelude Json Upstream Session KeyPool SessionSpec.

(** [number_field]. *)
Definition number_field (v : value) (field : string) : option Z :=
  x ← get field v; or_else (as_u64 x) (or_else (as_i64 x ≫= in_range 0 u64_max) (as_str x ≫= parse_u64)).

Definition probe_failed (e : UpstreamError) : KeyPoolError := ErrProbe (upstream_error_to_string e).

Section probe.
Context {W : Type} `{Formats} `{ApiKeyState W} `{HttpTransport W} `{SessionAudit W} `{Clock W} `{Stopwatch W}.
Variables (base_url_arg : string) (ttl_ms : Z).

Abbreviation State := (SessionState * W)%type.

Definition data_used_url (key : ApiCredential) (session : Session) (signature timestamp : string) : string :=
  base_url base_url_arg +:+ "/getdatausedJson/" +:+ cred_dev_id key +:+ "/" +:+ signature +:+ "/"
  +:+ session_key session +:+ "/" +:+ timestamp.

Definition failed (d : string) (key_fault : bool) (message : string) : ST State (result value KeyPoolError) :=
  _ ← lift_session (state_record_failure d key_fault); mret (Err (ErrProbe message)).

Definition request_data_used (key : ApiCredential) : ST State (result value KeyPoolError) :=
  let d := cred_dev_id key in
  acquired ← acquire_session base_url_arg ttl_ms key;
  session <-? mret (map_err probe_failed acquired);
  stamp ← hirez_timestamp;
  timestamp <-? mret (map_err probe_failed stamp);
  let signature := sign "getdataused" d (cred_auth_key key) timestamp in
  _ ← lift_session (state_increment_usage d);
  started ← lift_session instant_now;
  response ← lift_session (transport_get (data_used_url key session signature timestamp) 15000);
  elapsed ← lift_session (elapsed_millis started);
  _ ← lift_session (state_log_endpoint d "getdataused" elapsed "quota_sync");
  match response with
  | Err error => failed d false (transport_error_to_string error)
  | Ok response =>
      if negb (is_success_status (resp_status response))
      then failed d true ("HTTP " +:+ pretty (resp_status response) +:+ ": " +:+ resp_reason response)
      else
        match parse_json_body (resp_body response) with
        | Err error => failed d true (upstream_error_to_string error)
        | Ok data => _ ← lift_session (state_record_success d); mret (Ok data)
        end
  end.

Definition get_data_used_raw (key : ApiCredential) : ST State (result value KeyPoolError) :=
  data <-? request_data_used key;
  mret (Ok match data with Array items => default Null (head items) | v => v end).

Definition get_data_used (key : ApiCredential) : ST State (result (option AuthoritativeUsage) KeyPoolError) :=
  data <-? get_data_used_raw key;
  mret (Ok ((fun used => {| report_used := used; report_reported_limit := number_field data "Request_Limit_Daily" |})
            <$> number_field data "Total_Requests_Today")).

(** The probe as the pool holds it; [alive] is whether its owner still is. *)
Definition direct_usage_probe (alive : ST State bool) : UsageProbe State :=
  {| probe_upgrade := alive; probe_get_data_used := get_data_used |}.

(** ** What it answers *)

Lemma as_u64_in v n : as_u64 v = Some n -> in_u64 n.
Proof. destruct v as [| |[z|]| | |]; cbn; try done. by intros [-> ?]%in_range_Some. Qed.

Lemma number_field_range v field n : number_field v field = Some n -> in_u64 n.
Proof.
  unfold number_field. intros Hn. apply bind_Some in Hn as (x & _ & Hn). unfold or_else in Hn.
  destruct (as_u64 x) as [u|] eqn:Eu; [injection Hn as <-; by eapply as_u64_in|].
  destruct (as_i64 x ≫= in_range 0 u64_max) as [i|] eqn:Ei.
  - injection Hn as <-. apply bind_Some in Ei as (z & _ & [-> ?]%in_range_Some). done.
  - apply bind_Some in Hn as (s & _ & Hn). by apply parse_unsigned_range in Hn.
Qed.

(** The pool's proofs ask this of a probe. *)
Lemma probe_keeps_types alive (w : State) key report :
  run (@probe_get_data_used State (direct_usage_probe alive) key) w = Ok (Some report) ->
  in_u64 (report_used report) /\ forall l, report_reported_limit report = Some l -> in_u64 l.
Proof.
  unfold run. cbn. unfold get_data_used, try_bind. destruct (get_data_used_raw key w) as [[data|e] w']; [|done]. cbn.
  intros [= E]. apply fmap_Some in E as (used & Hu & ->). cbn. split; [by eapply number_field_range|].
  intros l. apply number_field_range.
Qed.
End probe.

(** ** What it costs *)

Section costs.
Context {W : Type} `{Hformats : Formats} `{Hkeys : ApiKeyState W} `{Htransport : HttpTransport W}
  `{Haudit : SessionAudit W} `{Hclock : Clock W} `{Hwatch : Stopwatch W}
  `{Hsleeper : RetrySleeper W} `{Hmeter : !Metered W}.
Variables (base_url_arg : string) (ttl_ms : Z).

Lemma costs_failed d key_fault message : costs 0 0 0 (failed (W := W) d key_fault message).
Proof. unfold failed. free_calls. Qed.

Lemma costs_request_data_used key : costs 2 0 0 (request_data_used base_url_arg ttl_ms key).
Proof.
  unfold request_data_used. apply (costs_bind 1 0 0 1 0 0); [apply costs_acquire_session|intros acquired].
  apply (costs_try 0 0 0 1 0); [apply costs_ret|done|done|intros session].
  apply (costs_bind 0 0 0 1 0 0); [apply costs_timestamp|intros stamp].
  apply (costs_try 0 0 0 1 0); [apply costs_ret|done|done|intros timestamp].
  apply (costs_bind 0 1 0 1 (-1) 0); [apply costs_increment|intros _].
  apply costs_then; [apply costs_silent, meter_instant|intros started].
  apply (costs_bind 1 (-1) 0 0 0 0); [apply costs_get|intros response].
  apply costs_then; [apply costs_silent, meter_elapsed|intros elapsed].
  apply costs_then; [apply costs_silent, meter_log|intros _].
  repeat case_match; try apply costs_failed. apply costs_then; [apply costs_silent, meter_success|intros _; apply costs_ret].
Qed.

(** A probe sends at most two requests, one of them for a session, charges each
    to a key and never waits. *)
Theorem probe_charged key : costs 2 0 0 (get_data_used base_url_arg ttl_ms key).
Proof.
  apply (costs_try 2 0 0 0 0); [|done|done|intros; apply costs_ret].
  apply (costs_try 2 0 0 0 0); [apply costs_request_data_used|done|done|intros; apply costs_ret].
Qed.
End costs.
